(* ===== verification/_CoqProject ===== *)
-Q . S2P
Prelude.v
Decimal.v
Mem.v
PbIstream.v
PbOstream.v
PbField.v
PbEncode.v
PbDecode.v
PbMessage.v
PbLayout.v
PbVarint.v
PbWriter.v
PbEncodeSize.v
PbIter.v
PbWire.v
PbEncodeSpec.v
PbRequired.v
PbRoundtrip.v
PbTotal.v
PbTerminate.v
PbEncodeTotal.v
PbReaders.v
PbSchema.v
HeapLogic.v
PbOwn.v
PbSafeRelease.v
PbSafeValues.v
PbSafeFields.v
PbSafe.v
Cbs.v
CbsSpec.v
OsslMem.v
Qsort.v
Stack.v
StackSpec.v
Cbb.v
DerInt.v
CbbFrames.v
CbbBuffer.v
CbbFlush.v
CbbOps.v
CbbElements.v
CbbOid.v
CbbSetOf.v
CbbSpec.v
CbsText.v
CbbOidText.v
CbbTheorems.v
Base64.v
Base64Spec.v
LHash.v
LHashSpec.v
UvHeap.v
UvHeapSpec.v
UvTimer.v
UvTimerInv.v
UvTimerCalls.v
UvTimerSpec.v
UvClose.v
UvInet.v
UvInetText.v
UvInetGroups.v
UvInetNtop.v
UvInetPton.v
UvInetSpec.v
TimeSpec.v
WordOps.v
Md32.v
Sha2.v
Sha1.v
Md5.v
Evp.v
EvpSpec.v
Hmac.v
HmacSpec.v
KeyBlocks.v
Hkdf.v
Pbkdf.v
TlsPrf.v
