(* ===== verification/Prelude.v ===== *)
(** * The C core of Datability: nanopb, libuv, and the parsers, containers and hashes of BoringSSL

    Datability is an iOS application; the C code it is built from is vendored under
    src/Datability/Pods.  This library models, and proves correct, the parts of that
    code that parse, serialise, store and hash data.  The Swift and Objective-C code calls
    them through Google's SDKs: the analytics transport encodes its log requests with
    nanopb, gRPC's TLS stack parses certificates with BoringSSL's CBS, decodes PEM
    with its base64 code, indexes objects and sessions with its hash table, and derives
    the keys of a connection with its digests and HMAC.

    ** The parts and where they are modelled

    - [Prelude] (this file): machine integers, the effect of a C function, byte and
      list lemmas, the shared tactics and hint databases.  [Decimal]: numerals in
      decimal, for the code that prints and reads them.
    - [Mem]: a byte-addressed memory with the C library's heap.  Loads
      and stores outside mapped memory, frees of what is no live block and calls
      through null pointers are undefined behaviour, the outcome [Ub].
    - nanopb (Pods/nanopb), as configured by the Pods' build settings
      (PB_FIELD_32BIT, PB_ENABLE_MALLOC, 64-bit integers, error messages on):
      [PbIstream] is the input stream half of pb_decode.c, [PbOstream] the output
      stream half of pb_encode.c, [PbField] the descriptors of pb.h with the iterator
      of pb_common.c, [PbEncode] the rest of pb_encode.c, and [PbDecode] (defaults,
      extensions, releases) and [PbMessage] (field decoders and messages) the rest of
      pb_decode.c.  [PbLayout] is the log protocol of cct.nanopb.c: its structs, their
      layout by the C rules on a 64-bit target, and the ten descriptor arrays that
      the PB_FIELD macros build.
    - BoringSSL (Pods/BoringSSL-GRPC/src/crypto): [Cbs] and, for the functions that
      allocate or print, [CbsText] are bytestring/cbs.c, [Cbb] is bytestring/cbb.c over
      explicit stores of CBB and buffer objects, [OsslMem] the allocator of mem.c,
      [Stack] stack/stack.c, [Base64] base64/base64.c, [LHash] lhash/lhash.c, [TimeSpec] the
      calendar of asn1/time_support.c.  [Qsort] states what the C library's qsort
      promises.
    - BoringSSL's hashes (src/crypto/fipsmodule): [WordOps] is the loads, stores, rotations
      and memory helpers of crypto/internal.h, [Md32] the collector of
      digest/md32_common.h, [Sha2], [Sha1] and [Md5] the files of sha/ and md5/ (sha256.c
      and sha512.c with the macros they share in [Sha2]) with their portable block
      functions (the Pods define OPENSSL_NO_ASM), [Evp] digest/digests.c and
      digest/digest.c: the table of digests, and contexts that point to a digest and to
      a block of a store; [EvpSpec] names the eight static digests.  [Hmac] is
      hmac/hmac.c, three digest contexts in one; [Hkdf] hkdf/hkdf.c, [Pbkdf]
      evp/pbkdf.c and [TlsPrf] fipsmodule/tls/kdf.c run over HMAC contexts of their own.
      Output buffers are lists with an offset, and a write beyond them is [Ub].
    - libuv (Pods/Libuv-gRPC/src): [UvHeap] is heap-inl.h, [UvTimer] timer.c with the
      handle macros of uv-common.h and the parts of unix/core.c that close handles and
      say how long the loop may sleep, for timers.  [UvInet] is inet.c with the bounded
      copy of strscpy.c: internet addresses and their text.

    A C function that returns [bool] or an [int] flag is a state transformer [M S A]
    whose state is the object it is given by pointer; its result is [Ret], [Fail]
    (the C false, with the object as the function left it), [Ub] or [NoFuel].  The
    order of reads, writes, checks and error messages is the code's.  Function
    pointers of the user (stream callbacks, field callbacks, extension handlers, the
    hash and comparison functions) are parameters, collected for nanopb in [env]; so
    are the C library's malloc and qsort.

    ** The theorems

    - [PbWire] (on [PbVarint]): the wire format.  The varint readers
      agree with a reference reader on every input, with the exact error on every
      branch; varints, zig-zag and fixed-width integers and tags round trip; the
      writer is minimal; skipping a field and reading it through a substream consume
      exactly the field.  One overflow that the 32-bit reader misses is exhibited.
    - [PbEncodeSpec] (on [PbWriter], [PbEncodeSize]): the encoder.  A writer is
      characterised by the bytes it emits whatever the stream; every encoder is one,
      so the sizing pass, the announced lengths and the bytes written agree, no buffer
      is overrun, and delimited messages are framed by their length.
    - [PbIter]: the iterator against the layout of a struct, its termination, and the
      agreement of the descriptors of cct.nanopb.c with their structs.
    - [PbRequired]: the required-field bitmap, and the integer decoders: the number that
      a varint is for a field, and when it is refused.
    - [PbRoundtrip]: every scalar field type through its encoder and its decoder; a
      whole log event, its corruptions and its truncations, by evaluation.
    - [PbTerminate] (on [PbTotal]) and [PbEncodeTotal]: decoding any input into, and
      encoding any memory as, a message of non-recursive type terminates.
    - [PbSafe]: for every input, pb_decode has no undefined behaviour and leaves a
      message whose blocks it owns.  The proof is in a separation logic of its own:
      [HeapLogic] the logic of heap predicates as an instance of Iris's interface, cells,
      the weakest precondition of the effect monad and its rules for streams and lent
      memory, [PbReaders] the readers of the wire,
      [PbSchema] the class of descriptors (static and pointer fields, counters,
      optional flags, arrays on the heap, nested messages; no extensions, callbacks,
      unions, fixed-count arrays or static arrays of messages), [PbOwn] what a message
      owns, and [PbSafeRelease] (defaults and releases), [PbSafeValues],
      [PbSafeFields] one layer of the decoder each.  It supposes a struct in mapped memory, a heap within
      the first 4 GiB of addresses that has room (the item addresses of repeated fields
      are computed in 32 bits, see the findings) and stream callbacks that write only
      where they are told.
    - [CbsSpec]: the DER reader accepts exactly what a reference encoder
      of X.690 produces; contents, tags and integers of the elements it reads.
    - [CbbSpec] (on [CbbFrames], the abstract builder, and [CbbBuffer], [CbbFlush],
      [CbbOps], [CbbElements], [CbbOid], which prove one operation after the other
      against it): a CBB yields the bytes of nested length-prefixed frames under every
      sequence of calls, or fails for a stated reason and can be cleaned up.
    - [CbbTheorems] (on [CbbSetOf], [CbbOidText], [DerInt]): what the CBB
      writes the CBS reads back; object identifiers and their text; SET OF in DER order.
    - [Base64Spec]: the constant-time tables against RFC 4648, the one-shot round trip
      and the independence of the streaming calls from how the data is cut.
    - [LHashSpec]: the hash table refines an abstract dictionary under every sequence
      of calls, with the load bound and the walk.
    - [StackSpec]: a stack answers every sequence of calls, searches
      included, as a list does; copies are made in full or not at all.
    - [UvHeapSpec] (the linked nodes as a tree in level order, and as a queue): the
      heap is a priority queue under every sequence of calls.
    - [UvTimerSpec] (on [UvTimerInv], the invariant, and [UvTimerCalls], one call after
      the other) and [UvClose]: calls on timers against a machine without heap, the time
      the loop may sleep, the termination and the order of the due timers, closing.
    - [UvInetSpec] (on [UvInetText], [UvInetGroups], [UvInetNtop], [UvInetPton]):
      the text of addresses round trips, IPv4 text is accepted exactly
      when it is dotted decimal, IPv6 text is the canonical one, and neither direction
      leaves its buffers.
    - [TimeSpec]: the calendar against the Gregorian rules, for every date and offset.
    - [Md32]: hashing by blocks, whatever the compression function: the class
      [BlockFunction] says what a block function of the code computes, and the collector
      is proved against it once.  [Sha2], [Sha1] and [Md5] state FIPS 180-4 and RFC 1321 and give the instances: the unrolled rounds, which
      rename variables instead of moving them and keep sixteen words of the schedule,
      are the steps of the standard; and the constants of SHA-2 are the roots of
      primes that the standard prescribes.
    - [EvpSpec]: the class [Digest], what a digest promises to the calls that go through a
      context, with an instance for each digest of the library; triples, and
      one rule for each call on a context, with the blocks it owns apart from all others;
      a digest of a message in any pieces.
    - [HmacSpec]: the same for the contexts of HMAC; clients of the
      class, the rules hold for every digest.  [HmacSpec], [Hkdf], [Pbkdf] and
      [TlsPrf] (the last three on [KeyBlocks], buffers that are filled block by block):
      HMAC, HKDF, PBKDF2 and the PRF of TLS compute RFC 2104, RFC 5869, RFC 8018,
      RFC 5246 and RFC 2246 on every input, fail for the stated reasons only and leak no
      block.  Test vectors of the RFCs are checked by evaluation.

    ** Recursion bounds

    Loops over lists are structural.  Other loops take a bound that the model
    computes: eleven rounds for a varint, one per remaining byte for the loops that
    consume a stream, one per field and one more for a walk over a message, one per
    mapped byte for the linked list of extensions and for strings (a well-formed list
    or string has no more entries than there are mapped bytes), one per live CBB for the
    recursion of CBB_flush, 33 levels for a heap of 32-bit size, one per timer for the
    list of closing handles.  The bound of the
    mutual recursion through submessages is an argument of [pb_encode], [pb_decode]
    and their like: the nesting of the message.  [decode_terminates] and
    [encode_terminates] prove that no bound is reached when that argument exceeds the
    nesting of the message's type; for types that contain themselves, and for lists
    of extensions (which the code itself walks for ever when they are cyclic), the
    theorems about results hold for any bound.  The rounds of uv__run_timers are an
    argument too, because callbacks that start timers with a zero timeout can keep it
    running; [run_timers_terminates] says how many are enough when they do not.  The loops
    over the message schedule have 64 and 80 rounds to spend, the loop of PBKDF2 one more
    than the bytes of the key and that of P_hash one per byte of output (each round stores
    at least one byte); the theorems about them prove that these are enough.

    ** What is not modelled, and why

    In the modelled files: the branches that this build does not compile
    (PB_WITHOUT_64BIT and the like); the weak allocation hooks of mem.c, which are not
    set; the freeing of a table or context; the effect of freeing bytes that the model
    keeps as a value of the object that points to them (buffers, arrays of pointers); callbacks of OPENSSL_lh_doall_arg that change
    the table they are called from; the bytes a failing stream callback may have put
    in the buffer before it failed.  A read_raw_value or field callback sees the
    memory and the stream, not the rest of the program.  MD4, the variants of the block
    functions for i386, AltiVec and assembly, the engine argument, which the code ignores,
    and the allocation of the context objects themselves.  What the owner of a [pctx] does
    when its copy is freed leaves nothing to observe, and a context is never copied onto
    itself.  A context that is cleansed holds zeros.  Of libuv's handles, only
    timers, on one loop.  Outside them: the rest of
    BoringSSL and of libuv (system calls), the generated upb tables, the other descriptor
    tables, and all Swift, Objective-C and C++ code.

    ** Plan

    What could follow: unions and static arrays of messages in the class of
    [decode_memory_safe], a message-level round trip for nanopb, the conversions of
    bytestring (ber.c, unicode.c), the names of libuv (idna.c), and the ciphers and record
    layer of TLS on top of the digests. *)
From Stdlib Require Export ZArith Lia Bool.
From stdpp Require Export base option list gmap strings.

Set Default Proof Using "Type".

Declare Scope cmodel_scope.
Delimit Scope cmodel_scope with cmodel.
Global Open Scope Z_scope.

(** ** Machine integers

    A w-bit unsigned integer is a [Z] in [0, 2^w); every operation of the code
    that can leave the range is followed by one of the casts below. *)
Definition wrap (w x : Z) : Z := x mod 2 ^ w.
Definition sext (w x : Z) : Z :=
  let y := wrap w x in if y <? 2 ^ (w - 1) then y else y - 2 ^ w.

Abbreviation u8 := (wrap 8).
Abbreviation u16 := (wrap 16).
Abbreviation u32 := (wrap 32).
Abbreviation u64 := (wrap 64).
Abbreviation i8 := (sext 8).
Abbreviation i16 := (sext 16).
Abbreviation i32 := (sext 32).
Abbreviation i64 := (sext 64).

Definition is_byte (b : Z) : Prop := 0 <= b < 256.
Definition bytes_ok (l : list Z) : Prop := Forall is_byte l.
Definition zlen {A} (l : list A) : Z := Z.of_nat (length l).
Definition ztake {A} (n : Z) (l : list A) : list A := take (Z.to_nat n) l.
Definition zdrop {A} (n : Z) (l : list A) : list A := drop (Z.to_nat n) l.

(** The little-endian byte representation of an integer. *)
Fixpoint le_bytes (n : nat) (v : Z) : list Z :=
  match n with
  | O => []
  | S k => Z.land v 255 :: le_bytes k (Z.shiftr v 8)
  end.

Fixpoint le_value (l : list Z) : Z :=
  match l with
  | [] => 0
  | b :: r => Z.lor b (Z.shiftl (le_value r) 8)
  end.

(** ** The effect of a C function

    A C function that returns [bool] and works on an object it is given by
    pointer is a state transformer.  [Ret] is the return of [true] (with the
    values written through out-parameters), [Fail] is the return of [false]
    with the object as the function left it, [Ub] is undefined behaviour (a
    load or store outside mapped memory, a call through a null pointer), and
    [NoFuel] is a run longer than the model's recursion bound. *)
Inductive out (S A : Type) : Type :=
| Ret (a : A) (s : S)
| Fail (s : S)
| Ub
| NoFuel.
Arguments Ret {S A}.
Arguments Fail {S A}.
Arguments Ub {S A}.
Arguments NoFuel {S A}.

Definition M (S A : Type) : Type := S -> out S A.

Definition ret {S A} (a : A) : M S A := fun s => Ret a s.
Definition bind {S A B} (m : M S A) (k : A -> M S B) : M S B := fun s =>
  match m s with
  | Ret a s' => k a s'
  | Fail s' => Fail s'
  | Ub => Ub
  | NoFuel => NoFuel
  end.
Definition failm {S A} : M S A := fun s => Fail s.
Definition ubm {S A} : M S A := fun _ => Ub.
Definition nofuelm {S A} : M S A := fun _ => NoFuel.
Definition getm {S} : M S S := fun s => Ret s s.
Definition putm {S} (s : S) : M S unit := fun _ => Ret tt s.
Definition modm {S} (f : S -> S) : M S unit := fun s => Ret tt (f s).
(** [tryb m] runs [m] for its [bool] result instead of returning on [false]. *)
Definition tryb {S A} (m : M S A) : M S (option A) := fun s =>
  match m s with
  | Ret a s' => Ret (Some a) s'
  | Fail s' => Ret None s'
  | Ub => Ub
  | NoFuel => NoFuel
  end.
(** A partial read: [None] is undefined behaviour. *)
Definition of_opt {S A} (o : option A) : M S A := fun s =>
  match o with Some a => Ret a s | None => Ub end.

Notation "'let!' x ':=' c1 'in' c2" := (bind c1 (fun x => c2))
  (at level 10, x pattern, c1 at level 100, c2 at level 200,
   format "'[v' 'let!'  x  ':='  c1  'in' '/' c2 ']'") : cmodel_scope.
Notation "c1 ';;!' c2" := (bind c1 (fun _ => c2))
  (at level 199, right associativity) : cmodel_scope.
Global Open Scope cmodel_scope.

(** ** Lemmas on the effect monad *)

Lemma bind_ret {S A B} (a : A) (k : A -> M S B) s : bind (ret a) k s = k a s.
Proof. reflexivity. Qed.

Lemma bind_assoc {S A B C} (m : M S A) (f : A -> M S B) (g : B -> M S C) s :
  bind (bind m f) g s = bind m (fun a => bind (f a) g) s.
Proof. unfold bind. by destruct (m s). Qed.

Lemma bind_ext {S A B} (m : M S A) (k k' : A -> M S B) s :
  (forall a s, k a s = k' a s) -> bind m k s = bind m k' s.
Proof. intros E. unfold bind. destruct (m s); by rewrite ?E. Qed.

(** [bind] on a run of the first part that is known. *)
Lemma bind_Ret {S A B} (m : M S A) (k : A -> M S B) s a s' :
  m s = Ret a s' -> bind m k s = k a s'.
Proof. unfold bind. by intros ->. Qed.

Lemma bind_Fail {S A B} (m : M S A) (k : A -> M S B) s s' :
  m s = Fail s' -> bind m k s = Fail s'.
Proof. unfold bind. by intros ->. Qed.

Lemma bind_inv {S A B} (m : M S A) (k : A -> M S B) s b s' :
  bind m k s = Ret b s' -> exists a s1, m s = Ret a s1 /\ k a s1 = Ret b s'.
Proof. unfold bind. destruct (m s); try done. eauto. Qed.

(** ** Bits as arithmetic *)

Lemma lor_shiftl_add a b n :
  0 <= n -> 0 <= a < 2 ^ n -> Z.lor a (Z.shiftl b n) = a + b * 2 ^ n.
Proof.
  intros Hn Ha. rewrite <- Z.shiftl_mul_pow2 by done.
  rewrite <- Z.lxor_lor, Z.add_nocarry_lxor; try done.
  all: apply Z.bits_inj'; intros i Hi; rewrite Z.land_spec, Z.bits_0.
  all: destruct (Z.lt_ge_cases i n).
  all: try by rewrite Z.shiftl_spec_low, andb_false_r.
  all: rewrite <- (Z.mod_small a (2 ^ n)), Z.mod_pow2_bits_high by lia; done.
Qed.

Lemma land_mask_mod x n m : 0 <= n -> m = 2 ^ n - 1 -> Z.land x m = x mod 2 ^ n.
Proof.
  intros Hn ->. rewrite <- Z.land_ones, Z.ones_equiv by done. f_equal.
Qed.

Lemma shiftr_div x n : 0 <= n -> Z.shiftr x n = x / 2 ^ n.
Proof. apply Z.shiftr_div_pow2. Qed.

Lemma wrap_range w x : 0 <= w -> 0 <= wrap w x < 2 ^ w.
Proof. intros. apply Z.mod_pos_bound. by apply Z.pow_pos_nonneg. Qed.
Lemma lor_range a b n : 0 <= n -> 0 <= a < 2 ^ n -> 0 <= b < 2 ^ n -> 0 <= Z.lor a b < 2 ^ n.
Proof.
  intros Hn Ha Hb. split; [apply Z.lor_nonneg; lia|].
  assert (E : Z.lor a b = Z.lor a b mod 2 ^ n).
  { rewrite <- !Z.land_ones, Z.land_lor_distr_l, !Z.land_ones by done.
    by rewrite !Z.mod_small. }
  rewrite E. apply Z.mod_pos_bound. by apply Z.pow_pos_nonneg.
Qed.

Lemma wrap_small w x : 0 <= x < 2 ^ w -> wrap w x = x.
Proof. apply Z.mod_small. Qed.

Lemma wrap_wrap w x : wrap w (wrap w x) = wrap w x.
Proof. unfold wrap. destruct (Z.eq_dec (2 ^ w) 0) as [->|].
  - by rewrite !Z.mod_0_r.
  - by rewrite Z.mod_mod. Qed.

(** ** Lists indexed by integers *)

Lemma zlen_nonneg {A} (l : list A) : 0 <= zlen l.
Proof. unfold zlen. lia. Qed.

Lemma zlen_nil {A} : zlen (@nil A) = 0.
Proof. done. Qed.

Lemma zlen_cons {A} (x : A) l : zlen (x :: l) = zlen l + 1.
Proof. unfold zlen. cbn [length]. lia. Qed.

Lemma zlen_app {A} (l k : list A) : zlen (l ++ k) = zlen l + zlen k.
Proof. unfold zlen. rewrite length_app. lia. Qed.

Lemma ztake_app {A} (l k : list A) : ztake (zlen l) (l ++ k) = l.
Proof. unfold ztake, zlen. by rewrite Nat2Z.id, take_app_length. Qed.

Lemma zdrop_app {A} (l k : list A) : zdrop (zlen l) (l ++ k) = k.
Proof. unfold zdrop, zlen. by rewrite Nat2Z.id, drop_app_length. Qed.

Lemma zlen_ztake {A} n (l : list A) : 0 <= n <= zlen l -> zlen (ztake n l) = n.
Proof. unfold ztake, zlen. rewrite length_take. lia. Qed.

Lemma zlen_zdrop {A} n (l : list A) : 0 <= n <= zlen l -> zlen (zdrop n l) = zlen l - n.
Proof. unfold zdrop, zlen. rewrite length_drop. lia. Qed.

Lemma ztake_zdrop {A} n (l : list A) : ztake n l ++ zdrop n l = l.
Proof. apply take_drop. Qed.

Create HintDb cmodel.
Create Rewrite HintDb cmodel_rw.
#[export] Hint Rewrite @zlen_nil @zlen_cons @zlen_app @ztake_app @zdrop_app : cmodel_rw.
#[export] Hint Resolve zlen_nonneg wrap_range : cmodel.

(** ** Tactics *)

(** Decide the boolean comparisons of the goal, one at a time. *)
Ltac case_bool :=
  match goal with
  | |- context [Z.eqb ?a ?b] => destruct (Z.eqb_spec a b)
  | |- context [Z.ltb ?a ?b] => destruct (Z.ltb_spec a b)
  | |- context [Z.leb ?a ?b] => destruct (Z.leb_spec a b)
  end.
(** Rewrite a boolean comparison whose outcome [lia] knows. *)
Ltac solve_bool :=
  symmetry;
  first [ apply Z.leb_le | apply Z.ltb_lt | apply Z.eqb_eq
        | apply Z.leb_gt | apply Z.ltb_ge | apply Z.eqb_neq | idtac ]; lia.
Ltac bool_true b := replace b with true by solve_bool.
Ltac bool_false b := replace b with false by solve_bool.

(** ** Arrays and stores *)

(** The array [l] with [data] written from index [i] on; [None] out of bounds. *)
Definition overwrite {A} (l : list A) (i : Z) (data : list A) : option (list A) :=
  if (0 <=? i) && (i + zlen data <=? zlen l)
  then Some (ztake i l ++ data ++ zdrop (i + zlen data) l) else None.

(** The items [l[i] .. l[i + n - 1]]; [None] out of bounds. *)
Definition slice {A} (l : list A) (i n : Z) : option (list A) :=
  if (0 <=? i) && (0 <=? n) && (i + n <=? zlen l) then Some (ztake n (zdrop i l)) else None.

(** An address no object of the store has. *)
Definition new_ref {A} (m : gmap nat A) : nat :=
  S (map_fold (fun r _ n => Nat.max r n) 0%nat m).

Lemma overwrite_app {A} (pre old post data : list A) i :
  i = zlen pre -> zlen old = zlen data ->
  overwrite (pre ++ old ++ post) i data = Some (pre ++ data ++ post).
Proof.
  intros -> E. unfold overwrite. rewrite !zlen_app.
  pose proof (zlen_nonneg pre). pose proof (zlen_nonneg post).
  bool_true (0 <=? zlen pre). bool_true (zlen pre + zlen data <=? zlen pre + (zlen old + zlen post)).
  cbn [andb]. rewrite ztake_app, <- E, <- zlen_app. do 3 f_equal.
  by rewrite app_assoc, zdrop_app.
Qed.

Lemma slice_app {A} (pre mid post : list A) i n :
  i = zlen pre -> n = zlen mid -> slice (pre ++ mid ++ post) i n = Some mid.
Proof.
  intros -> ->. unfold slice. rewrite !zlen_app, zdrop_app, ztake_app.
  pose proof (zlen_nonneg pre). pose proof (zlen_nonneg post). pose proof (zlen_nonneg mid).
  bool_true (0 <=? zlen pre). bool_true (0 <=? zlen mid).
  by bool_true (zlen pre + zlen mid <=? zlen pre + (zlen mid + zlen post)).
Qed.

Lemma new_ref_fresh {A} (m : gmap nat A) : m !! new_ref m = None.
Proof.
  unfold new_ref.
  assert (H : forall k, is_Some (m !! k) -> (k <= map_fold (fun r _ n => Nat.max r n) 0%nat m)%nat).
  { apply (map_fold_weak_ind (fun r m => forall k, is_Some (m !! k) -> (k <= r)%nat)).
    - intros k [? Hk]. by rewrite lookup_empty in Hk.
    - intros i x m' r Hi IH k. destruct (Nat.eq_dec k i) as [->|Hne]; [lia|].
      rewrite lookup_insert_ne by done. intros Hk%IH. lia. }
  apply eq_None_not_Some. intros Hs%H. lia.
Qed.

(** ** Little-endian bytes *)

Lemma le_bytes_length n v : length (le_bytes n v) = n.
Proof. revert v. induction n as [|n IH]; intros v; cbn [le_bytes length]; [done|by rewrite IH]. Qed.

Lemma le_value_bytes n v : le_value (le_bytes n v) = wrap (8 * Z.of_nat n) v.
Proof.
  revert v. induction n as [|n IH]; intros v; cbn [le_bytes le_value].
  - unfold wrap. change (8 * Z.of_nat 0) with 0. by rewrite Z.mod_1_r.
  - rewrite IH. unfold wrap. rewrite (land_mask_mod v 8), shiftr_div by lia.
    rewrite lor_shiftl_add by (try lia; apply Z.mod_pos_bound; lia).
    replace (8 * Z.of_nat (S n)) with (8 + 8 * Z.of_nat n) by lia.
    rewrite Z.pow_add_r, Z.rem_mul_r by lia. lia.
Qed.

Lemma le_value_range l : bytes_ok l -> 0 <= le_value l < 2 ^ (8 * zlen l).
Proof.
  induction 1 as [|b l Hb _ IH]; [done|]. cbn [le_value]. rewrite zlen_cons.
  rewrite lor_shiftl_add by (try lia; exact Hb).
  replace (8 * (zlen l + 1)) with (8 * zlen l + 8) by lia.
  pose proof (zlen_nonneg l). rewrite Z.pow_add_r by lia. unfold is_byte in Hb.
  change (2 ^ 8) with 256. nia.
Qed.
