(* ===== verification/Decimal.v ===== *)
(** * Decimal numbers

    The digits that C's [%u] and [%PRIu64] print, and their uniqueness: every number has
    one numeral without leading zeros. *)
From S2P Require Import Prelude.

Definition chr_dot : Z := 46.
Definition chr_0 : Z := 48.
Definition chr_9 : Z := 57.

(** [%PRIu64]: the decimal digits of a 64-bit number, most significant first. *)
Fixpoint decimal_digits (fuel : nat) (v : Z) : list Z :=
  match fuel with
  | O => []
  | S k => if v <? 10 then [chr_0 + v] else decimal_digits k (v / 10) ++ [chr_0 + v mod 10]
  end.
(** Twenty digits hold every 64-bit number. *)
Definition decimal (v : Z) : list Z := decimal_digits 20 v.

(** ** Values *)

Definition is_digit (d : Z) : Prop := chr_0 <= d <= chr_9.
Definition dec_value (v0 : Z) (l : list Z) : Z := foldl (fun a d => a * 10 + (d - chr_0)) v0 l.

Lemma dec_value_snoc v l d : dec_value v (l ++ [d]) = dec_value v l * 10 + (d - chr_0).
Proof. unfold dec_value. by rewrite foldl_app. Qed.

Lemma decimal_shape k : forall v, 0 <= v < 10 ^ Z.of_nat k -> (0 < k)%nat ->
  let l := decimal_digits k v in
  Forall is_digit l /\ dec_value 0 l = v /\ l <> [] /\ (v <> 0 -> head l <> Some chr_0) /\
  (v = 0 -> l = [chr_0]).
Proof.
  induction k as [|k IH]; intros v Hv Hk; [lia|]. cbn [decimal_digits].
  destruct (Z.ltb_spec v 10).
  - cbn zeta. split; [constructor; [unfold is_digit, chr_0, chr_9; lia|constructor]|].
    split; [unfold dec_value; cbn [foldl]; lia|]. split; [done|].
    split; [intros ? [= ?]; lia|]. intros ->. done.
  - replace (Z.of_nat (S k)) with (1 + Z.of_nat k) in Hv by lia. rewrite Z.pow_add_r, Z.pow_1_r in Hv by lia.
    destruct k as [|k]; [change (10 ^ Z.of_nat 0) with 1 in Hv; lia|].
    destruct (IH (v / 10)) as (Hd & Hval & Hne & Hh & _);
      [split; [apply Z.div_pos; lia|apply Z.div_lt_upper_bound; lia]|lia|].
    pose proof (Z.div_mod v 10 ltac:(lia)). pose proof (Z.mod_pos_bound v 10 ltac:(lia)).
    cbn zeta. set (l := decimal_digits (S k) (v / 10)) in *. split.
    { apply Forall_app. split; [done|]. constructor; [unfold is_digit, chr_0, chr_9; lia|constructor]. }
    split; [rewrite dec_value_snoc, Hval; unfold chr_0; lia|]. split; [by destruct l|]. split; [|lia].
    intros _. destruct l as [|d l]; [done|]. apply Hh. 
    assert (1 <= v / 10) by (apply Z.div_le_lower_bound; lia). lia.
Qed.

Lemma decimal_spec v : 0 <= v < 2 ^ 64 ->
  Forall is_digit (decimal v) /\ dec_value 0 (decimal v) = v /\ decimal v <> [] /\
  (v <> 0 -> head (decimal v) <> Some chr_0) /\ (v = 0 -> decimal v = [chr_0]).
Proof.
  intros Hv. apply (decimal_shape 20); [|lia]. change (10 ^ Z.of_nat 20) with 100000000000000000000.
  change (2 ^ 64) with 18446744073709551616 in Hv. lia.
Qed.

Lemma dec_value_ge l : forall v, Forall is_digit l -> 0 <= v -> v <= dec_value v l.
Proof.
  induction l as [|d l IH]; intros v Hl Hv; [done|]. inversion_clear Hl as [|? ? Hd Hl'].
  unfold is_digit, chr_0, chr_9 in Hd. cbn [dec_value foldl].
  etrans; [|apply IH; [done|unfold chr_0; lia]]. unfold chr_0. lia.
Qed.

(** A numeral: digits, without a leading zero unless it is zero itself. *)
Definition numeral (l : list Z) : Prop :=
  Forall is_digit l /\ l <> [] /\ (head l = Some chr_0 -> l = [chr_0]).

Lemma numeral_pos d l : numeral (d :: l) -> d :: l <> [chr_0] -> 1 <= dec_value 0 (d :: l).
Proof.
  intros (Hl & _ & Hh) Hne. inversion_clear Hl as [|? ? Hd Hl'].
  unfold is_digit, chr_0, chr_9 in Hd. cbn [dec_value foldl].
  etrans; [|apply dec_value_ge; [done|unfold chr_0; lia]]. unfold chr_0.
  destruct (Z.eq_dec d 48) as [->|]; [by destruct Hne; apply Hh|]. lia.
Qed.

(** Each number has one numeral. *)
Lemma numeral_unique k : forall l, numeral l -> (length l <= k)%nat ->
  decimal_digits k (dec_value 0 l) = l.
Proof.
  induction k as [|k IH]; intros l Hl Hk.
  - destruct l; [|cbn in Hk; lia]. by destruct Hl as (_ & ? & _).
  - destruct (exists_last (l := l)) as (l' & d & ->); [apply Hl|].
    destruct Hl as (Hall & _ & Hh). apply Forall_app in Hall as [Hl' Hd].
    inversion_clear Hd as [|? ? Hdd _]. unfold is_digit, chr_0, chr_9 in Hdd.
    rewrite dec_value_snoc. cbn [decimal_digits]. unfold chr_0 in *.
    destruct l' as [|e l'].
    + cbn [dec_value foldl app]. bool_true (0 * 10 + (d - 48) <? 10). f_equal. lia.
    + assert (Hnum : numeral (e :: l') /\ e :: l' <> [48]).
      { assert (Hne : e <> 48).
        { intros ->. specialize (Hh eq_refl). cbn [app] in Hh. injection Hh as Hh. by destruct l'. }
        split; [|intros [= ?]; done]. split; [done|]. split; [done|]. intros [= ?]. done. }
      destruct Hnum as [Hnum Hnz]. pose proof (numeral_pos e l' Hnum Hnz).
      set (x := dec_value 0 (e :: l')) in *. bool_false (x * 10 + (d - 48) <? 10).
      replace ((x * 10 + (d - 48)) / 10) with x by (Z.to_euclidean_division_equations; lia).
      replace ((x * 10 + (d - 48)) mod 10) with (d - 48) by (Z.to_euclidean_division_equations; lia).
      unfold x. rewrite IH; [|done|rewrite length_app in Hk; cbn [length] in Hk |- *; lia].
      do 2 f_equal. lia.
Qed.

Lemma decimal_numeral v : 0 <= v < 2 ^ 64 -> numeral (decimal v) /\ dec_value 0 (decimal v) = v.
Proof.
  intros Hv. destruct (decimal_spec v Hv) as (Hd & Hval & Hne & Hh & Hz).
  split; [|done]. split; [done|]. split; [done|]. intros H.
  destruct (Z.eq_dec v 0) as [->|]; [by apply Hz|]. by apply Hh in H.
Qed.

Lemma dec_value_scale l : forall v, Forall is_digit l -> 0 <= v ->
  v * 10 ^ Z.of_nat (length l) <= dec_value v l.
Proof.
  induction l as [|d l IH]; intros v Hl Hv; [cbn; lia|]. inversion_clear Hl as [|? ? Hd Hl'].
  unfold is_digit, chr_0, chr_9 in Hd. cbn [dec_value foldl length].
  etrans; [|apply IH; [done|unfold chr_0; lia]].
  replace (Z.of_nat (S (length l))) with (1 + Z.of_nat (length l)) by lia.
  rewrite Z.pow_add_r, Z.pow_1_r by lia.
  pose proof (Z.pow_pos_nonneg 10 (Z.of_nat (length l)) ltac:(lia) ltac:(lia)). unfold chr_0. nia.
Qed.

Lemma numeral_length l : numeral l -> dec_value 0 l < 2 ^ 64 -> (length l <= 20)%nat.
Proof.
  intros (Hl & Hne & Hh) Hv. destruct l as [|d l]; [done|]. cbn [head length] in *.
  destruct (Z.eq_dec d chr_0) as [->|Hd0]; [by specialize (Hh eq_refl) as [= ->]; cbn; lia|].
  inversion_clear Hl as [|? ? Hd Hl']. unfold is_digit, chr_0, chr_9 in *. cbn [dec_value foldl] in Hv.
  pose proof (dec_value_scale l (0 * 10 + (d - chr_0)) Hl' ltac:(unfold chr_0; lia)) as Hs.
  unfold dec_value, chr_0 in *.
  destruct (Nat.le_gt_cases (length l) 19) as [|H]; [lia|].
  assert (10 ^ 20 <= 10 ^ Z.of_nat (length l)) by (apply Z.pow_le_mono_r; lia).
  change (10 ^ 20) with 100000000000000000000 in *. change (2 ^ 64) with 18446744073709551616 in Hv. nia.
Qed.

Lemma decimal_of_numeral l : numeral l -> dec_value 0 l < 2 ^ 64 -> decimal (dec_value 0 l) = l.
Proof. intros Hl Hv. by apply numeral_unique, numeral_length. Qed.
