(* ===== verification/Mem.v ===== *)
(** * The C memory nanopb works on

    A byte-addressed 64-bit memory with the heap of the C library: the bytes
    that are mapped, the blocks that [realloc] handed out, the next free
    address and the address past which an allocation fails.  A load or store
    that touches an unmapped byte gives [None], which the models turn into
    [Ub].  The second part is the laws of loads, stores, releases and allocations. *)
From S2P Require Import Prelude.

Record mem : Type := Mem {
  m_bytes : gmap Z Z;
  m_blocks : gmap Z Z;     (* base address of each heap block -> its size *)
  m_next : Z;
  m_limit : Z }.

Definition NULL : Z := 0.

Definition with_bytes (m : mem) (b : gmap Z Z) : mem :=
  Mem b (m_blocks m) (m_next m) (m_limit m).

Fixpoint load_bytes (m : mem) (a : Z) (n : nat) : option (list Z) :=
  match n with
  | O => Some []
  | S k =>
      match m_bytes m !! a, load_bytes m (a + 1) k with
      | Some b, Some bs => Some (b :: bs)
      | _, _ => None
      end
  end.

Fixpoint store_bytes (m : mem) (a : Z) (bs : list Z) : option mem :=
  match bs with
  | [] => Some m
  | b :: r =>
      match m_bytes m !! a with
      | None => None
      | Some _ => store_bytes (with_bytes m (<[a := b]> (m_bytes m))) (a + 1) r
      end
  end.

(** [*(uintN_t* )a] and [*(uintN_t* )a = v], little-endian, [n] bytes. *)
Definition load (m : mem) (a : Z) (n : nat) : option Z :=
  match load_bytes m a n with Some bs => Some (le_value bs) | None => None end.
Definition store (m : mem) (a : Z) (n : nat) (v : Z) : option mem :=
  store_bytes m a (le_bytes n v).
Definition load_signed (m : mem) (a : Z) (n : nat) : option Z :=
  match load m a n with
  | Some v => Some (sext (8 * Z.of_nat n) v)
  | None => None
  end.

(** [memset(a, 0, n)] *)
Definition memset0 (m : mem) (a : Z) (n : nat) : option mem :=
  store_bytes m a (replicate n 0).

(** [free]: a null pointer is ignored, a pointer that is not the base of a live
    block is undefined behaviour. *)
Definition unmap (b : gmap Z Z) (a : Z) (n : nat) : gmap Z Z :=
  foldr (fun i acc => delete (a + Z.of_nat i) acc) b (seq 0 n).
Definition map_fresh (b : gmap Z Z) (a : Z) (bs : list Z) : gmap Z Z :=
  foldr (fun p acc => <[a + Z.of_nat p.1 := p.2]> acc) b
    (imap (fun i x => (i, x)) bs).

Definition c_free (m : mem) (p : Z) : option mem :=
  if p =? NULL then Some m else
  match m_blocks m !! p with
  | None => None
  | Some n =>
      Some (Mem (unmap (m_bytes m) p (Z.to_nat n)) (delete p (m_blocks m))
              (m_next m) (m_limit m))
  end.

(** [realloc(p, n)]: a fresh block of [n] bytes that starts with the old
    block's bytes ([fill] stands for the indeterminate rest), the old block
    freed; the null pointer, and an unchanged heap, when there is no room. *)
Definition c_realloc (fill : Z) (m : mem) (p n : Z) : option (Z * mem) :=
  let old := if p =? NULL then Some [] else
    match m_blocks m !! p with
    | Some k => load_bytes m p (Z.to_nat k)
    | None => None
    end in
  match old with
  | None => None
  | Some bs =>
      if m_limit m <? m_next m + n then Some (NULL, m) else
      match c_free m p with
      | None => None
      | Some m1 =>
          let a := m_next m in
          let keep := ztake n bs in
          let data := keep ++ replicate (Z.to_nat n - length keep) fill in
          Some (a, Mem (map_fresh (m_bytes m1) a data)
                      (<[a := n]> (m_blocks m1)) (a + n) (m_limit m))
      end
  end.


(** * Loads and stores: the laws of the memory model *)

(** [n] bytes from [a] on are mapped. *)
Definition mapped (m : mem) (a : Z) (n : nat) : Prop :=
  forall i : nat, (i < n)%nat -> is_Some (m_bytes m !! (a + Z.of_nat i)).

Lemma mapped_S m a n : mapped m a (S n) <-> is_Some (m_bytes m !! a) /\ mapped m (a + 1) n.
Proof.
  unfold mapped. split.
  - intros H. split; [specialize (H 0%nat); rewrite Z.add_0_r in H; apply H; lia|].
    intros i Hi. specialize (H (S i)). replace (a + 1 + Z.of_nat i) with (a + Z.of_nat (S i)) by lia.
    apply H. lia.
  - intros [H0 H] [|i] Hi; [by rewrite Z.add_0_r|].
    replace (a + Z.of_nat (S i)) with (a + 1 + Z.of_nat i) by lia. apply H. lia.
Qed.

Lemma store_bytes_other l : forall m a m' b,
  store_bytes m a l = Some m' -> b < a \/ a + zlen l <= b ->
  m_bytes m' !! b = m_bytes m !! b.
Proof.
  induction l as [|x l IH]; intros m a m' b H Hb; cbn [store_bytes] in H.
  - by injection H as <-.
  - destruct (m_bytes m !! a) eqn:Ea; [|done]. rewrite zlen_cons in Hb.
    pose proof (zlen_nonneg l). rewrite (IH _ _ _ _ H) by lia.
    cbn [with_bytes m_bytes]. apply lookup_insert_ne. lia.
Qed.

Lemma store_bytes_mapped l : forall m a,
  mapped m a (length l) -> exists m', store_bytes m a l = Some m'.
Proof.
  induction l as [|x l IH]; intros m a H; cbn [store_bytes length] in *; [by eauto|].
  apply mapped_S in H as [[y Hy] H]. rewrite Hy. apply IH.
  intros i Hi. cbn [with_bytes m_bytes]. rewrite lookup_insert_ne by lia. by apply H.
Qed.

Lemma store_bytes_load l : forall m a m',
  store_bytes m a l = Some m' -> load_bytes m' a (length l) = Some l.
Proof.
  induction l as [|x l IH]; intros m a m' H; cbn [store_bytes load_bytes length] in *; [done|].
  destruct (m_bytes m !! a) as [y|] eqn:Ea; [|done].
  rewrite (store_bytes_other _ _ _ _ a H) by lia. cbn [with_bytes m_bytes].
  by rewrite lookup_insert_eq, (IH _ _ _ H).
Qed.

(** A load sees the last store at the address. *)
Lemma load_store m a n v m' :
  store m a n v = Some m' -> load m' a n = Some (wrap (8 * Z.of_nat n) v).
Proof.
  unfold store, load. intros H. apply store_bytes_load in H.
  rewrite le_bytes_length in H. by rewrite H, le_value_bytes.
Qed.

Lemma store_mapped m a n v : mapped m a n -> exists m', store m a n v = Some m'.
Proof. intros H. apply store_bytes_mapped. by rewrite le_bytes_length. Qed.

(** Nothing else changes. *)
Lemma store_other m a n v m' b :
  store m a n v = Some m' -> b < a \/ a + Z.of_nat n <= b ->
  m_bytes m' !! b = m_bytes m !! b.
Proof.
  intros H Hb. eapply store_bytes_other; [exact H|]. unfold zlen. by rewrite le_bytes_length.
Qed.

Lemma sext_wrap w x : sext w (wrap w x) = sext w x.
Proof. unfold sext. by rewrite wrap_wrap. Qed.

Lemma sext_small w x : 0 < w -> - 2 ^ (w - 1) <= x < 2 ^ (w - 1) -> sext w x = x.
Proof.
  intros Hw Hx. unfold sext, wrap.
  assert (E : 2 ^ w = 2 * 2 ^ (w - 1)).
  { change 2 with (2 ^ 1) at 2. rewrite <- Z.pow_add_r by lia. f_equal. lia. }
  destruct (Z.lt_ge_cases x 0).
  - replace (x mod 2 ^ w) with (x + 2 ^ w).
    2: { apply (Z.mod_unique_pos _ _ (-1)); lia. }
    bool_false (x + 2 ^ w <? 2 ^ (w - 1)). lia.
  - rewrite Z.mod_small by lia. by bool_true (x <? 2 ^ (w - 1)).
Qed.

Lemma sext_range w x : 0 < w -> - 2 ^ (w - 1) <= sext w x < 2 ^ (w - 1).
Proof.
  intros Hw. unfold sext. pose proof (wrap_range w x ltac:(lia)) as H.
  assert (E : 2 ^ w = 2 * 2 ^ (w - 1)).
  { change 2 with (2 ^ 1) at 2. rewrite <- Z.pow_add_r by lia. f_equal. lia. }
  destruct (Z.ltb_spec (wrap w x) (2 ^ (w - 1))); lia.
Qed.

(** ** The memory after a store, a release and an allocation, byte by byte *)

Lemma load_bytes_lookup l : forall m a,
  (forall i b, l !! i = Some b -> m_bytes m !! (a + Z.of_nat i) = Some b) ->
  load_bytes m a (length l) = Some l.
Proof.
  induction l as [|x l IH]; intros m a H; cbn [load_bytes length]; [done|].
  pose proof (H 0%nat x eq_refl) as H0. rewrite Z.add_0_r in H0. rewrite H0, IH; [done|].
  intros i b Hi. rewrite <- (H (S i) b Hi). f_equal. lia.
Qed.

Lemma store_bytes_same l : forall m a m', store_bytes m a l = Some m' ->
  m_blocks m' = m_blocks m /\ m_next m' = m_next m /\ m_limit m' = m_limit m.
Proof.
  induction l as [|x l IH]; intros m a m' H; cbn [store_bytes] in H; [by injection H as <-|].
  destruct (m_bytes m !! a); [|done]. exact (IH _ _ _ H).
Qed.

Lemma store_bytes_lookup l : forall m a m' i b, store_bytes m a l = Some m' ->
  l !! i = Some b -> m_bytes m' !! (a + Z.of_nat i) = Some b.
Proof.
  induction l as [|x l IH]; intros m a m' i b H Hi; cbn [store_bytes] in H; [done|].
  destruct (m_bytes m !! a); [|done]. destruct i as [|i]; cbn in Hi.
  - injection Hi as ->. rewrite (store_bytes_other _ _ _ _ _ H) by lia.
    cbn [with_bytes m_bytes]. rewrite Z.add_0_r. apply lookup_insert_eq.
  - rewrite <- (IH _ _ _ i b H Hi). f_equal. lia.
Qed.

Lemma unmap_lookup b a n c :
  unmap b a n !! c = if decide (a <= c < a + Z.of_nat n) then None else b !! c.
Proof.
  unfold unmap. assert (H : forall k j, foldr (fun i acc => delete (a + Z.of_nat i) acc) b (seq j k) !! c =
    if decide (a + Z.of_nat j <= c < a + Z.of_nat (j + k)) then None else b !! c).
  { induction k as [|k IH]; intros j; cbn [seq foldr]; [rewrite decide_False; [done|lia]|].
    destruct (decide (c = a + Z.of_nat j)) as [->|Hne].
    - rewrite lookup_delete_eq, decide_True; [done|lia].
    - rewrite lookup_delete_ne, IH by done. repeat case_decide; done || lia. }
  rewrite H. repeat case_decide; done || lia.
Qed.

Lemma map_fresh_lookup b a l c :
  map_fresh b a l !! c = if decide (a <= c < a + zlen l) then l !! Z.to_nat (c - a) else b !! c.
Proof.
  unfold map_fresh, zlen. assert (H : forall j, foldr (fun p acc => <[a + Z.of_nat p.1 := p.2]> acc) b
      (imap (fun i x => ((i + j)%nat, x)) l) !! c =
    if decide (a + Z.of_nat j <= c < a + Z.of_nat (j + length l))
    then l !! (Z.to_nat (c - a) - j)%nat else b !! c).
  { induction l as [|x l IH]; intros j; cbn [imap foldr length]; [rewrite decide_False; [done|lia]|].
    cbn [fst snd]. change (0 + j)%nat with j. destruct (decide (c = a + Z.of_nat j)) as [->|Hne].
    - rewrite lookup_insert_eq, decide_True by lia.
      by replace (Z.to_nat (a + Z.of_nat j - a) - j)%nat with 0%nat by lia.
    - rewrite lookup_insert_ne by done.
      rewrite (imap_ext _ (fun i x => ((i + S j)%nat, x))) by (intros; cbn; f_equal; lia).
      rewrite IH. repeat case_decide; try (done || lia).
      by replace (Z.to_nat (c - a) - j)%nat with (S (Z.to_nat (c - a) - S j)) by lia. }
  specialize (H 0%nat). rewrite (imap_ext _ (fun i x => (i, x))) in H by (intros; cbn; f_equal; lia).
  rewrite H. repeat case_decide; try (done || lia). by rewrite Nat.sub_0_r.
Qed.
