(* ===== verification/PbIstream.v ===== *)
(** * nanopb input streams (pb_decode.c, first half)

    The limited-length input stream of nanopb, its reads and skips, the varint,
    tag and fixed-width readers, and the length-delimited substreams.  The
    bytes an input stream still has in front of it are the model's [i_state];
    reading past them is [Ub]. *)
From S2P Require Import Prelude.

(** [pb_istream_t.callback]: the library's own [buf_read], or the user's.  A
    user callback gets its state and the byte count, and returns success, the
    bytes it stored in the buffer, and its new state. *)
Inductive icallback : Type :=
| cb_buf_read
| cb_user_read (f : list Z -> Z -> bool * list Z * list Z).

Record istream : Type := Istream {
  i_callback : icallback;
  i_state : list Z;
  i_bytes_left : Z;
  i_errmsg : option string }.

Definition set_istate (st : list Z) (s : istream) : istream :=
  Istream (i_callback s) st (i_bytes_left s) (i_errmsg s).
Definition set_bytes_left (n : Z) (s : istream) : istream :=
  Istream (i_callback s) (i_state s) n (i_errmsg s).
(** [PB_SET_ERROR]: the first message set is kept. *)
Definition PB_SET_ERROR (msg : string) (s : istream) : istream :=
  Istream (i_callback s) (i_state s) (i_bytes_left s)
    (match i_errmsg s with Some m => Some m | None => Some msg end).
Definition PB_RETURN_ERROR {A} (msg : string) : M istream A :=
  modm (PB_SET_ERROR msg) ;;! failm.

Definition pb_istream_from_buffer (buf : list Z) (bufsize : Z) : istream :=
  Istream cb_buf_read buf bufsize None.

Definition buf_read (count : Z) : M istream (list Z) := fun s =>
  if zlen (i_state s) <? count then Ub
  else Ret (ztake count (i_state s)) (set_istate (zdrop count (i_state s)) s).

(** [stream->callback(stream, buf, count)] *)
Definition call_icallback (count : Z) : M istream (list Z) := fun s =>
  match i_callback s with
  | cb_buf_read => buf_read count s
  | cb_user_read f =>
      let '(ok, bs, st) := f (i_state s) count in
      if ok then Ret bs (set_istate st s) else Fail (set_istate st s)
  end.

(** [pb_read] with a buffer: the bytes stored in it are returned. *)
Definition pb_read (count : Z) : M istream (list Z) :=
  if count =? 0 then ret [] else
  let! s := getm in
  if i_bytes_left s <? count then PB_RETURN_ERROR "end-of-stream" else
  let! r := tryb (call_icallback count) in
  match r with
  | None => PB_RETURN_ERROR "io error"
  | Some bs =>
      modm (fun s => set_bytes_left (i_bytes_left s - count) s) ;;! ret bs
  end.

(** The loop of [pb_read] that skips the bytes of a user stream through
    [tmp[16]]. *)
Fixpoint pb_read_skip_loop (fuel : nat) (count : Z) : M istream unit :=
  match fuel with
  | O => nofuelm
  | S k =>
      if 16 <? count
      then pb_read 16 ;;! pb_read_skip_loop k (count - 16)
      else pb_read count ;;! ret tt
  end.

(** [pb_read] with [buf == NULL]: skip [count] bytes. *)
Definition pb_read_null (count : Z) : M istream unit :=
  if count =? 0 then ret tt else
  let! s := getm in
  match i_callback s with
  | cb_user_read _ => pb_read_skip_loop (S (Z.to_nat (count / 16))) count
  | cb_buf_read => pb_read count ;;! ret tt
  end.

Definition pb_readbyte : M istream Z :=
  let! s := getm in
  if i_bytes_left s =? 0 then PB_RETURN_ERROR "end-of-stream" else
  let! r := tryb (call_icallback 1) in
  match r with
  | None => PB_RETURN_ERROR "io error"
  | Some bs =>
      modm (fun s => set_bytes_left (i_bytes_left s - 1) s) ;;!
      of_opt (head bs)
  end.

(** The [do .. while] loop of [pb_decode_varint32_eof], [bitpos] being a
    [uint_fast8_t] of 8 bits.  Returns [result], [bitpos] and the last byte. *)
Fixpoint varint32_loop (fuel : nat) (bitpos result : Z) : M istream (Z * Z * Z) :=
  match fuel with
  | O => nofuelm
  | S k =>
      let! byte := pb_readbyte in
      let! result' :=
        (if 32 <=? bitpos then
           let sign_extension := if bitpos <? 63 then 0xFF else 0x01 in
           if negb (Z.land byte 0x7F =? 0) &&
              ((Z.shiftr result 31 =? 0) || negb (byte =? sign_extension))
           then PB_RETURN_ERROR "varint overflow"
           else ret result
         else ret (Z.lor result (u32 (Z.shiftl (Z.land byte 0x7F) bitpos)))) in
      let bitpos' := u8 (bitpos + 7) in
      if negb (Z.land byte 0x80 =? 0)
      then varint32_loop k bitpos' result'
      else ret (result', bitpos', byte)
  end.

Definition varint32_multibyte (byte : Z) : M istream Z :=
  let! s := getm in
  let! p := varint32_loop (S (Z.to_nat (i_bytes_left s))) 7 (Z.land byte 0x7F) in
  let '(result, bitpos, last) := p in
  if (bitpos =? 35) && negb (Z.land last 0x70 =? 0)
  then PB_RETURN_ERROR "varint overflow"
  else ret result.

(** Returns the decoded value ([None] for a return of [false]) and whether
    [*eof] was set. *)
Definition pb_decode_varint32_eof : M istream (option Z * bool) :=
  let! r := tryb pb_readbyte in
  match r with
  | None => let! s := getm in ret (None, i_bytes_left s =? 0)
  | Some byte =>
      let! v := tryb (if Z.land byte 0x80 =? 0 then ret byte
                      else varint32_multibyte byte) in
      ret (v, false)
  end.

Definition pb_decode_varint32 : M istream Z :=
  let! r := pb_decode_varint32_eof in
  match r.1 with Some v => ret v | None => failm end.

Fixpoint decode_varint_loop (fuel : nat) (bitpos result : Z) : M istream Z :=
  match fuel with
  | O => nofuelm
  | S k =>
      if 64 <=? bitpos then PB_RETURN_ERROR "varint overflow" else
      let! byte := pb_readbyte in
      let result' := Z.lor result (u64 (Z.shiftl (Z.land byte 0x7F) bitpos)) in
      let bitpos' := u8 (bitpos + 7) in
      if negb (Z.land byte 0x80 =? 0)
      then decode_varint_loop k bitpos' result'
      else ret result'
  end.

(** At most ten bytes are read: [bitpos] is 70 before an eleventh. *)
Definition pb_decode_varint : M istream Z := decode_varint_loop 11 0 0.

Fixpoint skip_varint_loop (fuel : nat) : M istream unit :=
  match fuel with
  | O => nofuelm
  | S k =>
      let! bs := pb_read 1 in
      let! byte := of_opt (head bs) in
      if negb (Z.land byte 0x80 =? 0) then skip_varint_loop k else ret tt
  end.

Definition pb_skip_varint : M istream unit :=
  let! s := getm in skip_varint_loop (S (Z.to_nat (i_bytes_left s))).

Definition pb_skip_string : M istream unit :=
  let! length := pb_decode_varint32 in pb_read_null length.

(** Wire types are the three low bits of a tag; the enumeration's constants. *)
Definition PB_WT_VARINT : Z := 0.
Definition PB_WT_64BIT : Z := 1.
Definition PB_WT_STRING : Z := 2.
Definition PB_WT_32BIT : Z := 5.

(** Returns [Some (wire_type, tag)], or [None] for a return of [false], and
    [*eof]. *)
Definition pb_decode_tag : M istream (option (Z * Z) * bool) :=
  let! r := pb_decode_varint32_eof in
  match r with
  | (None, eof) => ret (None, eof)
  | (Some temp, eof) =>
      if temp =? 0 then ret (None, true)
      else ret (Some (Z.land temp 7, Z.shiftr temp 3), eof)
  end.

Definition pb_skip_field (wire_type : Z) : M istream unit :=
  if wire_type =? PB_WT_VARINT then pb_skip_varint
  else if wire_type =? PB_WT_64BIT then pb_read_null 8
  else if wire_type =? PB_WT_STRING then pb_skip_string
  else if wire_type =? PB_WT_32BIT then pb_read_null 4
  else PB_RETURN_ERROR "invalid wire_type".

(** The varint case of [read_raw_value]: [acc] holds the bytes stored so far. *)
Fixpoint read_raw_varint (fuel : nat) (size max_size : Z) (acc : list Z)
    : M istream (list Z) :=
  match fuel with
  | O => nofuelm
  | S k =>
      if max_size <? size + 1 then failm else
      let! bs := pb_read 1 in
      let! byte := of_opt (head bs) in
      if negb (Z.land byte 0x80 =? 0)
      then read_raw_varint k (size + 1) max_size (acc ++ [byte])
      else ret (acc ++ [byte])
  end.

(** Returns the raw bytes of the value; their number is [*size] on return. *)
Definition read_raw_value (wire_type max_size : Z) : M istream (list Z) :=
  if wire_type =? PB_WT_VARINT then
    read_raw_varint (S (Z.to_nat max_size)) 0 max_size []
  else if wire_type =? PB_WT_64BIT then pb_read 8
  else if wire_type =? PB_WT_32BIT then pb_read 4
  else PB_RETURN_ERROR "invalid wire_type".

(** Returns the substream. *)
Definition pb_make_string_substream : M istream istream :=
  let! size := pb_decode_varint32 in
  let! s := getm in
  let substream := s in
  if i_bytes_left substream <? size
  then PB_RETURN_ERROR "parent stream too short"
  else putm (set_bytes_left (i_bytes_left s - size) s) ;;!
       ret (set_bytes_left size substream).

(** [close_with]: the parent takes the substream's state and message. *)
Definition close_with (substream : istream) (s : istream) : istream :=
  Istream (i_callback s) (i_state substream) (i_bytes_left s) (i_errmsg substream).

Definition pb_close_string_substream (substream : istream) : M istream unit :=
  fun s =>
    match (if i_bytes_left substream =? 0 then ret tt
           else pb_read_null (i_bytes_left substream)) substream with
    | Ret _ substream' => Ret tt (close_with substream' s)
    | Fail _ => Fail s
    | Ub => Ub
    | NoFuel => NoFuel
    end.

(** ** Scalar readers (pb_decode.c, "Field decoders") *)

(** [(pb_int64_t)] of a [pb_uint64_t] expression. *)
Definition pb_decode_svarint : M istream Z :=
  let! value := pb_decode_varint in
  if negb (Z.land value 1 =? 0)
  then ret (i64 (u64 (Z.lnot (Z.shiftr value 1))))
  else ret (i64 (Z.shiftr value 1)).

Definition byte_at (bs : list Z) (i : nat) : Z := nth i bs 0.

Definition pb_decode_fixed32 : M istream Z :=
  let! bytes := pb_read 4 in
  ret (Z.lor (Z.lor (Z.lor (Z.shiftl (byte_at bytes 0) 0)
                           (Z.shiftl (byte_at bytes 1) 8))
                    (Z.shiftl (byte_at bytes 2) 16))
             (Z.shiftl (byte_at bytes 3) 24)).

Definition pb_decode_fixed64 : M istream Z :=
  let! bytes := pb_read 8 in
  ret (Z.lor (Z.lor (Z.lor (Z.lor (Z.lor (Z.lor (Z.lor
             (Z.shiftl (byte_at bytes 0) 0)
             (Z.shiftl (byte_at bytes 1) 8))
             (Z.shiftl (byte_at bytes 2) 16))
             (Z.shiftl (byte_at bytes 3) 24))
             (Z.shiftl (byte_at bytes 4) 32))
             (Z.shiftl (byte_at bytes 5) 40))
             (Z.shiftl (byte_at bytes 6) 48))
             (Z.shiftl (byte_at bytes 7) 56)).
