(* ===== verification/PbOstream.v ===== *)
(** * nanopb output streams (pb_encode.c: streams and helper functions)

    The output stream, [pb_write] and the varint, fixed-width, tag and string
    writers.  [o_out] holds the bytes the stream's callback has taken so far; a
    stream without callback is nanopb's sizing stream, which counts only. *)
From S2P Require Import Prelude Mem.

Inductive ocallback : Type :=
| oc_null
| oc_buf_write
| oc_user_write (f : list Z -> list Z -> bool * list Z).

Record ostream : Type := Ostream {
  o_callback : ocallback;
  o_out : list Z;
  o_max_size : Z;
  o_bytes_written : Z;
  o_errmsg : option string }.

Definition OSET_ERROR (msg : string) (s : ostream) : ostream :=
  Ostream (o_callback s) (o_out s) (o_max_size s) (o_bytes_written s)
    (match o_errmsg s with Some m => Some m | None => Some msg end).
Definition ORETURN_ERROR {A} (msg : string) : M ostream A :=
  modm (OSET_ERROR msg) ;;! failm.
Definition set_out (l : list Z) (s : ostream) : ostream :=
  Ostream (o_callback s) l (o_max_size s) (o_bytes_written s) (o_errmsg s).
Definition set_bytes_written (n : Z) (s : ostream) : ostream :=
  Ostream (o_callback s) (o_out s) (o_max_size s) n (o_errmsg s).

Definition PB_OSTREAM_SIZING : ostream := Ostream oc_null [] 0 0 None.
Definition pb_ostream_from_buffer (bufsize : Z) : ostream :=
  Ostream oc_buf_write [] bufsize 0 None.

(** What a [const pb_byte_t *buf] argument points to: nothing, a local array
    of the caller, or the message memory. *)
Inductive source : Type :=
| src_null
| src_local (l : list Z)
| src_mem (m : mem) (a : Z).

Definition read_source (b : source) (count : Z) : option (list Z) :=
  match b with
  | src_null => None
  | src_local l => if zlen l <? count then None else Some (ztake count l)
  | src_mem m a => load_bytes m a (Z.to_nat count)
  end.

Definition buf_write (bs : list Z) : M ostream unit :=
  modm (fun s => set_out (o_out s ++ bs) s).

Definition call_ocallback (bs : list Z) : M ostream unit := fun s =>
  match o_callback s with
  | oc_null => Ub
  | oc_buf_write => buf_write bs s
  | oc_user_write f =>
      let '(ok, o) := f (o_out s) bs in
      if ok then Ret tt (set_out o s) else Fail (set_out o s)
  end.

Definition has_callback (s : ostream) : bool :=
  match o_callback s with oc_null => false | _ => true end.

Definition pb_write (buf : source) (count : Z) : M ostream unit :=
  let! s := getm in
  (if (0 <? count) && has_callback s then
     if (u64 (o_bytes_written s + count) <? o_bytes_written s) ||
        (o_max_size s <? u64 (o_bytes_written s + count))
     then ORETURN_ERROR "stream full"
     else
       let! bs := of_opt (read_source buf count) in
       let! r := tryb (call_ocallback bs) in
       match r with
       | None => ORETURN_ERROR "io error"
       | Some _ => ret tt
       end
   else ret tt) ;;!
  modm (fun s => set_bytes_written (u64 (o_bytes_written s + count)) s).

(** The loop of [pb_encode_varint]: the bytes of [buffer], the last one with
    its top bit still set.  A 64-bit value takes at most ten rounds. *)
Fixpoint varint_buffer (fuel : nat) (value : Z) : list Z :=
  match fuel with
  | O => []
  | S k =>
      if value =? 0 then []
      else Z.lor (Z.land value 0x7F) 0x80 :: varint_buffer k (Z.shiftr value 7)
  end.

(** [buffer[i-1] &= 0x7F] *)
Fixpoint clear_last_top (l : list Z) : list Z :=
  match l with
  | [] => []
  | [b] => [Z.land b 0x7F]
  | b :: r => b :: clear_last_top r
  end.

Definition varint_bytes (value : Z) : list Z :=
  if value <=? 0x7F then [u8 value] else clear_last_top (varint_buffer 10 value).

Definition pb_encode_varint (value : Z) : M ostream unit :=
  pb_write (src_local (varint_bytes value)) (zlen (varint_bytes value)).

(** [~((pb_uint64_t)value << 1)] for negative values. *)
Definition zigzag (value : Z) : Z :=
  if value <? 0
  then u64 (Z.lnot (u64 (Z.shiftl (u64 value) 1)))
  else u64 (Z.shiftl (u64 value) 1).

Definition pb_encode_svarint (value : Z) : M ostream unit :=
  pb_encode_varint (zigzag value).

Definition fixed32_bytes (val : Z) : list Z :=
  [Z.land val 0xFF; Z.land (Z.shiftr val 8) 0xFF;
   Z.land (Z.shiftr val 16) 0xFF; Z.land (Z.shiftr val 24) 0xFF].

(** The argument is the [uint32_t] that [value] points to. *)
Definition pb_encode_fixed32 (val : Z) : M ostream unit :=
  pb_write (src_local (fixed32_bytes val)) 4.

Definition fixed64_bytes (val : Z) : list Z :=
  [Z.land val 0xFF; Z.land (Z.shiftr val 8) 0xFF;
   Z.land (Z.shiftr val 16) 0xFF; Z.land (Z.shiftr val 24) 0xFF;
   Z.land (Z.shiftr val 32) 0xFF; Z.land (Z.shiftr val 40) 0xFF;
   Z.land (Z.shiftr val 48) 0xFF; Z.land (Z.shiftr val 56) 0xFF].

Definition pb_encode_fixed64 (val : Z) : M ostream unit :=
  pb_write (src_local (fixed64_bytes val)) 8.

Definition tag_value (wiretype field_number : Z) : Z :=
  Z.lor (u64 (Z.shiftl field_number 3)) wiretype.

Definition pb_encode_tag (wiretype field_number : Z) : M ostream unit :=
  pb_encode_varint (tag_value wiretype field_number).

Definition pb_encode_string (buffer : source) (size : Z) : M ostream unit :=
  pb_encode_varint size ;;! pb_write buffer size.
