(* ===== verification/PbField.v ===== *)
(** * nanopb field descriptors and the field iterator (pb.h, pb_common.c)

    The descriptors are those of the build the repository configures:
    PB_FIELD_32BIT, PB_ENABLE_MALLOC, 64-bit pointers. *)
From S2P Require Import Prelude Mem PbIstream PbOstream.

(** What a descriptor's [ptr] points to: nothing, the descriptor array of a
    submessage (named by its index in the program's tables), or the bytes of a
    default value. *)
Inductive fptr : Type :=
| ptr_null
| ptr_submsg (i : nat)
| ptr_default (l : list Z).

Record pb_field : Type := PbField {
  tag : Z;
  ftype : Z;
  data_offset : Z;
  size_offset : Z;
  data_size : Z;
  array_size : Z;
  ptr : fptr }.

Definition PB_LTYPE_BOOL : Z := 0x00.
Definition PB_LTYPE_VARINT : Z := 0x01.
Definition PB_LTYPE_UVARINT : Z := 0x02.
Definition PB_LTYPE_SVARINT : Z := 0x03.
Definition PB_LTYPE_FIXED32 : Z := 0x04.
Definition PB_LTYPE_FIXED64 : Z := 0x05.
Definition PB_LTYPE_LAST_PACKABLE : Z := 0x05.
Definition PB_LTYPE_BYTES : Z := 0x06.
Definition PB_LTYPE_STRING : Z := 0x07.
Definition PB_LTYPE_SUBMESSAGE : Z := 0x08.
Definition PB_LTYPE_EXTENSION : Z := 0x09.
Definition PB_LTYPE_FIXED_LENGTH_BYTES : Z := 0x0A.
Definition PB_LTYPES_COUNT : Z := 0x0B.
Definition PB_HTYPE_REQUIRED : Z := 0x00.
Definition PB_HTYPE_OPTIONAL : Z := 0x10.
Definition PB_HTYPE_REPEATED : Z := 0x20.
Definition PB_HTYPE_ONEOF : Z := 0x30.
Definition PB_ATYPE_STATIC : Z := 0x00.
Definition PB_ATYPE_POINTER : Z := 0x80.
Definition PB_ATYPE_CALLBACK : Z := 0x40.
Definition PB_ATYPE (x : Z) : Z := Z.land x 0xC0.
Definition PB_HTYPE (x : Z) : Z := Z.land x 0x30.
Definition PB_LTYPE (x : Z) : Z := Z.land x 0x0F.
Definition PB_SIZE_MAX : Z := 2 ^ 32 - 1.
Definition PB_MAX_REQUIRED_FIELDS : Z := 64.

Definition sizeof_pb_size_t : nat := 4.
Definition sizeof_ptr : nat := 8.
(** [offsetof(pb_bytes_array_t, bytes)] *)
Definition offsetof_bytes : Z := 4.
Definition PB_BYTES_ARRAY_T_ALLOCSIZE (n : Z) : Z := u64 (n + offsetof_bytes).

(** A descriptor array is the list of its fields; the element past the last one
    is the terminator [PB_LAST_FIELD]. *)
Definition PB_LAST_FIELD : pb_field := PbField 0 0 0 0 0 0 ptr_null.

Record pb_field_iter : Type := PbIter {
  it_start : list pb_field;
  it_pos : nat;
  required_field_index : Z;
  dest_struct : Z;
  pData : Z;
  pSize : Z }.

Definition field_at (fields : list pb_field) (i : nat) : pb_field :=
  nth i fields PB_LAST_FIELD.
(** [*iter->pos] *)
Definition pos (iter : pb_field_iter) : pb_field :=
  field_at (it_start iter) (it_pos iter).

Definition pb_field_iter_begin (fields : list pb_field) (dest : Z)
    : bool * pb_field_iter :=
  let f0 := field_at fields 0 in
  let '(pd, ps) :=
    if dest =? NULL then (NULL, NULL)
    else (dest + data_offset f0, dest + data_offset f0 + size_offset f0) in
  (negb (tag f0 =? 0), PbIter fields 0 0 dest pd ps).

Definition pb_field_iter_next (iter : pb_field_iter) : bool * pb_field_iter :=
  let prev_field := pos iter in
  if tag prev_field =? 0 then (false, iter) else
  let iter1 := PbIter (it_start iter) (S (it_pos iter))
                 (required_field_index iter) (dest_struct iter)
                 (pData iter) (pSize iter) in
  let cur := pos iter1 in
  if tag cur =? 0
  then (false, (pb_field_iter_begin (it_start iter) (dest_struct iter)).2)
  else if (PB_HTYPE (ftype prev_field) =? PB_HTYPE_ONEOF) &&
          (PB_HTYPE (ftype cur) =? PB_HTYPE_ONEOF) &&
          (data_offset cur =? PB_SIZE_MAX)
  then (true, iter1)
  else
    let prev_size :=
      if (PB_ATYPE (ftype prev_field) =? PB_ATYPE_STATIC) &&
         (PB_HTYPE (ftype prev_field) =? PB_HTYPE_REPEATED)
      then u64 (data_size prev_field * array_size prev_field)
      else if PB_ATYPE (ftype prev_field) =? PB_ATYPE_POINTER
      then Z.of_nat sizeof_ptr
      else data_size prev_field in
    let req :=
      if PB_HTYPE (ftype prev_field) =? PB_HTYPE_REQUIRED
      then u32 (required_field_index iter + 1) else required_field_index iter in
    let pd := pData iter + prev_size + data_offset cur in
    (true, PbIter (it_start iter) (S (it_pos iter)) req (dest_struct iter)
             pd (pd + size_offset cur)).

(** The [do .. while (iter->pos != start)] loop of [pb_field_iter_find];
    [None] when the recursion bound is reached. *)
Fixpoint iter_find_loop (fuel : nat) (iter : pb_field_iter) (start : nat)
    (found : pb_field -> bool) : option (bool * pb_field_iter) :=
  match fuel with
  | O => None
  | S k =>
      if found (pos iter) then Some (true, iter) else
      let iter' := (pb_field_iter_next iter).2 in
      if Nat.eqb (it_pos iter') start then Some (false, iter')
      else iter_find_loop k iter' start found
  end.

(** One round visits each field of the array once. *)
Definition iter_fuel (iter : pb_field_iter) : nat := S (length (it_start iter)).

Definition pb_field_iter_find (iter : pb_field_iter) (t : Z)
    : option (bool * pb_field_iter) :=
  iter_find_loop (iter_fuel iter) iter (it_pos iter)
    (fun f => (tag f =? t) && negb (PB_LTYPE (ftype f) =? PB_LTYPE_EXTENSION)).

Definition find_extension_field (iter : pb_field_iter)
    : option (bool * pb_field_iter) :=
  iter_find_loop (iter_fuel iter) iter (it_pos iter)
    (fun f => PB_LTYPE (ftype f) =? PB_LTYPE_EXTENSION).

(** ** What the descriptors and the function pointers of a program refer to *)

(** The state of a decoding run: the input stream, the memory, and the local
    [fixed_count_size] of the innermost [pb_decode_noinit]. *)
Record dstate : Type := Dstate {
  ds_in : istream; ds_mem : mem; ds_local : Z }.

(** [pb_extension_type_t]: its decode and encode functions, and the field its
    [arg] points to.  An extension object [pb_extension_t] is in memory: its
    type, [dest] and [next] pointers and the [found] flag. *)
Record ext_type : Type := ExtType {
  et_decode : option (Z -> Z -> Z -> M dstate unit);
  et_encode : option (Z -> M ostream unit);
  et_arg : pb_field }.
Definition ext_type_off : Z := 0.
Definition ext_dest_off : Z := 8.
Definition ext_next_off : Z := 16.
Definition ext_found_off : Z := 24.

(** [pb_callback_t]: the function pointer, then [arg]. *)
Definition cb_funcs_off : Z := 0.
Definition cb_arg_off : Z := 8.

Record env : Type := Env {
  e_msgs : nat -> list pb_field;
  e_ext_types : Z -> option ext_type;
  e_encode_cb : Z -> option (pb_field -> Z -> M ostream unit);
  e_decode_cb : Z -> option (pb_field -> Z -> M dstate unit);
  e_heap_fill : Z }.

Definition submsg_fields (e : env) (p : fptr) : option (list pb_field) :=
  match p with ptr_submsg i => Some (e_msgs e i) | _ => None end.
