(* ===== verification/PbEncode.v ===== *)
(** * nanopb encoder (pb_encode.c)

    Fields, arrays, submessages and messages, over a message structure in
    memory.  The memory is not written by the encoder and is an argument. *)
From S2P Require Import Prelude Mem PbIstream PbOstream PbField.

(** [*(bool* )pSize]: any non-zero byte counts as true. *)
Definition safe_read_bool {S} (m : mem) (a : Z) : M S bool :=
  let! v := of_opt (load m a 1) in ret (negb (v =? 0)).

(** The catch-all comparison of [pb_check_proto3_default_value]. *)
Fixpoint all_zero_bytes {S} (m : mem) (a : Z) (n : nat) : M S bool :=
  match n with
  | O => ret true
  | Datatypes.S k =>
      let! v := of_opt (load m a 1) in
      if negb (v =? 0) then ret false else all_zero_bytes m (a + 1) k
  end.

Section Proto3Default.
Context {S : Type} (e : env) (m : mem).
Variable check : pb_field -> Z -> M S bool.

(** The [do .. while] over the fields of a submessage. *)
Fixpoint check_fields (fuel : nat) (iter : pb_field_iter) : M S bool :=
  match fuel with
  | O => nofuelm
  | Datatypes.S k =>
      let! b := check (pos iter) (pData iter) in
      if negb b then ret false else
      let '(more, iter') := pb_field_iter_next iter in
      if more then check_fields k iter' else ret true
  end.

(** The part of the function after its early returns for required, repeated,
    oneof and proto2 optional fields. *)
Definition check_singular (field : pb_field) (data : Z) : M S bool :=
  let type := ftype field in
  let static := PB_ATYPE type =? PB_ATYPE_STATIC in
  if static && (PB_LTYPE type =? PB_LTYPE_BYTES) then
    let! v := of_opt (load m data sizeof_pb_size_t) in ret (v =? 0)
  else if static && (PB_LTYPE type =? PB_LTYPE_STRING) then
    let! v := of_opt (load m data 1) in ret (v =? 0)
  else if static && (PB_LTYPE type =? PB_LTYPE_FIXED_LENGTH_BYTES) then
    ret (data_size field =? 0)
  else if static && (PB_LTYPE type =? PB_LTYPE_SUBMESSAGE) then
    let! fields := of_opt (submsg_fields e (ptr field)) in
    let '(nonempty, iter) := pb_field_iter_begin fields data in
    if nonempty then check_fields (iter_fuel iter) iter else ret true
  else if (PB_ATYPE type =? PB_ATYPE_POINTER) &&
          (PB_LTYPE_LAST_PACKABLE <? PB_LTYPE type) then
    let! v := of_opt (load m data sizeof_ptr) in ret (v =? NULL)
  else all_zero_bytes m data (Z.to_nat (data_size field)).

Definition check_proto3_step (field : pb_field) (data : Z) : M S bool :=
  let type := ftype field in
  let size_addr := data + size_offset field in
  if PB_HTYPE type =? PB_HTYPE_REQUIRED then ret false
  else if (PB_HTYPE type =? PB_HTYPE_REPEATED) && negb (size_offset field =? 0) then
    let! v := of_opt (load m size_addr sizeof_pb_size_t) in ret (v =? 0)
  else if (PB_HTYPE type =? PB_HTYPE_REPEATED) &&
          (PB_ATYPE type =? PB_ATYPE_STATIC) then ret false
  else if PB_HTYPE type =? PB_HTYPE_ONEOF then
    let! v := of_opt (load m size_addr sizeof_pb_size_t) in ret (v =? 0)
  else if (PB_HTYPE type =? PB_HTYPE_OPTIONAL) && negb (size_offset field =? 0) then
    let! v := safe_read_bool m size_addr in ret (negb v)
  else check_singular field data.
End Proto3Default.

(** The recursion is on the nesting of static submessages. *)
Fixpoint pb_check_proto3_default_value {S} (fuel : nat) (e : env) (m : mem)
    (field : pb_field) (data : Z) : M S bool :=
  match fuel with
  | O => nofuelm
  | Datatypes.S k =>
      check_proto3_step e m (pb_check_proto3_default_value k e m) field data
  end.

Section Encoder.
Context (e : env) (m : mem).
(** The recursive call of [pb_encode], and the bound on the nesting of
    [pb_check_proto3_default_value]. *)
Variable pb_encode_rec : list pb_field -> Z -> M ostream unit.
Variable depth : nat.

Definition encoder : Type := pb_field -> Z -> M ostream unit.

Definition wire_type_of (ltype : Z) : option Z :=
  if (ltype =? PB_LTYPE_BOOL) || (ltype =? PB_LTYPE_VARINT) ||
     (ltype =? PB_LTYPE_UVARINT) || (ltype =? PB_LTYPE_SVARINT)
  then Some PB_WT_VARINT
  else if ltype =? PB_LTYPE_FIXED32 then Some PB_WT_32BIT
  else if ltype =? PB_LTYPE_FIXED64 then Some PB_WT_64BIT
  else if (ltype =? PB_LTYPE_BYTES) || (ltype =? PB_LTYPE_STRING) ||
          (ltype =? PB_LTYPE_SUBMESSAGE) || (ltype =? PB_LTYPE_FIXED_LENGTH_BYTES)
  then Some PB_WT_STRING
  else None.

Definition pb_encode_tag_for_field (field : pb_field) : M ostream unit :=
  match wire_type_of (PB_LTYPE (ftype field)) with
  | Some wt => pb_encode_tag wt (tag field)
  | None => ORETURN_ERROR "invalid field type"
  end.

(** [status] of the second [pb_encode], with the substream it leaves. *)
Definition pb_encode_submessage (fields : list pb_field) (src : Z)
    : M ostream unit := fun stream =>
  match pb_encode_rec fields src PB_OSTREAM_SIZING with
  | Ub => Ub
  | NoFuel => NoFuel
  | Fail sub => Fail (Ostream (o_callback stream) (o_out stream)
                        (o_max_size stream) (o_bytes_written stream) (o_errmsg sub))
  | Ret _ sub =>
      let size := o_bytes_written sub in
      (pb_encode_varint size ;;!
       let! s := getm in
       if negb (has_callback s) then pb_write src_null size
       else if o_max_size s <? u64 (o_bytes_written s + size)
       then ORETURN_ERROR "stream full"
       else fun s =>
         let finish sub2 := Ostream (o_callback s) (o_out sub2) (o_max_size s)
             (u64 (o_bytes_written s + o_bytes_written sub2)) (o_errmsg sub2) in
         match pb_encode_rec fields src
                 (Ostream (o_callback s) (o_out s) size 0 None) with
         | Ub => Ub
         | NoFuel => NoFuel
         | Ret _ sub2 =>
             if negb (o_bytes_written sub2 =? size)
             then ORETURN_ERROR "submsg size changed" (finish sub2)
             else Ret tt (finish sub2)
         | Fail sub2 =>
             if negb (o_bytes_written sub2 =? size)
             then ORETURN_ERROR "submsg size changed" (finish sub2)
             else Fail (finish sub2)
         end) stream
  end.

Definition pb_enc_bool : encoder := fun field src =>
  let! b := safe_read_bool m src in
  pb_encode_varint (if b then 1 else 0).

(** The loads of the integer encoders, by [data_size]. *)
Definition is_int_size (n : Z) : bool :=
  (n =? 1) || (n =? 2) || (n =? 4) || (n =? 8).

Definition pb_enc_varint : encoder := fun field src =>
  if is_int_size (data_size field) then
    let! v := of_opt (load_signed m src (Z.to_nat (data_size field))) in
    pb_encode_varint (u64 v)
  else ORETURN_ERROR "invalid data_size".

Definition pb_enc_uvarint : encoder := fun field src =>
  if is_int_size (data_size field) then
    let! v := of_opt (load m src (Z.to_nat (data_size field))) in
    pb_encode_varint v
  else ORETURN_ERROR "invalid data_size".

Definition pb_enc_svarint : encoder := fun field src =>
  if is_int_size (data_size field) then
    let! v := of_opt (load_signed m src (Z.to_nat (data_size field))) in
    pb_encode_svarint v
  else ORETURN_ERROR "invalid data_size".

Definition pb_enc_fixed32 : encoder := fun field src =>
  let! v := of_opt (load m src 4) in pb_encode_fixed32 v.

Definition pb_enc_fixed64 : encoder := fun field src =>
  let! v := of_opt (load m src 8) in pb_encode_fixed64 v.

Definition pb_enc_bytes : encoder := fun field src =>
  if src =? NULL then pb_encode_string src_null 0 else
  let! size := of_opt (load m src sizeof_pb_size_t) in
  if (PB_ATYPE (ftype field) =? PB_ATYPE_STATIC) &&
     (u64 (data_size field - offsetof_bytes) <? size)
  then ORETURN_ERROR "bytes size exceeded"
  else pb_encode_string (src_mem m (src + offsetof_bytes)) size.

(** [strnlen]: the bytes before the first NUL, at most [max]; [fuel] bounds
    the scan of a pointer field, whose [max_size] is [SIZE_MAX]. *)
Fixpoint string_size (fuel : nat) (p size max_size : Z) : M ostream Z :=
  match fuel with
  | O => nofuelm
  | S k =>
      if size <? max_size then
        let! c := of_opt (load m p 1) in
        if negb (c =? 0) then string_size k (p + 1) (size + 1) max_size
        else ret size
      else ret size
  end.

(** No string is longer than the mapped memory. *)
Definition string_fuel : nat := Datatypes.S (Datatypes.S (size (m_bytes m))).

Definition pb_enc_string : encoder := fun field src =>
  let max_size := if PB_ATYPE (ftype field) =? PB_ATYPE_POINTER
                  then 2 ^ 64 - 1 else data_size field in
  if src =? NULL then pb_encode_string src_null 0 else
  let! size := string_size string_fuel src 0 max_size in
  pb_encode_string (src_mem m src) size.

Definition pb_enc_submessage : encoder := fun field src =>
  match ptr field with
  | ptr_null => ORETURN_ERROR "invalid field descriptor"
  | p => let! fields := of_opt (submsg_fields e p) in
         pb_encode_submessage fields src
  end.

Definition pb_enc_fixed_length_bytes : encoder := fun field src =>
  pb_encode_string (src_mem m src) (data_size field).

(** [PB_ENCODERS]; the entry of the extension type is a null pointer. *)
Definition PB_ENCODERS (ltype : Z) : option encoder :=
  match ltype with
  | 0 => Some pb_enc_bool
  | 1 => Some pb_enc_varint
  | 2 => Some pb_enc_uvarint
  | 3 => Some pb_enc_svarint
  | 4 => Some pb_enc_fixed32
  | 5 => Some pb_enc_fixed64
  | 6 => Some pb_enc_bytes
  | 7 => Some pb_enc_string
  | 8 => Some pb_enc_submessage
  | 10 => Some pb_enc_fixed_length_bytes
  | _ => None
  end.

(** [for (i = 0; i < count; i++) { if (!f(p)) return false; p += step; }] *)
Fixpoint for_items (count : nat) (p step : Z) (f : Z -> M ostream unit)
    : M ostream unit :=
  match count with
  | O => ret tt
  | S k => f p ;;! for_items k (p + step) step f
  end.

(** The size of a packed array, by a sizing stream for varint types; a failure
    leaves the array's stream as it is. *)
Definition packed_size (field : pb_field) (data count : Z) (func : encoder)
    : M ostream Z := fun s =>
  if PB_LTYPE (ftype field) =? PB_LTYPE_FIXED32 then Ret (u64 (4 * count)) s
  else if PB_LTYPE (ftype field) =? PB_LTYPE_FIXED64 then Ret (u64 (8 * count)) s
  else
    match for_items (Z.to_nat count) data (data_size field) (func field)
            PB_OSTREAM_SIZING with
    | Ret _ sizestream => Ret (o_bytes_written sizestream) s
    | Fail _ => Fail s
    | Ub => Ub
    | NoFuel => NoFuel
    end.

Definition encode_array (field : pb_field) (data count : Z) (func : encoder)
    : M ostream unit :=
  let type := ftype field in
  if count =? 0 then ret tt
  else if negb (PB_ATYPE type =? PB_ATYPE_POINTER) && (array_size field <? count)
  then ORETURN_ERROR "array max size exceeded"
  else if PB_LTYPE type <=? PB_LTYPE_LAST_PACKABLE then
    pb_encode_tag PB_WT_STRING (tag field) ;;!
    let! size := packed_size field data count func in
    pb_encode_varint size ;;!
    let! s := getm in
    if negb (has_callback s) then pb_write src_null size
    else for_items (Z.to_nat count) data (data_size field) (func field)
  else
    for_items (Z.to_nat count) data (data_size field) (fun p =>
      pb_encode_tag_for_field field ;;!
      if (PB_ATYPE type =? PB_ATYPE_POINTER) &&
         ((PB_LTYPE type =? PB_LTYPE_STRING) || (PB_LTYPE type =? PB_LTYPE_BYTES))
      then let! q := of_opt (load m p sizeof_ptr) in func field q
      else func field p).

(** [pSize] of [encode_basic_field]: the local [implicit_has] or an address. *)
Definition read_has (ps : bool + Z) : M ostream bool :=
  match ps with inl b => ret b | inr a => safe_read_bool m a end.
Definition read_count (ps : bool + Z) : M ostream Z :=
  match ps with inl _ => ubm | inr a => of_opt (load m a sizeof_pb_size_t) end.

Definition encode_basic_field (field : pb_field) (data : Z) : M ostream unit :=
  let type := ftype field in
  (if PB_LTYPES_COUNT <=? PB_LTYPE type then ubm else ret tt) ;;!
  let! ps :=
    (if negb (size_offset field =? 0)
     then ret (inr (data + size_offset field))
     else if PB_HTYPE type =? PB_HTYPE_OPTIONAL
     then let! b := pb_check_proto3_default_value depth e m field data in
          ret (inl (negb b))
     else ret (inl true)) in
  let! dp :=
    (if PB_ATYPE type =? PB_ATYPE_POINTER
     then let! q := of_opt (load m data sizeof_ptr) in
          ret (q, match ps with
                  | inl _ => inl (negb (q =? NULL))
                  | inr a => inr a
                  end)
     else ret (data, ps)) in
  let '(data', ps') := dp in
  let call := fun d =>
    let! func := of_opt (PB_ENCODERS (PB_LTYPE type)) in func field d in
  if PB_HTYPE type =? PB_HTYPE_REQUIRED then
    if data' =? NULL then ORETURN_ERROR "missing required field"
    else pb_encode_tag_for_field field ;;! call data'
  else if PB_HTYPE type =? PB_HTYPE_OPTIONAL then
    let! has := read_has ps' in
    if has then pb_encode_tag_for_field field ;;! call data' else ret tt
  else if PB_HTYPE type =? PB_HTYPE_REPEATED then
    let! count := (if negb (size_offset field =? 0) then read_count ps'
                   else ret (array_size field)) in
    encode_array field data' count
      (fun f d => let! func := of_opt (PB_ENCODERS (PB_LTYPE type)) in func f d)
  else if PB_HTYPE type =? PB_HTYPE_ONEOF then
    let! which := read_count ps' in
    if which =? tag field then pb_encode_tag_for_field field ;;! call data'
    else ret tt
  else ORETURN_ERROR "invalid field type".

Definition encode_callback_field (field : pb_field) (data : Z) : M ostream unit :=
  let! f := of_opt (load m (data + cb_funcs_off) sizeof_ptr) in
  if negb (f =? NULL) then
    let! cb := of_opt (e_encode_cb e f) in
    let! r := tryb (cb field (data + cb_arg_off)) in
    match r with
    | None => ORETURN_ERROR "callback error"
    | Some _ => ret tt
    end
  else ret tt.

Definition encode_field (field : pb_field) (data : Z) : M ostream unit :=
  let atype := PB_ATYPE (ftype field) in
  if (atype =? PB_ATYPE_STATIC) || (atype =? PB_ATYPE_POINTER)
  then encode_basic_field field data
  else if atype =? PB_ATYPE_CALLBACK then encode_callback_field field data
  else ORETURN_ERROR "invalid field type".

Definition default_extension_encoder (et : ext_type) (extension : Z)
    : M ostream unit :=
  let field := et_arg et in
  if PB_ATYPE (ftype field) =? PB_ATYPE_POINTER
  then encode_field field (extension + ext_dest_off)
  else let! dest := of_opt (load m (extension + ext_dest_off) sizeof_ptr) in
       encode_field field dest.

(** The walk over the registered extensions, a linked list in memory. *)
Fixpoint encode_extensions (fuel : nat) (extension : Z) : M ostream unit :=
  match fuel with
  | O => nofuelm
  | S k =>
      if extension =? NULL then ret tt else
      let! t := of_opt (load m (extension + ext_type_off) sizeof_ptr) in
      let! et := of_opt (e_ext_types e t) in
      match et_encode et with
      | Some f => f extension
      | None => default_extension_encoder et extension
      end ;;!
      let! next := of_opt (load m (extension + ext_next_off) sizeof_ptr) in
      encode_extensions k next
  end.

Definition encode_extension_field (field : pb_field) (data : Z) : M ostream unit :=
  let! extension := of_opt (load m data sizeof_ptr) in
  encode_extensions string_fuel extension.

(** The [do .. while] loop of [pb_encode]. *)
Fixpoint encode_fields (fuel : nat) (iter : pb_field_iter) : M ostream unit :=
  match fuel with
  | O => nofuelm
  | S k =>
      (if PB_LTYPE (ftype (pos iter)) =? PB_LTYPE_EXTENSION
       then encode_extension_field (pos iter) (pData iter)
       else encode_field (pos iter) (pData iter)) ;;!
      let '(more, iter') := pb_field_iter_next iter in
      if more then encode_fields k iter' else ret tt
  end.

Definition encode_message (fields : list pb_field) (src : Z) : M ostream unit :=
  let '(nonempty, iter) := pb_field_iter_begin fields src in
  if nonempty then encode_fields (iter_fuel iter) iter else ret tt.
End Encoder.

(** The recursion is on the nesting of the submessages of [src_struct]. *)
Fixpoint pb_encode (fuel : nat) (e : env) (m : mem)
    (fields : list pb_field) (src_struct : Z) : M ostream unit :=
  match fuel with
  | O => nofuelm
  | S k => encode_message e m (pb_encode k e m) fuel fields src_struct
  end.

Definition pb_encode_delimited (fuel : nat) (e : env) (m : mem)
    (fields : list pb_field) (src_struct : Z) : M ostream unit :=
  pb_encode_submessage (pb_encode fuel e m) fields src_struct.

Definition pb_encode_nullterminated (fuel : nat) (e : env) (m : mem)
    (fields : list pb_field) (src_struct : Z) : M ostream unit :=
  pb_encode fuel e m fields src_struct ;;! pb_write (src_local [0]) 1.

(** [*size], or [None] for a return of [false]. *)
Definition pb_get_encoded_size (fuel : nat) (e : env) (m : mem)
    (fields : list pb_field) (src_struct : Z) : out unit Z :=
  match pb_encode fuel e m fields src_struct PB_OSTREAM_SIZING with
  | Ret _ stream => Ret (o_bytes_written stream) tt
  | Fail _ => Fail tt
  | Ub => Ub
  | NoFuel => NoFuel
  end.
