(* ===== verification/PbDecode.v ===== *)
(** * nanopb decoder (pb_decode.c, fields and messages)

    The decoder of fields, extensions, submessages and messages into a message
    structure in memory, with the allocation of pointer fields and the release
    of what they hold. *)
From S2P Require Import Prelude Mem PbIstream PbOstream PbField.

(** ** Access to the parts of the state *)

Definition lift {A} (f : M istream A) : M dstate A := fun s =>
  match f (ds_in s) with
  | Ret a i => Ret a (Dstate i (ds_mem s) (ds_local s))
  | Fail i => Fail (Dstate i (ds_mem s) (ds_local s))
  | Ub => Ub
  | NoFuel => NoFuel
  end.

Definition DRETURN_ERROR {A} (msg : string) : M dstate A := lift (PB_RETURN_ERROR msg).
Definition bytes_left_m : M dstate Z := let! s := getm in ret (i_bytes_left (ds_in s)).

Definition load_m (a : Z) (n : nat) : M dstate Z :=
  let! s := getm in of_opt (load (ds_mem s) a n).
Definition upd_mem (f : mem -> option mem) : M dstate unit :=
  let! s := getm in
  let! m' := of_opt (f (ds_mem s)) in
  putm (Dstate (ds_in s) m' (ds_local s)).
Definition store_m (a : Z) (n : nat) (v : Z) : M dstate unit :=
  upd_mem (fun m => store m a n v).
Definition load_ptr (a : Z) : M dstate Z := load_m a sizeof_ptr.
Definition store_ptr (a v : Z) : M dstate unit := store_m a sizeof_ptr v.
Definition memset0_m (a n : Z) : M dstate unit :=
  upd_mem (fun m => memset0 m a (Z.to_nat n)).
Definition free_m (p : Z) : M dstate unit := upd_mem (fun m => c_free m p).

(** [&fixed_count_size]: the address of the local of [pb_decode_noinit]. *)
Definition LOCAL_SIZE : Z := -1.
Definition read_size (a : Z) : M dstate Z :=
  if a =? LOCAL_SIZE then let! s := getm in ret (ds_local s)
  else load_m a sizeof_pb_size_t.
Definition write_size (a v : Z) : M dstate unit :=
  if a =? LOCAL_SIZE then modm (fun s => Dstate (ds_in s) (ds_mem s) v)
  else store_m a sizeof_pb_size_t v.

(** A call with [&substream]: its result ([None] for [false]), the substream it
    leaves, and the effects on the memory; the caller's stream is untouched. *)
Definition on_substream {A} (sub : istream) (f : M dstate A)
    : M dstate (option A * istream) := fun s =>
  match f (Dstate sub (ds_mem s) (ds_local s)) with
  | Ret a s' => Ret (Some a, ds_in s') (Dstate (ds_in s) (ds_mem s') (ds_local s'))
  | Fail s' => Ret (None, ds_in s') (Dstate (ds_in s) (ds_mem s') (ds_local s'))
  | Ub => Ub
  | NoFuel => NoFuel
  end.

(** [pb_read(stream, (pb_byte_t* )dest, count)] *)
Definition read_into (dest count : Z) : M dstate unit :=
  let! bs := lift (pb_read count) in
  upd_mem (fun m => store_bytes m dest bs).

Definition status_of (r : option unit) : M dstate unit :=
  match r with Some _ => ret tt | None => failm end.

(** ** Extensions *)

Definition iter_from_extension (et : ext_type) (extension : Z)
    : M dstate pb_field_iter :=
  let field := et_arg et in
  let! dest := load_ptr (extension + ext_dest_off) in
  let it := (pb_field_iter_begin [field] dest).2 in
  let pd := if PB_ATYPE (ftype field) =? PB_ATYPE_POINTER
            then extension + ext_dest_off else dest in
  ret (PbIter (it_start it) (it_pos it) (required_field_index it) (dest_struct it)
         pd (extension + ext_found_off)).

(** The walk over the linked list of extensions. *)
Fixpoint for_extensions (e : env) (fuel : nat) (ext : Z)
    (body : ext_type -> Z -> M dstate unit) : M dstate unit :=
  match fuel with
  | O => nofuelm
  | S k =>
      if ext =? NULL then ret tt else
      let! t := load_ptr (ext + ext_type_off) in
      let! et := of_opt (e_ext_types e t) in
      body et ext ;;!
      let! next := load_ptr (ext + ext_next_off) in
      for_extensions e k next body
  end.

(** The [do .. while (pb_field_iter_next(&iter))] loops of the decoder. *)
Fixpoint for_fields (fuel : nat) (iter : pb_field_iter)
    (body : pb_field_iter -> M dstate unit) : M dstate unit :=
  match fuel with
  | O => nofuelm
  | S k =>
      body iter ;;!
      let '(more, iter') := pb_field_iter_next iter in
      if more then for_fields k iter' body else ret tt
  end.

Definition mem_fuel : M dstate nat :=
  let! s := getm in ret (S (size (m_bytes (ds_mem s)))).

(** ** Default values *)

Section Defaults.
Context (e : env).
(** The recursive calls: [pb_message_set_to_defaults] of a submessage and
    [pb_field_set_to_default] of an extension's field. *)
Variable message_rec : list pb_field -> Z -> M dstate unit.
Variable field_rec : pb_field_iter -> M dstate unit.

Definition set_default_static (iter : pb_field_iter) : M dstate unit :=
  let f := pos iter in
  let type := ftype f in
  let! init_data :=
    (if (PB_HTYPE type =? PB_HTYPE_OPTIONAL) && negb (pSize iter =? pData iter)
     then store_m (pSize iter) 1 0 ;;! ret true
     else if (PB_HTYPE type =? PB_HTYPE_REPEATED) || (PB_HTYPE type =? PB_HTYPE_ONEOF)
     then write_size (pSize iter) 0 ;;! ret false
     else ret true) in
  if negb init_data then ret tt
  else if PB_LTYPE type =? PB_LTYPE_SUBMESSAGE then
    let! fields := of_opt (submsg_fields e (ptr f)) in
    message_rec fields (pData iter)
  else match ptr f with
       | ptr_default l =>
           if zlen l <? data_size f then ubm
           else upd_mem (fun m =>
                  store_bytes m (pData iter) (ztake (data_size f) l))
       | ptr_null => memset0_m (pData iter) (data_size f)
       | ptr_submsg _ => ubm
       end.

Definition field_set_to_default_step (iter : pb_field_iter) : M dstate unit :=
  let type := ftype (pos iter) in
  if PB_LTYPE type =? PB_LTYPE_EXTENSION then
    let! ext := load_ptr (pData iter) in
    let! fuel := mem_fuel in
    for_extensions e fuel ext (fun et ext =>
      store_m (ext + ext_found_off) 1 0 ;;!
      let! ext_iter := iter_from_extension et ext in
      field_rec ext_iter)
  else if PB_ATYPE type =? PB_ATYPE_STATIC then set_default_static iter
  else if PB_ATYPE type =? PB_ATYPE_POINTER then
    store_ptr (pData iter) NULL ;;!
    if (PB_HTYPE type =? PB_HTYPE_REPEATED) || (PB_HTYPE type =? PB_HTYPE_ONEOF)
    then write_size (pSize iter) 0 else ret tt
  else ret tt.

Definition message_set_to_defaults_step (fields : list pb_field) (dest : Z)
    : M dstate unit :=
  let '(nonempty, iter) := pb_field_iter_begin fields dest in
  if nonempty then for_fields (iter_fuel iter) iter field_rec else ret tt.
End Defaults.

(** The two functions call each other; the recursion is on the nesting of static
    submessages and extensions. *)
Fixpoint pb_field_set_to_default (fuel : nat) (e : env) (iter : pb_field_iter)
    : M dstate unit :=
  match fuel with
  | O => nofuelm
  | S k => field_set_to_default_step e
             (message_set_to_defaults_step (pb_field_set_to_default k e))
             (pb_field_set_to_default k e) iter
  end.

Definition pb_message_set_to_defaults (fuel : nat) (e : env)
    (fields : list pb_field) (dest : Z) : M dstate unit :=
  message_set_to_defaults_step (pb_field_set_to_default fuel e) fields dest.

(** ** Releasing allocated fields *)

Section Release.
Context (e : env).
Variable release_field_rec : pb_field_iter -> M dstate unit.

Definition pb_release_step (fields : list pb_field) (dest : Z) : M dstate unit :=
  if dest =? NULL then ret tt else
  let '(nonempty, iter) := pb_field_iter_begin fields dest in
  if nonempty then for_fields (iter_fuel iter) iter release_field_rec else ret tt.

(** [for (; count > 0; count--) { pb_release(ptr, pItem); pItem += data_size; }] *)
Fixpoint release_items (count : nat) (fields : list pb_field) (item step : Z)
    : M dstate unit :=
  match count with
  | O => ret tt
  | S k => pb_release_step fields item ;;! release_items k fields (item + step) step
  end.

(** The entries of a repeated string or bytes array. *)
Fixpoint free_items (count : nat) (item : Z) : M dstate unit :=
  match count with
  | O => ret tt
  | S k =>
      let! p := load_ptr item in
      free_m p ;;! store_ptr item NULL ;;! free_items k (item + Z.of_nat sizeof_ptr)
  end.

Definition release_submessages (iter : pb_field_iter) : M dstate unit :=
  let f := pos iter in
  let type := ftype f in
  let static := PB_ATYPE type =? PB_ATYPE_STATIC in
  let! item := (if PB_ATYPE type =? PB_ATYPE_POINTER
                then load_ptr (pData iter) else ret (pData iter)) in
  let! count :=
    (if PB_HTYPE type =? PB_HTYPE_REPEATED then
       let! n := (if static && (pSize iter =? pData iter)
                  then ret (array_size f) else read_size (pSize iter)) in
       ret (if static && (array_size f <? n) then array_size f else n)
     else ret 1) in
  if item =? NULL then ret tt else
  if count =? 0 then ret tt else
  let! fields := of_opt (submsg_fields e (ptr f)) in
  release_items (Z.to_nat count) fields item (data_size f).

Definition release_pointer (iter : pb_field_iter) : M dstate unit :=
  let type := ftype (pos iter) in
  let repeated := PB_HTYPE type =? PB_HTYPE_REPEATED in
  (if repeated && ((PB_LTYPE type =? PB_LTYPE_STRING) ||
                   (PB_LTYPE type =? PB_LTYPE_BYTES))
   then let! item := load_ptr (pData iter) in
        let! count := read_size (pSize iter) in
        free_items (Z.to_nat count) item
   else ret tt) ;;!
  (if repeated then write_size (pSize iter) 0 else ret tt) ;;!
  let! p := load_ptr (pData iter) in
  free_m p ;;! store_ptr (pData iter) NULL.

Definition release_field_step (iter : pb_field_iter) : M dstate unit :=
  let f := pos iter in
  let type := ftype f in
  let! current :=
    (if PB_HTYPE type =? PB_HTYPE_ONEOF
     then let! which := read_size (pSize iter) in ret (which =? tag f)
     else ret true) in
  if negb current then ret tt else
  (if PB_LTYPE type =? PB_LTYPE_EXTENSION then
     let! ext := load_ptr (pData iter) in
     let! fuel := mem_fuel in
     for_extensions e fuel ext (fun et ext =>
       let! ext_iter := iter_from_extension et ext in
       release_field_rec ext_iter)
   else if (PB_LTYPE type =? PB_LTYPE_SUBMESSAGE) &&
           negb (PB_ATYPE type =? PB_ATYPE_CALLBACK)
   then release_submessages iter
   else ret tt) ;;!
  if PB_ATYPE type =? PB_ATYPE_POINTER then release_pointer iter else ret tt.
End Release.

Fixpoint pb_release_single_field (fuel : nat) (e : env) (iter : pb_field_iter)
    : M dstate unit :=
  match fuel with
  | O => nofuelm
  | S k => release_field_step e (pb_release_single_field k e) iter
  end.

Definition pb_release (fuel : nat) (e : env) (fields : list pb_field) (dest : Z)
    : M dstate unit :=
  pb_release_step (pb_release_single_field fuel e) fields dest.

(** [pb_release_union_field]; the iterator it moves is returned. *)
Definition pb_release_union_field (fuel : nat) (e : env) (iter : pb_field_iter)
    : M dstate pb_field_iter :=
  let! old_tag := read_size (pSize iter) in
  let new_tag := tag (pos iter) in
  if old_tag =? 0 then ret iter
  else if old_tag =? new_tag then ret iter
  else match pb_field_iter_find iter old_tag with
       | None => nofuelm
       | Some (false, _) => DRETURN_ERROR "invalid union tag"
       | Some (true, iter1) =>
           pb_release_single_field fuel e iter1 ;;!
           match pb_field_iter_find iter1 new_tag with
           | None => nofuelm
           | Some (false, _) => DRETURN_ERROR "iterator error"
           | Some (true, iter2) =>
               (if PB_ATYPE (ftype (pos iter2)) =? PB_ATYPE_POINTER
                then store_ptr (pData iter2) NULL else ret tt) ;;!
               ret iter2
           end
       end.
