(* ===== verification/PbMessage.v ===== *)
(** * nanopb decoder: field decoders and messages (pb_decode.c)

    The decoders of each field type, the decoding of static, pointer, callback
    and extension fields, and [pb_decode_noinit] with its required-field and
    fixed-count bookkeeping. *)
From S2P Require Import Prelude Mem PbIstream PbOstream PbField PbDecode.

Definition decoder : Type := pb_field -> Z -> M dstate unit.

Definition pb_dec_bool : decoder := fun field dest =>
  let! value := lift pb_decode_varint32 in
  store_m dest 1 (if value =? 0 then 0 else 1).

(** [pb_decode_bool] passes a null field, which [pb_dec_bool] does not use. *)
Definition pb_decode_bool (dest : Z) : M dstate unit := pb_dec_bool PB_LAST_FIELD dest.

(** [clamped = *(T* )dest = (T)svalue] for the integer type of [data_size]
    bytes, then the comparison; the store precedes the check. *)
Definition store_clamped (signed : bool) (field : pb_field) (dest svalue : Z)
    : M dstate unit :=
  let n := data_size field in
  if (n =? 8) || (n =? 4) || (n =? 2) || (n =? 1) then
    let clamped := if signed then sext (8 * n) svalue else wrap (8 * n) svalue in
    store_m dest (Z.to_nat n) clamped ;;!
    if negb (clamped =? svalue) then DRETURN_ERROR "integer too large" else ret tt
  else DRETURN_ERROR "invalid data_size".

Definition pb_dec_varint : decoder := fun field dest =>
  let! value := lift pb_decode_varint in
  let svalue := if data_size field =? 8 then i64 value else i32 value in
  store_clamped true field dest svalue.

Definition pb_dec_uvarint : decoder := fun field dest =>
  let! value := lift pb_decode_varint in
  store_clamped false field dest value.

Definition pb_dec_svarint : decoder := fun field dest =>
  let! value := lift pb_decode_svarint in
  store_clamped true field dest value.

Definition pb_dec_fixed32 : decoder := fun field dest =>
  let! v := lift pb_decode_fixed32 in store_m dest 4 v.

Definition pb_dec_fixed64 : decoder := fun field dest =>
  let! v := lift pb_decode_fixed64 in store_m dest 8 v.

(** [allocate_field(stream, pData, data_size, array_size)] *)
Definition allocate_field (e : env) (data dsize asize : Z) : M dstate unit :=
  let! old := load_ptr data in
  if (dsize =? 0) || (asize =? 0) then DRETURN_ERROR "invalid size" else
  let check_limit := 2 ^ 32 in
  if ((check_limit <=? dsize) || (check_limit <=? asize)) &&
     ((2 ^ 64 - 1) / asize <? dsize)
  then DRETURN_ERROR "size too large" else
  let! s := getm in
  let! r := of_opt (c_realloc (e_heap_fill e) (ds_mem s) old (u64 (asize * dsize))) in
  let '(p, m') := r in
  putm (Dstate (ds_in s) m' (ds_local s)) ;;!
  if p =? NULL then DRETURN_ERROR "realloc failed" else store_ptr data p.

(** Bytes and strings: the destination of a pointer field is allocated once the
    stream is known to hold the data. *)
Definition alloc_dest (e : env) (field : pb_field) (dest size alloc_size : Z)
    (overflow : string) : M dstate Z :=
  if PB_ATYPE (ftype field) =? PB_ATYPE_POINTER then
    let! avail := bytes_left_m in
    if avail <? size then DRETURN_ERROR "end-of-stream" else
    allocate_field e dest alloc_size 1 ;;! load_ptr dest
  else if data_size field <? alloc_size then DRETURN_ERROR overflow
  else ret dest.

Definition pb_dec_bytes (e : env) : decoder := fun field dest =>
  let! size := lift pb_decode_varint32 in
  if PB_SIZE_MAX <? size then DRETURN_ERROR "bytes overflow" else
  let alloc_size := PB_BYTES_ARRAY_T_ALLOCSIZE size in
  if alloc_size <? size then DRETURN_ERROR "size too large" else
  let! bdest := alloc_dest e field dest size alloc_size "bytes overflow" in
  store_m bdest sizeof_pb_size_t size ;;!
  read_into (bdest + offsetof_bytes) size.

(** The terminator is stored whether or not the read succeeded. *)
Definition pb_dec_string (e : env) : decoder := fun field dest =>
  let! size := lift pb_decode_varint32 in
  let alloc_size := u32 (size + 1) in
  if alloc_size <? size then DRETURN_ERROR "size too large" else
  let! dest := alloc_dest e field dest size alloc_size "string overflow" in
  let! status := tryb (read_into dest size) in
  store_m (dest + size) 1 0 ;;!
  status_of status.

Definition pb_dec_fixed_length_bytes : decoder := fun field dest =>
  let! size := lift pb_decode_varint32 in
  if PB_SIZE_MAX <? size then DRETURN_ERROR "bytes overflow"
  else if size =? 0 then memset0_m dest (data_size field)
  else if negb (size =? data_size field)
  then DRETURN_ERROR "incorrect fixed length bytes size"
  else read_into dest (data_size field).

Section Messages.
Context (e : env).
(** The recursive call of [pb_decode_noinit], and the bound on the nesting of
    defaults and of releases. *)
Variable noinit_rec : list pb_field -> Z -> M dstate unit.
Variable depth : nat.

(** [pb_decode]: the message is initialised first, and released when the
    decoding fails. *)
Definition pb_decode_with (fields : list pb_field) (dest : Z) : M dstate unit :=
  pb_message_set_to_defaults depth e fields dest ;;!
  let! status := tryb (noinit_rec fields dest) in
  (match status with
   | None => pb_release depth e fields dest
   | Some _ => ret tt
   end) ;;!
  status_of status.

Definition pb_dec_submessage : decoder := fun field dest =>
  let! sub := lift pb_make_string_substream in
  match ptr field with
  | ptr_null => DRETURN_ERROR "invalid field descriptor"
  | p =>
      let! fields := of_opt (submsg_fields e p) in
      let! r := on_substream sub
        (if PB_HTYPE (ftype field) =? PB_HTYPE_REPEATED
         then pb_decode_with fields dest else noinit_rec fields dest) in
      lift (pb_close_string_substream r.2) ;;!
      status_of r.1
  end.

(** [PB_DECODERS] *)
Definition PB_DECODERS (ltype : Z) : option decoder :=
  match ltype with
  | 0 => Some pb_dec_bool
  | 1 => Some pb_dec_varint
  | 2 => Some pb_dec_uvarint
  | 3 => Some pb_dec_svarint
  | 4 => Some pb_dec_fixed32
  | 5 => Some pb_dec_fixed64
  | 6 => Some (pb_dec_bytes e)
  | 7 => Some (pb_dec_string e)
  | 8 => Some pb_dec_submessage
  | 10 => Some pb_dec_fixed_length_bytes
  | _ => None
  end.

Definition call_decoder (field : pb_field) (dest : Z) : M dstate unit :=
  let! func := of_opt (PB_DECODERS (PB_LTYPE (ftype field))) in func field dest.

Definition item_addr (base : Z) (field : pb_field) (index : Z) : Z :=
  base + u32 (data_size field * index).

(** The loop over a packed static array: the substream is threaded; the result
    is [status] and the substream. *)
Fixpoint packed_static_loop (fuel : nat) (iter : pb_field_iter) (sub : istream)
    : M dstate (bool * istream) :=
  match fuel with
  | O => nofuelm
  | S k =>
      let! size := read_size (pSize iter) in
      if (0 <? i_bytes_left sub) && (size <? array_size (pos iter)) then
        let! r := on_substream sub
          (call_decoder (pos iter) (item_addr (pData iter) (pos iter) size)) in
        match r with
        | (None, sub') => ret (false, sub')
        | (Some _, sub') =>
            let! n := read_size (pSize iter) in
            write_size (pSize iter) (u32 (n + 1)) ;;!
            packed_static_loop k iter sub'
        end
      else ret (true, sub)
  end.

Definition decode_static_packed (iter : pb_field_iter) : M dstate unit :=
  let! sub := lift pb_make_string_substream in
  let! r := packed_static_loop (S (Z.to_nat (i_bytes_left sub))) iter sub in
  let '(status, sub') := r in
  if negb (i_bytes_left sub' =? 0) then DRETURN_ERROR "array overflow" else
  lift (pb_close_string_substream sub') ;;!
  if status then ret tt else failm.

Definition decode_static_item (iter : pb_field_iter) : M dstate unit :=
  let! size := read_size (pSize iter) in
  let item := item_addr (pData iter) (pos iter) size in
  write_size (pSize iter) (u32 (size + 1)) ;;!
  if array_size (pos iter) <=? size then DRETURN_ERROR "array overflow"
  else call_decoder (pos iter) item.

Definition decode_static_oneof (iter : pb_field_iter) : M dstate unit :=
  let f := pos iter in
  (if PB_LTYPE (ftype f) =? PB_LTYPE_SUBMESSAGE then
     let! which := read_size (pSize iter) in
     if negb (which =? tag f) then
       memset0_m (pData iter) (data_size f) ;;!
       let! fields := of_opt (submsg_fields e (ptr f)) in
       pb_message_set_to_defaults depth e fields (pData iter)
     else ret tt
   else ret tt) ;;!
  write_size (pSize iter) (tag f) ;;!
  call_decoder f (pData iter).

Definition decode_static_field (wire_type : Z) (iter : pb_field_iter)
    : M dstate unit :=
  let f := pos iter in
  let type := ftype f in
  (if PB_LTYPES_COUNT <=? PB_LTYPE type then ubm else ret tt) ;;!
  if PB_HTYPE type =? PB_HTYPE_REQUIRED then call_decoder f (pData iter)
  else if PB_HTYPE type =? PB_HTYPE_OPTIONAL then
    (if negb (pSize iter =? pData iter)
     then store_m (pSize iter) 1 1 else ret tt) ;;!
    call_decoder f (pData iter)
  else if PB_HTYPE type =? PB_HTYPE_REPEATED then
    if (wire_type =? PB_WT_STRING) && (PB_LTYPE type <=? PB_LTYPE_LAST_PACKABLE)
    then decode_static_packed iter else decode_static_item iter
  else if PB_HTYPE type =? PB_HTYPE_ONEOF then decode_static_oneof iter
  else DRETURN_ERROR "invalid field type".

Definition initialize_pointer_field (item : Z) (iter : pb_field_iter)
    : M dstate unit :=
  let f := pos iter in
  let ltype := PB_LTYPE (ftype f) in
  if (ltype =? PB_LTYPE_STRING) || (ltype =? PB_LTYPE_BYTES) then
    store_ptr item NULL
  else if ltype =? PB_LTYPE_SUBMESSAGE then
    memset0_m item (data_size f) ;;!
    let! fields := of_opt (submsg_fields e (ptr f)) in
    pb_message_set_to_defaults depth e fields item
  else ret tt.

(** The growth of the array of a packed pointer field. *)
Definition grow_allocation (allocated remain : Z) : Z :=
  if remain <? u64 (PB_SIZE_MAX - allocated)
  then u64 (allocated + remain) else u64 (allocated + 1).

(** [stream->errmsg = msg], unconditional. *)
Definition set_errmsg (msg : string) : M dstate unit :=
  lift (modm (fun s => Istream (i_callback s) (i_state s) (i_bytes_left s) (Some msg))).

Fixpoint packed_pointer_loop (fuel : nat) (iter : pb_field_iter)
    (sub : istream) (allocated : Z) : M dstate (bool * istream) :=
  match fuel with
  | O => nofuelm
  | S k =>
      let f := pos iter in
      if i_bytes_left sub =? 0 then ret (true, sub) else
      let! size := read_size (pSize iter) in
      if size =? PB_SIZE_MAX then
        set_errmsg "too many array entries" ;;! ret (false, sub)
      else
        let! g :=
          (if allocated <? size + 1 then
             (if data_size f =? 0 then ubm else ret tt) ;;!
             let remain := (i_bytes_left sub - 1) / data_size f + 1 in
             let allocated' := grow_allocation allocated remain in
             let! r := on_substream sub
               (allocate_field e (pData iter) (data_size f) allocated') in
             ret (r.1, r.2, allocated')
           else ret (Some tt, sub, allocated)) in
        match g with
        | (None, sub1, _) => ret (false, sub1)
        | (Some _, sub1, allocated1) =>
            let! base := load_ptr (pData iter) in
            let item := item_addr base f size in
            if item =? NULL then ret (false, sub1) else
            initialize_pointer_field item iter ;;!
            let! r := on_substream sub1 (call_decoder f item) in
            match r with
            | (None, sub2) => ret (false, sub2)
            | (Some _, sub2) =>
                let! n := read_size (pSize iter) in
                write_size (pSize iter) (u32 (n + 1)) ;;!
                packed_pointer_loop k iter sub2 allocated1
            end
        end
  end.

Definition decode_pointer_packed (iter : pb_field_iter) : M dstate unit :=
  let! allocated := read_size (pSize iter) in
  let! sub := lift pb_make_string_substream in
  let! r := packed_pointer_loop (S (Z.to_nat (i_bytes_left sub))) iter sub allocated in
  lift (pb_close_string_substream r.2) ;;!
  if r.1 then ret tt else failm.

Definition decode_pointer_item (iter : pb_field_iter) : M dstate unit :=
  let f := pos iter in
  let! size := read_size (pSize iter) in
  if size =? PB_SIZE_MAX then DRETURN_ERROR "too many array entries" else
  allocate_field e (pData iter) (data_size f) (u32 (size + 1)) ;;!
  let! base := load_ptr (pData iter) in
  let item := item_addr base f size in
  write_size (pSize iter) (u32 (size + 1)) ;;!
  initialize_pointer_field item iter ;;!
  call_decoder f item.

Definition decode_pointer_single (iter : pb_field_iter) : M dstate unit :=
  let f := pos iter in
  let type := ftype f in
  (if PB_LTYPE type =? PB_LTYPE_SUBMESSAGE then
     let! p := load_ptr (pData iter) in
     if negb (p =? NULL) then pb_release_single_field depth e iter else ret tt
   else ret tt) ;;!
  (if PB_HTYPE type =? PB_HTYPE_ONEOF
   then write_size (pSize iter) (tag f) else ret tt) ;;!
  if (PB_LTYPE type =? PB_LTYPE_STRING) || (PB_LTYPE type =? PB_LTYPE_BYTES)
  then call_decoder f (pData iter)
  else
    allocate_field e (pData iter) (data_size f) 1 ;;!
    let! p := load_ptr (pData iter) in
    initialize_pointer_field p iter ;;!
    call_decoder f p.

Definition decode_pointer_field (wire_type : Z) (iter : pb_field_iter)
    : M dstate unit :=
  let type := ftype (pos iter) in
  let htype := PB_HTYPE type in
  (if PB_LTYPES_COUNT <=? PB_LTYPE type then ubm else ret tt) ;;!
  if (htype =? PB_HTYPE_REQUIRED) || (htype =? PB_HTYPE_OPTIONAL) ||
     (htype =? PB_HTYPE_ONEOF)
  then decode_pointer_single iter
  else if htype =? PB_HTYPE_REPEATED then
    if (wire_type =? PB_WT_STRING) && (PB_LTYPE type <=? PB_LTYPE_LAST_PACKABLE)
    then decode_pointer_packed iter else decode_pointer_item iter
  else DRETURN_ERROR "invalid field type".

(** The [do .. while (substream.bytes_left)] loop around a user callback; a
    callback that reads nothing is called for ever. *)
Fixpoint callback_loop (fuel : nat) (cb : M dstate unit) (sub : istream)
    : M dstate istream :=
  match fuel with
  | O => nofuelm
  | S k =>
      let! r := on_substream sub cb in
      match r with
      | (None, _) => DRETURN_ERROR "callback failed"
      | (Some _, sub') =>
          if i_bytes_left sub' =? 0 then ret sub' else callback_loop k cb sub'
      end
  end.

Definition decode_callback_field (wire_type : Z) (iter : pb_field_iter)
    : M dstate unit :=
  if pData iter =? NULL then lift (pb_skip_field wire_type) else
  let! f := load_ptr (pData iter + cb_funcs_off) in
  if f =? NULL then lift (pb_skip_field wire_type) else
  let! fn := of_opt (e_decode_cb e f) in
  let cb := fn (pos iter) (pData iter + cb_arg_off) in
  if wire_type =? PB_WT_STRING then
    let! sub := lift pb_make_string_substream in
    let! sub' := callback_loop (S (Z.to_nat (i_bytes_left sub))) cb sub in
    lift (pb_close_string_substream sub')
  else
    let! buffer := lift (read_raw_value wire_type 10) in
    let! r := on_substream (pb_istream_from_buffer buffer (zlen buffer)) cb in
    status_of r.1.

(** The iterator is returned: releasing a union moves it away and back. *)
Definition decode_field (wire_type : Z) (iter : pb_field_iter)
    : M dstate pb_field_iter :=
  let! iter1 :=
    (if PB_HTYPE (ftype (pos iter)) =? PB_HTYPE_ONEOF
     then pb_release_union_field depth e iter else ret iter) in
  let atype := PB_ATYPE (ftype (pos iter1)) in
  (if atype =? PB_ATYPE_STATIC then decode_static_field wire_type iter1
   else if atype =? PB_ATYPE_POINTER then decode_pointer_field wire_type iter1
   else if atype =? PB_ATYPE_CALLBACK then decode_callback_field wire_type iter1
   else DRETURN_ERROR "invalid field type") ;;!
  ret iter1.

Definition default_extension_decoder (et : ext_type) (extension t wire_type : Z)
    : M dstate unit :=
  if negb (tag (et_arg et) =? t) then ret tt else
  let! iter := iter_from_extension et extension in
  store_m (extension + ext_found_off) 1 1 ;;!
  decode_field wire_type iter ;;! ret tt.

(** Each extension is tried until one consumes input. *)
Fixpoint decode_extension_loop (fuel : nat) (avail t wire_type extension : Z)
    : M dstate unit :=
  match fuel with
  | O => nofuelm
  | S k =>
      let! now := bytes_left_m in
      if negb (extension =? NULL) && (avail =? now) then
        let! ty := load_ptr (extension + ext_type_off) in
        let! et := of_opt (e_ext_types e ty) in
        match et_decode et with
        | Some f => f extension t wire_type
        | None => default_extension_decoder et extension t wire_type
        end ;;!
        let! next := load_ptr (extension + ext_next_off) in
        decode_extension_loop k avail t wire_type next
      else ret tt
  end.

Definition decode_extension (t wire_type : Z) (iter : pb_field_iter)
    : M dstate unit :=
  let! extension := load_ptr (pData iter) in
  let! avail := bytes_left_m in
  let! fuel := mem_fuel in
  decode_extension_loop fuel avail t wire_type extension.

(** The locals of [pb_decode_noinit]; [fixed_count_size] is in the state. *)
Record noinit_vars : Type := Vars {
  v_iter : pb_field_iter;
  v_seen : list Z;
  v_ext_start : Z;
  v_fixed : option nat }.

(** A tag that is no field of the message: an extension, or skipped. *)
Definition decode_unknown (t wire_type : Z) (v : noinit_vars) (iter : pb_field_iter)
    : M dstate noinit_vars :=
  let skip := fun iter' start =>
    lift (pb_skip_field wire_type) ;;! ret (Vars iter' (v_seen v) start (v_fixed v)) in
  if v_ext_start v <=? t then
    match find_extension_field iter with
    | None => nofuelm
    | Some (found, iter') =>
        let start := if found then tag (pos iter') else 2 ^ 32 - 1 in
        if start <=? t then
          let! before := bytes_left_m in
          decode_extension t wire_type iter' ;;!
          let! after := bytes_left_m in
          if negb (before =? after)
          then ret (Vars iter' (v_seen v) start (v_fixed v))
          else skip iter' start
        else skip iter' start
    end
  else skip iter (v_ext_start v).

(** The fixed-count bookkeeping for a repeated field without a counter. *)
Definition enter_fixed_count (v : noinit_vars) (iter : pb_field_iter)
    : M dstate (pb_field_iter * option nat) :=
  if (PB_HTYPE (ftype (pos iter)) =? PB_HTYPE_REPEATED) && (pSize iter =? pData iter)
  then
    let same := match v_fixed v with Some i => Nat.eqb i (it_pos iter) | None => false end in
    (if same then ret tt else
     let! n := read_size LOCAL_SIZE in
     (match v_fixed v with
      | Some i => if negb (n =? array_size (field_at (it_start iter) i))
                  then DRETURN_ERROR "wrong size for fixed count field" else ret tt
      | None => ret tt
      end) ;;!
     write_size LOCAL_SIZE 0) ;;!
    ret (PbIter (it_start iter) (it_pos iter) (required_field_index iter)
           (dest_struct iter) (pData iter) LOCAL_SIZE, Some (it_pos iter))
  else ret (iter, v_fixed v).

(** [fields_seen[i >> 5] |= 1 << (i & 31)] *)
Definition mark_seen (seen : list Z) (iter : pb_field_iter) : list Z :=
  let i := required_field_index iter in
  if (PB_HTYPE (ftype (pos iter)) =? PB_HTYPE_REQUIRED) &&
     (i <? PB_MAX_REQUIRED_FIELDS)
  then alter (fun w => Z.lor w (u32 (Z.shiftl 1 (Z.land i 31))))
             (Z.to_nat (Z.shiftr i 5)) seen
  else seen.

(** One round of the loop after [pb_decode_tag]. *)
Definition decode_tagged (wire_type t : Z) (v : noinit_vars) : M dstate noinit_vars :=
  match pb_field_iter_find (v_iter v) t with
  | None => nofuelm
  | Some (false, iter) => decode_unknown t wire_type v iter
  | Some (true, iter) =>
      let! r := enter_fixed_count v iter in
      let '(iter1, fixed) := r in
      let seen := mark_seen (v_seen v) iter1 in
      let! iter2 := decode_field wire_type iter1 in
      ret (Vars iter2 seen (v_ext_start v) fixed)
  end.

Fixpoint noinit_loop (fuel : nat) (v : noinit_vars) : M dstate noinit_vars :=
  match fuel with
  | O => nofuelm
  | S k =>
      let! avail := bytes_left_m in
      if avail =? 0 then ret v else
      let! r := lift pb_decode_tag in
      match r with
      | (None, eof) => if eof then ret v else failm
      | (Some (wire_type, t), _) =>
          let! v' := decode_tagged wire_type t v in
          noinit_loop k v'
      end
  end.

(** [do { .. } while (pb_field_iter_next(&iter))]: the number of required
    fields before the last one, the last field's type, the final iterator. *)
Fixpoint seek_end (fuel : nat) (iter : pb_field_iter)
    : option (Z * Z * pb_field_iter) :=
  match fuel with
  | O => None
  | S k =>
      let '(more, iter') := pb_field_iter_next iter in
      if more then seek_end k iter'
      else Some (required_field_index iter, ftype (pos iter), iter')
  end.

Definition req_field_count (iter : pb_field_iter) : option Z :=
  match seek_end (iter_fuel iter) iter with
  | None => None
  | Some (count, last_type, iter') =>
      let count := if (PB_HTYPE last_type =? PB_HTYPE_REQUIRED) &&
                      negb (tag (pos iter') =? 0)
                   then u32 (count + 1) else count in
      Some (if PB_MAX_REQUIRED_FIELDS <? count then PB_MAX_REQUIRED_FIELDS else count)
  end.

(** The comparison of [fields_seen] with the first [count] bits set. *)
Definition all_seen (seen : list Z) (count : Z) : bool :=
  let allbits := 2 ^ 32 - 1 in
  let whole := Z.to_nat (Z.shiftr count 5) in
  let rest := Z.land count 31 in
  if 0 <? count then
    forallb (fun w => w =? allbits) (take whole seen) &&
    ((rest =? 0) || (nth whole seen 0 =? Z.shiftr allbits (32 - rest)))
  else true.

Definition check_required (v : noinit_vars) : M dstate unit :=
  match req_field_count (v_iter v) with
  | None => nofuelm
  | Some count => if all_seen (v_seen v) count then ret tt
                  else DRETURN_ERROR "missing required field"
  end.

Definition check_fixed_count (v : noinit_vars) : M dstate unit :=
  match v_fixed v with
  | None => ret tt
  | Some i =>
      let! n := read_size LOCAL_SIZE in
      if negb (n =? array_size (field_at (it_start (v_iter v)) i))
      then DRETURN_ERROR "wrong size for fixed count field" else ret tt
  end.

Definition noinit_body (fields : list pb_field) (dest : Z) : M dstate unit :=
  let iter := (pb_field_iter_begin fields dest).2 in
  let! avail := bytes_left_m in
  let! v := noinit_loop (S (Z.to_nat avail)) (Vars iter [0; 0] 0 None) in
  check_fixed_count v ;;!
  check_required v.
End Messages.

(** The local [fixed_count_size] of a call, zero on entry. *)
Definition with_local (f : M dstate unit) : M dstate unit := fun s =>
  let restore s' := Dstate (ds_in s') (ds_mem s') (ds_local s) in
  match f (Dstate (ds_in s) (ds_mem s) 0) with
  | Ret a s' => Ret a (restore s')
  | Fail s' => Fail (restore s')
  | Ub => Ub
  | NoFuel => NoFuel
  end.

(** The recursion is on the nesting of submessages in the input; [depth] bounds
    the nesting of defaults and releases. *)
Fixpoint pb_decode_noinit (fuel depth : nat) (e : env) (fields : list pb_field)
    (dest : Z) : M dstate unit :=
  match fuel with
  | O => nofuelm
  | S k => with_local (noinit_body e (pb_decode_noinit k depth e) depth fields dest)
  end.

Definition pb_decode (fuel depth : nat) (e : env) (fields : list pb_field)
    (dest : Z) : M dstate unit :=
  pb_decode_with e (pb_decode_noinit fuel depth e) depth fields dest.

(** A message preceded by its length. *)
Definition in_delimited (f : M dstate unit) : M dstate unit :=
  let! sub := lift pb_make_string_substream in
  let! r := on_substream sub f in
  lift (pb_close_string_substream r.2) ;;!
  status_of r.1.

Definition pb_decode_delimited_noinit (fuel depth : nat) (e : env)
    (fields : list pb_field) (dest : Z) : M dstate unit :=
  in_delimited (pb_decode_noinit fuel depth e fields dest).

Definition pb_decode_delimited (fuel depth : nat) (e : env)
    (fields : list pb_field) (dest : Z) : M dstate unit :=
  in_delimited (pb_decode fuel depth e fields dest).

Definition pb_decode_nullterminated (fuel depth : nat) (e : env)
    (fields : list pb_field) (dest : Z) : M dstate unit :=
  pb_decode fuel depth e fields dest.
