(* ===== verification/PbLayout.v ===== *)
(** * Struct layout and the descriptor macros (pb.h), and the log messages of
      GDTCCTLibrary (cct.nanopb.c)

    C structs are laid out by the rule of the platform ABI: each member at the
    next multiple of its alignment.  The [PB_FIELD] macros turn a struct into a
    descriptor array, as the generated file cct.nanopb.c uses them. *)
From S2P Require Import Prelude Mem PbIstream PbOstream PbField PbEncode.

(** ** C types *)

(** Size and alignment of a member, and the size of [m[0]]. *)
Record ctype : Type := CType { ct_size : Z; ct_align : Z; ct_elem : Z }.
Definition cstruct : Type := list (string * ctype).

Definition c_bool : ctype := CType 1 1 0.
Definition c_int32 : ctype := CType 4 4 0.
Definition c_int64 : ctype := CType 8 8 0.
Definition c_pb_size_t : ctype := CType 4 4 0.
Definition c_enum : ctype := CType 4 4 0.
Definition c_ptr (elem : Z) : ctype := CType 8 8 elem.
(** [sizeof(pb_bytes_array_t)] *)
Definition c_bytes_ptr : ctype := c_ptr 8.

Definition align_up (x a : Z) : Z := (x + a - 1) / a * a.

Fixpoint offset_from (st : cstruct) (off : Z) (m : string) : Z :=
  match st with
  | [] => off
  | (n, t) :: r =>
      let o := align_up off (ct_align t) in
      if String.eqb n m then o else offset_from r (o + ct_size t) m
  end.
Definition offsetof (st : cstruct) (m : string) : Z := offset_from st 0 m.

Fixpoint member_of (st : cstruct) (m : string) : ctype :=
  match st with
  | [] => CType 0 1 0
  | (n, t) :: r => if String.eqb n m then t else member_of r m
  end.

Definition struct_align (st : cstruct) : Z :=
  foldr (fun p a => Z.max (ct_align p.2) a) 1 st.
Fixpoint struct_end (st : cstruct) (off : Z) : Z :=
  match st with
  | [] => off
  | (_, t) :: r => struct_end r (align_up off (ct_align t) + ct_size t)
  end.
Definition sizeof (st : cstruct) : Z := align_up (struct_end st 0) (struct_align st).
Definition c_sub (st : cstruct) : ctype := CType (sizeof st) (struct_align st) 0.
Definition c_sub_ptr (st : cstruct) : ctype := c_ptr (sizeof st).

(** ** [PB_FIELD] *)

Inductive placement : Type := FIRST | OTHER.
Inductive allocation : Type := STATIC | POINTER.
Inductive rules : Type := OPTIONAL | SINGULAR | REPEATED.

Definition PB_DATAOFFSET (p : placement) (st : cstruct) (m1 m2 : string) : Z :=
  match p with
  | FIRST => offsetof st m1
  | OTHER => u32 (offsetof st m1 - offsetof st m2 - ct_size (member_of st m2))
  end.

Definition pb_delta (st : cstruct) (m1 m2 : string) : Z :=
  offsetof st m1 - offsetof st m2.

Definition PB_FIELD (t : Z) (ltype : Z) (r : rules) (a : allocation) (p : placement)
    (st : cstruct) (m prev : string) (ptr : fptr) : pb_field :=
  let fd := PB_DATAOFFSET p st m prev in
  let has := pb_delta st ("has_" +:+ m) m in
  let count := pb_delta st (m +:+ "_count") m in
  let size := ct_size (member_of st m) in
  let elem := ct_elem (member_of st m) in
  match a, r with
  | STATIC, OPTIONAL =>
      PbField t (Z.lor (Z.lor PB_ATYPE_STATIC PB_HTYPE_OPTIONAL) ltype) fd has size 0 ptr
  | STATIC, SINGULAR =>
      PbField t (Z.lor (Z.lor PB_ATYPE_STATIC PB_HTYPE_OPTIONAL) ltype) fd 0 size 0 ptr
  | STATIC, REPEATED =>
      PbField t (Z.lor (Z.lor PB_ATYPE_STATIC PB_HTYPE_REPEATED) ltype) fd count elem
        (size / elem) ptr
  | POINTER, REPEATED =>
      PbField t (Z.lor (Z.lor PB_ATYPE_POINTER PB_HTYPE_REPEATED) ltype) fd count elem 0 ptr
  | POINTER, _ =>
      PbField t (Z.lor (Z.lor PB_ATYPE_POINTER PB_HTYPE_OPTIONAL) ltype) fd 0 elem 0 ptr
  end.

Definition INT64 : Z := PB_LTYPE_VARINT.
Definition INT32 : Z := PB_LTYPE_VARINT.
Definition SINT64 : Z := PB_LTYPE_SVARINT.
Definition ENUM : Z := PB_LTYPE_VARINT.
Definition UENUM : Z := PB_LTYPE_UVARINT.
Definition BYTES : Z := PB_LTYPE_BYTES.
Definition MESSAGE : Z := PB_LTYPE_SUBMESSAGE.

(** ** The structs of cct.nanopb.h *)

Definition NetworkConnectionInfo : cstruct :=
  [("has_network_type", c_bool); ("network_type", c_enum);
   ("has_mobile_subtype", c_bool); ("mobile_subtype", c_enum)].

Definition LogEvent : cstruct :=
  [("has_event_time_ms", c_bool); ("event_time_ms", c_int64);
   ("source_extension", c_bytes_ptr);
   ("has_event_code", c_bool); ("event_code", c_int32);
   ("has_timezone_offset_seconds", c_bool); ("timezone_offset_seconds", c_int64);
   ("has_event_uptime_ms", c_bool); ("event_uptime_ms", c_int64);
   ("has_network_connection_info", c_bool);
   ("network_connection_info", c_sub NetworkConnectionInfo)].

Definition MacClientInfo : cstruct :=
  [("os_major_version", c_bytes_ptr); ("os_full_version", c_bytes_ptr);
   ("application_build", c_bytes_ptr); ("application_bundle_id", c_bytes_ptr)].

Definition IosClientInfo : cstruct :=
  [("os_major_version", c_bytes_ptr); ("os_full_version", c_bytes_ptr);
   ("application_build", c_bytes_ptr); ("country", c_bytes_ptr);
   ("model", c_bytes_ptr); ("language_code", c_bytes_ptr);
   ("application_bundle_id", c_bytes_ptr)].

Definition ClientInfo : cstruct :=
  [("has_client_type", c_bool); ("client_type", c_enum);
   ("has_ios_client_info", c_bool); ("ios_client_info", c_sub IosClientInfo);
   ("has_mac_client_info", c_bool); ("mac_client_info", c_sub MacClientInfo)].

Definition LogRequest : cstruct :=
  [("has_client_info", c_bool); ("client_info", c_sub ClientInfo);
   ("has_log_source", c_bool); ("log_source", c_int32);
   ("log_event_count", c_pb_size_t); ("log_event", c_sub_ptr LogEvent);
   ("has_request_time_ms", c_bool); ("request_time_ms", c_int64);
   ("has_request_uptime_ms", c_bool); ("request_uptime_ms", c_int64);
   ("has_qos_tier", c_bool); ("qos_tier", c_enum)].

Definition BatchedLogRequest : cstruct :=
  [("log_request_count", c_pb_size_t); ("log_request", c_sub_ptr LogRequest)].

Definition QosTierConfiguration : cstruct :=
  [("has_qos_tier", c_bool); ("qos_tier", c_enum);
   ("has_log_source", c_bool); ("log_source", c_int32)].

Definition QosTiersOverride : cstruct :=
  [("qos_tier_configuration_count", c_pb_size_t);
   ("qos_tier_configuration", c_sub_ptr QosTierConfiguration);
   ("has_qos_tier_fingerprint", c_bool); ("qos_tier_fingerprint", c_int64)].

Definition LogResponse : cstruct :=
  [("has_next_request_wait_millis", c_bool); ("next_request_wait_millis", c_int64);
   ("has_qos_tier", c_bool); ("qos_tier", c_sub QosTiersOverride)].

(** ** The descriptor arrays of cct.nanopb.c

    Submessages are named by the position of their array in the file. *)

Definition network_type_default : list Z := le_bytes 4 (u32 (-1)).
Definition mobile_subtype_default : list Z := le_bytes 4 0.
Definition qos_tier_default : list Z := le_bytes 4 0.
Definition log_source_default : list Z := le_bytes 4 0.

Definition gdt_cct_LogEvent_fields : list pb_field :=
  let st := LogEvent in
  [PB_FIELD 1 INT64 OPTIONAL STATIC FIRST st "event_time_ms" "event_time_ms" ptr_null;
   PB_FIELD 6 BYTES OPTIONAL POINTER OTHER st "source_extension" "event_time_ms" ptr_null;
   PB_FIELD 11 INT32 OPTIONAL STATIC OTHER st "event_code" "source_extension" ptr_null;
   PB_FIELD 15 SINT64 OPTIONAL STATIC OTHER st "timezone_offset_seconds" "event_code" ptr_null;
   PB_FIELD 17 INT64 OPTIONAL STATIC OTHER st "event_uptime_ms" "timezone_offset_seconds" ptr_null;
   PB_FIELD 23 MESSAGE OPTIONAL STATIC OTHER st "network_connection_info" "event_uptime_ms" (ptr_submsg 1)].

Definition gdt_cct_NetworkConnectionInfo_fields : list pb_field :=
  let st := NetworkConnectionInfo in
  [PB_FIELD 1 ENUM OPTIONAL STATIC FIRST st "network_type" "network_type"
     (ptr_default network_type_default);
   PB_FIELD 2 UENUM OPTIONAL STATIC OTHER st "mobile_subtype" "network_type"
     (ptr_default mobile_subtype_default)].

Definition gdt_cct_MacClientInfo_fields : list pb_field :=
  let st := MacClientInfo in
  [PB_FIELD 1 BYTES OPTIONAL POINTER FIRST st "os_major_version" "os_major_version" ptr_null;
   PB_FIELD 2 BYTES OPTIONAL POINTER OTHER st "os_full_version" "os_major_version" ptr_null;
   PB_FIELD 3 BYTES OPTIONAL POINTER OTHER st "application_build" "os_full_version" ptr_null;
   PB_FIELD 7 BYTES OPTIONAL POINTER OTHER st "application_bundle_id" "application_build" ptr_null].

Definition gdt_cct_IosClientInfo_fields : list pb_field :=
  let st := IosClientInfo in
  [PB_FIELD 3 BYTES OPTIONAL POINTER FIRST st "os_major_version" "os_major_version" ptr_null;
   PB_FIELD 4 BYTES OPTIONAL POINTER OTHER st "os_full_version" "os_major_version" ptr_null;
   PB_FIELD 5 BYTES OPTIONAL POINTER OTHER st "application_build" "os_full_version" ptr_null;
   PB_FIELD 6 BYTES OPTIONAL POINTER OTHER st "country" "application_build" ptr_null;
   PB_FIELD 7 BYTES OPTIONAL POINTER OTHER st "model" "country" ptr_null;
   PB_FIELD 8 BYTES OPTIONAL POINTER OTHER st "language_code" "model" ptr_null;
   PB_FIELD 11 BYTES OPTIONAL POINTER OTHER st "application_bundle_id" "language_code" ptr_null].

Definition gdt_cct_ClientInfo_fields : list pb_field :=
  let st := ClientInfo in
  [PB_FIELD 1 UENUM OPTIONAL STATIC FIRST st "client_type" "client_type" ptr_null;
   PB_FIELD 4 MESSAGE OPTIONAL STATIC OTHER st "ios_client_info" "client_type" (ptr_submsg 3);
   PB_FIELD 13 MESSAGE OPTIONAL STATIC OTHER st "mac_client_info" "ios_client_info" (ptr_submsg 2)].

Definition gdt_cct_BatchedLogRequest_fields : list pb_field :=
  let st := BatchedLogRequest in
  [PB_FIELD 1 MESSAGE REPEATED POINTER FIRST st "log_request" "log_request" (ptr_submsg 6)].

Definition gdt_cct_LogRequest_fields : list pb_field :=
  let st := LogRequest in
  [PB_FIELD 1 MESSAGE OPTIONAL STATIC FIRST st "client_info" "client_info" (ptr_submsg 4);
   PB_FIELD 2 INT32 OPTIONAL STATIC OTHER st "log_source" "client_info" ptr_null;
   PB_FIELD 3 MESSAGE REPEATED POINTER OTHER st "log_event" "log_source" (ptr_submsg 0);
   PB_FIELD 4 INT64 OPTIONAL STATIC OTHER st "request_time_ms" "log_event" ptr_null;
   PB_FIELD 8 INT64 OPTIONAL STATIC OTHER st "request_uptime_ms" "request_time_ms" ptr_null;
   PB_FIELD 9 UENUM OPTIONAL STATIC OTHER st "qos_tier" "request_uptime_ms"
     (ptr_default qos_tier_default)].

Definition gdt_cct_QosTierConfiguration_fields : list pb_field :=
  let st := QosTierConfiguration in
  [PB_FIELD 2 UENUM OPTIONAL STATIC FIRST st "qos_tier" "qos_tier" ptr_null;
   PB_FIELD 3 INT32 OPTIONAL STATIC OTHER st "log_source" "qos_tier"
     (ptr_default log_source_default)].

Definition gdt_cct_QosTiersOverride_fields : list pb_field :=
  let st := QosTiersOverride in
  [PB_FIELD 1 MESSAGE REPEATED POINTER FIRST st "qos_tier_configuration"
     "qos_tier_configuration" (ptr_submsg 7);
   PB_FIELD 2 INT64 OPTIONAL STATIC OTHER st "qos_tier_fingerprint"
     "qos_tier_configuration" ptr_null].

Definition gdt_cct_LogResponse_fields : list pb_field :=
  let st := LogResponse in
  [PB_FIELD 1 INT64 OPTIONAL STATIC FIRST st "next_request_wait_millis"
     "next_request_wait_millis" ptr_null;
   PB_FIELD 3 MESSAGE OPTIONAL STATIC OTHER st "qos_tier" "next_request_wait_millis"
     (ptr_submsg 8)].

Definition cct_messages (i : nat) : list pb_field :=
  nth i [gdt_cct_LogEvent_fields; gdt_cct_NetworkConnectionInfo_fields;
         gdt_cct_MacClientInfo_fields; gdt_cct_IosClientInfo_fields;
         gdt_cct_ClientInfo_fields; gdt_cct_BatchedLogRequest_fields;
         gdt_cct_LogRequest_fields; gdt_cct_QosTierConfiguration_fields;
         gdt_cct_QosTiersOverride_fields; gdt_cct_LogResponse_fields] [].

(** The messages use neither callbacks nor extensions. *)
Definition cct_env : env :=
  Env cct_messages (fun _ => None) (fun _ => None) (fun _ => None) 0.
