(* ===== verification/PbVarint.v ===== *)
(** * nanopb varints: reader, writer and round trips

    A reference reader of base-128 varints on byte lists, the equivalence of
    [pb_decode_varint] with it on every input, the canonical form that
    [pb_encode_varint] writes, and the round trips of the integer formats; then the 32-bit reader. *)
From S2P Require Import Prelude Mem PbIstream PbOstream.

(** ** Reference: splitting the first varint off a byte list *)

Inductive scan : Type :=
| scan_done (p rest : list Z)
| scan_eof
| scan_overflow.

(** At most [k] bytes. *)
Fixpoint varint_scan (k : nat) (l : list Z) : scan :=
  match k, l with
  | O, _ => scan_overflow
  | S _, [] => scan_eof
  | S k', b :: r =>
      if b <? 128 then scan_done [b] r
      else match varint_scan k' r with
           | scan_done p r' => scan_done (b :: p) r'
           | x => x
           end
  end.

(** The number that the bytes of a varint stand for, seven bits each. *)
Fixpoint varint_value (p : list Z) : Z :=
  match p with
  | [] => 0
  | b :: r => b mod 128 + 128 * varint_value r
  end.

(** A complete varint: continuation bytes, then one below 128. *)
Fixpoint is_varint (p : list Z) : bool :=
  match p with
  | [] => false
  | [b] => (0 <=? b) && (b <? 128)
  | b :: r => (128 <=? b) && (b <? 256) && is_varint r
  end.

(** The buffer stream with [l] in front, the first [n] bytes of which it may
    read. *)
Definition bufstream (l : list Z) (n : Z) (err : option string) : istream :=
  Istream cb_buf_read l n err.
Definition err_or (err : option string) (msg : string) : option string :=
  match err with Some m => Some m | None => Some msg end.

(** ** Reads on buffer streams *)

Lemma readbyte_cons b l n err :
  0 < n -> pb_readbyte (bufstream (b :: l) n err) = Ret b (bufstream l (n - 1) err).
Proof.
  intros Hn. unfold pb_readbyte, bufstream, getm, bind at 1. cbn [i_bytes_left].
  bool_false (n =? 0). unfold tryb, call_icallback, buf_read, bind at 1.
  cbn [i_callback i_state].
  assert (1 <= zlen (b :: l)) by (rewrite zlen_cons; pose proof (zlen_nonneg l); lia).
  bool_false (zlen (b :: l) <? 1).
  reflexivity.
Qed.

Lemma readbyte_eof l err :
  pb_readbyte (bufstream l 0 err) = Fail (bufstream l 0 (err_or err "end-of-stream")).
Proof. reflexivity. Qed.

Lemma read_app p l n err :
  zlen p <= n ->
  pb_read (zlen p) (bufstream (p ++ l) n err) = Ret p (bufstream l (n - zlen p) err).
Proof.
  intros Hn. unfold pb_read. case_bool.
  - destruct p; [|rewrite zlen_cons in *; pose proof (zlen_nonneg p); lia].
    by rewrite zlen_nil, Z.sub_0_r.
  - unfold getm, bind at 1, bufstream. cbn [i_bytes_left].
    bool_false (n <? zlen p).
    unfold bind at 1, tryb, call_icallback, buf_read. cbn [i_callback i_state].
    assert (zlen p <= zlen (p ++ l)) by (rewrite zlen_app; pose proof (zlen_nonneg l); lia).
    bool_false (zlen (p ++ l) <? zlen p).
    rewrite ztake_app, zdrop_app. reflexivity.
Qed.

Lemma read_short l n c err :
  n < c -> 0 < c ->
  pb_read c (bufstream l n err) = Fail (bufstream l n (err_or err "end-of-stream")).
Proof.
  intros Hn Hc. unfold pb_read. bool_false (c =? 0).
  unfold getm, bind at 1, bufstream. cbn [i_bytes_left]. by bool_true (n <? c).
Qed.

Lemma read_null_app p l n err :
  zlen p <= n ->
  pb_read_null (zlen p) (bufstream (p ++ l) n err) = Ret tt (bufstream l (n - zlen p) err).
Proof.
  intros Hn. unfold pb_read_null. case_bool.
  - destruct p; [|rewrite zlen_cons in *; pose proof (zlen_nonneg p); lia].
    by rewrite zlen_nil, Z.sub_0_r.
  - unfold getm, bind at 1. unfold bufstream at 1. cbn [i_callback].
    by rewrite (bind_Ret _ _ _ _ _ (read_app p l n err Hn)).
Qed.

(** ** The reader agrees with the reference *)

Lemma land_7F b : Z.land b 0x7F = b mod 128.
Proof. by rewrite (land_mask_mod b 7). Qed.

Lemma land_80 b : is_byte b -> (Z.land b 0x80 =? 0) = (b <? 128).
Proof.
  intros Hb. unfold is_byte in Hb.
  assert (H : forallb (fun n => Bool.eqb (Z.land (Z.of_nat n) 0x80 =? 0) (Z.of_nat n <? 128))
                (seq 0 256) = true) by (vm_compute; reflexivity).
  rewrite forallb_forall in H. specialize (H (Z.to_nat b)).
  rewrite Z2Nat.id in H by lia. apply eqb_prop, H.
  apply in_seq. lia.
Qed.

Lemma varint_value_nonneg p : 0 <= varint_value p.
Proof.
  induction p as [|b p IH]; cbn [varint_value]; [lia|].
  pose proof (Z.mod_pos_bound b 128). lia.
Qed.

(** One step of [result |= (uintW_t)(byte & 0x7F) << bitpos]. *)
Lemma accumulate_bits w result byte k :
  7 * Z.of_nat k <= w -> 0 <= result < 2 ^ (7 * Z.of_nat k) ->
  Z.lor result (wrap w (Z.shiftl (Z.land byte 0x7F) (7 * Z.of_nat k))) =
  wrap w (result + 2 ^ (7 * Z.of_nat k) * (byte mod 128)).
Proof.
  intros Hk Hr. rewrite land_7F. set (y := byte mod 128).
  set (P := 2 ^ (7 * Z.of_nat k)) in *. set (Q := 2 ^ (w - 7 * Z.of_nat k)).
  assert (HP : 0 < P) by (apply Z.pow_pos_nonneg; lia).
  assert (0 < Q) by (apply Z.pow_pos_nonneg; lia).
  assert (HQ : 2 ^ w = Q * P).
  { unfold P, Q. rewrite <- Z.pow_add_r by lia. f_equal; lia. }
  assert (Hw : wrap w (Z.shiftl y (7 * Z.of_nat k)) =
               Z.shiftl (y mod Q) (7 * Z.of_nat k)).
  { unfold wrap. rewrite !Z.shiftl_mul_pow2, HQ by lia. fold P.
    rewrite Z.mul_mod_distr_r by lia. done. }
  rewrite Hw, lor_shiftl_add by lia. fold P. unfold wrap.
  rewrite HQ, (Z.mul_comm Q P), Z.rem_mul_r by lia.
  replace (result + P * y) with (result + y * P) by lia.
  rewrite Z.div_add, (Z.div_small result P), Z.mod_add, (Z.mod_small result P) by lia.
  rewrite Z.add_0_l. ring.
Qed.

Lemma u8_bitpos j : (j <= 9)%nat -> u8 (7 * Z.of_nat j + 7) = 7 * Z.of_nat (S j).
Proof. intros. rewrite wrap_small; [lia|]. change (2 ^ 8) with 256. lia. Qed.

Lemma accumulate_range result byte k :
  (k <= 9)%nat -> 0 <= result < 2 ^ (7 * Z.of_nat k) ->
  0 <= u64 (result + 2 ^ (7 * Z.of_nat k) * (byte mod 128)) < 2 ^ (7 * Z.of_nat (S k)).
Proof.
  intros Hk Hr. set (r := result + _).
  assert (HP : 2 ^ (7 * Z.of_nat (S k)) = 128 * 2 ^ (7 * Z.of_nat k)).
  { change 128 with (2 ^ 7). rewrite <- Z.pow_add_r by lia. f_equal. lia. }
  assert (0 < 2 ^ (7 * Z.of_nat k)) by (apply Z.pow_pos_nonneg; lia).
  pose proof (Z.mod_pos_bound byte 128).
  assert (0 <= r < 2 ^ (7 * Z.of_nat (S k))) by (unfold r; nia).
  pose proof (wrap_range 64 r ltac:(lia)).
  assert (u64 r <= r) by (apply Z.mod_le; lia). lia.
Qed.

(** A run of continuation bytes. *)
Definition continuation (c : list Z) : Prop := Forall (fun b => 128 <= b < 256) c.

(** The accumulator after [k] bytes. *)
Definition acc_ok (k : nat) (result : Z) : Prop :=
  0 <= result < 2 ^ (7 * Z.of_nat k) /\ u64 result = result.

Lemma acc_ok_step k result byte :
  (k <= 9)%nat -> acc_ok k result ->
  acc_ok (S k) (u64 (result + 2 ^ (7 * Z.of_nat k) * (byte mod 128))).
Proof.
  intros Hk [Hr _]. split; [by apply accumulate_range|by rewrite wrap_wrap].
Qed.

Lemma wrap_add_l w x y : wrap w (wrap w x + y) = wrap w (x + y).
Proof.
  unfold wrap. destruct (Z.eq_dec (2 ^ w) 0) as [->|].
  - by rewrite !Z.mod_0_r.
  - by rewrite Z.add_mod_idemp_l.
Qed.

Lemma pow7_succ k : 2 ^ (7 * Z.of_nat (S k)) = 128 * 2 ^ (7 * Z.of_nat k).
Proof. change 128 with (2 ^ 7). rewrite <- Z.pow_add_r by lia. f_equal. lia. Qed.

Lemma decode_varint_loop_step j k b l n err result :
  is_byte b -> (k <= 9)%nat -> acc_ok k result -> 0 < n ->
  let result' := u64 (result + 2 ^ (7 * Z.of_nat k) * (b mod 128)) in
  decode_varint_loop (S j) (7 * Z.of_nat k) result (bufstream (b :: l) n err) =
  if b <? 128 then Ret result' (bufstream l (n - 1) err)
  else decode_varint_loop j (7 * Z.of_nat (S k)) result' (bufstream l (n - 1) err).
Proof.
  intros Hb Hk [Hr _] Hn result'. cbn [decode_varint_loop].
  bool_false (64 <=? 7 * Z.of_nat k).
  rewrite (bind_Ret _ _ _ _ _ (readbyte_cons b l n err Hn)). cbv zeta.
  rewrite land_80, accumulate_bits, u8_bitpos by (done || lia).
  by destruct (b <? 128).
Qed.

Lemma decode_varint_loop_cont c : forall j k l n err result,
  continuation c -> (k + j = 10)%nat -> (length c <= j)%nat -> zlen c <= n ->
  acc_ok k result ->
  exists result',
    result' = u64 (result + 2 ^ (7 * Z.of_nat k) * varint_value c) /\
    acc_ok (k + length c) result' /\
    decode_varint_loop (S j) (7 * Z.of_nat k) result (bufstream (c ++ l) n err) =
    decode_varint_loop (S (j - length c)) (7 * Z.of_nat (k + length c)) result'
      (bufstream l (n - zlen c) err).
Proof.
  induction c as [|b c IH]; intros j k l n err result Hc Hkj Hlen Hn Hr.
  { exists result. cbn [varint_value length app].
    change (zlen (@nil Z)) with 0. replace (n - 0) with n by lia.
    replace (j - 0)%nat with j by lia. replace (k + 0)%nat with k by lia.
    rewrite Z.mul_0_r, Z.add_0_r. by destruct Hr. }
  inversion Hc as [|? ? Hb Hc']; subst. cbn [length] in *. rewrite zlen_cons in *.
  pose proof (zlen_nonneg c).
  destruct j as [|j]; [lia|].
  rewrite <- app_comm_cons, decode_varint_loop_step; [|unfold is_byte; lia|lia|done|lia].
  bool_false (b <? 128).
  destruct (IH j (S k) l (n - 1) err
              (u64 (result + 2 ^ (7 * Z.of_nat k) * (b mod 128))))
    as (r & Hr1 & Hr2 & ->); [done|lia|lia|lia|by apply acc_ok_step; [lia|]|].
  exists r. rewrite Nat.add_succ_r, Nat.sub_succ.
  replace (n - 1 - zlen c) with (n - (zlen c + 1)) by lia.
  split; [|done]. rewrite Hr1, wrap_add_l, pow7_succ. cbn [varint_value].
  f_equal. ring.
Qed.

(** Every byte list is continuation bytes up to a final byte, or to its end. *)
Lemma varint_scan_cases k l :
  bytes_ok l ->
  match varint_scan k l with
  | scan_done p r => exists c b, p = c ++ [b] /\ l = c ++ b :: r /\
      continuation c /\ 0 <= b < 128 /\ (length c < k)%nat
  | scan_eof => continuation l /\ (length l < k)%nat
  | scan_overflow => continuation (take k l) /\ (k <= length l)%nat
  end.
Proof.
  revert l. induction k as [|k IH]; intros l Hl; [cbn; split; [constructor|lia]|].
  destruct Hl as [|b l Hb Hl]; [cbn; split; [constructor|lia]|]. cbn [varint_scan].
  unfold is_byte in Hb. destruct (Z.ltb_spec b 128).
  { exists [], b. cbn [app length]. repeat split; (done || lia || constructor). }
  specialize (IH l Hl). destruct (varint_scan k l) as [p r| |].
  - destruct IH as (c & b' & -> & -> & Hc & Hb' & Hk).
    exists (b :: c), b'. cbn [app length]. repeat split; try lia.
    constructor; [lia|done].
  - destruct IH. cbn [length]. split; [constructor; [lia|done]|lia].
  - destruct IH. cbn [take length]. split; [constructor; [lia|done]|lia].
Qed.

(** [pb_decode_varint] on a complete varint of at most ten bytes. *)
Lemma decode_varint_done c b l n err :
  continuation c -> 0 <= b < 128 -> (length c < 10)%nat -> zlen (c ++ [b]) <= n ->
  pb_decode_varint (bufstream (c ++ b :: l) n err) =
  Ret (u64 (varint_value (c ++ [b]))) (bufstream l (n - zlen (c ++ [b])) err).
Proof.
  intros Hc Hb Hlen Hn. rewrite zlen_app, zlen_cons, zlen_nil in *.
  destruct (decode_varint_loop_cont c 10 0 (b :: l) n err 0)
    as (r & Hr & Hok & E); [done..|lia|lia|done|].
  unfold pb_decode_varint. change 0 with (7 * Z.of_nat 0) at 1. rewrite E. clear E.
  rewrite Nat.add_0_l in *. destruct (10 - length c)%nat as [|j] eqn:Ej; [lia|].
  rewrite decode_varint_loop_step; [|unfold is_byte; lia|lia|done|lia].
  bool_true (b <? 128). f_equal; [|by f_equal; lia].
  change (7 * Z.of_nat 0) with 0 in Hr.
  rewrite Hr, wrap_add_l, Z.pow_0_r, Z.mul_1_l, Z.add_0_l. f_equal.
  clear. induction c as [|x c IH]; cbn [app varint_value length].
  - change (7 * Z.of_nat 0) with 0. lia.
  - rewrite pow7_succ. lia.
Qed.

Lemma decode_varint_eof c l n err :
  continuation c -> (length c < 10)%nat -> n = zlen c ->
  pb_decode_varint (bufstream (c ++ l) n err) =
  Fail (bufstream l 0 (err_or err "end-of-stream")).
Proof.
  intros Hc Hlen ->.
  destruct (decode_varint_loop_cont c 10 0 l (zlen c) err 0)
    as (r & Hr & Hok & E); [done..|lia|lia|done|].
  unfold pb_decode_varint. change 0 with (7 * Z.of_nat 0) at 1. rewrite E. clear E.
  cbn [decode_varint_loop]. bool_false (64 <=? 7 * Z.of_nat (0 + length c)).
  rewrite Z.sub_diag. apply (bind_Fail _ _ _ _ (readbyte_eof l err)).
Qed.

Lemma decode_varint_overflow c l n err :
  continuation c -> length c = 10%nat -> 10 <= n ->
  pb_decode_varint (bufstream (c ++ l) n err) =
  Fail (bufstream l (n - 10) (err_or err "varint overflow")).
Proof.
  intros Hc Hlen Hn. assert (Hz : zlen c = 10) by (unfold zlen; lia).
  destruct (decode_varint_loop_cont c 10 0 l n err 0)
    as (r & Hr & Hok & E); [done|lia|lia|lia|done|].
  unfold pb_decode_varint. change 0 with (7 * Z.of_nat 0) at 1. rewrite E, Hlen. clear E.
  cbn [decode_varint_loop]. bool_true (64 <=? 7 * Z.of_nat (0 + 10)).
  by rewrite Hz.
Qed.

(** ** Canonical encodings *)

Lemma varint_value_app c b :
  varint_value (c ++ [b]) = varint_value c + 2 ^ (7 * zlen c) * (b mod 128).
Proof.
  unfold zlen. induction c as [|x c IH]; cbn [app varint_value length].
  - change (7 * Z.of_nat 0) with 0. lia.
  - rewrite pow7_succ. lia.
Qed.

Lemma varint_value_bound p : 0 <= varint_value p < 2 ^ (7 * zlen p).
Proof.
  unfold zlen. induction p as [|x p IH]; cbn [varint_value length]; [by cbn|].
  rewrite pow7_succ. pose proof (Z.mod_pos_bound x 128). lia.
Qed.

Lemma lor_land_80 v : Z.lor (Z.land v 0x7F) 0x80 = v mod 128 + 128.
Proof.
  rewrite land_7F. change 0x80 with (Z.shiftl 1 7).
  rewrite lor_shiftl_add; [done|lia|]. apply Z.mod_pos_bound; lia.
Qed.

Lemma clear_last_top_app c b : clear_last_top (c ++ [b]) = c ++ [Z.land b 0x7F].
Proof.
  induction c as [|x c IH]; [done|]. cbn [app clear_last_top].
  rewrite IH. by destruct c.
Qed.

Lemma varint_buffer_shape k : forall v,
  0 < v < 2 ^ (7 * Z.of_nat k) ->
  exists c b, varint_buffer k v = c ++ [b + 128] /\ continuation c /\
    0 < b < 128 /\ (length c < k)%nat /\ varint_value (c ++ [b]) = v.
Proof.
  induction k as [|k IH]; intros v Hv; [change (2 ^ (7 * Z.of_nat 0)) with 1 in Hv; lia|].
  rewrite pow7_succ in Hv. cbn [varint_buffer]. bool_false (v =? 0).
  rewrite lor_land_80, (shiftr_div v 7) by lia. change (2 ^ 7) with 128.
  pose proof (Z.mod_pos_bound v 128 ltac:(lia)).
  pose proof (Z.div_mod v 128 ltac:(lia)).
  destruct (Z.eq_dec (v / 128) 0) as [E|E].
  - exists [], v. assert (v mod 128 = v) by lia. cbn [app varint_value length].
    rewrite E. replace (varint_buffer k 0) with (@nil Z) by (by destruct k).
    repeat split; [by f_equal; lia|constructor|lia..].
  - destruct (IH (v / 128)) as (c & b & -> & Hc & Hb & Hl & Hval);
      [split; [apply Z.le_neq; split; [apply Z.div_pos|]|apply Z.div_lt_upper_bound]; lia|].
    exists (v mod 128 + 128 :: c), b. cbn [app varint_value length].
    rewrite Hval. repeat split; [constructor; [lia|done]|lia..|].
    replace ((v mod 128 + 128) mod 128) with (v mod 128); [lia|].
    rewrite <- Z.add_mod_idemp_r by lia. rewrite Z.mod_same, Z.add_0_r by lia.
    by rewrite Z.mod_mod by lia.
Qed.

(** What [pb_encode_varint] writes: a varint of the value, of at most ten bytes,
    whose last byte is zero only when it is the only one. *)
Lemma varint_bytes_shape v :
  0 <= v < 2 ^ 64 ->
  exists c b, varint_bytes v = c ++ [b] /\ continuation c /\ 0 <= b < 128 /\
    (length c < 10)%nat /\ varint_value (c ++ [b]) = v /\ (c = [] \/ 0 < b).
Proof.
  intros Hv. unfold varint_bytes. destruct (Z.leb_spec v 0x7F).
  - exists [], v. cbn [app varint_value length].
    rewrite wrap_small by (change (2 ^ 8) with 256; lia).
    rewrite Z.mod_small by lia.
    repeat split; try lia; [constructor|by left].
  - destruct (varint_buffer_shape 10 v) as (c & b & -> & Hc & Hb & Hl & Hval).
    { split; [lia|]. pose proof (Z.pow_lt_mono_r 2 64 (7 * Z.of_nat 10)). lia. }
    exists c, b. rewrite clear_last_top_app, land_7F.
    replace ((b + 128) mod 128) with b; [repeat split; (done || lia || by right; lia)|].
    rewrite <- Z.add_mod_idemp_r, Z.mod_same, Z.add_0_r, Z.mod_small by lia. done.
Qed.

Lemma varint_bytes_len v : 0 <= v < 2 ^ 64 -> 1 <= zlen (varint_bytes v) <= 10.
Proof.
  intros Hv. destruct (varint_bytes_shape v Hv) as (c & b & -> & _ & _ & Hl & _).
  rewrite zlen_app, zlen_cons, zlen_nil. unfold zlen. lia.
Qed.

Lemma decode_varint_bytes v l n err :
  0 <= v < 2 ^ 64 -> zlen (varint_bytes v) <= n ->
  pb_decode_varint (bufstream (varint_bytes v ++ l) n err) =
  Ret v (bufstream l (n - zlen (varint_bytes v)) err).
Proof.
  intros Hv Hn. destruct (varint_bytes_shape v Hv) as (c & b & E & Hc & Hb & Hl & Hval & _).
  rewrite E in *. rewrite <- app_assoc. cbn [app].
  rewrite decode_varint_done by done. by rewrite Hval, wrap_small.
Qed.


(** * nanopb: the 32-bit varint reader

    [pb_decode_varint32] on varints of up to five bytes, on the ten-byte form of
    a negative 32-bit number, and the six-byte varints whose high bits it
    drops. *)

(** The checks on a byte past the 32nd bit. *)
Definition extension_ok (k : nat) (result b : Z) : bool :=
  (b mod 128 =? 0) ||
  negb ((Z.shiftr result 31 =? 0) ||
        negb (b =? if 7 * Z.of_nat k <? 63 then 0xFF else 0x01)).

(** The bytes of a negative 32-bit number, sign-extended to 64 bits. *)
Definition sign_extended (x : Z) : Z := 2 ^ 64 - x.

Lemma varint32_loop_low j k b l n err result :
  is_byte b -> (1 <= k <= 4)%nat -> 0 <= result < 2 ^ (7 * Z.of_nat k) -> 0 < n ->
  let result' := u32 (result + 2 ^ (7 * Z.of_nat k) * (b mod 128)) in
  varint32_loop (S j) (7 * Z.of_nat k) result (bufstream (b :: l) n err) =
  if b <? 128 then Ret (result', 7 * Z.of_nat (S k), b) (bufstream l (n - 1) err)
  else varint32_loop j (7 * Z.of_nat (S k)) result' (bufstream l (n - 1) err).
Proof.
  intros Hb Hk Hr Hn result'. cbn [varint32_loop].
  rewrite (bind_Ret _ _ _ _ _ (readbyte_cons b l n err Hn)).
  bool_false (32 <=? 7 * Z.of_nat k). rewrite bind_ret.
  rewrite land_80, accumulate_bits, u8_bitpos by (done || lia).
  by destruct (b <? 128).
Qed.

Lemma varint32_loop_high j k b l n err result :
  is_byte b -> (5 <= k <= 9)%nat -> 0 < n -> extension_ok k result b = true ->
  varint32_loop (S j) (7 * Z.of_nat k) result (bufstream (b :: l) n err) =
  if b <? 128 then Ret (result, 7 * Z.of_nat (S k), b) (bufstream l (n - 1) err)
  else varint32_loop j (7 * Z.of_nat (S k)) result (bufstream l (n - 1) err).
Proof.
  intros Hb Hk Hn Hext. cbn [varint32_loop].
  rewrite (bind_Ret _ _ _ _ _ (readbyte_cons b l n err Hn)).
  bool_true (32 <=? 7 * Z.of_nat k). cbv zeta. rewrite land_7F.
  unfold extension_ok in Hext.
  replace (negb (b mod 128 =? 0) && _) with false.
  2: { symmetry. apply not_true_is_false. intros [H1 H2]%andb_prop.
       apply orb_prop in Hext as [Hext|Hext].
       - by rewrite Hext in H1.
       - by rewrite H2 in Hext. }
  rewrite bind_ret, land_80, u8_bitpos by (done || lia).
  by destruct (b <? 128).
Qed.

(** Continuation bytes below the 32nd bit. *)
Lemma varint32_loop_cont c : forall j k l n err result,
  continuation c -> (1 <= k)%nat -> (k + length c <= 5)%nat -> zlen c <= n ->
  0 <= result < 2 ^ (7 * Z.of_nat k) -> u32 result = result ->
  exists result',
    result' = u32 (result + 2 ^ (7 * Z.of_nat k) * varint_value c) /\
    0 <= result' < 2 ^ (7 * Z.of_nat (k + length c)) /\
    varint32_loop (length c + j) (7 * Z.of_nat k) result (bufstream (c ++ l) n err) =
    varint32_loop j (7 * Z.of_nat (k + length c)) result' (bufstream l (n - zlen c) err).
Proof.
  induction c as [|b c IH]; intros j k l n err result Hc Hk Hlen Hn Hr Hw.
  { exists result. cbn [varint_value length app].
    change (zlen (@nil Z)) with 0. replace (n - 0) with n by lia.
    replace (k + 0)%nat with k by lia. by rewrite Z.mul_0_r, Z.add_0_r. }
  inversion Hc as [|? ? Hb Hc']; subst. cbn [length] in *. rewrite zlen_cons in *.
  pose proof (zlen_nonneg c). cbn [Nat.add].
  rewrite <- app_comm_cons, varint32_loop_low; [|unfold is_byte; lia|lia|done|lia].
  bool_false (b <? 128).
  set (r0 := u32 (result + 2 ^ (7 * Z.of_nat k) * (b mod 128))).
  destruct (IH j (S k) l (n - 1) err r0) as (r & Hr1 & Hr2 & ->); [done|lia..| |by apply wrap_wrap|].
  { unfold r0. rewrite pow7_succ. pose proof (Z.mod_pos_bound b 128 ltac:(lia)).
    set (P := 2 ^ (7 * Z.of_nat k)) in *.
    pose proof (Z.mod_pos_bound (result + P * (b mod 128)) (2 ^ 32) ltac:(done)).
    assert (u32 (result + P * (b mod 128)) <= result + P * (b mod 128))
      by (apply Z.mod_le; [nia|done]). unfold wrap in *. nia. }
  exists r. rewrite Nat.add_succ_r.
  replace (n - 1 - zlen c) with (n - (zlen c + 1)) by lia.
  split; [|done]. unfold r0 in Hr1. rewrite Hr1, wrap_add_l, pow7_succ.
  cbn [varint_value]. f_equal. ring.
Qed.

(** The first byte of a multi-byte varint, up to the loop. *)
Lemma varint32_eof_multi b c l n err :
  128 <= b < 256 -> 0 < n ->
  pb_decode_varint32 (bufstream (b :: c ++ l) n err) =
  match varint32_multibyte b (bufstream (c ++ l) (n - 1) err) with
  | Ret v s => Ret v s | Fail s => Fail s | Ub => Ub | NoFuel => NoFuel
  end.
Proof.
  intros Hb Hn. unfold pb_decode_varint32, pb_decode_varint32_eof, bind, tryb.
  rewrite readbyte_cons by done. rewrite land_80 by (unfold is_byte; lia).
  bool_false (b <? 128). by destruct (varint32_multibyte b _).
Qed.

(** The fifth byte's upper bits say whether the value fits 32 bits. *)
Lemma top_bits last : 0 <= last < 128 -> (Z.land last 0x70 =? 0) = (last <? 16).
Proof.
  intros H.
  assert (E : forallb (fun n => Bool.eqb (Z.land (Z.of_nat n) 0x70 =? 0) (Z.of_nat n <? 16))
                (seq 0 128) = true) by (vm_compute; reflexivity).
  rewrite forallb_forall in E. specialize (E (Z.to_nat last)).
  rewrite Z2Nat.id in E by lia. apply eqb_prop, E, in_seq. lia.
Qed.

Lemma decode_varint32_one b l n err :
  0 <= b < 128 -> 0 < n ->
  pb_decode_varint32 (bufstream (b :: l) n err) = Ret b (bufstream l (n - 1) err).
Proof.
  intros Hb Hn. unfold pb_decode_varint32, pb_decode_varint32_eof, bind, tryb.
  rewrite readbyte_cons by done. rewrite land_80 by (unfold is_byte; lia).
  by bool_true (b <? 128).
Qed.

Lemma varint32_multibyte_short b0 c b l n err :
  128 <= b0 < 256 -> continuation c -> 0 <= b < 128 -> (length c <= 3)%nat ->
  zlen c + 1 <= n ->
  let v := varint_value (b0 :: c ++ [b]) in
  let s' := bufstream l (n - (zlen c + 1)) err in
  varint32_multibyte b0 (bufstream (c ++ b :: l) n err) =
  if v <? 2 ^ 32 then Ret v s' else PB_RETURN_ERROR "varint overflow" s'.
Proof.
  intros Hb0 Hc Hb Hlen Hn v s'. unfold varint32_multibyte, getm, bind at 1.
  cbn [i_bytes_left bufstream]. fold (bufstream (c ++ b :: l) n err).
  pose proof (zlen_nonneg c). rewrite land_7F.
  assert (Hm : 0 <= b0 mod 128 < 2 ^ (7 * Z.of_nat 1)) by (apply Z.mod_pos_bound; lia).
  set (fuel := Z.to_nat n). assert (Hf : (length c <= fuel)%nat) by (unfold fuel, zlen in *; lia).
  replace (S fuel) with (length c + S (fuel - length c))%nat by lia.
  destruct (varint32_loop_cont c (S (fuel - length c)) 1 (b :: l) n err (b0 mod 128))
    as (r & Hr & Hr2 & E); [done|lia..|done|by rewrite wrap_small; cbn in *; lia|].
  change (7 * Z.of_nat 1) with 7 in E at 1. unfold bind at 1. rewrite E. clear E.
  rewrite varint32_loop_low; [|unfold is_byte; lia|lia|done|lia].
  bool_true (b <? 128).
  assert (Hv : v = b0 mod 128 + 2 ^ 7 * varint_value c + 2 ^ (7 * Z.of_nat (1 + length c)) * b).
  { unfold v. cbn [varint_value]. rewrite varint_value_app, (Z.mod_small b) by lia.
    unfold zlen. change (1 + length c)%nat with (S (length c)). rewrite pow7_succ.
    change (2 ^ 7) with 128. ring. }
  assert (Hu : u32 (r + 2 ^ (7 * Z.of_nat (1 + length c)) * (b mod 128)) = u32 v).
  { rewrite Hr, wrap_add_l, Hv, (Z.mod_small b) by lia. done. }
  rewrite Hu. replace (n - zlen c - 1) with (n - (zlen c + 1)) by lia. fold s'.
  rewrite top_bits by done.
  pose proof (varint_value_bound (b0 :: c)) as Hbound. cbn [varint_value] in Hbound.
  rewrite zlen_cons in Hbound.
  destruct (Nat.eq_dec (length c) 3%nat) as [E3|E3].
  - rewrite E3 in *. change (7 * Z.of_nat (S (1 + 3)) =? 35) with true.
    unfold zlen in Hbound. rewrite E3 in Hbound.
    change (2 ^ (7 * (Z.of_nat 3 + 1))) with (2 ^ 28) in Hbound.
    change (2 ^ (7 * Z.of_nat (1 + 3))) with (2 ^ 28) in Hv.
    destruct (Z.ltb_spec b 16); cbn [negb andb].
    + bool_true (v <? 2 ^ 32). unfold ret. by rewrite wrap_small by lia.
    + by bool_false (v <? 2 ^ 32).
  - bool_false (7 * Z.of_nat (S (1 + length c)) =? 35). cbn [andb].
    assert (v < 2 ^ 28).
    { unfold v. pose proof (varint_value_bound (b0 :: c ++ [b])) as [_ Hlt].
      rewrite zlen_cons, zlen_app, zlen_cons, zlen_nil in Hlt. unfold zlen in Hlt.
      eapply Z.lt_le_trans; [exact Hlt|]. apply Z.pow_le_mono_r; lia. }
    bool_true (v <? 2 ^ 32). unfold ret.
    rewrite wrap_small; [done|]. pose proof (varint_value_bound (b0 :: c ++ [b])). lia.
Qed.

(** ** Sign-extended negative numbers *)

Lemma varint_buffer_step k v :
  v <> 0 -> varint_buffer (S k) v = v mod 128 + 128 :: varint_buffer k (v / 128).
Proof.
  intros Hv. cbn [varint_buffer]. bool_false (v =? 0).
  by rewrite lor_land_80, (shiftr_div v 7).
Qed.

Lemma div_pow7 v k :
  0 <= v -> v / 2 ^ (7 * Z.of_nat k) / 128 = v / 2 ^ (7 * Z.of_nat (S k)).
Proof. intros. rewrite pow7_succ, Z.div_div by lia. by rewrite Z.mul_comm. Qed.

Lemma sign_extended_bytes x :
  1 <= x <= 2 ^ 31 ->
  exists c, length c = 5%nat /\ continuation c /\
    varint_bytes (sign_extended x) = c ++ [255; 255; 255; 255; 1] /\
    u32 (varint_value c) = 2 ^ 32 - x.
Proof.
  intros Hx. unfold sign_extended. set (v := 2 ^ 64 - x).
  change (2 ^ 31) with 2147483648 in Hx. change (2 ^ 64) with 18446744073709551616 in v.
  set (d := fun k : nat => v / 2 ^ (7 * Z.of_nat k)).
  assert (Hd : forall k, (k <= 9)%nat -> d k <> 0).
  { intros k Hk. unfold d. apply Z.neq_sym, Z.lt_neq, Z.div_str_pos.
    split; [by apply Z.pow_pos_nonneg; lia|].
    transitivity (2 ^ 63); [apply Z.pow_le_mono_r; lia|].
    change (2 ^ 63) with 9223372036854775808. unfold v; lia. }
  assert (Hs : forall k, d k / 128 = d (S k)) by (intros; apply div_pow7; unfold v; lia).
  assert (H0 : v = d O) by (unfold d; by rewrite Z.div_1_r).
  assert (Hb : forall k, 128 <= d k mod 128 + 128 < 256).
  { intros k. pose proof (Z.mod_pos_bound (d k) 128 ltac:(lia)). lia. }
  assert (H5 : d 5%nat = 2 ^ 29 - 1).
  { unfold d. change (2 ^ (7 * Z.of_nat 5)) with 34359738368.
    change (2 ^ 29 - 1) with 536870911.
    symmetry. apply (Z.div_unique _ _ _ (34359738368 - x)); unfold v; lia. }
  assert (H69 : d 6%nat mod 128 = 127 /\ d 7%nat mod 128 = 127 /\
                d 8%nat mod 128 = 127 /\ d 9%nat mod 128 = 1).
  { rewrite <- (Hs 8%nat), <- (Hs 7%nat), <- (Hs 6%nat), <- (Hs 5%nat), H5.
    by vm_compute. }
  assert (Hlong : (v <=? 0x7F) = false) by (apply Z.leb_gt; unfold v; lia).
  exists (map (fun k => d k mod 128 + 128) [0; 1; 2; 3; 4]%nat).
  split; [done|]. split; [repeat constructor; apply Hb|]. split.
  - unfold varint_bytes. rewrite Hlong, H0 at 1.
    rewrite !varint_buffer_step, !Hs by (rewrite ?Hs; apply Hd; lia).
    rewrite H5. destruct H69 as (-> & -> & -> & ->). done.
  - cbn [map varint_value].
    assert (E : forall k, (d k mod 128 + 128) mod 128 = d k - 128 * d (S k)).
    { intros k. rewrite <- Hs.
      rewrite <- Z.add_mod_idemp_r, Z.mod_same, Z.add_0_r, Z.mod_mod by lia.
      pose proof (Z.div_mod (d k) 128). lia. }
    rewrite !E, <- H0, H5. unfold wrap. change (2 ^ 32) with 4294967296.
    symmetry. apply (Z.mod_unique _ _ 7); unfold v; lia.
Qed.

Lemma varint32_high_run c : forall j k l n err result,
  (5 <= k)%nat -> (k + length c = 9)%nat -> zlen c + 1 <= n -> 2 ^ 31 <= result < 2 ^ 32 ->
  c = replicate (length c) 255 ->
  varint32_loop (length c + S j) (7 * Z.of_nat k) result (bufstream (c ++ 1 :: l) n err) =
  Ret (result, 70, 1) (bufstream l (n - (zlen c + 1)) err).
Proof.
  assert (Hsh : forall r, 2 ^ 31 <= r < 2 ^ 32 -> (Z.shiftr r 31 =? 0) = false).
  { intros r Hr. rewrite shiftr_div by lia. apply Z.eqb_neq.
    enough (0 < r / 2 ^ 31) by lia. apply Z.div_str_pos. split; [done|lia]. }
  induction c as [|b c IH]; intros j k l n err result Hk Hkc Hn Hr Hrep; cbn [length] in *.
  - assert (k = 9%nat) as -> by lia. cbn [app Nat.add].
    rewrite varint32_loop_high; [|by vm_compute|lia|rewrite zlen_nil in Hn; lia|].
    + done.
    + unfold extension_ok. by rewrite Hsh by done.
  - injection Hrep as -> Hrep. rewrite zlen_cons in *. pose proof (zlen_nonneg c).
    cbn [Nat.add]. rewrite <- app_comm_cons, varint32_loop_high; [|by vm_compute|lia|lia|].
    + cbn [Z.ltb Z.compare Pos.compare Pos.compare_cont].
      change (255 <? 128) with false. rewrite IH; [|lia..|done|done].
      by replace (n - 1 - (zlen c + 1)) with (n - (zlen c + 1 + 1)) by lia.
    + unfold extension_ok. rewrite Hsh by done. by bool_true (7 * Z.of_nat k <? 63).
Qed.

Lemma decode_varint32_sign_extended x l n err :
  1 <= x <= 2 ^ 31 -> 10 <= n ->
  pb_decode_varint32 (bufstream (varint_bytes (sign_extended x) ++ l) n err) =
  Ret (2 ^ 32 - x) (bufstream l (n - 10) err).
Proof.
  intros Hx Hn. destruct (sign_extended_bytes x Hx) as (c5 & Hlen & Hc & -> & Hv).
  destruct c5 as [|b0 c]; [done|]. inversion Hc as [|? ? Hb0 Hc']; subst.
  rewrite <- app_assoc. cbn [app length] in *.
  rewrite varint32_eof_multi by lia.
  enough (E : varint32_multibyte b0
            (bufstream (c ++ [255; 255; 255; 255] ++ 1 :: l) (n - 1) err) =
          Ret (2 ^ 32 - x) (bufstream l (n - 10) err)) by (cbn [app] in E; by rewrite E).
  unfold varint32_multibyte, getm, bind at 1. cbn [i_bytes_left bufstream].
  fold (bufstream (c ++ [255; 255; 255; 255] ++ 1 :: l) (n - 1) err).
  rewrite land_7F. set (fuel := Z.to_nat (n - 1)).
  assert (Hz : zlen c = 4) by (unfold zlen; lia).
  assert (Hm : 0 <= b0 mod 128 < 2 ^ (7 * Z.of_nat 1)) by (apply Z.mod_pos_bound; lia).
  replace (S fuel) with (length c + (length [255; 255; 255; 255]%Z + S (fuel - 8)))%nat
    by (cbn [length]; lia).
  destruct (varint32_loop_cont c (length [255; 255; 255; 255] + S (fuel - 8)) 1
              ([255; 255; 255; 255] ++ 1 :: l) (n - 1) err (b0 mod 128))
    as (r & Hr & _ & E); [done|lia..|done|by rewrite wrap_small; cbn in *; lia|].
  change (7 * Z.of_nat 1) with 7 in E at 1. unfold bind at 1. rewrite E. clear E.
  assert (Er : r = 2 ^ 32 - x) by (rewrite Hr, <- Hv; reflexivity).
  assert (2 ^ 31 <= r < 2 ^ 32).
  { rewrite Er. change (2 ^ 32) with 4294967296. change (2 ^ 31) with 2147483648 in *. lia. }
  rewrite varint32_high_run; [|lia|cbn [length]; lia|rewrite Hz, !zlen_cons, zlen_nil; lia|done|done].
  change (70 =? 35) with false. cbn [andb]. unfold ret. rewrite Hz, Er.
  rewrite !zlen_cons, zlen_nil. by replace (n - 1 - 4 - _) with (n - 10) by lia.
Qed.
