(* ===== verification/PbWriter.v ===== *)
(** * nanopb encoder: what an encoding function writes

    [writer f] says that the encoding function [f] behaves the same on every
    stream: whatever bytes it writes to one buffer stream, it counts on a
    sizing stream, writes to every buffer stream with room for them, and is
    refused, within the bounds of the buffer, by every stream without.  The
    encoders of pb_encode.c are shown to be writers. *)
From S2P Require Import Prelude Mem PbIstream PbOstream PbField PbEncode PbVarint.

Definition buf_stream (out : list Z) (max n : Z) (err : option string) : ostream :=
  Ostream oc_buf_write out max n err.
Definition sizing_stream (out : list Z) (max n : Z) (err : option string) : ostream :=
  Ostream oc_null out max n err.

Definition counts (f : M ostream unit) (bs : list Z) : Prop :=
  forall out max n err, 0 <= n < 2 ^ 64 ->
  exists err', f (sizing_stream out max n err) =
               Ret tt (sizing_stream out max (u64 (n + zlen bs)) err').

Definition fills (f : M ostream unit) (bs : list Z) : Prop :=
  forall out max n err, 0 <= n <= max -> max < 2 ^ 63 -> n + zlen bs <= max ->
  exists err', f (buf_stream out max n err) =
               Ret tt (buf_stream (out ++ bs) max (n + zlen bs) err').

Definition refused (f : M ostream unit) (bs : list Z) : Prop :=
  forall out max n err, 0 <= n <= max -> max < 2 ^ 63 -> max < n + zlen bs ->
  exists w n' err', f (buf_stream out max n err) =
                    Fail (buf_stream (out ++ w) max n' err') /\ n + zlen w <= max.

Record emits (f : M ostream unit) (bs : list Z) : Prop := Emits {
  emits_counts : counts f bs;
  emits_fills : fills f bs;
  emits_refused : refused f bs }.

(** The physical output [bs] is assumed shorter than 2^63 bytes. *)
Definition writer (f : M ostream unit) : Prop :=
  forall out max n err s', 0 <= n < 2 ^ 64 ->
  f (buf_stream out max n err) = Ret tt s' ->
  exists bs n' err', s' = buf_stream (out ++ bs) max n' err' /\ 0 <= n' < 2 ^ 64 /\
    (n <= max < 2 ^ 64 -> n + zlen bs < 2 ^ 63 ->
     n' = n + zlen bs /\ n' <= max /\ emits f bs).

(** A computation that neither reads nor changes the stream. *)
Definition stateless {S A} (f : M S A) : Prop :=
  exists r : out unit A, forall s, f s =
    match r with Ret a _ => Ret a s | Fail _ => Fail s | Ub => Ub | NoFuel => NoFuel end.

(** ** Stateless computations *)

Lemma stateless_ret {S A} (a : A) : stateless (S := S) (ret a).
Proof. by exists (Ret a tt). Qed.

Lemma stateless_of_opt {S A} (o : option A) : stateless (S := S) (of_opt o).
Proof. destruct o as [a|]; [by exists (Ret a tt)|by exists Ub]. Qed.

Lemma stateless_ubm {S A} : stateless (S := S) (A := A) ubm.
Proof. by exists Ub. Qed.

Lemma stateless_nofuelm {S A} : stateless (S := S) (A := A) nofuelm.
Proof. by exists NoFuel. Qed.

Lemma stateless_bind {S A B} (f : M S A) (k : A -> M S B) :
  stateless f -> (forall a, stateless (k a)) -> stateless (bind f k).
Proof.
  intros [r Hr] Hk. destruct r as [a u|u| |].
  - destruct (Hk a) as [r' Hr']. exists r'. intros s. unfold bind. by rewrite Hr.
  - exists (Fail tt). intros s. unfold bind. by rewrite Hr.
  - exists Ub. intros s. unfold bind. by rewrite Hr.
  - exists NoFuel. intros s. unfold bind. by rewrite Hr.
Qed.

Create HintDb stateless.
#[export] Hint Resolve stateless_ret stateless_of_opt stateless_ubm stateless_nofuelm
  stateless_bind : stateless.
#[export] Hint Extern 2 (stateless (if ?b then _ else _)) => destruct b : stateless.
#[export] Hint Extern 2 (stateless (match ?b with _ => _ end)) => destruct b : stateless.

(** ** Writers compose *)

Lemma emits_ret : emits (ret tt) [].
Proof.
  split; intros out max n err Hn.
  - exists err. rewrite zlen_nil, Z.add_0_r, wrap_small by done. done.
  - intros _ _. exists err. by rewrite app_nil_r, zlen_nil, Z.add_0_r.
  - rewrite zlen_nil. lia.
Qed.

Lemma writer_ret : writer (ret tt).
Proof.
  intros out max n err s' Hn [= <-]. exists [], n, err.
  rewrite app_nil_r. change (zlen (@nil Z)) with 0. rewrite Z.add_0_r.
  split; [done|]. split; [done|].
  intros. split; [lia|]. split; [lia|apply emits_ret].
Qed.

Lemma emits_seq f g a b : emits f a -> emits g b -> emits (f ;;! g) (a ++ b).
Proof.
  intros [Hfc Hff Hfr] [Hgc Hgf Hgr].
  pose proof (zlen_nonneg a); pose proof (zlen_nonneg b).
  split; intros out max n err Hn; unfold bind; rewrite ?zlen_app.
  - destruct (Hfc out max n err Hn) as [e1 ->].
    destruct (Hgc out max (u64 (n + zlen a)) e1) as [e2 ->]; [apply wrap_range; lia|].
    exists e2. rewrite wrap_add_l. by rewrite Z.add_assoc.
  - intros Hm Hfit. destruct (Hff out max n err) as [e1 ->]; [lia..|].
    destruct (Hgf (out ++ a) max (n + zlen a) e1) as [e2 ->]; [lia..|].
    exists e2. by rewrite Z.add_assoc, app_assoc.
  - intros Hm Hfull. destruct (Z.le_gt_cases (n + zlen a) max).
    + destruct (Hff out max n err) as [e1 ->]; [lia..|].
      destruct (Hgr (out ++ a) max (n + zlen a) e1) as (w & n' & e2 & -> & Hw); [lia..|].
      exists (a ++ w), n', e2. rewrite app_assoc, zlen_app. split; [done|lia].
    + destruct (Hfr out max n err) as (w & n' & e1 & -> & Hw); [lia..|]. by exists w, n', e1.
Qed.

Lemma writer_seq f g : writer f -> writer g -> writer (f ;;! g).
Proof.
  intros Hf Hg out max n err s' Hn H.
  apply bind_inv in H as ([] & s1 & H1 & H2).
  destruct (Hf _ _ _ _ _ Hn H1) as (a & n1 & e1 & -> & Hn1 & Ha).
  destruct (Hg _ _ _ _ _ Hn1 H2) as (b & n2 & e2 & -> & Hn2 & Hb).
  exists (a ++ b), n2, e2. rewrite app_assoc, zlen_app. split; [done|]. split; [done|].
  intros Hmax Hlen. pose proof (zlen_nonneg a); pose proof (zlen_nonneg b).
  destruct Ha as (-> & Hle & Ea); [lia..|].
  destruct Hb as (-> & Hle2 & Eb); [lia..|].
  split; [lia|]. split; [lia|]. by apply emits_seq.
Qed.

(** Functions that agree everywhere emit the same. *)
Lemma emits_ext f g bs : (forall s, f s = g s) -> emits g bs -> emits f bs.
Proof.
  intros E [Hc Hf Hr].
  split; intros out max n err Hn; rewrite E; [by apply Hc|by apply Hf|by apply Hr].
Qed.

Lemma writer_ext f g : (forall s, f s = g s) -> writer g -> writer f.
Proof.
  intros E Hg out max n err s' Hn H. rewrite E in H.
  destruct (Hg _ _ _ _ _ Hn H) as (bs & n' & e & ? & ? & Hbs). exists bs, n', e.
  do 2 (split; [done|]). intros Hm Hlen. destruct (Hbs Hm Hlen) as (? & ? & ?).
  split_and!; [done..|]. by eapply emits_ext.
Qed.

Lemma writer_stateless {A} (f : M ostream A) (k : A -> M ostream unit) :
  stateless f -> (forall a, writer (k a)) -> writer (bind f k).
Proof.
  intros [r Hr] Hk. destruct r as [a u|u| |].
  - apply (writer_ext _ (k a)); [|done]. intros s. unfold bind. by rewrite Hr.
  - intros out max n err s' _ H. unfold bind in H. by rewrite Hr in H.
  - intros out max n err s' _ H. unfold bind in H. by rewrite Hr in H.
  - intros out max n err s' _ H. unfold bind in H. by rewrite Hr in H.
Qed.

Lemma writer_error msg : writer (ORETURN_ERROR msg).
Proof. intros out max n err s' _ H. discriminate H. Qed.

Lemma writer_ubm : writer ubm.
Proof. intros out max n err s' _ H. discriminate H. Qed.

Lemma writer_nofuelm : writer nofuelm.
Proof. intros out max n err s' _ H. discriminate H. Qed.

(** ** [pb_write] and the writers built on it *)

Lemma load_bytes_length m n : forall a bs, load_bytes m a n = Some bs -> length bs = n.
Proof.
  induction n as [|n IH]; intros a bs H; cbn [load_bytes] in H; [by injection H as <-|].
  destruct (m_bytes m !! a); [|done]. destruct (load_bytes m (a + 1) n) eqn:E; [|done].
  injection H as <-. cbn [length]. by rewrite (IH _ _ E).
Qed.

Lemma read_source_len src count bs :
  0 <= count -> read_source src count = Some bs -> zlen bs = count.
Proof.
  intros Hc H. destruct src as [|l|m a]; cbn [read_source] in H; [done|..].
  - destruct (Z.ltb_spec (zlen l) count); [done|]. injection H as <-.
    apply zlen_ztake. lia.
  - apply load_bytes_length in H. unfold zlen. lia.
Qed.

(** [pb_write] by the outcome of its check. *)
Lemma pb_write_buf src count out max n err :
  0 <= n <= max -> max < 2 ^ 63 -> 0 < count < 2 ^ 63 ->
  pb_write src count (buf_stream out max n err) =
  if max <? n + count then Fail (buf_stream out max n (err_or err "stream full"))
  else match read_source src count with
       | None => Ub
       | Some bs => Ret tt (buf_stream (out ++ bs) max (n + count) err)
       end.
Proof.
  intros Hn Hm Hc. change (2 ^ 63) with 9223372036854775808 in *.
  assert (Hw : u64 (n + count) = n + count)
    by (apply wrap_small; change (2 ^ 64) with 18446744073709551616; lia).
  unfold pb_write, bind at 1, getm, buf_stream. cbn [has_callback o_callback o_bytes_written o_max_size].
  bool_true (0 <? count). cbn [andb]. rewrite Hw.
  bool_false (n + count <? n). cbn [orb].
  destruct (max <? n + count); [done|].
  destruct (read_source src count) as [bs|]; [|done].
  unfold bind, of_opt, tryb, call_ocallback, buf_write, modm, ret.
  cbn [o_callback set_out set_bytes_written o_out o_max_size o_bytes_written o_errmsg].
  by rewrite Hw.
Qed.

Lemma pb_write_zero src out max n err :
  0 <= n < 2 ^ 64 ->
  pb_write src 0 (buf_stream out max n err) = Ret tt (buf_stream out max n err).
Proof.
  intros Hn. unfold pb_write, bind, getm, modm, ret, buf_stream. cbn.
  unfold set_bytes_written. cbn. by rewrite Z.add_0_r, wrap_small.
Qed.

Lemma pb_write_counts src count out max n err :
  pb_write src count (sizing_stream out max n err) =
  Ret tt (sizing_stream out max (u64 (n + count)) err).
Proof. unfold pb_write, bind, getm, sizing_stream. cbn. by rewrite andb_false_r. Qed.

Lemma emits_write src count bs :
  read_source src count = Some bs -> 0 < count < 2 ^ 63 ->
  emits (pb_write src count) bs.
Proof.
  intros Hs Hc. assert (0 <= count) as Hc0 by lia.
  pose proof (read_source_len _ _ _ Hc0 Hs) as Hl.
  split; intros out max n err Hn.
  - exists err. by rewrite pb_write_counts, Hl.
  - intros Hm Hfit. exists err. rewrite pb_write_buf by lia.
    bool_false (max <? n + count). by rewrite Hs, Hl.
  - intros Hm Hfull. rewrite pb_write_buf by lia. bool_true (max <? n + count).
    exists [], n, (err_or err "stream full"). rewrite app_nil_r. split; [done|].
    change (zlen (@nil Z)) with 0. lia.
Qed.

Lemma emits_write_zero src : emits (pb_write src 0) [].
Proof.
  change (2 ^ 63) with 9223372036854775808.
  split; intros out max n err Hn.
  - exists err. by rewrite pb_write_counts.
  - intros Hm Hfit. exists err. change (2 ^ 63) with 9223372036854775808 in *.
    rewrite pb_write_zero by (change (2 ^ 64) with 18446744073709551616; lia).
    rewrite app_nil_r. change (zlen (@nil Z)) with 0. by rewrite Z.add_0_r.
  - change (zlen (@nil Z)) with 0. lia.
Qed.

(** The write of a buffer stream that succeeds, without assumptions on its
    sizes: the source was read and its bytes appended. *)
Lemma pb_write_Ret src count out max n err s' :
  0 < count -> pb_write src count (buf_stream out max n err) = Ret tt s' ->
  exists bs, read_source src count = Some bs /\
    s' = buf_stream (out ++ bs) max (u64 (n + count)) err /\
    n <= u64 (n + count) <= max.
Proof.
  intros Hc H. unfold pb_write, bind at 1, getm, buf_stream in H.
  cbn [has_callback o_callback o_bytes_written o_max_size] in H.
  replace (0 <? count) with true in H by solve_bool. cbn [andb] in H.
  destruct (Z.ltb_spec (u64 (n + count)) n); [done|].
  destruct (Z.ltb_spec max (u64 (n + count))); [done|]. cbn [orb] in H.
  destruct (read_source src count) as [bs|]; [|done].
  exists bs. unfold bind, of_opt, tryb, call_ocallback, buf_write, modm, ret in H.
  cbn [o_callback set_out set_bytes_written o_out o_max_size o_bytes_written o_errmsg] in H.
  injection H as <-. split; [done|]. split; [done|lia].
Qed.

Lemma writer_write src count : 0 <= count -> writer (pb_write src count).
Proof.
  intros Hc out max n err s' Hn H. destruct (Z.eq_dec count 0) as [->|Hne].
  - unfold pb_write, bind, getm, modm, ret, buf_stream in H. cbn in H.
    injection H as <-. unfold set_bytes_written. cbn.
    exists [], (u64 (n + 0)), err. rewrite app_nil_r. split; [done|].
    split; [apply wrap_range; lia|]. intros Hm _. change (zlen (@nil Z)) with 0.
    rewrite Z.add_0_r, wrap_small by lia. split; [done|]. split; [lia|apply emits_write_zero].
  - apply pb_write_Ret in H as (bs & Hs & -> & Hle); [|lia].
    exists bs, (u64 (n + count)), err. split; [done|]. split; [apply wrap_range; lia|].
    pose proof (read_source_len _ _ _ Hc Hs) as Hl. rewrite Hl. intros Hm Hlen.
    assert (Hw : u64 (n + count) = n + count)
      by (apply wrap_small; change (2 ^ 64) with (2 * 2 ^ 63); lia).
    rewrite Hw in *. split; [done|]. split; [lia|]. apply emits_write; [done|lia].
Qed.

Lemma writer_varint v : writer (pb_encode_varint v).
Proof. apply writer_write, zlen_nonneg. Qed.

Lemma writer_string src size : 0 <= size -> writer (pb_encode_string src size).
Proof. intros. apply writer_seq; [apply writer_varint|by apply writer_write]. Qed.

Lemma emits_varint v :
  0 <= v < 2 ^ 64 -> emits (pb_encode_varint v) (varint_bytes v).
Proof.
  intros Hv. pose proof (varint_bytes_len v Hv). apply emits_write.
  - cbn [read_source]. bool_false (zlen (varint_bytes v) <? zlen (varint_bytes v)).
    unfold ztake, zlen. by rewrite Nat2Z.id, firstn_all.
  - change (2 ^ 63) with 9223372036854775808. lia.
Qed.
