(* ===== verification/PbEncodeSize.v ===== *)
(** * nanopb encoder: size and determinism of the output

    Every encoder of pb_encode.c is a [writer] (see PbWriter.v), by induction
    on the nesting of the message, so that the size computed by the sizing
    stream is the number of bytes any other stream receives. *)
From S2P Require Import Prelude Mem PbIstream PbOstream PbField PbEncode PbVarint PbWriter.

(** The memory holds bytes and the descriptors hold values of [pb_size_t]. *)
Definition mem_ok (m : mem) : Prop := map_Forall (fun _ b => is_byte b) (m_bytes m).
Definition field_ok (f : pb_field) : Prop :=
  0 <= data_size f < 2 ^ 32 /\ 0 <= array_size f < 2 ^ 32.

(** The program's descriptors, and what nanopb's documentation asks of a user's
    encoder: called again on the same message it produces the same bytes. *)
Record env_ok (e : env) : Prop := {
  msgs_ok : forall i, Forall field_ok (e_msgs e i);
  ext_arg_ok : forall t et, e_ext_types e t = Some et -> field_ok (et_arg et);
  encode_cb_ok : forall f cb field arg,
    e_encode_cb e f = Some cb -> writer (cb field arg);
  encode_ext_ok : forall t et f x,
    e_ext_types e t = Some et -> et_encode et = Some f -> writer (f x) }.

Create HintDb writers.
#[export] Hint Resolve writer_ret writer_seq writer_error writer_ubm writer_nofuelm
  writer_varint : writers.

(** ** Memory *)

Lemma load_bytes_ok m n : mem_ok m -> forall a bs,
  load_bytes m a n = Some bs -> bytes_ok bs.
Proof.
  intros Hm. induction n as [|n IH]; intros a bs H; cbn [load_bytes] in H.
  - injection H as <-. constructor.
  - destruct (m_bytes m !! a) as [b|] eqn:Eb; [|done].
    destruct (load_bytes m (a + 1) n) as [r|] eqn:Er; [|done]. injection H as <-.
    constructor; [exact (Hm _ _ Eb)|by eapply IH].
Qed.

Lemma load_range m a n v :
  mem_ok m -> load m a n = Some v -> 0 <= v < 2 ^ (8 * Z.of_nat n).
Proof.
  intros Hm H. unfold load in H. destruct (load_bytes m a n) as [bs|] eqn:E; [|done].
  injection H as <-. pose proof (load_bytes_ok m n Hm a bs E) as Hok.
  apply load_bytes_length in E. rewrite <- E. by apply le_value_range.
Qed.

(** A read of the memory followed by a writer. *)
Lemma writer_of_opt {A} (o : option A) (k : A -> M ostream unit) :
  (forall a, o = Some a -> writer (k a)) -> writer (let! a := of_opt o in k a).
Proof.
  intros H. destruct o as [a|]; [|exact writer_ubm].
  apply (writer_ext _ (k a)); [done|by apply H].
Qed.

(** The memory is read, then the stream is written: the common shape. *)
Lemma writer_stateless_dep {A} (f : M ostream A) (k : A -> M ostream unit) :
  stateless f -> (forall a s, f s = Ret a s -> writer (k a)) -> writer (bind f k).
Proof.
  intros [r Hr] Hk. destruct r as [a u|u| |].
  - apply (writer_ext _ (k a)); [intros s; unfold bind; by rewrite Hr|].
    apply (Hk a PB_OSTREAM_SIZING). by rewrite Hr.
  - intros out max n err s' _ H. unfold bind in H. by rewrite Hr in H.
  - intros out max n err s' _ H. unfold bind in H. by rewrite Hr in H.
  - intros out max n err s' _ H. unfold bind in H. by rewrite Hr in H.
Qed.

(** ** Item encoders *)

Lemma writer_fixed32 v : writer (pb_encode_fixed32 v).
Proof. by apply writer_write. Qed.

Lemma writer_fixed64 v : writer (pb_encode_fixed64 v).
Proof. by apply writer_write. Qed.

Lemma writer_svarint v : writer (pb_encode_svarint v).
Proof. apply writer_varint. Qed.

Lemma writer_tag wt n : writer (pb_encode_tag wt n).
Proof. apply writer_varint. Qed.
#[export] Hint Resolve writer_fixed32 writer_fixed64 writer_svarint writer_tag : writers.

Lemma writer_tag_for_field f : writer (pb_encode_tag_for_field f).
Proof. unfold pb_encode_tag_for_field. destruct (wire_type_of _); auto with writers. Qed.
#[export] Hint Resolve writer_tag_for_field : writers.

Lemma string_size_stateless m n : forall p size max,
  stateless (string_size m n p size max).
Proof.
  induction n as [|n IH]; intros; cbn [string_size]; [auto with stateless|].
  destruct (size <? max); auto with stateless.
Qed.

Lemma string_size_nonneg m n : forall p size max s r s',
  0 <= size -> string_size m n p size max s = Ret r s' -> 0 <= r.
Proof.
  induction n as [|n IH]; intros p size max s r s' Hs H; [done|].
  cbn [string_size] in H. destruct (size <? max); [|by injection H as <- _].
  apply bind_inv in H as (c & s1 & _ & H). destruct (negb (c =? 0)).
  - eapply IH; [|exact H]. lia.
  - by injection H as <- _.
Qed.

(** ** Submessages *)

Lemma varint_bytes_pos v : 0 < zlen (varint_bytes v).
Proof.
  unfold varint_bytes. destruct (Z.leb_spec v 0x7F); [done|].
  cbn [varint_buffer]. bool_false (v =? 0). unfold zlen.
  cbn [clear_last_top]. case_match; cbn [length]; lia.
Qed.

Lemma read_local l : read_source (src_local l) (zlen l) = Some l.
Proof.
  cbn [read_source]. bool_false (zlen l <? zlen l).
  unfold ztake, zlen. by rewrite Nat2Z.id, firstn_all.
Qed.

Lemma varint_Ret v out max n err s' :
  pb_encode_varint v (buf_stream out max n err) = Ret tt s' ->
  s' = buf_stream (out ++ varint_bytes v) max (u64 (n + zlen (varint_bytes v))) err /\
  n <= u64 (n + zlen (varint_bytes v)) <= max.
Proof.
  intros H. apply pb_write_Ret in H as (bs & Hs & -> & Hle); [|apply varint_bytes_pos].
  rewrite read_local in Hs. by injection Hs as <-.
Qed.

Lemma pow63_64 : 2 ^ 64 = 2 * 2 ^ 63.
Proof. reflexivity. Qed.
Ltac pow_lia := rewrite ?pow63_64 in *; lia.

Lemma u64_fits x : 0 <= x < 2 ^ 63 -> u64 x = x.
Proof. intros. apply wrap_small. pow_lia. Qed.

(** What a writer counts on a fresh sizing stream. *)
Lemma emits_sizing f bs :
  emits f bs -> zlen bs < 2 ^ 63 ->
  exists err, f PB_OSTREAM_SIZING = Ret tt (sizing_stream [] 0 (zlen bs) err).
Proof.
  intros [Hc _ _] Hl. destruct (Hc [] 0 0 None) as [err Hf]; [pow_lia|].
  exists err. change PB_OSTREAM_SIZING with (sizing_stream [] 0 0 None).
  rewrite Hf. pose proof (zlen_nonneg bs).
  by rewrite Z.add_0_l, u64_fits by lia.
Qed.

Section Submessage.
Context (rec : list pb_field -> Z -> M ostream unit) (fields : list pb_field) (src : Z).

(** The part of [pb_encode_submessage] after the size was written. *)
Definition submessage_body (size : Z) : M ostream unit :=
  let! s := getm in
  if negb (has_callback s) then pb_write src_null size
  else if o_max_size s <? u64 (o_bytes_written s + size)
  then ORETURN_ERROR "stream full"
  else fun s =>
    let finish sub2 := Ostream (o_callback s) (o_out sub2) (o_max_size s)
        (u64 (o_bytes_written s + o_bytes_written sub2)) (o_errmsg sub2) in
    match rec fields src (Ostream (o_callback s) (o_out s) size 0 None) with
    | Ub => Ub
    | NoFuel => NoFuel
    | Ret _ sub2 =>
        if negb (o_bytes_written sub2 =? size)
        then ORETURN_ERROR "submsg size changed" (finish sub2)
        else Ret tt (finish sub2)
    | Fail sub2 =>
        if negb (o_bytes_written sub2 =? size)
        then ORETURN_ERROR "submsg size changed" (finish sub2)
        else Fail (finish sub2)
    end.

Lemma emits_submessage_body bs :
  emits (rec fields src) bs -> zlen bs < 2 ^ 63 ->
  emits (submessage_body (zlen bs)) bs.
Proof.
  intros [_ Hf _] Hlen. pose proof (zlen_nonneg bs).
  split; intros out max n err Hn; unfold submessage_body, bind at 1, getm.
  - exists err. apply pb_write_counts.
  - intros Hm Hfit. cbn [has_callback buf_stream o_callback negb o_max_size o_bytes_written].
    rewrite u64_fits by lia. bool_false (max <? n + zlen bs).
    destruct (Hf out (zlen bs) 0 None) as [e2 H2]; [lia..|].
    unfold buf_stream in *. cbv beta iota zeta. cbn [o_out o_callback].
    rewrite H2. cbn [o_bytes_written o_out o_errmsg o_callback o_max_size].
    rewrite Z.add_0_l, Z.eqb_refl. cbn [negb]. exists e2.
    by rewrite u64_fits by lia.
  - intros Hm Hfull. cbn [has_callback buf_stream o_callback negb o_max_size o_bytes_written].
    exists [], n, (err_or err "stream full"). rewrite app_nil_r.
    split; [|change (zlen (@nil Z)) with 0; lia].
    destruct (Z.lt_ge_cases (n + zlen bs) (2 ^ 64)) as [Hs|Hs].
    + rewrite wrap_small by lia. by bool_true (max <? n + zlen bs).
    + pow_lia.
Qed.

Lemma emits_submessage bs :
  emits (rec fields src) bs -> zlen bs < 2 ^ 63 ->
  emits (pb_encode_submessage rec fields src) (varint_bytes (zlen bs) ++ bs).
Proof.
  intros Hrec Hlen. destruct (emits_sizing _ _ Hrec Hlen) as [err Hs].
  apply (emits_ext _ (pb_encode_varint (zlen bs) ;;! submessage_body (zlen bs))).
  - intros s. unfold pb_encode_submessage. by rewrite Hs.
  - apply emits_seq; [|by apply emits_submessage_body].
    apply emits_varint. pose proof (zlen_nonneg bs). pow_lia.
Qed.

(** A body that succeeds on a buffer stream. *)
Lemma submessage_body_Ret size out max n err s' :
  writer (rec fields src) -> 0 <= n < 2 ^ 64 ->
  submessage_body size (buf_stream out max n err) = Ret tt s' ->
  exists bs n' err', s' = buf_stream (out ++ bs) max n' err' /\ 0 <= n' < 2 ^ 64 /\
    (zlen bs < 2 ^ 63 ->
     size = zlen bs /\ emits (rec fields src) bs /\ n' = u64 (n + size) /\ n' <= max).
Proof.
  intros Hw Hn H. unfold submessage_body, bind at 1, getm in H.
  cbn [has_callback buf_stream o_callback negb o_max_size o_bytes_written o_out] in H.
  destruct (Z.ltb_spec max (u64 (n + size))) as [|Hfit]; [done|].
  unfold buf_stream in H. cbv beta iota zeta in H.
  cbn [o_out o_callback o_max_size o_bytes_written] in H.
  fold (buf_stream out size 0 None) in H.
  destruct (rec fields src (buf_stream out size 0 None)) as [[] s2|s2| |] eqn:E; try done.
  2: by destruct (negb (o_bytes_written s2 =? size)).
  destruct (Hw out size 0 None s2 ltac:(pow_lia) E) as (bs & n2 & e2 & -> & Hn2 & Hbs).
  unfold buf_stream in H.
  cbn [o_bytes_written o_out o_errmsg o_callback o_max_size] in H.
  destruct (Z.eqb_spec n2 size) as [->|]; [|done]. injection H as <-.
  exists bs, (u64 (n + size)), e2. split; [done|]. split; [by apply wrap_range|].
  intros Hlen. destruct Hbs as (-> & _ & He); [lia..|]. by rewrite Z.add_0_l in *.
Qed.

Lemma writer_submessage :
  writer (rec fields src) -> writer (pb_encode_submessage rec fields src).
Proof.
  intros Hw out max n err s' Hn H. unfold pb_encode_submessage in H.
  destruct (rec fields src PB_OSTREAM_SIZING) as [[] sub|?| |]; try done.
  set (size := o_bytes_written sub) in H.
  change ((pb_encode_varint size ;;! submessage_body size)
            (buf_stream out max n err) = Ret tt s') in H.
  apply bind_inv in H as ([] & s1 & H1 & H2).
  apply varint_Ret in H1 as [-> Hle].
  apply submessage_body_Ret in H2 as (bs & n' & e' & -> & Hn' & Hbs); [|done|by apply wrap_range].
  exists (varint_bytes size ++ bs), n', e'. rewrite <- app_assoc, zlen_app.
  split; [done|]. split; [done|]. intros Hm Hlen.
  pose proof (zlen_nonneg bs); pose proof (zlen_nonneg (varint_bytes size)).
  destruct Hbs as (Hsz & He & -> & Hle2); [lia|].
  rewrite (u64_fits (n + zlen (varint_bytes size))) in * by lia.
  rewrite Hsz in *. rewrite u64_fits in * by lia. split; [lia|]. split; [lia|].
  by apply emits_submessage; [|lia].
Qed.
End Submessage.

(** ** Arrays *)

(** Every success on a buffer stream appends [k] bytes. *)
Definition writes_len (k : Z) (f : M ostream unit) : Prop :=
  forall out max n err s', f (buf_stream out max n err) = Ret tt s' ->
  exists bs n' err', s' = buf_stream (out ++ bs) max n' err' /\ zlen bs = k.

Lemma writes_len_local l k :
  0 < k -> zlen l = k -> writes_len k (pb_write (src_local l) k).
Proof.
  intros Hk <- out max n err s' H. apply pb_write_Ret in H as (bs & Hs & -> & _); [|done].
  rewrite read_local in Hs. injection Hs as <-. by exists l, (u64 (n + zlen l)), err.
Qed.

Lemma writes_len_items k f count : forall p step,
  (forall q, writes_len k (f q)) -> writes_len (k * Z.of_nat count) (for_items count p step f).
Proof.
  induction count as [|count IH]; intros p step Hf out max n err s' H.
  - injection H as <-. exists [], n, err. rewrite app_nil_r. split; [done|].
    change (zlen (@nil Z)) with 0. lia.
  - cbn [for_items] in H. apply bind_inv in H as ([] & s1 & H1 & H2).
    apply Hf in H1 as (a & n1 & e1 & -> & Ha).
    apply IH in H2 as (b & n2 & e2 & -> & Hb); [|done].
    exists (a ++ b), n2, e2. rewrite app_assoc, zlen_app. split; [done|lia].
Qed.

Lemma writer_items f count : forall p step,
  (forall q, writer (f q)) -> writer (for_items count p step f).
Proof.
  induction count as [|count IH]; intros p step Hf; cbn [for_items]; auto with writers.
Qed.

(** The body of a packed array: [size] bytes on a sizing stream, the items on
    any other. *)
Definition packed_body (size : Z) (items : M ostream unit) : M ostream unit :=
  let! s := getm in if negb (has_callback s) then pb_write src_null size else items.

Lemma emits_packed_body items bs :
  emits items bs -> emits (packed_body (zlen bs) items) bs.
Proof.
  intros [_ Hf Hr].
  split; intros out max n err Hn; unfold packed_body, bind at 1, getm.
  - exists err. apply pb_write_counts.
  - by apply Hf.
  - by apply Hr.
Qed.

Lemma writer_packed_body items size :
  writer items ->
  (forall out max n err bs n' err',
    items (buf_stream out max n err) = Ret tt (buf_stream (out ++ bs) max n' err') ->
    zlen bs < 2 ^ 63 -> emits items bs -> size = zlen bs) ->
  writer (packed_body size items).
Proof.
  intros Hw Hsize out max n err s' Hn H. unfold packed_body, bind at 1, getm in H.
  cbn [has_callback buf_stream o_callback negb] in H.
  destruct (Hw _ _ _ _ _ Hn H) as (bs & n' & e' & -> & Hn' & Hbs).
  exists bs, n', e'. split; [done|]. split; [done|]. intros Hm Hlen.
  destruct (Hbs Hm Hlen) as (Hn1 & Hle & He). split; [done|]. split; [done|].
  rewrite (Hsize _ _ _ _ _ _ _ H); [by apply emits_packed_body|lia|done].
Qed.

(** ** Fields *)

Section Fields.
Context (e : env) (m : mem) (rec : list pb_field -> Z -> M ostream unit) (depth : nat).
Hypothesis Henv : env_ok e.
Hypothesis Hmem : mem_ok m.
Hypothesis Hrec : forall fields src, Forall field_ok fields -> writer (rec fields src).

Lemma writer_enc_varints field src :
  writer (pb_enc_bool m field src) /\ writer (pb_enc_varint m field src) /\
  writer (pb_enc_uvarint m field src) /\ writer (pb_enc_svarint m field src) /\
  writer (pb_enc_fixed32 m field src) /\ writer (pb_enc_fixed64 m field src).
Proof.
  split_and!.
  2-4: unfold pb_enc_varint, pb_enc_uvarint, pb_enc_svarint;
       destruct (is_int_size _); [|apply writer_error].
  all: apply writer_stateless; [|auto with writers].
  all: unfold safe_read_bool; auto with stateless.
Qed.

Lemma writer_enc_bytes field src : writer (pb_enc_bytes m field src).
Proof.
  unfold pb_enc_bytes. destruct (src =? NULL); [by apply writer_string|].
  apply writer_of_opt. intros v Hv. apply load_range in Hv; [|done].
  destruct (_ && _); [apply writer_error|apply writer_string; lia].
Qed.

Lemma writer_enc_string field src : writer (pb_enc_string m field src).
Proof.
  unfold pb_enc_string. destruct (src =? NULL); [by apply writer_string|].
  apply writer_stateless_dep; [apply string_size_stateless|].
  intros v s Hs. apply writer_string. by apply string_size_nonneg in Hs.
Qed.

Lemma writer_enc_submessage field src : writer (pb_enc_submessage e rec field src).
Proof.
  unfold pb_enc_submessage. destruct (ptr field) as [|i|l]; [apply writer_error|..].
  - apply writer_of_opt. intros fs [= <-]. apply writer_submessage, Hrec, Henv.
  - apply writer_ubm.
Qed.

Lemma writer_encoder ltype f field src :
  field_ok field -> PB_ENCODERS e m rec ltype = Some f -> writer (f field src).
Proof.
  intros Hok H. pose proof (writer_enc_varints field src) as (H0 & H1 & H2 & H3 & H4 & H5).
  unfold PB_ENCODERS in H. repeat (case_match; try done); injection H as <-.
  all: auto using writer_enc_bytes, writer_enc_string, writer_enc_submessage.
  apply writer_string. apply Hok.
Qed.

Definition call_encoder (ltype : Z) (f : pb_field) (d : Z) : M ostream unit :=
  let! func := of_opt (PB_ENCODERS e m rec ltype) in func f d.

Lemma writer_call ltype field d : field_ok field -> writer (call_encoder ltype field d).
Proof.
  intros Hok. apply writer_of_opt. intros f Hf. by eapply writer_encoder.
Qed.

Lemma writes_len_of_opt {A} k (o : option A) (g : A -> M ostream unit) :
  (forall a, writes_len k (g a)) -> writes_len k (let! a := of_opt o in g a).
Proof.
  intros Hg out max n err s' H. destruct o as [a|]; [|done]. by apply (Hg a) in H.
Qed.

Lemma fixed32_call field d : writes_len 4 (call_encoder PB_LTYPE_FIXED32 field d).
Proof.
  apply (writes_len_of_opt 4 (load m d 4) pb_encode_fixed32). intros v.
  by apply writes_len_local.
Qed.

Lemma fixed64_call field d : writes_len 8 (call_encoder PB_LTYPE_FIXED64 field d).
Proof.
  apply (writes_len_of_opt 8 (load m d 8) pb_encode_fixed64). intros v.
  by apply writes_len_local.
Qed.

Lemma items_len_eq k f count p step bs out max n err n' err' :
  0 <= count ->
  for_items (Z.to_nat count) p step f (buf_stream out max n err) =
    Ret tt (buf_stream (out ++ bs) max n' err') ->
  (forall q, writes_len k (f q)) -> zlen bs = k * count.
Proof.
  intros Hc H Hf. apply (writes_len_items k) in H as (bs' & n1 & e1 & E & Hl); [|done].
  injection E as E _ _. apply app_inv_head in E. rewrite E, Hl. f_equal. lia.
Qed.

(** The size of a packed array is the number of bytes of its items. *)
Lemma packed_size_ok field data count s size s' :
  field_ok field -> 0 <= count < 2 ^ 32 ->
  let ltype := PB_LTYPE (ftype field) in
  let items := for_items (Z.to_nat count) data (data_size field)
                 (call_encoder ltype field) in
  packed_size field data count (call_encoder ltype) s = Ret size s' ->
  forall out max n err bs n' err',
  items (buf_stream out max n err) = Ret tt (buf_stream (out ++ bs) max n' err') ->
  zlen bs < 2 ^ 63 -> emits items bs -> size = zlen bs.
Proof.
  intros Hok Hc ltype items Hs out max n err bs n' err' Hrun Hlen He.
  unfold packed_size in Hs. fold ltype in Hs.
  change (2 ^ 32) with 4294967296 in Hc.
  destruct (Z.eqb_spec ltype PB_LTYPE_FIXED32) as [E4|_];
    [|destruct (Z.eqb_spec ltype PB_LTYPE_FIXED64) as [E8|_]].
  - injection Hs as <- <-. rewrite (items_len_eq 4 _ _ _ _ _ _ _ _ _ _ _ (proj1 Hc) Hrun).
    + apply u64_fits. change (2 ^ 63) with 9223372036854775808. lia.
    + intros q. rewrite E4. apply fixed32_call.
  - injection Hs as <- <-. rewrite (items_len_eq 8 _ _ _ _ _ _ _ _ _ _ _ (proj1 Hc) Hrun).
    + apply u64_fits. change (2 ^ 63) with 9223372036854775808. lia.
    + intros q. rewrite E8. apply fixed64_call.
  - fold items in Hs. destruct (emits_sizing _ _ He Hlen) as [e1 H1].
    rewrite H1 in Hs. by injection Hs as <- <-.
Qed.

Lemma packed_size_stateless field data count func :
  stateless (packed_size field data count func).
Proof.
  unfold packed_size. destruct (_ =? PB_LTYPE_FIXED32); [apply stateless_ret|].
  destruct (_ =? PB_LTYPE_FIXED64); [apply stateless_ret|].
  destruct (for_items _ _ _ _ _) as [[] s1|s1| |]; [by exists (Ret (o_bytes_written s1) tt)
    |by exists (Fail tt)|by exists Ub|by exists NoFuel].
Qed.

Lemma writer_array field data count :
  field_ok field -> 0 <= count < 2 ^ 32 ->
  writer (encode_array m field data count (call_encoder (PB_LTYPE (ftype field)))).
Proof.
  intros Hok Hc. unfold encode_array. destruct (count =? 0); [apply writer_ret|].
  destruct (_ && _); [apply writer_error|].
  destruct (_ <=? _).
  - apply writer_seq; [apply writer_tag|].
    apply writer_stateless_dep; [apply packed_size_stateless|]. intros size s Hs.
    apply writer_seq; [apply writer_varint|].
    apply (writer_packed_body (for_items _ _ _ _) size).
    + apply writer_items. intros. by apply writer_call.
    + by eapply packed_size_ok.
  - apply writer_items. intros q. apply writer_seq; [apply writer_tag_for_field|].
    destruct (_ && _); [apply writer_of_opt; intros|]; by apply writer_call.
Qed.

Lemma check_fields_stateless (check : pb_field -> Z -> M ostream bool) n :
  (forall f d, stateless (check f d)) -> forall iter, stateless (check_fields check n iter).
Proof.
  intros Hc. induction n as [|n IH]; intros iter; cbn [check_fields]; auto with stateless.
Qed.

Lemma all_zero_stateless n : forall a, stateless (S := ostream) (all_zero_bytes m a n).
Proof. induction n; intros; cbn [all_zero_bytes]; auto with stateless. Qed.

Lemma check_proto3_stateless n : forall field data,
  stateless (S := ostream) (pb_check_proto3_default_value n e m field data).
Proof.
  induction n as [|n IH]; intros; cbn [pb_check_proto3_default_value];
    [apply stateless_nofuelm|].
  unfold check_proto3_step. repeat (destruct (_ && _) || destruct (_ =? _));
    unfold safe_read_bool; auto 6 with stateless.
  all: unfold check_singular; repeat (destruct (_ && _));
    auto using all_zero_stateless with stateless.
  apply stateless_bind; [apply stateless_of_opt|]. intros fs.
  destruct (pb_field_iter_begin fs data) as [[|] iter];
    auto using check_fields_stateless, stateless_ret.
Qed.

(** The last part of [encode_basic_field], by the rule of the field. *)
Lemma writer_by_htype field data (ps : bool + Z) :
  field_ok field ->
  writer (let type := ftype field in
    let call := call_encoder (PB_LTYPE type) field in
    if PB_HTYPE type =? PB_HTYPE_REQUIRED then
      if data =? NULL then ORETURN_ERROR "missing required field"
      else pb_encode_tag_for_field field ;;! call data
    else if PB_HTYPE type =? PB_HTYPE_OPTIONAL then
      let! has := read_has m ps in
      if has then pb_encode_tag_for_field field ;;! call data else ret tt
    else if PB_HTYPE type =? PB_HTYPE_REPEATED then
      let! count := (if negb (size_offset field =? 0) then read_count m ps
                     else ret (array_size field)) in
      encode_array m field data count (call_encoder (PB_LTYPE type))
    else if PB_HTYPE type =? PB_HTYPE_ONEOF then
      let! which := read_count m ps in
      if which =? tag field then pb_encode_tag_for_field field ;;! call data
      else ret tt
    else ORETURN_ERROR "invalid field type").
Proof.
  intros Hok. cbv zeta.
  pose proof (writer_seq _ _ (writer_tag_for_field field)
    (writer_call (PB_LTYPE (ftype field)) field data Hok)) as Hcall.
  assert (Hps : stateless (read_count m ps))
    by (destruct ps; [apply stateless_ubm|apply stateless_of_opt]).
  destruct (_ =? PB_HTYPE_REQUIRED); [destruct (_ =? _); [apply writer_error|done]|].
  destruct (_ =? PB_HTYPE_OPTIONAL).
  { apply writer_stateless; [|intros [|]; [done|apply writer_ret]].
    destruct ps; unfold read_has, safe_read_bool; auto with stateless. }
  destruct (_ =? PB_HTYPE_REPEATED).
  { destruct (negb _); [|].
    - destruct ps as [b|a]; [apply (writer_ext _ ubm); [done|apply writer_ubm]|].
      apply writer_of_opt. intros v Hv. apply writer_array; [done|].
      by apply load_range in Hv.
    - apply (writer_ext _ _ (fun s => bind_ret _ _ s)). apply writer_array; [done|apply Hok]. }
  destruct (_ =? PB_HTYPE_ONEOF); [|apply writer_error].
  apply writer_stateless; [done|]. intros v. destruct (v =? _); [done|apply writer_ret].
Qed.

Lemma writer_basic_field field data :
  field_ok field -> writer (encode_basic_field e m rec depth field data).
Proof.
  intros Hok. unfold encode_basic_field. apply writer_seq.
  { destruct (_ <=? _); [apply writer_ubm|apply writer_ret]. }
  apply writer_stateless.
  { destruct (negb _); [apply stateless_ret|]. destruct (_ =? _); [|apply stateless_ret].
    auto using check_proto3_stateless with stateless. }
  intros ps. apply writer_stateless; [destruct (_ =? _); auto with stateless|].
  intros [data' ps']. by apply writer_by_htype.
Qed.

Lemma writer_tryb (f : M ostream unit) msg :
  writer f ->
  writer (let! r := tryb f in match r with None => ORETURN_ERROR msg | Some _ => ret tt end).
Proof.
  intros Hf out max n err s' Hn H. unfold bind, tryb in H.
  destruct (f (buf_stream out max n err)) as [[] s1|s1| |] eqn:E; try done.
  injection H as <-. destruct (Hf _ _ _ _ _ Hn E) as (bs & n' & e' & -> & Hn' & Hbs).
  exists bs, n', e'. split; [done|]. split; [done|]. intros Hm Hlen.
  destruct (Hbs Hm Hlen) as (? & ? & [Hc Hfl Hr]). split; [done|]. split; [done|].
  split; intros o2 m2 n2 e2 H2; unfold bind, tryb.
  - destruct (Hc o2 m2 n2 e2 H2) as [e3 ->]. by exists e3.
  - intros H3 H4. destruct (Hfl o2 m2 n2 e2 H2 H3 H4) as [e3 ->]. by exists e3.
  - intros H3 H4. destruct (Hr o2 m2 n2 e2 H2 H3 H4) as (w & n3 & e3 & -> & ?).
    by exists w, n3, (err_or e3 msg).
Qed.

Lemma writer_callback_field field data : writer (encode_callback_field e m field data).
Proof.
  apply writer_of_opt. intros f _. destruct (negb _); [|apply writer_ret].
  apply writer_of_opt. intros cb Hcb. apply writer_tryb. by eapply encode_cb_ok.
Qed.

Lemma writer_field field data :
  field_ok field -> writer (encode_field e m rec depth field data).
Proof.
  intros Hok. unfold encode_field. destruct (_ || _); [by apply writer_basic_field|].
  destruct (_ =? _); [apply writer_callback_field|apply writer_error].
Qed.

Lemma writer_extensions n : forall x, writer (encode_extensions e m rec depth n x).
Proof.
  induction n as [|n IH]; intros x; cbn [encode_extensions]; [apply writer_nofuelm|].
  destruct (x =? NULL); [apply writer_ret|].
  apply writer_of_opt; intros t _. apply writer_of_opt; intros et Het.
  apply writer_seq; [|by apply writer_of_opt].
  destruct (et_encode et) as [f|] eqn:Ef; [by eapply encode_ext_ok|].
  pose proof (ext_arg_ok _ Henv _ _ Het). unfold default_extension_encoder.
  destruct (_ =? _); [by apply writer_field|].
  apply writer_of_opt; intros d _. by apply writer_field.
Qed.

Lemma writer_fields fields n : Forall field_ok fields -> forall iter,
  it_start iter = fields -> writer (encode_fields e m rec depth n iter).
Proof.
  intros Hok. assert (Hat : forall i, field_ok (field_at fields i)).
  { intros i. unfold field_at. rewrite <- nth_default_eq. unfold nth_default.
    destruct (nth_error fields i) eqn:E; [|by split].
    apply nth_error_In in E. rewrite Forall_forall in Hok. apply Hok. by apply list_elem_of_In. }
  induction n as [|n IH]; intros iter Hit; cbn [encode_fields]; [apply writer_nofuelm|].
  apply writer_seq.
  - unfold pos. rewrite Hit. destruct (_ =? _); [|by apply writer_field].
    apply writer_of_opt; intros x _. apply writer_extensions.
  - destruct (pb_field_iter_next iter) as [[|] iter'] eqn:En; [|apply writer_ret].
    apply IH. unfold pb_field_iter_next in En.
    repeat case_match; simplify_eq; cbn [it_start]; done.
Qed.

Lemma writer_message fields src :
  Forall field_ok fields -> writer (encode_message e m rec depth fields src).
Proof.
  intros Hok. unfold encode_message.
  destruct (pb_field_iter_begin fields src) as [[|] iter] eqn:E; [|apply writer_ret].
  apply (writer_fields fields); [done|].
  unfold pb_field_iter_begin in E. repeat case_match; simplify_eq; done.
Qed.
End Fields.

Lemma pb_encode_writer e m : env_ok e -> mem_ok m -> forall fuel fields src,
  Forall field_ok fields -> writer (pb_encode fuel e m fields src).
Proof.
  intros He Hm. induction fuel as [|fuel IH]; intros fields src Hok; cbn [pb_encode];
    [apply writer_nofuelm|by apply writer_message].
Qed.
