(* ===== verification/PbIter.v ===== *)
(** * The field iterator: it visits every field of a message at the address the
      struct layout gives it, and its search finds a field or terminates *)
From S2P Require Import Prelude Mem PbIstream PbOstream PbField PbEncode PbLayout.

(** The bytes a field takes in its struct. *)
Definition field_span (f : pb_field) : Z :=
  if (PB_ATYPE (ftype f) =? PB_ATYPE_STATIC) && (PB_HTYPE (ftype f) =? PB_HTYPE_REPEATED)
  then data_size f * array_size f
  else if PB_ATYPE (ftype f) =? PB_ATYPE_POINTER then 8 else data_size f.

Definition is_required (f : pb_field) : bool := PB_HTYPE (ftype f) =? PB_HTYPE_REQUIRED.
(** Another member of the same union. *)
Definition same_union (f g : pb_field) : bool :=
  (PB_HTYPE (ftype f) =? PB_HTYPE_ONEOF) && (PB_HTYPE (ftype g) =? PB_HTYPE_ONEOF) &&
  (data_offset g =? PB_SIZE_MAX).

(** Field [q] at offset [q.2] comes after field [p] at offset [p.2]. *)
Definition follows (p q : pb_field * Z) : Prop :=
  if same_union p.1 q.1 then q.2 = p.2 /\ size_offset q.1 = size_offset p.1
  else q.2 = p.2 + field_span p.1 + data_offset q.1.

Record laid_out (l : list (pb_field * Z)) : Prop := {
  tags_nonzero : Forall (fun p => tag p.1 <> 0) l;
  sizes_ok : Forall (fun p => 0 <= data_size p.1 < 2 ^ 32 /\ 0 <= array_size p.1 < 2 ^ 32) l;
  first_at : forall p, l !! 0%nat = Some p -> data_offset p.1 = p.2;
  next_at : forall i p q, l !! i = Some p -> l !! S i = Some q -> follows p q }.

(** The iterator after [k] calls of [pb_field_iter_next]. *)
Fixpoint iter_at (fields : list pb_field) (dest : Z) (k : nat) : pb_field_iter :=
  match k with
  | O => (pb_field_iter_begin fields dest).2
  | S j => (pb_field_iter_next (iter_at fields dest j)).2
  end.

Definition required_before (k : nat) (fields : list pb_field) : nat :=
  length (filter (fun f => is_required f = true) (take k fields)).

Definition next_pos (n i : nat) : nat := if Nat.ltb (S i) n then S i else O.

Definition member_offsets (st : cstruct) (ms : list string) : list Z :=
  map (offsetof st) ms.
(** The members each message of cct.nanopb.c describes, in order. *)
Definition cct_layout (i : nat) : list Z :=
  nth i
   [member_offsets LogEvent ["event_time_ms"; "source_extension"; "event_code";
      "timezone_offset_seconds"; "event_uptime_ms"; "network_connection_info"];
    member_offsets NetworkConnectionInfo ["network_type"; "mobile_subtype"];
    member_offsets MacClientInfo ["os_major_version"; "os_full_version";
      "application_build"; "application_bundle_id"];
    member_offsets IosClientInfo ["os_major_version"; "os_full_version";
      "application_build"; "country"; "model"; "language_code"; "application_bundle_id"];
    member_offsets ClientInfo ["client_type"; "ios_client_info"; "mac_client_info"];
    member_offsets BatchedLogRequest ["log_request"];
    member_offsets LogRequest ["client_info"; "log_source"; "log_event";
      "request_time_ms"; "request_uptime_ms"; "qos_tier"];
    member_offsets QosTierConfiguration ["qos_tier"; "log_source"];
    member_offsets QosTiersOverride ["qos_tier_configuration"; "qos_tier_fingerprint"];
    member_offsets LogResponse ["next_request_wait_millis"; "qos_tier"]] [].

(** A decision procedure for [laid_out], for concrete messages. *)
Definition followsb (p q : pb_field * Z) : bool :=
  if same_union p.1 q.1 then (q.2 =? p.2) && (size_offset q.1 =? size_offset p.1)
  else q.2 =? p.2 + field_span p.1 + data_offset q.1.
Fixpoint chainb (l : list (pb_field * Z)) : bool :=
  match l with
  | p :: ((q :: _) as r) => followsb p q && chainb r
  | _ => true
  end.
Definition laid_outb (l : list (pb_field * Z)) : bool :=
  forallb (fun p => negb (tag p.1 =? 0) && (0 <=? data_size p.1) && (data_size p.1 <? 2 ^ 32)
                    && (0 <=? array_size p.1) && (array_size p.1 <? 2 ^ 32)) l &&
  match l with p :: _ => data_offset p.1 =? p.2 | [] => true end && chainb l.

(** ** Lemmas *)

Lemma field_at_lookup fields i f : fields !! i = Some f -> field_at fields i = f.
Proof. intros H. unfold field_at. by apply nth_lookup_Some. Qed.

Lemma field_at_end fields i : (length fields <= i)%nat -> field_at fields i = PB_LAST_FIELD.
Proof. intros H. unfold field_at. by apply nth_overflow. Qed.

(** One step inside the array, and the step past its last field. *)
Lemma iter_next_inside it f g :
  it_start it !! it_pos it = Some f -> it_start it !! S (it_pos it) = Some g ->
  tag f <> 0 -> tag g <> 0 ->
  pb_field_iter_next it =
  if same_union f g
  then (true, PbIter (it_start it) (S (it_pos it)) (required_field_index it)
                (dest_struct it) (pData it) (pSize it))
  else let pd := pData it + (if (PB_ATYPE (ftype f) =? PB_ATYPE_STATIC) &&
           (PB_HTYPE (ftype f) =? PB_HTYPE_REPEATED) then u64 (field_span f)
           else field_span f) + data_offset g in
       (true, PbIter (it_start it) (S (it_pos it))
                (if is_required f then u32 (required_field_index it + 1)
                 else required_field_index it) (dest_struct it) pd (pd + size_offset g)).
Proof.
  intros Hf Hg Hf0 Hg0. unfold pb_field_iter_next, pos. cbn [it_start it_pos].
  rewrite (field_at_lookup _ _ _ Hf), (field_at_lookup _ _ _ Hg).
  bool_false (tag f =? 0). bool_false (tag g =? 0). unfold same_union.
  destruct (_ && _ && _); [done|]. unfold field_span, is_required.
  by destruct (_ && _); [|destruct (_ =? PB_ATYPE_POINTER)].
Qed.

Lemma iter_next_last it f :
  it_start it !! it_pos it = Some f -> length (it_start it) = S (it_pos it) -> tag f <> 0 ->
  pb_field_iter_next it = (false, (pb_field_iter_begin (it_start it) (dest_struct it)).2).
Proof.
  intros Hf Hl Hf0. unfold pb_field_iter_next, pos. cbn [it_start it_pos].
  rewrite (field_at_lookup _ _ _ Hf), field_at_end by lia. by bool_false (tag f =? 0).
Qed.

Lemma iter_begin_pos fields dest :
  it_start (pb_field_iter_begin fields dest).2 = fields /\
  it_pos (pb_field_iter_begin fields dest).2 = 0%nat /\
  dest_struct (pb_field_iter_begin fields dest).2 = dest /\
  required_field_index (pb_field_iter_begin fields dest).2 = 0.
Proof. unfold pb_field_iter_begin. by destruct (dest =? NULL). Qed.

Lemma iter_next_pos it :
  Forall (fun f => tag f <> 0) (it_start it) -> (it_pos it < length (it_start it))%nat ->
  it_start (pb_field_iter_next it).2 = it_start it /\
  it_pos (pb_field_iter_next it).2 = next_pos (length (it_start it)) (it_pos it).
Proof.
  intros Ht Hp. destruct (lookup_lt_is_Some_2 _ _ Hp) as [f Hf].
  pose proof (Forall_lookup_1 _ _ _ _ Ht Hf) as Hf0. unfold next_pos.
  destruct (Nat.ltb_spec (S (it_pos it)) (length (it_start it))) as [H|H].
  - destruct (lookup_lt_is_Some_2 _ _ H) as [g Hg].
    rewrite (iter_next_inside _ f g) by (try done; exact (Forall_lookup_1 _ _ _ _ Ht Hg)).
    by destruct (same_union f g).
  - rewrite (iter_next_last _ f) by (done || lia).
    by pose proof (iter_begin_pos (it_start it) (dest_struct it)) as (? & ? & _).
Qed.

Lemma next_pos_mod n i : (i < n)%nat -> next_pos n i = (S i mod n)%nat.
Proof.
  intros H. unfold next_pos. destruct (Nat.ltb_spec (S i) n).
  - by rewrite Nat.mod_small.
  - replace (S i) with n by lia. by rewrite Nat.Div0.mod_same.
Qed.

(** The search loop, [k] fields after it started. *)
Lemma find_loop_spec found start n fields :
  length fields = n -> Forall (fun f => tag f <> 0) fields -> (start < n)%nat ->
  forall fuel k it, (k < n)%nat -> (n <= k + fuel)%nat ->
  it_start it = fields -> it_pos it = ((start + k) mod n)%nat ->
  exists b it', iter_find_loop fuel it start found = Some (b, it') /\
    it_start it' = fields /\ (it_pos it' < n)%nat /\
    if b then found (pos it') = true
    else forall j, (k <= j < n)%nat -> found (field_at fields ((start + j) mod n)) = false.
Proof.
  intros Hn Ht Hs. induction fuel as [|fuel IH]; intros k it Hk Hf Hit Hp; [lia|].
  cbn [iter_find_loop]. assert (Hpn : (it_pos it < n)%nat) by (rewrite Hp; apply Nat.mod_upper_bound; lia).
  destruct (found (pos it)) eqn:Ef; [by exists true, it|].
  destruct (iter_next_pos it) as [Hi1 Hi2]; [by rewrite Hit|by rewrite Hit, Hn|].
  rewrite Hit, Hn, next_pos_mod, Hp in Hi2 by done.
  assert (Hstep : (S ((start + k) mod n) mod n = (start + S k) mod n)%nat).
  { replace (start + S k)%nat with ((start + k) + 1)%nat by lia.
    rewrite <- (Nat.Div0.add_mod_idemp_l (start + k) 1 n). by rewrite Nat.add_1_r. }
  rewrite Hstep in Hi2. rewrite Hit in Hi1.
  assert (Hnow : found (field_at fields ((start + k) mod n)) = false)
    by (unfold pos in Ef; by rewrite Hit, Hp in Ef).
  destruct (Nat.eqb_spec (it_pos (pb_field_iter_next it).2) start) as [E|E].
  - exists false, (pb_field_iter_next it).2. split; [done|]. split; [done|]. split; [lia|].
    assert (S k = n).
    { rewrite Hi2 in E. destruct (Nat.lt_ge_cases (start + S k) n).
      - rewrite Nat.mod_small in E; lia.
      - destruct (Nat.eq_dec (S k) n); [done|].
        rewrite (Nat.Div0.mod_eq (start + S k) n) in E.
        assert ((start + S k) / n = 1)%nat by (symmetry; apply (Nat.div_unique _ _ 1 (start + S k - n)); lia).
        lia. }
    intros j Hj. by replace j with k by lia.
  - assert (S k < n)%nat.
    { destruct (Nat.eq_dec (S k) n) as [E2|]; [|lia]. rewrite E2 in Hi2.
      replace (start + n)%nat with (start + 1 * n)%nat in Hi2 by lia.
      rewrite Nat.Div0.mod_add, Nat.mod_small in Hi2 by lia. done. }
    destruct (IH (S k) (pb_field_iter_next it).2) as (b & it' & -> & H1 & H2 & H3); try done; [lia|].
    exists b, it'. split; [done|]. split; [done|]. split; [done|].
    destruct b; [done|]. intros j Hj. destruct (Nat.eq_dec j k) as [->|]; [done|apply H3; lia].
Qed.

Section Visits.
Context (l : list (pb_field * Z)) (dest : Z).
Hypothesis Hl : laid_out l.
Hypothesis Hlen : zlen l < 2 ^ 32.
Hypothesis Hdest : dest <> NULL.
Let fields := map fst l.

Lemma fields_lookup i p : l !! i = Some p -> fields !! i = Some p.1.
Proof. intros H. unfold fields. by rewrite list_lookup_fmap, H. Qed.

Lemma fields_tags : Forall (fun f => tag f <> 0) fields.
Proof. apply Forall_fmap. exact (tags_nonzero _ Hl). Qed.

Lemma span_u64 p i : l !! i = Some p -> 
  (if (PB_ATYPE (ftype p.1) =? PB_ATYPE_STATIC) && (PB_HTYPE (ftype p.1) =? PB_HTYPE_REPEATED)
   then u64 (field_span p.1) else field_span p.1) = field_span p.1.
Proof.
  intros H. unfold field_span. destruct (_ && _); [|done].
  pose proof (Forall_lookup_1 _ _ _ _ (sizes_ok _ Hl) H) as [Hd Ha].
  apply wrap_small. change (2 ^ 32) with 4294967296 in *.
  change (2 ^ 64) with 18446744073709551616.
  assert (data_size p.1 * array_size p.1 <= 4294967295 * 4294967295)
    by (apply Z.mul_le_mono_nonneg; lia).
  split; [apply Z.mul_nonneg_nonneg; lia|lia].
Qed.

Lemma required_step k f : fields !! k = Some f ->
  required_before (S k) fields =
  ((if is_required f then 1 else 0) + required_before k fields)%nat.
Proof.
  intros H. unfold required_before. rewrite (take_S_r _ _ _ H), filter_app, length_app.
  destruct (is_required f) eqn:E.
  - rewrite filter_cons_True by done. cbn [length filter list_filter]. lia.
  - rewrite filter_cons_False by (rewrite E; done). cbn [length filter list_filter]. lia.
Qed.

Lemma required_le k : (required_before k fields <= k)%nat.
Proof.
  unfold required_before. etrans; [apply length_filter|]. rewrite length_take. lia.
Qed.

Lemma iter_at_spec k : forall p, l !! k = Some p ->
  iter_at fields dest k =
  PbIter fields k (Z.of_nat (required_before k fields)) dest
    (dest + p.2) (dest + p.2 + size_offset p.1).
Proof.
  induction k as [|k IH]; intros p Hp.
  - cbn [iter_at]. unfold pb_field_iter_begin. bool_false (dest =? NULL).
    rewrite (field_at_lookup _ _ _ (fields_lookup _ _ Hp)), (first_at _ Hl _ Hp). done.
  - assert (Hk : (k < length l)%nat) by (apply lookup_lt_Some in Hp; lia).
    destruct (lookup_lt_is_Some_2 _ _ Hk) as [q Hq]. cbn [iter_at]. rewrite (IH _ Hq).
    pose proof (fields_lookup _ _ Hp) as Hg. pose proof (fields_lookup _ _ Hq) as Hf.
    rewrite (iter_next_inside _ q.1 p.1) by
      (try done; by eapply (Forall_lookup_1 _ _ _ _ fields_tags)).
    cbn [it_start it_pos pData pSize required_field_index dest_struct].
    pose proof (next_at _ Hl _ _ _ Hq Hp) as Hn. unfold follows in Hn.
    rewrite (span_u64 _ _ Hq), (required_step _ _ Hf).
    destruct (same_union q.1 p.1) eqn:Eu.
    + destruct Hn as [-> ->]. replace (is_required q.1) with false; [done|].
      unfold same_union in Eu. unfold is_required.
      destruct (Z.eqb_spec (PB_HTYPE (ftype q.1)) PB_HTYPE_ONEOF) as [->|]; done.
    + cbn [snd]. rewrite Hn. f_equal; [|lia..].
      pose proof (required_le k). unfold zlen in Hlen.
      destruct (is_required q.1); [|done]. rewrite wrap_small; lia.
Qed.
End Visits.

Lemma combine_fst {A B} (l : list A) : forall k : list B,
  length l = length k -> map fst (combine l k) = l.
Proof.
  induction l as [|a l IH]; intros [|b k] H; try done. cbn [combine map fst].
  f_equal. apply IH. by injection H.
Qed.

Lemma combine_snd {A B} (l : list A) : forall k : list B,
  length l = length k -> map snd (combine l k) = k.
Proof.
  induction l as [|a l IH]; intros [|b k] H; try done. cbn [combine map snd].
  f_equal. apply IH. by injection H.
Qed.

(** [laid_outb] decides [laid_out] one way. *)
Lemma chainb_follows l : chainb l = true -> forall i p q,
  l !! i = Some p -> l !! S i = Some q -> follows p q.
Proof.
  induction l as [|a [|b l] IH]; [done|done|]. cbn [chainb].
  intros [Hab Hr]%andb_prop [|i] p q Hp Hq; [|by eapply (IH Hr i)].
  cbn in Hp, Hq. injection Hp as <-. injection Hq as <-.
  unfold followsb in Hab. unfold follows. destruct (same_union _ _).
  - apply andb_prop in Hab as [?%Z.eqb_eq ?%Z.eqb_eq]. done.
  - by apply Z.eqb_eq in Hab.
Qed.

Lemma laid_outb_sound l : laid_outb l = true -> laid_out l.
Proof.
  unfold laid_outb. intros [[Ha Hf]%andb_prop Hc]%andb_prop.
  rewrite forallb_forall in Ha.
  assert (Hall : Forall (fun p => tag p.1 <> 0 /\ (0 <= data_size p.1 < 2 ^ 32 /\
    0 <= array_size p.1 < 2 ^ 32)) l).
  { apply Forall_forall. intros p Hp%list_elem_of_In. apply Ha in Hp.
    repeat (apply andb_prop in Hp as [Hp ?]).
    apply negb_true_iff in Hp. lia. }
  split; [| |by destruct l as [|a r]; intros p [= <-]; apply Z.eqb_eq|by apply chainb_follows].
  all: eapply Forall_impl; [exact Hall|by intros ? [??]].
Qed.

(** ** Theorems *)

(** C37: the field iterator walks a message by the layout of its struct.  When
    the descriptors of [l] describe a struct whose fields lie at the offsets
    paired with them, the iterator that made [k] steps stands at field [k] with
    [pData] the address of that field, [pSize] the address of its size, count or
    has-flag, and [required_field_index] the number of required fields before it. *)
Theorem field_iter_visits_layout l dest k p :
  laid_out l -> zlen l < 2 ^ 32 -> dest <> NULL -> l !! k = Some p ->
  iter_at (map fst l) dest k =
  PbIter (map fst l) k (Z.of_nat (required_before k (map fst l))) dest
    (dest + p.2) (dest + p.2 + size_offset p.1).
Proof. intros. by apply iter_at_spec. Qed.

Definition log_request_layout : list (pb_field * Z) :=
  combine gdt_cct_LogRequest_fields (cct_layout 6).

Lemma field_iter_visits_layout_witness :
  exists p, log_request_layout !! 2%nat = Some p /\
  iter_at (map fst log_request_layout) 4096 2 =
  PbIter (map fst log_request_layout) 2 0 4096 (4096 + 136) (4096 + 136 - 8).
Proof.
  destruct (log_request_layout !! 2%nat) as [p|] eqn:E; [|exact (False_rect _ ltac:(vm_compute in E; discriminate E))].
  exists p. split; [reflexivity|]. 
  rewrite (field_iter_visits_layout log_request_layout 4096 2 p).
  - vm_compute in E. injection E as <-. reflexivity.
  - apply laid_outb_sound. vm_compute. reflexivity.
  - vm_compute. reflexivity.
  - discriminate.
  - exact E.
Defined.

(** C38: every descriptor array of cct.nanopb.c agrees with its struct: walking
    message [i] from [dest], the iterator's [pData] at the [k]-th field is the
    address of the member the descriptor names. *)
Theorem cct_iterator_addresses i dest k :
  (i < 10)%nat -> dest <> NULL -> (k < length (cct_messages i))%nat ->
  exists off, cct_layout i !! k = Some off /\
    pData (iter_at (cct_messages i) dest k) = dest + off.
Proof.
  intros Hi Hd Hk.
  assert (Hok : forall j, (j < 10)%nat ->
    laid_outb (combine (cct_messages j) (cct_layout j)) = true /\
    length (cct_messages j) = length (cct_layout j) /\
    (length (cct_messages j) < 100)%nat).
  { intros j Hj. do 10 (destruct j as [|j]; [vm_compute; split; [done|split; [done|lia]]|]). lia. }
  destruct (Hok i Hi) as (Hlay & Hlen & Hsmall).
  set (l := combine (cct_messages i) (cct_layout i)) in *.
  assert (Hfst : map fst l = cct_messages i) by (apply combine_fst; lia).
  assert (Hll : length l = length (cct_messages i)) by (unfold l; rewrite length_combine; lia).
  destruct (lookup_lt_is_Some_2 l k ltac:(lia)) as [p Hp].
  exists p.2. split.
  - rewrite <- (combine_snd (cct_messages i) (cct_layout i)) by lia.
    fold l. by rewrite list_lookup_fmap, Hp.
  - rewrite <- Hfst, (iter_at_spec l dest (laid_outb_sound _ Hlay)) with (p := p); try done.
    unfold zlen. rewrite Hll. change (2 ^ 32) with 4294967296. lia.
Qed.

Lemma cct_iterator_addresses_witness :
  exists off, cct_layout 0 !! 5%nat = Some off /\
    pData (iter_at (cct_messages 0) 64 5) = 64 + off.
Proof. apply (cct_iterator_addresses 0 64 5); [lia|discriminate|cbn; lia]. Defined.

(** [pb_field_iter_find] terminates on every message (the model's
    recursion bound is never reached): from any field it either stops at a field
    with the tag that is not the extension field, or reports that the message
    has none. *)
Theorem field_iter_find_total it t :
  Forall (fun f => tag f <> 0) (it_start it) -> (it_pos it < length (it_start it))%nat ->
  exists b it', pb_field_iter_find it t = Some (b, it') /\ it_start it' = it_start it /\
    if b then tag (pos it') = t /\ PB_LTYPE (ftype (pos it')) <> PB_LTYPE_EXTENSION
    else forall f, In f (it_start it) -> tag f = t -> PB_LTYPE (ftype f) = PB_LTYPE_EXTENSION.
Proof.
  intros Ht Hp. unfold pb_field_iter_find, iter_fuel.
  set (found := fun f => (tag f =? t) && negb (PB_LTYPE (ftype f) =? PB_LTYPE_EXTENSION)).
  set (n := length (it_start it)) in *.
  destruct (find_loop_spec found (it_pos it) n (it_start it) eq_refl Ht Hp (S n) 0 it)
    as (b & it' & -> & Hs & Hpos & Hb); [lia..|done|by rewrite Nat.add_0_r, Nat.mod_small|].
  exists b, it'. split; [done|]. split; [done|]. destruct b.
  - apply andb_prop in Hb as [?%Z.eqb_eq Hn]. split; [done|]. intros E.
    by rewrite E in Hn.
  - intros f Hf Hft. apply list_elem_of_In, list_elem_of_lookup in Hf as [i Hi].
    pose proof (lookup_lt_Some _ _ _ Hi) as Hin. fold n in Hin.
    set (j := ((i + n - it_pos it) mod n)%nat).
    assert (Hj : ((it_pos it + j) mod n = i)%nat).
    { unfold j. rewrite Nat.Div0.add_mod_idemp_r.
      replace (it_pos it + (i + n - it_pos it))%nat with (i + 1 * n)%nat by lia.
      by rewrite Nat.Div0.mod_add, Nat.mod_small. }
    assert (Hjn : (j < n)%nat) by (apply Nat.mod_upper_bound; lia).
    specialize (Hb j ltac:(lia)). rewrite Hj, (field_at_lookup _ _ _ Hi) in Hb.
    unfold found in Hb. rewrite Hft, Z.eqb_refl in Hb.
    destruct (Z.eqb_spec (PB_LTYPE (ftype f)) PB_LTYPE_EXTENSION); done.
Qed.

Lemma field_iter_find_total_witness :
  exists b it', pb_field_iter_find (iter_at gdt_cct_LogRequest_fields 4096 4) 3 =
    Some (b, it') /\ it_start it' = gdt_cct_LogRequest_fields /\
    if b then tag (pos it') = 3 /\ PB_LTYPE (ftype (pos it')) <> PB_LTYPE_EXTENSION
    else forall f, In f gdt_cct_LogRequest_fields -> tag f = 3 ->
         PB_LTYPE (ftype f) = PB_LTYPE_EXTENSION.
Proof.
  apply (field_iter_find_total (iter_at gdt_cct_LogRequest_fields 4096 4) 3).
  - vm_compute. repeat constructor; discriminate.
  - vm_compute. lia.
Defined.
