(* ===== verification/PbWire.v ===== *)
(** * nanopb wire format: theorems on the primitive readers and writers

    The varint, zig-zag, fixed-width and tag formats: what the readers accept,
    what the writers produce, and that they are inverse to each other. *)
From S2P Require Import Prelude Mem PbIstream PbOstream PbVarint PbWriter.

(** The bytes of one field of each wire type, without its tag. *)
Inductive field_bytes : Z -> list Z -> Prop :=
| fb_varint p : is_varint p = true -> field_bytes PB_WT_VARINT p
| fb_fixed64 p : zlen p = 8 -> field_bytes PB_WT_64BIT p
| fb_string p : zlen p < 2 ^ 32 ->
    field_bytes PB_WT_STRING (varint_bytes (zlen p) ++ p)
| fb_fixed32 p : zlen p = 4 -> field_bytes PB_WT_32BIT p.

(** ** Helper lemmas *)

Lemma is_varint_shape p : is_varint p = true ->
  exists c b, p = c ++ [b] /\ continuation c /\ 0 <= b < 128.
Proof.
  induction p as [|b [|b' p] IH]; [done|..]; cbn [is_varint].
  - intros H. exists [], b. split; [done|]. split; [constructor|lia].
  - intros [H Hr]%andb_prop. destruct (IH Hr) as (c & x & E & Hc & Hx).
    exists (b :: c), x. rewrite E. split; [done|]. split; [|done].
    constructor; [lia|done].
Qed.

Lemma varint_value_lower c b : 0 < b < 128 ->
  2 ^ (7 * zlen c) <= varint_value (c ++ [b]).
Proof.
  intros Hb. rewrite varint_value_app, (Z.mod_small b) by lia.
  pose proof (varint_value_bound c). nia.
Qed.

(** A canonical varint has no more bytes than its value needs. *)
Lemma varint_bytes_short v k :
  0 <= v < 2 ^ (7 * Z.of_nat k) -> (1 <= k)%nat -> v < 2 ^ 64 ->
  zlen (varint_bytes v) <= Z.of_nat k.
Proof.
  intros Hv Hk Hv64.
  destruct (varint_bytes_shape v ltac:(lia)) as (c & b & -> & Hc & Hb & Hl & Hval & Hcan).
  rewrite zlen_app, zlen_cons. change (zlen (@nil Z)) with 0.
  destruct Hcan as [->|Hb0]; [change (zlen (@nil Z)) with 0; lia|].
  pose proof (varint_value_lower c b ltac:(lia)) as Hlow. rewrite Hval in Hlow.
  assert (7 * zlen c < 7 * Z.of_nat k); [|lia].
  apply (Z.pow_lt_mono_r_iff 2); lia.
Qed.

Lemma decode_varint32_bytes v l n err :
  0 <= v < 2 ^ 32 -> zlen (varint_bytes v) <= n ->
  pb_decode_varint32 (bufstream (varint_bytes v ++ l) n err) =
  Ret v (bufstream l (n - zlen (varint_bytes v)) err).
Proof.
  intros Hv Hn. change (2 ^ 32) with 4294967296 in Hv.
  pose proof (varint_bytes_short v 5) as Hshort.
  change (2 ^ (7 * Z.of_nat 5)) with 34359738368 in Hshort.
  change (2 ^ 64) with 18446744073709551616 in Hshort.
  destruct (varint_bytes_shape v) as (c & b & E & Hc & Hb & _ & Hval & _);
    [change (2 ^ 64) with 18446744073709551616; lia|].
  rewrite E in *. rewrite zlen_app, zlen_cons in *. change (zlen (@nil Z)) with 0 in *.
  rewrite <- app_assoc. cbn [app]. destruct c as [|b0 c].
  - change (zlen (@nil Z)) with 0 in *. cbn [app varint_value] in *.
    rewrite decode_varint32_one by lia.
    rewrite Z.mod_small in Hval by lia. do 2 f_equal; lia.
  - inversion Hc as [|? ? Hb0 Hc']; subst. rewrite zlen_cons in *.
    pose proof (zlen_nonneg c). cbn [app]. 
    rewrite varint32_eof_multi, varint32_multibyte_short; try done; [|unfold zlen in *; lia..].
    cbv zeta. cbn [app]. change (b0 :: c ++ [b]) with ((b0 :: c) ++ [b]).
    set (v := varint_value ((b0 :: c) ++ [b])) in *.
    change (2 ^ 32) with 4294967296. bool_true (v <? 4294967296).
    do 2 f_equal. lia.
Qed.

Lemma le_shift_bits a b n m : 0 <= n -> 0 <= a < 2 ^ n -> 0 <= b < 2 ^ m ->
  0 <= m -> Z.lor a (Z.shiftl b n) = a + b * 2 ^ n /\ 0 <= a + b * 2 ^ n < 2 ^ (n + m).
Proof.
  intros Hn Ha Hb Hm. split; [by apply lor_shiftl_add|].
  rewrite Z.pow_add_r by lia. nia.
Qed.

(** The bytes of a little-endian integer put together again. *)
Lemma byte_split v i j : 0 <= v -> 0 <= i -> j = i + 8 ->
  Z.lor (v mod 2 ^ i) (Z.shiftl (Z.land (Z.shiftr v i) 0xFF) i) = v mod 2 ^ j.
Proof.
  intros Hv Hi ->. rewrite lor_shiftl_add by (try lia; apply Z.mod_pos_bound; lia).
  rewrite (land_mask_mod _ 8), shiftr_div by lia.
  rewrite Z.pow_add_r, Z.rem_mul_r by lia. lia.
Qed.

Lemma fixed32_value v : 0 <= v < 2 ^ 32 ->
  Z.lor (Z.lor (Z.lor (Z.shiftl (Z.land v 0xFF) 0)
     (Z.shiftl (Z.land (Z.shiftr v 8) 0xFF) 8))
     (Z.shiftl (Z.land (Z.shiftr v 16) 0xFF) 16))
     (Z.shiftl (Z.land (Z.shiftr v 24) 0xFF) 24) = v.
Proof.
  intros Hv. rewrite Z.shiftl_0_r, (land_mask_mod v 8) by lia.
  rewrite (byte_split v 8 16), (byte_split v 16 24), (byte_split v 24 32) by lia.
  by apply Z.mod_small.
Qed.

Lemma fixed64_value v : 0 <= v < 2 ^ 64 ->
  Z.lor (Z.lor (Z.lor (Z.lor (Z.lor (Z.lor (Z.lor (Z.shiftl (Z.land v 0xFF) 0)
     (Z.shiftl (Z.land (Z.shiftr v 8) 0xFF) 8))
     (Z.shiftl (Z.land (Z.shiftr v 16) 0xFF) 16))
     (Z.shiftl (Z.land (Z.shiftr v 24) 0xFF) 24))
     (Z.shiftl (Z.land (Z.shiftr v 32) 0xFF) 32))
     (Z.shiftl (Z.land (Z.shiftr v 40) 0xFF) 40))
     (Z.shiftl (Z.land (Z.shiftr v 48) 0xFF) 48))
     (Z.shiftl (Z.land (Z.shiftr v 56) 0xFF) 56) = v.
Proof.
  intros Hv. rewrite Z.shiftl_0_r, (land_mask_mod v 8) by lia.
  rewrite (byte_split v 8 16), (byte_split v 16 24), (byte_split v 24 32),
    (byte_split v 32 40), (byte_split v 40 48), (byte_split v 48 56),
    (byte_split v 56 64) by lia.
  by apply Z.mod_small.
Qed.

Lemma zigzag_range x : 0 <= zigzag x < 2 ^ 64.
Proof. unfold zigzag. destruct (x <? 0); by apply wrap_range. Qed.

Lemma zigzag_value x : - 2 ^ 63 <= x < 2 ^ 63 ->
  zigzag x = if x <? 0 then - 2 * x - 1 else 2 * x.
Proof.
  intros Hx. change (2 ^ 63) with 9223372036854775808 in Hx.
  unfold zigzag, wrap. rewrite !Z.shiftl_mul_pow2 by lia. change (2 ^ 1) with 2.
  change (2 ^ 64) with 18446744073709551616.
  destruct (Z.ltb_spec x 0).
  - rewrite (Z.mod_eq x) by lia. replace (x / 18446744073709551616) with (-1).
    2: { apply (Z.div_unique_pos _ _ _ (x + 18446744073709551616)); lia. }
    replace ((x - 18446744073709551616 * -1) * 2) with
      (2 * x + 18446744073709551616 + 1 * 18446744073709551616) by lia.
    rewrite Z.mod_add, (Z.mod_small (2 * x + _)) by lia. unfold Z.lnot.
    replace (Z.pred (- (2 * x + 18446744073709551616))) with
      (-2 * x - 1 + (-1) * 18446744073709551616) by lia.
    rewrite Z.mod_add, Z.mod_small; lia.
  - rewrite (Z.mod_small x), Z.mod_small by lia. lia.
Qed.

Lemma unzigzag v : 0 <= v < 2 ^ 64 ->
  (if negb (Z.land v 1 =? 0) then i64 (u64 (Z.lnot (Z.shiftr v 1))) else i64 (Z.shiftr v 1))
  = if v mod 2 =? 0 then v / 2 else - (v / 2) - 1.
Proof.
  intros Hv. change (2 ^ 64) with 18446744073709551616 in Hv.
  rewrite (land_mask_mod v 1), shiftr_div by lia. change (2 ^ 1) with 2.
  assert (0 <= v / 2 < 9223372036854775808).
  { split; [apply Z.div_pos; lia|apply Z.div_lt_upper_bound; lia]. }
  unfold sext. change (2 ^ (64 - 1)) with 9223372036854775808. unfold wrap.
  change (2 ^ 64) with 18446744073709551616.
  destruct (Z.eqb_spec (v mod 2) 0); cbn [negb].
  - rewrite Z.mod_small by lia. by bool_true (v / 2 <? 9223372036854775808).
  - rewrite Z.mod_mod by lia. unfold Z.lnot.
    replace (Z.pred (- (v / 2))) with
      (18446744073709551615 - v / 2 + (-1) * 18446744073709551616) by lia.
    rewrite Z.mod_add, Z.mod_small by lia.
    bool_false (18446744073709551615 - v / 2 <? 9223372036854775808). lia.
Qed.

Lemma pb_write_local bs out max n err :
  0 <= n -> n + zlen bs <= max -> max < 2 ^ 63 -> 0 < zlen bs ->
  pb_write (src_local bs) (zlen bs) (buf_stream out max n err) =
  Ret tt (buf_stream (out ++ bs) max (n + zlen bs) err).
Proof.
  intros Hn Hfit Hm Hpos. rewrite pb_write_buf by lia.
  bool_false (max <? n + zlen bs). cbn [read_source]. bool_false (zlen bs <? zlen bs).
  unfold ztake, zlen at 1. by rewrite Nat2Z.id, firstn_all.
Qed.

Lemma write_varint_run v out max n err :
  0 <= v < 2 ^ 64 -> 0 <= n -> n + 10 <= max -> max < 2 ^ 63 ->
  pb_encode_varint v (buf_stream out max n err) =
  Ret tt (buf_stream (out ++ varint_bytes v) max (n + zlen (varint_bytes v)) err).
Proof.
  intros Hv Hn Hfit Hm. pose proof (varint_bytes_len v Hv).
  apply (pb_write_local (varint_bytes v)); lia.
Qed.

Lemma read_varint_run v rest err :
  0 <= v < 2 ^ 64 ->
  pb_decode_varint (bufstream (varint_bytes v ++ rest) (zlen (varint_bytes v ++ rest)) err) =
  Ret v (bufstream rest (zlen rest) err).
Proof.
  intros Hv. pose proof (zlen_nonneg rest).
  rewrite decode_varint_bytes by (rewrite ?zlen_app; (done || lia)).
  do 2 f_equal. rewrite zlen_app. lia.
Qed.

Lemma read_svarint_run x rest err :
  - 2 ^ 63 <= x < 2 ^ 63 ->
  pb_decode_svarint (bufstream (varint_bytes (zigzag x) ++ rest)
    (zlen (varint_bytes (zigzag x) ++ rest)) err) = Ret x (bufstream rest (zlen rest) err).
Proof.
  intros Hx. unfold pb_decode_svarint.
  rewrite (bind_Ret _ _ _ _ _ (read_varint_run _ rest err (zigzag_range x))).
  transitivity (Ret (if negb (Z.land (zigzag x) 1 =? 0)
       then i64 (u64 (Z.lnot (Z.shiftr (zigzag x) 1))) else i64 (Z.shiftr (zigzag x) 1))
       (bufstream rest (zlen rest) err)); [by destruct (negb _)|].
  f_equal. rewrite unzigzag, zigzag_value by (done || apply zigzag_range).
  destruct (Z.ltb_spec x 0).
  - replace (-2 * x - 1) with (1 + (- x - 1) * 2) by lia.
    rewrite Z.mod_add, Z.div_add by lia.
    change (1 mod 2 =? 0) with false. change (1 / 2) with 0. cbv iota. lia.
  - rewrite Z.mul_comm, Z.mod_mul, Z.div_mul by lia. done.
Qed.

Lemma read_fixed32_run v rest err :
  0 <= v < 2 ^ 32 ->
  pb_decode_fixed32 (bufstream (fixed32_bytes v ++ rest) (zlen (fixed32_bytes v ++ rest)) err) =
  Ret v (bufstream rest (zlen rest) err).
Proof.
  intros Hv. pose proof (zlen_nonneg rest). assert (Hl : zlen (fixed32_bytes v) = 4) by done.
  unfold pb_decode_fixed32. rewrite <- Hl at 1. erewrite bind_Ret.
  2: apply (read_app (fixed32_bytes v)); rewrite zlen_app; lia.
  unfold ret. cbn [byte_at nth fixed32_bytes]. rewrite fixed32_value by done.
  do 2 f_equal. rewrite zlen_app. lia.
Qed.

Lemma read_fixed64_run v rest err :
  0 <= v < 2 ^ 64 ->
  pb_decode_fixed64 (bufstream (fixed64_bytes v ++ rest) (zlen (fixed64_bytes v ++ rest)) err) =
  Ret v (bufstream rest (zlen rest) err).
Proof.
  intros Hv. pose proof (zlen_nonneg rest). assert (Hl : zlen (fixed64_bytes v) = 8) by done.
  unfold pb_decode_fixed64. rewrite <- Hl at 1. erewrite bind_Ret.
  2: apply (read_app (fixed64_bytes v)); rewrite zlen_app; lia.
  unfold ret. cbn [byte_at nth fixed64_bytes]. rewrite fixed64_value by done.
  do 2 f_equal. rewrite zlen_app. lia.
Qed.

(** ** Theorems: varints *)

(** C29: on every input, [pb_decode_varint] is the reference reader: it consumes
    the bytes of the first varint and returns its value modulo 2^64, fails with
    "end-of-stream" when the stream ends inside the varint, and fails with
    "varint overflow" when the varint has more than ten bytes. *)
Theorem varint_decode_spec l err :
  bytes_ok l ->
  pb_decode_varint (bufstream l (zlen l) err) =
  match varint_scan 10 l with
  | scan_done p r => Ret (u64 (varint_value p)) (bufstream r (zlen r) err)
  | scan_eof => Fail (bufstream [] 0 (err_or err "end-of-stream"))
  | scan_overflow =>
      Fail (bufstream (drop 10 l) (zlen l - 10) (err_or err "varint overflow"))
  end.
Proof.
  intros Hl. pose proof (varint_scan_cases 10 l Hl) as H.
  destruct (varint_scan 10 l) as [p r| |].
  - destruct H as (c & b & -> & -> & Hc & Hb & Hlen).
    rewrite decode_varint_done; try done.
    + do 2 f_equal. rewrite !zlen_app, !zlen_cons. change (zlen (@nil Z)) with 0. lia.
    + rewrite !zlen_app, !zlen_cons. change (zlen (@nil Z)) with 0.
      pose proof (zlen_nonneg r). lia.
  - destruct H as [Hc Hlen]. pose proof (decode_varint_eof l [] (zlen l) err Hc Hlen eq_refl) as E.
    by rewrite app_nil_r in E.
  - destruct H as [Hc Hlen]. rewrite <- (take_drop 10 l) at 1.
    apply decode_varint_overflow; [done|rewrite length_take; lia|unfold zlen; lia].
Qed.

Lemma varint_decode_spec_witness :
  bytes_ok [0xAC; 0x02; 7] /\
  pb_decode_varint (bufstream [0xAC; 0x02; 7] (zlen [0xAC; 0x02; 7]) None) = Ret 300 (bufstream [7] 1 None).
Proof.
  split; [repeat constructor; done|].
  rewrite (varint_decode_spec [0xAC; 0x02; 7] None); [reflexivity|repeat constructor; done].
Defined.

(** writing a varint and reading it back gives the value, for every 64-bit
    value, every stream with room for it and whatever follows it. *)
Theorem varint_roundtrip v out max n err rest err' :
  0 <= v < 2 ^ 64 -> 0 <= n <= max -> max < 2 ^ 63 -> n + zlen (varint_bytes v) <= max ->
  exists bs,
    pb_encode_varint v (buf_stream out max n err) =
      Ret tt (buf_stream (out ++ bs) max (n + zlen bs) err) /\
    pb_decode_varint (bufstream (bs ++ rest) (zlen (bs ++ rest)) err') =
      Ret v (bufstream rest (zlen rest) err').
Proof.
  intros Hv Hn Hm Hfit. pose proof (varint_bytes_len v Hv). exists (varint_bytes v). split.
  - apply (pb_write_local (varint_bytes v)); lia.
  - by apply read_varint_run.
Qed.

Lemma varint_roundtrip_witness :
  exists bs,
    pb_encode_varint (2 ^ 63) (buf_stream [] 16 0 None) =
      Ret tt (buf_stream ([] ++ bs) 16 (0 + zlen bs) None) /\
    pb_decode_varint (bufstream (bs ++ [5]) (zlen (bs ++ [5])) None) =
      Ret (2 ^ 63) (bufstream [5] (zlen [5]) None).
Proof.
  apply (varint_roundtrip (2 ^ 63) [] 16 0 None [5] None);
    [done|done|done|vm_compute; discriminate].
Defined.

(** The encoder's varints are the shortest: no varint of the same value has
    fewer bytes than [pb_encode_varint] writes. *)
Theorem varint_shortest v p :
  0 <= v < 2 ^ 64 -> is_varint p = true -> varint_value p = v ->
  zlen (varint_bytes v) <= zlen p.
Proof.
  intros Hv Hp Hpv. apply varint_bytes_short; try lia.
  - unfold zlen in *. pose proof (varint_value_bound p). unfold zlen in *. lia.
  - by destruct p; [|cbn; lia].
Qed.

Lemma varint_shortest_witness : zlen (varint_bytes 5) <= zlen [0x85; 0x80; 0x00].
Proof. apply (varint_shortest 5 [0x85; 0x80; 0x00]); [done|reflexivity|reflexivity]. Defined.

(** Zig-zag integers round trip for every [int64_t]: the signed writer's
    bytes are read back as the same value by the signed reader. *)
Theorem svarint_roundtrip x out max n err rest err' :
  - 2 ^ 63 <= x < 2 ^ 63 -> 0 <= n -> n + 10 <= max -> max < 2 ^ 63 ->
  exists bs,
    pb_encode_svarint x (buf_stream out max n err) =
      Ret tt (buf_stream (out ++ bs) max (n + zlen bs) err) /\
    pb_decode_svarint (bufstream (bs ++ rest) (zlen (bs ++ rest)) err') =
      Ret x (bufstream rest (zlen rest) err').
Proof.
  intros Hx Hn Hfit Hm. pose proof (zigzag_range x) as Hz.
  exists (varint_bytes (zigzag x)). split; [by apply write_varint_run|by apply read_svarint_run].
Qed.

Lemma svarint_roundtrip_witness :
  exists bs,
    pb_encode_svarint (-3600) (buf_stream [] 16 0 None) =
      Ret tt (buf_stream ([] ++ bs) 16 (0 + zlen bs) None) /\
    pb_decode_svarint (bufstream (bs ++ [1]) (zlen (bs ++ [1])) None) =
      Ret (-3600) (bufstream [1] (zlen [1]) None).
Proof. apply (svarint_roundtrip (-3600) [] 16 0 None [1] None); done. Defined.

(** ** Theorems: fixed-width integers and tags *)

(** Fixed-width integers round trip: [pb_decode_fixed32] and
    [pb_decode_fixed64] read back the [uint32_t] and [uint64_t] their writers
    wrote, in four and eight bytes. *)
Theorem fixed_roundtrip v w out max n err rest err' :
  0 <= v < 2 ^ 32 -> 0 <= w < 2 ^ 64 -> 0 <= n -> n + 8 <= max -> max < 2 ^ 63 ->
  (exists bs, zlen bs = 4 /\
    pb_encode_fixed32 v (buf_stream out max n err) =
      Ret tt (buf_stream (out ++ bs) max (n + 4) err) /\
    pb_decode_fixed32 (bufstream (bs ++ rest) (zlen (bs ++ rest)) err') =
      Ret v (bufstream rest (zlen rest) err')) /\
  (exists bs, zlen bs = 8 /\
    pb_encode_fixed64 w (buf_stream out max n err) =
      Ret tt (buf_stream (out ++ bs) max (n + 8) err) /\
    pb_decode_fixed64 (bufstream (bs ++ rest) (zlen (bs ++ rest)) err') =
      Ret w (bufstream rest (zlen rest) err')).
Proof.
  intros Hv Hw Hn Hfit Hm. split.
  - exists (fixed32_bytes v). split; [done|]. split; [|by apply read_fixed32_run].
    apply (pb_write_local (fixed32_bytes v)); change (zlen (fixed32_bytes v)) with 4; lia.
  - exists (fixed64_bytes w). split; [done|]. split; [|by apply read_fixed64_run].
    apply (pb_write_local (fixed64_bytes w)); change (zlen (fixed64_bytes w)) with 8; lia.
Qed.

Lemma fixed_roundtrip_witness :
  (exists bs, zlen bs = 4 /\
    pb_encode_fixed32 0xDEADBEEF (buf_stream [1] 9 1 None) =
      Ret tt (buf_stream ([1] ++ bs) 9 (1 + 4) None) /\
    pb_decode_fixed32 (bufstream (bs ++ [2]) (zlen (bs ++ [2])) None) =
      Ret 0xDEADBEEF (bufstream [2] (zlen [2]) None)) /\
  (exists bs, zlen bs = 8 /\
    pb_encode_fixed64 (2 ^ 63 + 5) (buf_stream [1] 9 1 None) =
      Ret tt (buf_stream ([1] ++ bs) 9 (1 + 8) None) /\
    pb_decode_fixed64 (bufstream (bs ++ [2]) (zlen (bs ++ [2])) None) =
      Ret (2 ^ 63 + 5) (bufstream [2] (zlen [2]) None)).
Proof.
  apply (fixed_roundtrip 0xDEADBEEF (2 ^ 63 + 5) [1] 9 1 None [2] None); done.
Defined.

Lemma varint32_eof_of s v s' :
  pb_decode_varint32 s = Ret v s' -> pb_decode_varint32_eof s = Ret (Some v, false) s'.
Proof.
  unfold pb_decode_varint32. intros H. apply bind_inv in H as ([o eof] & s1 & E & H).
  rewrite E. destruct o as [x|]; [|done]. cbn [fst] in H. injection H as -> ->.
  unfold pb_decode_varint32_eof in E. apply bind_inv in E as ([b|] & s2 & _ & E).
  - apply bind_inv in E as (r & s3 & _ & E). by injection E as -> <- <-.
  - apply bind_inv in E as (s3 & s4 & _ & E). done.
Qed.

Lemma tag_value_sum wt num : 0 <= wt < 8 -> 0 <= num < 2 ^ 29 ->
  tag_value wt num = wt + num * 8.
Proof.
  intros Hw Hn. unfold tag_value. change (2 ^ 29) with 536870912 in Hn.
  rewrite wrap_small.
  - rewrite Z.lor_comm. change 8 with (2 ^ 3). by apply lor_shiftl_add.
  - rewrite Z.shiftl_mul_pow2 by lia. change (2 ^ 3) with 8.
    change (2 ^ 64) with 18446744073709551616. lia.
Qed.

(** Field tags round trip: the tag of field [num] (1 to 2^29 - 1, the range
    of the protobuf format) and wire type [wt] is read back by [pb_decode_tag] as
    exactly that field number and wire type, without the end-of-stream mark. *)
Theorem tag_roundtrip wt num out max n err rest err' :
  0 <= wt < 8 -> 1 <= num < 2 ^ 29 -> 0 <= n -> n + 10 <= max -> max < 2 ^ 63 ->
  exists bs,
    pb_encode_tag wt num (buf_stream out max n err) =
      Ret tt (buf_stream (out ++ bs) max (n + zlen bs) err) /\
    pb_decode_tag (bufstream (bs ++ rest) (zlen (bs ++ rest)) err') =
      Ret (Some (wt, num), false) (bufstream rest (zlen rest) err').
Proof.
  intros Hw Hnum Hn Hfit Hm. set (v := tag_value wt num).
  assert (Hv : v = wt + num * 8) by (apply tag_value_sum; lia).
  change (2 ^ 29) with 536870912 in Hnum.
  assert (Hr : 0 <= v < 2 ^ 32) by (change (2 ^ 32) with 4294967296; lia).
  assert (Hr64 : 0 <= v < 2 ^ 64) by (change (2 ^ 64) with 18446744073709551616; lia).
  pose proof (varint_bytes_len v Hr64). pose proof (zlen_nonneg rest).
  exists (varint_bytes v). split; [apply pb_write_local; lia|].
  unfold pb_decode_tag. erewrite bind_Ret.
  2: { apply varint32_eof_of, decode_varint32_bytes; [done|rewrite zlen_app; lia]. }
  bool_false (v =? 0). unfold ret. rewrite (land_mask_mod v 3), shiftr_div by done.
  change (2 ^ 3) with 8. clearbody v.
  replace (zlen (varint_bytes v ++ rest) - zlen (varint_bytes v)) with (zlen rest)
    by (rewrite zlen_app; lia).
  rewrite Hv, Z.mod_add, Z.div_add, Z.mod_small, Z.div_small by lia. rewrite Z.add_0_l. by bool_false (wt + num * 8 =? 0).
Qed.

Lemma tag_roundtrip_witness :
  exists bs,
    pb_encode_tag PB_WT_STRING 23 (buf_stream [] 10 0 None) =
      Ret tt (buf_stream ([] ++ bs) 10 (0 + zlen bs) None) /\
    pb_decode_tag (bufstream (bs ++ [9]) (zlen (bs ++ [9])) None) =
      Ret (Some (PB_WT_STRING, 23), false) (bufstream [9] (zlen [9]) None).
Proof. apply (tag_roundtrip PB_WT_STRING 23 [] 10 0 None [9] None); done. Defined.

(** ** Theorems: skipping *)

Lemma skip_varint_run c b l n err : forall fuel,
  continuation c -> 0 <= b < 128 -> (length c < fuel)%nat -> zlen c + 1 <= n ->
  skip_varint_loop fuel (bufstream (c ++ b :: l) n err) =
  Ret tt (bufstream l (n - (zlen c + 1)) err).
Proof.
  revert n. induction c as [|x c IH]; intros n [|fuel] Hc Hb Hf Hn; cbn [length] in Hf; [lia| |lia|].
  - cbn [skip_varint_loop app]. change 1 with (zlen [b]) at 1. change (b :: l) with ([b] ++ l).
    change (zlen (@nil Z)) with 0 in *.
    erewrite bind_Ret by (apply read_app; change (zlen [b]) with 1; lia).
    erewrite (bind_Ret (of_opt (head [b]))) by reflexivity. rewrite land_80 by (unfold is_byte; lia). by bool_true (b <? 128).
  - inversion Hc as [|? ? Hx Hc']; subst. rewrite zlen_cons in *. pose proof (zlen_nonneg c).
    cbn [skip_varint_loop app]. change 1 with (zlen [x]) at 1.
    change (x :: c ++ b :: l) with ([x] ++ (c ++ b :: l)).
    erewrite bind_Ret by (apply read_app; change (zlen [x]) with 1; lia).
    erewrite (bind_Ret (of_opt (head [x]))) by reflexivity. rewrite land_80 by (unfold is_byte; lia). bool_false (x <? 128).
    cbn [negb]. change (zlen [x]) with 1.
    rewrite IH by (done || lia). do 2 f_equal. lia.
Qed.

(** [pb_skip_field] skips exactly one field: whatever follows the bytes of a
    field of wire type [wt] (a varint of any length, eight or four bytes, or a
    length and that many bytes) is what the stream has left. *)
Theorem skip_field_exact wt p rest err :
  field_bytes wt p ->
  pb_skip_field wt (bufstream (p ++ rest) (zlen (p ++ rest)) err) =
  Ret tt (bufstream rest (zlen rest) err).
Proof.
  intros H. pose proof (zlen_nonneg rest).
  assert (Hskip : forall q, pb_read_null (zlen q) (bufstream (q ++ rest) (zlen (q ++ rest)) err)
    = Ret tt (bufstream rest (zlen rest) err)).
  { intros q. rewrite read_null_app by (rewrite zlen_app; lia). do 2 f_equal.
    rewrite zlen_app. lia. }
  destruct H as [p Hp|p Hp|p Hp|p Hp].
  - apply is_varint_shape in Hp as (c & b & -> & Hc & Hb). rewrite <- app_assoc. cbn [app].
    unfold pb_skip_field, pb_skip_varint. cbn [Z.eqb PB_WT_VARINT]. unfold getm, bind at 1.
    cbn [i_bytes_left bufstream]. fold (bufstream (c ++ b :: rest) (zlen (c ++ b :: rest)) err).
    rewrite skip_varint_run; try done; rewrite ?zlen_app, ?zlen_cons;
      pose proof (zlen_nonneg c); [do 2 f_equal; lia|unfold zlen; lia|lia].
  - change (pb_skip_field PB_WT_64BIT) with (pb_read_null 8). rewrite <- Hp at 1. apply Hskip.
  - change (pb_skip_field PB_WT_STRING) with pb_skip_string. rewrite <- app_assoc.
    unfold pb_skip_string. erewrite bind_Ret.
    2: { apply decode_varint32_bytes; [split; [apply zlen_nonneg|done]|].
         rewrite zlen_app. pose proof (zlen_nonneg (p ++ rest)). lia. }
    rewrite zlen_app. replace (_ + zlen (p ++ rest) - _) with (zlen (p ++ rest)) by lia.
    apply Hskip.
  - change (pb_skip_field PB_WT_32BIT) with (pb_read_null 4). rewrite <- Hp at 1. apply Hskip.
Qed.

Lemma skip_field_exact_witness :
  pb_skip_field PB_WT_STRING (bufstream ((varint_bytes 3 ++ [1; 2; 3]) ++ [8; 9])
    (zlen ((varint_bytes 3 ++ [1; 2; 3]) ++ [8; 9])) None) =
  Ret tt (bufstream [8; 9] (zlen [8; 9]) None).
Proof. apply skip_field_exact. apply (fb_string [1; 2; 3]). reflexivity. Defined.

(** A user's stream callback that hands out the bytes of its state in order. *)
Definition serves (f : list Z -> Z -> bool * list Z * list Z) : Prop :=
  forall l c, 0 <= c <= zlen l -> f l c = (true, ztake c l, zdrop c l).

Lemma user_read f l n err c :
  serves f -> 0 <= c <= zlen l -> c <= n ->
  exists bs, pb_read c (Istream (cb_user_read f) l n err) =
    Ret bs (Istream (cb_user_read f) (zdrop c l) (n - c) err).
Proof.
  intros Hf Hc Hn. unfold pb_read. destruct (Z.eqb_spec c 0) as [->|].
  - exists []. by rewrite Z.sub_0_r.
  - exists (ztake c l). unfold getm, bind at 1. cbn [i_bytes_left]. bool_false (n <? c).
    unfold bind, tryb, call_icallback, modm, ret. cbn [i_callback i_state].
    by rewrite Hf.
Qed.

Lemma zdrop_zdrop {A} a b (l : list A) :
  0 <= a -> 0 <= b -> zdrop a (zdrop b l) = zdrop (b + a) l.
Proof. intros. unfold zdrop. rewrite drop_drop. f_equal. lia. Qed.

(** Skipping on a user's stream, sixteen bytes at a time through a scratch
    buffer, terminates and has the effect of one skip: [count] bytes are consumed
    from the callback and from [bytes_left], as on a memory buffer. *)
Theorem chunked_skip f l n err count :
  serves f -> 0 <= count <= zlen l -> count <= n ->
  pb_read_null count (Istream (cb_user_read f) l n err) =
  Ret tt (Istream (cb_user_read f) (zdrop count l) (n - count) err).
Proof.
  intros Hf Hc Hn. unfold pb_read_null. destruct (Z.eqb_spec count 0) as [->|Hne].
  { by rewrite Z.sub_0_r. }
  unfold getm, bind at 1. cbn [i_callback].
  assert (Hfuel : count <= 16 * Z.of_nat (S (Z.to_nat (count / 16)))).
  { pose proof (Z.div_mod count 16). pose proof (Z.mod_pos_bound count 16).
    pose proof (Z.div_pos count 16). lia. }
  revert Hfuel. generalize (S (Z.to_nat (count / 16))) as fuel. intros fuel.
  revert l n count Hc Hn Hne. induction fuel as [|fuel IH]; intros l n count Hc Hn Hne Hfuel; [lia|].
  cbn [pb_read_skip_loop]. destruct (Z.ltb_spec 16 count).
  - destruct (user_read f l n err 16 Hf) as [bs E]; [lia..|].
    rewrite (bind_Ret _ _ _ _ _ E), IH; [|rewrite zlen_zdrop; lia|lia..].
    rewrite zdrop_zdrop by lia. replace (16 + (count - 16)) with count by lia.
    do 2 f_equal. lia.
  - destruct (user_read f l n err count Hf) as [bs E]; [lia..|].
    by rewrite (bind_Ret _ _ _ _ _ E).
Qed.

Definition serve_list (l : list Z) (c : Z) : bool * list Z * list Z :=
  (true, ztake c l, zdrop c l).

Lemma chunked_skip_witness :
  pb_read_null 40 (Istream (cb_user_read serve_list) (replicate 50 7) 45 None) =
  Ret tt (Istream (cb_user_read serve_list) (zdrop 40 (replicate 50 7)) (45 - 40) None).
Proof. apply (chunked_skip serve_list (replicate 50 7) 45 None 40); [done|done|done]. Defined.

(** ** Theorems: length-delimited substreams *)

Lemma substream_exact_run p rest err :
  zlen p < 2 ^ 32 ->
  pb_make_string_substream
    (bufstream (varint_bytes (zlen p) ++ p ++ rest)
       (zlen (varint_bytes (zlen p) ++ p ++ rest)) err) =
    Ret (bufstream (p ++ rest) (zlen p) err) (bufstream (p ++ rest) (zlen rest) err).
Proof.
  intros Hlen.
  pose proof (zlen_nonneg p); pose proof (zlen_nonneg rest).
  unfold pb_make_string_substream. erewrite bind_Ret.
    2: { apply decode_varint32_bytes; [done|]. rewrite zlen_app.
         pose proof (zlen_nonneg (p ++ rest)). lia. }
    unfold getm, bind at 1. cbn [bufstream i_bytes_left]. rewrite !zlen_app.
    replace (_ + _ - _) with (zlen p + zlen rest) by lia.
    bool_false (zlen p + zlen rest <? zlen p). unfold bind, putm, ret, set_bytes_left.
    cbn [i_callback i_state i_bytes_left i_errmsg]. unfold bufstream.
    do 2 f_equal. lia.
Qed.

(** A length-delimited field is read through a substream that ends where the
    field ends: [pb_make_string_substream] gives a stream limited to the field's
    bytes and, however many of them were read ([read] bytes, [q] being left),
    [pb_close_string_substream] leaves the parent exactly after the field. *)
Theorem substream_exact p read q rest err err' :
  p = read ++ q -> zlen p < 2 ^ 32 ->
  let parent := bufstream (p ++ rest) (zlen rest) err in
  pb_make_string_substream
    (bufstream (varint_bytes (zlen p) ++ p ++ rest)
       (zlen (varint_bytes (zlen p) ++ p ++ rest)) err) =
    Ret (bufstream (p ++ rest) (zlen p) err) parent /\
  pb_close_string_substream (bufstream (q ++ rest) (zlen q) err') parent =
    Ret tt (bufstream rest (zlen rest) err').
Proof.
  intros -> Hlen parent. pose proof (zlen_nonneg rest). split.
  - by apply substream_exact_run.
  - unfold pb_close_string_substream. cbn [i_bytes_left bufstream].
    fold (bufstream (q ++ rest) (zlen q) err').
    destruct (Z.eqb_spec (zlen q) 0) as [E|E].
    + destruct q; [done|]. rewrite zlen_cons in E. pose proof (zlen_nonneg q). lia.
    + rewrite read_null_app by lia. by rewrite Z.sub_diag.
Qed.

Lemma substream_exact_witness :
  let parent := bufstream ([1; 2; 3] ++ [9]) (zlen [9]) None in
  pb_make_string_substream
    (bufstream (varint_bytes (zlen [1; 2; 3]) ++ [1; 2; 3] ++ [9])
       (zlen (varint_bytes (zlen [1; 2; 3]) ++ [1; 2; 3] ++ [9])) None) =
    Ret (bufstream ([1; 2; 3] ++ [9]) (zlen [1; 2; 3]) None) parent /\
  pb_close_string_substream (bufstream ([2; 3] ++ [9]) (zlen [2; 3]) None) parent =
    Ret tt (bufstream [9] (zlen [9]) None).
Proof. apply (substream_exact [1; 2; 3] [1] [2; 3] [9] None None); reflexivity. Defined.

(** ** Theorems: 32-bit varints *)

(** [pb_decode_varint32] on a varint [p] of at most five bytes returns its
    value when it fits in 32 bits and fails with "varint overflow" otherwise; the
    varint is consumed either way. *)
Theorem varint32_decode_spec p rest err :
  is_varint p = true -> zlen p <= 5 ->
  pb_decode_varint32 (bufstream (p ++ rest) (zlen (p ++ rest)) err) =
  if varint_value p <? 2 ^ 32 then Ret (varint_value p) (bufstream rest (zlen rest) err)
  else Fail (bufstream rest (zlen rest) (err_or err "varint overflow")).
Proof.
  intros Hp Hlen. pose proof (zlen_nonneg rest).
  destruct (is_varint_shape p Hp) as (c & b & -> & Hc & Hb).
  rewrite <- app_assoc. cbn [app]. rewrite !zlen_app, !zlen_cons in *.
  change (zlen (@nil Z)) with 0 in *. change (2 ^ 32) with 4294967296.
  destruct c as [|b0 c].
  - change (zlen (@nil Z)) with 0. cbn [app varint_value].
    rewrite (Z.mod_small b), Z.mul_0_r, Z.add_0_r by lia. bool_true (b <? 4294967296).
    rewrite decode_varint32_one by lia. do 2 f_equal. lia.
  - inversion Hc as [|? ? Hb0 Hc']; subst. rewrite zlen_cons in *. pose proof (zlen_nonneg c).
    cbn [app]. rewrite varint32_eof_multi, varint32_multibyte_short by
      (done || lia || (unfold zlen in *; lia)).
    cbv zeta. change (2 ^ 32) with 4294967296.
    replace (_ - 1 - (zlen c + 1)) with (zlen rest) by lia.
    by destruct (_ <? _).
Qed.

Lemma varint32_decode_spec_witness :
  pb_decode_varint32 (bufstream ([0xFF; 0xFF; 0xFF; 0xFF; 0x1F] ++ [1])
     (zlen ([0xFF; 0xFF; 0xFF; 0xFF; 0x1F] ++ [1])) None) =
  Fail (bufstream [1] 1 (Some "varint overflow")).
Proof. rewrite (varint32_decode_spec [0xFF; 0xFF; 0xFF; 0xFF; 0x1F] [1] None); reflexivity || done. Defined.

(** [pb_decode_varint32] accepts a negative 32-bit number that a writer
    sign-extended to 64 bits: the ten bytes of [2^64 - x] read as [2^32 - x], for
    every [x] from 1 to [2^31]. *)
Theorem varint32_sign_extended x rest err :
  1 <= x <= 2 ^ 31 ->
  pb_decode_varint32 (bufstream (varint_bytes (2 ^ 64 - x) ++ rest)
     (zlen (varint_bytes (2 ^ 64 - x) ++ rest)) err) =
  Ret (2 ^ 32 - x) (bufstream rest (zlen rest) err).
Proof.
  intros Hx. pose proof (zlen_nonneg rest).
  assert (Hl : zlen (varint_bytes (2 ^ 64 - x)) = 10).
  { destruct (sign_extended_bytes x Hx) as (c & Hc & _ & E & _).
    unfold sign_extended in E. rewrite E. unfold zlen. rewrite length_app, Hc. done. }
  rewrite (decode_varint32_sign_extended x) by (rewrite ?zlen_app; lia).
  do 2 f_equal. rewrite zlen_app. lia.
Qed.

Lemma varint32_sign_extended_witness :
  pb_decode_varint32 (bufstream (varint_bytes (2 ^ 64 - 1) ++ [])
     (zlen (varint_bytes (2 ^ 64 - 1) ++ [])) None) =
  Ret (2 ^ 32 - 1) (bufstream [] (zlen (@nil Z)) None).
Proof. apply (varint32_sign_extended 1 [] None). done. Defined.

(** The overflow check of [pb_decode_varint32] misses varints of more than
    five bytes whose bits above the 32nd are all in the fifth byte: the varint
    [80 80 80 80 F0 00], of value 30064771072, reads as 0, although the 64-bit
    reader gives the value and the five-byte form of it is refused. *)
Theorem varint32_missed_overflow :
  let p := [0x80; 0x80; 0x80; 0x80; 0xF0; 0x00] in
  varint_value p = 7 * 2 ^ 32 /\
  pb_decode_varint (bufstream p 6 None) = Ret (7 * 2 ^ 32) (bufstream [] 0 None) /\
  pb_decode_varint32 (bufstream p 6 None) = Ret 0 (bufstream [] 0 None) /\
  pb_decode_varint32 (bufstream (varint_bytes (7 * 2 ^ 32)) 5 None) =
    Fail (bufstream [] 0 (Some "varint overflow")).
Proof. vm_compute. repeat split. Qed.
