(* ===== verification/PbEncodeSpec.v ===== *)
(** * nanopb encoder: theorems

    The encoder's promise: the size it announces is the size it writes, and the
    bytes are the same on every stream that has room for them. *)
From S2P Require Import Prelude Mem PbIstream PbOstream PbField PbEncode PbLayout PbVarint.
From S2P Require Import PbVarint PbWriter PbEncodeSize PbWire PbIter.

(** A memory made of the given blocks. *)
Definition blocks_mem (l : list (Z * list Z)) : mem :=
  Mem (foldr (fun p b => map_fresh b p.1 p.2) ∅ l) ∅ 65536 1048576.

(** A [gdt_cct_LogEvent] at address 4096, its [source_extension] at 8192. *)
Definition event_mem : mem :=
  blocks_mem [(4096, le_bytes 8 1 ++ le_bytes 8 1000 ++ le_bytes 8 8192 ++
                     le_bytes 4 1 ++ le_bytes 4 7 ++ le_bytes 8 1 ++ le_bytes 8 (u64 (-3600)) ++
                     le_bytes 8 0 ++ le_bytes 8 0 ++
                     le_bytes 4 1 ++ le_bytes 4 1 ++ le_bytes 4 1 ++ le_bytes 4 1 ++ le_bytes 4 5);
              (8192, le_bytes 4 3 ++ [97; 98; 99; 0])].

(** The bytes of that event on the wire. *)
Definition event_bytes : list Z :=
  [8; 232; 7; 50; 3; 97; 98; 99; 88; 7; 120; 159; 56; 186; 1; 4; 8; 1; 16; 5].

(** Decidable forms of the hypotheses. *)
Definition field_okb (f : pb_field) : bool :=
  (0 <=? data_size f) && (data_size f <? 2 ^ 32) &&
  (0 <=? array_size f) && (array_size f <? 2 ^ 32).

Lemma fields_ok_dec fields : forallb field_okb fields = true -> Forall field_ok fields.
Proof.
  rewrite forallb_forall. intros H. apply Forall_forall. intros f Hf%list_elem_of_In.
  apply H in Hf. unfold field_okb in Hf. repeat (apply andb_prop in Hf as [Hf ?]).
  unfold field_ok. lia.
Qed.

Lemma cct_env_ok : env_ok cct_env.
Proof.
  split; [|done|done|done]. intros i. apply fields_ok_dec.
  do 10 (destruct i as [|i]; [vm_compute; reflexivity|]). by destruct i.
Qed.

Lemma mem_ok_dec m :
  forallb (fun p => (0 <=? p.2) && (p.2 <? 256)) (map_to_list (m_bytes m)) = true -> mem_ok m.
Proof.
  rewrite forallb_forall. intros H a b Hb. specialize (H (a, b)).
  apply andb_prop in H as [? ?]; [unfold is_byte; cbn in *; lia|].
  apply list_elem_of_In. by apply elem_of_map_to_list.
Qed.

(** ** Theorems *)

(** [pb_write] never writes past the end of the buffer: on a buffer stream
    with [n] of [max] bytes taken, a write either fails, leaving the output and
    the count as they were, or appends exactly [count] bytes and counts them,
    within [max].  The check holds for every 64-bit [count], also when
    [bytes_written + count] wraps around. *)
Theorem pb_write_bounds src count out max n err :
  0 <= n <= max -> max < 2 ^ 64 -> 0 < count < 2 ^ 64 ->
  match pb_write src count (buf_stream out max n err) with
  | Ret _ s => n + count <= max /\ exists bs, read_source src count = Some bs /\
      zlen bs = count /\ s = buf_stream (out ++ bs) max (n + count) err
  | Fail s => max < n + count /\ s = buf_stream out max n (err_or err "stream full")
  | Ub => read_source src count = None
  | NoFuel => False
  end.
Proof.
  intros Hn Hm Hc. change (2 ^ 64) with 18446744073709551616 in *.
  assert (Hw : u64 (n + count) = n + count \/
    (u64 (n + count) < n /\ max < n + count)).
  { unfold wrap. change (2 ^ 64) with 18446744073709551616.
    destruct (Z.lt_ge_cases (n + count) 18446744073709551616).
    - left. apply Z.mod_small. lia.
    - right. replace (n + count) with (n + count - 18446744073709551616 + 1 * 18446744073709551616) by lia.
      rewrite Z.mod_add, Z.mod_small; lia. }
  unfold pb_write, bind at 1, getm, buf_stream.
  cbn [has_callback o_callback o_bytes_written o_max_size].
  bool_true (0 <? count). cbn [andb].
  destruct Hw as [Hw|[Hw Hover]].
  - rewrite Hw. bool_false (n + count <? n). cbn [orb].
    destruct (Z.ltb_spec max (n + count)) as [Hfull|Hfit]; [done|].
    destruct (read_source src count) as [bs|] eqn:Es; [|done].
    unfold bind, of_opt, tryb, call_ocallback, buf_write, modm, ret.
    cbn [o_callback set_out set_bytes_written o_out o_max_size o_bytes_written o_errmsg].
    rewrite Hw. split; [done|]. exists bs. split; [done|]. split; [|done].
    by apply (read_source_len src); [lia|].
  - bool_true (u64 (n + count) <? n). cbn. done.
Qed.

Lemma pb_write_bounds_witness :
  match pb_write (src_local [1; 2]) (2 ^ 64 - 1) (buf_stream [5; 6] 4 2 None) with
  | Ret _ s => 2 + (2 ^ 64 - 1) <= 4 /\
      exists bs, read_source (src_local [1; 2]) (2 ^ 64 - 1) = Some bs /\
      zlen bs = 2 ^ 64 - 1 /\ s = buf_stream ([5; 6] ++ bs) 4 (2 + (2 ^ 64 - 1)) None
  | Fail s => 4 < 2 + (2 ^ 64 - 1) /\ s = buf_stream [5; 6] 4 2 (err_or None "stream full")
  | Ub => read_source (src_local [1; 2]) (2 ^ 64 - 1) = None
  | NoFuel => False
  end.
Proof. apply (pb_write_bounds (src_local [1; 2]) (2 ^ 64 - 1) [5; 6] 4 2 None); done. Defined.

(** C2: the encoder writes the same bytes everywhere and announces their number.
    When [pb_encode] succeeds on some buffer with the bytes [bs], then
    [bytes_written] is their number and fits the buffer; [pb_get_encoded_size]
    gives exactly that number; and every other buffer of [max'] bytes receives
    exactly [bs] when they fit, and is otherwise refused with [false] and at most
    [max'] bytes written, starting with nothing else on the stream.  This covers
    every field kind, submessages and packed arrays (whose sizes come from a
    separate sizing pass), extensions and user callbacks. *)
Theorem encode_size_and_bytes e m fuel fields src max s :
  env_ok e -> mem_ok m -> Forall field_ok fields -> 0 <= max < 2 ^ 63 ->
  pb_encode fuel e m fields src (pb_ostream_from_buffer max) = Ret tt s ->
  zlen (o_out s) < 2 ^ 63 ->
  o_bytes_written s = zlen (o_out s) /\ zlen (o_out s) <= max /\
  pb_get_encoded_size fuel e m fields src = Ret (zlen (o_out s)) tt /\
  forall max', 0 <= max' < 2 ^ 63 ->
    if zlen (o_out s) <=? max'
    then exists s', pb_encode fuel e m fields src (pb_ostream_from_buffer max') = Ret tt s' /\
           o_out s' = o_out s /\ o_bytes_written s' = zlen (o_out s)
    else exists s', pb_encode fuel e m fields src (pb_ostream_from_buffer max') = Fail s' /\
           zlen (o_out s') <= max'.
Proof.
  intros He Hm Hf Hmax Hrun Hlen.
  destruct (pb_encode_writer e m He Hm fuel fields src Hf [] max 0 None s)
    as (bs & n' & err & -> & Hn' & Hbs); [done|exact Hrun|].
  cbn [buf_stream o_out o_bytes_written app] in *.
  destruct Hbs as (-> & Hle & [Hc Hfill Href]); [pow_lia|lia|].
  split; [lia|]. split; [lia|]. split.
  - unfold pb_get_encoded_size.
    destruct (emits_sizing _ _ (Emits _ _ Hc Hfill Href) Hlen) as [e1 ->]. done.
  - intros max' Hmax'. destruct (Z.leb_spec (zlen bs) max').
    + destruct (Hfill [] max' 0 None) as [e1 E]; [lia..|]. eexists. split; [exact E|]. done.
    + destruct (Href [] max' 0 None) as (w & n1 & e1 & E & Hw); [lia..|].
      eexists. split; [exact E|]. cbn. lia.
Qed.

Lemma encode_size_and_bytes_witness :
  let s := buf_stream event_bytes 64 20 None in
  o_bytes_written s = zlen (o_out s) /\ zlen (o_out s) <= 64 /\
  pb_get_encoded_size 3 cct_env event_mem gdt_cct_LogEvent_fields 4096 = Ret (zlen (o_out s)) tt /\
  forall max', 0 <= max' < 2 ^ 63 ->
    if zlen (o_out s) <=? max'
    then exists s', pb_encode 3 cct_env event_mem gdt_cct_LogEvent_fields 4096
                      (pb_ostream_from_buffer max') = Ret tt s' /\
           o_out s' = o_out s /\ o_bytes_written s' = zlen (o_out s)
    else exists s', pb_encode 3 cct_env event_mem gdt_cct_LogEvent_fields 4096
                      (pb_ostream_from_buffer max') = Fail s' /\ zlen (o_out s') <= max'.
Proof.
  apply (encode_size_and_bytes cct_env event_mem 3 gdt_cct_LogEvent_fields 4096 64).
  - exact cct_env_ok.
  - apply mem_ok_dec. vm_compute. reflexivity.
  - apply fields_ok_dec. vm_compute. reflexivity.
  - done.
  - vm_compute. reflexivity.
  - vm_compute. reflexivity.
Defined.

(** delimited framing.  What [pb_encode_delimited] writes is the varint of the
    message's encoded size followed by the bytes [body] that [pb_encode] writes
    into a buffer of exactly that size; and a reader that opens the length-delimited
    field gets a substream limited to [body], with what follows left to the parent. *)
Theorem delimited_framing e m fuel fields src max s rest :
  env_ok e -> mem_ok m -> Forall field_ok fields -> 0 <= max < 2 ^ 63 ->
  pb_encode_delimited fuel e m fields src (pb_ostream_from_buffer max) = Ret tt s ->
  zlen (o_out s) < 2 ^ 32 ->
  exists body, o_out s = varint_bytes (zlen body) ++ body /\
    pb_get_encoded_size fuel e m fields src = Ret (zlen body) tt /\
    (exists s', pb_encode fuel e m fields src (pb_ostream_from_buffer (zlen body)) = Ret tt s' /\
       o_out s' = body) /\
    pb_make_string_substream (bufstream (o_out s ++ rest) (zlen (o_out s ++ rest)) None) =
      Ret (bufstream (body ++ rest) (zlen body) None) (bufstream (body ++ rest) (zlen rest) None).
Proof.
  intros He Hm Hf Hmax Hrun Hlen. change (2 ^ 32) with 4294967296 in Hlen.
  pose proof (pb_encode_writer e m He Hm fuel fields src Hf) as Hw.
  unfold pb_encode_delimited, pb_encode_submessage in Hrun.
  destruct (pb_encode fuel e m fields src PB_OSTREAM_SIZING) as [[] sub|?| |]; try done.
  set (size := o_bytes_written sub) in Hrun.
  change ((pb_encode_varint size ;;! submessage_body (pb_encode fuel e m) fields src size)
            (buf_stream [] max 0 None) = Ret tt s) in Hrun.
  apply bind_inv in Hrun as ([] & s1 & H1 & H2).
  apply varint_Ret in H1 as [-> Hle].
  apply submessage_body_Ret in H2 as (bs & n' & e' & -> & Hn' & Hbs); [|done|by apply wrap_range].
  cbn [buf_stream o_out app] in *. rewrite zlen_app in Hlen.
  pose proof (zlen_nonneg bs); pose proof (zlen_nonneg (varint_bytes size)).
  assert (Hbs63 : zlen bs < 2 ^ 63) by (change (2 ^ 63) with 9223372036854775808; lia).
  destruct (Hbs Hbs63) as (Hsz & Hem & -> & Hle2). rewrite Hsz in *.
  exists bs. split; [done|]. split; [|split].
  - unfold pb_get_encoded_size. by destruct (emits_sizing _ _ Hem Hbs63) as [e1 ->].
  - destruct Hem as [_ Hfill _].
    destruct (Hfill [] (zlen bs) 0 None) as [e1 E]; [lia..|]. eexists. by split; [exact E|].
  - rewrite <- app_assoc. apply (substream_exact_run bs rest None).
    change (2 ^ 32) with 4294967296. lia.
Qed.

Lemma delimited_framing_witness :
  let s := buf_stream (20 :: event_bytes) 64 21 None in
  exists body, o_out s = varint_bytes (zlen body) ++ body /\
    pb_get_encoded_size 3 cct_env event_mem gdt_cct_LogEvent_fields 4096 = Ret (zlen body) tt /\
    (exists s', pb_encode 3 cct_env event_mem gdt_cct_LogEvent_fields 4096
       (pb_ostream_from_buffer (zlen body)) = Ret tt s' /\ o_out s' = body) /\
    pb_make_string_substream (bufstream (o_out s ++ [7]) (zlen (o_out s ++ [7])) None) =
      Ret (bufstream (body ++ [7]) (zlen body) None) (bufstream (body ++ [7]) (zlen [7]) None).
Proof.
  apply (delimited_framing cct_env event_mem 3 gdt_cct_LogEvent_fields 4096 64
           (buf_stream (20 :: event_bytes) 64 21 None) [7]).
  - exact cct_env_ok.
  - apply mem_ok_dec. vm_compute. reflexivity.
  - apply fields_ok_dec. vm_compute. reflexivity.
  - done.
  - vm_compute. reflexivity.
  - vm_compute. reflexivity.
Defined.
