(* ===== verification/PbRequired.v ===== *)
(** * nanopb decoder: the bookkeeping of required fields, and range checks

    The bitmap [fields_seen] of [pb_decode_noinit] as a set of field indices,
    and the integer decoders. *)
From S2P Require Import Prelude Mem PbIstream PbOstream PbField PbEncode PbDecode PbMessage.
From S2P Require Import PbVarint PbWriter PbEncodeSize PbWire PbLayout.

(** The bitmap after the fields that the iterators stand at were decoded
    ([noinit_body_seen] is the link to the loop). *)
Definition seen_after (its : list pb_field_iter) : list Z := foldl mark_seen [0; 0] its.

(** A decoded required field, among the 64 that are tracked. *)
Definition marks (it : pb_field_iter) : bool :=
  (PB_HTYPE (ftype (pos it)) =? PB_HTYPE_REQUIRED) &&
  (required_field_index it <? PB_MAX_REQUIRED_FIELDS).

Definition seen_bit (seen : list Z) (i : Z) : bool :=
  Z.testbit (nth (Z.to_nat (i / 32)) seen 0) (i mod 32).

Definition fits (signed : bool) (w x : Z) : bool :=
  if signed then (- 2 ^ (w - 1) <=? x) && (x <? 2 ^ (w - 1)) else (0 <=? x) && (x <? 2 ^ w).

(** ** The bitmap *)

Lemma mark_bit j : 0 <= j < 32 -> u32 (Z.shiftl 1 j) = 2 ^ j.
Proof.
  intros Hj. rewrite Z.shiftl_1_l. apply wrap_small.
  split; [by apply Z.pow_nonneg|apply Z.pow_lt_mono_r; lia].
Qed.

Lemma mark_seen_length seen it : length (mark_seen seen it) = length seen.
Proof. unfold mark_seen. destruct (_ && _); [apply length_alter|done]. Qed.

Lemma nth_alter (f : Z -> Z) l k i :
  nth i (alter f k l) 0 = if Nat.eqb i k && (Nat.ltb k (length l)) then f (nth i l 0) else nth i l 0.
Proof.
  revert l i. induction k as [|k IH]; intros [|x l] [|i]; try done.
  - by destruct (Nat.eqb _ _).
  - cbn. apply IH.
Qed.

Lemma mark_seen_bit seen it i :
  length seen = 2%nat -> 0 <= i < 64 -> 0 <= required_field_index it ->
  seen_bit (mark_seen seen it) i =
  seen_bit seen i || (marks it && (required_field_index it =? i)).
Proof.
  intros Hl Hi Hr. unfold mark_seen. fold (marks it). destruct (marks it) eqn:Em; cbn [andb].
  2: by rewrite orb_false_r.
  unfold marks in Em. apply andb_prop in Em as [_ Hlt%Z.ltb_lt].
  change PB_MAX_REQUIRED_FIELDS with 64 in Hlt.
  set (r := required_field_index it) in *. unfold seen_bit.
  rewrite shiftr_div, (land_mask_mod r 5) by lia. change (2 ^ 5) with 32.
  pose proof (Z.mod_pos_bound r 32 ltac:(lia)) as Hm.
  pose proof (Z.div_mod r 32 ltac:(lia)) as Hr32. pose proof (Z.div_mod i 32 ltac:(lia)) as Hi32.
  pose proof (Z.mod_pos_bound i 32 ltac:(lia)) as Him.
  rewrite nth_alter, Hl, mark_bit by lia.
  assert (0 <= r / 32 < 2) by (split; [apply Z.div_pos; lia|apply Z.div_lt_upper_bound; lia]).
  assert (0 <= i / 32) by (apply Z.div_pos; lia).
  replace (Nat.ltb (Z.to_nat (r / 32)) 2) with true by (symmetry; apply Nat.ltb_lt; lia).
  rewrite andb_true_r. destruct (Nat.eqb_spec (Z.to_nat (i / 32)) (Z.to_nat (r / 32))) as [E|E].
  - rewrite Z.lor_spec, Z.pow2_bits_eqb by lia. f_equal.
    apply eq_true_iff_eq. rewrite !Z.eqb_eq. lia.
  - bool_false (r =? i). by rewrite orb_false_r.
Qed.

Lemma seen_after_bit its : forall seen i,
  length seen = 2%nat -> 0 <= i < 64 -> Forall (fun it => 0 <= required_field_index it) its ->
  seen_bit (foldl mark_seen seen its) i =
  seen_bit seen i || existsb (fun it => marks it && (required_field_index it =? i)) its.
Proof.
  induction its as [|it its IH]; intros seen i Hl Hi Hits; cbn [foldl existsb].
  - by rewrite orb_false_r.
  - inversion Hits; subst. rewrite IH; [|by rewrite mark_seen_length|done|done].
    rewrite mark_seen_bit by done. by rewrite orb_assoc.
Qed.

Lemma word_ones w n : 0 <= n <= 32 -> 0 <= w < 2 ^ 32 ->
  (w = 2 ^ n - 1 <-> forall j, 0 <= j < 32 -> Z.testbit w j = (j <? n)).
Proof.
  intros Hn Hw. replace (2 ^ n - 1) with (Z.ones n) by (rewrite Z.ones_equiv; lia). split.
  - intros -> j Hj. destruct (Z.ltb_spec j n).
    + apply Z.ones_spec_low. lia.
    + apply Z.ones_spec_high. lia.
  - intros H. apply Z.bits_inj'. intros j Hj. destruct (Z.lt_ge_cases j 32).
    + rewrite H by lia. destruct (Z.ltb_spec j n).
      * symmetry. apply Z.ones_spec_low. lia.
      * symmetry. apply Z.ones_spec_high. lia.
    + rewrite <- (Z.mod_small w (2 ^ 32)), Z.mod_pow2_bits_high by lia.
      symmetry. apply Z.ones_spec_high. lia.
Qed.

Lemma allbits_shift r : 0 <= r < 32 -> Z.shiftr (2 ^ 32 - 1) (32 - r) = 2 ^ r - 1.
Proof.
  intros Hr. rewrite shiftr_div by lia.
  symmetry. apply (Z.div_unique_pos _ _ _ (2 ^ (32 - r) - 1)).
  - pose proof (Z.pow_pos_nonneg 2 (32 - r)). lia.
  - replace (2 ^ 32) with (2 ^ (32 - r) * 2 ^ r); [lia|].
    rewrite <- Z.pow_add_r by lia. f_equal. lia.
Qed.

(** The bitmap's words are 32-bit values. *)
Lemma seen_after_words its : forall seen,
  Forall (fun w => 0 <= w < 2 ^ 32) seen ->
  Forall (fun w => 0 <= w < 2 ^ 32) (foldl mark_seen seen its).
Proof.
  induction its as [|it its IH]; intros seen H; cbn [foldl]; [done|]. apply IH.
  unfold mark_seen. destruct (_ && _); [|done].
  apply Forall_alter; [done|]. intros w Hw.
  assert (Hb : forall v, 0 <= u32 v < 2 ^ 32) by (intros; by apply wrap_range).
  specialize (Hb (Z.shiftl 1 (Z.land (required_field_index it) 31))).
  set (v := u32 _) in *.
  split; [apply Z.lor_nonneg; lia|].
  destruct (Z.eq_dec (Z.lor w v) 0) as [->|]; [done|].
  assert (0 < Z.lor w v) by (pose proof (proj2 (Z.lor_nonneg w v)); lia).
  apply Z.log2_lt_pow2; [done|]. rewrite Z.log2_lor by lia.
  apply Z.max_lub_lt; [destruct (Z.eq_dec w 0) as [->|]|destruct (Z.eq_dec v 0) as [->|]];
    try done; apply Z.log2_lt_pow2; lia.
Qed.

(** The word comparisons of [all_seen], as bits. *)
Lemma all_seen_bits w0 w1 count :
  0 <= w0 < 2 ^ 32 -> 0 <= w1 < 2 ^ 32 -> 0 <= count <= 64 ->
  (forall i, 0 <= i < 64 -> seen_bit [w0; w1] i = true -> i < count) ->
  all_seen [w0; w1] count = true <-> forall i, 0 <= i < count -> seen_bit [w0; w1] i = true.
Proof.
  intros H0 H1 Hc Hb.
  assert (B0 : forall j, 0 <= j < 32 -> seen_bit [w0; w1] j = Z.testbit w0 j).
  { intros j Hj. unfold seen_bit. by rewrite Z.div_small, Z.mod_small. }
  assert (B1 : forall j, 0 <= j < 32 -> seen_bit [w0; w1] (32 + j) = Z.testbit w1 j).
  { intros j Hj. unfold seen_bit. replace (32 + j) with (j + 1 * 32) by lia.
    by rewrite Z.div_add, Z.mod_add, Z.div_small, Z.mod_small by lia. }
  assert (Hones : forall w n, 0 <= n <= 32 -> 0 <= w < 2 ^ 32 ->
    (forall j, 0 <= j < 32 -> Z.testbit w j = true -> j < n) ->
    (w =? 2 ^ n - 1) = true <-> forall j, 0 <= j < n -> Z.testbit w j = true).
  { intros w n Hn Hw Hlt. rewrite Z.eqb_eq, word_ones by done. split; intros H j Hj.
    - rewrite H by lia. solve_bool.
    - destruct (Z.ltb_spec j n); [apply H; lia|]. destruct (Z.testbit w j) eqn:E; [|done].
      apply Hlt in E; lia. }
  unfold all_seen. rewrite shiftr_div, (land_mask_mod count 5) by lia. change (2 ^ 5) with 32.
  destruct (Z.eq_dec count 0) as [->|Hne]; [split; [lia|done]|]. bool_true (0 <? count).
  assert (Hlow : forall j, 0 <= j < 32 -> Z.testbit w0 j = true -> j < count)
    by (intros j Hj; rewrite <- B0 by done; apply Hb; lia).
  assert (Hhigh : forall j, 0 <= j < 32 -> Z.testbit w1 j = true -> j < count - 32).
  { intros j Hj. rewrite <- B1 by done. intros E. apply Hb in E; lia. }
  destruct (Z.lt_ge_cases count 32) as [Hs|Hs]; [|destruct (Z.lt_ge_cases count 64) as [Hm|Hm]].
  - rewrite Z.div_small, Z.mod_small by lia. bool_false (count =? 0).
    change (Z.to_nat 0) with 0%nat. cbn [take forallb nth andb orb].
    rewrite allbits_shift, Hones by (assumption || lia).
    split; intros H j Hj; [rewrite B0 by lia|rewrite <- B0 by lia]; by apply H.
  - assert (E1 : count / 32 = 1) by (symmetry; apply (Z.div_unique_pos _ _ _ (count - 32)); lia).
    assert (E2 : count mod 32 = count - 32)
      by (symmetry; apply (Z.mod_unique_pos _ _ 1); lia).
    rewrite E1, E2. change (Z.to_nat 1) with 1%nat. cbn [take forallb nth]. rewrite andb_true_r.
    assert (Hw0 : (w0 =? 2 ^ 32 - 1) = true <-> forall j, 0 <= j < 32 -> Z.testbit w0 j = true)
      by (apply Hones; [lia|done|lia]).
    assert (Hw1 : (count - 32 =? 0) || (w1 =? Z.shiftr (2 ^ 32 - 1) (32 - (count - 32))) = true
      <-> forall j, 0 <= j < count - 32 -> Z.testbit w1 j = true).
    { destruct (Z.eqb_spec (count - 32) 0) as [->|]; [split; [lia|done]|].
      cbn [orb]. rewrite allbits_shift by lia. by apply Hones; [lia| |]. }
    rewrite andb_true_iff, Hw0, Hw1. split.
    + intros [Ha Hd] i Hi. destruct (Z.lt_ge_cases i 32); [rewrite B0 by lia; apply Ha; lia|].
      replace i with (32 + (i - 32)) by lia. rewrite B1 by lia. apply Hd. lia.
    + intros H. split; intros j Hj; [rewrite <- B0 by lia|rewrite <- B1 by lia]; apply H; lia.
  - replace count with 64 by lia. change (64 / 32) with 2. change (64 mod 32) with 0.
    cbn [Z.eqb orb]. rewrite andb_true_r. change (Z.to_nat 2) with 2%nat.
    cbn [take forallb]. rewrite andb_true_r, andb_true_iff.
    rewrite (Hones w0 32), (Hones w1 32) by (assumption || lia). split.
    + intros [Ha Hd] i Hi. destruct (Z.lt_ge_cases i 32); [rewrite B0 by lia; apply Ha; lia|].
      replace i with (32 + (i - 32)) by lia. rewrite B1 by lia. apply Hd. lia.
    + intros H. split; intros j Hj; [rewrite <- B0 by lia|rewrite <- B1 by lia]; apply H; lia.
Qed.

(** ** The loop of the decoder

    The bitmap that [pb_decode_noinit] tests at its end is the one after the fields that
    it has decoded. *)
Lemma decode_unknown_seen e rec depth t wire_type v iter s v' s' :
  decode_unknown e rec depth t wire_type v iter s = Ret v' s' -> v_seen v' = v_seen v.
Proof.
  assert (Hskip : forall iter' start s1,
    (lift (pb_skip_field wire_type) ;;! ret (Vars iter' (v_seen v) start (v_fixed v))) s1 = Ret v' s' -> v_seen v' = v_seen v).
  { intros iter' start s1 (u & s2 & _ & H)%bind_inv. by injection H as <- _. }
  unfold decode_unknown. destruct (v_ext_start v <=? t); [|apply Hskip].
  destruct (find_extension_field iter) as [[found iter']|]; [|done]. cbv zeta.
  destruct (_ <=? t); [|apply Hskip]. intros (before & s1 & _ & H)%bind_inv.
  apply bind_inv in H as (u & s2 & _ & H). apply bind_inv in H as (after & s3 & _ & H).
  destruct (negb _); [by injection H as <- _|by apply Hskip in H].
Qed.

Definition was_decoded e rec depth (it : pb_field_iter) : Prop :=
  exists wire_type s1 it' s2, decode_field e rec depth wire_type it s1 = Ret it' s2.

Lemma noinit_loop_seen e rec depth fuel : forall v s v' s',
  noinit_loop e rec depth fuel v s = Ret v' s' ->
  exists its, v_seen v' = foldl mark_seen (v_seen v) its /\
    Forall (was_decoded e rec depth) its.
Proof.
  induction fuel as [|fuel IH]; intros v s v' s'; [done|]. cbn [noinit_loop]. intros H.
  apply bind_inv in H as (avail & s1 & _ & H). destruct (avail =? 0).
  { injection H as <- <-. by exists []. }
  apply bind_inv in H as ([[[wire_type t]|] eof] & s2 & _ & H).
  2: { destruct eof; [|done]. injection H as <- <-. by exists []. }
  apply bind_inv in H as (v1 & s3 & H1 & H). apply IH in H as (its & E & Hits).
  unfold decode_tagged in H1. destruct (pb_field_iter_find (v_iter v) t) as [[[] iter]|]; [| |done].
  - apply bind_inv in H1 as ([iter1 fixed] & s4 & _ & H1). apply bind_inv in H1 as (iter2 & s5 & Hd & H1).
    injection H1 as <- <-. exists (iter1 :: its). split; [done|]. constructor; [by eexists _, _, _, _|done].
  - exists its. split; [|done]. rewrite E. f_equal. by eapply decode_unknown_seen.
Qed.

(** A message that is accepted has passed the test on the fields that were decoded. *)
Lemma noinit_body_seen e rec depth fields dest s s' :
  noinit_body e rec depth fields dest s = Ret tt s' ->
  exists its iter count, Forall (was_decoded e rec depth) its /\
    req_field_count iter = Some count /\ all_seen (seen_after its) count = true.
Proof.
  intros (avail & s1 & _ & H)%bind_inv. apply bind_inv in H as (v & s2 & Hv & H).
  apply bind_inv in H as (u & s3 & _ & H). apply noinit_loop_seen in Hv as (its & E & Hits).
  unfold check_required in H. destruct (req_field_count (v_iter v)) as [count|] eqn:Ec; [|done].
  rewrite E in H. exists its, (v_iter v), count. split; [done|]. split; [done|].
  unfold seen_after. by destruct (all_seen _ _).
Qed.

(** ** Theorems *)

(** C30: the bitmap of required fields.  Let [its] be the iterators at which fields
    were marked, and [count] the number of
    required fields of the message, at most the 64 that are tracked.  The bitmap
    test at the end of [pb_decode_noinit] passes exactly when every required field,
    0 to [count - 1], is among them; it never accepts a missing one and never
    refuses a complete message, whatever the order and repetition. *)
Theorem required_fields_checked its count :
  0 <= count <= PB_MAX_REQUIRED_FIELDS ->
  Forall (fun it => 0 <= required_field_index it /\
    (marks it = true -> required_field_index it < count)) its ->
  all_seen (seen_after its) count = true <->
  forall i, 0 <= i < count -> exists it, In it its /\ marks it = true /\ required_field_index it = i.
Proof.
  intros Hc Hits. change PB_MAX_REQUIRED_FIELDS with 64 in Hc. unfold seen_after.
  assert (Hnn : Forall (fun it => 0 <= required_field_index it) its)
    by (eapply Forall_impl; [exact Hits|by intros ? [??]]).
  assert (Hbit : forall i, 0 <= i < 64 -> seen_bit (foldl mark_seen [0; 0] its) i = true <->
    exists it, In it its /\ marks it = true /\ required_field_index it = i).
  { intros i Hi. rewrite seen_after_bit by done. replace (seen_bit [0; 0] i) with false.
    2: { unfold seen_bit. destruct (Z.to_nat (i / 32)) as [|[|[|k]]]; cbn [nth]; by rewrite Z.bits_0. }
    cbn [orb]. rewrite existsb_exists. split.
    - intros (it & Hin & [Hm He%Z.eqb_eq]%andb_prop). by exists it.
    - intros (it & Hin & Hm & He). exists it. split; [done|]. rewrite Hm, He. apply Z.eqb_refl. }
  pose proof (seen_after_words its [0; 0] ltac:(by repeat constructor)) as Hw.
  assert (Hlen : length (foldl mark_seen [0; 0] its) = 2%nat).
  { clear. generalize (eq_refl (length [0; 0])). generalize [0; 0] at 1 3.
    induction its as [|it its IH]; intros l Hl; [done|]. cbn [foldl]. apply IH.
    by rewrite mark_seen_length. }
  destruct (foldl mark_seen [0; 0] its) as [|w0 [|w1 [|]]]; try done.
  inversion Hw as [|? ? Hw0 Hw']; subst. inversion Hw' as [|? ? Hw1 _]; subst.
  rewrite all_seen_bits; [|done|done|done|].
  - split; intros H i Hi; [apply Hbit|apply Hbit]; try lia; by apply H.
  - intros i Hi (it & Hin & Hm & <-)%Hbit; [|done].
    apply list_elem_of_In in Hin. rewrite Forall_forall in Hits. by apply Hits.
Qed.

(** A message with two required fields, and the iterator at each. *)
Definition two_required : list pb_field :=
  [PbField 1 PB_LTYPE_VARINT 0 0 4 0 ptr_null; PbField 2 PB_LTYPE_VARINT 0 0 4 0 ptr_null].
Definition at_field (i : nat) : pb_field_iter := PbIter two_required i (Z.of_nat i) 64 64 64.

Lemma required_fields_checked_witness :
  all_seen (seen_after [at_field 1; at_field 0; at_field 1]) 2 = true <->
  forall i, 0 <= i < 2 -> exists it, In it [at_field 1; at_field 0; at_field 1] /\
    marks it = true /\ required_field_index it = i.
Proof.
  apply (required_fields_checked [at_field 1; at_field 0; at_field 1] 2); [done|].
  do 3 (constructor; [split; [done|intros _; reflexivity]|]). constructor.
Defined.

Lemma fits_spec (signed : bool) w x : 0 < w ->
  (if signed then sext w x else wrap w x) = x <-> fits signed w x = true.
Proof.
  intros Hw. unfold fits. destruct signed; rewrite andb_true_iff, Z.leb_le, Z.ltb_lt; split.
  - intros E. pose proof (sext_range w x Hw). lia.
  - intros H. apply sext_small; lia.
  - intros E. pose proof (wrap_range w x). lia.
  - intros H. apply wrap_small; lia.
Qed.

Definition load_int (signed : bool) (m : mem) (a : Z) (n : nat) : option Z :=
  if signed then load_signed m a n else load m a n.

Lemma is_int_size_cases n : is_int_size n = true -> n = 1 \/ n = 2 \/ n = 4 \/ n = 8.
Proof. unfold is_int_size. rewrite !orb_true_iff, !Z.eqb_eq. tauto. Qed.

Lemma store_clamped_run (signed : bool) field dest x i m loc :
  is_int_size (data_size field) = true ->
  mapped m dest (Z.to_nat (data_size field)) ->
  exists m', store m dest (Z.to_nat (data_size field))
      (if signed then sext (8 * data_size field) x else wrap (8 * data_size field) x) = Some m' /\
  store_clamped signed field dest x (Dstate i m loc) =
  if fits signed (8 * data_size field) x then Ret tt (Dstate i m' loc)
  else Fail (Dstate (PB_SET_ERROR "integer too large" i) m' loc).
Proof.
  intros Hn Hmap. pose proof (is_int_size_cases _ Hn) as Hcases.
  set (v := if signed then _ else _).
  destruct (store_mapped m dest (Z.to_nat (data_size field)) v Hmap) as [m' Hm'].
  exists m'. split; [done|]. unfold store_clamped. fold v.
  replace (_ || _ || _ || _) with true
    by (destruct Hcases as [E|[E|[E|E]]]; rewrite E; reflexivity).
  unfold store_m, upd_mem, bind, getm, of_opt, putm. cbn [ds_mem ds_in ds_local].
  rewrite Hm'. pose proof (fits_spec signed (8 * data_size field) x ltac:(lia)) as Hfit.
  fold v in Hfit. destruct (Z.eqb_spec v x) as [E|E]; cbn [negb].
  - by rewrite (proj1 Hfit E).
  - destruct (fits signed (8 * data_size field) x) eqn:Ef; [|done].
    destruct E. by apply Hfit.
Qed.

(** ** The integer decoders *)

(** A varint is a 64-bit number, whatever the stream gives. *)
Lemma decode_varint_loop_range k : forall bitpos result s,
  0 <= bitpos <= 70 -> 77 <= bitpos + 7 * Z.of_nat k -> 0 <= result < 2 ^ 64 ->
  match decode_varint_loop k bitpos result s with
  | Ret v _ => 0 <= v < 2 ^ 64
  | Fail _ | Ub => True
  | NoFuel => False
  end.
Proof.
  induction k as [|k IH]; intros bitpos result s Hb Hk Hr; [lia|]. cbn [decode_varint_loop].
  destruct (Z.leb_spec 64 bitpos); [done|]. unfold bind at 1.
  assert (Hbyte : pb_readbyte s <> NoFuel).
  { unfold pb_readbyte, bind, getm, tryb, call_icallback, buf_read. destruct (i_bytes_left s =? 0); [done|].
    destruct (i_callback s); [destruct (_ <? _); [done|]|destruct (f _ _) as [[[] ?] ?]]; cbn; by repeat destruct (head _). }
  destruct (pb_readbyte s) as [b s1|s1| |]; [|done..]. cbv zeta.
  set (r := Z.lor result _). assert (Hr' : 0 <= r < 2 ^ 64).
  { apply lor_range; [lia|done|]. by apply wrap_range. }
  destruct (negb _); [|done]. apply IH; [| |done]; rewrite (wrap_small 8) by (change (2 ^ 8) with 256; lia); lia.
Qed.

Lemma decode_varint_range s :
  match pb_decode_varint s with Ret v _ => 0 <= v < 2 ^ 64 | Fail _ | Ub => True | NoFuel => False end.
Proof. by apply decode_varint_loop_range. Qed.

(** Fields of the integer types; unsigned ones have a type of their own. *)
Definition is_int_field (field : pb_field) : Prop :=
  let lt := PB_LTYPE (ftype field) in
  (lt = PB_LTYPE_VARINT \/ lt = PB_LTYPE_UVARINT \/ lt = PB_LTYPE_SVARINT) /\ is_int_size (data_size field) = true.
Definition is_signed (field : pb_field) : bool := negb (PB_LTYPE (ftype field) =? PB_LTYPE_UVARINT).

(** The number that the 64-bit value [v] on the wire is for a field: [v] itself for an
    unsigned field; the number that zig-zag encoding maps to [v] for a zig-zag field;
    and for a plain signed field the two's complement reading of [v] in 64 bits, or of
    its low 32 bits if the field is narrower than 64. *)
Definition field_number (field : pb_field) (v : Z) : Z :=
  let lt := PB_LTYPE (ftype field) in
  if lt =? PB_LTYPE_UVARINT then v
  else if lt =? PB_LTYPE_SVARINT then (if v mod 2 =? 0 then v / 2 else - (v / 2) - 1)
  else sext (if data_size field =? 8 then 64 else 32) v.

(** A number cast to the C type of the field. *)
Definition field_cast (field : pb_field) (x : Z) : Z :=
  if is_signed field then sext (8 * data_size field) x else wrap (8 * data_size field) x.

(** What an integer decoder does: read a varint, then store the number with the check. *)
Lemma int_decoder_steps e rec depth field dest s dec :
  is_int_field field -> PB_DECODERS e rec depth (PB_LTYPE (ftype field)) = Some dec ->
  dec field dest s =
  (let! v := lift pb_decode_varint in store_clamped (is_signed field) field dest (field_number field v)) s.
Proof.
  intros [Hlt _] Hdec. unfold is_signed, field_number. pose proof (decode_varint_range (ds_in s)) as Hv.
  destruct Hlt as [E|[E|E]]; rewrite E in *; injection Hdec as <-; cbn [Z.eqb Pos.eqb PB_LTYPE_UVARINT PB_LTYPE_VARINT PB_LTYPE_SVARINT negb].
  - unfold pb_dec_varint, bind, lift. destruct (pb_decode_varint (ds_in s)); try done. by destruct (data_size field =? 8).
  - done.
  - unfold pb_dec_svarint, pb_decode_svarint, bind, lift. destruct (pb_decode_varint (ds_in s)) as [v i'| | |]; try done.
    rewrite <- (unzigzag v Hv). by destruct (negb _).
Qed.

(** C31: an integer field never silently holds a number that is not its C type's.  Take a
    field of an integer type (plain, unsigned or zig-zag) at any width and the decoder
    that PB_DECODERS lists for it, on any stream.  When a varint can be read, the field
    is written with the number that the varint is for this field ([field_number]: a plain
    signed field of at most 32 bits takes the low 32 bits of the varint), cast to the C
    type of the field, and no other byte of memory changes; the decoder returns true
    exactly when the cast kept the number, and otherwise false with the message "integer
    too large".  When no varint can be read the decoder fails with the memory unchanged. *)
Theorem integer_fields_checked e rec depth field dest i m loc dec :
  is_int_field field -> mapped m dest (Z.to_nat (data_size field)) ->
  PB_DECODERS e rec depth (PB_LTYPE (ftype field)) = Some dec ->
  match pb_decode_varint i with
  | Ret v i' =>
      let x := field_number field v in
      exists m', load_int (is_signed field) m' dest (Z.to_nat (data_size field)) = Some (field_cast field x) /\
        (forall b, b < dest \/ dest + data_size field <= b -> m_bytes m' !! b = m_bytes m !! b) /\
        dec field dest (Dstate i m loc) =
        if fits (is_signed field) (8 * data_size field) x then Ret tt (Dstate i' m' loc)
        else Fail (Dstate (PB_SET_ERROR "integer too large" i') m' loc)
  | Fail i' => dec field dest (Dstate i m loc) = Fail (Dstate i' m loc)
  | Ub => dec field dest (Dstate i m loc) = Ub
  | NoFuel => False
  end.
Proof.
  intros Hf Hmap Hdec. rewrite (int_decoder_steps e rec depth field dest _ dec Hf Hdec).
  pose proof (decode_varint_range i) as Hv. unfold bind, lift. cbn [ds_in ds_mem ds_local].
  destruct (pb_decode_varint i) as [v i'| | |]; try done. cbv zeta. destruct Hf as [_ Hn].
  pose proof (is_int_size_cases _ Hn) as Hcases.
  destruct (store_clamped_run (is_signed field) field dest (field_number field v) i' m loc Hn Hmap) as (m' & Hst & Hrun).
  fold (field_cast field (field_number field v)) in Hst. exists m'. split; [|split; [|done]].
  - unfold load_int, load_signed. rewrite (load_store _ _ _ _ _ Hst), Z2Nat.id by lia. unfold field_cast.
    destruct (is_signed field); [|by rewrite wrap_wrap].
    rewrite sext_wrap, (sext_small _ (sext _ _)); [done|lia|by apply sext_range; lia].
  - intros b Hb. eapply store_other; [exact Hst|]. lia.
Qed.

Definition int_field (ltype size : Z) : pb_field := PbField 1 ltype 0 0 size 0 ptr_null.
Definition small_mem : mem := Mem (list_to_map [(64, 1); (65, 2); (66, 3); (67, 4); (68, 5)]) ∅ 128 128.

Lemma small_mem_mapped k : (k <= 5)%nat -> mapped small_mem 64 k.
Proof. intros Hk i Hi. destruct i as [|[|[|[|[|i]]]]]; [by eexists..|lia]. Qed.

(** 300, zig-zag for 150, in a field of one byte: too large, and the field holds -106. *)
Lemma integer_fields_checked_witness :
  exists m', load_int true m' 64 1 = Some (-106) /\
    (forall b, b < 64 \/ 64 + 1 <= b -> m_bytes m' !! b = m_bytes small_mem !! b) /\
    pb_dec_svarint (int_field PB_LTYPE_SVARINT 1) 64 (Dstate (bufstream [0xAC; 0x02; 7] 3 None) small_mem 0) =
    Fail (Dstate (PB_SET_ERROR "integer too large" (bufstream [7] 1 None)) m' 0).
Proof.
  exact (integer_fields_checked cct_env (fun _ _ => ret tt) 0 (int_field PB_LTYPE_SVARINT 1) 64 (bufstream [0xAC; 0x02; 7] 3 None) small_mem 0
    pb_dec_svarint (conj (or_intror (or_intror eq_refl)) eq_refl) (small_mem_mapped 1 ltac:(lia)) eq_refl).
Defined.

(** A plain signed field of four bytes has no number that is too large: of the varint
    2^32 + 5 it takes the low half. *)
Example int32_field_truncates :
  match pb_dec_varint (int_field PB_LTYPE_VARINT 4) 64
          (Dstate (bufstream [0x85; 0x80; 0x80; 0x80; 0x10] 5 None) small_mem 0) with
  | Ret _ s => i_bytes_left (ds_in s) = 0 /\ load_int true (ds_mem s) 64 4 = Some 5
  | _ => False
  end.
Proof. vm_compute. split; reflexivity. Qed.
