(* ===== verification/PbRoundtrip.v ===== *)
(** * nanopb: scalar fields survive encoding and decoding

    The item encoders and decoders of the scalar types, composed: the bytes of
    the field in the destination structure are those of the source. *)
From S2P Require Import Prelude Mem PbIstream PbOstream PbField PbEncode PbDecode.
From S2P Require Import PbMessage PbLayout PbVarint PbWriter PbEncodeSize PbWire PbRequired PbIter PbEncodeSpec.

(** The bytes of a scalar field in memory. *)
Definition scalar_width (field : pb_field) : nat :=
  let lt := PB_LTYPE (ftype field) in
  if lt =? PB_LTYPE_BOOL then 1%nat
  else if lt =? PB_LTYPE_FIXED32 then 4%nat
  else if lt =? PB_LTYPE_FIXED64 then 8%nat
  else Z.to_nat (data_size field).

Definition is_scalar (field : pb_field) : Prop :=
  let lt := PB_LTYPE (ftype field) in
  lt = PB_LTYPE_BOOL \/ lt = PB_LTYPE_FIXED32 \/ lt = PB_LTYPE_FIXED64 \/
  ((lt = PB_LTYPE_VARINT \/ lt = PB_LTYPE_UVARINT \/ lt = PB_LTYPE_SVARINT) /\
   is_int_size (data_size field) = true).

(** A decoded [bool] is stored as 0 or 1. *)
Definition normal_value (field : pb_field) (x : Z) : Z :=
  if PB_LTYPE (ftype field) =? PB_LTYPE_BOOL then (if x =? 0 then 0 else 1) else x.

(** ** Helper lemmas *)

Lemma wrap_of_wrap a b x : 0 <= a <= b -> wrap a (wrap b x) = wrap a x.
Proof.
  intros H. unfold wrap. replace (2 ^ b) with (2 ^ a * 2 ^ (b - a)).
  - pose proof (Z.pow_pos_nonneg 2 a ltac:(lia) ltac:(lia)).
    pose proof (Z.pow_pos_nonneg 2 (b - a) ltac:(lia) ltac:(lia)).
    rewrite Z.rem_mul_r by lia. rewrite Z.mul_comm, Z.mod_add, Z.mod_mod by lia. done.
  - rewrite <- Z.pow_add_r by lia. f_equal. lia.
Qed.

Lemma wrap_sext w x : 0 < w -> wrap w (sext w x) = wrap w x.
Proof.
  intros Hw. unfold sext. destruct (_ <? _); [apply wrap_wrap|].
  unfold wrap. replace (x mod 2 ^ w - 2 ^ w) with (x mod 2 ^ w + (-1) * 2 ^ w) by lia.
  pose proof (Z.pow_pos_nonneg 2 w ltac:(lia) ltac:(lia)).
  rewrite Z.mod_add, Z.mod_mod by lia. done.
Qed.

Lemma sext_of_wrap a b x : 0 <= a <= b -> sext a (wrap b x) = sext a x.
Proof. intros H. unfold sext. by rewrite wrap_of_wrap. Qed.

Lemma lift_run {A B} (f : M istream A) (k : A -> M dstate B) i i' a m loc :
  f i = Ret a i' -> bind (lift f) k (Dstate i m loc) = k a (Dstate i' m loc).
Proof. intros H. unfold bind, lift. cbn [ds_in ds_mem ds_local]. by rewrite H. Qed.

(** What a store of [x] leaves. *)
Definition stored (m m' : mem) (dest : Z) (w : nat) (x : Z) : Prop :=
  load m' dest w = Some x /\
  forall b, b < dest \/ dest + Z.of_nat w <= b -> m_bytes m' !! b = m_bytes m !! b.

Lemma store_m_run dest w v x i m loc :
  mapped m dest w -> wrap (8 * Z.of_nat w) v = x ->
  exists m', store_m dest w v (Dstate i m loc) = Ret tt (Dstate i m' loc) /\ stored m m' dest w x.
Proof.
  intros Hmap <-. destruct (store_mapped m dest w v Hmap) as [m' Hm']. exists m'. split.
  - unfold store_m, upd_mem, bind, getm, of_opt, putm. cbn [ds_mem ds_in ds_local]. by rewrite Hm'.
  - split; [by eapply load_store|]. intros b Hb. by eapply store_other.
Qed.

(** The clamped store of a value that has the width's representation [x]. *)
Lemma store_clamped_ok (signed : bool) field dest v x i m loc :
  is_int_size (data_size field) = true ->
  mapped m dest (Z.to_nat (data_size field)) ->
  fits signed (8 * data_size field) v = true -> wrap (8 * data_size field) v = x ->
  exists m', store_clamped signed field dest v (Dstate i m loc) = Ret tt (Dstate i m' loc) /\
    stored m m' dest (Z.to_nat (data_size field)) x.
Proof.
  intros Hn Hmap Hfit Hx. pose proof (is_int_size_cases _ Hn) as Hcases.
  destruct (store_clamped_run signed field dest v i m loc Hn Hmap) as (m' & Hst & Hrun).
  rewrite Hfit in Hrun. exists m'. split; [done|]. apply fits_spec in Hfit; [|lia].
  rewrite Hfit in Hst. split.
  - rewrite (load_store _ _ _ _ _ Hst), Z2Nat.id by lia. by rewrite Hx.
  - intros b Hb. by eapply store_other.
Qed.

(** The integer types: the number on the wire and back. *)
Lemma int_width_bounds n : n = 1 \/ n = 2 \/ n = 4 \/ n = 8 ->
  0 < 2 ^ (8 * n - 1) <= 2 ^ 63 /\ 0 < 2 ^ (8 * n) <= 2 ^ 64.
Proof. intros [E|[E|[E|E]]]; rewrite E; split; split; (reflexivity || (intros H; discriminate H)). Qed.

Lemma int_codec_roundtrip e m rec rec' depth field src dest m2 loc rest err err' out max n enc dec x :
  let lt := PB_LTYPE (ftype field) in
  let w := Z.to_nat (data_size field) in
  lt = PB_LTYPE_VARINT \/ lt = PB_LTYPE_UVARINT \/ lt = PB_LTYPE_SVARINT ->
  is_int_size (data_size field) = true -> mem_ok m -> load m src w = Some x -> mapped m2 dest w ->
  0 <= n -> n + 10 <= max -> max < 2 ^ 63 ->
  PB_ENCODERS e m rec lt = Some enc -> PB_DECODERS e rec' depth lt = Some dec ->
  exists bs m2',
    enc field src (buf_stream out max n err) =
      Ret tt (buf_stream (out ++ bs) max (n + zlen bs) err) /\
    dec field dest (Dstate (bufstream (bs ++ rest) (zlen (bs ++ rest)) err') m2 loc) =
      Ret tt (Dstate (bufstream rest (zlen rest) err') m2' loc) /\
    stored m2 m2' dest w x.
Proof.
  intros lt w Hlt Hsize Hmem Hload Hmap Hn Hfit Hm Henc Hdec.
  pose proof (is_int_size_cases _ Hsize) as Hcases.
  pose proof (int_width_bounds _ Hcases) as [Hb1 Hb2].
  pose proof (load_range _ _ _ _ Hmem Hload) as Hx.
  set (W := 8 * data_size field) in *.
  assert (HW : 8 * Z.of_nat w = W) by (unfold w, W; lia). rewrite HW in Hx.
  assert (HW0 : 0 < W) by (unfold W; lia).
  pose proof (sext_range W x HW0) as Hsx. set (sx := sext W x) in *.
  assert (Hwsx : wrap W sx = x) by (unfold sx; rewrite wrap_sext, wrap_small by lia; done).
  assert (Hls : load_signed m src w = Some sx) by (unfold load_signed; by rewrite Hload, HW).
  destruct Hlt as [E|[E|E]]; rewrite E in *.
  - injection Henc as <-. injection Hdec as <-.
    assert (Hv : 0 <= u64 sx < 2 ^ 64) by (by apply wrap_range).
    assert (Hfits : fits true W sx = true) by (apply fits_spec, sext_small; lia).
    destruct (store_clamped_ok true field dest sx x (bufstream rest (zlen rest) err') m2 loc
      Hsize Hmap Hfits Hwsx) as (m2' & Hst & Hstd).
    exists (varint_bytes (u64 sx)), m2'. split; [|split; [|done]].
    + unfold pb_enc_varint. rewrite Hsize. fold w. rewrite Hls.
      apply (write_varint_run (u64 sx)); done.
    + unfold pb_dec_varint. rewrite (lift_run _ _ _ _ _ _ _ (read_varint_run (u64 sx) rest err' Hv)).
      cbv zeta. rewrite !sext_of_wrap by lia.
      replace (if data_size field =? 8 then i64 sx else i32 sx) with sx; [done|].
      destruct (Z.eqb_spec (data_size field) 8) as [E8|E8]; symmetry; apply sext_small;
        unfold W in *; try lia.
      assert (2 ^ (8 * data_size field - 1) <= 2 ^ (32 - 1)) by (apply Z.pow_le_mono_r; lia). lia.
  - injection Henc as <-. injection Hdec as <-.
    assert (Hv : 0 <= x < 2 ^ 64) by lia.
    assert (Hfits : fits false W x = true) by (apply fits_spec, wrap_small; lia).
    destruct (store_clamped_ok false field dest x x (bufstream rest (zlen rest) err') m2 loc
      Hsize Hmap Hfits (wrap_small _ _ Hx)) as (m2' & Hst & Hstd).
    exists (varint_bytes x), m2'. split; [|split; [|done]].
    + unfold pb_enc_uvarint. rewrite Hsize. fold w. rewrite Hload.
      apply (write_varint_run x); done.
    + unfold pb_dec_uvarint.
      by rewrite (lift_run _ _ _ _ _ _ _ (read_varint_run x rest err' Hv)).
  - injection Henc as <-. injection Hdec as <-.
    assert (Hv : - 2 ^ 63 <= sx < 2 ^ 63) by lia.
    assert (Hfits : fits true W sx = true) by (apply fits_spec, sext_small; lia).
    destruct (store_clamped_ok true field dest sx x (bufstream rest (zlen rest) err') m2 loc
      Hsize Hmap Hfits Hwsx) as (m2' & Hst & Hstd).
    exists (varint_bytes (zigzag sx)), m2'. split; [|split; [|done]].
    + unfold pb_enc_svarint. rewrite Hsize. fold w. rewrite Hls.
      apply (write_varint_run (zigzag sx)); try done. apply zigzag_range.
    + unfold pb_dec_svarint.
      by rewrite (lift_run _ _ _ _ _ _ _ (read_svarint_run sx rest err' Hv)).
Qed.

Lemma le_shift_width x n : 0 <= x < 2 ^ 8 -> 0 <= n -> n <= 24 -> 0 <= Z.shiftl x n < 2 ^ 32.
Proof.
  intros Hx Hn Hn2. rewrite Z.shiftl_mul_pow2 by lia. change (2 ^ 8) with 256 in Hx.
  assert (2 ^ n <= 2 ^ 24) by (apply Z.pow_le_mono_r; lia).
  pose proof (Z.pow_pos_nonneg 2 n ltac:(lia) ltac:(lia)).
  change (2 ^ 24) with 16777216 in *. change (2 ^ 32) with 4294967296. nia.
Qed.

(** C3: every scalar field survives encoding and decoding.  Take a field of any
    scalar type (bool, the integer formats at every width, fixed32, fixed64), any
    value [x] of its bytes in the source structure and room for it on the output.
    The encoder of the type's entry in [PB_ENCODERS] writes some bytes [bs]; the
    decoder of its entry in [PB_DECODERS], given [bs] followed by anything, consumes
    exactly [bs], leaves the same bytes in the destination field (a bool becomes 0
    or 1) and changes no other byte of memory. *)
Theorem scalar_roundtrip e m rec rec' depth field src dest m2 loc rest err err' out max n enc dec x :
  is_scalar field -> mem_ok m ->
  load m src (scalar_width field) = Some x -> mapped m2 dest (scalar_width field) ->
  0 <= n -> n + 10 <= max -> max < 2 ^ 63 ->
  PB_ENCODERS e m rec (PB_LTYPE (ftype field)) = Some enc ->
  PB_DECODERS e rec' depth (PB_LTYPE (ftype field)) = Some dec ->
  exists bs m2',
    enc field src (buf_stream out max n err) =
      Ret tt (buf_stream (out ++ bs) max (n + zlen bs) err) /\
    dec field dest (Dstate (bufstream (bs ++ rest) (zlen (bs ++ rest)) err') m2 loc) =
      Ret tt (Dstate (bufstream rest (zlen rest) err') m2' loc) /\
    stored m2 m2' dest (scalar_width field) (normal_value field x).
Proof.
  intros Hs Hmem Hload Hmap Hn Hfit Hm Henc Hdec. pose proof (zlen_nonneg rest).
  unfold scalar_width, normal_value in *. destruct Hs as [E|[E|[E|[E Hsz]]]].
  - rewrite E in *. cbn in Henc, Hdec. injection Henc as <-. injection Hdec as <-.
    change (PB_LTYPE_BOOL =? PB_LTYPE_BOOL) with true in *. cbv iota in *.
    set (b := if x =? 0 then 0 else 1).
    assert (Hb : 0 <= b < 2 ^ 32) by (unfold b; by destruct (x =? 0)).
    destruct (store_m_run dest 1 b b (bufstream rest (zlen rest) err') m2 loc Hmap)
      as (m2' & Hst & Hstd); [unfold b; by destruct (x =? 0)|].
    assert (Hb64 : 0 <= b < 2 ^ 64) by (unfold b; by destruct (x =? 0)).
    exists (varint_bytes b), m2'. split; [|split; [|done]].
    + unfold pb_enc_bool, safe_read_bool. rewrite Hload.
      rewrite <- (write_varint_run b out max n err); [|done..]. unfold b.
      unfold bind, of_opt, ret. by destruct (x =? 0).
    + unfold pb_dec_bool. erewrite lift_run.
      2: { apply decode_varint32_bytes; [exact Hb|rewrite zlen_app; lia]. }
      replace (zlen (varint_bytes b ++ rest) - zlen (varint_bytes b)) with (zlen rest)
        by (rewrite zlen_app; lia).
      rewrite <- Hst. unfold b. by destruct (x =? 0).
  - rewrite E in *. cbn in Henc, Hdec. injection Henc as <-. injection Hdec as <-.
    cbn in Hload, Hmap |- *. pose proof (load_range _ _ _ _ Hmem Hload) as Hx.
    destruct (store_m_run dest 4 x x (bufstream rest (zlen rest) err') m2 loc Hmap)
      as (m2' & Hst & Hstd); [by apply wrap_small|].
    exists (fixed32_bytes x), m2'. split; [|split; [|done]].
    + unfold pb_enc_fixed32. rewrite Hload.
      by apply (pb_write_local (fixed32_bytes x)); [|change (zlen (fixed32_bytes x)) with 4; lia|..].
    + unfold pb_dec_fixed32. erewrite lift_run; [exact Hst|]. by apply read_fixed32_run.
  - rewrite E in *. cbn in Henc, Hdec. injection Henc as <-. injection Hdec as <-.
    cbn in Hload, Hmap |- *. pose proof (load_range _ _ _ _ Hmem Hload) as Hx.
    destruct (store_m_run dest 8 x x (bufstream rest (zlen rest) err') m2 loc Hmap)
      as (m2' & Hst & Hstd); [by apply wrap_small|].
    exists (fixed64_bytes x), m2'. split; [|split; [|done]].
    + unfold pb_enc_fixed64. rewrite Hload.
      by apply (pb_write_local (fixed64_bytes x)); [|change (zlen (fixed64_bytes x)) with 8; lia|..].
    + unfold pb_dec_fixed64. erewrite lift_run; [exact Hst|]. by apply read_fixed64_run.
  - assert (Hw : (if PB_LTYPE (ftype field) =? PB_LTYPE_BOOL then 1%nat
       else if PB_LTYPE (ftype field) =? PB_LTYPE_FIXED32 then 4%nat
       else if PB_LTYPE (ftype field) =? PB_LTYPE_FIXED64 then 8%nat
       else Z.to_nat (data_size field)) = Z.to_nat (data_size field))
      by (destruct E as [E|[E|E]]; rewrite E; reflexivity).
    rewrite Hw in *. replace (PB_LTYPE (ftype field) =? PB_LTYPE_BOOL) with false
      by (destruct E as [E|[E|E]]; rewrite E; reflexivity).
    by eapply int_codec_roundtrip.
Qed.

Lemma scalar_roundtrip_witness :
  exists bs m2',
    pb_enc_svarint small_mem (int_field PB_LTYPE_SVARINT 2) 64 (buf_stream [] 32 0 None) =
      Ret tt (buf_stream ([] ++ bs) 32 (0 + zlen bs) None) /\
    pb_dec_svarint (int_field PB_LTYPE_SVARINT 2) 65 (Dstate (bufstream (bs ++ [9]) (zlen (bs ++ [9])) None) small_mem 0) =
      Ret tt (Dstate (bufstream [9] (zlen [9]) None) m2' 0) /\
    stored small_mem m2' 65 2 513.
Proof.
  apply (scalar_roundtrip cct_env small_mem (fun _ _ => ret tt) (fun _ _ => ret tt) 3 (int_field PB_LTYPE_SVARINT 2)
           64 65 small_mem 0 [9] None None [] 32 0 _ _ 513).
  - right; right; right. split; [right; right; reflexivity|reflexivity].
  - apply mem_ok_dec. vm_compute. reflexivity.
  - reflexivity.
  - intros [|[|i]] Hi; [by eexists|by eexists|vm_compute in Hi; lia].
  - done.
  - done.
  - done.
  - reflexivity.
  - reflexivity.
Defined.

(** ** A whole message *)

(** The decoder's state: [bs] to read, and a zeroed [LogEvent] at 4096. *)
Definition decode_state (bs : list Z) : dstate :=
  Dstate (bufstream bs (zlen bs) None) (blocks_mem [(4096, replicate 88 0)]) 0.
Definition decode_event (bs : list Z) : out dstate unit :=
  pb_decode 3 3 cct_env gdt_cct_LogEvent_fields 4096 (decode_state bs).

(** Decode, then encode the structure that the decoder built. *)
Definition reencode_event (bs : list Z) (max : Z) : option (list Z) :=
  match decode_event bs with
  | Ret _ s =>
      match pb_encode 3 cct_env (ds_mem s) gdt_cct_LogEvent_fields 4096
              (pb_ostream_from_buffer max) with
      | Ret _ o => Some (o_out o)
      | _ => None
      end
  | _ => None
  end.

Definition decode_safe (bs : list Z) : bool :=
  match decode_event bs with Ret _ _ | Fail _ => true | _ => false end.

(** [event_bytes] with byte [i] replaced. *)
Definition corrupt (i : nat) (b : Z) : list Z := <[i := b]> event_bytes.

(** A whole log event survives the wire: decoding the bytes that [pb_encode]
    wrote for [gdt_cct_LogEvent] (static and pointer fields, a submessage, zig-zag
    and plain varints) gives a structure that encodes to the same bytes; and on
    every corruption of one byte of it (all 20 positions, all 256 values) and on
    every truncation the decoder returns [true] or [false], never touching memory
    outside the structure, the heap and the input, nor running past its bounds. *)
Theorem log_event_decoding :
  reencode_event event_bytes 64 = Some event_bytes /\
  (forall i b, (i < 20)%nat -> 0 <= b < 256 -> decode_safe (corrupt i b) = true) /\
  (forall k, (k < 20)%nat -> decode_safe (take k event_bytes) = true).
Proof.
  split; [vm_compute; reflexivity|]. split.
  - assert (H : forallb (fun i => forallb (fun b => decode_safe (corrupt i (Z.of_nat b))) (seq 0 256))
                  (seq 0 20) = true) by (vm_compute; reflexivity).
    intros i b Hi Hb. rewrite forallb_forall in H. specialize (H i ltac:(apply in_seq; lia)).
    rewrite forallb_forall in H. specialize (H (Z.to_nat b) ltac:(apply in_seq; lia)).
    by rewrite Z2Nat.id in H by lia.
  - assert (H : forallb (fun k => decode_safe (take k event_bytes)) (seq 0 20) = true)
      by (vm_compute; reflexivity).
    intros k Hk. rewrite forallb_forall in H. apply H, in_seq. lia.
Qed.
