(* ===== verification/PbTotal.v ===== *)
(** * nanopb decoder: the recursion bounds are never reached

    [total f s Q] says that the run of [f] from [s] ends within the model's bounds:
    it returns with [Q], fails, or is undefined behaviour, and in the first two cases
    the input stream is still well formed and has not grown.  Every reader and every
    field decoder is shown total, the loops by the bytes they consume, so that
    decoding any input into a message of non-recursive type terminates. *)
From S2P Require Import Prelude Mem PbIstream PbOstream PbField PbDecode PbMessage PbIter.

(** ** Input streams *)

(** What a stream hands out are bytes. *)
Definition stream_ok (s : istream) : Prop :=
  0 <= i_bytes_left s /\
  match i_callback s with
  | cb_buf_read => bytes_ok (i_state s)
  | cb_user_read f => forall st n, bytes_ok (f st n).1.2
  end.

(** The stream [s'] is what is left of [s]. *)
Definition after (s s' : istream) : Prop :=
  stream_ok s' /\ i_callback s' = i_callback s /\ i_bytes_left s' <= i_bytes_left s.

(** The state of a computation has an input stream in it. *)
Class HasStream (S : Type) : Type := stream_of : S -> istream.
#[export] Instance istream_stream : HasStream istream := fun s => s.
#[export] Instance dstate_stream : HasStream dstate := ds_in.

Definition total {S A} `{HasStream S} (f : M S A) (s : S) (Q : A -> S -> Prop) : Prop :=
  stream_ok (stream_of s) ->
  match f s with
  | Ret a s' => after (stream_of s) (stream_of s') /\ Q a s'
  | Fail s' => after (stream_of s) (stream_of s')
  | Ub => True
  | NoFuel => False
  end.

Definition left {S} `{HasStream S} (s : S) : Z := i_bytes_left (stream_of s).

Lemma after_refl s : stream_ok s -> after s s.
Proof. unfold after. auto with lia. Qed.
Lemma after_trans a b c : after a b -> after b c -> after a c.
Proof. unfold after. intros (? & ? & ?) (? & ? & ?). split; [done|]. split; [congruence|lia]. Qed.

Section Rules.
Context {S : Type} `{HasStream S}.

Lemma total_ret {A} (a : A) s (Q : A -> S -> Prop) : Q a s -> total (ret a) s Q.
Proof. intros HQ Hok. split; [by apply after_refl|done]. Qed.

Lemma total_fail {A} s (Q : A -> S -> Prop) : total failm s Q.
Proof. intros Hok. by apply after_refl. Qed.

Lemma total_ub {A} s (Q : A -> S -> Prop) : total ubm s Q.
Proof. done. Qed.

Lemma total_of_opt {A} (o : option A) s (Q : A -> S -> Prop) :
  (forall a, o = Some a -> Q a s) -> total (of_opt o) s Q.
Proof.
  intros HQ Hok. unfold of_opt. destruct o; [|done]. split; [by apply after_refl|by apply HQ].
Qed.

Lemma total_get s (Q : S -> S -> Prop) : Q s s -> total getm s Q.
Proof. intros HQ Hok. split; [by apply after_refl|done]. Qed.

Lemma total_bind {A B} (f : M S A) (k : A -> M S B) s Q1 Q2 :
  total f s Q1 ->
  (forall a s1, Q1 a s1 -> left s1 <= left s -> total (k a) s1 Q2) ->
  total (bind f k) s Q2.
Proof.
  intros Hf Hk Hok. specialize (Hf Hok). unfold bind. destruct (f s) as [a s1|s1| |]; try done.
  destruct Hf as [Ha HQ]. specialize (Hk a s1 HQ (proj2 (proj2 Ha)) (proj1 Ha)).
  destruct (k a s1) as [b s2|s2| |]; try done.
  - destruct Hk as [Hb HQ2]. split; [by eapply after_trans|done].
  - by eapply after_trans.
Qed.

Lemma total_mono {A} (f : M S A) s (Q1 Q2 : A -> S -> Prop) :
  total f s Q1 -> (forall a s1, Q1 a s1 -> left s1 <= left s -> Q2 a s1) -> total f s Q2.
Proof.
  intros Hf HQ Hok. specialize (Hf Hok). destruct (f s); try done.
  destruct Hf as [Ha HQ1]. split; [done|]. apply HQ; [done|apply Ha].
Qed.

(** The callback of the stream does not change. *)
Lemma total_cb {A} (f : M S A) s (Q : A -> S -> Prop) : total f s Q ->
  total f s (fun a s1 => Q a s1 /\ i_callback (stream_of s1) = i_callback (stream_of s)).
Proof.
  intros Hf Hok. specialize (Hf Hok). destruct (f s); try done.
  destruct Hf as [Ha HQ]. split; [done|]. split; [done|apply Ha].
Qed.

Lemma total_tryb {A} (f : M S A) s (Q : A -> S -> Prop) :
  total f s Q ->
  total (tryb f) s (fun o s1 => match o with Some a => Q a s1 | None => True end).
Proof. intros Hf Hok. specialize (Hf Hok). unfold tryb. by destruct (f s). Qed.
End Rules.

Abbreviation any := (fun _ _ => True).

Lemma total_set_error {A} msg s (Q : A -> istream -> Prop) : total (PB_RETURN_ERROR msg) s Q.
Proof. intros Hok. destruct s. split; [done|]. split; [done|]. cbn. lia. Qed.

Lemma total_read n s : 0 <= n ->
  total (pb_read n) s (fun bs s1 => bytes_ok bs /\ left s1 + n <= left s).
Proof.
  intros Hn Hok. unfold pb_read. destruct (Z.eqb_spec n 0) as [->|Hn0].
  { split; [by apply after_refl|]. split; [constructor|unfold left; lia]. }
  unfold bind, getm, tryb, call_icallback. destruct (Z.ltb_spec (i_bytes_left s) n) as [Hlt|Hge].
  { by apply (total_set_error (A := Z) "end-of-stream" s any). }
  destruct Hok as [H0 Hcb]. destruct s as [cb st l err]. cbn [i_callback i_state i_bytes_left] in *.
  cbn in H0, Hcb, Hge. destruct cb as [|f].
  - unfold buf_read. cbn. destruct (Z.ltb_spec (zlen st) n); [done|].
    assert (Hok : bytes_ok (zdrop n st) /\ bytes_ok (ztake n st)).
    { rewrite <- (ztake_zdrop n st) in Hcb. by apply Forall_app in Hcb as [? ?]. }
    destruct Hok as [Hd Ht]. split; [|split; [done|unfold left; cbn; lia]].
    split; [|split; [done|cbn; lia]]. split; [cbn; lia|done].
  - specialize (Hcb st n) as Hb. destruct (f st n) as [[ok bs] st'] eqn:Ef. destruct ok; cbn.
    + split; [|split; [done|unfold left; cbn; lia]].
      split; [|split; [done|cbn; lia]]. split; [cbn; lia|done].
    + split; [|split; [done|cbn; lia]]. split; [cbn; lia|done].
Qed.

(** ** Automation: one step of a computation, by the shape of its head *)

Create HintDb totals.
#[export] Hint Resolve total_fail total_ub total_set_error : totals.

Ltac tot_step :=
  match goal with
  | |- total (bind getm _) ?s _ =>
      eapply (total_bind getm _ s (fun a s1 => a = s /\ s1 = s));
      [apply total_get; done|intros ? ? [-> ->] _]
  | |- total (bind (ret ?a) _) ?s _ =>
      eapply (total_bind (ret a) _ s (fun b s1 => b = a /\ s1 = s));
      [apply total_ret; done|intros ? ? [-> ->] _]
  | |- total (ret _) _ _ => apply total_ret
  | |- total (bind (of_opt _) _) ?s _ =>
      eapply (total_bind _ _ s (fun _ s1 => s1 = s)); [apply total_of_opt; done|intros ? ? -> _]
  | |- total (of_opt _) _ _ => apply total_of_opt; intros ? ?
  | |- total (if ?b then _ else _) _ _ => let E := fresh "E" in destruct b eqn:E
  | |- total _ _ _ => solve [eauto with totals]
  end.
(** The first part of a sequence, by its lemma. *)
Ltac tot_bind L := eapply total_bind; [apply L|].

(** ** The readers of PbIstream *)

Lemma total_readbyte s :
  total pb_readbyte s (fun b s1 => is_byte b /\ left s1 + 1 <= left s).
Proof.
  intros Hok. pose proof (total_read 1 s ltac:(lia) Hok) as Hr. revert Hr.
  unfold pb_readbyte, pb_read, bind, getm. change (1 =? 0) with false.
  destruct Hok as [H0 _]. change (0 <= i_bytes_left s) in H0.
  destruct (Z.eqb_spec (i_bytes_left s) 0) as [E|E].
  - bool_true (i_bytes_left s <? 1). done.
  - bool_false (i_bytes_left s <? 1). destruct (tryb (call_icallback 1) s) as [[bs|] s1|s1| |]; try done.
    intros [Ha [Hb Hl]]. cbn. destruct bs as [|b bs]; [done|]. cbn.
    split; [done|]. split; [by inversion Hb|done].
Qed.

(** A loop's bound: more rounds than there are bytes left. *)
Abbreviation rounds s fuel := (left s < Z.of_nat fuel).

Lemma rounds_enough {S} `{HasStream S} (s : S) : rounds s (Datatypes.S (Z.to_nat (left s))).
Proof. lia. Qed.

Lemma nonneg_land a b : 0 <= b -> 0 <= Z.land a b.
Proof. intros. apply Z.land_nonneg. by right. Qed.
Lemma nonneg_lor a b : 0 <= a -> 0 <= b -> 0 <= Z.lor a b.
Proof. intros. by apply Z.lor_nonneg. Qed.
Lemma total_varint32_loop fuel : forall bitpos result s, rounds s fuel -> 0 <= left s -> 0 <= result < 2 ^ 32 ->
  total (varint32_loop fuel bitpos result) s
    (fun p s1 => 0 <= p.1.1 < 2 ^ 32 /\ left s1 + 1 <= left s).
Proof.
  induction fuel as [|fuel IH]; intros bitpos result s Hf H0 Hr; [lia|]. cbn [varint32_loop].
  tot_bind total_readbyte. intros b s1 [Hb Hl] _.
  eapply (total_bind _ _ s1 (fun r s2 => 0 <= r < 2 ^ 32 /\ s2 = s1)).
  - repeat tot_step; (split; [|done]); [done|].
    apply lor_range; [done|done|]. by apply wrap_range.
  - intros r s2 [Hr2 ->] _. tot_step.
    + intros Hok. eapply total_mono; [apply IH; [lia|apply Hok|done]| |done].
      intros p s2 [Hp Hl2] _. split; [done|lia].
    + tot_step. done.
Qed.

Lemma total_varint32_eof s : total pb_decode_varint32_eof s
  (fun r s1 => match r.1 with Some v => 0 <= v < 2 ^ 32 /\ left s1 + 1 <= left s | None => True end).
Proof.
  unfold pb_decode_varint32_eof. eapply total_bind; [apply total_tryb, total_readbyte|].
  intros [b|] s1 Hb _; [|by repeat tot_step]. destruct Hb as [Hb Hl].
  eapply total_bind; [apply (total_tryb _ s1 (fun v s2 => 0 <= v < 2 ^ 32))|].
  - change (2 ^ 32) with 4294967296. tot_step; [tot_step; unfold is_byte in Hb; lia|].
    assert (Hb7 : 0 <= Z.land b 0x7F < 128).
    { rewrite (land_mask_mod _ 7) by done. by apply Z.mod_pos_bound. } unfold varint32_multibyte. tot_step.
    intros Hok. revert Hok. eapply total_bind.
    { intros Hok. apply (total_varint32_loop _ _ _ s1 (rounds_enough s1)); [apply Hok| |done].
      change (2 ^ 32) with 4294967296. lia. }
    intros [[r bp] last] s2 [Hr _] _. by repeat tot_step.
  - intros [v|] s2 Hv Hl2; tot_step; cbn; [|done]. split; [done|lia].
Qed.

Lemma total_varint32 s :
  total pb_decode_varint32 s (fun v s1 => 0 <= v < 2 ^ 32 /\ left s1 + 1 <= left s).
Proof.
  unfold pb_decode_varint32. tot_bind total_varint32_eof.
  intros [[v|] eof] s1 Hv _; cbn in *; by repeat tot_step.
Qed.

Lemma total_varint_loop fuel : forall bitpos result s, 0 <= bitpos <= 70 ->
  77 <= bitpos + 7 * Z.of_nat fuel ->
  total (decode_varint_loop fuel bitpos result) s (fun _ s1 => left s1 + 1 <= left s).
Proof.
  induction fuel as [|fuel IH]; intros bitpos result s Hb Hf; [lia|]. cbn [decode_varint_loop].
  tot_step; [tot_step|]. apply Z.leb_gt in E. tot_bind total_readbyte. intros b s1 [_ Hl] _. tot_step.
  - rewrite wrap_small by (change (2 ^ 8) with 256; lia).
    eapply total_mono; [apply IH; lia|]. intros. lia.
  - by tot_step.
Qed.

Lemma total_varint s : total pb_decode_varint s (fun _ s1 => left s1 + 1 <= left s).
Proof. apply total_varint_loop; lia. Qed.

Lemma total_svarint s : total pb_decode_svarint s (fun _ s1 => left s1 + 1 <= left s).
Proof.
  unfold pb_decode_svarint. tot_bind total_varint. intros v s1 Hl _. by repeat tot_step.
Qed.

Lemma total_fixed32 s : total pb_decode_fixed32 s (fun _ s1 => left s1 + 4 <= left s).
Proof.
  unfold pb_decode_fixed32. eapply total_bind; [apply total_read; lia|].
  intros v s1 [_ Hl] _. by tot_step.
Qed.

Lemma total_fixed64 s : total pb_decode_fixed64 s (fun _ s1 => left s1 + 8 <= left s).
Proof.
  unfold pb_decode_fixed64. eapply total_bind; [apply total_read; lia|].
  intros v s1 [_ Hl] _. by tot_step.
Qed.

Lemma total_tag s : total pb_decode_tag s
  (fun r s1 => match r.1 with Some p => 0 <= p.2 < 2 ^ 29 /\ left s1 + 1 <= left s
                            | None => True end).
Proof.
  unfold pb_decode_tag. tot_bind total_varint32_eof. intros [[t|] eof] s1 Hv _; cbn in Hv.
  - repeat tot_step; [done|]. cbn. destruct Hv as [Hv Hl]. split; [|done].
    rewrite shiftr_div by done. change (2 ^ 32) with 4294967296 in Hv.
    change (2 ^ 29) with 536870912. change (2 ^ 3) with 8. Z.to_euclidean_division_equations; lia.
  - by tot_step.
Qed.

Lemma total_skip_loop fuel : forall count s, 0 <= count < 16 * Z.of_nat fuel ->
  total (pb_read_skip_loop fuel count) s any.
Proof.
  induction fuel as [|fuel IH]; intros count s Hc; [lia|]. cbn [pb_read_skip_loop]. tot_step.
  - apply Z.ltb_lt in E. eapply total_bind; [apply total_read; lia|]. intros. apply IH. lia.
  - eapply total_bind; [apply total_read; lia|]. intros. by tot_step.
Qed.

Lemma total_read_null count s : 0 <= count -> total (pb_read_null count) s any.
Proof.
  intros Hc. unfold pb_read_null. tot_step; [by tot_step|]. tot_step. destruct (i_callback s).
  - eapply total_bind; [apply total_read; lia|]. intros. by tot_step.
  - apply total_skip_loop. pose proof (Z.div_mod count 16 ltac:(lia)).
    pose proof (Z.mod_pos_bound count 16 ltac:(lia)). assert (0 <= count / 16) by (apply Z.div_pos; lia).
    lia.
Qed.

Lemma total_skip_varint_loop fuel : forall s, rounds s fuel -> 0 <= left s ->
  total (skip_varint_loop fuel) s any.
Proof.
  induction fuel as [|fuel IH]; intros s Hf H0; [lia|]. cbn [skip_varint_loop].
  eapply total_bind; [by apply (total_read 1)|]. intros bs s1 [_ Hl] _. tot_step. tot_step.
  - intros Hok. apply IH; [lia|apply Hok|done].
  - by tot_step.
Qed.

Lemma total_skip_field wt s : total (pb_skip_field wt) s any.
Proof.
  unfold pb_skip_field. repeat tot_step.
  - unfold pb_skip_varint. tot_step. intros Hok.
    apply total_skip_varint_loop; [apply rounds_enough|apply Hok|done].
  - by apply total_read_null.
  - unfold pb_skip_string. tot_bind total_varint32. intros n s1 [[Hn _] _] _. by apply total_read_null.
  - by apply total_read_null.
Qed.

Lemma total_raw_varint fuel : forall size max acc s, size <= max -> max - size < Z.of_nat fuel ->
  total (read_raw_varint fuel size max acc) s (fun bs _ => bytes_ok acc -> bytes_ok bs).
Proof.
  induction fuel as [|fuel IH]; intros size max acc s Hm Hf; cbn [read_raw_varint]; [lia|].
  tot_step; [tot_step|]. apply Z.ltb_ge in E.
  eapply total_bind; [by apply (total_read 1)|]. intros bs s1 [Hb _] _.
  eapply (total_bind _ _ s1 (fun b _ => is_byte b)).
  - tot_step. destruct bs as [|b0 bs]; [done|]. cbn in *. by inversion Hb; simplify_eq.
  - intros b s2 Hb2 _.
    assert (Hacc : bytes_ok acc -> bytes_ok (acc ++ [b]))
      by (intros; apply Forall_app; split; [done|by constructor]).
    tot_step; [|by tot_step]. eapply total_mono; [apply IH; lia|]. auto.
Qed.

Lemma total_raw_value wt s : total (read_raw_value wt 10) s (fun bs _ => bytes_ok bs).
Proof.
  unfold read_raw_value. repeat tot_step.
  - eapply total_mono; [apply total_raw_varint; lia|]. intros bs s1 Hb _. apply Hb. constructor.
  - eapply total_mono; [apply total_read; lia|]. by intros ? ? [].
  - eapply total_mono; [apply total_read; lia|]. by intros ? ? [].
Qed.

(** A substream is a stream of its own, within the bytes its parent gives up. *)
Lemma total_make_substream s : total pb_make_string_substream s
  (fun sub s1 => stream_ok sub /\ i_callback sub = i_callback s1 /\
                 left sub + left s1 + 1 <= left s).
Proof.
  unfold pb_make_string_substream. tot_bind total_varint32. intros n s1 [[Hn _] Hl] Hl1. tot_step.
  destruct (i_bytes_left s1 <? n) eqn:E; [tot_step|]. apply Z.ltb_ge in E.
  intros [H0 Hcb]. destruct s1 as [cb st l err]. cbn in *. change (0 <= l) in H0.
  split; [split; [split; [cbn; lia|done]|split; [done|cbn; lia]]|].
  split; [split; [done|done]|]. split; [done|]. unfold left in *. cbn in *. lia.
Qed.

Lemma total_close sub s : stream_ok sub -> i_callback sub = i_callback s ->
  total (pb_close_string_substream sub) s (fun _ s1 => left s1 = left s).
Proof.
  intros Hsub Hcb Hok. unfold pb_close_string_substream.
  assert (Hr : total (if i_bytes_left sub =? 0 then ret tt else pb_read_null (i_bytes_left sub)) sub any).
  { tot_step; [by tot_step|]. apply total_read_null, Hsub. }
  specialize (Hr Hsub). revert Hr.
  match goal with |- match ?r with _ => _ end -> _ => destruct r as [[] sub'|sub'| |] end;
    intros Hr; try done.
  destruct Hr as [(Hs & Hc & _) _]. destruct s as [cb st l err]. cbn in Hcb |- *.
  assert (Hok' : stream_ok (close_with sub' (Istream cb st l err))).
  { split; [apply Hok|]. destruct Hs as [_ Hs]. destruct sub' as [cb' st' l' err'].
    change (cb' = i_callback sub) in Hc. rewrite Hcb in Hc. by rewrite Hc in Hs. }
  split; [|done]. split; [done|]. split; [done|]. cbn. lia.
Qed.
