(* ===== verification/PbTerminate.v ===== *)
(** * nanopb decoder: decoding terminates

    The field decoders, the decoding of fields and [pb_decode] are [total] (see
    PbTotal.v) for messages whose descriptors nest to a finite depth. *)
From S2P Require Import Prelude Mem PbIstream PbOstream PbField PbDecode PbMessage.
From S2P Require Import PbLayout PbIter PbTotal PbEncodeSpec PbRoundtrip.

(** ** The state of the decoder *)

Lemma total_lift {A} (f : M istream A) (s : dstate) Q :
  total f (ds_in s) Q -> total (lift f) s (fun a s1 => Q a (ds_in s1)).
Proof. intros Hf Hok. specialize (Hf Hok). unfold lift. by destruct (f (ds_in s)). Qed.

Lemma total_error {A} msg (s : dstate) (Q : A -> dstate -> Prop) : total (DRETURN_ERROR msg) s Q.
Proof.
  unfold DRETURN_ERROR. eapply total_mono; [apply total_lift, (total_set_error msg _ (fun _ _ => False))|].
  done.
Qed.
#[export] Hint Resolve total_error : totals.

Lemma total_upd_mem f (s : dstate) : total (upd_mem f) s any.
Proof.
  intros Hok. unfold upd_mem, getm, putm, of_opt, bind. destruct (f (ds_mem s)); [|done].
  split; [by apply after_refl|done].
Qed.
Lemma total_load_m a n (s : dstate) : total (load_m a n) s any.
Proof. unfold load_m. by repeat tot_step. Qed.
Lemma total_read_size a (s : dstate) : total (read_size a) s any.
Proof. unfold read_size. repeat tot_step; [done|apply total_load_m]. Qed.
Lemma total_write_size a v (s : dstate) : total (write_size a v) s any.
Proof.
  unfold write_size. tot_step; [|apply total_upd_mem].
  intros Hok. split; [by apply after_refl|done].
Qed.
Lemma total_bytes_left (s : dstate) : total bytes_left_m s (fun n s1 => n = left s /\ left s1 = left s).
Proof. unfold bytes_left_m. by repeat tot_step. Qed.
Lemma total_status r (s : dstate) : total (status_of r) s any.
Proof. destruct r; [by apply total_ret|apply total_fail]. Qed.

#[export] Hint Resolve total_upd_mem total_load_m total_read_size total_write_size total_status : totals.
#[export] Hint Extern 1 (total (store_m _ _ _) _ _) => apply total_upd_mem : totals.
#[export] Hint Extern 1 (total (store_ptr _ _) _ _) => apply total_upd_mem : totals.
#[export] Hint Extern 1 (total (memset0_m _ _) _ _) => apply total_upd_mem : totals.
#[export] Hint Extern 1 (total (free_m _) _ _) => apply total_upd_mem : totals.
#[export] Hint Extern 1 (total (load_ptr _) _ _) => apply total_load_m : totals.

(** A computation that is total with no more to say: its steps one by one. *)
Ltac tot_mem :=
  repeat (cbv beta zeta; match goal with
  | |- total (bind (if _ then _ else _) _) _ _ =>
      eapply (total_bind _ _ _ any); [|intros ? ? _ ?]
  | |- total (bind _ _) _ _ => first
      [ progress tot_step
      | eapply (total_bind _ _ _ any); [solve [eauto with totals]|intros ? ? _ ?] ]
  | |- total (if _ then _ else _) _ _ => tot_step
  | |- total (let '(_, _) := ?p in _) _ _ => destruct p
  | |- total _ _ any => solve [eauto with totals | by tot_step]
  end).

Lemma total_on_substream {A} sub (f : M dstate A) (s : dstate) Q :
  stream_ok sub ->
  (forall s0, ds_in s0 = sub -> total f s0 Q) ->
  total (on_substream sub f) s
    (fun r s1 => ds_in s1 = ds_in s /\ after sub r.2 /\
       match r.1 with Some a => exists s2, ds_in s2 = r.2 /\ Q a s2 | None => True end).
Proof.
  intros Hsub Hf Hok. unfold on_substream.
  specialize (Hf (Dstate sub (ds_mem s) (ds_local s)) eq_refl Hsub). revert Hf.
  destruct (f (Dstate sub (ds_mem s) (ds_local s))) as [a s'|s'| |]; intros Hf; try done.
  destruct Hf as [Ha HQ]. split; [by apply after_refl|]. split; [done|]. split; [done|].
  by exists s'.
Qed.

Lemma total_read_into dest n (s : dstate) : 0 <= n ->
  total (read_into dest n) s (fun _ s1 => left s1 + n <= left s).
Proof.
  intros Hn Hok. revert Hok. unfold read_into.
  eapply total_bind; [apply total_lift, total_read, Hn|]. intros bs s1 [_ Hl] _.
  change (left s1 + n <= left s) in Hl.
  eapply total_mono; [apply total_upd_mem|]. intros. lia.
Qed.

(** ** Scalar decoders consume at least one byte *)

Definition consumes (f : M dstate unit) : Prop :=
  forall s, total f s (fun _ s1 => left s1 + 1 <= left s).

Lemma consumes_then {A} (f : M istream A) (k : A -> M dstate unit) :
  (forall s, total f s (fun _ s1 => left s1 + 1 <= left s)) ->
  (forall a s, total (k a) s any) -> consumes (bind (lift f) k).
Proof.
  intros Hf Hk s. eapply total_bind; [apply total_lift, Hf|]. intros a s1 Hl _.
  eapply total_mono; [apply Hk|]. intros _ s2 _ Hl2. change (left s1 + 1 <= left s) in Hl. lia.
Qed.

Lemma total_clamped signed field dest v (s : dstate) :
  total (store_clamped signed field dest v) s any.
Proof. unfold store_clamped. tot_mem. Qed.
#[export] Hint Resolve total_clamped : totals.

Lemma total_put s' (s : dstate) : ds_in s' = ds_in s -> total (putm s') s any.
Proof. intros E Hok. split; [|done]. change (after (ds_in s) (ds_in s')). rewrite E. by apply after_refl. Qed.
#[export] Hint Extern 1 (total (putm _) _ _) => apply total_put; reflexivity : totals.

Lemma scalar_consumes e rec depth ltype f : 0 <= ltype <= PB_LTYPE_LAST_PACKABLE ->
  PB_DECODERS e rec depth ltype = Some f -> forall field dest, consumes (f field dest).
Proof.
  change PB_LTYPE_LAST_PACKABLE with 5. intros Hl Hf field dest.
  assert (ltype = 0 \/ ltype = 1 \/ ltype = 2 \/ ltype = 3 \/ ltype = 4 \/ ltype = 5)
    as [E|[E|[E|[E|[E|E]]]]] by lia; rewrite E in Hf; injection Hf as <-.
  - apply consumes_then; [|intros; tot_mem].
    intros s. eapply total_mono; [apply total_varint32|]. by intros ? ? [].
  - apply consumes_then; [apply total_varint|intros; tot_mem].
  - apply consumes_then; [apply total_varint|intros; tot_mem].
  - apply consumes_then; [apply total_svarint|intros; tot_mem].
  - apply consumes_then; [|intros; tot_mem].
    intros s. eapply total_mono; [apply total_fixed32|]. intros ? ? Hl1 _. cbn beta in Hl1. lia.
  - apply consumes_then; [|intros; tot_mem].
    intros s. eapply total_mono; [apply total_fixed64|]. intros ? ? Hl1 _. cbn beta in Hl1. lia.
Qed.

Lemma consumes_total f s : consumes f -> total f s any.
Proof. intros Hf. by eapply total_mono. Qed.

Lemma total_allocate e data dsize asize (s : dstate) : total (allocate_field e data dsize asize) s any.
Proof. unfold allocate_field. tot_mem. Qed.
#[export] Hint Resolve total_allocate : totals.

Lemma total_alloc_dest e field dest size alloc_size msg (s : dstate) :
  total (alloc_dest e field dest size alloc_size msg) s any.
Proof.
  unfold alloc_dest. tot_mem. eapply total_bind; [apply total_bytes_left|]. intros ? ? _ _. tot_mem.
Qed.
#[export] Hint Resolve total_alloc_dest : totals.

Lemma total_read_into_any dest n (s : dstate) : 0 <= n -> total (read_into dest n) s any.
Proof. intros Hn. by eapply total_mono; [apply total_read_into|]. Qed.

Lemma total_lift_varint32 (s : dstate) : total (lift pb_decode_varint32) s (fun v _ => 0 <= v).
Proof. eapply total_mono; [apply total_lift, total_varint32|]. by intros v s1 [[? _] _]. Qed.

Lemma total_dec_bytes e field dest (s : dstate) : total (pb_dec_bytes e field dest) s any.
Proof.
  unfold pb_dec_bytes. tot_bind total_lift_varint32. intros n s1 Hn _. tot_mem.
  by apply total_read_into_any.
Qed.

Lemma total_dec_string e field dest (s : dstate) : total (pb_dec_string e field dest) s any.
Proof.
  unfold pb_dec_string. tot_bind total_lift_varint32. intros n s1 Hn _. tot_mem.
  eapply total_bind; [apply total_tryb; by apply total_read_into_any|]. intros r s3 _ _. tot_mem.
Qed.

Lemma total_dec_fixed_bytes field dest (s : dstate) : total (pb_dec_fixed_length_bytes field dest) s any.
Proof.
  unfold pb_dec_fixed_length_bytes. tot_bind total_lift_varint32. intros n s1 Hn _. tot_mem.
  apply negb_false_iff, Z.eqb_eq in E1. rewrite <- E1. by apply total_read_into_any.
Qed.

(** ** Messages of non-recursive type *)

(** Every submessage descriptor reached from the field satisfies [sub]. *)
Definition field_fits (e : env) (sub : list pb_field -> Prop) (f : pb_field) : Prop :=
  PB_LTYPE (ftype f) <> PB_LTYPE_EXTENSION /\
  forall fields, submsg_fields e (ptr f) = Some fields -> sub fields.

(** The descriptors nest to depth [n], and none is an extension field. *)
Fixpoint nests (e : env) (n : nat) (fields : list pb_field) : Prop :=
  Forall (fun f => tag f <> 0 /\
    field_fits e match n with O => fun _ => False | S k => nests e k end f) fields.

Definition nests_below (e : env) (n : nat) : list pb_field -> Prop :=
  match n with O => fun _ => False | S k => nests e k end.

Lemma nests_fields e n fields : nests e n fields ->
  Forall (fun f => tag f <> 0) fields /\ Forall (field_fits e (nests_below e n)) fields.
Proof.
  intros H. assert (H' : Forall (fun f => tag f <> 0 /\ field_fits e (nests_below e n) f) fields)
    by by destruct n.
  split; eapply Forall_impl; try exact H'; by intros f [? ?].
Qed.

(** The iterator is within the fields; an empty message has one position. *)
Definition at_fields (fields : list pb_field) (it : pb_field_iter) : Prop :=
  it_start it = fields /\ ((it_pos it < length fields)%nat \/ (fields = [] /\ it_pos it = 0%nat)).

Lemma last_field_fits e sub : field_fits e sub PB_LAST_FIELD.
Proof. by split. Qed.

Lemma pos_fits e sub fields it : Forall (field_fits e sub) fields -> at_fields fields it ->
  field_fits e sub (pos it).
Proof.
  intros Hf [Hs Hp]. unfold pos. rewrite Hs. destruct Hp as [Hp|[Hp _]].
  - destruct (lookup_lt_is_Some_2 _ _ Hp) as [f Hf']. rewrite (field_at_lookup _ _ _ Hf').
    by eapply Forall_lookup_1.
  - rewrite Hp, field_at_end by (cbn; lia). apply last_field_fits.
Qed.

Lemma begin_at_fields fields dest : at_fields fields (pb_field_iter_begin fields dest).2.
Proof.
  destruct (iter_begin_pos fields dest) as (Hs & Hp & _). split; [done|]. rewrite Hp.
  destruct fields; [by right|left; cbn; lia].
Qed.

Lemma find_at_fields fields found it :
  Forall (fun f => tag f <> 0) fields -> at_fields fields it ->
  exists b it', iter_find_loop (iter_fuel it) it (it_pos it) found = Some (b, it') /\
    at_fields fields it' /\ (b = true -> found (pos it') = true).
Proof.
  intros Ht [Hs Hp]. unfold iter_fuel. rewrite Hs. destruct Hp as [Hp|[Hp Hp0]].
  - destruct (find_loop_spec found (it_pos it) (length fields) fields eq_refl Ht Hp
      (S (length fields)) 0 it) as (b & it' & -> & Hs' & Hp' & Hb);
      [lia..|done|by rewrite Nat.add_0_r, Nat.mod_small|].
    exists b, it'. split; [done|]. split; [split; [done|by left]|]. by destruct b.
  - rewrite Hp. cbn [length iter_find_loop]. destruct (found (pos it)) eqn:Ef.
    + exists true, it. split; [done|]. split; [|done]. split; [congruence|by right].
    + exists false, it. unfold pb_field_iter_next, pos. rewrite Hs, Hp, field_at_end by (cbn; lia).
      change (tag PB_LAST_FIELD =? 0) with true. cbn [snd]. rewrite Nat.eqb_refl.
      split; [done|]. split; [|done]. split; [congruence|by right].
Qed.

Lemma next_at_fields fields it : Forall (fun f => tag f <> 0) fields -> at_fields fields it ->
  at_fields fields (pb_field_iter_next it).2 /\
  ((pb_field_iter_next it).1 = true ->
   it_pos (pb_field_iter_next it).2 = S (it_pos it) /\ (S (it_pos it) < length fields)%nat).
Proof.
  intros Ht [Hs Hp]. destruct Hp as [Hp|[Hp Hp0]].
  - destruct (lookup_lt_is_Some_2 _ _ Hp) as [f Hf].
    pose proof (Forall_lookup_1 _ _ _ _ Ht Hf) as Hf0.
    destruct (Nat.lt_ge_cases (S (it_pos it)) (length fields)) as [H|H].
    + destruct (lookup_lt_is_Some_2 _ _ H) as [g Hg].
      rewrite (iter_next_inside it f g) by
        (rewrite ?Hs; done || exact (Forall_lookup_1 _ _ _ _ Ht Hg)).
      destruct (same_union f g); cbn; (split; [split; [done|by left]|done]).
    + rewrite (iter_next_last it f) by (rewrite ?Hs; done || lia).
      split; [rewrite Hs; apply begin_at_fields|done].
  - unfold pb_field_iter_next, pos. rewrite Hs, Hp, field_at_end by (cbn; lia).
    change (tag PB_LAST_FIELD =? 0) with true. split; [|done]. split; [cbn; congruence|by right].
Qed.

Lemma total_for_fields fields body : Forall (fun f => tag f <> 0) fields ->
  (forall it s, at_fields fields it -> total (body it) s any) ->
  forall fuel it s, at_fields fields it -> (length fields < it_pos it + fuel)%nat ->
  total (for_fields fuel it body) s any.
Proof.
  intros Ht Hbody. induction fuel as [|fuel IH]; intros it s Hat Hf.
  - destruct Hat as [_ [H|[-> H]]]; [lia|]. cbn in Hf. lia.
  - cbn [for_fields]. eapply total_bind; [by apply Hbody|]. intros _ s1 _ _.
    destruct (next_at_fields fields it Ht Hat) as [Hat' Hmore].
    destruct (pb_field_iter_next it) as [[] it']; [|by tot_step].
    destruct (Hmore eq_refl) as [Hp _]. cbn in Hp, Hat'. apply IH; [done|lia].
Qed.

(** ** Defaults and releases *)

Section Structures.
Context (e : env) (fields : list pb_field) (sub : list pb_field -> Prop).
Context (Htags : Forall (fun f => tag f <> 0) fields) (Hfits : Forall (field_fits e sub) fields).

Lemma total_set_defaults_step field_rec dest s :
  (forall it s, at_fields fields it -> total (field_rec it) s any) ->
  total (message_set_to_defaults_step field_rec fields dest) s any.
Proof.
  intros Hrec. unfold message_set_to_defaults_step.
  pose proof (begin_at_fields fields dest) as Hat.
  destruct (iter_begin_pos fields dest) as (Hs & Hp & _).
  destruct (pb_field_iter_begin fields dest) as [[] it]; [|by tot_step]. cbn [snd] in *.
  apply (total_for_fields fields); [done..|]. unfold iter_fuel. rewrite Hs, Hp. lia.
Qed.

Lemma total_field_default_step message_rec field_rec it s :
  (forall fields dest s, sub fields -> total (message_rec fields dest) s any) ->
  at_fields fields it ->
  total (field_set_to_default_step e message_rec field_rec it) s any.
Proof.
  intros Hrec Hat. destruct (pos_fits e sub fields it Hfits Hat) as [Hext Hsub].
  unfold field_set_to_default_step. destruct (Z.eqb_spec (PB_LTYPE (ftype (pos it))) PB_LTYPE_EXTENSION); [done|].
  tot_step; [|tot_mem]. unfold set_default_static. cbv zeta.
  eapply (total_bind _ _ _ any); [tot_mem|]. intros b s1 _ _. tot_step; [by tot_step|]. tot_step.
  - eapply (total_bind _ _ _ (fun fs _ => sub fs)); [by tot_step; apply Hsub|].
    intros fs s2 Hfs _. by apply Hrec.
  - destruct (ptr (pos it)); tot_mem.
Qed.

Lemma total_release_step field_rec dest s :
  (forall it s, at_fields fields it -> total (field_rec it) s any) ->
  total (pb_release_step field_rec fields dest) s any.
Proof.
  intros Hrec. unfold pb_release_step. tot_step; [by tot_step|].
  pose proof (begin_at_fields fields dest) as Hat.
  destruct (iter_begin_pos fields dest) as (Hs & Hp & _).
  destruct (pb_field_iter_begin fields dest) as [[] it]; [|by tot_step]. cbn [snd] in *.
  apply (total_for_fields fields); [done..|]. unfold iter_fuel. rewrite Hs, Hp. lia.
Qed.

Lemma total_free_items n : forall item (s : dstate), total (free_items n item) s any.
Proof. induction n as [|n IH]; intros item s; cbn [free_items]; [by tot_step|]. tot_mem. Qed.

Lemma total_release_items field_rec n fs : (forall dest s, total (pb_release_step field_rec fs dest) s any) ->
  forall item step (s : dstate), total (release_items field_rec n fs item step) s any.
Proof.
  intros Hrec. induction n as [|n IH]; intros item step s; cbn [release_items]; [by tot_step|].
  eapply total_bind; [apply Hrec|]. intros _ s1 _ _. apply IH.
Qed.

Lemma total_release_field_step field_rec it s :
  (forall fs dest s, sub fs -> total (pb_release_step field_rec fs dest) s any) ->
  at_fields fields it -> total (release_field_step e field_rec it) s any.
Proof.
  intros Hrec Hat. destruct (pos_fits e sub fields it Hfits Hat) as [Hext Hsub].
  unfold release_field_step. cbv zeta. eapply (total_bind _ _ _ any); [tot_mem|].
  intros cur s1 _ _. tot_step; [by tot_step|].
  destruct (Z.eqb_spec (PB_LTYPE (ftype (pos it))) PB_LTYPE_EXTENSION); [done|].
  eapply (total_bind _ _ _ any).
  - tot_step; [|by tot_step]. unfold release_submessages. cbv zeta.
    eapply (total_bind _ _ _ any); [tot_mem|]. intros item s2 _ _.
    eapply (total_bind _ _ _ any); [tot_mem|]. intros count s3 _ _.
    tot_step; [by tot_step|]. tot_step; [by tot_step|].
    eapply (total_bind _ _ _ (fun fs _ => sub fs)); [by tot_step; apply Hsub|].
    intros fs s4 Hfs _. apply total_release_items. intros. by apply Hrec.
  - intros _ s2 _ _. tot_step; [|by tot_step]. unfold release_pointer. cbv zeta.
    eapply (total_bind _ _ _ any).
    + tot_mem. apply total_free_items.
    + intros _ s3 _ _. eapply (total_bind _ _ _ any); [tot_mem|]. intros _ s4 _ _. tot_mem.
Qed.
End Structures.

Lemma total_set_default e n : forall fuel fields it s, (n < fuel)%nat -> nests e n fields ->
  at_fields fields it -> total (pb_field_set_to_default fuel e it) s any.
Proof.
  induction n as [|n IH]; intros [|fuel] fields it s Hlt Hn Hat; try lia; cbn [pb_field_set_to_default];
    destruct (nests_fields _ _ _ Hn) as [Ht Hf];
    apply (total_field_default_step e fields _ Hf); try done.
  intros fs dest s1 Hfs. apply total_set_defaults_step; [by apply (nests_fields e n)|].
  intros it' s2 Hat'. apply (IH fuel fs); [lia|done..].
Qed.

Lemma total_message_defaults e n fuel fields dest s : (n < fuel)%nat -> nests e n fields ->
  total (pb_message_set_to_defaults fuel e fields dest) s any.
Proof.
  intros Hlt Hn. apply total_set_defaults_step; [by apply (nests_fields e n)|].
  intros. by apply (total_set_default e n fuel fields).
Qed.

Lemma total_release_field e n : forall fuel fields it s, (n < fuel)%nat -> nests e n fields ->
  at_fields fields it -> total (pb_release_single_field fuel e it) s any.
Proof.
  induction n as [|n IH]; intros [|fuel] fields it s Hlt Hn Hat; try lia; cbn [pb_release_single_field];
    destruct (nests_fields _ _ _ Hn) as [Ht Hf];
    apply (total_release_field_step e fields _ Hf); try done.
  intros fs dest s1 Hfs. apply total_release_step; [by apply (nests_fields e n)|].
  intros it' s2 Hat'. apply (IH fuel fs); [lia|done..].
Qed.

Lemma total_release e n fuel fields dest s : (n < fuel)%nat -> nests e n fields ->
  total (pb_release fuel e fields dest) s any.
Proof.
  intros Hlt Hn. apply total_release_step; [by apply (nests_fields e n)|].
  intros. by apply (total_release_field e n fuel fields).
Qed.

(** ** Fields *)

(** What is asked of the user's field callbacks: a call ends, and uses up some of
    its stream unless nothing is left.  (One that reads nothing is called for ever.) *)
Definition callbacks_progress (e : env) : Prop :=
  forall p f, e_decode_cb e p = Some f -> forall field arg s,
  total (f field arg) s (fun _ s1 => left s1 = 0 \/ left s1 + 1 <= left s).

Lemma total_mem_fuel (s : dstate) : total mem_fuel s any.
Proof. unfold mem_fuel. by repeat tot_step. Qed.

Lemma total_close_m sub (s : dstate) : stream_ok sub -> i_callback sub = i_callback (ds_in s) ->
  total (lift (pb_close_string_substream sub)) s any.
Proof. intros. eapply total_mono; [by apply total_lift, total_close|done]. Qed.

(** Opening a substream, running in it and closing it. *)
Lemma total_make_m (s : dstate) : total (lift pb_make_string_substream) s
  (fun sub s1 => stream_ok sub /\ i_callback sub = i_callback (ds_in s1) /\ left sub + left s1 + 1 <= left s).
Proof. eapply total_mono; [apply total_lift, total_make_substream|]. done. Qed.

Section Fields.
Context (e : env) (depth n : nat) (fields : list pb_field).
Context (Hcb : callbacks_progress e) (Hdepth : (n < depth)%nat) (Hn : nests e n fields).
Variable noinit_rec : list pb_field -> Z -> M dstate unit.
Context (Hrec : forall fs dest s, nests_below e n fs -> total (noinit_rec fs dest) s any).

Let Htags : Forall (fun f => tag f <> 0) fields := proj1 (nests_fields e n fields Hn).
Let Hfits : Forall (field_fits e (nests_below e n)) fields := proj2 (nests_fields e n fields Hn).

Lemma below_defaults fs dest s : nests_below e n fs -> total (pb_message_set_to_defaults depth e fs dest) s any.
Proof. destruct n as [|k]; [done|]. intros Hfs. apply (total_message_defaults e k); [lia|done]. Qed.
Lemma below_release fs dest s : nests_below e n fs -> total (pb_release depth e fs dest) s any.
Proof. destruct n as [|k]; [done|]. intros Hfs. apply (total_release e k); [lia|done]. Qed.

Lemma total_decode_with fs dest s : nests_below e n fs ->
  total (pb_decode_with e noinit_rec depth fs dest) s any.
Proof.
  intros Hfs. unfold pb_decode_with. eapply total_bind; [by apply below_defaults|].
  intros _ s1 _ _. eapply total_bind; [by apply total_tryb, Hrec|]. intros r s2 _ _.
  eapply (total_bind _ _ _ any); [|intros; apply total_status].
  destruct r; [by tot_step|by apply below_release].
Qed.

Lemma total_dec_submessage f dest s : field_fits e (nests_below e n) f ->
  total (pb_dec_submessage e noinit_rec depth f dest) s any.
Proof.
  intros [_ Hsub]. unfold pb_dec_submessage. tot_bind total_make_m. intros sub s1 (Hok & Hc & _) _.
  destruct (ptr f) eqn:Ep; [tot_mem| |by intros ?].
  eapply (total_bind _ _ _ (fun fs s2 => nests_below e n fs /\ s2 = s1)).
  { tot_step. by split; [apply Hsub|]. }
  intros fs s2 [Hfs ->] _. eapply total_bind.
  { apply total_on_substream; [done|]. intros s0 _.
    instantiate (1 := any). tot_step; [by apply total_decode_with|by apply Hrec]. }
  intros [r sub'] s2 (Hin & Ha & _) _. cbn [fst snd] in *.
  eapply total_bind; [|intros; apply total_status]. apply total_close_m; [apply Ha|].
  rewrite Hin, <- Hc. apply Ha.
Qed.

Lemma total_call_decoder f dest s : field_fits e (nests_below e n) f ->
  total (call_decoder e noinit_rec depth f dest) s any.
Proof.
  intros Hf. unfold call_decoder.
  destruct (decide (0 <= PB_LTYPE (ftype f) <= PB_LTYPE_LAST_PACKABLE)) as [Hl|Hl].
  - destruct (PB_DECODERS e noinit_rec depth (PB_LTYPE (ftype f))) as [g|] eqn:Eg; [|done].
    apply consumes_total. by eapply scalar_consumes.
  - unfold PB_DECODERS. destruct (PB_LTYPE (ftype f)) as [|p|p]; [exfalso; by apply Hl| |done].
    do 4 (try destruct p as [p|p|]); try done;
      first [apply total_dec_bytes|apply total_dec_string|by apply total_dec_submessage
            |apply total_dec_fixed_bytes|exfalso; apply Hl; by vm_compute].
Qed.

Lemma call_consumes f dest s : 0 <= PB_LTYPE (ftype f) <= PB_LTYPE_LAST_PACKABLE ->
  total (call_decoder e noinit_rec depth f dest) s (fun _ s1 => left s1 + 1 <= left s).
Proof.
  intros Hl. unfold call_decoder.
  destruct (PB_DECODERS e noinit_rec depth (PB_LTYPE (ftype f))) as [g|] eqn:Eg; [|done].
  by eapply scalar_consumes.
Qed.

Lemma ltype_nonneg f : 0 <= PB_LTYPE f.
Proof. unfold PB_LTYPE. apply Z.land_nonneg. by right. Qed.

(** The fields that are decoded are those of the message. *)
Abbreviation here it := (at_fields fields it).
Lemma here_fits it : here it -> field_fits e (nests_below e n) (pos it).
Proof. by apply pos_fits. Qed.
#[local] Hint Resolve here_fits total_call_decoder below_defaults total_mem_fuel : totals.

Lemma total_packed_static it : here it -> PB_LTYPE (ftype (pos it)) <= PB_LTYPE_LAST_PACKABLE ->
  forall fuel sub s, stream_ok sub -> rounds sub fuel ->
  total (packed_static_loop e noinit_rec depth fuel it sub) s (fun r _ => after sub r.2).
Proof.
  intros Hit Hl. induction fuel as [|fuel IH]; intros sub s Hok Hf; cbn [packed_static_loop].
  { destruct Hok as [H0 _]. change (0 <= left sub) in H0. lia. }
  tot_bind total_read_size. intros size s1 _ _. tot_step; [|tot_step; by apply after_refl].
  eapply total_bind.
  { apply (total_on_substream sub _ s1 (fun _ s2 => left s2 + 1 <= left sub)); [done|].
    intros s0 <-. apply call_consumes. split; [apply ltype_nonneg|done]. }
  intros [[[]|] sub'] s2 (_ & Ha & Hr) _; cbn [fst snd] in *; [|by tot_step].
  destruct Hr as (s3 & Hs3 & Hr). change (left (ds_in s3) + 1 <= left sub) in Hr. rewrite Hs3 in Hr. tot_bind total_read_size. intros k s4 _ _.
  tot_bind total_write_size. intros _ s5 _ _.
  eapply total_mono; [apply IH; [apply Ha|]|].
  - lia.
  - intros r s6 Hr6 _. by eapply after_trans.
Qed.

Lemma total_static_packed it s : here it -> PB_LTYPE (ftype (pos it)) <= PB_LTYPE_LAST_PACKABLE ->
  total (decode_static_packed e noinit_rec depth it) s any.
Proof.
  intros Hit Hl. unfold decode_static_packed. tot_bind total_make_m. intros sub s1 (Hok & Hc & _) _.
  eapply total_bind.
  { apply total_cb, total_packed_static; [done..|]. apply rounds_enough. }
  intros [status sub'] s2 [Ha Hc2] _. cbn [snd] in Ha. tot_step; [tot_step|].
  eapply total_bind; [|intros; by repeat tot_step]. apply total_close_m; [apply Ha|].
  rewrite (proj1 (proj2 Ha)), Hc. symmetry. exact Hc2.
Qed.

Lemma total_static_oneof it s : here it -> total (decode_static_oneof e noinit_rec depth it) s any.
Proof.
  intros Hit. destruct (here_fits it Hit) as [_ Hsub]. unfold decode_static_oneof. cbv zeta.
  eapply (total_bind _ _ _ any).
  - tot_step; [|by tot_step]. eapply (total_bind _ _ _ any); [tot_mem|]. intros w s1 _ _.
    tot_step; [|by tot_step]. eapply (total_bind _ _ _ any); [tot_mem|]. intros _ s2 _ _.
    eapply (total_bind _ _ _ (fun fs _ => nests_below e n fs)); [by tot_step; apply Hsub|].
    intros fs s3 Hfs _. by apply below_defaults.
  - intros _ s1 _ _. tot_mem.
Qed.

Lemma total_static wt it s : here it -> total (decode_static_field e noinit_rec depth wt it) s any.
Proof.
  intros Hit. unfold decode_static_field. cbv zeta.
  eapply (total_bind _ _ _ any); [tot_mem|]. intros _ s0 _ _.
  repeat tot_step; try done.
  - eapply (total_bind _ _ _ any); [tot_mem|]. intros _ s1 _ _. tot_mem.
  - apply andb_true_iff in E2 as [_ E2]. apply total_static_packed; [done|lia].
  - unfold decode_static_item. tot_mem.
  - by apply total_static_oneof.
Qed.

Lemma total_initialize item it s : here it -> total (initialize_pointer_field e depth item it) s any.
Proof.
  intros Hit. destruct (here_fits it Hit) as [_ Hsub]. unfold initialize_pointer_field. cbv zeta.
  tot_step; [tot_mem|]. tot_step; [|by tot_step].
  eapply (total_bind _ _ _ any); [tot_mem|]. intros _ s1 _ _.
  eapply (total_bind _ _ _ (fun fs _ => nests_below e n fs)); [by tot_step; apply Hsub|].
  intros fs s2 Hfs _. by apply below_defaults.
Qed.
#[local] Hint Resolve total_initialize : totals.

Lemma total_set_errmsg msg (s : dstate) : total (set_errmsg msg) s any.
Proof.
  intros Hok. destruct s as [[cb st l err] m loc]. split; [|done].
  split; [done|]. split; [done|]. cbn. lia.
Qed.

Lemma total_packed_pointer it : here it -> PB_LTYPE (ftype (pos it)) <= PB_LTYPE_LAST_PACKABLE ->
  forall fuel sub allocated s, stream_ok sub -> rounds sub fuel ->
  total (packed_pointer_loop e noinit_rec depth fuel it sub allocated) s (fun r _ => after sub r.2).
Proof.
  intros Hit Hl. induction fuel as [|fuel IH]; intros sub allocated s Hok Hf; cbn [packed_pointer_loop].
  { destruct Hok as [H0 _]. change (0 <= left sub) in H0. lia. }
  cbv zeta. tot_step; [tot_step; by apply after_refl|].
  tot_bind total_read_size. intros size s1 _ _. tot_step.
  { tot_bind total_set_errmsg. intros _ s2 _ _. tot_step. by apply after_refl. }
  eapply (total_bind _ _ _ (fun g _ => after sub g.1.2)).
  { tot_step; [|tot_step; by apply after_refl].
    eapply (total_bind _ _ _ any); [tot_mem|]. intros _ s2 _ _.
    eapply total_bind.
    { apply (total_on_substream sub _ s2 any); [done|]. intros. apply total_allocate. }
    intros r s3 (_ & Ha & _) _. by tot_step. }
  intros [[[[]|] sub1] allocated1] s2 Ha1 _; cbn [fst snd] in *; [|by tot_step].
  eapply (total_bind _ _ _ any); [tot_mem|]. intros base s3 _ _. tot_step; [by tot_step|].
  eapply (total_bind _ _ _ any); [tot_mem|]. intros _ s4 _ _.
  eapply total_bind.
  { apply (total_on_substream sub1 _ s4 (fun _ s2 => left s2 + 1 <= left sub1)); [apply Ha1|].
    intros s0 <-. apply call_consumes. split; [apply ltype_nonneg|done]. }
  intros [[[]|] sub'] s5 (_ & Ha & Hr) _; cbn [fst snd] in *;
    [|tot_step; by eapply after_trans].
  destruct Hr as (s6 & Hs6 & Hr). change (left (ds_in s6) + 1 <= left sub1) in Hr. rewrite Hs6 in Hr.
  tot_bind total_read_size. intros k s7 _ _. tot_bind total_write_size. intros _ s8 _ _.
  eapply total_mono; [apply IH; [apply Ha|]|].
  - destruct Ha1 as (_ & _ & Hl1). change (left sub1 <= left sub) in Hl1. lia.
  - intros r s9 Hr9 _. eapply after_trans; [done|]. by eapply after_trans.
Qed.

Lemma total_pointer_packed it s : here it -> PB_LTYPE (ftype (pos it)) <= PB_LTYPE_LAST_PACKABLE ->
  total (decode_pointer_packed e noinit_rec depth it) s any.
Proof.
  intros Hit Hl. unfold decode_pointer_packed. tot_bind total_read_size. intros a s0 _ _.
  tot_bind total_make_m. intros sub s1 (Hok & Hc & _) _.
  eapply total_bind.
  { apply total_cb, total_packed_pointer; [done..|]. apply rounds_enough. }
  intros [status sub'] s2 [Ha Hc2] _. cbn [fst snd] in *.
  eapply total_bind; [|intros; by repeat tot_step]. apply total_close_m; [apply Ha|].
  rewrite (proj1 (proj2 Ha)), Hc. symmetry. exact Hc2.
Qed.

Lemma total_pointer_single it s : here it -> total (decode_pointer_single e noinit_rec depth it) s any.
Proof.
  intros Hit. unfold decode_pointer_single. cbv zeta.
  eapply (total_bind _ _ _ any).
  - tot_step; [|by tot_step]. eapply (total_bind _ _ _ any); [tot_mem|]. intros p s1 _ _.
    tot_step; [|by tot_step]. by apply (total_release_field e n depth fields).
  - intros _ s1 _ _. eapply (total_bind _ _ _ any); [tot_mem|]. intros _ s2 _ _. tot_mem.
Qed.

Lemma total_pointer wt it s : here it -> total (decode_pointer_field e noinit_rec depth wt it) s any.
Proof.
  intros Hit. unfold decode_pointer_field. cbv zeta.
  eapply (total_bind _ _ _ any); [tot_mem|]. intros _ s0 _ _.
  repeat tot_step; try done.
  - by apply total_pointer_single.
  - apply andb_true_iff in E1 as [_ E1]. apply total_pointer_packed; [done|lia].
  - unfold decode_pointer_item. tot_mem.
Qed.

Lemma total_callback_loop cb : (forall s, total cb s (fun _ s1 => left s1 = 0 \/ left s1 + 1 <= left s)) ->
  forall fuel sub s, stream_ok sub -> rounds sub fuel ->
  total (callback_loop fuel cb sub) s (fun sub' _ => after sub sub').
Proof.
  intros Hcall. induction fuel as [|fuel IH]; intros sub s Hok Hf; cbn [callback_loop].
  { destruct Hok as [H0 _]. change (0 <= left sub) in H0. lia. }
  eapply total_bind.
  { apply (total_on_substream sub cb s (fun _ s1 => left s1 = 0 \/ left s1 + 1 <= left sub)); [done|].
    intros s0 <-. apply Hcall. }
  intros [[[]|] sub'] s1 (_ & Ha & Hr) _; cbn [fst snd] in *; [|tot_step].
  destruct Hr as (s2 & Hs2 & Hr).
  change (left (ds_in s2) = 0 \/ left (ds_in s2) + 1 <= left sub) in Hr. rewrite Hs2 in Hr.
  destruct (i_bytes_left sub' =? 0) eqn:E; [by tot_step|]. apply Z.eqb_neq in E.
  change (left sub' <> 0) in E. eapply total_mono; [apply IH; [apply Ha|lia]|].
  intros sub2 s3 Ha2 _. by eapply after_trans.
Qed.

Lemma total_callback wt it s : total (decode_callback_field e wt it) s any.
Proof.
  unfold decode_callback_field.
  assert (Hskip : forall s : dstate, total (lift (pb_skip_field wt)) s any)
    by (intros s0; eapply total_mono; [apply total_lift, total_skip_field|done]).
  tot_step; [done|]. eapply (total_bind _ _ _ any); [tot_mem|]. intros f s1 _ _.
  tot_step; [done|].
  eapply (total_bind _ _ _ (fun fn s2 => e_decode_cb e f = Some fn /\ s2 = s1)); [by tot_step|].
  intros fn s2 [Hfn ->] _. cbv zeta. tot_step.
  - tot_bind total_make_m. intros sub s3 (Hok & Hc & _) _. eapply total_bind.
    { apply total_cb, total_callback_loop; [intros; by apply (Hcb f)|done|apply rounds_enough]. }
    intros sub' s4 [Ha Hc2] _. apply total_close_m; [apply Ha|].
    rewrite (proj1 (proj2 Ha)), Hc. symmetry. exact Hc2.
  - eapply total_bind; [apply total_lift, total_raw_value|]. intros bs s3 Hbs _.
    eapply total_bind; [|intros; apply total_status].
    apply (total_on_substream _ _ s3 any); [split; [apply zlen_nonneg|done]|].
    intros s4 _. eapply total_mono; [by apply (Hcb f)|done].
Qed.

Lemma total_union it s : here it ->
  total (pb_release_union_field depth e it) s (fun it' _ => here it').
Proof.
  intros Hit. unfold pb_release_union_field. tot_bind total_read_size. intros old s1 _ _. cbv zeta.
  tot_step; [by tot_step|]. tot_step; [by tot_step|]. unfold pb_field_iter_find at 1.
  destruct (find_at_fields fields (fun f => (tag f =? old) &&
    negb (PB_LTYPE (ftype f) =? PB_LTYPE_EXTENSION)) it Htags Hit) as ([|] & it1 & -> & Hit1 & _);
    [|tot_step].
  eapply total_bind; [by apply (total_release_field e n depth fields)|]. intros _ s2 _ _.
  unfold pb_field_iter_find.
  destruct (find_at_fields fields (fun f => (tag f =? tag (pos it)) &&
    negb (PB_LTYPE (ftype f) =? PB_LTYPE_EXTENSION)) it1 Htags Hit1) as ([|] & it2 & -> & Hit2 & _);
    [|tot_step].
  eapply (total_bind _ _ _ any); [tot_mem|]. intros _ s3 _ _. by tot_step.
Qed.

Lemma total_field wt it s : here it ->
  total (decode_field e noinit_rec depth wt it) s (fun it' _ => here it').
Proof.
  intros Hit. unfold decode_field.
  eapply (total_bind _ _ _ (fun it' _ => here it')).
  { tot_step; [by apply total_union|by tot_step]. }
  intros it1 s1 Hit1 _. cbv zeta. eapply (total_bind _ _ _ any); [|intros; by tot_step].
  repeat tot_step.
  - by apply total_static.
  - by apply total_pointer.
  - apply total_callback.
Qed.

Lemma total_unknown t wt v it s : 0 <= t < 2 ^ 29 -> here it -> 
  total (decode_unknown e noinit_rec depth t wt v it) s (fun v' _ => here (v_iter v')).
Proof.
  intros Ht Hit. unfold decode_unknown. cbv zeta.
  assert (Hskip : forall it' start (s : dstate), here it' ->
    total (lift (pb_skip_field wt) ;;! ret (Vars it' (v_seen v) start (v_fixed v))) s
      (fun v' _ => here (v_iter v'))).
  { intros it' start s0 Hit'. eapply total_bind; [apply total_lift, total_skip_field|].
    intros _ s1 _ _. by tot_step. }
  tot_step; [|by apply Hskip]. unfold find_extension_field.
  destruct (find_at_fields fields (fun f => PB_LTYPE (ftype f) =? PB_LTYPE_EXTENSION) it Htags Hit)
    as ([|] & it1 & -> & Hit1 & Hfound).
  - specialize (Hfound eq_refl). apply Z.eqb_eq in Hfound. by destruct (here_fits it1 Hit1).
  - change (2 ^ 29) with 536870912 in Ht. change (2 ^ 32 - 1) with 4294967295.
    bool_false (4294967295 <=? t). by apply Hskip.
Qed.

Lemma total_tagged wt t v s : 0 <= t < 2 ^ 29 -> here (v_iter v) ->
  total (decode_tagged e noinit_rec depth wt t v) s (fun v' _ => here (v_iter v')).
Proof.
  intros Ht Hit. unfold decode_tagged, pb_field_iter_find.
  destruct (find_at_fields fields (fun f => (tag f =? t) &&
    negb (PB_LTYPE (ftype f) =? PB_LTYPE_EXTENSION)) (v_iter v) Htags Hit)
    as ([|] & it & -> & Hit1 & _); [|by apply total_unknown].
  eapply (total_bind _ _ _ (fun r _ => here r.1)).
  { unfold enter_fixed_count. tot_step; [|by tot_step]. cbv zeta.
    eapply (total_bind _ _ _ any); [|intros; by tot_step].
    tot_step; [by tot_step|]. eapply (total_bind _ _ _ any); [tot_mem|]. intros k s1 _ _.
    eapply (total_bind _ _ _ any); [destruct (v_fixed v); tot_mem|]. intros _ s2 _ _. tot_mem. }
  intros [it1 fixed] s1 Hit2 _. cbv zeta. eapply total_bind; [by apply total_field|].
  intros it2 s2 Hit3 _. by tot_step.
Qed.

Lemma total_noinit_loop fuel : forall v s, rounds s fuel -> 0 <= left s -> here (v_iter v) ->
  total (noinit_loop e noinit_rec depth fuel v) s (fun v' _ => here (v_iter v')).
Proof.
  induction fuel as [|fuel IH]; intros v s Hf H0 Hit; [lia|]. cbn [noinit_loop].
  tot_bind total_bytes_left. intros avail s1 [_ Hl1] _. tot_step; [by tot_step|].
  eapply total_bind; [apply total_lift, total_tag|].
  intros [[[wt t]|] eof] s2 Hr _; cbn [fst snd] in Hr; [|by repeat tot_step].
  destruct Hr as [Ht Hl2]. change (left s2 + 1 <= left s1) in Hl2.
  eapply total_bind; [by apply total_tagged|]. intros v' s3 Hit' Hl3. intros Hok.
  apply IH; [lia|apply Hok|done|done].
Qed.

Lemma seek_end_total fuel : forall it, here it -> (length fields < it_pos it + fuel)%nat ->
  exists r, seek_end fuel it = Some r.
Proof.
  induction fuel as [|fuel IH]; intros it Hit Hf.
  - destruct Hit as [_ [H|[-> H]]]; [lia|]. cbn in Hf. lia.
  - cbn [seek_end]. destruct (next_at_fields fields it Htags Hit) as [Hit' Hmore].
    destruct (pb_field_iter_next it) as [[] it']; [|by eexists].
    destruct (Hmore eq_refl) as [Hp _]. cbn in Hp, Hit'. apply IH; [done|lia].
Qed.

Lemma total_noinit_body dest s : total (noinit_body e noinit_rec depth fields dest) s any.
Proof.
  unfold noinit_body. cbv zeta. tot_bind total_bytes_left. intros avail s1 [-> Hl] _.
  eapply total_bind.
  { intros Hok. apply total_noinit_loop; [rewrite <- Hl; apply rounds_enough|apply Hok| |done].
    apply begin_at_fields. }
  intros v s2 Hit _. eapply (total_bind _ _ _ any).
  { unfold check_fixed_count. destruct (v_fixed v); tot_mem. }
  intros _ s3 _ _. unfold check_required, req_field_count.
  destruct (seek_end_total (iter_fuel (v_iter v)) (v_iter v) Hit) as [[[count ty] it'] ->].
  { unfold iter_fuel. rewrite (proj1 Hit). lia. }
  by repeat tot_step.
Qed.
End Fields.

(** ** Theorems *)

Lemma total_noinit e depth : callbacks_progress e -> forall n, (n < depth)%nat ->
  forall fuel fields dest s, (n < fuel)%nat -> nests e n fields ->
  total (pb_decode_noinit fuel depth e fields dest) s any.
Proof.
  intros Hcb. induction n as [|n IH]; intros Hd [|fuel] fields dest s Hf Hn; try lia;
    cbn [pb_decode_noinit]; unfold with_local; intros Hok;
    match goal with |- match match ?f ?s0 with _ => _ end with _ => _ end =>
      assert (Hb : total f s0 any);
      [eapply (total_noinit_body e depth _ fields Hcb Hd Hn); try done
      |specialize (Hb Hok); destruct (f s0); done]
    end.
  intros fs d s1 Hfs. apply IH; [lia|lia|done].
Qed.

Lemma total_decode e n fuel depth fields dest s :
  callbacks_progress e -> nests e n fields -> (n < fuel)%nat -> (n < depth)%nat ->
  total (pb_decode fuel depth e fields dest) s any.
Proof.
  intros Hcb Hn Hf Hd. unfold pb_decode, pb_decode_with. eapply total_bind; [by apply (total_message_defaults e n)|].
  intros _ s1 _ _. eapply total_bind; [by apply total_tryb, (total_noinit e depth Hcb n)|].
  intros r s2 _ _. eapply (total_bind _ _ _ any); [|intros; apply total_status].
  destruct r; [by tot_step|by apply (total_release e n)].
Qed.


(** ** Witness: the log request of cct.nanopb.c, three levels of submessages *)

(** [nests] as a test. *)
Definition fits_field (e : env) (sub : list pb_field -> bool) (f : pb_field) : bool :=
  negb (tag f =? 0) && negb (PB_LTYPE (ftype f) =? PB_LTYPE_EXTENSION) &&
  match submsg_fields e (ptr f) with Some fs => sub fs | None => true end.
Fixpoint nestsb (e : env) (n : nat) (fields : list pb_field) : bool :=
  forallb (fits_field e match n with O => fun _ => false | S k => nestsb e k end) fields.

Lemma nestsb_sound e n : forall fields, nestsb e n fields = true -> nests e n fields.
Proof.
  induction n as [|n IH]; intros fields H; cbn [nestsb nests] in *;
    apply List.Forall_forall; intros f Hf; rewrite forallb_forall in H; specialize (H f Hf);
    unfold fits_field in H; rewrite !andb_true_iff, !negb_true_iff, !Z.eqb_neq in H;
    destruct H as [[Ht He] Hs]; (split; [done|]); (split; [done|]); intros fs Hfs;
    rewrite Hfs in Hs; [done|by apply IH].
Qed.

Lemma cct_progress : callbacks_progress cct_env.
Proof. by intros p f H. Qed.

(** A truncated submessage in a submessage. *)
Definition bad_request : list Z := [0x10; 0x05; 0x0A; 0x04; 0x22; 0x7F; 0x08; 0x80].

