(* ===== verification/PbEncodeTotal.v ===== *)
(** * nanopb encoder: encoding terminates

    [ends f] says that the encoding function [f] ends within the model's recursion
    bounds, on every stream.  Every encoder does, for messages of non-recursive type,
    whatever the memory it reads. *)
From S2P Require Import Prelude Mem PbIstream PbOstream PbField PbEncode PbLayout.
From S2P Require Import PbIter PbTerminate PbEncodeSpec PbRoundtrip.

Definition ends {S A} (f : M S A) : Prop := forall s, f s <> NoFuel.

Lemma ends_ret {S A} (a : A) : ends (ret (S := S) a).
Proof. done. Qed.
Lemma ends_fail {S A} : ends (failm (S := S) (A := A)).
Proof. done. Qed.
Lemma ends_ub {S A} : ends (ubm (S := S) (A := A)).
Proof. done. Qed.
Lemma ends_get {S} : ends (getm (S := S)).
Proof. done. Qed.
Lemma ends_of_opt {S A} (o : option A) : ends (of_opt (S := S) o).
Proof. intros s. by destruct o. Qed.
Lemma ends_error {A} msg : ends (ORETURN_ERROR (A := A) msg).
Proof. done. Qed.

(** The continuation may use what is known of the values the first part returns. *)
Lemma ends_bind_of {S A B} (P : A -> Prop) (f : M S A) (k : A -> M S B) :
  ends f -> (forall s a s', f s = Ret a s' -> P a) -> (forall a, P a -> ends (k a)) ->
  ends (bind f k).
Proof.
  intros Hf HP Hk s. unfold bind. specialize (Hf s). destruct (f s) as [a s'|s'| |] eqn:E; try done.
  apply Hk. by eapply HP.
Qed.
Lemma ends_bind {S A B} (f : M S A) (k : A -> M S B) :
  ends f -> (forall a, ends (k a)) -> ends (bind f k).
Proof. intros Hf Hk. by apply (ends_bind_of (fun _ => True)). Qed.
Lemma ends_bind_opt {S A B} (o : option A) (k : A -> M S B) :
  (forall a, o = Some a -> ends (k a)) -> ends (bind (of_opt o) k).
Proof. intros Hk s. destruct o; [by apply Hk|done]. Qed.
Lemma ends_tryb {S A} (f : M S A) : ends f -> ends (tryb f).
Proof. intros Hf s. unfold tryb. specialize (Hf s). by destruct (f s). Qed.

Create HintDb ending.
#[export] Hint Resolve ends_ret ends_fail ends_ub ends_get ends_of_opt ends_error ends_tryb : ending.

Ltac ending :=
  repeat (cbv beta zeta; match goal with
  | |- ends (bind _ _) => apply ends_bind; [|intros ?]
  | |- ends (if ?b then _ else _) => destruct b
  | |- ends (match ?x with _ => _ end) => destruct x
  | |- ends _ => solve [eauto with ending]
  end).

(** ** The writers *)

Definition callbacks_end (e : env) : Prop :=
  forall p f, e_encode_cb e p = Some f -> forall field arg, ends (f field arg).

Lemma ends_write src n : ends (pb_write src n).
Proof.
  intros s. unfold pb_write, ORETURN_ERROR, bind, getm, tryb, of_opt, call_ocallback, buf_write, modm, ret, failm.
  repeat match goal with
  | |- (if ?b then _ else _) _ <> _ => destruct b
  | |- match (if ?b then _ else _) _ with _ => _ end <> _ => destruct b
  end; try done; destruct (read_source src n); try done; destruct (o_callback s); try done;
    by destruct (f _ _) as [[] ?].
Qed.
#[export] Hint Resolve ends_write : ending.

Lemma ends_varint v : ends (pb_encode_varint v).
Proof. unfold pb_encode_varint. ending. Qed.
Lemma ends_fixed32 v : ends (pb_encode_fixed32 v).
Proof. unfold pb_encode_fixed32. ending. Qed.
Lemma ends_fixed64 v : ends (pb_encode_fixed64 v).
Proof. unfold pb_encode_fixed64. ending. Qed.
#[export] Hint Resolve ends_varint ends_fixed32 ends_fixed64 : ending.
Lemma ends_svarint v : ends (pb_encode_svarint v).
Proof. unfold pb_encode_svarint. ending. Qed.
Lemma ends_tag wt num : ends (pb_encode_tag wt num).
Proof. unfold pb_encode_tag. ending. Qed.
Lemma ends_string src n : ends (pb_encode_string src n).
Proof. unfold pb_encode_string. ending. Qed.
#[export] Hint Resolve ends_svarint ends_tag ends_string : ending.
Lemma ends_tag_for_field f : ends (pb_encode_tag_for_field f).
Proof. unfold pb_encode_tag_for_field. ending. Qed.
#[export] Hint Resolve ends_tag_for_field : ending.

Lemma ends_safe_read_bool {S} m a : ends (safe_read_bool (S := S) m a).
Proof. unfold safe_read_bool. ending. Qed.
#[export] Hint Resolve ends_safe_read_bool : ending.

(** A string ends before the mapped bytes above its start are used up. *)
Definition mapped_above (m : mem) (p : Z) : gmap Z Z := filter (fun kv => p <= kv.1) (m_bytes m).

Lemma mapped_above_next m p c : load m p 1 = Some c ->
  (size (mapped_above m (p + 1)) < size (mapped_above m p))%nat.
Proof.
  intros H. apply map_subset_size. unfold load in H. cbn in H.
  destruct (m_bytes m !! p) as [b|] eqn:Eb; [|done]. apply map_subset_alt. split.
  - apply map_subseteq_spec. intros k v. unfold mapped_above. rewrite !map_lookup_filter_Some.
    cbn. intros [? ?]. split; [done|lia].
  - exists p. split; [|].
    + unfold mapped_above. apply map_lookup_filter_None. right. intros ? _. cbn. lia.
    + exists b. apply map_lookup_filter_Some. split; [done|]. cbn. lia.
Qed.

Lemma ends_string_size m fuel : forall p n max, (size (mapped_above m p) < fuel)%nat ->
  ends (string_size m fuel p n max).
Proof.
  induction fuel as [|fuel IH]; intros p n max Hf; [lia|]. cbn [string_size].
  destruct (n <? max); [|ending]. apply ends_bind_opt. intros c Hc.
  pose proof (mapped_above_next m p c Hc). destruct (negb (c =? 0)); [|ending]. apply IH. lia.
Qed.

Lemma ends_string_scan m p max : ends (string_size m (string_fuel m) p 0 max).
Proof.
  apply ends_string_size. unfold string_fuel, mapped_above.
  pose proof (map_size_filter (fun kv => p <= kv.1) (m_bytes m)) as H. lia.
Qed.
#[export] Hint Resolve ends_string_scan : ending.

(** ** The proto3 default check *)

Lemma ends_check_fields {S} (check : pb_field -> Z -> M S bool) fields :
  Forall (fun f => tag f <> 0) fields ->
  (forall it data, at_fields fields it -> ends (check (pos it) data)) ->
  forall fuel it, at_fields fields it -> (length fields < it_pos it + fuel)%nat ->
  ends (check_fields check fuel it).
Proof.
  intros Ht Hc. induction fuel as [|fuel IH]; intros it Hat Hf.
  - destruct Hat as [_ [H|[-> H]]]; [lia|]. cbn in Hf. lia.
  - cbn [check_fields]. apply ends_bind; [by apply Hc|]. intros b. destruct (negb b); [ending|].
    destruct (next_at_fields fields it Ht Hat) as [Hat' Hmore].
    destruct (pb_field_iter_next it) as [[] it']; [|ending].
    destruct (Hmore eq_refl) as [Hp _]. cbn in Hp, Hat'. apply IH; [done|lia].
Qed.

Lemma ends_all_zero {S} m n : forall a, ends (all_zero_bytes (S := S) m a n).
Proof. induction n as [|n IH]; intros a; cbn [all_zero_bytes]; ending. Qed.
#[export] Hint Resolve ends_all_zero : ending.

Lemma begin_iter_fuel fields dest it b : pb_field_iter_begin fields dest = (b, it) ->
  at_fields fields it /\ (length fields < it_pos it + iter_fuel it)%nat.
Proof.
  intros E. pose proof (begin_at_fields fields dest) as Hat. rewrite E in Hat. cbn in Hat.
  split; [done|]. unfold iter_fuel. rewrite (proj1 Hat). lia.
Qed.

Lemma below_tags e n fs : nests_below e n fs -> Forall (fun f => tag f <> 0) fs.
Proof. destruct n as [|n]; [done|]. intros H. by apply (nests_fields e n). Qed.

Lemma ends_check_singular {S} e m n (check : pb_field -> Z -> M S bool) f data :
  field_fits e (nests_below e n) f ->
  (forall fs it data, nests_below e n fs -> at_fields fs it -> ends (check (pos it) data)) ->
  ends (check_singular e m check f data).
Proof.
  intros [_ Hsub] Hc. unfold check_singular. cbv zeta.
  do 3 (match goal with |- ends (if ?b then _ else _) => destruct b; [ending|] end).
  match goal with |- ends (if ?b then _ else _) => destruct b; [|ending] end.
  apply ends_bind_opt. intros fs Hfs. specialize (Hsub fs Hfs).
  destruct (pb_field_iter_begin fs data) as [[] it] eqn:E; [|ending].
  destruct (begin_iter_fuel fs data it true E) as [Hat Hf].
  apply (ends_check_fields check fs); [by eapply below_tags|by intros; eapply Hc|done|done].
Qed.

Lemma ends_check_default {S} e m n : forall fuel f data, (n < fuel)%nat ->
  field_fits e (nests_below e n) f -> ends (pb_check_proto3_default_value (S := S) fuel e m f data).
Proof.
  induction n as [|n IH]; intros [|fuel] f data Hlt Hf; try lia;
    cbn [pb_check_proto3_default_value]; unfold check_proto3_step; cbv zeta;
    repeat match goal with |- ends (if ?b then _ else _) => destruct b; [ending|] end;
    eapply ends_check_singular; try exact Hf; intros fs it d Hfs Hat; [done|].
  apply IH; [lia|]. eapply pos_fits; [by apply nests_fields|done].
Qed.

(** ** Fields and messages *)

Lemma ends_items count f : (forall p, ends (f p)) -> forall p step, ends (for_items count p step f).
Proof. intros Hf. induction count as [|count IH]; intros p step; cbn [for_items]; ending. Qed.

Section Messages.
Context (e : env) (m : mem) (depth n : nat) (fields : list pb_field).
Context (Hcb : callbacks_end e) (Hdepth : (n < depth)%nat) (Hn : nests e n fields).
Variable rec : list pb_field -> Z -> M ostream unit.
Context (Hrec : forall fs src, nests_below e n fs -> ends (rec fs src)).

Lemma ends_submessage fs src : nests_below e n fs -> ends (pb_encode_submessage rec fs src).
Proof.
  intros Hfs s. unfold pb_encode_submessage.
  pose proof (Hrec fs src Hfs PB_OSTREAM_SIZING) as H1.
  destruct (rec fs src PB_OSTREAM_SIZING) as [[] sub|sub| |]; try done.
  revert s. apply ends_bind; [ending|]. intros _. apply ends_bind; [ending|]. intros s0.
  destruct (negb (has_callback s0)); [ending|]. destruct (_ <? _); [ending|]. intros s.
  match goal with |- context [rec fs src ?x] => pose proof (Hrec fs src Hfs x) as H2; destruct (rec fs src x) end;
    try done; by case_match.
Qed.

Lemma ends_call f src : field_fits e (nests_below e n) f ->
  ends (let! func := of_opt (PB_ENCODERS e m rec (PB_LTYPE (ftype f))) in func f src).
Proof.
  intros [_ Hsub]. apply ends_bind_opt. intros g Hg. unfold PB_ENCODERS in Hg.
  repeat case_match; simplify_eq;
    unfold pb_enc_bool, pb_enc_varint, pb_enc_uvarint, pb_enc_svarint, pb_enc_fixed32, pb_enc_fixed64,
      pb_enc_bytes, pb_enc_string, pb_enc_fixed_length_bytes, pb_enc_submessage; try solve [ending].
  destruct (ptr f) eqn:Ep; [ending| |by apply ends_bind_opt]. apply ends_bind_opt. intros fs Hfs.
  by apply ends_submessage, Hsub.
Qed.

Lemma ends_packed_size f data count func : (forall p, ends (func f p)) ->
  ends (packed_size f data count func).
Proof.
  intros Hf s. unfold packed_size. do 2 (case_match; [done|]).
  pose proof (ends_items (Z.to_nat count) (func f) Hf data (data_size f) PB_OSTREAM_SIZING) as H1.
  by destruct (for_items _ _ _ _ _).
Qed.

Lemma ends_array f data count func : (forall p, ends (func f p)) ->
  ends (encode_array m f data count func).
Proof.
  intros Hf. unfold encode_array. cbv zeta. destruct (count =? 0); [ending|].
  destruct (_ && _); [ending|]. destruct (_ <=? _).
  - apply ends_bind; [ending|]. intros _. apply ends_bind; [by apply ends_packed_size|]. intros sz.
    apply ends_bind; [ending|]. intros _. apply ends_bind; [ending|]. intros s.
    destruct (negb _); [ending|]. by apply ends_items.
  - apply ends_items. intros p. ending.
Qed.

Lemma ends_basic f data : field_fits e (nests_below e n) f ->
  ends (encode_basic_field e m rec depth f data).
Proof.
  intros Hf. pose proof (fun src => ends_call f src Hf) as Hcall. unfold encode_basic_field. cbv zeta.
  apply ends_bind; [ending|]. intros _. apply ends_bind.
  { destruct (negb _); [ending|]. destruct (_ =? _); [|ending].
    apply ends_bind; [by apply (ends_check_default e m n)|intros; ending]. }
  intros ps. apply ends_bind; [ending|]. intros [data' ps'].
  destruct (_ =? PB_HTYPE_REQUIRED); [destruct (data' =? NULL); [ending|]; apply ends_bind; [ending|done]|].
  destruct (_ =? PB_HTYPE_OPTIONAL).
  { apply ends_bind; [destruct ps'; cbn [read_has]; ending|]. intros [|]; [|ending].
    apply ends_bind; [ending|done]. }
  destruct (_ =? PB_HTYPE_REPEATED).
  { apply ends_bind; [destruct (negb _); [destruct ps'; cbn [read_count]; ending|ending]|].
    intros count. by apply ends_array. }
  destruct (_ =? PB_HTYPE_ONEOF); [|ending].
  apply ends_bind; [destruct ps'; cbn [read_count]; ending|]. intros which.
  destruct (which =? tag f); [|ending]. apply ends_bind; [ending|done].
Qed.

Lemma ends_field f data : field_fits e (nests_below e n) f ->
  ends (encode_field e m rec depth f data).
Proof.
  intros Hf. unfold encode_field. cbv zeta. destruct (_ || _); [by apply ends_basic|].
  destruct (_ =? _); [|ending]. unfold encode_callback_field. apply ends_bind; [ending|].
  intros p. destruct (negb _); [|ending]. apply ends_bind_opt. intros cb Hp.
  apply ends_bind; [by apply ends_tryb, (Hcb p)|]. intros r. ending.
Qed.

Lemma ends_fields fuel : forall it, at_fields fields it -> (length fields < it_pos it + fuel)%nat ->
  ends (encode_fields e m rec depth fuel it).
Proof.
  destruct (nests_fields e n fields Hn) as [Ht Hfits].
  induction fuel as [|fuel IH]; intros it Hat Hf.
  - destruct Hat as [_ [H|[-> H]]]; [lia|]. cbn in Hf. lia.
  - pose proof (pos_fits e _ fields it Hfits Hat) as Hfit. cbn [encode_fields]. apply ends_bind.
    { destruct (Z.eqb_spec (PB_LTYPE (ftype (pos it))) PB_LTYPE_EXTENSION); [by destruct Hfit|].
      by apply ends_field. }
    intros _. destruct (next_at_fields fields it Ht Hat) as [Hat' Hmore].
    destruct (pb_field_iter_next it) as [[] it']; [|ending].
    destruct (Hmore eq_refl) as [Hp _]. cbn in Hp, Hat'. apply IH; [done|lia].
Qed.

Lemma ends_message src : ends (encode_message e m rec depth fields src).
Proof.
  unfold encode_message. destruct (pb_field_iter_begin fields src) as [[] it] eqn:E; [|ending].
  destruct (begin_iter_fuel fields src it true E). by apply ends_fields.
Qed.
End Messages.

Lemma ends_pb_encode e m : callbacks_end e -> forall n fuel fields src, (n < fuel)%nat ->
  nests e n fields -> ends (pb_encode fuel e m fields src).
Proof.
  intros Hcb. induction n as [|n IH]; intros [|fuel] fields src Hf Hn; try lia; cbn [pb_encode];
    eapply (ends_message e m _ _ fields); try done; intros fs d Hfs;
    first [done|apply IH; [lia|done]].
Qed.

(** C28: encoding terminates.  For a message whose type does not contain itself (its
    submessages nest to a depth [n]; no extension fields), and user callbacks that
    end, [pb_encode], [pb_encode_delimited] and [pb_get_encoded_size] end within the
    bounds of the model on every structure in memory and every stream; so do the scan
    of a string, which stops at its NUL or at unmapped memory, and the proto3 default
    check. *)
Theorem encode_terminates e m n fuel fields src s :
  callbacks_end e -> nests e n fields -> (n < fuel)%nat ->
  pb_encode fuel e m fields src s <> NoFuel /\
  pb_encode_delimited fuel e m fields src s <> NoFuel /\
  pb_get_encoded_size fuel e m fields src <> NoFuel.
Proof.
  intros Hcb Hn Hf. assert (He : forall k fs d, (n < k)%nat -> nests e n fs -> ends (pb_encode k e m fs d))
    by (intros; by apply (ends_pb_encode e m Hcb n)).
  split; [by apply He|]. split.
  - apply (ends_submessage e (S n)); [|done]. intros fs d Hfs. by apply He.
  - unfold pb_get_encoded_size. specialize (He fuel fields src Hf Hn PB_OSTREAM_SIZING).
    by destruct (pb_encode fuel e m fields src PB_OSTREAM_SIZING).
Qed.

Lemma cct_callbacks_end : callbacks_end cct_env.
Proof. by intros p f H. Qed.

Lemma encode_terminates_witness :
  let m := blocks_mem [(4096, replicate 88 0)] in
  let s := pb_ostream_from_buffer 64 in
  pb_encode 3 cct_env m gdt_cct_LogRequest_fields 4096 s <> NoFuel /\
  pb_encode_delimited 3 cct_env m gdt_cct_LogRequest_fields 4096 s <> NoFuel /\
  pb_get_encoded_size 3 cct_env m gdt_cct_LogRequest_fields 4096 <> NoFuel.
Proof.
  apply (encode_terminates cct_env (blocks_mem [(4096, replicate 88 0)]) 2 3
           gdt_cct_LogRequest_fields 4096 (pb_ostream_from_buffer 64)).
  - exact cct_callbacks_end.
  - apply nestsb_sound. vm_compute. reflexivity.
  - lia.
Defined.
