(* ===== verification/PbReaders.v ===== *)
(** * nanopb decoder: the readers stay inside their stream

    [reads k f P i] says that the run of the reader [f] on the stream [i] is free of
    undefined behaviour, and that the stream it leaves still has, behind the bytes it
    may read, the [k] bytes that belong to the streams it is a substream of. *)
From S2P Require Import Prelude Mem PbIstream PbOstream PbField PbDecode PbMessage PbTotal.

(** A buffer stream has its bytes and [k] more; a user callback that succeeds stores as
    many bytes as it was asked for. *)
Definition stream_safe (k : Z) (i : istream) : Prop :=
  stream_ok i /\
  match i_callback i with
  | cb_buf_read => k + i_bytes_left i <= zlen (i_state i)
  | cb_user_read f => forall st n, (f st n).1.1 = true -> zlen (f st n).1.2 = n
  end.

(** [i'] is as safe as [i] was. *)
Definition stays (k : Z) (i i' : istream) : Prop := stream_safe k i' /\ i_callback i' = i_callback i.

Definition reads {A} (k : Z) (f : M istream A) (P : A -> istream -> Prop) (i : istream) : Prop :=
  stream_safe k i -> 0 <= k ->
  match f i with
  | Ret a i' => stays k i i' /\ P a i'
  | Fail i' => stays k i i'
  | Ub => False
  | NoFuel => True
  end.

Abbreviation anyr := (fun _ _ => True).

Section Rules.
Context (k : Z) {A : Type}.

Lemma stays_refl i : stream_safe k i -> stays k i i.
Proof. done. Qed.
Lemma stays_trans a b c : stays k a b -> stays k b c -> stays k a c.
Proof. intros [? ?] [? ?]. split; [done|congruence]. Qed.

Lemma reads_ret (a : A) P i : P a i -> reads k (ret a) P i.
Proof. by split. Qed.
Lemma reads_fail P i : reads k (A := A) failm P i.
Proof. by split. Qed.
Lemma reads_nofuel P i : reads k (A := A) nofuelm P i.
Proof. done. Qed.
Lemma reads_error msg P i : reads k (A := A) (PB_RETURN_ERROR msg) P i.
Proof. intros H _. by destruct i. Qed.

Lemma reads_bind {B} (f : M istream A) (g : A -> M istream B) P Q i :
  reads k f P i -> (forall a i', P a i' -> stream_safe k i' -> reads k (g a) Q i') ->
  reads k (bind f g) Q i.
Proof.
  intros Hf Hg Hs Hk. specialize (Hf Hs Hk). unfold bind. destruct (f i) as [a i'|i'| |]; try done.
  destruct Hf as [Hst HP]. specialize (Hg a i' HP (proj1 Hst) (proj1 Hst) Hk).
  destruct (g a i') as [b i2|i2| |]; try done.
  - destruct Hg as [? ?]. split; [by eapply stays_trans|done].
  - by eapply stays_trans.
Qed.

Lemma reads_get {B} (g : istream -> M istream B) Q i : reads k (g i) Q i -> reads k (bind getm g) Q i.
Proof. done. Qed.

Lemma reads_tryb (f : M istream A) P i : reads k f P i ->
  reads k (tryb f) (fun o i' => match o with Some a => P a i' | None => True end) i.
Proof. intros Hf Hs Hk. specialize (Hf Hs Hk). unfold tryb. by destruct (f i). Qed.

Lemma reads_mono (f : M istream A) P Q i : reads k f P i -> (forall a i', P a i' -> Q a i') -> reads k f Q i.
Proof. intros Hf H Hs Hk. specialize (Hf Hs Hk). destruct (f i); try done. destruct Hf. split; auto. Qed.

(** What a reader that ends is known to return. *)
Lemma reads_total (f : M istream A) P Q i : reads k f P i -> total f i Q -> reads k f (fun a i' => P a i' /\ Q a i') i.
Proof.
  intros Hf Ht Hs Hk. specialize (Hf Hs Hk). specialize (Ht (proj1 Hs)).
  destruct (f i); try done. destruct Hf, Ht. auto.
Qed.
End Rules.

Create HintDb readers.
#[export] Hint Resolve reads_ret reads_fail reads_nofuel reads_error : readers.

Ltac rd_step :=
  match goal with
  | |- reads _ (bind getm _) _ _ => apply reads_get
  | |- reads _ (ret _) _ _ => apply reads_ret
  | |- reads _ (if ?b then _ else _) _ _ => let E := fresh "E" in destruct b eqn:E
  | |- reads _ _ _ _ => solve [eauto with readers]
  end.
Ltac rd_bind L := eapply reads_bind; [apply L|].

(** ** The readers *)

Lemma reads_icallback k n i : 0 < n <= i_bytes_left i ->
  stream_safe k i -> 0 <= k ->
  match call_icallback n i with
  | Ret bs i' => zlen bs = n /\ stays k i (set_bytes_left (i_bytes_left i' - n) i')
  | Fail i' => stays k i i'
  | Ub => False
  | NoFuel => True
  end.
Proof.
  destruct i as [cb st l err]. intros Hn [[Hl Hok] Hroom] Hk. cbn in Hn, Hl, Hok, Hroom. unfold call_icallback. cbn.
  destruct cb as [|f]; cbn in *.
  - unfold buf_read. cbn. bool_false (zlen st <? n). split; [by rewrite zlen_ztake by lia|].
    assert (Hz : zlen (zdrop n st) = zlen st - n) by (apply zlen_zdrop; lia).
    rewrite <- (ztake_zdrop n st) in Hok. apply Forall_app in Hok as [_ Hd].
    split; [|done]. split; cbn; [split; [cbn; lia|done]|lia].
  - specialize (Hroom st n) as Hlen. specialize (Hok st n) as Hb. destruct (f st n) as [[[] bs] st'] eqn:Ef; cbn in *.
    + split; [by apply Hlen|]. split; [|done]. split; cbn; [split; [cbn; lia|done]|done].
    + split; [|done]. split; cbn; [split; [cbn; lia|done]|done].
Qed.

Lemma reads_read k n i : 0 <= n -> reads k (pb_read n) (fun bs _ => zlen bs = n) i.
Proof.
  intros Hn. unfold pb_read. destruct (Z.eqb_spec n 0) as [->|Hn0]; [by apply reads_ret|].
  apply reads_get. destruct (Z.ltb_spec (i_bytes_left i) n) as [Hlt|Hge]; [apply reads_error|].
  intros Hs Hk. pose proof (reads_icallback k n i ltac:(lia) Hs Hk) as H.
  unfold bind, tryb. destruct (call_icallback n i) as [bs i'|i'| |]; try done.
  cbn. by destruct H.
Qed.

Lemma reads_readbyte k i : reads k pb_readbyte anyr i.
Proof.
  intros Hs Hk. pose proof (reads_read k 1 i ltac:(lia) Hs Hk) as Hr. revert Hr.
  unfold pb_readbyte, pb_read, bind, getm. change (1 =? 0) with false.
  destruct Hs as [[H0 _] _]. change (0 <= i_bytes_left i) in H0.
  destruct (Z.eqb_spec (i_bytes_left i) 0) as [E|E].
  - bool_true (i_bytes_left i <? 1). done.
  - bool_false (i_bytes_left i <? 1). destruct (tryb (call_icallback 1) i) as [[bs|] i1|i1| |]; try done.
    cbn. intros [Ha Hl]. destruct bs as [|b bs]; [done|]. by cbn.
Qed.

Lemma reads_varint32_loop k fuel : forall bitpos result i, reads k (varint32_loop fuel bitpos result) anyr i.
Proof.
  induction fuel as [|fuel IH]; intros bitpos result i; cbn [varint32_loop]; [done|].
  rd_bind reads_readbyte. intros b i1 _ _. eapply (reads_bind _ _ _ anyr).
  - by repeat rd_step.
  - intros r i2 _ _. rd_step; [apply IH|by rd_step].
Qed.

Lemma reads_varint32_eof k i : reads k pb_decode_varint32_eof anyr i.
Proof.
  unfold pb_decode_varint32_eof. eapply reads_bind; [apply reads_tryb, reads_readbyte|].
  intros [b|] i1 _ _; [|by repeat rd_step]. eapply (reads_bind _ _ _ anyr).
  - eapply reads_mono; [apply (reads_tryb k _ anyr)|done]. rd_step; [by rd_step|].
    unfold varint32_multibyte. rd_step. rd_bind reads_varint32_loop.
    intros [[r bp] last] i2 _ _. by repeat rd_step.
  - intros v i2 _ _. by rd_step.
Qed.

Lemma reads_varint32 k i : reads k pb_decode_varint32 (fun v _ => 0 <= v < 2 ^ 32) i.
Proof.
  eapply reads_mono; [eapply reads_total; [|apply total_varint32]|by intros v i' [_ [? _]]].
  instantiate (1 := anyr). unfold pb_decode_varint32. rd_bind reads_varint32_eof.
  intros [[v|] eof] i1 _ _; by repeat rd_step.
Qed.

Lemma reads_varint_loop k fuel : forall bitpos result i, reads k (decode_varint_loop fuel bitpos result) anyr i.
Proof.
  induction fuel as [|fuel IH]; intros bitpos result i; cbn [decode_varint_loop]; [done|].
  rd_step; [by rd_step|]. rd_bind reads_readbyte. intros b i1 _ _. rd_step; [apply IH|by rd_step].
Qed.

Lemma reads_varint k i : reads k pb_decode_varint anyr i.
Proof. apply reads_varint_loop. Qed.

Lemma reads_svarint k i : reads k pb_decode_svarint anyr i.
Proof. unfold pb_decode_svarint. rd_bind reads_varint. intros v i1 _ _. by repeat rd_step. Qed.

Lemma reads_fixed32 k i : reads k pb_decode_fixed32 anyr i.
Proof. unfold pb_decode_fixed32. eapply reads_bind; [by apply reads_read|]. intros v i1 _ _. by rd_step. Qed.
Lemma reads_fixed64 k i : reads k pb_decode_fixed64 anyr i.
Proof. unfold pb_decode_fixed64. eapply reads_bind; [by apply reads_read|]. intros v i1 _ _. by rd_step. Qed.

Lemma reads_tag k i : reads k pb_decode_tag
  (fun r _ => match r.1 with Some p => 0 <= p.2 < 2 ^ 29 | None => True end) i.
Proof.
  eapply reads_mono; [eapply reads_total; [|apply total_tag]|].
  - instantiate (1 := anyr). unfold pb_decode_tag. rd_bind reads_varint32_eof.
    intros [[t|] eof] i1 _ _; by repeat rd_step.
  - intros [[p|] eof] i' [_ H]; [apply H|done].
Qed.

Lemma reads_skip_loop k fuel : forall count i, 0 <= count -> reads k (pb_read_skip_loop fuel count) anyr i.
Proof.
  induction fuel as [|fuel IH]; intros count i Hc; cbn [pb_read_skip_loop]; [done|]. rd_step.
  - apply Z.ltb_lt in E. eapply reads_bind; [by apply reads_read|]. intros. apply IH. lia.
  - eapply reads_bind; [by apply reads_read|]. intros. by rd_step.
Qed.

Lemma reads_read_null k count i : 0 <= count -> reads k (pb_read_null count) anyr i.
Proof.
  intros Hc. unfold pb_read_null. rd_step; [by rd_step|]. rd_step. destruct (i_callback i).
  - eapply reads_bind; [by apply reads_read|]. intros. by rd_step.
  - by apply reads_skip_loop.
Qed.

Lemma reads_skip_varint k fuel : forall i, reads k (skip_varint_loop fuel) anyr i.
Proof.
  induction fuel as [|fuel IH]; intros i; cbn [skip_varint_loop]; [done|].
  eapply reads_bind; [by apply (reads_read k 1)|]. intros bs i1 Hl _.
  destruct bs as [|b bs]; [done|]. cbn. unfold of_opt. eapply (reads_bind _ _ _ anyr); [by split|].
  intros b' i2 _ _. rd_step; [apply IH|by rd_step].
Qed.

Lemma reads_skip_field k wt i : reads k (pb_skip_field wt) anyr i.
Proof.
  unfold pb_skip_field. repeat rd_step.
  - apply reads_get. apply reads_skip_varint.
  - by apply reads_read_null.
  - unfold pb_skip_string. rd_bind reads_varint32. intros n i1 [Hn _] _. by apply reads_read_null.
  - by apply reads_read_null.
Qed.

(** ** Substreams *)

(** The substream and what is left of its parent share the bytes. *)
Lemma reads_make k i : reads k pb_make_string_substream
  (fun sub i' => stream_safe (k + i_bytes_left i') sub /\ i_callback sub = i_callback i') i.
Proof.
  unfold pb_make_string_substream. rd_bind reads_varint32. intros n i1 [Hn _] _. apply reads_get.
  destruct (Z.ltb_spec (i_bytes_left i1) n) as [H|H]; [by rd_step|].
  intros [[Hl Hok] Hroom] Hk. destruct i1 as [cb st l err]. cbn in *.
  split; (split; [|done]); (split; [split; [cbn; lia|done]|]); cbn; destruct cb; cbn in *; done || lia.
Qed.

(** Closing the substream gives the parent what the substream has not used. *)
Lemma reads_close k sub i : stream_safe (k + i_bytes_left i) sub -> i_callback sub = i_callback i ->
  reads k (pb_close_string_substream sub) anyr i.
Proof.
  intros Hsub Hcb Hs Hk. unfold pb_close_string_substream.
  assert (Hl : 0 <= i_bytes_left i) by apply Hs. assert (Hls : 0 <= i_bytes_left sub) by apply Hsub.
  assert (Hr : reads (k + i_bytes_left i)
    (if i_bytes_left sub =? 0 then ret tt else pb_read_null (i_bytes_left sub)) anyr sub).
  { rd_step; [by rd_step|]. by apply reads_read_null. }
  specialize (Hr Hsub ltac:(lia)). revert Hr.
  match goal with |- match ?r with _ => _ end -> _ => destruct r as [[] sub'|sub'| |] end;
    intros Hr; try done.
  destruct Hr as [[[[Hl' Hok'] Hroom'] Hc] _]. rewrite Hcb in Hc.
  split; [|done]. split; [|done]. destruct i as [cb st l err], sub' as [cb' st' l' err']. cbn in *. subst cb'.
  split; [split; [done|done]|]. cbn. destruct cb; cbn in *; [lia|done].
Qed.
