(* ===== verification/PbSchema.v ===== *)
(** * nanopb decoder: the message types whose memory is accounted for

    The members of a message struct as the field iterator walks over them, a test that
    a descriptor array describes such a struct (the members apart from each other, of
    the sizes the field decoders store, submessages included), and the parts of an
    array of bytes. *)
From S2P Require Import Prelude Mem PbIstream PbOstream PbField PbDecode PbMessage PbIter.

(** ** Parts of an array of bytes *)

(** The [n] bytes from [o] on, and the array with [d] in their place. *)
Definition cut (l : list Z) (o n : Z) : list Z := ztake n (zdrop o l).
Definition put (l : list Z) (o : Z) (d : list Z) : list Z := ztake o l ++ d ++ zdrop (o + zlen d) l.

Definition apart (s t : Z * Z) : Prop := s.2 = 0 \/ t.2 = 0 \/ s.1 + s.2 <= t.1 \/ t.1 + t.2 <= s.1.
Definition apartb (s t : Z * Z) : bool :=
  (s.2 =? 0) || (t.2 =? 0) || (s.1 + s.2 <=? t.1) || (t.1 + t.2 <=? s.1).
Definition inside (size : Z) (s : Z * Z) : Prop := 0 <= s.1 /\ 0 <= s.2 /\ s.1 + s.2 <= size.
Definition insideb (size : Z) (s : Z * Z) : bool := (0 <=? s.1) && (0 <=? s.2) && (s.1 + s.2 <=? size).

(** ** The members of a struct *)

(** The fields with the offsets at which the iterator finds them; no unions. *)
Fixpoint place_after (off : Z) (fields : list pb_field) : list (pb_field * Z) :=
  match fields with
  | [] => []
  | f :: r => (f, off + data_offset f) :: place_after (off + data_offset f + field_span f) r
  end.
Definition place (fields : list pb_field) : list (pb_field * Z) := place_after 0 fields.

Definition is_static (f : pb_field) : bool := PB_ATYPE (ftype f) =? PB_ATYPE_STATIC.
Definition is_repeated (f : pb_field) : bool := PB_HTYPE (ftype f) =? PB_HTYPE_REPEATED.
Definition is_sub (f : pb_field) : bool := PB_LTYPE (ftype f) =? PB_LTYPE_SUBMESSAGE.
Definition is_blob (f : pb_field) : bool :=
  (PB_LTYPE (ftype f) =? PB_LTYPE_STRING) || (PB_LTYPE (ftype f) =? PB_LTYPE_BYTES).
(** The bytes of the [has_] flag or of the counter. *)
Definition size_len (f : pb_field) : Z :=
  if is_repeated f then 4
  else if (PB_HTYPE (ftype f) =? PB_HTYPE_OPTIONAL) && is_static f && negb (size_offset f =? 0)
  then 1 else 0.
(** An array element: a pointer field of strings or bytes has pointers in its array. *)
Definition item_size (f : pb_field) : Z :=
  if negb (is_static f) && is_blob f then 8 else data_size f.

Definition data_slot (p : pb_field * Z) : Z * Z := (p.2, field_span p.1).
Definition size_slot (p : pb_field * Z) : Z * Z := (p.2 + size_offset p.1, size_len p.1).
Definition slots (l : list (pb_field * Z)) : list (Z * Z) := flat_map (fun p => [data_slot p; size_slot p]) l.

Fixpoint all_apart (l : list (Z * Z)) : bool :=
  match l with [] => true | s :: r => forallb (apartb s) r && all_apart r end.

(** ** The descriptors *)

Definition width_ok (f : pb_field) : bool :=
  let t := PB_LTYPE (ftype f) in
  if t =? PB_LTYPE_FIXED32 then 4 <=? data_size f
  else if t =? PB_LTYPE_FIXED64 then 8 <=? data_size f
  else true.

Definition field_ok (e : env) (sub : list pb_field -> Z -> bool) (f : pb_field) : bool :=
  let t := PB_LTYPE (ftype f) in
  negb (tag f =? 0) &&
  ((PB_ATYPE (ftype f) =? PB_ATYPE_STATIC) || (PB_ATYPE (ftype f) =? PB_ATYPE_POINTER)) &&
  negb (PB_HTYPE (ftype f) =? PB_HTYPE_ONEOF) &&
  ((t <=? PB_LTYPE_SUBMESSAGE) || (t =? PB_LTYPE_FIXED_LENGTH_BYTES)) &&
  (0 <? data_size f) && (data_size f <? 2 ^ 32) && (0 <=? array_size f) && (array_size f <? 2 ^ 32) &&
  width_ok f &&
  (if is_repeated f then negb (size_offset f =? 0) else true) &&
  (if is_static f && is_repeated f
   then negb (is_sub f) && (0 <? array_size f) && (data_size f * array_size f <? 2 ^ 32) else true) &&
  (if negb (is_static f) && is_repeated f && is_blob f then data_size f =? 8 else true) &&
  match ptr f with
  | ptr_submsg i => is_sub f && sub (e_msgs e i) (data_size f)
  | ptr_default l => negb (is_sub f) && (data_size f <=? zlen l)
  | ptr_null => negb (is_sub f)
  end.

(** Submessages nested less than [d] deep in a struct of [size] bytes. *)
Fixpoint schema_ok (e : env) (d : nat) (fields : list pb_field) (size : Z) : bool :=
  match d with
  | O => false
  | S d' =>
      negb (Nat.eqb (length fields) 0) &&
      forallb (insideb size) (slots (place fields)) && all_apart (slots (place fields)) &&
      forallb (field_ok e (schema_ok e d')) fields
  end.

(** The iterator stands on the member [f] at offset [off] of the struct at [a]. *)
Definition at_field (fields : list pb_field) (a : Z) (it : pb_field_iter) (f : pb_field) (off : Z) : Prop :=
  it_start it = fields /\ place fields !! it_pos it = Some (f, off) /\ dest_struct it = a /\
  pData it = a + off /\ pSize it = a + off + size_offset f.

(** ** Lemmas on parts *)

Lemma lookup_cut l o n i : 0 <= o ->
  cut l o n !! i = if decide (Z.of_nat i < n) then l !! (Z.to_nat o + i)%nat else None.
Proof.
  intros Ho. unfold cut, ztake, zdrop. case_decide.
  - by rewrite lookup_take_lt, lookup_drop by lia.
  - by rewrite lookup_take_ge by lia.
Qed.

Lemma lookup_put l o d i : 0 <= o -> o + zlen d <= zlen l ->
  put l o d !! i = if decide (o <= Z.of_nat i < o + zlen d) then d !! (i - Z.to_nat o)%nat else l !! i.
Proof.
  unfold put, ztake, zdrop, zlen. intros Ho Hl.
  destruct (decide (Z.of_nat i < o)) as [H|H].
  - rewrite lookup_app_l by (rewrite length_take; lia). rewrite lookup_take_lt by lia.
    by rewrite decide_False by lia.
  - rewrite lookup_app_r, length_take by (rewrite length_take; lia).
    replace (Z.to_nat o `min` length l)%nat with (Z.to_nat o) by lia.
    destruct (decide (Z.of_nat i < o + Z.of_nat (length d))) as [H2|H2].
    + by rewrite lookup_app_l, decide_True by lia.
    + rewrite lookup_app_r, lookup_drop, decide_False by lia. f_equal. lia.
Qed.

Lemma zlen_put l o d : 0 <= o -> o + zlen d <= zlen l -> zlen (put l o d) = zlen l.
Proof.
  intros Ho Hl. pose proof (zlen_nonneg d). unfold put. rewrite !zlen_app, zlen_ztake, zlen_zdrop; lia.
Qed.
Lemma zlen_cut l o n : 0 <= o -> 0 <= n -> o + n <= zlen l -> zlen (cut l o n) = n.
Proof. intros. unfold cut. rewrite zlen_ztake; [done|]. rewrite zlen_zdrop; lia. Qed.

Lemma cut_put l o d : 0 <= o -> o + zlen d <= zlen l -> cut (put l o d) o (zlen d) = d.
Proof.
  intros Ho Hl. apply list_eq. intros i. rewrite lookup_cut, lookup_put by done. unfold zlen in *.
  case_decide.
  - rewrite decide_True by lia. f_equal. lia.
  - symmetry. apply lookup_ge_None_2. lia.
Qed.

Lemma cut_put_apart l o d o' n' : 0 <= o -> o + zlen d <= zlen l -> 0 <= o' -> apart (o, zlen d) (o', n') ->
  cut (put l o d) o' n' = cut l o' n'.
Proof.
  intros Ho Hl Ho' Ha. apply list_eq. intros i. rewrite !lookup_cut by done. case_decide; [|done].
  rewrite lookup_put, decide_False by (unfold apart in Ha; cbn in *; lia). done.
Qed.

Lemma put_nil l o : 0 <= o <= zlen l -> put l o [] = l.
Proof. intros Ho. unfold put. rewrite zlen_nil, Z.add_0_r. apply ztake_zdrop. Qed.

Lemma cut_0 l o : cut l o 0 = [].
Proof. done. Qed.
Lemma cut_all l : cut l 0 (zlen l) = l.
Proof. unfold cut, zdrop, ztake, zlen. rewrite Nat2Z.id. cbn [Z.to_nat drop]. apply firstn_all. Qed.

(** [l] around a part of it. *)
Lemma cut_split l o n : 0 <= o -> 0 <= n -> l = ztake o l ++ cut l o n ++ zdrop (o + n) l.
Proof.
  intros Ho Hn. unfold cut, ztake, zdrop. rewrite Z2Nat.inj_add, <- drop_drop by done.
  by rewrite take_drop, take_drop.
Qed.

Lemma put_app A B C d : zlen d = zlen B -> put (A ++ B ++ C) (zlen A) d = A ++ d ++ C.
Proof.
  intros E. unfold put. rewrite ztake_app. do 2 f_equal. rewrite E, <- zlen_app, app_assoc. apply zdrop_app.
Qed.
Lemma cut_app A B C : cut (A ++ B ++ C) (zlen A) (zlen B) = B.
Proof. unfold cut. by rewrite zdrop_app, ztake_app. Qed.

(** Two parts, the first before the second. *)
Lemma split_two l o1 n1 o2 n2 : 0 <= o1 -> 0 <= n1 -> o1 + n1 <= o2 -> 0 <= n2 -> o2 + n2 <= zlen l ->
  exists A B C D E : list Z, l = A ++ B ++ C ++ D ++ E /\ zlen A = o1 /\ zlen B = n1 /\
    o2 = zlen (A ++ B ++ C) /\ zlen D = n2.
Proof.
  intros H1 H2 H3 H4 H5. pose proof (cut_split l o2 n2 ltac:(lia) H4) as E.
  assert (Ht : zlen (ztake o2 l) = o2) by (apply zlen_ztake; lia).
  pose proof (cut_split (ztake o2 l) o1 n1 H1 H2) as E2.
  exists (ztake o1 (ztake o2 l)), (cut (ztake o2 l) o1 n1), (zdrop (o1 + n1) (ztake o2 l)),
    (cut l o2 n2), (zdrop (o2 + n2) l).
  split_and!.
  - rewrite E at 1. rewrite E2 at 1. by rewrite <- !app_assoc.
  - apply zlen_ztake. lia.
  - apply zlen_cut; lia.
  - by rewrite <- E2.
  - apply zlen_cut; lia.
Qed.

Lemma apartb_spec s t : apartb s t = true <-> apart s t.
Proof. unfold apartb, apart. rewrite !orb_true_iff, !Z.eqb_eq, !Z.leb_le. tauto. Qed.
Lemma apart_sym s t : apart s t -> apart t s.
Proof. unfold apart. tauto. Qed.
Lemma insideb_spec size s : insideb size s = true <-> inside size s.
Proof. unfold insideb, inside. rewrite !andb_true_iff, !Z.leb_le. tauto. Qed.

Lemma all_apart_spec l i j s t : all_apart l = true -> l !! i = Some s -> l !! j = Some t -> i <> j -> apart s t.
Proof.
  intros Hl. assert (H : forall i j s t, l !! i = Some s -> l !! j = Some t -> (i < j)%nat -> apart s t).
  { clear i j s t. induction l as [|x l IH]; intros i j s t Hi Hj Hij; [done|].
    cbn [all_apart] in Hl. apply andb_true_iff in Hl as [Hx Hl]. destruct j as [|j]; [lia|].
    destruct i as [|i]; cbn in Hi, Hj.
    - injection Hi as ->. rewrite forallb_forall in Hx. apply apartb_spec, Hx, list_elem_of_In.
      by apply list_elem_of_lookup_2 in Hj.
    - eapply (IH Hl i j); try done. lia. }
  intros Hi Hj Hne. destruct (Nat.lt_ge_cases i j); [by eapply H|]. apply apart_sym. eapply H; try done. lia.
Qed.

(** ** Lemmas on the members *)

Lemma slots_lookup l k p : l !! k = Some p ->
  slots l !! (2 * k)%nat = Some (data_slot p) /\ slots l !! S (2 * k) = Some (size_slot p).
Proof.
  revert k. induction l as [|q l IH]; intros [|k] Hk; cbn in Hk; try done.
  - by injection Hk as ->.
  - replace (2 * S k)%nat with (S (S (2 * k))) by lia. exact (IH k Hk).
Qed.

Lemma place_fields fields : map fst (place fields) = fields.
Proof.
  unfold place. generalize 0. induction fields as [|f r IH]; intros o; cbn [place_after map]; [done|].
  by rewrite IH.
Qed.

(** What the test says of one field. *)
Record field_wf (e : env) (sub : list pb_field -> Z -> bool) (f : pb_field) : Prop := {
  wf_tag : tag f <> 0;
  wf_atype : PB_ATYPE (ftype f) = if is_static f then PB_ATYPE_STATIC else PB_ATYPE_POINTER;
  wf_oneof : PB_HTYPE (ftype f) <> PB_HTYPE_ONEOF;
  wf_ltype : PB_LTYPE (ftype f) <= PB_LTYPE_SUBMESSAGE \/ PB_LTYPE (ftype f) = PB_LTYPE_FIXED_LENGTH_BYTES;
  wf_data : 0 < data_size f < 2 ^ 32;
  wf_array : 0 <= array_size f < 2 ^ 32;
  wf_width : width_ok f = true;
  wf_counter : is_repeated f = true -> size_offset f <> 0;
  wf_items : is_static f = true -> is_repeated f = true -> is_sub f = false /\ 0 < array_size f /\ data_size f * array_size f < 2 ^ 32;
  wf_pointers : is_static f = false -> is_repeated f = true -> is_blob f = true -> data_size f = 8;
  wf_sub : is_sub f = true -> exists fs, submsg_fields e (ptr f) = Some fs /\ sub fs (data_size f) = true;
  wf_default : is_sub f = false -> match ptr f with
    | ptr_submsg _ => False | ptr_default l => data_size f <= zlen l | ptr_null => True end }.

Lemma field_ok_wf e sub f : field_ok e sub f = true -> field_wf e sub f.
Proof.
  unfold field_ok. cbv zeta. rewrite !andb_true_iff, !negb_true_iff, !Z.ltb_lt, Z.leb_le, !orb_true_iff.
  rewrite !Z.eqb_eq, !Z.eqb_neq, Z.leb_le.
  intros ((((((((((((Ht & Ha) & Ho) & Hl) & Hd1) & Hd2) & Ha1) & Ha2) & Hw) & Hc) & Hi) & Hp) & Hs).
  split; try done.
  - unfold is_static. by destruct Ha as [-> | ->].
  - intros E. rewrite E in Hc. by apply negb_true_iff, Z.eqb_neq in Hc.
  - intros E1 E2. rewrite E1, E2 in Hi. change (negb (is_sub f) && (0 <? array_size f) && (data_size f * array_size f <? 2 ^ 32) = true) in Hi.
    rewrite !andb_true_iff, negb_true_iff, !Z.ltb_lt in Hi. tauto.
  - intros E1 E2 E3. rewrite E1, E2, E3 in Hp. by apply Z.eqb_eq.
  - intros E. destruct (ptr f); rewrite E in Hs; cbn in Hs; try done. exists (e_msgs e i). done.
  - intros E. destruct (ptr f); rewrite E in Hs; cbn in Hs; try done. by apply Z.leb_le.
Qed.

Record struct_wf (e : env) (d : nat) (fields : list pb_field) (size : Z) : Prop := {
  sw_nonempty : fields <> [];
  sw_fields : Forall (field_wf e (schema_ok e d)) fields;
  sw_inside : forall i s, slots (place fields) !! i = Some s -> inside size s;
  sw_apart : forall i j s t, slots (place fields) !! i = Some s -> slots (place fields) !! j = Some t ->
    i <> j -> apart s t }.

Lemma schema_wf e d fields size : schema_ok e (S d) fields size = true -> struct_wf e d fields size.
Proof.
  cbn [schema_ok]. rewrite !andb_true_iff, negb_true_iff, Nat.eqb_neq, !forallb_forall.
  intros (((Hn & Hi) & Ha) & Hf). split.
  - by intros ->.
  - apply List.Forall_forall. intros f Hin. by apply field_ok_wf, Hf.
  - intros i s Hs. apply insideb_spec, Hi, list_elem_of_In. by eapply list_elem_of_lookup_2.
  - intros i j s t. by apply all_apart_spec.
Qed.

Section Struct.
Context (e : env) (d : nat) (fields : list pb_field) (size : Z).
Hypothesis Hwf : struct_wf e d fields size.
Let sub := schema_ok e d.

Lemma place_lookup k f off : place fields !! k = Some (f, off) -> fields !! k = Some f /\ field_wf e sub f.
Proof.
  intros H. assert (Hf : fields !! k = Some f).
  { rewrite <- (place_fields fields), list_lookup_fmap, H. done. }
  split; [done|]. exact (Forall_lookup_1 _ _ _ _ (sw_fields _ _ _ _ Hwf) Hf).
Qed.

Lemma member_slots k p : place fields !! k = Some p ->
  inside size (data_slot p) /\ inside size (size_slot p) /\ apart (data_slot p) (size_slot p).
Proof.
  intros H. destruct (slots_lookup _ _ _ H) as [Hd Hs]. split_and!.
  - exact (sw_inside _ _ _ _ Hwf _ _ Hd).
  - exact (sw_inside _ _ _ _ Hwf _ _ Hs).
  - refine (sw_apart _ _ _ _ Hwf _ _ _ _ Hd Hs _). lia.
Qed.

Lemma members_apart k j p q : place fields !! k = Some p -> place fields !! j = Some q -> k <> j ->
  apart (data_slot p) (data_slot q) /\ apart (data_slot p) (size_slot q) /\
  apart (size_slot p) (data_slot q) /\ apart (size_slot p) (size_slot q).
Proof.
  intros Hp Hq Hne. destruct (slots_lookup _ _ _ Hp) as [Hpd Hps], (slots_lookup _ _ _ Hq) as [Hqd Hqs].
  split_and!; eapply (sw_apart _ _ _ _ Hwf); try done; lia.
Qed.

(** Writing one member leaves the others. *)
Lemma other_member k j p q l ld ls : place fields !! k = Some p -> place fields !! j = Some q -> k <> j ->
  zlen l = size -> zlen ld = field_span p.1 -> zlen ls = size_len p.1 ->
  let l' := put (put l p.2 ld) (p.2 + size_offset p.1) ls in
  cut l' q.2 (field_span q.1) = cut l q.2 (field_span q.1) /\
  cut l' (q.2 + size_offset q.1) (size_len q.1) = cut l (q.2 + size_offset q.1) (size_len q.1).
Proof.
  intros Hp Hq Hne El Ed Es l'. destruct (members_apart _ _ _ _ Hp Hq Hne) as (H1 & H2 & H3 & H4).
  destruct (member_slots _ _ Hp) as (Hi1 & Hi2 & _), (member_slots _ _ Hq) as (Hj1 & Hj2 & _).
  unfold inside, data_slot, size_slot in *. cbn [fst snd] in *. rewrite <- Ed, <- Es in *. subst l'.
  rewrite !cut_put_apart; try done; rewrite ?zlen_put; lia.
Qed.

(** The parts of the member that was written. *)
Lemma this_member k p l ld ls : place fields !! k = Some p ->
  zlen l = size -> zlen ld = field_span p.1 -> zlen ls = size_len p.1 ->
  let l' := put (put l p.2 ld) (p.2 + size_offset p.1) ls in
  zlen l' = size /\ cut l' p.2 (field_span p.1) = ld /\ cut l' (p.2 + size_offset p.1) (size_len p.1) = ls.
Proof.
  intros Hp El Ed Es l'. destruct (member_slots _ _ Hp) as (Hi1 & Hi2 & Ha).
  unfold inside, data_slot, size_slot in *. cbn [fst snd] in *. rewrite <- Ed, <- Es in *. subst l'. split_and!.
  - rewrite !zlen_put; rewrite ?zlen_put; lia.
  - rewrite cut_put_apart, cut_put by (try (by apply apart_sym); rewrite ?zlen_put; lia). done.
  - rewrite cut_put by (rewrite ?zlen_put; lia). done.
Qed.

(** ** The iterator *)

Lemma place_after_lookup l : forall o k p q, place_after o l !! k = Some p -> place_after o l !! S k = Some q ->
  q.2 = p.2 + field_span p.1 + data_offset q.1.
Proof.
  induction l as [|f r IH]; intros o k p q Hp Hq; [done|]. destruct k as [|k]; cbn in Hp, Hq; [|by eapply IH].
  injection Hp as <-. destruct r as [|g r]; [done|]. cbn in Hq. by injection Hq as <-.
Qed.

Lemma at_field_fields it f off a : at_field fields a it f off -> pos it = f /\ field_wf e sub f.
Proof.
  intros (Hs & Hp & _). destruct (place_lookup _ _ _ Hp) as [Hf Hfw]. split; [|done].
  unfold pos. rewrite Hs. by apply field_at_lookup.
Qed.

Lemma at_field_begin a : a <> NULL -> exists it f off, pb_field_iter_begin fields a = (true, it) /\
  at_field fields a it f off /\ it_pos it = 0%nat.
Proof.
  intros Ha. pose proof (sw_nonempty _ _ _ _ Hwf) as Hne.
  assert (E : exists f r, fields = f :: r) by (destruct fields; [done|eauto]). destruct E as (f & r & E).
  unfold pb_field_iter_begin. rewrite E. bool_false (a =? NULL). cbn [field_at nth].
  eexists _, f, (data_offset f). split.
  { destruct (place_lookup 0 f (data_offset f)) as [_ Hf]; [by rewrite E|].
  pose proof (wf_tag _ _ _ Hf). bool_false (tag f =? 0). reflexivity. }
  rewrite <- E. split; [|done]. split; [done|]. split; [by rewrite E|]. repeat split.
Qed.

Lemma span_64 f : field_wf e sub f ->
  (if (PB_ATYPE (ftype f) =? PB_ATYPE_STATIC) && (PB_HTYPE (ftype f) =? PB_HTYPE_REPEATED)
   then u64 (field_span f) else field_span f) = field_span f.
Proof.
  intros [_ _ _ _ Hd Ha _ _ _ _ _ _]. unfold field_span. destruct (_ && _); [|done].
  apply wrap_small. change (2 ^ 32) with 4294967296 in *. change (2 ^ 64) with 18446744073709551616.
  assert (data_size f * array_size f <= 4294967295 * 4294967295)
    by (apply Z.mul_le_mono_nonneg; lia).
  split; [apply Z.mul_nonneg_nonneg; lia|lia].
Qed.

Lemma span_positive f : field_wf e sub f -> 0 < field_span f.
Proof.
  intros [_ _ _ _ Hd Ha _ _ Hi _ _ _]. unfold field_span.
  fold (is_static f) (is_repeated f). destruct (is_static f) eqn:Es, (is_repeated f) eqn:Er; cbn;
    try (by destruct (_ =? _); lia).
  destruct (Hi eq_refl eq_refl) as (_ & ? & _). apply Z.mul_pos_pos; lia.
Qed.

(** The next member, or the first one again. *)
Lemma at_field_next a it f off : a <> NULL -> at_field fields a it f off ->
  (exists f' off', at_field fields a (pb_field_iter_next it).2 f' off') /\
  ((pb_field_iter_next it).1 = true -> it_pos (pb_field_iter_next it).2 = S (it_pos it)) /\
  ((pb_field_iter_next it).1 = false -> S (it_pos it) = length fields).
Proof.
  intros Ha0 Hat. destruct (at_field_fields _ _ _ _ Hat) as [Hpos Hf]. destruct Hat as (Hs & Hp & Hst & Hd & Hz).
  destruct (place_lookup _ _ _ Hp) as [Hfk _]. rewrite <- Hs in Hfk.
  destruct (Nat.lt_ge_cases (S (it_pos it)) (length fields)) as [Hlt|Hge].
  - assert (Hlt' : (S (it_pos it) < length (place fields))%nat).
    { rewrite <- (place_fields fields) in Hlt. by rewrite length_map in Hlt. }
    destruct (lookup_lt_is_Some_2 _ _ Hlt') as [[g off'] Hq].
    destruct (place_lookup _ _ _ Hq) as [Hgk Hg]. rewrite <- Hs in Hgk.
    rewrite (iter_next_inside it f g Hfk Hgk) by (by eapply wf_tag).
    assert (Hu : same_union f g = false).
    { unfold same_union. pose proof (wf_oneof _ _ _ Hf). by bool_false (PB_HTYPE (ftype f) =? PB_HTYPE_ONEOF). }
    rewrite Hu, (span_64 f Hf). cbv zeta. cbn [fst snd].
    pose proof (place_after_lookup _ _ _ _ _ Hp Hq) as Hoff. cbn in Hoff.
    split_and!; [|done|done]. exists g, off'. split_and!; cbn; try done; rewrite Hd; lia.
  - assert (length fields = S (it_pos it)).
    { rewrite Hs in Hfk. apply lookup_lt_Some in Hfk. lia. }
    rewrite (iter_next_last it f Hfk) by (rewrite ?Hs; done || by eapply wf_tag). cbn [fst snd].
    split_and!; [|done|done]. rewrite Hs, Hst.
    destruct (at_field_begin a Ha0) as (it0 & f0 & off0 & -> & Hat0 & _). eauto.
Qed.

Lemma at_field_find a found start fuel : a <> NULL -> forall it f off b it',
  at_field fields a it f off -> iter_find_loop fuel it start found = Some (b, it') ->
  exists f' off', at_field fields a it' f' off' /\ (b = true -> found f' = true).
Proof.
  intros Ha0. induction fuel as [|fuel IH]; intros it f off b it' Hat H; [done|]. cbn [iter_find_loop] in H.
  destruct (found (pos it)) eqn:Ef.
  - injection H as <- <-. exists f, off. split; [done|]. by rewrite <- (proj1 (at_field_fields _ _ _ _ Hat)).
  - destruct (at_field_next a it f off Ha0 Hat) as [(f' & off' & Hat') _].
    destruct (Nat.eqb _ _); [injection H as <- <-; by exists f', off'|by eapply IH].
Qed.
End Struct.

(** ** The sizes of a member *)

Section Sizes.
Context (e : env) (sub : list pb_field -> Z -> bool) (f : pb_field).
Hypothesis Hf : field_wf e sub f.

Lemma span_item : is_static f = true -> is_repeated f = false -> field_span f = data_size f.
Proof.
  intros Hs Hr. unfold field_span. fold (is_static f) (is_repeated f). rewrite Hr, andb_false_r.
  by rewrite (wf_atype _ _ _ Hf), Hs.
Qed.
Lemma span_pointer : is_static f = false -> field_span f = 8.
Proof.
  intros Hs. unfold field_span. fold (is_static f) (is_repeated f). rewrite Hs. cbn [andb].
  by rewrite (wf_atype _ _ _ Hf), Hs.
Qed.
Lemma atype_pointer : (PB_ATYPE (ftype f) =? PB_ATYPE_POINTER) = negb (is_static f).
Proof. rewrite (wf_atype _ _ _ Hf). by destruct (is_static f). Qed.
Lemma not_oneof : (PB_HTYPE (ftype f) =? PB_HTYPE_ONEOF) = false.
Proof. apply Z.eqb_neq. exact (wf_oneof _ _ _ Hf). Qed.
Lemma not_extension : (PB_LTYPE (ftype f) =? PB_LTYPE_EXTENSION) = false.
Proof.
  apply Z.eqb_neq. destruct (wf_ltype _ _ _ Hf) as [H|H]; [|by rewrite H].
  unfold PB_LTYPE_SUBMESSAGE, PB_LTYPE_EXTENSION in *. lia.
Qed.
Lemma ltype_below : (PB_LTYPES_COUNT <=? PB_LTYPE (ftype f)) = false.
Proof.
  apply Z.leb_gt. unfold PB_LTYPES_COUNT. destruct (wf_ltype _ _ _ Hf) as [H|H];
    unfold PB_LTYPE_SUBMESSAGE, PB_LTYPE_FIXED_LENGTH_BYTES in *; lia.
Qed.
Lemma htype_cases : PB_HTYPE (ftype f) = PB_HTYPE_REQUIRED \/ PB_HTYPE (ftype f) = PB_HTYPE_OPTIONAL \/
  PB_HTYPE (ftype f) = PB_HTYPE_REPEATED.
Proof.
  pose proof (wf_oneof _ _ _ Hf) as Ho. unfold PB_HTYPE in *. change 0x30 with (Z.shiftl 3 4) in *.
  assert (E : Z.land (ftype f) (Z.shiftl 3 4) = Z.shiftl (Z.land (Z.shiftr (ftype f) 4) 3) 4).
  { apply Z.bits_inj'. intros n Hn. rewrite Z.land_spec, !Z.shiftl_spec, Z.land_spec by done.
    destruct (Z.lt_ge_cases n 4); [rewrite !(Z.testbit_neg_r _ (n - 4)) by lia; by rewrite !andb_false_r|].
    rewrite Z.shiftr_spec by lia. by replace (n - 4 + 4) with n by lia. }
  rewrite E in *. rewrite (land_mask_mod _ 2 3) in * by done.
  pose proof (Z.mod_pos_bound (Z.shiftr (ftype f) 4) (2 ^ 2) ltac:(lia)) as Hb. change (2 ^ 2) with 4 in *.
  destruct (Z.shiftr (ftype f) 4 mod 4) as [|p|p]; [by left| |lia].
  destruct p as [[|?|]|[?|?|]|]; try lia; [by destruct Ho|by right; right|by right; left].
Qed.
Lemma item_size_bounds : 0 < item_size f < 2 ^ 32.
Proof. unfold item_size. pose proof (wf_data _ _ _ Hf). destruct (_ && _); [done|lia]. Qed.
Lemma size_len_flag : is_repeated f = false ->
  (PB_HTYPE (ftype f) =? PB_HTYPE_OPTIONAL) && negb (size_offset f =? 0) = true -> is_static f = true -> size_len f = 1.
Proof. intros Hr Ho Hs. unfold size_len. rewrite Hr, Hs, andb_true_r. by rewrite Ho. Qed.
Lemma size_len_count : is_repeated f = true -> size_len f = 4.
Proof. intros Hr. unfold size_len. by rewrite Hr. Qed.
Lemma sub_not_blob : is_sub f = true -> is_blob f = false.
Proof. unfold is_sub, is_blob. intros ->%Z.eqb_eq. done. Qed.
End Sizes.

Lemma cut_zdrop l m o n : 0 <= m -> 0 <= o -> cut (zdrop m l) o n = cut l (m + o) n.
Proof. intros Hm Ho. unfold cut, zdrop. by rewrite drop_drop, Z2Nat.inj_add. Qed.
Lemma cut_ztake l m o n : 0 <= o -> o + n <= m -> cut (ztake m l) o n = cut l o n.
Proof.
  intros Ho Hm. apply list_eq. intros i. rewrite !lookup_cut by done. case_decide; [|done].
  unfold ztake. by rewrite lookup_take_lt by lia.
Qed.
