(* ===== verification/HeapLogic.v ===== *)
(** * A separation logic of heaps

    The predicates over finite maps, with the separating conjunction that splits a map in
    two, form a logic in the sense of Iris, so that its proof mode works for them.  The
    logic is linear: a predicate describes the whole of its heap, and nothing can be
    dropped.  Cells, assertions about the C memory and the weakest precondition of
    the effect monad follow, and the rules of the memory and of the input stream that
    the proofs about the decoder apply. *)
From stdpp Require Import fin_maps.
From iris.bi Require Import bi.
From iris.proofmode Require Import proofmode.
From S2P Require Import Prelude Mem PbIstream PbOstream PbField PbDecode PbMessage PbTotal PbReaders.

Section Logic.
Context (K V : Type) `{Countable K}.
Abbreviation heap := (gmap K V).

Record hprop : Type := HProp { holds_at : heap -> Prop }.

(** ** Equivalence and entailment, wrapped to keep unification from unfolding them *)

Inductive hequiv (P Q : hprop) : Prop := { hequiv_at : forall h, holds_at P h <-> holds_at Q h }.
Inductive hentails (P Q : hprop) : Prop := { hentails_at : forall h, holds_at P h -> holds_at Q h }.

#[local] Instance hprop_equiv : Equiv hprop := hequiv.
#[local] Instance hprop_equivalence : Equivalence (≡@{hprop}).
Proof.
  split.
  - intros P. by constructor.
  - intros P Q [E]. constructor. intros h. by rw E.
  - intros P Q R [E1] [E2]. constructor. intros h. by rw E1 E2.
Qed.
Canonical Structure hpropO : ofe := discreteO hprop.

(** ** The connectives *)

Definition h_emp : hprop := HProp (fun h => h = ∅).
Definition h_pure (φ : Prop) : hprop := HProp (fun _ => φ).
Definition h_and (P Q : hprop) : hprop := HProp (fun h => holds_at P h /\ holds_at Q h).
Definition h_or (P Q : hprop) : hprop := HProp (fun h => holds_at P h \/ holds_at Q h).
Definition h_impl (P Q : hprop) : hprop := HProp (fun h => holds_at P h -> holds_at Q h).
Definition h_forall (A : Type) (Φ : A -> hprop) : hprop := HProp (fun h => forall a, holds_at (Φ a) h).
Definition h_exist (A : Type) (Φ : A -> hprop) : hprop := HProp (fun h => exists a, holds_at (Φ a) h).
Definition h_sep (P Q : hprop) : hprop :=
  HProp (fun h => exists h1 h2, h = h1 ∪ h2 /\ h1 ##ₘ h2 /\ holds_at P h1 /\ holds_at Q h2).
Definition h_wand (P Q : hprop) : hprop :=
  HProp (fun h => forall h', h ##ₘ h' -> holds_at P h' -> holds_at Q (h ∪ h')).
Definition h_persistently (P : hprop) : hprop := h_pure (hentails h_emp P).
Definition h_later (P : hprop) : hprop := P.
(** One binding of the heap. *)
Definition h_cell (k : K) (v : V) : hprop := HProp (fun h => h = {[k := v]}).

#[local] Instance hentails_preorder : PreOrder hentails.
Proof.
  split; [by intros P; constructor|]. intros P Q R [H1] [H2]. constructor. auto.
Qed.

(** Each law, after the wrappers are taken off. *)
Local Ltac by_heaps := intros; repeat match goal with
  | H : hentails _ _ |- _ => destruct H as [H]
  | |- hentails _ _ => constructor; intros ? ?
  end.

Lemma h_mixin : BiMixin hentails h_emp h_pure h_and h_or h_impl h_forall h_exist h_sep h_wand.
Proof.
  split.
  - apply _.
  - intros P Q. split.
    + intros [E]. split; constructor; intros h; by apply E.
    + intros [[H1] [H2]]. constructor. intros h. split; auto.
  - intros n φ ψ E. constructor. done.
  - intros n P P' [EP] Q Q' [EQ]. constructor. intros h. cbn. by rw EP EQ.
  - intros n P P' [EP] Q Q' [EQ]. constructor. intros h. cbn. by rw EP EQ.
  - intros n P P' [EP] Q Q' [EQ]. constructor. intros h. cbn. by rw EP EQ.
  - intros A n Φ Ψ E. constructor. intros h. cbn. split; intros Ha a; apply (hequiv_at _ _ (E a)), Ha.
  - intros A n Φ Ψ E. constructor. intros h. cbn. split; intros [a Ha]; exists a; by apply (hequiv_at _ _ (E a)).
  - intros n P P' [EP] Q Q' [EQ]. constructor. intros h. cbn.
    split; intros (h1 & h2 & -> & Hd & HP & HQ); exists h1, h2; (split_and!; [done|done|by apply EP|by apply EQ]).
  - intros n P P' [EP] Q Q' [EQ]. constructor. intros h. cbn.
    split; intros Hw h' Hd HP; apply EQ, Hw; try done; by apply EP.
  - by_heaps. done.
  - intros φ P HP. constructor. intros h Hφ. by apply (hentails_at _ _ (HP Hφ)).
  - intros P Q. constructor. by intros h [? ?].
  - intros P Q. constructor. by intros h [? ?].
  - intros P Q R [H1] [H2]. constructor. intros h HP. split; auto.
  - intros P Q. constructor. intros h HP. by left.
  - intros P Q. constructor. intros h HP. by right.
  - intros P Q R [H1] [H2]. constructor. intros h [HP|HQ]; auto.
  - intros P Q R [H1]. constructor. intros h HP HQ. apply H1. by split.
  - intros P Q R [H1]. constructor. intros h [HP HQ]. by apply H1.
  - intros A P Ψ HΨ. constructor. intros h HP a. by apply (hentails_at _ _ (HΨ a)).
  - intros A Ψ a. constructor. intros h HΨ. apply HΨ.
  - intros A Ψ a. constructor. intros h HΨ. by exists a.
  - intros A Φ Q HΦ. constructor. intros h [a Ha]. by apply (hentails_at _ _ (HΦ a)).
  - intros P P' Q Q' [H1] [H2]. constructor. intros h (h1 & h2 & -> & Hd & HP & HQ).
    exists h1, h2. split_and!; auto.
  - intros P. constructor. intros h HP. exists ∅, h. rw left_id_L. split_and!; [done|apply map_disjoint_empty_l|done|done].
  - intros P. constructor. intros h (h1 & h2 & -> & Hd & -> & HP). by rw left_id_L.
  - intros P Q. constructor. intros h (h1 & h2 & -> & Hd & HP & HQ). exists h2, h1.
    rw map_union_comm //.
  - intros P Q R. constructor. intros h (h12 & h3 & -> & Hd & (h1 & h2 & -> & Hd12 & HP & HQ) & HR).
    apply map_disjoint_union_l in Hd as [Hd1 Hd2]. exists h1, (h2 ∪ h3). rw assoc_L.
    split_and!; [done|by apply map_disjoint_union_r|done|]. by exists h2, h3.
  - intros P Q R [H1]. constructor. intros h HP h' Hd HQ. apply H1. by exists h, h'.
  - intros P Q R [H1]. constructor. intros h (h1 & h2 & -> & Hd & HP & HQ). by apply H1.
Qed.

Lemma h_persistently_mixin : BiPersistentlyMixin hentails h_emp h_and h_exist h_sep h_persistently.
Proof.
  eapply bi_persistently_mixin_discrete, h_mixin; [done| |done].
  intros A Φ [HΦ]. destruct (HΦ ∅ eq_refl) as [a Ha]. exists a. constructor. by intros h ->.
Qed.

Lemma h_later_mixin : BiLaterMixin hentails h_pure h_or h_impl h_forall h_exist h_sep h_persistently h_later.
Proof. eapply bi_later_mixin_id, h_mixin. done. Qed.

Canonical Structure hpropI : bi :=
  {| bi_ofe_mixin := ofe_mixin_of hprop;
     bi_bi_mixin := h_mixin; bi_bi_persistently_mixin := h_persistently_mixin;
     bi_bi_later_mixin := h_later_mixin |}.

#[export] Instance hprop_pure_forall : BiPureForall hpropI.
Proof. intros A φ. constructor. done. Qed.
End Logic.


(** * Separation logic for the decoder

    The assertions describe the memory of a decoding run cell by cell: its mapped
    bytes, the live blocks of the heap with their sizes, and the input stream.  [wp f Φ]
    holds of the cells with which [f] runs without undefined behaviour and leaves
    [Φ (Some a)] when it returns [a] and [Φ None] when it fails, whatever the rest of
    the memory holds, and without touching it.  The assertions are linear: a block that
    is neither freed nor in [Φ] is a leak that cannot be hidden. *)

#[local] Open Scope Z_scope.

(** ** Cells *)

Inductive hkey : Type := KByte (a : Z) | KBlock (p : Z) | KStream.
Inductive hval : Type := VZ (z : Z) | VStream (i : istream).

#[export] Instance hkey_eq : EqDecision hkey.
Proof. solve_decision. Defined.
#[export] Instance hkey_countable : Countable hkey.
Proof.
  refine (inj_countable' (fun k => match k with KByte a => inl (inl a) | KBlock p => inl (inr p) | KStream => inr tt end)
    (fun s => match s with inl (inl a) => KByte a | inl (inr p) => KBlock p | inr _ => KStream end) _).
  by intros [].
Defined.

Abbreviation heap := (gmap hkey hval).
Abbreviation iProp := (hpropI hkey hval).

#[export] Instance KByte_inj : Inj (=) (=) KByte.
Proof. by intros a b [= ->]. Qed.

(** What a state has at a cell. *)
Definition cell_of (s : dstate) (k : hkey) : option hval :=
  match k with
  | KByte a => VZ <$> m_bytes (ds_mem s) !! a
  | KBlock p => VZ <$> m_blocks (ds_mem s) !! p
  | KStream => Some (VStream (ds_in s))
  end.
Definition agrees (s : dstate) (h : heap) : Prop := forall k, h !! k = cell_of s k.

(** Nothing is mapped where the next block goes, and less than 4 GiB are left. *)
Record heap_ok (m : mem) : Prop := {
  next_positive : 0 < m_next m;
  limit_64 : m_limit m <= 2 ^ 64;
  room_32 : m_limit m - m_next m < 2 ^ 32;
  bytes_below : forall a, m_next m <= a -> m_bytes m !! a = None;
  blocks_below : forall p, m_next m <= p -> m_blocks m !! p = None }.

(** ** Assertions *)

Definition bheap (a : Z) (l : list Z) : heap := kmap KByte (VZ <$> (map_seqZ a l : gmap Z Z)).
(** The bytes from [a] on are [l]. *)
Definition bytes (a : Z) (l : list Z) : iProp := HProp hkey hval (fun h => h = bheap a l).
(** A live block of [n] bytes starts at [p]. *)
Definition heap_block (p n : Z) : iProp := h_cell hkey hval (KBlock p) (VZ n).
Definition stream_is (i : istream) : iProp := h_cell hkey hval KStream (VStream i).

Definition after_run {A} (z : heap) (Φ : option A -> iProp) (o : option A) (s : dstate) : Prop :=
  exists x, x ##ₘ z /\ heap_ok (ds_mem s) /\ agrees s (x ∪ z) /\ holds_at hkey hval (Φ o) x.
Definition wp {A} (f : M dstate A) (Φ : option A -> iProp) : iProp :=
  HProp hkey hval (fun x => forall s z, x ##ₘ z -> heap_ok (ds_mem s) -> agrees s (x ∪ z) ->
    match f s with
    | Ret a s' => after_run z Φ (Some a) s'
    | Fail s' => after_run z Φ None s'
    | Ub => False
    | NoFuel => True
    end).

(** The continuation of [bind]. *)
Definition andthen {A B} (k : A -> M dstate B) (Φ : option B -> iProp) (o : option A) : iProp :=
  match o with Some a => wp (k a) Φ | None => Φ None end.

(** ** The memory and its cells *)

Lemma lookup_bheap a l b : bheap a l !! KByte b =
  if decide (a <= b) then VZ <$> l !! Z.to_nat (b - a) else None.
Proof.
  unfold bheap. rw lookup_kmap lookup_fmap lookup_map_seqZ. by case_decide; case_guard.
Qed.
Lemma lookup_bheap_other a l k : (forall b, k <> KByte b) -> bheap a l !! k = None.
Proof.
  intros Hk. unfold bheap. apply lookup_kmap_None; [apply _|]. intros b ->. by destruct (Hk b).
Qed.

Lemma bheap_disjoint a l b k : a + zlen l <= b \/ b + zlen k <= a -> bheap a l ##ₘ bheap b k.
Proof.
  unfold zlen. intros H. apply map_disjoint_spec. intros [c|p|] v w.
  - rw !lookup_bheap. do 2 (case_decide; [|done]).
    intros (x & Hx & _)%fmap_Some (y & Hy & _)%fmap_Some.
    apply lookup_lt_Some in Hx, Hy. lia.
  - by rw lookup_bheap_other.
  - by rw lookup_bheap_other.
Qed.

Lemma bheap_app a l k : bheap a (l ++ k) = bheap a l ∪ bheap (a + zlen l) k.
Proof.
  unfold zlen. apply map_eq. intros [c|p|].
  - rw lookup_union !lookup_bheap. destruct (decide (a <= c)) as [H1|H1].
    + destruct (decide (Z.to_nat (c - a) < length l)%nat) as [H2|H2].
      * rw lookup_app_l //. destruct (lookup_lt_is_Some_2 _ _ H2) as [y ->]. cbn.
        rw decide_False; [done|lia].
      * rw lookup_app_r; [|lia]. rw (lookup_ge_None_2 l (Z.to_nat (c - a))); [|lia]. rw decide_True; [|lia].
        replace (Z.to_nat (c - (a + length l))) with (Z.to_nat (c - a) - length l)%nat by lia.
        by destruct (k !! _).
    + rw decide_False; [done|lia].
  - by rw lookup_union !lookup_bheap_other.
  - by rw lookup_union !lookup_bheap_other.
Qed.

Lemma bytes_app a l k : bytes a (l ++ k) ⊣⊢ bytes a l ∗ bytes (a + zlen l) k.
Proof.
  constructor. intros h. cbn. rw bheap_app. split.
  - intros ->. eexists _, _. split_and!; [done| |done|done]. apply bheap_disjoint. lia.
  - by intros (h1 & h2 & -> & _ & -> & ->).
Qed.
Lemma bytes_nil a : bytes a [] ⊣⊢ emp.
Proof. constructor. intros h. cbn. unfold bheap. cbn. by rw fmap_empty kmap_empty. Qed.

(** ** Rules of the monad *)

Section Rules.
Context {A : Type}.

Lemma wp_ret (a : A) Φ : Φ (Some a) ⊢ wp (ret a) Φ.
Proof. constructor. intros x HΦ s z Hd Hm Ha. by exists x. Qed.
Lemma wp_fail Φ : Φ None ⊢ wp (A := A) failm Φ.
Proof. constructor. intros x HΦ s z Hd Hm Ha. by exists x. Qed.
Lemma wp_nofuel P Φ : P ⊢ wp (A := A) nofuelm Φ.
Proof. constructor. done. Qed.

Lemma wp_bind {B} (f : M dstate A) (k : A -> M dstate B) Φ :
  wp f (andthen k Φ) ⊢ wp (bind f k) Φ.
Proof.
  constructor. intros x Hf s z Hd Hm Ha. specialize (Hf s z Hd Hm Ha). unfold bind.
  destruct (f s) as [a s'|s'| |]; [|done..].
  destruct Hf as (x' & Hd' & Hm' & Ha' & Hk). exact (Hk s' z Hd' Hm' Ha').
Qed.

Lemma wp_tryb (f : M dstate A) Φ : wp f (fun o => Φ (Some o)) ⊢ wp (tryb f) Φ.
Proof.
  constructor. intros x Hf s z Hd Hm Ha. specialize (Hf s z Hd Hm Ha). unfold tryb.
  by destruct (f s) as [a s'|s'| |].
Qed.

Lemma wp_wand (f : M dstate A) Ψ Φ : wp f Ψ -∗ (∀ o, Ψ o -∗ Φ o) -∗ wp f Φ.
Proof.
  apply bi.entails_wand, bi.wand_intro_l. constructor. intros x (x2 & x1 & -> & Hd12 & Hw & Hf) s z Hd Hm Ha.
  apply map_disjoint_union_l in Hd as [Hd2 Hd1].
  assert (Hpost : forall o s', after_run (x2 ∪ z) Ψ o s' -> after_run z Φ o s').
  { intros o s' (x' & Hd' & Hm' & Ha' & HΨ). apply map_disjoint_union_r in Hd' as [Hd2' Hdz].
    exists (x2 ∪ x'). split_and!; [by apply map_disjoint_union_l|done| |by apply Hw].
    rw (map_union_comm x2 x') // -assoc_L //. }
  specialize (Hf s (x2 ∪ z)). rw (map_union_comm x2 x1) // -assoc_L in Ha.
  specialize (Hf ltac:(by apply map_disjoint_union_r) Hm Ha).
  destruct (f s) as [a s'|s'| |]; try done; by apply Hpost.
Qed.

Lemma wp_mono (f : M dstate A) Ψ Φ : (forall o, Ψ o ⊢ Φ o) -> wp f Ψ ⊢ wp f Φ.
Proof. iIntros (H) "Hf". iApply (wp_wand with "Hf"). iIntros (o) "Ho". by iApply H. Qed.

Lemma wp_ext (f g : M dstate A) Φ : (forall s, f s = g s) -> wp f Φ ⊢ wp g Φ.
Proof. intros E. constructor. intros x Hf s z. rw -E. apply Hf. Qed.

Lemma wp_of_opt (o : option A) a Φ : o = Some a -> Φ (Some a) ⊢ wp (of_opt o) Φ.
Proof. intros ->. apply wp_ret. Qed.
End Rules.

(** ** Rules of the memory *)

Lemma agrees_byte s a l z i b : agrees s (bheap a l ∪ z) -> l !! i = Some b ->
  m_bytes (ds_mem s) !! (a + Z.of_nat i) = Some b.
Proof.
  intros Ha Hi. specialize (Ha (KByte (a + i))). rw lookup_union lookup_bheap decide_True in Ha; [|lia].
  replace (Z.to_nat (a + i - a)) with i in Ha by lia. rw Hi in Ha. cbn in Ha.
  destruct (m_bytes _ !! _) as [c|]; destruct (z !! _); cbn in Ha; congruence.
Qed.

Lemma agrees_load s a l z : agrees s (bheap a l ∪ z) -> load_bytes (ds_mem s) a (length l) = Some l.
Proof. intros Ha. apply load_bytes_lookup. intros i b. exact (agrees_byte s a l z i b Ha). Qed.

(** The bytes of a range are replaced. *)
Lemma agrees_update s s' a l l' z :
  agrees s (bheap a l ∪ z) -> bheap a l ##ₘ z -> length l' = length l ->
  ds_in s' = ds_in s -> m_blocks (ds_mem s') = m_blocks (ds_mem s) ->
  (forall i b, l' !! i = Some b -> m_bytes (ds_mem s') !! (a + Z.of_nat i) = Some b) ->
  (forall c, c < a \/ a + zlen l <= c -> m_bytes (ds_mem s') !! c = m_bytes (ds_mem s) !! c) ->
  agrees s' (bheap a l' ∪ z) /\ bheap a l' ##ₘ z.
Proof.
  intros Ha Hd El Ei Eb Hin Hout. unfold zlen in Hout. split.
  - intros k. specialize (Ha k). rw lookup_union in Ha. rw lookup_union. destruct k as [c|p|]; cbn in *.
    + rw lookup_bheap in Ha. rw lookup_bheap. destruct (decide (a <= c)) as [Hc|Hc].
      * destruct (decide (Z.to_nat (c - a) < length l)%nat) as [Hl|Hl].
        -- rw -El in Hl. destruct (lookup_lt_is_Some_2 _ _ Hl) as [b Hb]. rw Hb.
           specialize (Hin _ _ Hb). replace (a + Z.to_nat (c - a)) with c in Hin by lia. rw Hin. cbn.
           by destruct (z !! _).
        -- rw Hout; [|lia]. rw -Ha. rw !lookup_ge_None_2 //; lia.
      * rw Hout; [|lia]. by rw -Ha.
    + rw lookup_bheap_other // in Ha. rw lookup_bheap_other // Eb. by rw -Ha.
    + rw lookup_bheap_other // in Ha. rw lookup_bheap_other // Ei. by rw -Ha.
  - apply map_disjoint_spec. intros k v w Hv Hw. destruct k as [c|p|]; try by rw lookup_bheap_other in Hv.
    rw lookup_bheap in Hv. destruct (decide (a <= c)); [|done].
    apply fmap_Some in Hv as (b & Hb & _). apply lookup_lt_Some in Hb. rw El in Hb.
    destruct (lookup_lt_is_Some_2 _ _ Hb) as [b' Hb'].
    rw map_disjoint_spec in Hd. apply (Hd (KByte c) (VZ b') w); [|done].
    rw lookup_bheap decide_True //. by rw Hb'.
Qed.

Lemma wp_load_ a l n : length l = n ->
  bytes a l ⊢ wp (load_m a n) (fun o => ⌜o = Some (le_value l)⌝ ∧ bytes a l).
Proof.
  intros <-. constructor. intros x -> s z Hd Hm Ha.
  unfold load_m, bind, getm, load, of_opt. rw (agrees_load s a l z Ha). by exists (bheap a l).
Qed.

Lemma wp_store_bytes_ a l l' : length l' = length l ->
  bytes a l ⊢ wp (upd_mem (fun m => store_bytes m a l')) (fun o => ⌜o = Some tt⌝ ∧ bytes a l').
Proof.
  intros El. constructor. intros x -> s z Hd Hm Ha. unfold upd_mem, bind, getm, of_opt, putm.
  destruct (store_bytes_mapped l' (ds_mem s) a) as [m' Em].
  { intros i Hi. rw El in Hi. destruct (lookup_lt_is_Some_2 _ _ Hi) as [b Hb].
    exists b. exact (agrees_byte s a l z i b Ha Hb). }
  rw Em. destruct (store_bytes_same _ _ _ _ Em) as (Ebl & En & Elim).
  assert (Hout : forall c, c < a \/ a + zlen l <= c -> m_bytes m' !! c = m_bytes (ds_mem s) !! c).
  { intros c Hc. apply (store_bytes_other _ _ _ _ _ Em). unfold zlen in *. lia. }
  destruct (agrees_update s (Dstate (ds_in s) m' (ds_local s)) a l l' z) as [Ha' Hd']; try done.
  { intros i b. exact (store_bytes_lookup _ _ _ _ i b Em). }
  exists (bheap a l'). split_and!; try done.
  destruct Hm as [H1 H2 H3 H4 H5]. split; cbn; rw ?En ?Elim //; [|by rw Ebl].
  intros c Hc. destruct (decide (c < a \/ a + zlen l <= c)) as [Ho|Hi]; [rw Hout //; by apply H4|].
  exfalso. unfold zlen in Hi. destruct (lookup_lt_is_Some_2 l (Z.to_nat (c - a))) as [b Hb]; [lia|].
  pose proof (agrees_byte s a l z _ _ Ha Hb) as Hs. replace (a + Z.to_nat (c - a)) with c in Hs by lia.
  by rw H4 in Hs.
Qed.

(** A block with its contents; nothing at all for the null pointer. *)
Definition oheap (p : Z) (l : list Z) : heap := {[KBlock p := VZ (zlen l)]} ∪ bheap p l.
Definition owned (p : Z) (l : list Z) : iProp :=
  (if decide (p = NULL) then ⌜l = []⌝ ∧ emp else heap_block p (zlen l) ∗ bytes p l)%I.
Definition set_mem (s : dstate) (m : mem) : dstate := Dstate (ds_in s) m (ds_local s).

Lemma oheap_disjoint p l : {[KBlock p := VZ (zlen l)]} ##ₘ bheap p l.
Proof. apply map_disjoint_singleton_l_2. by apply lookup_bheap_other. Qed.

Lemma owned_heap p l h : p <> NULL -> holds_at _ _ (owned p l) h <-> h = oheap p l.
Proof.
  intros Hp. unfold owned. rw decide_False //. split.
  - by intros (h1 & h2 & -> & _ & -> & ->).
  - intros ->. eexists _, _. split_and!; [done|apply oheap_disjoint|done|done].
Qed.

Lemma owned_null l h : holds_at _ _ (owned NULL l) h <-> l = [] /\ h = ∅.
Proof. unfold owned. by destruct (decide (NULL = NULL)). Qed.

Lemma lookup_oheap p l k : oheap p l !! k = match k with
  | KByte b => if decide (p <= b < p + zlen l) then VZ <$> l !! Z.to_nat (b - p) else None
  | KBlock q => if decide (q = p) then Some (VZ (zlen l)) else None
  | KStream => None
  end.
Proof.
  unfold oheap, zlen. rw lookup_union. destruct k as [b|q|].
  - rw lookup_singleton_ne // lookup_bheap. rw left_id_L. repeat case_decide; try (done || lia).
    rw (lookup_ge_None_2 l (Z.to_nat (b - p))) //. lia.
  - rw lookup_bheap_other //. case_decide as E; [rw E lookup_singleton_eq //|].
    rw lookup_singleton_ne //. congruence.
  - rw lookup_singleton_ne // lookup_bheap_other //.
Qed.

Lemma agrees_free s p l z : p <> NULL -> agrees s (oheap p l ∪ z) -> oheap p l ##ₘ z -> heap_ok (ds_mem s) ->
  exists m1, c_free (ds_mem s) p = Some m1 /\ agrees (set_mem s m1) z /\ heap_ok m1 /\
    m_next m1 = m_next (ds_mem s) /\ m_limit m1 = m_limit (ds_mem s).
Proof.
  intros Hp Ha Hd [H1 H2 H3 H4 H5]. unfold c_free. rw (proj2 (Z.eqb_neq p NULL)) //.
  assert (Eb : m_blocks (ds_mem s) !! p = Some (zlen l)).
  { specialize (Ha (KBlock p)). rw lookup_union lookup_oheap decide_True // in Ha. cbn in Ha.
    destruct (m_blocks _ !! p), (z !! _); cbn in Ha; congruence. }
  rw Eb. eexists. split; [done|]. split_and!; try done.
  - intros k. specialize (Ha k). rw lookup_union lookup_oheap in Ha.
    rw map_disjoint_spec in Hd. specialize (Hd k).
    destruct k as [b|q|]; cbn in *.
    + rw unmap_lookup. unfold zlen in *. rw Z2Nat.id; [|lia].
      case_decide; [|by rw -Ha left_id_L].
      destruct (lookup_lt_is_Some_2 l (Z.to_nat (b - p))) as [y Hy]; [lia|].
      destruct (z !! KByte b) eqn:Ez; [|done]. exfalso. eapply Hd; [|done].
      rw lookup_oheap decide_True //. by rw Hy.
    + case_decide as E.
      * subst q. rw lookup_delete_eq. destruct (z !! KBlock p) eqn:Ez; [|done]. exfalso.
        eapply Hd; [|done]. by rw lookup_oheap decide_True.
      * rw lookup_delete_ne //. by rw -Ha left_id_L.
    + by rw left_id_L in Ha.
  - split; cbn; try done; intros c Hc.
    + rw unmap_lookup. case_decide; [done|by apply H4].
    + apply lookup_delete_None. right. by apply H5.
Qed.

Lemma agrees_alloc s z data n : agrees s z -> heap_ok (ds_mem s) -> zlen data = n -> 0 < n ->
  m_next (ds_mem s) + n <= m_limit (ds_mem s) ->
  let a := m_next (ds_mem s) in
  let m := Mem (map_fresh (m_bytes (ds_mem s)) a data) (<[a := n]> (m_blocks (ds_mem s)))
             (a + n) (m_limit (ds_mem s)) in
  agrees (set_mem s m) (oheap a data ∪ z) /\ oheap a data ##ₘ z /\ heap_ok m /\ 0 < a /\ a + n <= 2 ^ 64 /\ n < 2 ^ 32.
Proof.
  intros Ha [H1 H2 H3 H4 H5] <- Hn Hroom a m. split_and!; try lia.
  - intros k. rw lookup_union lookup_oheap (Ha k). destruct k as [b|q|]; cbn.
    + rw map_fresh_lookup. case_decide as E; [|by rw left_id_L].
      destruct (lookup_lt_is_Some_2 data (Z.to_nat (b - a))) as [y Hy]; [unfold zlen in E; lia|].
      rw Hy. by destruct (m_bytes _ !! b).
    + case_decide as E; [subst q; rw lookup_insert_eq; by destruct (m_blocks _ !! a)|].
      rw lookup_insert_ne //. by rw left_id_L.
    + done.
  - apply map_disjoint_spec. intros k v w. rw lookup_oheap (Ha k). destruct k as [b|q|]; cbn.
    + case_decide; [|done]. rw H4 //. lia.
    + case_decide as E; [|done]. subst q. by rw H5.
    + done.
  - split; cbn; try lia.
    + intros c Hc. rw map_fresh_lookup decide_False; [|lia]. apply H4. lia.
    + intros p Hp. rw lookup_insert_ne; [|lia]. apply H5. lia.
Qed.

Lemma wp_free_ p l : owned p l ⊢ wp (free_m p) (fun o => ⌜o = Some tt⌝ ∧ emp).
Proof.
  constructor. intros x Hx s z Hd Hm Ha. unfold free_m, upd_mem, bind, getm, of_opt, putm.
  destruct (decide (p = NULL)) as [->|Hp].
  - rw owned_null in Hx. destruct Hx as [_ ->].
    unfold c_free. cbn. exists ∅. split_and!; try done.
  - rw owned_heap // in Hx. subst x.
    destruct (agrees_free s p l z Hp Ha Hd Hm) as (m1 & -> & Ha1 & Hm1 & _).
    exists ∅. split_and!; [apply map_disjoint_empty_l|done|by rw left_id_L|done].
Qed.

(** [realloc(p, n)] as the code of [allocate_field] calls it. *)
Definition realloc_m (fill p n : Z) : M dstate Z :=
  let! s := getm in
  let! r := of_opt (c_realloc fill (ds_mem s) p n) in
  let '(q, m') := r in
  putm (Dstate (ds_in s) m' (ds_local s)) ;;! ret q.

(** The contents of the new block. *)
Definition moved_bytes (fill : Z) (l : list Z) (n : Z) : list Z :=
  ztake n l ++ replicate (Z.to_nat n - length (ztake n l)) fill.

Lemma zlen_moved fill l n : 0 <= n -> zlen (moved_bytes fill l n) = n.
Proof.
  intros Hn. unfold moved_bytes, zlen, ztake. rw length_app length_replicate length_take. lia.
Qed.

Lemma c_realloc_free fill m p n l :
  (p = NULL -> l = []) ->
  (p <> NULL -> m_blocks m !! p = Some (zlen l) /\ load_bytes m p (length l) = Some l) ->
  c_realloc fill m p n =
  if m_limit m <? m_next m + n then Some (NULL, m) else
  match c_free m p with
  | None => None
  | Some m1 => Some (m_next m, Mem (map_fresh (m_bytes m1) (m_next m) (moved_bytes fill l n))
                 (<[m_next m := n]> (m_blocks m1)) (m_next m + n) (m_limit m))
  end.
Proof.
  intros H0 H1. unfold c_realloc, moved_bytes. destruct (Z.eqb_spec p NULL) as [E|E].
  - by rw (H0 E).
  - destruct (H1 E) as [-> Hl]. unfold zlen. by rw Nat2Z.id Hl.
Qed.

(** The old block is gone and its contents start the new one, or nothing has changed. *)
Lemma wp_realloc_ fill p l n : 0 < n ->
  owned p l ⊢ wp (realloc_m fill p n) (fun o => ∃ q, ⌜o = Some q⌝ ∧
    ((⌜q = NULL⌝ ∧ owned p l) ∨
     (⌜0 < q /\ q + n <= 2 ^ 64 /\ n < 2 ^ 32⌝ ∧ heap_block q n ∗ bytes q (moved_bytes fill l n)))).
Proof.
  intros Hn. constructor. intros x Hx s z Hd Hm Ha. unfold realloc_m, bind, getm, of_opt.
  assert (Hfree : exists m1, c_free (ds_mem s) p = Some m1 /\ agrees (set_mem s m1) z /\ heap_ok m1 /\
    m_next m1 = m_next (ds_mem s) /\ m_limit m1 = m_limit (ds_mem s)).
  { destruct (decide (p = NULL)) as [->|Hp].
    - rw owned_null in Hx. destruct Hx as [_ ->]. rw left_id_L in Ha.
      exists (ds_mem s). by destruct s.
    - rw owned_heap // in Hx. subst x. by apply (agrees_free s p l z). }
  destruct Hfree as (m1 & Ef & Ha1 & Hm1 & En & Elim).
  rw (c_realloc_free fill (ds_mem s) p n l).
  - destruct (Z.ltb_spec (m_limit (ds_mem s)) (m_next (ds_mem s) + n)) as [Hr|Hr]; cbn.
    + exists x. split_and!; [done|done|by destruct s|]. exists NULL. split; [done|]. by left.
    + rw Ef. cbn. destruct (agrees_alloc (set_mem s m1) z (moved_bytes fill l n) n) as (Ha2 & Hd2 & Hm2 & Hq);
        [done|done|apply zlen_moved; lia|lia|cbn; lia|]. cbn in Ha2, Hd2, Hm2, Hq.
      rw En Elim in Ha2, Hm2, Hq. rw En in Hd2.
      exists (oheap (m_next (ds_mem s)) (moved_bytes fill l n)). split_and!; [done|done|done|].
      exists (m_next (ds_mem s)). split; [done|]. right. split; [done|].
      eexists _, _. split_and!; [done|apply oheap_disjoint| |done]. cbn. rw zlen_moved; [done|lia].
  - intros ->. rw owned_null in Hx. by destruct Hx.
  - intros Hp. rw owned_heap // in Hx. subst x. split.
    + pose proof (Ha (KBlock p)) as Hk. rw lookup_union lookup_oheap decide_True // in Hk. cbn in Hk.
      destruct (m_blocks _ !! p), (z !! _); cbn in Hk; congruence.
    + unfold oheap in Ha. rw (map_union_comm {[KBlock p := _]}) in Ha; [|apply oheap_disjoint].
      rw -assoc_L in Ha. exact (agrees_load s p l _ Ha).
Qed.

(** ** Rules of the stream *)

Lemma agrees_stream s i z : agrees s ({[KStream := VStream i]} ∪ z) -> ds_in s = i.
Proof.
  intros Ha. specialize (Ha KStream). rw lookup_union lookup_singleton_eq in Ha.
  by destruct (z !! _); injection Ha.
Qed.

Lemma stream_swap i i' (z : heap) : {[KStream := VStream i]} ##ₘ z -> {[KStream := VStream i']} ##ₘ z.
Proof. intros Hd%map_disjoint_singleton_l. by apply map_disjoint_singleton_l. Qed.

(** Another stream takes the place of [i]. *)
Lemma agrees_set_stream s i i' z loc : agrees s ({[KStream := VStream i]} ∪ z) ->
  agrees (Dstate i' (ds_mem s) loc) ({[KStream := VStream i']} ∪ z).
Proof.
  intros Ha k. specialize (Ha k). rw lookup_union. rw lookup_union in Ha. destruct k as [b|q|]; cbn in *.
  - by rw lookup_singleton_ne // in Ha; rw lookup_singleton_ne.
  - by rw lookup_singleton_ne // in Ha; rw lookup_singleton_ne.
  - rw lookup_singleton_eq. by destruct (z !! _).
Qed.

(** A reader works on the stream alone. *)
Lemma wp_lift_ {A} (f : M istream A) i :
  f i <> Ub ->
  stream_is i ⊢ wp (lift f) (fun o => ∃ i',
    ⌜match o with Some a => f i = Ret a i' | None => f i = Fail i' end⌝ ∧ stream_is i').
Proof.
  intros Hub. constructor. intros x -> s z Hd Hm Ha. unfold lift. rw (agrees_stream s i z Ha).
  destruct (f i) as [a i'|i'| |] eqn:E; try done.
  - exists {[KStream := VStream i']}. split_and!; [by eapply stream_swap|done| |by exists i'].
    by eapply agrees_set_stream.
  - exists {[KStream := VStream i']}. split_and!; [by eapply stream_swap|done| |by exists i'].
    by eapply agrees_set_stream.
Qed.

Lemma wp_bytes_left_ i :
  stream_is i ⊢ wp bytes_left_m (fun o => ⌜o = Some (i_bytes_left i)⌝ ∧ stream_is i).
Proof.
  constructor. intros x -> s z Hd Hm Ha. unfold bytes_left_m, bind, getm, ret. rw (agrees_stream s i z Ha).
  by exists {[KStream := VStream i]}.
Qed.

(** A call with a substream: the caller's stream is put back. *)
Lemma wp_on_substream {A} (f : M dstate A) i sub Φ :
  stream_is i -∗
  (stream_is sub -∗ wp f (fun o => ∃ sub', stream_is sub' ∗ (stream_is i -∗ Φ (Some (o, sub'))))) -∗
  wp (on_substream sub f) Φ.
Proof.
  apply bi.entails_wand, bi.wand_intro_r. constructor. intros x (x1 & x2 & -> & Hd12 & -> & Hf) s z Hd Hm Ha.
  apply map_disjoint_union_l in Hd as [Hd1 Hd2]. rw -assoc_L in Ha. unfold on_substream.
  assert (Hd2' : x2 ##ₘ {[KStream := VStream sub]}) by (symmetry; by eapply stream_swap).
  specialize (Hf _ Hd2' eq_refl (Dstate sub (ds_mem s) (ds_local s)) z).
  assert (Hpost : forall o s', after_run z (fun o => ∃ sub', stream_is sub' ∗ (stream_is i -∗ Φ (Some (o, sub'))))%I o s' ->
    after_run z Φ (Some (o, ds_in s')) (Dstate (ds_in s) (ds_mem s') (ds_local s'))).
  { rw (agrees_stream s i _ Ha).
    intros o s' (x' & Hd' & Hm' & Ha' & sub' & y1 & y2 & -> & Hy & -> & Hw).
    apply map_disjoint_union_l in Hd' as [Hdy1 Hdy2]. rw -assoc_L in Ha'.
    assert (Hy' : y2 ##ₘ {[KStream := VStream i]}) by (symmetry; by eapply stream_swap).
    exists (y2 ∪ {[KStream := VStream i]}). split_and!.
    - apply map_disjoint_union_l. split; [done|by eapply stream_swap].
    - done.
    - rw (map_union_comm y2) // -assoc_L. by eapply agrees_set_stream.
    - rw (agrees_stream s' sub' _ Ha'). exact (Hw _ Hy' eq_refl). }
  destruct (f _) as [a s'|s'| |]; try (apply Hpost); apply Hf; try done.
  all: try (apply map_disjoint_union_l; split; [done|by eapply stream_swap]).
  all: rw (map_union_comm x2) // -assoc_L; by eapply agrees_set_stream.
Qed.

Lemma wp_with_local (f : M dstate unit) Φ : wp f Φ ⊢ wp (with_local f) Φ.
Proof.
  constructor. intros x Hf s z Hd Hm Ha. unfold with_local.
  specialize (Hf (Dstate (ds_in s) (ds_mem s) 0) z Hd Hm Ha).
  by destruct (f _).
Qed.


(** * Separation logic for the decoder: the rules in use

    The rules of loads, stores, allocation and the stream in the form in which a proof
    applies them step by step, and the input stream as a resource: [stream c k] is a
    stream with the callback [c] that has [k] bytes of its parents behind its own. *)

#[local] Open Scope Z_scope.

Lemma wp_use {A} (f : M dstate A) P Ψ Φ : (P ⊢ wp f Ψ) -> P -∗ (∀ o, Ψ o -∗ Φ o) -∗ wp f Φ.
Proof. iIntros (H) "HP HΦ". iApply (wp_wand with "[HP] HΦ"). by iApply H. Qed.

(** Apply the rule of the first part of a sequence. *)
Ltac wbind := iApply wp_bind; unfold andthen.
(** The rest of the sequence, or the postcondition. *)
Ltac wnext := cbn beta iota.

(** Split the conjunctions one sees, not those behind a definition. *)
Ltac ands := repeat match goal with |- _ /\ _ => split end.

(** ** Memory *)

Section Memory.
Implicit Types (l : list Z) (a p n v : Z).

Lemma wp_load a l k Φ : length l = k ->
  bytes a l -∗ (bytes a l -∗ Φ (Some (le_value l))) -∗ wp (load_m a k) Φ.
Proof.
  iIntros (Hl) "B HΦ". iApply (wp_use with "B"); [by apply wp_load_|].
  iIntros (o) "[-> B]". by iApply "HΦ".
Qed.

Lemma wp_store_bytes a l l' Φ : zlen l' = zlen l ->
  bytes a l -∗ (bytes a l' -∗ Φ (Some tt)) -∗ wp (upd_mem (fun m => store_bytes m a l')) Φ.
Proof.
  iIntros (Hl) "B HΦ". iApply (wp_use with "B"); [apply wp_store_bytes_; unfold zlen in Hl; lia|].
  iIntros (o) "[-> B]". by iApply "HΦ".
Qed.

Lemma wp_store a l k v Φ : length l = k ->
  bytes a l -∗ (bytes a (le_bytes k v) -∗ Φ (Some tt)) -∗ wp (store_m a k v) Φ.
Proof.
  iIntros (<-) "B HΦ". iApply (wp_store_bytes with "B HΦ"). unfold zlen. by rw le_bytes_length.
Qed.

Lemma wp_memset0 a l n Φ : zlen l = n ->
  bytes a l -∗ (bytes a (replicate (Z.to_nat n) 0) -∗ Φ (Some tt)) -∗ wp (memset0_m a n) Φ.
Proof.
  iIntros (<-) "B HΦ". iApply (wp_store_bytes with "B HΦ"). unfold zlen. rw length_replicate. lia.
Qed.

Lemma wp_free p l Φ : owned p l -∗ Φ (Some tt) -∗ wp (free_m p) Φ.
Proof.
  iIntros "O HΦ". iApply (wp_use with "O"); [apply wp_free_|]. iIntros (o) "[-> _]". done.
Qed.

Lemma wp_realloc fill p l n Φ : 0 < n ->
  owned p l -∗
  ((owned p l -∗ Φ (Some NULL)) ∧
   (∀ q, <affine> ⌜0 < q /\ q + n <= 2 ^ 64 /\ n < 2 ^ 32⌝ -∗ owned q (moved_bytes fill l n) -∗ Φ (Some q))) -∗
  wp (realloc_m fill p n) Φ.
Proof.
  iIntros (Hn) "O HΦ". iApply (wp_use with "O"); [by apply wp_realloc_|].
  iIntros (o) "(%q & -> & [[-> O]|(%Hq & B & L)])".
  - iDestruct "HΦ" as "[HΦ _]". by iApply "HΦ".
  - iDestruct "HΦ" as "[_ HΦ]". iApply "HΦ"; [done|].
    unfold owned. destruct (decide (q = NULL)) as [->|_]; [by destruct Hq|].
    rw zlen_moved; [iFrame|lia].
Qed.
End Memory.

(** ** The input stream *)

Definition stream (c : icallback) (k : Z) : iProp :=
  ∃ i, ⌜0 <= k /\ stream_safe k i /\ i_callback i = c⌝ ∧ stream_is i.
(** [sub] is a substream of [i], which is waiting for it. *)
Definition lent (c : icallback) (k : Z) (i sub : istream) : Prop :=
  0 <= k /\ stream_safe k i /\ i_callback i = c /\
  stream_safe (k + i_bytes_left i) sub /\ i_callback sub = c.

Section Streams.
Context (c : icallback) (k : Z).

Lemma stream_intro c' k' i : 0 <= k' -> stream_safe k' i -> i_callback i = c' -> stream_is i ⊢ stream c' k'.
Proof. iIntros (Hk Hs Hc) "S". iExists i. by iSplit. Qed.

Lemma left_nonneg j i : stream_safe j i -> 0 <= i_bytes_left i.
Proof. by intros [[? _] _]. Qed.

Lemma wp_reads {A} (f : M istream A) (P : A -> Prop) Φ : (forall i, reads k f (fun a _ => P a) i) ->
  stream c k -∗ (∀ o, <affine> ⌜match o with Some a => P a | None => True end⌝ -∗ stream c k -∗ Φ o) -∗ wp (lift f) Φ.
Proof.
  iIntros (Hf) "(%i & (%Hk & %Hs & %Hc) & S) HΦ". specialize (Hf i Hs Hk).
  iApply (wp_use with "S"); [apply (wp_lift_ f); by destruct (f i)|].
  iIntros (o) "(%i' & %Ho & S)". iApply ("HΦ" with "[%] [S]").
  - destruct o; rw Ho in Hf; [by destruct Hf|done].
  - assert (Hst : stays k i i') by (destruct o; rw Ho in Hf; [by destruct Hf|done]).
    destruct Hst. iApply (stream_intro with "S"); done || congruence.
Qed.

Lemma wp_error {A} msg Φ : stream c k -∗ (stream c k -∗ Φ None) -∗ wp (A := A) (DRETURN_ERROR msg) Φ.
Proof.
  iIntros "S HΦ". iApply (wp_reads _ (fun _ => False) with "S").
  - intros i Hs Hk. by destruct i.
  - iIntros ([a|]) "%H S"; [done|by iApply "HΦ"].
Qed.

Lemma wp_bytes_left Φ : stream c k -∗ (∀ n, stream c k -∗ Φ (Some n)) -∗ wp bytes_left_m Φ.
Proof.
  iIntros "(%i & %Hs & S) HΦ". iApply (wp_use with "S"); [apply wp_bytes_left_|].
  iIntros (o) "[-> S]". iApply "HΦ". by iApply (stream_intro with "S"); destruct Hs as (? & ? & ?).
Qed.

Lemma wp_make Φ : stream c k -∗
  ((stream c k -∗ Φ None) ∧ (∀ i sub, <affine> ⌜lent c k i sub⌝ -∗ stream_is i -∗ Φ (Some sub))) -∗
  wp (lift pb_make_string_substream) Φ.
Proof.
  iIntros "(%i & (%Hk & %Hs & %Hc) & S) HΦ". pose proof (reads_make k i Hs Hk) as Hf.
  iApply (wp_use with "S"); [apply wp_lift_; by destruct (pb_make_string_substream i)|].
  iIntros ([sub|]) "(%i' & %Ho & S)"; rw Ho in Hf.
  - iDestruct "HΦ" as "[_ HΦ]". iApply ("HΦ" with "[%] S").
    destruct Hf as [[H1 H2] [H3 H4]]. split_and!; try done; congruence.
  - iDestruct "HΦ" as "[HΦ _]". iApply "HΦ". iExists i'. iFrame. iPureIntro.
    destruct Hf. split_and!; try done; congruence.
Qed.

Lemma wp_substream {A} (f : M dstate A) i sub Φ : lent c k i sub ->
  stream_is i -∗
  (stream c (k + i_bytes_left i) -∗ wp f (fun o => stream c (k + i_bytes_left i) ∗
     (∀ sub', <affine> ⌜lent c k i sub'⌝ -∗ stream_is i -∗ Φ (Some (o, sub'))))) -∗
  wp (on_substream sub f) Φ.
Proof.
  iIntros ((Hk & Hi & Hc & Hsub & Hcs)) "S Hf". iApply (wp_on_substream with "S"). iIntros "S".
  iApply (wp_wand with "[S Hf]").
  - iApply "Hf". pose proof (left_nonneg _ _ Hi). iApply (stream_intro with "S"); done || lia.
  - iIntros (o) "[(%sub' & (%Hk' & %Hs' & %Hc') & S) HΦ]". iExists sub'. iFrame "S". iIntros "S".
    iApply ("HΦ" with "[%] S"). by split_and!.
Qed.

Lemma wp_close i sub Φ : lent c k i sub ->
  stream_is i -∗ (∀ o, stream c k -∗ Φ o) -∗ wp (lift (pb_close_string_substream sub)) Φ.
Proof.
  iIntros ((Hk & Hi & Hc & Hsub & Hcs)) "S HΦ".
  pose proof (reads_close k sub i Hsub ltac:(congruence) Hi Hk) as Hf.
  iApply (wp_use with "S"); [apply wp_lift_; by destruct (pb_close_string_substream sub i)|].
  iIntros (o) "(%i' & %Ho & S)". iApply "HΦ".
  destruct o; rw Ho in Hf; [destruct Hf as [[? ?] _]|destruct Hf]; iApply (stream_intro with "S"); done || congruence.
Qed.

Lemma wp_set_errmsg msg i sub Φ : lent c k i sub ->
  stream_is i -∗ (∀ i', <affine> ⌜lent c k i' sub⌝ -∗ stream_is i' -∗ Φ (Some tt)) -∗ wp (set_errmsg msg) Φ.
Proof.
  iIntros ((Hk & Hi & Hc & Hsub & Hcs)) "S HΦ". unfold set_errmsg.
  iApply (wp_use with "S"); [by apply wp_lift_|].
  iIntros (o) "(%i' & %Ho & S)". destruct o as [[]|]; [|done]. injection Ho as <-.
  iApply ("HΦ" with "[%] S"). split_and!; try done.
Qed.

(** Reads into [n] bytes at [a]. *)
Lemma wp_read_into a l n Φ : zlen l = n ->
  stream c k -∗ bytes a l -∗
  (∀ o l', <affine> ⌜zlen l' = n⌝ -∗ stream c k -∗ bytes a l' -∗ Φ o) -∗ wp (read_into a n) Φ.
Proof.
  iIntros (Hl) "S B HΦ". unfold read_into. wbind.
  iApply (wp_reads _ (fun bs => zlen bs = n) with "S").
  { intros i. apply reads_read. rw -Hl. apply zlen_nonneg. }
  iIntros ([bs|]) "%Hbs S"; wnext.
  - iApply (wp_store_bytes with "B"); [lia|]. iIntros "B". by iApply ("HΦ" with "[%] S B").
  - by iApply ("HΦ" with "[%] S B").
Qed.
End Streams.

Lemma stream_sub c k i sub : lent c k i sub ->
  stream_is sub ⊢ stream c (k + i_bytes_left i).
Proof.
  iIntros ((Hk & Hi & Hc & Hsub & Hcs)) "S". pose proof (left_nonneg _ _ Hi).
  iApply (stream_intro with "S"); done || lia.
Qed.
