(* ===== verification/PbOwn.v ===== *)
(** * nanopb decoder: what a message owns

    The heap blocks that hang off a message struct, read off the contents of its
    members: the block of a pointer member, with what its items own in turn.  Nothing
    depends on the address of the struct, so that an array of messages keeps what it
    owns when [realloc] moves it. *)
From S2P Require Import Prelude Mem PbIstream PbOstream PbField PbDecode PbMessage PbIter PbSchema HeapLogic.
From iris.bi Require Import bi.
From iris.proofmode Require Import proofmode.

#[local] Open Scope Z_scope.

Definition is_ptr (p : Z) (l : list Z) : Prop := l = le_bytes 8 p /\ 0 <= p < 2 ^ 64.
Definition is_count (n : Z) (l : list Z) : Prop := l = le_bytes 4 n /\ 0 <= n < 2 ^ 32.

(** ** Ownership *)

Section Own.
Context (e : env).

(** The block of a pointer to bytes or a string. *)
Definition blob_own (l : list Z) : iProp := ∃ p c, ⌜is_ptr p l⌝ ∧ owned p c.

Section Fields.
(** What a submessage owns. *)
Variable sub_own : list pb_field -> list Z -> iProp.
Variable sub_nul : list pb_field -> list Z -> Prop.

(** What the value of a field, or an element of its array, owns. *)
Definition item_own (f : pb_field) (l : list Z) : iProp :=
  if is_sub f then
    match submsg_fields e (ptr f) with Some fs => sub_own fs l | None => False%I end
  else if negb (is_static f) && is_blob f then blob_own l
  else emp%I.

Definition items_own (f : pb_field) (n : Z) (c : list Z) : iProp :=
  [∗ list] i ∈ seqZ 0 n, item_own f (cut c (i * item_size f) (item_size f)).

Definition field_own (f : pb_field) (ld ls : list Z) : iProp :=
  if is_static f then
    if is_repeated f then (∃ n, ⌜is_count n ls⌝ ∧ emp)%I else item_own f ld
  else if negb (is_repeated f) && is_blob f then blob_own ld
  else (∃ p n c, ⌜is_ptr p ld /\ (if is_repeated f then is_count n ls else n = if p =? NULL then 0 else 1) /\
           n * item_size f <= zlen c⌝ ∧ owned p c ∗ items_own f n c)%I.

(** The same members with no blocks. *)
Definition item_nul (f : pb_field) (l : list Z) : Prop :=
  if is_sub f then
    match submsg_fields e (ptr f) with Some fs => sub_nul fs l | None => False end
  else if negb (is_static f) && is_blob f then is_ptr NULL l
  else True.

Definition field_nul (f : pb_field) (ld ls : list Z) : Prop :=
  if is_static f then
    if is_repeated f then exists n, is_count n ls else item_nul f ld
  else is_ptr NULL ld /\ (if is_repeated f then is_count 0 ls else True).

Definition data_part (p : pb_field * Z) (l : list Z) : list Z := cut l p.2 (field_span p.1).
Definition size_part (p : pb_field * Z) (l : list Z) : list Z := cut l (p.2 + size_offset p.1) (size_len p.1).
End Fields.

(** The struct with contents [l]; submessages nested less than [d] deep. *)
Fixpoint owns (d : nat) (fields : list pb_field) (l : list Z) : iProp :=
  match d with
  | O => False%I
  | S d' => ([∗ list] p ∈ place fields, field_own (owns d') p.1 (data_part p l) (size_part p l))%I
  end.
Fixpoint nulls (d : nat) (fields : list pb_field) (l : list Z) : Prop :=
  match d with
  | O => False
  | S d' => Forall (fun p => field_nul (nulls d') p.1 (data_part p l) (size_part p l)) (place fields)
  end.

(** A struct whose contents do not matter, a message, and a message without blocks. *)
Definition raw (size a : Z) : iProp := ∃ l, ⌜zlen l = size⌝ ∧ bytes a l.
Definition msg (d : nat) (fields : list pb_field) (size a : Z) : iProp :=
  ∃ l, ⌜zlen l = size⌝ ∧ bytes a l ∗ owns d fields l.
Definition nmsg (d : nat) (fields : list pb_field) (size a : Z) : iProp :=
  ∃ l, ⌜zlen l = size /\ nulls d fields l⌝ ∧ bytes a l.

(** ** Messages without blocks *)

Lemma item_nul_own (so : list pb_field -> list Z -> iProp) (sn : list pb_field -> list Z -> Prop) f l :
  (forall fs l, sn fs l -> ⊢ so fs l) -> item_nul sn f l -> ⊢ item_own so f l.
Proof.
  intros Hsub. unfold item_nul, item_own. destruct (is_sub f).
  - by destruct (submsg_fields e (ptr f)); [apply Hsub|].
  - destruct (_ && _); [|by iIntros].
    intros Hp. iExists NULL, []. iSplit; [done|]. unfold owned. by destruct (decide (NULL = NULL)).
Qed.

Lemma field_nul_own (so : list pb_field -> list Z -> iProp) (sn : list pb_field -> list Z -> Prop) f ld ls :
  (forall fs l, sn fs l -> ⊢ so fs l) -> field_nul sn f ld ls -> ⊢ field_own so f ld ls.
Proof.
  intros Hsub. unfold field_nul, field_own. destruct (is_static f) eqn:Es.
  - destruct (is_repeated f); [|by apply item_nul_own].
    intros [n Hn]. iExists n. by iSplit.
  - intros [Hp Hc]. assert (Ho : ⊢ owned NULL []) by (unfold owned; by destruct (decide (NULL = NULL))).
    destruct (_ && _) eqn:Eb.
    + iExists NULL, []. by iSplit.
    + iExists NULL, 0, []. iSplit; [|iSplitL; [done|by unfold items_own]].
      iPureIntro. split_and!; [done|by destruct (is_repeated f)|done].
Qed.

Lemma nulls_own d : forall fields l, nulls d fields l -> ⊢ owns d fields l.
Proof.
  induction d as [|d IH]; intros fields l H; cbn [nulls owns] in *; [done|].
  iApply big_sepL_intro. iIntros "!>" (k p Hk). iApply (field_nul_own _ _ _ _ _ (IH)).
  exact (Forall_lookup_1 _ _ _ _ H Hk).
Qed.

Lemma nmsg_msg d fields size a : nmsg d fields size a ⊢ msg d fields size a.
Proof.
  iIntros "(%l & [%Hl %Hn] & B)". iExists l. iSplit; [done|]. iSplitL; [done|]. by iApply nulls_own.
Qed.
Lemma nmsg_raw d fields size a : nmsg d fields size a ⊢ raw size a.
Proof. iIntros "(%l & [%Hl _] & B)". iExists l. by iSplit. Qed.
End Own.

(** ** Two parts of a struct and the rest *)

Definition two_parts (a : Z) (l : list Z) (o1 n1 o2 n2 : Z) : iProp :=
  bytes (a + o1) (cut l o1 n1) ∗ bytes (a + o2) (cut l o2 n2) ∗
  (∀ d s, <affine> ⌜zlen d = n1 /\ zlen s = n2⌝ -∗ bytes (a + o1) d -∗ bytes (a + o2) s -∗
     bytes a (put (put l o1 d) o2 s)).

Lemma put_comm l o1 d o2 s : 0 <= o1 -> 0 <= o2 -> o1 + zlen d <= zlen l -> o2 + zlen s <= zlen l ->
  apart (o1, zlen d) (o2, zlen s) -> put (put l o1 d) o2 s = put (put l o2 s) o1 d.
Proof.
  intros H1 H2 H3 H4 Ha. apply list_eq. intros i.
  rw !lookup_put ?zlen_put //. unfold apart in Ha. cbn in Ha.
  destruct (decide (o2 <= i < o2 + zlen s)), (decide (o1 <= i < o1 + zlen d)); done || lia.
Qed.

Lemma bytes_ordered a l o1 n1 o2 n2 : 0 <= o1 -> 0 <= n1 -> o1 + n1 <= o2 -> 0 <= n2 -> o2 + n2 <= zlen l ->
  bytes a l ⊢ two_parts a l o1 n1 o2 n2.
Proof.
  intros H1 H2 H3 H4 H5. destruct (split_two l o1 n1 o2 n2) as (A & B & C & D & E & -> & EA & EB & EC & ED); try done.
  assert (Hcut : cut (A ++ B ++ C ++ D ++ E) o2 n2 = D).
  { rw EC -ED. replace (A ++ B ++ C ++ D ++ E) with ((A ++ B ++ C) ++ D ++ E) by (by rw -!app_assoc). apply cut_app. }
  unfold two_parts. rw Hcut -EA -EB cut_app.
  rw !bytes_app. iIntros "(A & B & C & D & E)". iFrame "B".
  replace (a + zlen A + zlen B + zlen C) with (a + o2) by (rw EC; rw !zlen_app; lia). iFrame "D".
  iIntros (d s) "[%Hd %Hs] B D". rw put_app //.
  replace (put (A ++ d ++ C ++ D ++ E) o2 s) with (A ++ d ++ C ++ s ++ E).
  - rw !bytes_app Hd. iFrame. replace (a + zlen A + zlen B + zlen C) with (a + o2) by (rw EC; rw !zlen_app; lia).
    rw Hs ED. iFrame.
  - replace (A ++ d ++ C ++ D ++ E) with ((A ++ d ++ C) ++ D ++ E) by (by rw -!app_assoc).
    replace o2 with (zlen (A ++ d ++ C)) by (rw EC; rw !zlen_app; lia). rw put_app; [by rw -!app_assoc|lia].
Qed.

Lemma bytes_two a l s t : inside (zlen l) s -> inside (zlen l) t -> apart s t -> 0 < s.2 ->
  bytes a l ⊢ two_parts a l s.1 s.2 t.1 t.2.
Proof.
  destruct s as [o1 n1], t as [o2 n2]. unfold inside, apart. cbn. intros (H1 & H2 & H3) (H4 & H5 & H6) Ha Hn.
  destruct (decide (o1 + n1 <= o2)) as [H|H]; [by apply bytes_ordered|].
  destruct (decide (o2 + n2 <= o1)) as [H'|H'].
  - rw (bytes_ordered a l o2 n2 o1 n1) //. iIntros "(B2 & B1 & W)". iFrame.
    iIntros (d s) "[%Hd %Hs] D S". rw put_comm; [by iApply ("W" with "[//] S D")|..]; try lia.
    unfold apart. cbn. lia.
  - assert (n2 = 0) as -> by lia. rw (bytes_ordered a l o1 n1 (o1 + n1) 0); [|lia..].
    iIntros "(B1 & B2 & W)". unfold two_parts. rw !cut_0 !bytes_nil. iFrame "B1 B2".
    iIntros (d s) "[%Hd %Hs] D S".
    assert (s = []) as -> by (destruct s; [done|unfold zlen in Hs; cbn in Hs; lia]).
    assert (Hl : zlen (put l o1 d) = zlen l) by (apply zlen_put; lia).
    rw bytes_nil. iSpecialize ("W" $! d [] with "[//] D"). rw bytes_nil !put_nil ?Hl; [|lia..]. by iApply "W".
Qed.

(** ** The members of a message *)

Definition member (R : pb_field -> list Z -> list Z -> iProp) (f : pb_field) (pd ps : Z) : iProp :=
  ∃ ld ls, ⌜zlen ld = field_span f /\ zlen ls = size_len f⌝ ∧ bytes pd ld ∗ bytes ps ls ∗ R f ld ls.
Definition pure_member (N : pb_field -> list Z -> list Z -> Prop) (f : pb_field) (pd ps : Z) : iProp :=
  ∃ ld ls, ⌜zlen ld = field_span f /\ zlen ls = size_len f /\ N f ld ls⌝ ∧ bytes pd ld ∗ bytes ps ls.

Section Members.
Context (e : env) (d : nat) (fields : list pb_field) (size : Z).
Hypothesis Hwf : struct_wf e d fields size.
Variable a : Z.

Lemma data_part_len k p l : place fields !! k = Some p -> zlen l = size ->
  zlen (data_part p l) = field_span p.1 /\ zlen (size_part p l) = size_len p.1.
Proof.
  intros Hp Hl. destruct (member_slots _ _ _ _ Hwf _ _ Hp) as ((H1 & H2 & H3) & (H4 & H5 & H6) & _). cbn in *.
  split; (apply zlen_cut; [done|done|lia]).
Qed.

(** One member of the struct with contents [l]. *)
Lemma member_parts k f off l : place fields !! k = Some (f, off) -> zlen l = size ->
  bytes a l ⊢ two_parts a l off (field_span f) (off + size_offset f) (size_len f).
Proof.
  intros Hp Hl. destruct (member_slots _ _ _ _ Hwf _ _ Hp) as (H1 & H2 & H3). rw -Hl in H1 H2.
  apply (bytes_two a l _ _ H1 H2 H3). cbn. destruct (place_lookup _ _ _ _ Hwf _ _ _ Hp) as [_ Hf].
  by eapply span_positive.
Qed.

Lemma parts_after k f off l ld ls : place fields !! k = Some (f, off) -> zlen l = size ->
  zlen ld = field_span f -> zlen ls = size_len f ->
  let l' := put (put l off ld) (off + size_offset f) ls in
  zlen l' = size /\ data_part (f, off) l' = ld /\ size_part (f, off) l' = ls /\
  forall j q, place fields !! j = Some q -> j <> k -> data_part q l' = data_part q l /\ size_part q l' = size_part q l.
Proof.
  intros Hp Hl Hd Hs l'. destruct (this_member _ _ _ _ Hwf _ _ l ld ls Hp Hl Hd Hs) as (H1 & H2 & H3).
  split_and!; [done|done|done|]. intros j q Hq Hne.
  exact (other_member _ _ _ _ Hwf _ _ _ _ l ld ls Hp Hq (not_eq_sym Hne) Hl Hd Hs).
Qed.

Lemma msg_member k f off : place fields !! k = Some (f, off) ->
  msg e (S d) fields size a ⊢
  member (field_own e (owns e d)) f (a + off) (a + off + size_offset f) ∗
  (member (field_own e (owns e d)) f (a + off) (a + off + size_offset f) -∗ msg e (S d) fields size a).
Proof.
  iIntros (Hp) "(%l & %Hl & B & O)". cbn [owns].
  rw (member_parts _ _ _ l Hp Hl). rw (big_sepL_delete _ _ k (f, off)) //.
  iDestruct "B" as "(Bd & Bs & W)". iDestruct "O" as "[Of O]". rw Z.add_assoc. iSplitL "Bd Bs Of".
  - iExists _, _. iSplit; [|iFrame]. iPureIntro. exact (data_part_len _ _ l Hp Hl).
  - iIntros "(%ld & %ls & [%Hd %Hs] & Bd & Bs & Of)". iExists (put (put l off ld) (off + size_offset f) ls).
    destruct (parts_after _ _ _ l ld ls Hp Hl Hd Hs) as (H1 & H2 & H3 & H4).
    iSplit; [done|]. iSplitL "W Bd Bs"; [by iApply ("W" with "[//] Bd Bs")|]. cbn [owns].
    iApply (big_sepL_delete _ _ k (f, off)); [done|]. rw H2 H3. iFrame "Of".
    iApply (big_sepL_impl with "O"). iIntros "!>" (j q Hq) "H".
    case_decide as Hjk; [done|]. by destruct (H4 _ _ Hq Hjk) as [-> ->].
Qed.

(** A loop over the members that takes what each owns and leaves it as [N] says. *)
Lemma wp_for_members R N body : a <> NULL ->
  (forall it f off, at_field fields a it f off ->
     member R f (a + off) (a + off + size_offset f) ⊢
     wp (body it) (fun o => ⌜o = Some tt⌝ ∧ pure_member N f (a + off) (a + off + size_offset f))) ->
  forall fuel it f off l, at_field fields a it f off -> zlen l = size ->
  Forall (fun p => N p.1 (data_part p l) (size_part p l)) (take (it_pos it) (place fields)) ->
  bytes a l ∗ ([∗ list] p ∈ drop (it_pos it) (place fields), R p.1 (data_part p l) (size_part p l)) ⊢
  wp (for_fields fuel it body) (fun o => ⌜o = Some tt⌝ ∧
    ∃ l', ⌜zlen l' = size /\ Forall (fun p => N p.1 (data_part p l') (size_part p l')) (place fields)⌝ ∧ bytes a l').
Proof.
  intros Ha0 Hbody. induction fuel as [|fuel IH]; intros it f off l Hat Hl HN; [apply wp_nofuel|].
  cbn [for_fields]. pose proof Hat as (_ & Hp & _). set (k := it_pos it) in *.
  iIntros "[B O]". rw (drop_S _ _ _ Hp) big_sepL_cons. iDestruct "O" as "[Of O]".
  rw (member_parts _ _ _ l Hp Hl). iDestruct "B" as "(Bd & Bs & W)". rw Z.add_assoc. wbind.
  iApply (wp_use with "[Bd Bs Of]"); [by apply Hbody| |].
  { iExists _, _. iSplit; [|iFrame]. iPureIntro. exact (data_part_len _ _ l Hp Hl). }
  iIntros (o) "[-> (%ld & %ls & (%Hd & %Hs & %Hn) & Bd & Bs)]". wnext.
  iSpecialize ("W" $! ld ls with "[//] Bd Bs").
  destruct (parts_after _ _ _ l ld ls Hp Hl Hd Hs) as (H1 & H2 & H3 & H4).
  set (l' := put (put l off ld) (off + size_offset f) ls) in *.
  assert (HN' : Forall (fun p => N p.1 (data_part p l') (size_part p l')) (take (S k) (place fields))).
  { rw (take_S_r _ _ _ Hp). apply Forall_app. split; [|apply Forall_singleton; by rw H2 H3].
    apply Forall_lookup. intros j q Hq. pose proof Hq as Hq'. apply lookup_take_Some in Hq' as [Hq' Hj].
    destruct (H4 j q Hq') as [-> ->]; [lia|]. exact (Forall_lookup_1 _ _ _ _ HN Hq). }
  destruct (at_field_next _ _ _ _ Hwf a it f off Ha0 Hat) as ((f' & off' & Hat') & Hmore & Hlast).
  destruct (pb_field_iter_next it) as [[] it']; cbn [fst snd] in *.
  - iApply (IH it' f' off' l'); [done|done|by rw Hmore|]. rw Hmore //. iFrame "W".
    iApply (big_sepL_impl with "O"). iIntros "!>" (j q Hq) "H". rw lookup_drop in Hq.
    destruct (H4 _ _ Hq) as [-> ->]; [lia|done].
  - iApply wp_ret. iSplit; [done|]. iExists l'.
    pose proof (Hlast eq_refl) as Hlen. rw -(place_fields fields) length_map in Hlen.
    rw Hlen firstn_all in HN'. rw drop_ge; [|lia]. iSplit; [done|]. by iDestruct "O" as "_".
Qed.
End Members.

(** ** Arrays of items *)

Lemma owned_block p c : p <> NULL -> owned p c ⊣⊢ heap_block p (zlen c) ∗ bytes p c.
Proof. intros Hp. unfold owned. by rw decide_False. Qed.
Lemma owned_null_elim c : owned NULL c ⊢ ⌜c = []⌝ ∧ emp.
Proof. unfold owned. by destruct (decide (NULL = NULL)). Qed.

Lemma owned_null_nil : ⊢ owned NULL [].
Proof. unfold owned. by destruct (decide (NULL = NULL)). Qed.
Lemma item_size_sub f : is_sub f = true -> item_size f = data_size f.
Proof. intros Hs. unfold item_size. by rw (sub_not_blob _ Hs) andb_false_r. Qed.

Section Items.
Context (e : env) (own : list pb_field -> list Z -> iProp) (f : pb_field).
Hypothesis Hsize : 0 < item_size f.

Lemma items_own_0 c : items_own e own f 0 c ⊣⊢ emp.
Proof. done. Qed.

Lemma items_own_cons (n : nat) c :
  items_own e own f (Z.of_nat (S n)) c ⊣⊢
  item_own e own f (ztake (item_size f) c) ∗ items_own e own f (Z.of_nat n) (zdrop (item_size f) c).
Proof.
  unfold items_own. rw seqZ_cons; [|lia]. rw big_sepL_cons. apply bi.sep_proper; [done|].
  replace (seqZ (Z.succ 0) (Z.pred (S n))) with (Z.add 1 <$> seqZ 0 (Z.of_nat n)).
  2: { rw fmap_add_seqZ. f_equal. lia. }
  rw big_sepL_fmap. apply big_sepL_proper. intros k i [-> _]%lookup_seqZ.
  rw cut_zdrop; [|lia..]. by replace ((1 + (0 + k)) * item_size f) with (item_size f + (0 + k) * item_size f) by lia.
Qed.

Lemma items_own_snoc n c : 0 <= n ->
  items_own e own f (n + 1) c ⊣⊢
  items_own e own f n c ∗ item_own e own f (cut c (n * item_size f) (item_size f)).
Proof.
  intros Hn. unfold items_own. rw seqZ_app; [|lia..]. rw big_sepL_app. f_equiv.
  change (seqZ (0 + n) 1) with [0 + n]. by rw big_sepL_singleton Z.add_0_l.
Qed.

Lemma items_plain n c : is_sub f = false -> is_blob f = false -> items_own e own f n c ⊣⊢ emp.
Proof.
  intros Hs Hb. unfold items_own, item_own. rw Hs Hb andb_false_r. apply big_sepL_emp.
Qed.

(** The items of an array stay the same when what follows them changes. *)
Lemma items_own_ext n c c' : (forall i, 0 <= i < n -> cut c (i * item_size f) (item_size f) = cut c' (i * item_size f) (item_size f)) ->
  items_own e own f n c ⊣⊢ items_own e own f n c'.
Proof.
  intros H. apply big_sepL_proper. intros k i [-> Hk]%lookup_seqZ. by rw H; [|lia].
Qed.

(** A loop that visits the items one after another and changes nothing but them. *)
Lemma wp_items (step : Z -> M dstate unit) (loop : nat -> Z -> M dstate unit) :
  (forall p, loop O p = ret tt) ->
  (forall n p s, loop (S n) p s = (step p ;;! loop n (p + item_size f)) s) ->
  (forall p l, 0 < p -> zlen l = item_size f -> bytes p l ∗ item_own e own f l ⊢
     wp (step p) (fun o => ⌜o = Some tt⌝ ∧ ∃ l', ⌜zlen l' = item_size f⌝ ∧ bytes p l')) ->
  forall n p c, 0 < p -> Z.of_nat n * item_size f <= zlen c ->
  bytes p c ∗ items_own e own f (Z.of_nat n) c ⊢
  wp (loop n p) (fun o => ⌜o = Some tt⌝ ∧ ∃ c', ⌜zlen c' = zlen c⌝ ∧ bytes p c').
Proof.
  intros H0 HS Hstep. induction n as [|n IH]; intros p c Hp Hn; iIntros "[B O]".
  - rw H0. iApply wp_ret. iSplit; [done|]. iExists c. iSplit; [done|]. by iDestruct "O" as "_".
  - rw items_own_cons. iApply (wp_ext (step p ;;! loop n (p + item_size f))); [done|]. iDestruct "O" as "[Oi O]".
    assert (Ht : zlen (ztake (item_size f) c) = item_size f) by (apply zlen_ztake; nia).
    assert (Hd : zlen (zdrop (item_size f) c) = zlen c - item_size f) by (apply zlen_zdrop; nia).
    rw -{1}(ztake_zdrop (item_size f) c) bytes_app Ht. iDestruct "B" as "[Bi B]". wbind.
    iApply (wp_use with "[Bi Oi]"); [exact (Hstep p _ Hp Ht)|iFrame|].
    iIntros (o) "[-> (%l' & %Hl' & Bi)]". wnext.
    iApply (wp_use with "[B O]"); [apply (IH _ (zdrop (item_size f) c)); lia|iFrame|].
    iIntros (o) "[-> (%c' & %Hc' & B)]". iSplit; [done|]. iExists (l' ++ c'). iSplit.
    + iPureIntro. rw zlen_app. lia.
    + rw bytes_app Hl'. iFrame.
Qed.
End Items.
