(* ===== verification/PbSafeRelease.v ===== *)
(** * nanopb decoder: defaults and releases

    [pb_message_set_to_defaults] writes the members of the struct and nothing else, and
    leaves a message without blocks, whatever the struct held. *)
From iris.bi Require Import bi.
From iris.proofmode Require Import proofmode.
From S2P Require Import Prelude Mem PbIstream PbOstream PbField PbDecode PbMessage PbIter PbSchema HeapLogic PbOwn.

#[local] Open Scope Z_scope.

(** ** Pointers and counters in memory *)

Lemma is_ptr_value p l : is_ptr p l -> length l = 8%nat /\ le_value l = p.
Proof. intros [-> Hp]. rw le_bytes_length le_value_bytes. split; [done|]. by apply wrap_small. Qed.
Lemma is_count_value n l : is_count n l -> length l = 4%nat /\ le_value l = n.
Proof. intros [-> Hp]. rw le_bytes_length le_value_bytes. split; [done|]. by apply wrap_small. Qed.

Lemma wp_load_ptr a p l Φ : is_ptr p l ->
  bytes a l -∗ (bytes a l -∗ Φ (Some p)) -∗ wp (load_ptr a) Φ.
Proof. iIntros ([Hl <-]%is_ptr_value) "B HΦ". by iApply (wp_load with "B"). Qed.

Lemma wp_store_ptr a p l Φ : zlen l = 8 -> 0 <= p < 2 ^ 64 ->
  bytes a l -∗ (∀ l', <affine> ⌜zlen l' = 8 /\ is_ptr p l'⌝ -∗ bytes a l' -∗ Φ (Some tt)) -∗ wp (store_ptr a p) Φ.
Proof.
  iIntros (Hl Hp) "B HΦ". iApply (wp_store with "B"); [unfold zlen, sizeof_ptr, sizeof_pb_size_t in *; lia|].
  iIntros "B". iApply ("HΦ" with "[%] B"). by split.
Qed.

Lemma wp_read_size a n l Φ : 0 < a -> is_count n l ->
  bytes a l -∗ (bytes a l -∗ Φ (Some n)) -∗ wp (read_size a) Φ.
Proof.
  iIntros (Ha [Hl <-]%is_count_value) "B HΦ". unfold read_size, LOCAL_SIZE.
  rw (proj2 (Z.eqb_neq a (-1))); [|lia]. by iApply (wp_load with "B").
Qed.

Lemma wp_write_size a n l Φ : 0 < a -> zlen l = 4 -> 0 <= n < 2 ^ 32 ->
  bytes a l -∗ (∀ l', <affine> ⌜zlen l' = 4 /\ is_count n l'⌝ -∗ bytes a l' -∗ Φ (Some tt)) -∗ wp (write_size a n) Φ.
Proof.
  iIntros (Ha Hl Hn) "B HΦ". unfold write_size, LOCAL_SIZE. rw (proj2 (Z.eqb_neq a (-1))); [|lia].
  iApply (wp_store with "B"); [unfold zlen, sizeof_ptr, sizeof_pb_size_t in *; lia|].
  iIntros "B". iApply ("HΦ" with "[%] B"). by split.
Qed.

(** ** One field *)

Section Field.
Context (e : env) (d : nat) (fields : list pb_field) (size : Z).
Hypothesis Hwf : struct_wf e d fields size.
Variable a : Z.
Hypothesis Ha : 0 < a.

(** The addresses of a member. *)
Lemma member_addr it f off : at_field fields a it f off ->
  0 < pData it /\ pData it = a + off /\ pSize it = a + off + size_offset f /\ 0 < pSize it /\
  (pSize it =? pData it) = (size_offset f =? 0).
Proof.
  intros (_ & Hp & _ & Hd & Hs). destruct (member_slots _ _ _ _ Hwf _ _ Hp) as ((H1 & _) & (H2 & _) & _). cbn in H1, H2.
  rw Hs Hd. split_and!; try done; try lia.
Qed.

Variable message_rec : list pb_field -> Z -> M dstate unit.
Variable field_rec : pb_field_iter -> M dstate unit.
Hypothesis Hrec : forall fs sz b, schema_ok e d fs sz = true -> 0 < b ->
  raw sz b ⊢ wp (message_rec fs b) (fun o => ⌜o = Some tt⌝ ∧ nmsg e d fs sz b).

Lemma wp_default_value f b l : field_wf e (schema_ok e d) f -> is_static f = true -> 0 < b -> zlen l = data_size f ->
  bytes b l ⊢ wp (if is_sub f then
      let! fields := of_opt (submsg_fields e (ptr f)) in message_rec fields b
    else match ptr f with
       | ptr_default l =>
           if zlen l <? data_size f then ubm
           else upd_mem (fun m => store_bytes m b (ztake (data_size f) l))
       | ptr_null => memset0_m b (data_size f)
       | ptr_submsg _ => ubm
       end)
    (fun o => ⌜o = Some tt⌝ ∧ ∃ l', ⌜zlen l' = data_size f /\ item_nul e (nulls e d) f l'⌝ ∧ bytes b l').
Proof.
  iIntros (Hf Hst Hb Hl) "B". unfold item_nul. pose proof (wf_data _ _ _ Hf) as Hds. destruct (is_sub f) eqn:Es.
  - destruct (wf_sub _ _ _ Hf Es) as (fs & Hfs & Hok). wbind. iApply (wp_of_opt _ fs); [done|].
    iApply (wp_use with "[B]"); [by apply Hrec|by iExists l; iSplit|].
    iIntros (o) "[-> (%l' & [%Hl' %Hn] & B)]". iSplit; [done|]. iExists l'. rw Hfs. by iSplit.
  - rw Hst. cbn [negb andb]. pose proof (wf_default _ _ _ Hf Es) as Hdef. destruct (ptr f) as [|i|l0]; [| done |].
    + iApply (wp_memset0 with "B"); [done|]. iIntros "B". iSplit; [done|]. iExists _. iSplit; [|done].
      iPureIntro. unfold zlen. rw length_replicate. split; [lia|done].
    + rw (proj2 (Z.ltb_ge _ _) Hdef). iApply (wp_store_bytes with "B").
      { rw zlen_ztake; lia. }
      iIntros "B". iSplit; [done|]. iExists _. iSplit; [|done]. iPureIntro. rw zlen_ztake; [done|lia].
Qed.

(** The whole member: its flag or counter, and its value. *)
Lemma wp_default_field it f off : at_field fields a it f off ->
  member (fun _ _ _ => emp%I) f (a + off) (a + off + size_offset f) ⊢
  wp (field_set_to_default_step e message_rec field_rec it)
    (fun o => ⌜o = Some tt⌝ ∧ pure_member (field_nul e (nulls e d)) f (a + off) (a + off + size_offset f)).
Proof.
  iIntros (Hat) "(%ld & %ls & [%Hd %Hs] & Bd & Bs & _)".
  destruct (at_field_fields _ _ _ _ Hwf _ _ _ _ Hat) as [Hpos Hf].
  destruct (member_addr _ _ _ Hat) as (Hpd & Epd & Eps & Hps & Heq).
  unfold field_set_to_default_step. rw Hpos (not_extension _ _ _ Hf). cbv zeta.
  rw (atype_pointer _ _ _ Hf) (not_oneof _ _ _ Hf) orb_false_r. fold (is_static f) (is_repeated f). rw -Eps -Epd.
  unfold pure_member, field_nul. destruct (is_static f) eqn:Est; cbn [negb].
  - unfold set_default_static. rw Hpos (not_oneof _ _ _ Hf) orb_false_r. cbv zeta. fold (is_repeated f) (is_sub f). rw Heq.
    destruct (is_repeated f) eqn:Er.
    + rw (size_len_count _ Er) in Hs. assert ((PB_HTYPE (ftype f) =? PB_HTYPE_OPTIONAL) = false) as ->.
      { apply Z.eqb_eq in Er. by rw Er. }
      wbind. cbn [andb]. wbind. iApply (wp_write_size with "Bs"); [done|done|done|]. iIntros (l') "[%Hl' %Hn] Bs". wnext.
      iApply wp_ret. wnext. iApply wp_ret. iSplit; [done|]. iExists ld, l'. iFrame. iPureIntro.
      rw (size_len_count _ Er). split_and!; eauto.
    + rw (span_item _ _ _ Hf Est Er) in Hd. wbind.
      iApply (wp_wand _ (fun o => ⌜o = Some true⌝ ∧ ∃ ls', ⌜zlen ls' = size_len f⌝ ∧ bytes (pSize it) ls')%I with "[Bs]").
      { destruct (_ && _) eqn:Ec.
        - rw (size_len_flag f Er Ec Est) in Hs. rw (size_len_flag f Er Ec Est). wbind.
          iApply (wp_store with "Bs"); [unfold zlen in Hs; lia|]. iIntros "Bs". wnext. iApply wp_ret.
          iSplit; [done|]. iExists (le_bytes 1 0). by iSplit.
        - iApply wp_ret. iSplit; [done|]. iExists ls. by iSplit. }
      iIntros (o) "[-> (%ls' & %Hs' & Bs)]". wnext. cbn [negb].
      iApply (wp_use with "Bd"); [by apply (wp_default_value f _ ld)|].
      iIntros (o) "[-> (%l' & [%Hl' %Hn] & Bd)]". iSplit; [done|]. iExists l', ls'. iFrame. iPureIntro.
      rw (span_item _ _ _ Hf Est Er). by split_and!.
  - rw (span_pointer _ _ _ Hf Est) in Hd. wbind. iApply (wp_store_ptr with "Bd"); [done|done|].
    iIntros (l') "[%Hl' %Hp] Bd". wnext. rw (span_pointer _ _ _ Hf Est). destruct (is_repeated f) eqn:Er.
    + rw (size_len_count _ Er) in Hs. iApply (wp_write_size with "Bs"); [done|done|done|].
      iIntros (l2) "[%Hl2 %Hn] Bs". iSplit; [done|]. iExists l', l2. iFrame. iPureIntro.
      rw (size_len_count _ Er). by split_and!.
    + iApply wp_ret. iSplit; [done|]. iExists l', ls. iFrame. iPureIntro. by split_and!.
Qed.
End Field.

(** ** A message *)

Lemma raw_members e d fields size a l : struct_wf e d fields size -> a <> NULL -> zlen l = size ->
  forall body N fuel it f off, at_field fields a it f off -> it_pos it = 0%nat ->
  (forall it f off, at_field fields a it f off ->
     member (fun _ _ _ => emp%I) f (a + off) (a + off + size_offset f) ⊢
     wp (body it) (fun o => ⌜o = Some tt⌝ ∧ pure_member N f (a + off) (a + off + size_offset f))) ->
  bytes a l ⊢ wp (for_fields fuel it body) (fun o => ⌜o = Some tt⌝ ∧
    ∃ l', ⌜zlen l' = size /\ Forall (fun p => N p.1 (data_part p l') (size_part p l')) (place fields)⌝ ∧ bytes a l').
Proof.
  iIntros (Hwf Ha Hl body N fuel it f off Hat Hp0 Hbody) "B".
  iApply (wp_for_members _ _ _ _ Hwf a (fun _ _ _ => emp%I) N body Ha Hbody fuel it f off l Hat Hl).
  - rw Hp0. constructor.
  - iFrame. by iApply big_sepL_emp.
Qed.

Lemma wp_set_defaults e d : forall fuel fields size a, schema_ok e d fields size = true -> 0 < a ->
  raw size a ⊢ wp (pb_message_set_to_defaults fuel e fields a) (fun o => ⌜o = Some tt⌝ ∧ nmsg e d fields size a).
Proof.
  induction d as [|d IH]; intros fuel fields size a Hok Ha; [done|].
  pose proof (schema_wf _ _ _ _ Hok) as Hwf. iIntros "(%l & %Hl & B)".
  unfold pb_message_set_to_defaults, message_set_to_defaults_step.
  assert (Ha0 : a <> NULL) by (unfold NULL; lia).
  destruct (at_field_begin _ _ _ _ Hwf a Ha0) as (it & f & off & -> & Hat & Hp0).
  iApply (wp_use with "B"); [eapply (raw_members _ _ _ _ _ _ Hwf Ha0 Hl); [exact Hat|exact Hp0|]|].
  - intros it' f' off' Hat'. destruct fuel as [|fuel]; [apply wp_nofuel|].
    apply (wp_default_field _ _ _ _ Hwf _ Ha _ _ (fun fs sz b => IH fuel fs sz b) _ _ _ Hat').
  - iIntros (o) "[-> (%l' & [%Hl' %Hn] & B)]". iSplit; [done|]. iExists l'. by iSplit.
Qed.


(** * nanopb decoder: a release frees exactly what the message owns

    [pb_release] on a message frees every block that hangs off it, each once, and
    leaves a message without blocks. *)

#[local] Open Scope Z_scope.

(** The second half of a pointer field's release, when its items own nothing more. *)
Lemma wp_release_end f it p c ld ls :
  pos it = f -> is_static f = false -> 0 < pSize it ->
  is_ptr p ld -> (if is_repeated f then zlen ls = 4 else True) ->
  bytes (pData it) ld -∗ bytes (pSize it) ls -∗ owned p c -∗
  wp ((if is_repeated f then write_size (pSize it) 0 else ret tt) ;;!
      let! p := load_ptr (pData it) in free_m p ;;! store_ptr (pData it) NULL)
    (fun o => ⌜o = Some tt⌝ ∧ ∃ ld' ls', ⌜zlen ld' = 8 /\ is_ptr NULL ld' /\
       zlen ls' = zlen ls /\ (if is_repeated f then is_count 0 ls' else True)⌝ ∧ bytes (pData it) ld' ∗ bytes (pSize it) ls').
Proof.
  iIntros (Hpos Hst Hps Hptr Hls) "Bd Bs O". wbind.
  iApply (wp_wand _ (fun o => ⌜o = Some tt⌝ ∧ ∃ ls', ⌜zlen ls' = zlen ls /\ (if is_repeated f then is_count 0 ls' else True)⌝ ∧
    bytes (pSize it) ls')%I with "[Bs]").
  { destruct (is_repeated f).
    - iApply (wp_write_size with "Bs"); [done|done|done|]. iIntros (l') "[%Hl' %Hn] Bs". iSplit; [done|].
      iExists l'. iSplit; [|done]. iPureIntro. split; [congruence|done].
    - iApply wp_ret. iSplit; [done|]. iExists ls. by iSplit. }
  iIntros (o) "[-> (%ls' & [%Hls' %Hc] & Bs)]". wnext. wbind.
  iApply (wp_load_ptr with "Bd"); [done|]. iIntros "Bd". wnext. wbind.
  iApply (wp_free with "O"). wnext. iApply (wp_store_ptr with "Bd"); [|done|].
  { destruct (is_ptr_value _ _ Hptr) as [Hl _]. unfold zlen. lia. }
  iIntros (l') "[%Hl' %Hp] Bd". iSplit; [done|]. iExists l', ls'. iFrame. iPureIntro. by split_and!.
Qed.

Section Field.
Context (e : env) (d : nat) (fields : list pb_field) (size : Z).
Hypothesis Hwf : struct_wf e d fields size.
Variable a : Z.
Hypothesis Ha : 0 < a.
Variable rec : pb_field_iter -> M dstate unit.
Hypothesis Hrec : forall fs sz b, schema_ok e d fs sz = true -> 0 < b ->
  msg e d fs sz b ⊢ wp (pb_release_step rec fs b) (fun o => ⌜o = Some tt⌝ ∧ nmsg e d fs sz b).

(** The messages of an array. *)
Lemma wp_release_items f fs n p c : field_wf e (schema_ok e d) f -> is_sub f = true ->
  submsg_fields e (ptr f) = Some fs -> 0 < p -> 0 <= n -> n * data_size f <= zlen c ->
  bytes p c ∗ items_own e (owns e d) f n c ⊢
  wp (release_items rec (Z.to_nat n) fs p (data_size f)) (fun o => ⌜o = Some tt⌝ ∧ ∃ c', ⌜zlen c' = zlen c⌝ ∧ bytes p c').
Proof.
  intros Hf Hs Hfs Hp Hn Hc. assert (Ei : item_size f = data_size f).
  { unfold item_size. by rw (sub_not_blob _ Hs) andb_false_r. }
  rw -{1}(Z2Nat.id n Hn) -Ei.
  apply (wp_items e (owns e d) f (proj1 (item_size_bounds _ _ _ Hf)) (fun p => pb_release_step rec fs p)
    (fun n p => release_items rec n fs p (item_size f))); [done|done| |done|by rw Ei Z2Nat.id].
  intros q l Hq Hl. iIntros "[B O]". destruct (wf_sub _ _ _ Hf Hs) as (fs' & Hfs' & Hok).
  assert (fs' = fs) as -> by congruence. iApply (wp_use with "[B O]"); [by apply Hrec| |].
  - iExists l. iSplit; [by rw Hl Ei|]. iFrame "B". unfold item_own. by rw Hs Hfs.
  - iIntros (o) "[-> (%l' & [%Hl' _] & B)]". iSplit; [done|]. iExists l'. iSplit; [by rw Hl' Ei|done].
Qed.

(** The strings of an array. *)
Lemma wp_free_items f n p c : field_wf e (schema_ok e d) f -> is_static f = false -> is_sub f = false -> is_blob f = true ->
  0 < p -> 0 <= n -> n * 8 <= zlen c ->
  bytes p c ∗ items_own e (owns e d) f n c ⊢
  wp (free_items (Z.to_nat n) p) (fun o => ⌜o = Some tt⌝ ∧ ∃ c', ⌜zlen c' = zlen c⌝ ∧ bytes p c').
Proof.
  intros Hf Hst Hs Hb Hp Hn Hc. assert (Ei : item_size f = 8) by (unfold item_size; by rw Hst Hb).
  rw -{1}(Z2Nat.id n Hn).
  apply (wp_items e (owns e d) f (proj1 (item_size_bounds _ _ _ Hf))
    (fun p => let! q := load_ptr p in free_m q ;;! store_ptr p NULL) free_items); [done| | |done|by rw Ei Z2Nat.id].
  - intros k q s. cbn [free_items]. rw Ei bind_assoc. apply bind_ext. intros r s'. by rw bind_assoc.
  - intros q l Hq Hl. iIntros "[B O]". rw Ei in Hl. unfold item_own. rw Hs Hst Hb. cbn [negb andb].
    iDestruct "O" as "(%r & %b & %Hr & O)". wbind. iApply (wp_load_ptr with "B"); [done|]. iIntros "B". wnext.
    wbind. iApply (wp_free with "O"). wnext. iApply (wp_store_ptr with "B"); [done|done|].
    iIntros (l') "[%Hl' _] B". iSplit; [done|]. iExists l'. iSplit; [by rw Ei|done].
Qed.

(** A pointer field whose items own nothing more. *)
Definition emptied (ld : list Z) : iProp :=
  ∃ p c, ⌜is_ptr p ld⌝ ∧ owned p c.

(** [release_submessages] of a pointer field frees what the messages own. *)
Lemma wp_release_pointees it f off ld ls : at_field fields a it f off -> is_static f = false -> is_sub f = true ->
  zlen ls = size_len f ->
  bytes (pData it) ld -∗ bytes (pSize it) ls -∗ field_own e (owns e d) f ld ls -∗
  wp (release_submessages e rec it) (fun o => ⌜o = Some tt⌝ ∧
    bytes (pData it) ld ∗ bytes (pSize it) ls ∗ emptied ld).
Proof.
  iIntros (Hat Hst Hs Hls) "Bd Bs O". destruct (at_field_fields _ _ _ _ Hwf _ _ _ _ Hat) as [Hpos Hf].
  destruct (member_addr _ _ _ _ Hwf _ Ha _ _ _ Hat) as (Hpd & Epd & Eps & Hps & Heq).
  unfold release_submessages. rw Hpos (atype_pointer _ _ _ Hf). cbv zeta. fold (is_static f) (is_repeated f).
  rw Hst. cbn [negb andb]. unfold field_own. rw Hst (sub_not_blob _ Hs) andb_false_r.
  iDestruct "O" as "(%p & %n & %c & (%Hp & %Hn & %Hc) & O & I)".
  wbind. iApply (wp_load_ptr with "Bd"); [done|]. iIntros "Bd". wnext. wbind.
  iApply (wp_wand _ (fun o => ⌜o = Some (if is_repeated f then n else 1)⌝ ∧ bytes (pSize it) ls)%I with "[Bs]").
  { destruct (is_repeated f).
    - wbind. iApply (wp_read_size with "Bs"); [done|done|]. iIntros "Bs". wnext. iApply wp_ret. by iSplit.
    - iApply wp_ret. by iSplit. }
  iIntros (o) "[-> Bs]". wnext.
  pose proof (item_size_bounds _ _ _ Hf) as Hi. pose proof Hp as [_ Hpr].
  assert (Hn0 : 0 <= n) by (destruct (is_repeated f); [apply Hn|rw Hn; by destruct (p =? NULL)]).
  assert (Hend : forall c, owned p c ⊢ emptied ld) by (iIntros (c') "O"; iExists p, c'; by iSplit).
  destruct (Z.eqb_spec p NULL) as [->|Hp0].
  { iDestruct (owned_null_elim with "O") as "[-> O]". assert (n = 0) as -> by (unfold zlen in Hc; cbn in Hc; nia).
    iApply wp_ret. iSplit; [done|]. iFrame "Bd Bs". iDestruct "I" as "_". iApply Hend. iApply owned_null_nil. }
  assert (Hcount : (if is_repeated f then n else 1) = n) by (by destruct (is_repeated f)). rw Hcount.
  destruct (Z.eqb_spec n 0) as [->|Hn1].
  { iApply wp_ret. iSplit; [done|]. iFrame "Bd Bs". iDestruct "I" as "_". by iApply Hend. }
  destruct (wf_sub _ _ _ Hf Hs) as (fs & Hfs & Hok). wbind. iApply (wp_of_opt _ fs); [done|]. wnext.
  rw owned_block //. iDestruct "O" as "[K B]".
  assert (Hp1 : 0 < p) by (unfold NULL in *; lia).
  assert (Hc' : n * data_size f <= zlen c) by (by rw -(item_size_sub _ Hs)).
  iApply (wp_use with "[B I]"); [eapply (wp_release_items f fs n p c); done || lia|iFrame|].
  iIntros (o) "[-> (%c' & %Hlc & B)]". iSplit; [done|]. iFrame "Bd Bs". iApply (Hend c'). rw owned_block //. rw Hlc. iFrame.
Qed.

(** [release_submessages] of a static submessage. *)
Lemma wp_release_value it f off l : at_field fields a it f off -> is_static f = true -> is_repeated f = false ->
  zlen l = data_size f ->
  bytes (pData it) l -∗ item_own e (owns e d) f l -∗
  wp (if is_sub f then release_submessages e rec it else ret tt) (fun o => ⌜o = Some tt⌝ ∧
    ∃ l', ⌜zlen l' = data_size f /\ item_nul e (nulls e d) f l'⌝ ∧ bytes (pData it) l').
Proof.
  iIntros (Hat Hst Hr Hl) "B O". destruct (at_field_fields _ _ _ _ Hwf _ _ _ _ Hat) as [Hpos Hf].
  destruct (member_addr _ _ _ _ Hwf _ Ha _ _ _ Hat) as (Hpd & Epd & Eps & Hps & Heq).
  unfold item_own, item_nul. destruct (is_sub f) eqn:Es.
  - destruct (wf_sub _ _ _ Hf Es) as (fs & Hfs & Hok). rw Hfs.
    unfold release_submessages. rw Hpos (atype_pointer _ _ _ Hf). cbv zeta. fold (is_static f) (is_repeated f).
    rw Hst Hr. cbn [negb andb]. wbind. iApply wp_ret. wnext. wbind. iApply wp_ret. wnext.
    rw (proj2 (Z.eqb_neq (pData it) NULL)); [|unfold NULL; lia]. cbn [Z.eqb]. wbind.
    iApply (wp_of_opt _ fs); [done|]. wnext. change (Z.to_nat 1) with 1%nat. cbn [release_items]. wbind.
    iApply (wp_use with "[B O]"); [by apply Hrec|by iExists l; iFrame|].
    iIntros (o) "[-> (%l' & [%Hl' %Hn] & B)]". wnext. iApply wp_ret. iSplit; [done|]. iExists l'. by iSplit.
  - iApply wp_ret. iSplit; [done|]. iExists l. rw Hst. cbn [negb andb]. iSplit; [done|]. by iDestruct "O" as "_".
Qed.

(** The strings of a pointer field with a counter. *)
Lemma wp_free_strings it f off ld ls p n c : at_field fields a it f off ->
  is_static f = false -> is_sub f = false -> is_blob f = true ->
  is_ptr p ld -> is_count n ls -> n * item_size f <= zlen c ->
  bytes (pData it) ld -∗ bytes (pSize it) ls -∗ owned p c -∗ items_own e (owns e d) f n c -∗
  wp (let! item := load_ptr (pData it) in
      let! count := read_size (pSize it) in
      free_items (Z.to_nat count) item)
    (fun o => ⌜o = Some tt⌝ ∧ bytes (pData it) ld ∗ bytes (pSize it) ls ∗ emptied ld).
Proof.
  iIntros (Hat Hst Hsub Hb Hp Hn Hc) "Bd Bs O I". destruct (at_field_fields _ _ _ _ Hwf _ _ _ _ Hat) as [Hpos Hf].
  destruct (member_addr _ _ _ _ Hwf _ Ha _ _ _ Hat) as (Hpd & Epd & Eps & Hps & Heq).
  assert (Ei : item_size f = 8) by (unfold item_size; by rw Hst Hb). rw Ei in Hc.
  wbind. iApply (wp_load_ptr with "Bd"); [done|]. iIntros "Bd". wnext. wbind.
  iApply (wp_read_size with "Bs"); [done|done|]. iIntros "Bs". wnext.
  assert (Hend : forall c, owned p c ⊢ emptied ld) by (iIntros (c') "O"; iExists p, c'; by iSplit).
  pose proof Hn as [_ Hnr]. pose proof Hp as [_ Hpr].
  destruct (decide (p = NULL)) as [->|Hp0].
  - iDestruct (owned_null_elim with "O") as "[-> O]". assert (n = 0) as -> by (unfold zlen in Hc; cbn in Hc; lia).
    iApply wp_ret. iSplit; [done|]. iFrame "Bd Bs". iDestruct "I" as "_". iApply Hend. iApply owned_null_nil.
  - assert (Hp1 : 0 < p) by (unfold NULL in *; lia). rw owned_block //. iDestruct "O" as "[K B]".
    iApply (wp_use with "[B I]"); [apply (wp_free_items f n p c); done || lia|iFrame|].
    iIntros (o) "[-> (%c' & %Hlc & B)]". iSplit; [done|]. iFrame "Bd Bs". iApply (Hend c'). rw owned_block // Hlc. iFrame.
Qed.

(** [release_pointer], with the items of an array of strings. *)
Lemma wp_release_pointer it f off ld ls : at_field fields a it f off -> is_static f = false ->
  zlen ls = size_len f ->
  bytes (pData it) ld ∗ bytes (pSize it) ls ∗ (if is_sub f then emptied ld else field_own e (owns e d) f ld ls) ⊢
  wp (release_pointer it) (fun o => ⌜o = Some tt⌝ ∧ ∃ ld' ls', ⌜zlen ld' = 8 /\ is_ptr NULL ld' /\
     zlen ls' = zlen ls /\ (if is_repeated f then is_count 0 ls' else True)⌝ ∧ bytes (pData it) ld' ∗ bytes (pSize it) ls').
Proof.
  iIntros (Hat Hst Hs) "(Bd & Bs & O)". destruct (at_field_fields _ _ _ _ Hwf _ _ _ _ Hat) as [Hpos Hf].
  destruct (member_addr _ _ _ _ Hwf _ Ha _ _ _ Hat) as (Hpd & Epd & Eps & Hps & Heq).
  unfold release_pointer. rw Hpos. cbv zeta. fold (is_repeated f) (is_blob f). wbind.
  assert (Hls : if is_repeated f then zlen ls = 4 else True).
  { destruct (is_repeated f) eqn:Er; [by rw Hs (size_len_count _ Er)|done]. }
  iApply (wp_wand _ (fun o => ⌜o = Some tt⌝ ∧ bytes (pData it) ld ∗ bytes (pSize it) ls ∗ emptied ld)%I with "[Bd Bs O]").
  - destruct (is_sub f) eqn:Esub.
    { rw (sub_not_blob _ Esub) andb_false_r. iApply wp_ret. iSplit; [done|]. iFrame. }
    unfold field_own. rw Hst. destruct (is_repeated f) eqn:Er; cbn [negb andb]; [|destruct (is_blob f) eqn:Eb].
    + iDestruct "O" as "(%p & %n & %c & (%Hp & %Hn & %Hc) & O & I)".
      assert (Hend : forall c, owned p c ⊢ emptied ld) by (iIntros (c') "O"; iExists p, c'; by iSplit).
      destruct (is_blob f) eqn:Eb.
      * by iApply (wp_free_strings with "Bd Bs O I").
      * rw (items_plain _ _ _ _ _ Esub Eb). iDestruct "I" as "_". iApply wp_ret. iSplit; [done|].
        iFrame "Bd Bs". by iApply Hend.
    + iApply wp_ret. iSplit; [done|]. iFrame.
    + iDestruct "O" as "(%p & %n & %c & (%Hp & _ & _) & O & I)".
      rw (items_plain _ _ _ _ _ Esub Eb). iDestruct "I" as "_". iApply wp_ret. iSplit; [done|].
      iFrame "Bd Bs". iExists p, c. by iSplit.
  - iIntros (o) "[-> (Bd & Bs & (%p & %c & %Hp & O))]". wnext.
    by iApply (wp_release_end with "Bd Bs O").
Qed.

(** The whole member. *)
Lemma wp_release_field it f off : at_field fields a it f off ->
  member (field_own e (owns e d)) f (a + off) (a + off + size_offset f) ⊢
  wp (release_field_step e rec it)
    (fun o => ⌜o = Some tt⌝ ∧ pure_member (field_nul e (nulls e d)) f (a + off) (a + off + size_offset f)).
Proof.
  iIntros (Hat) "(%ld & %ls & [%Hd %Hs] & Bd & Bs & O)".
  destruct (at_field_fields _ _ _ _ Hwf _ _ _ _ Hat) as [Hpos Hf].
  destruct (member_addr _ _ _ _ Hwf _ Ha _ _ _ Hat) as (Hpd & Epd & Eps & Hps & Heq).
  unfold release_field_step. rw Hpos (not_extension _ _ _ Hf) (not_oneof _ _ _ Hf). cbv zeta.
  rw (atype_pointer _ _ _ Hf). fold (is_sub f). rw -Eps -Epd. unfold pure_member, field_nul.
  assert (Hcb : (PB_ATYPE (ftype f) =? PB_ATYPE_CALLBACK) = false).
  { rw (wf_atype _ _ _ Hf). by destruct (is_static f). }
  rw Hcb. cbn [negb]. rw andb_true_r. wbind. iApply wp_ret. wnext. cbn [negb].
  destruct (is_static f) eqn:Est; cbn [negb].
  - (* only a submessage owns anything *)
    wbind.
    iApply (wp_wand _ (fun o => ⌜o = Some tt⌝ ∧ pure_member (field_nul e (nulls e d)) f (pData it) (pSize it))%I
      with "[Bd Bs O]"); last first.
    { iIntros (o) "[-> M]". wnext. iApply wp_ret. iSplit; [done|]. unfold pure_member, field_nul. by rw Est. }
    unfold field_own. rw Est. destruct (is_repeated f) eqn:Er.
    + destruct (wf_items _ _ _ Hf Est Er) as [-> _]. iDestruct "O" as "(%n & %Hn & O)". iApply wp_ret.
      iSplit; [done|]. iExists ld, ls. iFrame. iPureIntro. unfold field_nul. rw Est Er. split_and!; eauto.
    + rw (span_item _ _ _ Hf Est Er) in Hd.
      iApply (wp_wand _ (fun o => ⌜o = Some tt⌝ ∧ ∃ l', ⌜zlen l' = data_size f /\ item_nul e (nulls e d) f l'⌝ ∧
        bytes (pData it) l')%I with "[Bd O]"); last first.
      { iIntros (o) "[-> (%l' & [%Hl' %Hn] & Bd)]". iSplit; [done|]. iExists l', ls. iFrame. iPureIntro.
        unfold field_nul. rw (span_item _ _ _ Hf Est Er) Est Er. by split_and!. }
      by iApply (wp_release_value with "Bd O").
  - wbind.
    iApply (wp_wand _ (fun o => ⌜o = Some tt⌝ ∧ bytes (pData it) ld ∗ bytes (pSize it) ls ∗
      if is_sub f then emptied ld else field_own e (owns e d) f ld ls)%I with "[Bd Bs O]").
    { destruct (is_sub f) eqn:Esub; [by iApply (wp_release_pointees with "Bd Bs O")|].
      iApply wp_ret. iSplit; [done|]. iFrame. }
    iIntros (o) "[-> (Bd & Bs & O)]". wnext.
    iApply (wp_use with "[Bd Bs O]"); [by apply (wp_release_pointer it f off ld ls)|iFrame|].
    iIntros (o) "[-> (%ld' & %ls' & (%H1 & %H2 & %H3 & %H4) & Bd & Bs)]". iSplit; [done|]. iExists ld', ls'.
    rw (span_pointer _ _ _ Hf Est). iSplit; [iPureIntro|iFrame]. split; [done|]. split; [congruence|by split].
Qed.
End Field.

(** ** A message *)

Lemma wp_release_step e d fields size a rec : struct_wf e d fields size -> 0 < a ->
  (forall it f off, at_field fields a it f off ->
     member (field_own e (owns e d)) f (a + off) (a + off + size_offset f) ⊢
     wp (rec it) (fun o => ⌜o = Some tt⌝ ∧ pure_member (field_nul e (nulls e d)) f (a + off) (a + off + size_offset f))) ->
  msg e (S d) fields size a ⊢
  wp (pb_release_step rec fields a) (fun o => ⌜o = Some tt⌝ ∧ nmsg e (S d) fields size a).
Proof.
  iIntros (Hwf Ha Hrec) "(%l & %Hl & B & O)". unfold pb_release_step.
  assert (Ha0 : a <> NULL) by (unfold NULL; lia). rw (proj2 (Z.eqb_neq a NULL)) //.
  destruct (at_field_begin _ _ _ _ Hwf a Ha0) as (it & f & off & -> & Hat & Hp0).
  iApply (wp_use with "[B O]").
  { eapply (wp_for_members _ _ _ _ Hwf a _ _ rec Ha0 Hrec _ it f off l Hat Hl). rw Hp0. constructor. }
  { rw Hp0. iFrame. }
  iIntros (o) "[-> (%l' & [%Hl' %Hn] & B)]". iSplit; [done|]. iExists l'. by iSplit.
Qed.

Lemma wp_release e d : forall fuel fields size a, schema_ok e d fields size = true -> 0 < a ->
  msg e d fields size a ⊢
  wp (pb_release_step (pb_release_single_field fuel e) fields a) (fun o => ⌜o = Some tt⌝ ∧ nmsg e d fields size a).
Proof.
  induction d as [|d IH]; intros fuel fields size a Hok Ha; [done|].
  pose proof (schema_wf _ _ _ _ Hok) as Hwf. apply (wp_release_step _ _ _ _ _ _ Hwf Ha).
  intros it f off Hat. destruct fuel as [|fuel]; [apply wp_nofuel|].
  apply (wp_release_field _ _ _ _ Hwf _ Ha _ (fun fs sz b => IH fuel fs sz b) _ _ _ Hat).
Qed.

Lemma wp_release_single e d fuel fields size a it f off :
  struct_wf e d fields size -> 0 < a -> at_field fields a it f off ->
  member (field_own e (owns e d)) f (a + off) (a + off + size_offset f) ⊢
  wp (pb_release_single_field fuel e it)
    (fun o => ⌜o = Some tt⌝ ∧ pure_member (field_nul e (nulls e d)) f (a + off) (a + off + size_offset f)).
Proof.
  intros Hwf Ha Hat. destruct fuel as [|fuel]; [apply wp_nofuel|].
  apply (wp_release_field _ _ _ _ Hwf _ Ha _ (fun fs sz b => wp_release e d fuel fs sz b) _ _ _ Hat).
Qed.
