(* ===== verification/PbSafeValues.v ===== *)
(** * nanopb decoder: the value decoders stay inside their destination

    Each decoder of [PB_DECODERS], on any input, writes within the bytes it is given,
    and what the value owned it still owns, or has replaced. *)
From S2P Require Import Prelude Mem PbIstream PbOstream PbField PbDecode PbMessage PbIter PbTotal PbReaders PbSchema HeapLogic PbOwn PbSafeRelease.
From iris.bi Require Import bi.
From iris.proofmode Require Import proofmode.

#[local] Open Scope Z_scope.

(** ** Stores into a part *)

Lemma zlen_le_bytes n v : zlen (le_bytes n v) = Z.of_nat n.
Proof. unfold zlen. by rw le_bytes_length. Qed.

Lemma wp_store_part a l o n v Φ : 0 <= o -> o + Z.of_nat n <= zlen l ->
  bytes a l -∗ (∀ l', <affine> ⌜zlen l' = zlen l⌝ -∗ bytes a l' -∗ Φ (Some tt)) -∗ wp (store_m (a + o) n v) Φ.
Proof.
  iIntros (Ho Hn) "B HΦ". pose proof (cut_split l o n Ho ltac:(lia)) as E.
  assert (Et : zlen (ztake o l) = o) by (apply zlen_ztake; lia).
  assert (Ec : zlen (cut l o n) = n) by (apply zlen_cut; lia).
  assert (Ed : zlen (zdrop (o + n) l) = zlen l - (o + n)) by (apply zlen_zdrop; lia).
  rw {1}E !bytes_app Et Ec. iDestruct "B" as "(B1 & B2 & B3)".
  iApply (wp_store with "B2"); [unfold zlen in Ec; lia|]. iIntros "B2".
  iApply ("HΦ" $! (ztake o l ++ le_bytes n v ++ zdrop (o + n) l) with "[%]").
  - rw !zlen_app Et Ed zlen_le_bytes. lia.
  - rw !bytes_app Et zlen_le_bytes. iFrame.
Qed.

Lemma wp_store_prefix a l n v Φ : Z.of_nat n <= zlen l ->
  bytes a l -∗ (∀ l', <affine> ⌜zlen l' = zlen l⌝ -∗ bytes a l' -∗ Φ (Some tt)) -∗ wp (store_m a n v) Φ.
Proof. iIntros (Hn) "B HΦ". rw -{3}(Z.add_0_r a). iApply (wp_store_part with "B HΦ"); lia. Qed.

(** Reads into a part. *)
Lemma wp_read_part c k a l o n Φ : 0 <= o -> 0 <= n -> o + n <= zlen l ->
  stream c k -∗ bytes a l -∗
  (∀ r l', <affine> ⌜zlen l' = zlen l⌝ -∗ stream c k -∗ bytes a l' -∗ Φ r) -∗ wp (read_into (a + o) n) Φ.
Proof.
  iIntros (Ho Hn Hl) "S B HΦ". pose proof (cut_split l o n Ho Hn) as E.
  assert (Et : zlen (ztake o l) = o) by (apply zlen_ztake; lia).
  assert (Ec : zlen (cut l o n) = n) by (apply zlen_cut; lia).
  assert (Ed : zlen (zdrop (o + n) l) = zlen l - (o + n)) by (apply zlen_zdrop; lia).
  rw {1}E !bytes_app Et Ec. iDestruct "B" as "(B1 & B2 & B3)".
  iApply (wp_read_into c k with "S B2"); [done|]. iIntros (r l2) "%Hl2 S B2".
  iApply ("HΦ" $! r (ztake o l ++ l2 ++ zdrop (o + n) l) with "[%] S").
  - rw !zlen_app Et Ed. lia.
  - rw !bytes_app Et Hl2. iFrame.
Qed.

(** ** Plain values *)

(** The value keeps its size; nothing is known of it. *)
Definition in_place (c : icallback) (k : Z) (a : Z) (n : Z) : option unit -> iProp :=
  fun _ => (stream c k ∗ raw n a)%I.

Section Plain.
Context (c : icallback) (k : Z) (f : pb_field) (a : Z) (l : list Z).
Abbreviation plain func := (stream c k ∗ bytes a l ⊢ wp (func f a) (in_place c k a (zlen l))).

Lemma raw_intro b l' : bytes b l' ⊢ raw (zlen l') b.
Proof. iIntros "B". iExists l'. by iSplit. Qed.
Lemma raw_of b l' n : zlen l' = n -> bytes b l' ⊢ raw n b.
Proof. intros <-. apply raw_intro. Qed.

(** A reader, then a store of its result. *)
Lemma wp_read_store {A} (rd : M istream A) (g : A -> M dstate unit) (P : A -> Prop) :
  (forall i, reads k rd (fun v _ => P v) i) ->
  (forall v, P v -> stream c k ∗ bytes a l ⊢ wp (g v) (in_place c k a (zlen l))) ->
  stream c k ∗ bytes a l ⊢ wp (let! v := lift rd in g v) (in_place c k a (zlen l)).
Proof.
  iIntros (Hrd Hg) "[S B]". wbind. iApply (wp_reads c k rd P with "S"); [done|].
  iIntros ([v|]) "%Hv S"; wnext.
  - iApply Hg; [done|]. iFrame.
  - iFrame "S". by iApply raw_intro.
Qed.

Lemma wp_error_place msg : stream c k ∗ bytes a l ⊢ wp (DRETURN_ERROR msg) (in_place c k a (zlen l)).
Proof.
  iIntros "[S B]". iApply (wp_error with "S"). iIntros "S". iFrame "S". by iApply raw_intro.
Qed.
Lemma wp_store_place n v : Z.of_nat n <= zlen l ->
  stream c k ∗ bytes a l ⊢ wp (store_m a n v) (in_place c k a (zlen l)).
Proof.
  iIntros (Hn) "[S B]". iApply (wp_store_prefix with "B"); [done|]. iIntros (l') "%Hl' B". iFrame "S".
  rw -Hl'. by iApply raw_intro.
Qed.

Lemma wp_store_clamped (signed : bool) x : zlen l = data_size f ->
  stream c k ∗ bytes a l ⊢ wp (store_clamped signed f a x) (in_place c k a (zlen l)).
Proof.
  iIntros (Hl) "[S B]". unfold store_clamped. cbv zeta. pose proof (zlen_nonneg l) as H0.
  destruct (_ || _); [|by iApply wp_error_place; iFrame].
  wbind. iApply (wp_store_prefix with "B"); [lia|]. iIntros (l') "%Hl' B". wnext.
  destruct (negb _).
  - iApply (wp_error with "S"). iIntros "S". iFrame "S". rw -Hl'. by iApply raw_intro.
  - iApply wp_ret. iFrame "S". rw -Hl'. by iApply raw_intro.
Qed.

Lemma wp_dec_bool : 1 <= zlen l -> plain pb_dec_bool.
Proof.
  intros Hl. unfold pb_dec_bool. apply (wp_read_store _ _ (fun _ => True)).
  - intros i. eapply reads_mono; [apply reads_varint32|done].
  - intros v _. by apply wp_store_place.
Qed.
Lemma wp_dec_varint : zlen l = data_size f -> plain pb_dec_varint.
Proof.
  intros Hl. unfold pb_dec_varint. apply (wp_read_store _ _ (fun _ => True)).
  - intros i. apply reads_varint.
  - intros v _. by apply wp_store_clamped.
Qed.
Lemma wp_dec_uvarint : zlen l = data_size f -> plain pb_dec_uvarint.
Proof.
  intros Hl. unfold pb_dec_uvarint. apply (wp_read_store _ _ (fun _ => True)).
  - intros i. apply reads_varint.
  - intros v _. by apply wp_store_clamped.
Qed.
Lemma wp_dec_svarint : zlen l = data_size f -> plain pb_dec_svarint.
Proof.
  intros Hl. unfold pb_dec_svarint. apply (wp_read_store _ _ (fun _ => True)).
  - intros i. apply reads_svarint.
  - intros v _. by apply wp_store_clamped.
Qed.
Lemma wp_dec_fixed32 : 4 <= zlen l -> plain pb_dec_fixed32.
Proof.
  intros Hl. unfold pb_dec_fixed32. apply (wp_read_store _ _ (fun _ => True)).
  - intros i. apply reads_fixed32.
  - intros v _. by apply wp_store_place.
Qed.
Lemma wp_dec_fixed64 : 8 <= zlen l -> plain pb_dec_fixed64.
Proof.
  intros Hl. unfold pb_dec_fixed64. apply (wp_read_store _ _ (fun _ => True)).
  - intros i. apply reads_fixed64.
  - intros v _. by apply wp_store_place.
Qed.

Lemma wp_read_place o n : 0 <= o -> 0 <= n -> o + n <= zlen l ->
  stream c k ∗ bytes a l ⊢ wp (read_into (a + o) n) (in_place c k a (zlen l)).
Proof.
  iIntros (Ho Hn Hl) "[S B]". iApply (wp_read_part with "S B"); [done|done|done|].
  iIntros (r l') "%Hl' S B". iFrame "S". rw -Hl'. by iApply raw_intro.
Qed.

Lemma wp_dec_fixed_bytes : zlen l = data_size f -> plain pb_dec_fixed_length_bytes.
Proof.
  intros Hl. unfold pb_dec_fixed_length_bytes. apply (wp_read_store _ _ (fun _ => True)).
  - intros i. eapply reads_mono; [apply reads_varint32|done].
  - intros v _. destruct (PB_SIZE_MAX <? v); [apply wp_error_place|].
    destruct (v =? 0); [|destruct (negb _); [apply wp_error_place|]].
    + iIntros "[S B]". iApply (wp_memset0 with "B"); [done|]. iIntros "B". iFrame "S".
      iApply (raw_of with "B"). unfold zlen. rw length_replicate. pose proof (zlen_nonneg l). unfold zlen in *. lia.
    + pose proof (zlen_nonneg l). pose proof (wp_read_place 0 (data_size f)) as Hr. rw Z.add_0_r in Hr.
      apply Hr; lia.
Qed.
End Plain.

(** ** Allocation *)

Lemma wp_allocate e c k data ld p cc ds n Φ : is_ptr p ld -> 0 <= ds -> 0 <= n ->
  stream c k -∗ bytes data ld -∗ owned p cc -∗
  ((stream c k -∗ bytes data ld -∗ owned p cc -∗ Φ None) ∧
   (∀ q ld', <affine> ⌜is_ptr q ld' /\ zlen ld' = 8 /\ 0 < q /\ q + n * ds <= 2 ^ 64 /\ 0 < n * ds < 2 ^ 32⌝ -∗
      stream c k -∗ bytes data ld' -∗ owned q (moved_bytes (e_heap_fill e) cc (n * ds)) -∗ Φ (Some tt))) -∗
  wp (allocate_field e data ds n) Φ.
Proof.
  iIntros (Hp Hds Hn) "S B O HΦ". unfold allocate_field. wbind.
  iApply (wp_load_ptr with "B"); [done|]. iIntros "B". wnext. cbv zeta.
  assert (Herr : forall msg, stream c k -∗ bytes data ld -∗ owned p cc -∗
    (stream c k -∗ bytes data ld -∗ owned p cc -∗ Φ None) -∗ wp (DRETURN_ERROR msg) Φ).
  { iIntros (msg) "S B O HΦ". iApply (wp_error with "S"). iIntros "S". iApply ("HΦ" with "S B O"). }
  destruct ((ds =? 0) || (n =? 0)) eqn:E0; [iDestruct "HΦ" as "[HΦ _]"; by iApply (Herr with "S B O")|].
  destruct (_ && _) eqn:E1; [iDestruct "HΦ" as "[HΦ _]"; by iApply (Herr with "S B O")|].
  apply orb_false_iff in E0 as [E2%Z.eqb_neq E3%Z.eqb_neq].
  assert (Hpos : 0 < n * ds) by nia.
  assert (Hmul : n * ds < 2 ^ 64).
  { apply andb_false_iff in E1 as [[H1%Z.leb_gt H2%Z.leb_gt]%orb_false_iff|H%Z.ltb_ge].
    - change (2 ^ 32) with 4294967296 in *. change (2 ^ 64) with 18446744073709551616. nia.
    - pose proof (Z.mul_div_le (2 ^ 64 - 1) n ltac:(lia)). nia. }
  rw wrap_small; [|lia].
  iApply (wp_ext (let! q := realloc_m (e_heap_fill e) p (n * ds) in
    if q =? NULL then DRETURN_ERROR "realloc failed" else store_ptr data q)).
  { intros s. unfold realloc_m, bind, getm, of_opt, putm, ret. by destruct (c_realloc _ _ _ _) as [[q m]|]. }
  wbind. iApply (wp_realloc with "O"); [done|]. iSplit.
  - iIntros "O". wnext. cbn [Z.eqb NULL]. iDestruct "HΦ" as "[HΦ _]". by iApply (Herr with "S B O").
  - iIntros (q) "%Hq O". wnext. destruct Hq as (Hq1 & Hq2 & Hq3). rw (proj2 (Z.eqb_neq q NULL)); [|unfold NULL; lia].
    destruct (is_ptr_value _ _ Hp) as [Hl _]. iApply (wp_store_ptr with "B"); [unfold zlen; lia|lia|].
    iIntros (ld') "[%Hl' %Hp'] B". iDestruct "HΦ" as "[_ HΦ]".
    iApply ("HΦ" $! q ld' with "[%] S B O"). done.
Qed.

(** ** Bytes and strings *)

Section Blobs.
Context (e : env) (c : icallback) (k : Z) (f : pb_field).

Lemma wp_fill_bytes b L size : 0 <= size -> size + 4 <= zlen L ->
  stream c k ∗ bytes b L ⊢
  wp (store_m b sizeof_pb_size_t size ;;! read_into (b + offsetof_bytes) size) (in_place c k b (zlen L)).
Proof.
  iIntros (Hs HL) "[S B]". wbind. iApply (wp_store_prefix with "B"); [unfold sizeof_pb_size_t; lia|].
  iIntros (l') "%Hl' B". wnext. rw -Hl'. iApply (wp_read_place c k b l'); [done|done|unfold offsetof_bytes; lia|].
  iFrame.
Qed.

Lemma wp_fill_string b L size : 0 <= size -> size + 1 <= zlen L ->
  stream c k ∗ bytes b L ⊢
  wp (let! status := tryb (read_into b size) in store_m (b + size) 1 0 ;;! status_of status) (in_place c k b (zlen L)).
Proof.
  iIntros (Hs HL) "[S B]". wbind. iApply wp_tryb.
  iApply (wp_use with "[S B]"); [pose proof (wp_read_place c k b L 0 size) as Hr; rw Z.add_0_r in Hr; apply Hr; lia|iFrame|].
  iIntros (o) "[S (%l' & %Hl' & B)]". wnext. wbind.
  iApply (wp_store_part with "B"); [done|lia|]. iIntros (l2) "%Hl2 B". wnext.
  destruct o as [[]|]; cbn [status_of]; [iApply wp_ret|iApply wp_fail]; iFrame "S"; (iApply (raw_of with "B"); lia).
Qed.

(** The slot of a pointer to bytes or a string. *)
Definition blob_place (a : Z) : option unit -> iProp :=
  fun _ => (stream c k ∗ ∃ l, ⌜zlen l = 8⌝ ∧ bytes a l ∗ blob_own l)%I.

Lemma wp_alloc_dest dest ld size alloc msg (fill : Z -> M dstate unit) :
  PB_ATYPE (ftype f) = PB_ATYPE_POINTER -> zlen ld = 8 -> 0 <= alloc ->
  (forall b L, zlen L = alloc -> stream c k ∗ bytes b L ⊢ wp (fill b) (in_place c k b (zlen L))) ->
  stream c k ∗ bytes dest ld ∗ blob_own ld ⊢
  wp (let! b := alloc_dest e f dest size alloc msg in fill b) (blob_place dest).
Proof.
  iIntros (Hat Hld Halloc Hfill) "(S & B & O)". wbind. unfold alloc_dest. rw Hat. cbn [Z.eqb PB_ATYPE_POINTER Pos.eqb].
  wbind. iApply (wp_bytes_left with "S"). iIntros (avail) "S". wnext.
  destruct (avail <? size).
  { iApply (wp_error with "S"). iIntros "S". iFrame "S". iExists ld. by iFrame. }
  iDestruct "O" as "(%p & %cc & %Hp & O)". wbind.
  iApply (wp_allocate with "S B O"); [done|done|done|]. iSplit.
  - iIntros "S B O". iFrame "S". iExists ld. iSplit; [done|]. iFrame "B". iExists p, cc. by iSplit.
  - iIntros (q ld') "(%Hq & %Hl' & %Hq0 & %Hq1 & %Hq2) S B O". wnext.
    iApply (wp_load_ptr with "B"); [done|]. iIntros "B". wnext.
    assert (Hq' : q <> NULL) by (unfold NULL; lia). rw Z.mul_1_l owned_block //.
    iDestruct "O" as "[K L]". assert (HL : zlen (moved_bytes (e_heap_fill e) cc alloc) = alloc) by (by apply zlen_moved).
    iApply (wp_use with "[S L]"); [by apply Hfill|iFrame|]. iIntros (o) "[S (%L' & %HL' & L)]".
    iFrame "S". iExists ld'. iSplit; [done|]. iFrame "B". iExists q, L'. iSplit; [done|].
    rw owned_block // HL'. iFrame.
Qed.

(** A static destination: the size is checked against it. *)
Lemma wp_static_dest a l size alloc msg (fill : Z -> M dstate unit) :
  PB_ATYPE (ftype f) = PB_ATYPE_STATIC -> zlen l = data_size f ->
  (alloc <= zlen l -> stream c k ∗ bytes a l ⊢ wp (fill a) (in_place c k a (zlen l))) ->
  stream c k ∗ bytes a l ⊢
  wp (let! b := alloc_dest e f a size alloc msg in fill b) (in_place c k a (zlen l)).
Proof.
  iIntros (Hat Hl Hfill) "[S B]". wbind. unfold alloc_dest. rw Hat. cbn [Z.eqb PB_ATYPE_POINTER PB_ATYPE_STATIC Pos.eqb].
  destruct (Z.ltb_spec (data_size f) alloc).
  - iApply (wp_error with "S"). iIntros "S". iFrame "S". by iApply raw_intro.
  - iApply wp_ret. wnext. iApply Hfill; [lia|]. iFrame.
Qed.
End Blobs.

Section BlobDecoders.
Context (e : env) (c : icallback) (k : Z) (f : pb_field).

Lemma wp_size_then {A} (g : Z -> M dstate A) R Φ :
  (forall v, 0 <= v < 2 ^ 32 -> stream c k ∗ R ⊢ wp (g v) Φ) -> (stream c k ∗ R ⊢ Φ None) ->
  stream c k ∗ R ⊢ wp (let! v := lift pb_decode_varint32 in g v) Φ.
Proof.
  iIntros (Hg Hn) "[S R]". wbind. iApply (wp_reads c k _ (fun v => 0 <= v < 2 ^ 32) with "S").
  { intros i. apply reads_varint32. }
  iIntros ([v|]) "%Hv S"; wnext; [iApply Hg|iApply Hn]; [done|iFrame..].
Qed.

Lemma bytes_alloc v : 0 <= v < 2 ^ 32 -> PB_BYTES_ARRAY_T_ALLOCSIZE v = v + 4.
Proof.
  intros Hv. unfold PB_BYTES_ARRAY_T_ALLOCSIZE, offsetof_bytes. apply wrap_small.
  change (2 ^ 32) with 4294967296 in Hv. change (2 ^ 64) with 18446744073709551616. lia.
Qed.
Lemma string_alloc v : 0 <= v < 2 ^ 32 -> (u32 (v + 1) <? v) = false -> u32 (v + 1) = v + 1.
Proof.
  intros Hv H%Z.ltb_ge. change (2 ^ 32) with 4294967296 in Hv. unfold wrap in *. change (2 ^ 32) with 4294967296 in *.
  destruct (decide (v + 1 = 4294967296)) as [E|E]; [rw E Z.mod_same // in H; lia|]. apply Z.mod_small. lia.
Qed.

Lemma wp_bytes_pointer a l : PB_ATYPE (ftype f) = PB_ATYPE_POINTER -> zlen l = 8 ->
  stream c k ∗ bytes a l ∗ blob_own l ⊢ wp (pb_dec_bytes e f a) (blob_place c k a).
Proof.
  intros Hat Hl. assert (Hnone : forall o, stream c k ∗ bytes a l ∗ blob_own l ⊢ blob_place c k a o).
  { iIntros (o) "(S & B & O)". iFrame "S". iExists l. by iFrame. }
  apply wp_size_then; [|apply Hnone]. intros v Hv.
  destruct (PB_SIZE_MAX <? v); [iIntros "(S & B & O)"; iApply (wp_error with "S"); iIntros "S"; iApply Hnone; iFrame|].
  cbv zeta. rw bytes_alloc //. rw (proj2 (Z.ltb_ge (v + 4) v)); [|lia].
  apply wp_alloc_dest; [done|done|lia|]. intros b L HL. apply wp_fill_bytes; lia.
Qed.

Lemma wp_bytes_static a l : PB_ATYPE (ftype f) = PB_ATYPE_STATIC -> zlen l = data_size f ->
  stream c k ∗ bytes a l ⊢ wp (pb_dec_bytes e f a) (in_place c k a (zlen l)).
Proof.
  intros Hat Hl. apply wp_size_then.
  - intros v Hv. destruct (PB_SIZE_MAX <? v); [apply wp_error_place|].
    cbv zeta. rw bytes_alloc //. rw (proj2 (Z.ltb_ge (v + 4) v)); [|lia].
    apply wp_static_dest; [done|done|]. intros H. apply wp_fill_bytes; lia.
  - iIntros "[S B]". iFrame "S". by iApply raw_intro.
Qed.

Lemma wp_string_pointer a l : PB_ATYPE (ftype f) = PB_ATYPE_POINTER -> zlen l = 8 ->
  stream c k ∗ bytes a l ∗ blob_own l ⊢ wp (pb_dec_string e f a) (blob_place c k a).
Proof.
  intros Hat Hl. assert (Hnone : forall o, stream c k ∗ bytes a l ∗ blob_own l ⊢ blob_place c k a o).
  { iIntros (o) "(S & B & O)". iFrame "S". iExists l. by iFrame. }
  apply wp_size_then; [|apply Hnone]. intros v Hv. cbv zeta.
  destruct (u32 (v + 1) <? v) eqn:Ew;
    [iIntros "(S & B & O)"; iApply (wp_error with "S"); iIntros "S"; iApply Hnone; iFrame|].
  rw string_alloc //. apply wp_alloc_dest; [done|done|lia|]. intros b L HL. apply wp_fill_string; lia.
Qed.

Lemma wp_string_static a l : PB_ATYPE (ftype f) = PB_ATYPE_STATIC -> zlen l = data_size f ->
  stream c k ∗ bytes a l ⊢ wp (pb_dec_string e f a) (in_place c k a (zlen l)).
Proof.
  intros Hat Hl. apply wp_size_then.
  - intros v Hv. cbv zeta. destruct (u32 (v + 1) <? v) eqn:Ew; [apply wp_error_place|].
    rw string_alloc //. apply wp_static_dest; [done|done|]. intros H. apply wp_fill_string; lia.
  - iIntros "[S B]". iFrame "S". by iApply raw_intro.
Qed.
End BlobDecoders.

(** ** Submessages and any value *)

Section Values.
Context (e : env) (d depth : nat) (noinit_rec : list pb_field -> Z -> M dstate unit).
Hypothesis Hrec : forall fs sz c k b, schema_ok e d fs sz = true -> 0 < b ->
  stream c k ∗ msg e d fs sz b ⊢ wp (noinit_rec fs b) (fun _ => stream c k ∗ msg e d fs sz b).
(** [pb_decode] of a submessage: well formed when it succeeds, without blocks when not. *)
Lemma wp_decode_with c k fs sz b : schema_ok e d fs sz = true -> 0 < b ->
  stream c k ∗ raw sz b ⊢ wp (pb_decode_with e noinit_rec depth fs b)
    (fun o => (stream c k ∗ match o with Some _ => msg e d fs sz b | None => nmsg e d fs sz b end)%I).
Proof.
  iIntros (Hok Hb) "[S B]". unfold pb_decode_with. wbind.
  iApply (wp_use with "B"); [by apply wp_set_defaults|]. iIntros (o) "[-> M]". wnext. wbind. iApply wp_tryb.
  iApply (wp_use with "[S M]"); [by apply Hrec|by rw nmsg_msg; iFrame|].
  iIntros (o) "[S M]". wnext. wbind. destruct o as [[]|].
  - iApply wp_ret. wnext. iApply wp_ret. iFrame.
  - iApply (wp_use with "M"); [by apply wp_release|]. iIntros (o) "[-> M]". wnext. iApply wp_fail. iFrame.
Qed.

Variables (c : icallback) (k : Z).

Definition item_place (f : pb_field) (a : Z) : option unit -> iProp :=
  fun _ => (stream c k ∗ ∃ l, ⌜zlen l = item_size f⌝ ∧ bytes a l ∗ item_own e (owns e d) f l)%I.
(** What the decoder of an item expects: an array element is fresh. *)
Definition item_in (f : pb_field) (l : list Z) : iProp :=
  if is_repeated f then (⌜item_nul e (nulls e d) f l⌝ ∧ emp)%I else item_own e (owns e d) f l.

Lemma item_in_own f l : item_in f l ⊢ item_own e (owns e d) f l.
Proof.
  unfold item_in. destruct (is_repeated f); [|done].
  iIntros "[%Hn _]". iApply (item_nul_own _ _ _ _ _ (nulls_own e d) Hn).
Qed.

Lemma wp_dec_submessage f a l : field_wf e (schema_ok e d) f -> is_sub f = true -> 0 < a -> zlen l = data_size f ->
  stream c k ∗ bytes a l ∗ item_in f l ⊢ wp (pb_dec_submessage e noinit_rec depth f a) (item_place f a).
Proof.
  iIntros (Hf Hs Ha Hl) "(S & B & O)". destruct (wf_sub _ _ _ Hf Hs) as (fs & Hfs & Hok).
  pose proof (item_size_sub _ Hs) as Hi. unfold pb_dec_submessage. wbind. iApply (wp_make with "S"). iSplit.
  { iIntros "S". iFrame "S". iExists l. iSplit; [by rw Hi|]. iFrame "B". by iApply item_in_own. }
  iIntros (i sub) "%Hlent S". wnext.
  destruct (ptr f) as [|mi|] eqn:Ep; [done| |done]. wbind. iApply (wp_of_opt _ fs); [done|]. wnext. wbind.
  iApply (wp_substream c k with "S"); [done|]. iIntros "S". fold (is_repeated f).
  iAssert (wp (if is_repeated f then pb_decode_with e noinit_rec depth fs a else noinit_rec fs a)
    (fun _ => (stream c (k + i_bytes_left i) ∗ msg e d fs (data_size f) a)%I))%I with "[S B O]" as "W".
  { rw -Ep in Hfs. destruct (is_repeated f) eqn:Er.
    - unfold item_in. rw Er. iDestruct "O" as "[_ _]".
      iApply (wp_use with "[S B]"); [by apply wp_decode_with|iFrame "S"; by iApply (raw_of with "B")|].
      iIntros (o) "[S M]". iFrame "S". destruct o; [done|by iApply nmsg_msg].
    - iApply Hrec; [done|done|]. iFrame "S". iExists l. iSplit; [done|]. iFrame "B".
      unfold item_in, item_own. by rw Er Hs Hfs. }
  iApply (wp_wand with "W"). iIntros (o) "[S (%l' & %Hl' & B & O)]". iFrame "S".
  iIntros (sub') "%Hlent' S". wnext. cbn [fst snd]. wbind.
  iApply (wp_close with "S"); [done|]. iIntros (r) "S".
  iAssert (∀ o, item_place f a o)%I with "[S B O]" as "P".
  { iIntros (o'). iFrame "S". iExists l'. iSplit; [by rw Hi|]. iFrame "B". unfold item_own. by rw Hs Ep Hfs. }
  destruct r as [[]|]; wnext; [|done]. destruct o as [[]|]; cbn [status_of]; [by iApply wp_ret|by iApply wp_fail].
Qed.

(** A plain or a blob value. *)
Lemma in_place_item f a (l : list Z) o : field_wf e (schema_ok e d) f -> is_sub f = false -> (negb (is_static f) && is_blob f) = false ->
  zlen l = item_size f -> in_place c k a (zlen l) o ⊢ item_place f a o.
Proof.
  iIntros (Hf Hs Hb Hl) "[S (%l' & %Hl' & B)]". iFrame "S". iExists l'. iSplit; [by rw Hl'|]. iFrame "B".
  unfold item_own. by rw Hs Hb.
Qed.
Lemma blob_place_item f a o : is_sub f = false -> (negb (is_static f) && is_blob f) = true ->
  blob_place c k a o ⊢ item_place f a o.
Proof.
  iIntros (Hs Hb) "[S (%l & %Hl & B & O)]". iFrame "S". iExists l. unfold item_size, item_own.
  rw Hs Hb. iSplit; [done|]. iFrame.
Qed.

(** The decoders of values that own nothing, by the type of the field. *)
Lemma wp_call_plain f a l : field_wf e (schema_ok e d) f -> is_sub f = false -> (negb (is_static f) && is_blob f) = false ->
  zlen l = item_size f ->
  stream c k ∗ bytes a l ⊢ wp (call_decoder e noinit_rec depth f a) (in_place c k a (zlen l)).
Proof.
  intros Hf Hs Hb Hl. unfold item_size in Hl. rw Hb in Hl. pose proof (wf_data _ _ _ Hf) as Hd.
  pose proof (wf_width _ _ _ Hf) as Hw. unfold width_ok in Hw. cbv zeta in Hw.
  assert (Hst : is_blob f = true -> PB_ATYPE (ftype f) = PB_ATYPE_STATIC).
  { intros E. rw E andb_true_r in Hb. apply negb_false_iff in Hb. by rw (wf_atype _ _ _ Hf) Hb. }
  assert (Hcase : forall g, PB_DECODERS e noinit_rec depth (PB_LTYPE (ftype f)) = Some g ->
    (stream c k ∗ bytes a l ⊢ wp (g f a) (in_place c k a (zlen l))) ->
    stream c k ∗ bytes a l ⊢ wp (call_decoder e noinit_rec depth f a) (in_place c k a (zlen l))).
  { intros g Hg H. iIntros "P". unfold call_decoder. wbind. iApply (wp_of_opt _ g); [done|]. by iApply H. }
  pose proof (Z.land_nonneg (ftype f) 0x0F) as Hn. fold (PB_LTYPE (ftype f)) in Hn.
  unfold is_sub, is_blob in *. destruct (wf_ltype _ _ _ Hf) as [Ht|Ht]; [|eapply Hcase; [by rw Ht|by apply wp_dec_fixed_bytes]].
  unfold PB_LTYPE_SUBMESSAGE, PB_LTYPE_STRING, PB_LTYPE_BYTES, PB_LTYPE_FIXED32, PB_LTYPE_FIXED64 in *.
  assert (Hr : PB_LTYPE (ftype f) = 0 \/ PB_LTYPE (ftype f) = 1 \/ PB_LTYPE (ftype f) = 2 \/ PB_LTYPE (ftype f) = 3 \/
    PB_LTYPE (ftype f) = 4 \/ PB_LTYPE (ftype f) = 5 \/ PB_LTYPE (ftype f) = 6 \/ PB_LTYPE (ftype f) = 7) by lia.
  destruct Hr as [E|[E|[E|[E|[E|[E|[E|E]]]]]]]; rw E in Hw Hst Hcase; eapply Hcase; try reflexivity; cbn in Hw, Hst.
  - apply wp_dec_bool. lia.
  - by apply wp_dec_varint.
  - by apply wp_dec_uvarint.
  - by apply wp_dec_svarint.
  - apply wp_dec_fixed32. apply Z.leb_le in Hw. lia.
  - apply wp_dec_fixed64. apply Z.leb_le in Hw. lia.
  - apply wp_bytes_static; [by apply Hst|done].
  - apply wp_string_static; [by apply Hst|done].
Qed.

Lemma wp_call f a l : field_wf e (schema_ok e d) f -> 0 < a -> zlen l = item_size f ->
  stream c k ∗ bytes a l ∗ item_in f l ⊢ wp (call_decoder e noinit_rec depth f a) (item_place f a).
Proof.
  intros Hf Ha Hl. destruct (is_sub f) eqn:Es.
  { unfold call_decoder. pose proof Es as Es'. apply Z.eqb_eq in Es'. rw Es'. iIntros "P". wbind.
    iApply (wp_of_opt _ (pb_dec_submessage e noinit_rec depth)); [done|]. wnext.
    iApply (wp_dec_submessage f a l Hf Es Ha with "P"). by rw -(item_size_sub _ Es). }
  rw item_in_own. destruct (negb (is_static f) && is_blob f) eqn:Eb.
  - unfold item_own. rw Es Eb. apply andb_true_iff in Eb as [Est%negb_true_iff Eblob].
    assert (Hat : PB_ATYPE (ftype f) = PB_ATYPE_POINTER) by (by rw (wf_atype _ _ _ Hf) Est).
    assert (Eb : negb (is_static f) && is_blob f = true) by (by rw Est Eblob).
    assert (Hl8 : zlen l = 8) by (rw Hl; unfold item_size; by rw Eb).
    iIntros "P". iApply (wp_mono _ (blob_place c k a)); [intros o; by apply blob_place_item|].
    unfold call_decoder. wbind. apply orb_true_iff in Eblob as [E%Z.eqb_eq|E%Z.eqb_eq]; rw E.
    + iApply (wp_of_opt _ (pb_dec_string e)); [done|]. wnext. by iApply (wp_string_pointer with "P").
    + iApply (wp_of_opt _ (pb_dec_bytes e)); [done|]. wnext. by iApply (wp_bytes_pointer with "P").
  - unfold item_own. rw Es Eb. iIntros "(S & B & _)".
    iApply (wp_mono _ (in_place c k a (zlen l))); [intros o; by apply in_place_item|].
    iApply (wp_call_plain with "[S B]"); [done..|iFrame].
Qed.
End Values.
