(* ===== verification/PbSafeFields.v ===== *)
(** * nanopb decoder: the decoding of one field keeps the message well formed

    Whatever the input, [decode_field] leaves the member it decodes in a state that a
    later call, and the release of the message, can work on: also when it fails. *)
From S2P Require Import Prelude Mem PbIstream PbOstream PbField PbDecode PbMessage PbIter PbTotal PbReaders PbSchema HeapLogic PbOwn PbSafeRelease PbSafeValues.
From iris.bi Require Import bi.
From iris.proofmode Require Import proofmode.

#[local] Open Scope Z_scope.

(** One part of an array of bytes and the rest. *)
Lemma bytes_part a l o n : 0 <= o -> 0 <= n -> o + n <= zlen l ->
  bytes a l ⊢ bytes (a + o) (cut l o n) ∗
    (∀ x, <affine> ⌜zlen x = n⌝ -∗ bytes (a + o) x -∗ bytes a (put l o x)).
Proof.
  iIntros (Ho Hn Hl) "B". pose proof (cut_split l o n Ho Hn) as E.
  assert (Et : zlen (ztake o l) = o) by (apply zlen_ztake; lia).
  assert (Ec : zlen (cut l o n) = n) by (apply zlen_cut; lia).
  rw {1}E !bytes_app Et Ec. iDestruct "B" as "(B1 & B2 & B3)". iFrame "B2".
  iIntros (x) "%Hx B2". unfold put. rw !bytes_app Et Hx. iFrame.
Qed.

Section Fields.
Context (e : env) (d : nat) (fields : list pb_field) (size : Z).
Hypothesis Hwf : struct_wf e d fields size.
Variable a : Z.
Hypothesis Ha : 0 < a.
Variables (depth : nat) (noinit_rec : list pb_field -> Z -> M dstate unit).
Hypothesis Hrec : forall fs sz c k b, schema_ok e d fs sz = true -> 0 < b ->
  stream c k ∗ msg e d fs sz b ⊢ wp (noinit_rec fs b) (fun _ => stream c k ∗ msg e d fs sz b).

Abbreviation the_member f it := (member (field_own e (owns e d)) f (pData it) (pSize it)).
Abbreviation call := (call_decoder e noinit_rec depth).

(** ** Static fields *)

Section Static.
Context (it : pb_field_iter) (f : pb_field) (off : Z).
Hypothesis Hat : at_field fields a it f off.
Hypothesis Hst : is_static f = true.

Lemma wp_static_value c k ld : is_repeated f = false -> zlen ld = field_span f ->
  stream c k ∗ bytes (pData it) ld ∗ item_own e (owns e d) f ld ⊢
  wp (call f (pData it)) (fun _ => stream c k ∗ ∃ ld', ⌜zlen ld' = field_span f⌝ ∧
    bytes (pData it) ld' ∗ item_own e (owns e d) f ld').
Proof.
  intros Hr Hl. destruct (at_field_fields _ _ _ _ Hwf _ _ _ _ Hat) as [_ Hf].
  destruct (member_addr _ _ _ _ Hwf _ Ha _ _ _ Hat) as (Hpd & _).
  assert (Hi : field_span f = item_size f) by (rw (span_item _ _ _ Hf Hst Hr); unfold item_size; by rw Hst).
  rw Hi in Hl. pose proof (wp_call e d depth noinit_rec Hrec c k f (pData it) ld Hf Hpd Hl) as H.
  unfold item_in in H. rw Hr in H. iIntros "P". iApply (wp_use with "P"); [exact H|].
  iIntros (o) "[S (%l' & %Hl' & B & O)]". iFrame "S". iExists l'. rw Hi. iFrame. done.
Qed.

(** A repeated field: its items own nothing, its counter can be anything. *)
Lemma static_repeated_intro n ld ls : is_repeated f = true -> zlen ld = field_span f -> is_count n ls ->
  bytes (pData it) ld -∗ bytes (pSize it) ls -∗ the_member f it.
Proof.
  iIntros (Hr Hl Hn) "Bd Bs". iExists ld, ls. destruct (is_count_value _ _ Hn) as [Hls _].
  iSplit; [iPureIntro; rw (size_len_count _ Hr); unfold zlen; split; [done|lia]|]. iFrame.
  unfold field_own. rw Hst Hr. iExists n. by iSplit.
Qed.

Lemma wp_static_item c k ld n : is_repeated f = true -> zlen ld = field_span f -> 0 <= n < array_size f ->
  stream c k ∗ bytes (pData it) ld ⊢
  wp (call f (item_addr (pData it) f n)) (fun _ => stream c k ∗ raw (field_span f) (pData it)).
Proof.
  iIntros (Hr Hl Hn) "[S B]". destruct (at_field_fields _ _ _ _ Hwf _ _ _ _ Hat) as [_ Hf].
  destruct (member_addr _ _ _ _ Hwf _ Ha _ _ _ Hat) as (Hpd & _).
  destruct (wf_items _ _ _ Hf Hst Hr) as (Hsub & Harr & Hmul). pose proof (wf_data _ _ _ Hf) as Hd.
  assert (Hspan : field_span f = data_size f * array_size f).
  { unfold field_span. fold (is_static f) (is_repeated f). by rw Hst Hr. }
  assert (Hi : item_size f = data_size f) by (unfold item_size; by rw Hst).
  unfold item_addr. rw wrap_small; [|nia].
  iDestruct (bytes_part _ _ (data_size f * n) (data_size f) with "B") as "[B W]"; [nia|lia|nia|].
  iApply (wp_use with "[S B]").
  { apply (wp_call e d depth noinit_rec Hrec c k f (pData it + data_size f * n)
      (cut ld (data_size f * n) (data_size f)) Hf); [nia|]. rw Hi zlen_cut; [done|nia|lia|nia]. }
  { iFrame. unfold item_in, item_nul. rw Hr Hsub Hst. by iSplit. }
  iIntros (o) "[S (%l' & %Hl' & B & O)]". iFrame "S". rw Hi in Hl'. iSpecialize ("W" with "[//] B").
  unfold item_own. rw Hsub Hst. cbn [negb andb]. iDestruct "O" as "_".
  iApply (raw_of with "W"). rw zlen_put; [done|nia|nia].
Qed.

Lemma static_repeated_elim : is_repeated f = true ->
  the_member f it ⊢ ∃ n ld ls, ⌜zlen ld = field_span f /\ is_count n ls⌝ ∧ bytes (pData it) ld ∗ bytes (pSize it) ls.
Proof.
  iIntros (Hr) "(%ld & %ls & [%Hd %Hs] & Bd & Bs & O)". unfold field_own. rw Hst Hr.
  iDestruct "O" as "(%n & %Hn & _)". iExists n, ld, ls. iFrame. done.
Qed.

Lemma count_zlen n ls : is_count n ls -> zlen ls = 4.
Proof. intros [Hl _]%is_count_value. unfold zlen. lia. Qed.

Lemma wp_decode_static_item c k : is_repeated f = true ->
  stream c k ∗ the_member f it ⊢
  wp (decode_static_item e noinit_rec depth it) (fun _ => stream c k ∗ the_member f it).
Proof.
  iIntros (Hr) "[S M]". destruct (at_field_fields _ _ _ _ Hwf _ _ _ _ Hat) as [Hpos Hf].
  destruct (member_addr _ _ _ _ Hwf _ Ha _ _ _ Hat) as (Hpd & _ & _ & Hps & _).
  iDestruct (static_repeated_elim Hr with "M") as "(%n & %ld & %ls & [%Hd %Hn] & Bd & Bs)".
  unfold decode_static_item. rw Hpos. wbind. iApply (wp_read_size with "Bs"); [done|done|]. iIntros "Bs". wnext.
  cbv zeta. wbind. iApply (wp_write_size with "Bs"); [done|by eapply count_zlen|by apply wrap_range|].
  iIntros (ls') "[%Hl' %Hn'] Bs". wnext. pose proof Hn as [_ Hnr]. destruct (Z.leb_spec (array_size f) n) as [Hov|Hlt].
  - iApply (wp_error with "S"). iIntros "S". iFrame "S". by iApply (static_repeated_intro with "Bd Bs").
  - iApply (wp_use with "[S Bd]"); [apply (wp_static_item c k ld n); done || lia|iFrame|].
    iIntros (o) "[S (%ld' & %Hd' & Bd)]". iFrame "S". by iApply (static_repeated_intro with "Bd Bs").
Qed.

Lemma wp_packed_static c k i : is_repeated f = true -> forall fuel sub, lent c k i sub ->
  stream_is i ∗ the_member f it ⊢
  wp (packed_static_loop e noinit_rec depth fuel it sub)
    (fun o => ∃ st sub', ⌜o = Some (st, sub') /\ lent c k i sub'⌝ ∧ stream_is i ∗ the_member f it).
Proof.
  intros Hr. induction fuel as [|fuel IH]; intros sub Hlent; [apply wp_nofuel|]. iIntros "[S M]".
  destruct (at_field_fields _ _ _ _ Hwf _ _ _ _ Hat) as [Hpos Hf].
  destruct (member_addr _ _ _ _ Hwf _ Ha _ _ _ Hat) as (Hpd & _ & _ & Hps & _).
  iDestruct (static_repeated_elim Hr with "M") as "(%n & %ld & %ls & [%Hd %Hn] & Bd & Bs)". cbn [packed_static_loop].
  rw Hpos. wbind. iApply (wp_read_size with "Bs"); [done|done|]. iIntros "Bs". wnext. pose proof Hn as [_ Hnr].
  destruct (_ && _) eqn:Ec.
  - apply andb_true_iff in Ec as [_ Hlt%Z.ltb_lt]. wbind. iApply (wp_substream c k with "S"); [done|]. iIntros "S".
    iApply (wp_use with "[S Bd]"); [apply (wp_static_item c (k + i_bytes_left i) ld n); done || lia|iFrame|].
    iIntros (o) "[S (%ld' & %Hd' & Bd)]". iFrame "S". iIntros (sub') "%Hlent' S". wnext. destruct o as [[]|].
    + wbind. iApply (wp_read_size with "Bs"); [done|done|]. iIntros "Bs". wnext. wbind.
      iApply (wp_write_size with "Bs"); [done|by eapply count_zlen|by apply wrap_range|].
      iIntros (ls') "[%Hl' %Hn'] Bs". wnext. iApply IH; [done|]. iFrame "S".
      by iApply (static_repeated_intro with "Bd Bs").
    + iApply wp_ret. iExists false, sub'. iSplit; [done|]. iFrame "S". by iApply (static_repeated_intro with "Bd Bs").
  - iApply wp_ret. iExists true, sub. iSplit; [done|]. iFrame "S". by iApply (static_repeated_intro with "Bd Bs").
Qed.

Lemma lent_stream c k i sub : lent c k i sub -> stream_is i ⊢ stream c k.
Proof. intros (H1 & H2 & H3 & _). by apply stream_intro. Qed.

Lemma wp_decode_static_packed c k : is_repeated f = true ->
  stream c k ∗ the_member f it ⊢
  wp (decode_static_packed e noinit_rec depth it) (fun _ => stream c k ∗ the_member f it).
Proof.
  iIntros (Hr) "[S M]". unfold decode_static_packed. wbind. iApply (wp_make with "S"). iSplit.
  { iIntros "S". iFrame. }
  iIntros (i sub) "%Hlent S". wnext. wbind.
  iApply (wp_use with "[S M]"); [by apply (wp_packed_static c k i Hr)|iFrame|].
  iIntros (o) "(%st & %sub' & %Ho & S & M)". destruct Ho as [-> Hlent']. wnext. destruct (negb _).
  - rw (lent_stream _ _ _ _ Hlent'). iApply (wp_error with "S"). iIntros "S". iFrame.
  - wbind. iApply (wp_close with "S"); [done|]. iIntros (o) "S". destruct o as [[]|]; wnext; [|iFrame].
    destruct st; [iApply wp_ret|iApply wp_fail]; iFrame.
Qed.

Lemma wp_decode_static wt c k :
  stream c k ∗ the_member f it ⊢
  wp (decode_static_field e noinit_rec depth wt it) (fun _ => stream c k ∗ the_member f it).
Proof.
  iIntros "[S M]". destruct (at_field_fields _ _ _ _ Hwf _ _ _ _ Hat) as [Hpos Hf].
  destruct (member_addr _ _ _ _ Hwf _ Ha _ _ _ Hat) as (Hpd & _ & _ & Hps & Heq).
  unfold decode_static_field. rw Hpos (not_oneof _ _ _ Hf) Heq. cbv zeta. fold (is_repeated f).
  rw (ltype_below _ _ _ Hf). wbind. iApply wp_ret. wnext. destruct (is_repeated f) eqn:Er.
  { assert (PB_HTYPE (ftype f) = PB_HTYPE_REPEATED) as -> by (by apply Z.eqb_eq). cbn [Z.eqb].
    destruct (_ && _); [iApply (wp_decode_static_packed c k Er)|iApply (wp_decode_static_item c k Er)]; iFrame. }
  iDestruct "M" as "(%ld & %ls & [%Hd %Hs] & Bd & Bs & O)".
  iAssert (∀ ls', <affine> ⌜zlen ls' = size_len f⌝ -∗ bytes (pSize it) ls' -∗
     wp (call f (pData it)) (fun _ => (stream c k ∗ the_member f it)%I))%I with "[S Bd O]" as "W".
  { iIntros (ls') "%Hs' Bs". unfold field_own. rw Hst Er.
    iApply (wp_use with "[S Bd O]"); [by apply (wp_static_value c k ld Er)|iFrame|].
    iIntros (o) "[S (%ld' & %Hd' & Bd & O)]". iFrame "S". iExists ld', ls'. iSplit; [done|]. iFrame.
    unfold field_own. by rw Hst Er. }
  destruct (PB_HTYPE (ftype f) =? PB_HTYPE_REQUIRED) eqn:Eq; [by iApply ("W" with "[%] Bs")|].
  destruct (PB_HTYPE (ftype f) =? PB_HTYPE_OPTIONAL) eqn:Eo; [|by unfold is_repeated in Er; destruct (htype_cases _ _ _ Hf) as [H|[H|H]]; rw H in Er Eo Eq].
  wbind. destruct (negb (size_offset f =? 0)) eqn:Ez.
  - assert (Hl1 : size_len f = 1) by (apply size_len_flag; [done|by rw Eo Ez|done]). rw Hl1 in Hs.
    iApply (wp_store with "Bs"); [unfold zlen in Hs; lia|]. iIntros "Bs". wnext.
    iApply ("W" $! (le_bytes 1 1) with "[%] Bs"). by rw Hl1.
  - iApply wp_ret. wnext. by iApply ("W" with "[%] Bs").
Qed.
End Static.

(** ** Items of pointer fields *)

Section Items.
Context (it : pb_field_iter) (f : pb_field).
Hypothesis Hpos : pos it = f.
Hypothesis Hf : field_wf e (schema_ok e d) f.
Hypothesis Hst : is_static f = false.
Hypothesis Harr : is_repeated f = false -> is_blob f = false.

Lemma data_item : data_size f = item_size f.
Proof.
  unfold item_size. rw Hst. cbn [negb andb]. destruct (is_blob f) eqn:Eb; [|done].
  destruct (is_repeated f) eqn:Er; [|by discriminate (Harr eq_refl)]. by apply (wf_pointers _ _ _ Hf).
Qed.

Abbreviation items n L := (items_own e (owns e d) f n L).
Abbreviation slot n L := (cut L (n * item_size f) (item_size f)).

Lemma item_at q n : 0 <= n -> n * item_size f < 2 ^ 32 ->
  item_addr q f n = q + n * item_size f.
Proof.
  intros Hn Hw. unfold item_addr. rw data_item. pose proof (item_size_bounds _ _ _ Hf).
  rw wrap_small; [lia|nia].
Qed.

Lemma item_focus q n L : q <> NULL -> 0 <= n -> (n + 1) * item_size f <= zlen L ->
  owned q L ∗ items n L ⊢ bytes (q + n * item_size f) (slot n L) ∗
    (∀ x, <affine> ⌜zlen x = item_size f⌝ -∗ bytes (q + n * item_size f) x -∗
       ∃ L', ⌜zlen L' = zlen L /\ slot n L' = x⌝ ∧ owned q L' ∗ items n L').
Proof.
  iIntros (Hq Hn HL) "[O I]". pose proof (item_size_bounds _ _ _ Hf) as Hi. rw owned_block //. iDestruct "O" as "[K B]".
  iDestruct (bytes_part _ _ (n * item_size f) (item_size f) with "B") as "[B W]"; [nia|lia|nia|].
  iFrame "B". iIntros (x) "%Hx B". iSpecialize ("W" with "[//] B"). iExists (put L (n * item_size f) x).
  assert (Hlen : zlen (put L (n * item_size f) x) = zlen L) by (apply zlen_put; nia).
  pose proof (cut_put L (n * item_size f) x ltac:(nia) ltac:(nia)) as Hcut. rw Hx in Hcut. iSplit; [done|].
  rw owned_block // Hlen. iFrame "K W". iApply (items_own_ext with "I"). intros j Hj.
  apply cut_put_apart; [nia|nia|nia|]. unfold apart. cbn. right. right. right. nia.
Qed.

(** [initialize_pointer_field] makes the next item an empty one. *)
Lemma wp_initialize b l : 0 < b -> zlen l = item_size f ->
  bytes b l ⊢ wp (initialize_pointer_field e depth b it) (fun o => ⌜o = Some tt⌝ ∧
    ∃ l', ⌜zlen l' = item_size f /\ item_nul e (nulls e d) f l'⌝ ∧ bytes b l').
Proof.
  iIntros (Hb Hl) "B". unfold initialize_pointer_field. rw Hpos. cbv zeta. fold (is_blob f) (is_sub f).
  unfold item_nul. rw Hst. cbn [negb andb]. destruct (is_sub f) eqn:Es.
  - rw (sub_not_blob _ Es). destruct (wf_sub _ _ _ Hf Es) as (fs & Hfs & Hok). rw data_item. rw data_item in Hok.
    wbind. iApply (wp_memset0 with "B"); [done|]. iIntros "B". wnext. wbind. iApply (wp_of_opt _ fs); [done|]. wnext.
    pose proof (item_size_bounds _ _ _ Hf) as Hi.
    iApply (wp_use with "[B]"); [by apply wp_set_defaults|iApply (raw_of with "B")|].
    { unfold zlen. rw length_replicate. lia. }
    iIntros (o) "[-> (%l' & [%Hl' %Hn] & B)]". iSplit; [done|]. iExists l'. rw Hfs. by iSplit.
  - destruct (is_blob f) eqn:Eb.
    + assert (Hi : item_size f = 8) by (unfold item_size; by rw Hst Eb). rw Hi in Hl.
      iApply (wp_store_ptr with "B"); [done|done|]. iIntros (l') "[%Hl' %Hp] B". iSplit; [done|]. iExists l'.
      rw Hi. by iSplit.
    + iApply wp_ret. iSplit; [done|]. iExists l. by iSplit.
Qed.

Lemma wp_init_item q n L : 0 < q -> 0 <= n -> (n + 1) * item_size f <= zlen L -> n * item_size f < 2 ^ 32 ->
  owned q L ∗ items n L ⊢ wp (initialize_pointer_field e depth (item_addr q f n) it) (fun o => ⌜o = Some tt⌝ ∧
    ∃ L', ⌜zlen L' = zlen L /\ item_nul e (nulls e d) f (slot n L')⌝ ∧ owned q L' ∗ items n L').
Proof.
  iIntros (Hq Hn HL Hw) "P". pose proof (item_size_bounds _ _ _ Hf) as Hi. rw (item_at q n) //.
  iDestruct (item_focus with "P") as "[B W]"; [unfold NULL; lia|done|done|].
  iApply (wp_use with "B"); [apply wp_initialize; [nia|apply zlen_cut; nia]|].
  iIntros (o) "[-> (%l' & [%Hl' %Hnul] & B)]". iSplit; [done|].
  iDestruct ("W" with "[//] B") as "(%L' & [%HL' %Hs] & P)". iExists L'. iFrame. iPureIntro. by rw Hs.
Qed.

(** The next item is decoded; it counts as an item whether or not that succeeds. *)
Lemma wp_call_item c k q n L : 0 < q -> 0 <= n -> (n + 1) * item_size f <= zlen L -> n * item_size f < 2 ^ 32 ->
  item_nul e (nulls e d) f (slot n L) ->
  stream c k ∗ owned q L ∗ items n L ⊢ wp (call f (item_addr q f n)) (fun _ => stream c k ∗
    ∃ L', ⌜zlen L' = zlen L⌝ ∧ owned q L' ∗ items (n + 1) L').
Proof.
  iIntros (Hq Hn HL Hw Hnul) "[S P]". pose proof (item_size_bounds _ _ _ Hf) as Hi. rw (item_at q n) //.
  iDestruct (item_focus with "P") as "[B W]"; [unfold NULL; lia|done|done|].
  iApply (wp_use with "[S B]").
  { apply (wp_call e d depth noinit_rec Hrec c k f (q + n * item_size f) (slot n L) Hf); [nia|apply zlen_cut; nia]. }
  { iFrame. unfold item_in. destruct (is_repeated f); [by iSplit|].
    iApply (item_nul_own _ _ _ _ _ (nulls_own e d) Hnul). }
  iIntros (o) "[S (%l' & %Hl' & B & O)]". iFrame "S".
  iDestruct ("W" with "[//] B") as "(%L' & [%HL' %Hs] & K & I)". iExists L'. iSplit; [done|]. iFrame "K".
  rw items_own_snoc; [|done]. rw Hs. iFrame.
Qed.
End Items.

(** ** Pointer fields *)

Lemma cut_moved fill l m o n : 0 <= o -> o + n <= m -> o + n <= zlen l -> cut (moved_bytes fill l m) o n = cut l o n.
Proof.
  intros Ho Hm Hl. apply list_eq. intros i. rw !lookup_cut //. destruct (decide (i < n)) as [Hi|Hi]; [|done].
  unfold moved_bytes, ztake, zlen in *. rw lookup_app_l; [|rw length_take; lia]. rw lookup_take_lt //. lia.
Qed.

Section Pointer.
Context (it : pb_field_iter) (f : pb_field) (off : Z).
Hypothesis Hat : at_field fields a it f off.
Hypothesis Hst : is_static f = false.

Abbreviation items n L := (items_own e (owns e d) f n L).

(** The pointer [p] and the counter [n] in the struct. *)
Definition slots_hold (n p : Z) : iProp :=
  ∃ ld ls, ⌜is_ptr p ld /\ zlen ls = size_len f /\ (if is_repeated f then is_count n ls else True)⌝ ∧
    bytes (pData it) ld ∗ bytes (pSize it) ls.

Section Array.
Hypothesis Harr : is_repeated f = false -> is_blob f = false.

Lemma not_single_blob : negb (is_repeated f) && is_blob f = false.
Proof. destruct (is_repeated f); [done|]. by rw Harr. Qed.

Lemma ptr_member_elim : the_member f it ⊢ ∃ n p L,
  ⌜0 <= n /\ (is_repeated f = true -> n < 2 ^ 32) /\
   (is_repeated f = false -> n = if p =? NULL then 0 else 1) /\ n * item_size f <= zlen L⌝ ∧
  slots_hold n p ∗ owned p L ∗ items n L.
Proof.
  iIntros "(%ld & %ls & [%Hd %Hs] & Bd & Bs & O)". unfold field_own. rw Hst not_single_blob.
  iDestruct "O" as "(%p & %n & %L & (%Hp & %Hn & %HL) & O & I)". iExists n, p, L. iSplit.
  - iPureIntro. destruct (is_repeated f); [destruct Hn as [_ Hn]; split_and!; done || lia|].
    split_and!; try done. rw Hn. by destruct (p =? NULL).
  - iFrame "O I". iExists ld, ls. iSplit; [|iFrame]. iPureIntro. ands; [done|done|]. by destruct (is_repeated f).
Qed.

Lemma ptr_member_intro n p L : (is_repeated f = false -> n = if p =? NULL then 0 else 1) ->
  n * item_size f <= zlen L ->
  slots_hold n p -∗ owned p L -∗ items n L -∗ the_member f it.
Proof.
  iIntros (Hn HL) "(%ld & %ls & (%Hp & %Hs & %Hc) & Bd & Bs) O I".
  destruct (at_field_fields _ _ _ _ Hwf _ _ _ _ Hat) as [_ Hf]. iExists ld, ls. iSplit.
  - iPureIntro. rw (span_pointer _ _ _ Hf Hst). split; [|done]. destruct (is_ptr_value _ _ Hp) as [Hl _]. unfold zlen. lia.
  - iFrame "Bd Bs". unfold field_own. rw Hst not_single_blob. iExists p, n, L. iFrame "O I". iPureIntro.
    ands; try done. destruct (is_repeated f); [done|by apply Hn].
Qed.

(** [allocate_field] for [m] items: the [n] there are stay. *)
Lemma wp_grow c k n p (L : list Z) m (Φ : option unit -> iProp) : 0 <= n <= m -> n * item_size f <= zlen L ->
  stream c k -∗ slots_hold n p -∗ owned p L -∗ items n L -∗
  ((stream c k -∗ slots_hold n p -∗ owned p L -∗ items n L -∗ Φ None) ∧
   (∀ q (L' : list Z), <affine> ⌜0 < q /\ zlen L' = (m * item_size f)%Z /\ m * item_size f < 2 ^ 32⌝ -∗
      stream c k -∗ slots_hold n q -∗ owned q L' -∗ items n L' -∗ Φ (Some tt))) -∗
  wp (allocate_field e (pData it) (data_size f) m) Φ.
Proof.
  iIntros (Hn HL) "S (%ld & %ls & (%Hp & %Hs & %Hc) & Bd & Bs) O I HΦ".
  destruct (at_field_fields _ _ _ _ Hwf _ _ _ _ Hat) as [_ Hf]. pose proof (item_size_bounds _ _ _ Hf) as Hi.
  rw (data_item f Hf Hst Harr).
  iApply (wp_allocate with "S Bd O"); [done|lia|lia|]. iSplit.
  - iIntros "S Bd O". iDestruct "HΦ" as "[HΦ _]". iApply ("HΦ" with "S [Bd Bs] O I"). iExists ld, ls. iFrame. done.
  - iIntros (q ld') "%Hq S Bd O". destruct Hq as (Hq & Hld & Hq0 & Hq1 & Hq2). iDestruct "HΦ" as "[_ HΦ]".
    iApply ("HΦ" $! q with "[%] S [Bd Bs] O [I]").
    + rw zlen_moved; [ands; done || lia|lia].
    + iExists ld', ls. iFrame. done.
    + iApply (items_own_ext with "I"). intros j Hj. apply cut_moved; nia.
Qed.

Lemma wp_slots_ptr n p (Φ : option Z -> iProp) : slots_hold n p -∗ (slots_hold n p -∗ Φ (Some p)) -∗ wp (load_ptr (pData it)) Φ.
Proof.
  iIntros "(%ld & %ls & (%Hp & %Hs & %Hc) & Bd & Bs) HΦ". iApply (wp_load_ptr with "Bd"); [done|].
  iIntros "Bd". iApply "HΦ". iExists ld, ls. iFrame. done.
Qed.
Lemma wp_slots_count n p (Φ : option Z -> iProp) : is_repeated f = true ->
  slots_hold n p -∗ (<affine> ⌜0 <= n < 2 ^ 32⌝ -∗ slots_hold n p -∗ Φ (Some n)) -∗ wp (read_size (pSize it)) Φ.
Proof.
  iIntros (Hr) "(%ld & %ls & (%Hp & %Hs & %Hc) & Bd & Bs) HΦ". rw Hr in Hc.
  destruct (member_addr _ _ _ _ Hwf _ Ha _ _ _ Hat) as (_ & _ & _ & Hps & _).
  iApply (wp_read_size with "Bs"); [done|done|]. iIntros "Bs". iApply ("HΦ" with "[%]"); [apply Hc|].
  iExists ld, ls. rw Hr. iFrame. done.
Qed.
Lemma wp_slots_set n p m (Φ : option unit -> iProp) : is_repeated f = true -> 0 <= m < 2 ^ 32 ->
  slots_hold n p -∗ (slots_hold m p -∗ Φ (Some tt)) -∗ wp (write_size (pSize it) m) Φ.
Proof.
  iIntros (Hr Hm) "(%ld & %ls & (%Hp & %Hs & %Hc) & Bd & Bs) HΦ". rw Hr in Hc. rw (size_len_count _ Hr) in Hs.
  destruct (member_addr _ _ _ _ Hwf _ Ha _ _ _ Hat) as (_ & _ & _ & Hps & _).
  iApply (wp_write_size with "Bs"); [done|done|done|]. iIntros (ls') "[%Hl' %Hn'] Bs". iApply "HΦ".
  iExists ld, ls'. rw Hr (size_len_count _ Hr). iFrame. done.
Qed.

Lemma wp_decode_pointer_item c k : is_repeated f = true ->
  stream c k ∗ the_member f it ⊢
  wp (decode_pointer_item e noinit_rec depth it) (fun _ => stream c k ∗ the_member f it).
Proof.
  iIntros (Hr) "[S M]". destruct (at_field_fields _ _ _ _ Hwf _ _ _ _ Hat) as [Hpos Hf].
  pose proof (item_size_bounds _ _ _ Hf) as Hi.
  iDestruct (ptr_member_elim with "M") as "(%n & %p & %L & (%Hn & _ & _ & %HL) & Sl & O & I)".
  assert (Hback : forall n' p' (L' : list Z), n' * item_size f <= zlen L' -> stream c k ∗ slots_hold n' p' ∗ owned p' L' ∗ items n' L' ⊢
    stream c k ∗ the_member f it).
  { iIntros (n' p' L' HL') "(S & Sl & O & I)". iFrame "S".
    iApply (ptr_member_intro with "Sl O I"); [by rw Hr|done]. }
  unfold decode_pointer_item. rw Hpos. cbv zeta. wbind. iApply (wp_slots_count with "Sl"); [done|]. iIntros "%Hn2 Sl". wnext.
  destruct (Z.eqb_spec n PB_SIZE_MAX) as [Em|Em].
  { iApply (wp_error with "S"). iIntros "S". iApply (Hback n p L); [done|]. iFrame. }
  assert (Hn1 : u32 (n + 1) = n + 1) by (apply wrap_small; unfold PB_SIZE_MAX in Em; lia). rw Hn1.
  wbind. iApply (wp_grow with "S Sl O I"); [lia|done|]. iSplit.
  { iIntros "S Sl O I". iApply (Hback n p L); [done|]. iFrame. }
  iIntros (q L') "(%Hq & %HL' & %Hw) S Sl O I". wnext. wbind. iApply (wp_slots_ptr with "Sl"). iIntros "Sl". wnext.
  wbind. iApply (wp_slots_set with "Sl"); [done|unfold PB_SIZE_MAX in Em; lia|]. iIntros "Sl". wnext. wbind.
  iApply (wp_use with "[O I]"); [apply (wp_init_item it f Hpos Hf Hst Harr q n L'); nia|iFrame|].
  iIntros (o) "[-> (%L2 & [%HL2 %Hnul] & O & I)]". wnext.
  iApply (wp_use with "[S O I]"); [apply (wp_call_item f Hf Hst Harr c k q n L2); done || nia|iFrame|].
  iIntros (o) "[S (%L3 & %HL3 & O & I)]". iApply (Hback (n + 1) q L3); [nia|]. iFrame.
Qed.

Section Packed.
Hypothesis Hsub : is_sub f = false.
Hypothesis Hblob : is_blob f = false.

(** The outcome of the loop over a packed array: [false] is no failure of the caller yet. *)
Definition packed_post (c : icallback) (k : Z) (o : option (bool * istream)) : iProp :=
  ∃ st i sub, ⌜o = Some (st, sub) /\ lent c k i sub⌝ ∧ stream_is i ∗ the_member f it.

Lemma packed_done c k i sub st n p L : is_repeated f = true -> lent c k i sub -> n * item_size f <= zlen L ->
  stream_is i -∗ slots_hold n p -∗ owned p L -∗ items n L -∗ packed_post c k (Some (st, sub)).
Proof.
  iIntros (Hr Hlent HL) "S Sl O I". iExists st, i, sub. iSplit; [done|]. iFrame "S".
  iApply (ptr_member_intro with "Sl O I"); [by rw Hr|done].
Qed.

(** One item of a packed array, the room for it being there. *)
Lemma wp_packed_item c k i sub n q L (next : istream -> M dstate (bool * istream)) :
  is_repeated f = true -> lent c k i sub -> 0 < q -> 0 <= n < PB_SIZE_MAX ->
  (n + 1) * item_size f <= zlen L -> n * item_size f < 2 ^ 32 ->
  (forall sub' L', lent c k i sub' -> zlen L' = zlen L ->
     stream_is i ∗ slots_hold (n + 1) q ∗ owned q L' ∗ items (n + 1) L' ⊢ wp (next sub') (packed_post c k)) ->
  stream_is i ∗ slots_hold n q ∗ owned q L ∗ items n L ⊢
  wp (let! base := load_ptr (pData it) in
      if item_addr base f n =? NULL then ret (false, sub) else
      initialize_pointer_field e depth (item_addr base f n) it ;;!
      let! r := on_substream sub (call f (item_addr base f n)) in
      match r with
      | (None, sub2) => ret (false, sub2)
      | (Some _, sub2) =>
          let! m := read_size (pSize it) in
          write_size (pSize it) (u32 (m + 1)) ;;! next sub2
      end) (packed_post c k).
Proof.
  iIntros (Hr Hlent Hq Hn HL Hw Hnext) "(S & Sl & O & I)".
  destruct (at_field_fields _ _ _ _ Hwf _ _ _ _ Hat) as [Hpos Hf]. pose proof (item_size_bounds _ _ _ Hf) as Hi.
  wbind. iApply (wp_slots_ptr with "Sl"). iIntros "Sl". wnext.
  destruct (item_addr q f n =? NULL); [iApply wp_ret; iApply (packed_done with "S Sl O I"); done || nia|].
  wbind. iApply (wp_use with "[O I]"); [apply (wp_init_item it f Hpos Hf Hst Harr q n L); lia|iFrame|].
  iIntros (o) "[-> (%L2 & [%HL2 %Hnul] & O & I)]". wnext. wbind.
  iApply (wp_substream c k with "S"); [done|]. iIntros "S".
  iApply (wp_use with "[S O I]"); [apply (wp_call_item f Hf Hst Harr c (k + i_bytes_left i) q n L2); done || lia|iFrame|].
  iIntros (o) "[S (%L3 & %HL3 & O & I)]". iFrame "S". iIntros (sub2) "%Hlent2 S". wnext. destruct o as [[]|].
  - wbind. iApply (wp_slots_count with "Sl"); [done|]. iIntros "_ Sl". wnext. wbind.
    unfold PB_SIZE_MAX in Hn. rw wrap_small; [|lia].
    iApply (wp_slots_set with "Sl"); [done|lia|]. iIntros "Sl". wnext.
    iApply (Hnext sub2 L3); [done|lia|iFrame].
  - iApply wp_ret. iApply (packed_done _ _ _ _ _ n with "S Sl O [I]"); [done|done|nia|].
    by rw !(items_plain _ _ _ _ _ Hsub Hblob).
Qed.

Lemma grow_one allocated remain : 0 <= allocated < PB_SIZE_MAX -> 1 <= remain ->
  allocated + 1 <= grow_allocation allocated remain.
Proof.
  unfold PB_SIZE_MAX, grow_allocation. intros Ha' Hr. unfold PB_SIZE_MAX.
  change (2 ^ 32 - 1) with 4294967295 in *. change (2 ^ 32) with 4294967296 in *.
  rw (wrap_small 64 (4294967295 - allocated)); [|change (2 ^ 64) with 18446744073709551616; lia].
  destruct (Z.ltb_spec remain (4294967295 - allocated)); rw wrap_small; try lia;
    change (2 ^ 64) with 18446744073709551616; lia.
Qed.

Lemma wp_packed_pointer c k : is_repeated f = true -> forall fuel i sub allocated n p L, lent c k i sub ->
  0 <= n <= allocated -> n < 2 ^ 32 -> allocated * item_size f <= zlen L ->
  allocated = n \/ (0 < p /\ allocated * item_size f < 2 ^ 32) ->
  stream_is i ∗ slots_hold n p ∗ owned p L ∗ items n L ⊢
  wp (packed_pointer_loop e noinit_rec depth fuel it sub allocated) (packed_post c k).
Proof.
  intros Hr. induction fuel as [|fuel IH]; intros i sub allocated n p L Hlent Hn Hn32 HL Hal; [apply wp_nofuel|].
  iIntros "(S & Sl & O & I)". destruct (at_field_fields _ _ _ _ Hwf _ _ _ _ Hat) as [Hpos Hf].
  pose proof (item_size_bounds _ _ _ Hf) as Hi. cbn [packed_pointer_loop]. rw Hpos. cbv zeta.
  assert (Hls : 0 <= i_bytes_left sub) by apply Hlent.
  destruct (Z.eqb_spec (i_bytes_left sub) 0) as [E0|E0];
    [iApply wp_ret; iApply (packed_done with "S Sl O I"); done || nia|].
  wbind. iApply (wp_slots_count with "Sl"); [done|]. iIntros "_ Sl". wnext.
  destruct (Z.eqb_spec n PB_SIZE_MAX) as [Em|Em].
  { wbind. iApply (wp_set_errmsg with "S"); [done|]. iIntros (i') "%Hlent' S". wnext. iApply wp_ret.
    iApply (packed_done with "S Sl O I"); done || nia. }
  assert (Hmax : 0 <= n < PB_SIZE_MAX) by (unfold PB_SIZE_MAX in *; lia).
  wbind. destruct (Z.ltb_spec allocated (n + 1)) as [Hg|Hg].
  - assert (allocated = n) as -> by lia. rw (data_item f Hf Hst Harr) (proj2 (Z.eqb_neq (item_size f) 0)); [|lia].
    wbind. iApply wp_ret. wnext. wbind. rw -(data_item f Hf Hst Harr).
    assert (Hrem : 1 <= (i_bytes_left sub - 1) / data_size f + 1).
    { assert (0 <= (i_bytes_left sub - 1) / data_size f) by (apply Z.div_pos; [lia|rw (data_item f Hf Hst Harr); lia]). lia. }
    pose proof (grow_one n _ Hmax Hrem) as Hgrow. set (m := grow_allocation n _) in *.
    iApply (wp_substream c k with "S"); [done|]. iIntros "S".
    iApply (wp_grow with "S Sl O I"); [lia|done|]. iSplit.
    + iIntros "S Sl O I". iFrame "S". iIntros (sub1) "%Hlent1 S". wnext. cbn [fst snd]. iApply wp_ret. wnext.
      iApply wp_ret. iApply (packed_done with "S Sl O I"); done.
    + iIntros (q L') "(%Hq & %HL' & %Hw) S Sl O I". iFrame "S". iIntros (sub1) "%Hlent1 S". wnext. cbn [fst snd].
      iApply wp_ret. wnext.
      iApply (wp_packed_item c k i sub1 n q L'); [done|done|done|done|nia|nia| |iFrame].
      intros sub' L2 Hlent2 HL2. apply IH; [done|lia|unfold PB_SIZE_MAX in Hmax; lia|by rw HL2 HL'|by right].
  - destruct Hal as [Hal|[Hp Hw]]; [lia|]. iApply wp_ret. wnext.
    iApply (wp_packed_item c k i sub n p L); [done|done|done|done|nia|nia| |iFrame].
    intros sub' L2 Hlent2 HL2. apply IH; [done|lia|unfold PB_SIZE_MAX in Hmax; lia|by rw HL2|by right].
Qed.

Lemma wp_decode_pointer_packed c k : is_repeated f = true ->
  stream c k ∗ the_member f it ⊢
  wp (decode_pointer_packed e noinit_rec depth it) (fun _ => stream c k ∗ the_member f it).
Proof.
  iIntros (Hr) "[S M]". iDestruct (ptr_member_elim with "M") as "(%n & %p & %L & (%Hn & %Hn32 & _ & %HL) & Sl & O & I)".
  unfold decode_pointer_packed. wbind. iApply (wp_slots_count with "Sl"); [done|]. iIntros "_ Sl". wnext.
  wbind. iApply (wp_make with "S"). iSplit.
  { iIntros "S". iFrame "S". iApply (ptr_member_intro with "Sl O I"); [by rw Hr|done]. }
  iIntros (i sub) "%Hlent S". wnext. wbind.
  iApply (wp_use with "[S Sl O I]"); [apply (wp_packed_pointer c k Hr _ i sub n n p L Hlent); [lia|by apply Hn32|done|by left]|iFrame|].
  iIntros (o) "(%st & %i' & %sub' & %Ho & S & M)". destruct Ho as [-> Hlent']. wnext. cbn [fst snd].
  wbind. iApply (wp_close with "S"); [done|]. iIntros (r) "S". destruct r as [[]|]; wnext; [|iFrame].
  destruct st; [iApply wp_ret|iApply wp_fail]; iFrame.
Qed.
End Packed.

Section Single.
Hypothesis Hr : is_repeated f = false.

(** The field can take a new value: nothing hangs off the one it has. *)
Definition ready : iProp :=
  ∃ p L, ⌜(if p =? NULL then 0 else 1) * item_size f <= zlen L /\ (p = NULL \/ is_sub f = false)⌝ ∧
    slots_hold 0 p ∗ owned p L ∗ items 0 L.

Lemma slots_any n m p : slots_hold n p ⊢ slots_hold m p.
Proof. iIntros "(%ld & %ls & %H & B)". iExists ld, ls. rw Hr in H. rw Hr. by iSplit. Qed.

Lemma ready_member : ready ⊢ the_member f it.
Proof.
  iIntros "(%p & %L & [%HL %Hp] & Sl & O & I)". rw (slots_any 0 (if p =? NULL then 0 else 1)).
  iApply (ptr_member_intro with "Sl O [I]"); [done|done|].
  destruct (Z.eqb_spec p NULL) as [E|E]; [done|]. destruct Hp as [Hp|Hs]; [done|].
  by rw !(items_plain _ _ _ _ _ Hs (Harr Hr)).
Qed.

(** A submessage that is there already is released first. *)
Lemma wp_make_ready : the_member f it ⊢
  wp (if is_sub f then
        let! p := load_ptr (pData it) in
        if negb (p =? NULL) then pb_release_single_field depth e it else ret tt
      else ret tt) (fun o => ⌜o = Some tt⌝ ∧ ready).
Proof.
  iIntros "M". destruct (at_field_fields _ _ _ _ Hwf _ _ _ _ Hat) as [Hpos Hf].
  destruct (member_addr _ _ _ _ Hwf _ Ha _ _ _ Hat) as (_ & Epd & Eps & _ & _).
  iDestruct (ptr_member_elim with "M") as "(%n & %p & %L & (%Hn & _ & %Hn1 & %HL) & Sl & O & I)". specialize (Hn1 Hr).
  destruct (is_sub f) eqn:Es.
  - wbind. iApply (wp_slots_ptr with "Sl"). iIntros "Sl". wnext. destruct (Z.eqb_spec p NULL) as [->|Hp]; cbn [negb].
    + iApply wp_ret. iSplit; [done|]. iExists NULL, L. rw (slots_any n 0) Hn1.
      iSplit; [iPureIntro; split; [by rw -Hn1|by left]|]. iFrame "Sl O". iExact "I".
    + iDestruct (ptr_member_intro with "Sl O I") as "M"; [by rw (proj2 (Z.eqb_neq p NULL))|done|]. rw Eps Epd.
      iApply (wp_use with "M"); [by apply (wp_release_single e d _ fields size a)|].
      iIntros (o) "[-> (%ld & %ls & (%Hd & %Hs & %Hnul) & Bd & Bs)]". iSplit; [done|].
      unfold field_nul in Hnul. rw Hst Hr in Hnul. destruct Hnul as [Hnul _].
      iExists NULL, []. iSplit; [iPureIntro; split; [rw Z.eqb_refl zlen_nil; lia|by left]|]. iSplitL; [|iSplit; [iApply owned_null_nil|by rw items_own_0]].
      iExists ld, ls. rw Eps Epd Hr. iFrame. done.
  - iApply wp_ret. iSplit; [done|]. iExists p, L. rw Es. rw (slots_any n 0). iFrame "Sl O". iSplit.
    + iPureIntro. split; [by rw -Hn1|by right].
    + by rw !(items_plain _ _ _ _ _ Es (Harr Hr)).
Qed.

Lemma wp_new_value c k : stream c k ∗ ready ⊢
  wp (allocate_field e (pData it) (data_size f) 1 ;;!
      let! p := load_ptr (pData it) in
      initialize_pointer_field e depth p it ;;!
      call f p) (fun _ => stream c k ∗ the_member f it).
Proof.
  iIntros "[S (%p & %L & [%HL %Hp] & Sl & O & I)]".
  destruct (at_field_fields _ _ _ _ Hwf _ _ _ _ Hat) as [Hpos Hf]. pose proof (item_size_bounds _ _ _ Hf) as Hi.
  wbind. iApply (wp_grow with "S Sl O I"); [lia|pose proof (zlen_nonneg L); lia|]. iSplit.
  - iIntros "S Sl O I". iFrame "S". iApply ready_member. iExists p, L. iFrame. done.
  - iIntros (q L') "(%Hq & %HL' & %Hw) S Sl O I". wnext. wbind. iApply (wp_slots_ptr with "Sl"). iIntros "Sl". wnext.
    assert (Eq : item_addr q f 0 = q) by (unfold item_addr; rw Z.mul_0_r; apply Z.add_0_r).
    pose proof (wp_init_item it f Hpos Hf Hst Harr q 0 L' Hq ltac:(lia) ltac:(nia) ltac:(lia)) as Hinit.
    rw Eq in Hinit. wbind. iApply (wp_use with "[O I]"); [exact Hinit|iFrame|].
    iIntros (o) "[-> (%L2 & [%HL2 %Hnul] & O & I)]". wnext.
    pose proof (wp_call_item f Hf Hst Harr c k q 0 L2 Hq ltac:(lia) ltac:(nia) ltac:(lia) Hnul) as Hcall.
    rw Eq in Hcall. iApply (wp_use with "[S O I]"); [exact Hcall|iFrame|].
    iIntros (o) "[S (%L3 & %HL3 & O & I)]". iFrame "S". rw (slots_any 0 1).
    iApply (ptr_member_intro with "Sl O I"); [|nia]. intros _. by rw (proj2 (Z.eqb_neq q NULL)); [|unfold NULL; lia].
Qed.
End Single.
End Array.

(** A single string: the pointer is the value. *)
Lemma wp_pointer_blob c k : is_repeated f = false -> is_blob f = true ->
  stream c k ∗ the_member f it ⊢ wp (call f (pData it)) (fun _ => stream c k ∗ the_member f it).
Proof.
  iIntros (Hr Hb) "[S (%ld & %ls & [%Hd %Hs] & Bd & Bs & O)]".
  destruct (at_field_fields _ _ _ _ Hwf _ _ _ _ Hat) as [Hpos Hf].
  destruct (member_addr _ _ _ _ Hwf _ Ha _ _ _ Hat) as (Hpd & _).
  assert (Hsub : is_sub f = false) by (destruct (is_sub f) eqn:E; [by rw (sub_not_blob _ E) in Hb|done]).
  assert (Hi : item_size f = 8) by (unfold item_size; by rw Hst Hb).
  rw (span_pointer _ _ _ Hf Hst) in Hd.
  assert (Hown : forall l, field_own e (owns e d) f l ls ⊣⊢ item_own e (owns e d) f l).
  { intros l. unfold field_own, item_own. by rw Hst Hr Hb Hsub. }
  rw Hown. iApply (wp_use with "[S Bd O]").
  { apply (wp_call e d depth noinit_rec Hrec c k f (pData it) ld Hf Hpd). by rw Hi. }
  { iFrame. unfold item_in. by rw Hr. }
  iIntros (o) "[S (%l' & %Hl' & B & O)]". iFrame "S". iExists l', ls. rw (span_pointer _ _ _ Hf Hst) Hown.
  iFrame. iPureIntro. rw -Hi. done.
Qed.

Lemma wp_decode_pointer_single c k : is_repeated f = false ->
  stream c k ∗ the_member f it ⊢
  wp (decode_pointer_single e noinit_rec depth it) (fun _ => stream c k ∗ the_member f it).
Proof.
  iIntros (Hr) "[S M]". destruct (at_field_fields _ _ _ _ Hwf _ _ _ _ Hat) as [Hpos Hf].
  unfold decode_pointer_single. rw Hpos (not_oneof _ _ _ Hf). cbv zeta. fold (is_sub f) (is_blob f). wbind.
  destruct (is_blob f) eqn:Eb.
  - assert (is_sub f = false) as -> by (destruct (is_sub f) eqn:E; [by rw (sub_not_blob _ E) in Eb|done]).
    iApply wp_ret. wnext. wbind. iApply wp_ret. wnext. iApply (wp_pointer_blob c k Hr Eb). iFrame.
  - iApply (wp_use with "M"); [apply wp_make_ready; done|]. iIntros (o) "[-> R]". wnext.
    wbind. iApply wp_ret. wnext. iApply (wp_new_value (fun _ => Eb) Hr c k). iFrame.
Qed.

Lemma wp_decode_pointer wt c k :
  stream c k ∗ the_member f it ⊢
  wp (decode_pointer_field e noinit_rec depth wt it) (fun _ => stream c k ∗ the_member f it).
Proof.
  iIntros "P". destruct (at_field_fields _ _ _ _ Hwf _ _ _ _ Hat) as [Hpos Hf].
  unfold decode_pointer_field. rw Hpos (not_oneof _ _ _ Hf) (ltype_below _ _ _ Hf) orb_false_r. cbv zeta.
  fold (is_repeated f). wbind. iApply wp_ret. wnext. destruct (is_repeated f) eqn:Er.
  - assert (PB_HTYPE (ftype f) = PB_HTYPE_REPEATED) as -> by (by apply Z.eqb_eq). cbn [Z.eqb orb].
    destruct (_ && _) eqn:Ec.
    + apply andb_true_iff in Ec as [_ Hl%Z.leb_le].
      assert (Hplain : is_sub f = false /\ is_blob f = false).
      { unfold is_sub, is_blob, PB_LTYPE_SUBMESSAGE, PB_LTYPE_STRING, PB_LTYPE_BYTES, PB_LTYPE_LAST_PACKABLE in *.
        rw !(proj2 (Z.eqb_neq _ _)); [done|lia..]. }
      destruct Hplain as [Hsub Hb].
      iApply (wp_decode_pointer_packed (fun _ => Hb) Hsub Hb c k Er with "P").
    + by iApply (wp_decode_pointer_item ltac:(by rw Er) c k Er with "P").
  - assert (Hh : (PB_HTYPE (ftype f) =? PB_HTYPE_REQUIRED) || (PB_HTYPE (ftype f) =? PB_HTYPE_OPTIONAL) = true).
    { unfold is_repeated in Er. by destruct (htype_cases _ _ _ Hf) as [H|[H|H]]; rw H in Er; rw H. }
    rw Hh. by iApply (wp_decode_pointer_single c k Er with "P").
Qed.
End Pointer.

(** ** Any field *)

Lemma wp_decode_field wt c k it f off : at_field fields a it f off ->
  stream c k ∗ the_member f it ⊢
  wp (decode_field e noinit_rec depth wt it)
    (fun o => ⌜match o with Some it' => it' = it | None => True end⌝ ∧ stream c k ∗ the_member f it).
Proof.
  iIntros (Hat) "P". destruct (at_field_fields _ _ _ _ Hwf _ _ _ _ Hat) as [Hpos Hf].
  unfold decode_field. rw Hpos (not_oneof _ _ _ Hf). wbind. iApply wp_ret. wnext. rw Hpos. cbv zeta.
  rw (atype_pointer _ _ _ Hf). fold (is_static f). wbind.
  iApply (wp_wand _ (fun _ => (stream c k ∗ the_member f it)%I) with "[P]").
  - destruct (is_static f) eqn:Es; cbn [negb].
    + by iApply (wp_decode_static it f off Hat Es wt c k with "P").
    + by iApply (wp_decode_pointer it f off Hat Es wt c k with "P").
  - iIntros (o) "P". destruct o as [[]|]; wnext; [iApply wp_ret|]; by iSplit.
Qed.
End Fields.
