(* ===== verification/PbSafe.v ===== *)
(** * nanopb decoder: decoding any input is memory safe

    [pb_decode_noinit] keeps a message well formed on every input; [pb_decode] leaves a
    well-formed message when it succeeds and a message without blocks when it fails.
    The theorem says so of the memory itself. *)
From S2P Require Import Prelude Mem PbIstream PbOstream PbField PbDecode PbMessage PbLayout PbIter PbTotal PbTerminate PbReaders PbEncodeSpec PbRoundtrip PbSchema HeapLogic PbOwn PbSafeRelease PbSafeValues PbSafeFields.
From stdpp Require Import fin_maps.
From iris.bi Require Import bi.
From iris.proofmode Require Import proofmode.

#[local] Open Scope Z_scope.

(** ** The loop over the tags *)

Section Message.
Context (e : env) (d : nat) (fields : list pb_field) (size : Z).
Hypothesis Hwf : struct_wf e d fields size.
Variable a : Z.
Hypothesis Ha : 0 < a.
Variables (depth : nat) (noinit_rec : list pb_field -> Z -> M dstate unit).
Hypothesis Hrec : forall fs sz c k b, schema_ok e d fs sz = true -> 0 < b ->
  stream c k ∗ msg e d fs sz b ⊢ wp (noinit_rec fs b) (fun _ => stream c k ∗ msg e d fs sz b).
Variables (c : icallback) (k : Z).

Abbreviation message := (msg e (S d) fields size a).

Definition loop_ok (v : noinit_vars) : Prop :=
  (exists f off, at_field fields a (v_iter v) f off) /\ v_fixed v = None.

Lemma a_not_null : a <> NULL.
Proof. unfold NULL. lia. Qed.

(** A tag of no field is skipped: there are no extensions. *)
Lemma wp_unknown t wt v it : 0 <= t < 2 ^ 29 -> v_fixed v = None -> (exists f off, at_field fields a it f off) ->
  stream c k ⊢ wp (decode_unknown e noinit_rec depth t wt v it)
    (fun o => ⌜match o with Some v' => loop_ok v' | None => True end⌝ ∧ stream c k).
Proof.
  iIntros (Ht Hv Hat) "S". unfold decode_unknown. cbv zeta.
  assert (Hskip : forall it' start, (exists f off, at_field fields a it' f off) -> stream c k ⊢
    wp (lift (pb_skip_field wt) ;;! ret (Vars it' (v_seen v) start (v_fixed v)))
      (fun o => ⌜match o with Some v' => loop_ok v' | None => True end⌝ ∧ stream c k)).
  { iIntros (it' start Hat') "S". wbind. iApply (wp_reads c k _ (fun _ => True) with "S").
    - intros i. eapply reads_mono; [apply reads_skip_field|done].
    - iIntros ([u|]) "% S"; wnext; [iApply wp_ret|]; iSplit; done. }
  destruct (v_ext_start v <=? t); [|by iApply Hskip].
  destruct (find_extension_field it) as [[found it']|] eqn:Ef; [|iStopProof; apply wp_nofuel].
  destruct Hat as (f & off & Hat). unfold find_extension_field in Ef.
  destruct (at_field_find _ _ _ _ Hwf a _ _ _ a_not_null _ _ _ _ _ Hat Ef) as (f' & off' & Hat' & Hfound).
  destruct found.
  - specialize (Hfound eq_refl). destruct (at_field_fields _ _ _ _ Hwf _ _ _ _ Hat') as [_ Hf'].
    by rw (not_extension _ _ _ Hf') in Hfound.
  - rw (proj2 (Z.leb_gt (2 ^ 32 - 1) t)).
    + iApply (Hskip it' with "S"). by exists f', off'.
    + change (2 ^ 29) with 536870912 in Ht. change (2 ^ 32) with 4294967296. lia.
Qed.

Lemma wp_tagged wt t v : 0 <= t < 2 ^ 29 -> loop_ok v ->
  stream c k ∗ message ⊢ wp (decode_tagged e noinit_rec depth wt t v)
    (fun o => ⌜match o with Some v' => loop_ok v' | None => True end⌝ ∧ stream c k ∗ message).
Proof.
  iIntros (Ht [(f & off & Hat) Hv]) "[S M]". unfold decode_tagged.
  destruct (pb_field_iter_find (v_iter v) t) as [[found it]|] eqn:Ef; [|iStopProof; apply wp_nofuel].
  unfold pb_field_iter_find in Ef.
  destruct (at_field_find _ _ _ _ Hwf a _ _ _ a_not_null _ _ _ _ _ Hat Ef) as (f' & off' & Hat' & _).
  destruct found.
  - destruct (at_field_fields _ _ _ _ Hwf _ _ _ _ Hat') as [Hpos Hf'].
    destruct (member_addr _ _ _ _ Hwf _ Ha _ _ _ Hat') as (_ & Epd & Eps & _ & Heq).
    unfold enter_fixed_count. rw Hpos Heq. fold (is_repeated f').
    assert (Hc : is_repeated f' && (size_offset f' =? 0) = false).
    { destruct (is_repeated f') eqn:Er; [|done]. by apply Z.eqb_neq, (wf_counter _ _ _ Hf'). }
    rw Hc. wbind. iApply wp_ret. wnext. wbind.
    destruct Hat' as (Hs & Hp & Hrest). iDestruct (msg_member _ _ _ _ Hwf a _ _ _ Hp with "M") as "[M W]".
    rw -Eps -Epd.
    iApply (wp_use with "[S M]");
      [apply (wp_decode_field e d fields size Hwf a Ha depth noinit_rec Hrec wt c k it f' off' (conj Hs (conj Hp Hrest)))|iFrame|].
    iIntros (o) "(%Ho & S & M)". iSpecialize ("W" with "M"). destruct o as [it'|]; wnext.
    + subst it'. iApply wp_ret. iFrame. iPureIntro. split; [|done]. split; [|done]. by exists f', off'.
    + by iFrame.
  - iApply (wp_use with "S"); [apply wp_unknown; [done|done|by exists f', off']|].
    iIntros (o) "[%Ho S]". by iFrame.
Qed.

Lemma wp_noinit_loop fuel : forall v, loop_ok v ->
  stream c k ∗ message ⊢ wp (noinit_loop e noinit_rec depth fuel v)
    (fun o => ⌜match o with Some v' => loop_ok v' | None => True end⌝ ∧ stream c k ∗ message).
Proof.
  induction fuel as [|fuel IH]; intros v Hv; [apply wp_nofuel|]. iIntros "[S M]". cbn [noinit_loop].
  wbind. iApply (wp_bytes_left with "S"). iIntros (avail) "S". wnext.
  destruct (avail =? 0); [iApply wp_ret; by iFrame|]. wbind.
  iApply (wp_reads c k _ (fun r => match r.1 with Some p => 0 <= p.2 < 2 ^ 29 | None => True end) with "S").
  { intros i. apply reads_tag. }
  iIntros (o) "%Ho S". destruct o as [[[[wt t]|] eof]|]; wnext.
  - cbn in Ho. wbind. iApply (wp_use with "[S M]"); [by apply (wp_tagged wt t v)|iFrame|].
    iIntros (o) "(%Hv' & S & M)". destruct o as [v'|]; wnext; [|by iFrame].
    iApply IH; [done|iFrame].
  - destruct eof; [iApply wp_ret|iApply wp_fail]; by iFrame.
  - by iFrame.
Qed.

Lemma wp_noinit_body : stream c k ∗ message ⊢
  wp (noinit_body e noinit_rec depth fields a) (fun _ => stream c k ∗ message).
Proof.
  iIntros "[S M]". unfold noinit_body. cbv zeta.
  destruct (at_field_begin _ _ _ _ Hwf a a_not_null) as (it & f & off & -> & Hat & _). cbn [snd].
  wbind. iApply (wp_bytes_left with "S"). iIntros (avail) "S". wnext. wbind.
  iApply (wp_use with "[S M]"); [apply wp_noinit_loop; split; [by exists f, off|done]|iFrame|].
  iIntros (o) "(%Hv & S & M)". destruct o as [v|]; wnext; [|iFrame]. destruct Hv as [_ Hfix].
  unfold check_fixed_count, check_required. rw Hfix. wbind. iApply wp_ret. wnext.
  destruct (req_field_count (v_iter v)); [|iStopProof; apply wp_nofuel].
  destruct (all_seen _ _); [iApply wp_ret; iFrame|]. iApply (wp_error with "S"). iIntros "S". iFrame.
Qed.
End Message.

Lemma wp_noinit e depth : forall d fuel fields size c k a, schema_ok e d fields size = true -> 0 < a ->
  stream c k ∗ msg e d fields size a ⊢
  wp (pb_decode_noinit fuel depth e fields a) (fun _ => stream c k ∗ msg e d fields size a).
Proof.
  induction d as [|d IH]; intros fuel fields size c k a Hok Ha; [done|].
  destruct fuel as [|fuel]; [apply wp_nofuel|]. cbn [pb_decode_noinit].
  iIntros "P". iApply wp_with_local.
  iApply (wp_noinit_body e d fields size (schema_wf _ _ _ _ Hok) a Ha depth _ (fun fs sz c k b => IH fuel fs sz c k b) with "P").
Qed.

Lemma wp_decode e d fuel depth fields size c k a : schema_ok e d fields size = true -> 0 < a ->
  stream c k ∗ raw size a ⊢ wp (pb_decode fuel depth e fields a)
    (fun o => (stream c k ∗ match o with Some _ => msg e d fields size a | None => nmsg e d fields size a end)%I).
Proof.
  intros Hok Ha. apply wp_decode_with; [|done|done]. intros fs sz c' k' b Hfs Hb. by apply wp_noinit.
Qed.

(** ** From the assertions to the memory *)

(** All the cells of a state. *)
Definition heap_of (s : dstate) : heap :=
  {[KStream := VStream (ds_in s)]} ∪
  (kmap KByte (VZ <$> m_bytes (ds_mem s)) ∪ kmap KBlock (VZ <$> m_blocks (ds_mem s))).

#[local] Instance KBlock_inj : Inj (=) (=) KBlock.
Proof. by intros p q [= ->]. Qed.

Lemma heap_of_agrees s : agrees s (heap_of s).
Proof.
  intros k. unfold heap_of. rw !lookup_union. destruct k as [b|p|].
  - rw lookup_singleton_ne // left_id_L lookup_kmap lookup_fmap.
    rw (proj2 (lookup_kmap_None KBlock _ (KByte b))); [|by intros q [=]].
    cbn. by destruct (m_bytes _ !! b).
  - rw lookup_singleton_ne // left_id_L. rw (proj2 (lookup_kmap_None KByte _ (KBlock p))); [|by intros q [=]].
    by rw left_id_L lookup_kmap lookup_fmap.
  - rw lookup_singleton_eq. by destruct (kmap KByte _ !! _), (kmap KBlock _ !! _).
Qed.

(** The cells of a decoding: the stream and the struct. *)
Definition start_heap (i : istream) (dest : Z) (l : list Z) : heap := {[KStream := VStream i]} ∪ bheap dest l.

Lemma start_disjoint i dest l : {[KStream := VStream i]} ##ₘ bheap dest l.
Proof. apply map_disjoint_singleton_l_2. by apply lookup_bheap_other. Qed.

Lemma start_subset s dest l :
  (forall i b, l !! i = Some b -> m_bytes (ds_mem s) !! (dest + Z.of_nat i) = Some b) ->
  start_heap (ds_in s) dest l ⊆ heap_of s.
Proof.
  intros Hl. apply map_subseteq_spec. intros k v. unfold start_heap. rw (heap_of_agrees s k) lookup_union.
  destruct k as [b|p|]; cbn.
  - rw lookup_singleton_ne // left_id_L lookup_bheap. destruct (decide (dest <= b)) as [Hb|]; [|done].
    intros (x & Hx & ->)%fmap_Some. specialize (Hl _ _ Hx). by replace (dest + Z.to_nat (b - dest)) with b in Hl by lia; rw Hl.
  - rw lookup_singleton_ne // lookup_bheap_other //.
  - rw lookup_singleton_eq. by destruct (bheap _ _ !! _).
Qed.

(** Outside the struct at [dest] nothing is different. *)
Definition untouched (dest size : Z) (s s' : dstate) : Prop :=
  (forall b, b < dest \/ dest + size <= b -> m_bytes (ds_mem s') !! b = m_bytes (ds_mem s) !! b) /\
  m_blocks (ds_mem s') = m_blocks (ds_mem s).
(** What was there is as it was; there can be new blocks. *)
Definition preserved (dest size : Z) (s s' : dstate) : Prop :=
  (forall b x, b < dest \/ dest + size <= b -> m_bytes (ds_mem s) !! b = Some x -> m_bytes (ds_mem s') !! b = Some x) /\
  m_blocks (ds_mem s) ⊆ m_blocks (ds_mem s').

Section Frame.
Context (s : dstate) (dest size : Z) (l : list Z) (z : heap).
Hypothesis Hsize : zlen l = size.
Hypothesis Hd : start_heap (ds_in s) dest l ##ₘ z.
Hypothesis Hs : agrees s (start_heap (ds_in s) dest l ∪ z).

Lemma start_outside i k l' : zlen l' = size -> match k with
    | KByte b => b < dest \/ dest + size <= b | KBlock _ => True | KStream => False end ->
  start_heap i dest l' !! k = None.
Proof.
  intros Hl' Hk. unfold start_heap. rw lookup_union. destruct k as [b|p|]; [| |done].
  - rw lookup_singleton_ne // left_id_L lookup_bheap. destruct (decide (dest <= b)); [|done].
    rw lookup_ge_None_2 //. unfold zlen in Hl'. lia.
  - rw lookup_singleton_ne // lookup_bheap_other //.
Qed.

Lemma frame_cell k : match k with
    | KByte b => b < dest \/ dest + size <= b | KBlock _ => True | KStream => False end ->
  z !! k = cell_of s k.
Proof.
  intros Hk. rw -(Hs k) lookup_union. rw (start_outside (ds_in s) k l Hsize Hk). by rw left_id_L.
Qed.

Lemma frame_untouched s' l' i : zlen l' = size -> agrees s' (start_heap i dest l' ∪ z) -> untouched dest size s s'.
Proof.
  intros Hl' Hs'. assert (Hk : forall k, match k with
    | KByte b => b < dest \/ dest + size <= b | KBlock _ => True | KStream => False end -> cell_of s' k = cell_of s k).
  { intros k Hk. rw -(Hs' k) lookup_union. rw (start_outside i k l' Hl' Hk) left_id_L. by apply frame_cell. }
  split.
  - intros b Hb. specialize (Hk (KByte b) Hb). cbn in Hk.
    destruct (m_bytes (ds_mem s') !! b), (m_bytes (ds_mem s) !! b); cbn in Hk; congruence.
  - apply map_eq. intros p. specialize (Hk (KBlock p) I). cbn in Hk.
    destruct (m_blocks (ds_mem s') !! p), (m_blocks (ds_mem s) !! p); cbn in Hk; congruence.
Qed.

Lemma frame_preserved s' x : x ##ₘ z -> agrees s' (x ∪ z) -> preserved dest size s s'.
Proof.
  intros Hx Hs'. assert (Hk : forall k v, match k with
    | KByte b => b < dest \/ dest + size <= b | KBlock _ => True | KStream => False end ->
    cell_of s k = Some v -> cell_of s' k = Some v).
  { intros k v Hk Hv. rw -(frame_cell k Hk) in Hv. rw -(Hs' k). by apply lookup_union_Some_r. }
  split.
  - intros b y Hb Hy. specialize (Hk (KByte b) (VZ y) Hb). cbn in Hk. rw Hy in Hk. specialize (Hk eq_refl).
    destruct (m_bytes (ds_mem s') !! b); cbn in Hk; congruence.
  - apply map_subseteq_spec. intros p n Hn. specialize (Hk (KBlock p) (VZ n) I). cbn in Hk. rw Hn in Hk. specialize (Hk eq_refl).
    destruct (m_blocks (ds_mem s') !! p); cbn in Hk; congruence.
Qed.
End Frame.

Lemma schema_nests e d : forall fields size, schema_ok e (S d) fields size = true -> nests e d fields.
Proof.
  assert (H : forall (sub : list pb_field -> Prop) d fields size,
    (forall fs sz, schema_ok e d fs sz = true -> sub fs) -> struct_wf e d fields size ->
    Forall (fun f => tag f <> 0 /\ field_fits e sub f) fields).
  { intros sub d' fields size Hsub Hwf. eapply Forall_impl; [exact (sw_fields _ _ _ _ Hwf)|].
    intros f Hf. split; [by apply (wf_tag _ _ _ Hf)|]. split; [by apply Z.eqb_neq, (not_extension _ _ _ Hf)|].
    intros fs Hfs. destruct (is_sub f) eqn:Es.
    - destruct (wf_sub _ _ _ Hf Es) as (fs' & Hfs' & Hok). assert (fs' = fs) as -> by congruence. by eapply Hsub.
    - pose proof (wf_default _ _ _ Hf Es) as Hd. by destruct (ptr f). }
  induction d as [|d IH]; intros fields size Hok; apply schema_wf in Hok; cbn [nests].
  - by apply (H _ 0%nat fields size).
  - apply (H _ (S d) fields size); [|done]. intros fs sz. apply IH.
Qed.

Section Safety.
Context (e : env) (d fuel depth : nat) (fields : list pb_field) (size dest : Z).
Hypothesis Hok : schema_ok e (S d) fields size = true.
Hypothesis Hdest : 0 < dest.

(** A run of [f] on the stream and the struct, from a state that has them. *)
Lemma run_on_struct {A} (f : M dstate A) Ψ s :
  (forall b, dest <= b < dest + size -> is_Some (m_bytes (ds_mem s) !! b)) ->
  heap_ok (ds_mem s) -> stream_safe 0 (ds_in s) -> 0 <= size ->
  (stream (i_callback (ds_in s)) 0 ∗ raw size dest ⊢ wp f Ψ) ->
  exists l z, zlen l = size /\ start_heap (ds_in s) dest l ##ₘ z /\ agrees s (start_heap (ds_in s) dest l ∪ z) /\
    match f s with
    | Ret a s' => after_run z Ψ (Some a) s'
    | Fail s' => after_run z Ψ None s'
    | Ub => False
    | NoFuel => True
    end.
Proof.
  intros Hmap Hm Hs Hsize Hf.
  set (l := map (fun i => default 0 (m_bytes (ds_mem s) !! (dest + Z.of_nat i))) (seq 0 (Z.to_nat size))).
  assert (Hl : zlen l = size) by (unfold l, zlen; rw length_map length_seq; lia).
  assert (Hlk : forall i b, l !! i = Some b -> m_bytes (ds_mem s) !! (dest + Z.of_nat i) = Some b).
  { intros i b Hi. unfold l in Hi. apply list_lookup_fmap_Some in Hi as (j & -> & [-> Hj]%lookup_seq).
    destruct (Hmap (dest + Z.of_nat i)) as [x Hx]; [lia|]. cbn in Hx |- *. by rw Hx. }
  pose proof (start_subset s dest l Hlk) as Hsub. set (x := start_heap (ds_in s) dest l) in *.
  exists l, (heap_of s ∖ x). assert (Hd : x ##ₘ heap_of s ∖ x) by (by apply map_disjoint_difference_r1).
  assert (Ha : agrees s (x ∪ heap_of s ∖ x)) by (rw map_difference_union //; apply heap_of_agrees).
  split; [done|]. split; [done|]. split; [done|].
  refine (hentails_at _ _ _ _ Hf x _ s _ Hd Hm Ha).
  exists {[KStream := VStream (ds_in s)]}, (bheap dest l). split_and!; [done|apply start_disjoint| |].
  - exists (ds_in s). split; [done|done].
  - by exists l.
Qed.

(** A release after a decoding that has left the message [x]. *)
Lemma run_release s s' l z x :
  zlen l = size -> start_heap (ds_in s) dest l ##ₘ z -> agrees s (start_heap (ds_in s) dest l ∪ z) ->
  x ##ₘ z -> heap_ok (ds_mem s') -> agrees s' (x ∪ z) ->
  holds_at _ _ (stream (i_callback (ds_in s)) 0 ∗ msg e (S d) fields size dest)%I x ->
  stream_ok (ds_in s') -> (d < depth)%nat ->
  match pb_release depth e fields dest s' with
  | Ret _ s2 => untouched dest size s s2
  | _ => False
  end.
Proof.
  intros Hl Hd Ha Hx Hm Ha' (x1 & x2 & -> & Hd12 & (i & _ & ->) & Hmsg) Hin Hdep.
  pose proof (total_release e d depth fields dest s' Hdep (schema_nests _ _ _ _ Hok) Hin) as Ht.
  apply map_disjoint_union_l in Hx as [Hx1 Hx2].
  rw (map_union_comm {[KStream := VStream i]}) // -assoc_L in Ha'.
  pose proof (hentails_at _ _ _ _ (wp_release e (S d) depth fields size dest Hok Hdest) x2 Hmsg s'
    ({[KStream := VStream i]} ∪ z)) as Hr.
  specialize (Hr ltac:(by apply map_disjoint_union_r) Hm Ha'). unfold pb_release in *.
  destruct (pb_release_step _ _ _ s') as [[] s2|s2| |]; [|by destruct Hr as (x' & _ & _ & _ & ? & _)|done|done].
  destruct Hr as (x' & Hd' & Hm' & Ha2 & _ & l' & [Hl' _] & ->).
  apply map_disjoint_union_r in Hd' as [Hd1 Hd2].
  apply (frame_untouched s dest size l z Hl Ha s2 l' i Hl').
  by rw /start_heap (map_union_comm {[KStream := VStream i]}) // -assoc_L.
Qed.

(** C1: decoding a message of the class below is memory safe.  The class is the message
    structs whose descriptors pass the test [schema_ok] (static and pointer fields of
    every scalar, string and bytes type, repeated ones with a counter, submessages nested
    to any depth [d]; no extensions, callback fields, unions, fixed-count arrays or static
    arrays of messages, some of which the examples at the end of this file show to be
    unsafe).  The struct is in mapped memory, the heap spans less than 4 GiB of addresses
    ([heap_ok]) and the stream's callback, if it has one, gives the bytes it is asked for.
    Then [pb_decode] on every input, well formed or not, from a buffer or a user stream,
    with any pattern of allocation failures, never reads or writes outside the struct, the blocks it allocated and the bytes of
    the stream, and it terminates.  When it fails, every block it allocated has been
    freed, and nothing outside the struct is different; when it succeeds, everything
    that was there before is as it was, and [pb_release] on the message is safe and
    gives back the memory as it was before the decoding: no leak, no double free. *)
Theorem decode_memory_safe s :
  callbacks_progress e -> (d < fuel)%nat -> (d < depth)%nat ->
  (forall b, dest <= b < dest + size -> is_Some (m_bytes (ds_mem s) !! b)) ->
  heap_ok (ds_mem s) -> stream_safe 0 (ds_in s) ->
  match pb_decode fuel depth e fields dest s with
  | Ret _ s' => preserved dest size s s' /\
      match pb_release depth e fields dest s' with
      | Ret _ s2 => untouched dest size s s2
      | _ => False
      end
  | Fail s' => untouched dest size s s'
  | Ub | NoFuel => False
  end.
Proof.
  intros Hcb Hfuel Hdep Hmap Hm Hs.
  pose proof (total_decode e d fuel depth fields dest s Hcb (schema_nests _ _ _ _ Hok) Hfuel Hdep (proj1 Hs)) as Ht.
  assert (Hsize : 0 <= size).
  { pose proof (schema_wf _ _ _ _ Hok) as Hwf. destruct (at_field_begin _ _ _ _ Hwf 1 ltac:(done)) as (it & f & off & _ & (_ & Hp & _) & _).
    destruct (member_slots _ _ _ _ Hwf _ _ Hp) as ((H1 & H2 & H3) & _). lia. }
  destruct (run_on_struct _ _ s Hmap Hm Hs Hsize
    (wp_decode e (S d) fuel depth fields size (i_callback (ds_in s)) 0 dest Hok Hdest)) as (l & z & Hl & Hd & Ha & Hrun).
  destruct (pb_decode fuel depth e fields dest s) as [[] s'|s'| |]; try done.
  - destruct Hrun as (x & Hx & Hm' & Ha' & HΦ). split; [by apply (frame_preserved s dest size l z Hl Ha s' x)|].
    apply (run_release s s' l z x); try done. apply Ht.
  - destruct Hrun as (x & Hx & Hm' & Ha' & x1 & x2 & -> & Hd12 & (i & _ & ->) & l' & [Hl' _] & ->).
    exact (frame_untouched s dest size l z Hl Ha s' l' i Hl' Ha').
Qed.
End Safety.

(** ** Witness: log requests of cct.nanopb.c *)

(** [heap_ok] as a test. *)
Definition heap_okb (m : mem) : bool :=
  (0 <? m_next m) && (m_limit m <=? 2 ^ 64) && (m_limit m - m_next m <? 2 ^ 32) &&
  bool_decide (map_Forall (fun b (_ : Z) => b < m_next m) (m_bytes m)) &&
  bool_decide (map_Forall (fun p (_ : Z) => p < m_next m) (m_blocks m)).

Lemma heap_okb_sound m : heap_okb m = true -> heap_ok m.
Proof.
  unfold heap_okb. rw !andb_true_iff !Z.ltb_lt Z.leb_le !bool_decide_eq_true.
  intros ((((H1 & H2) & H3) & H4) & H5). split; try done; intros p Hp; apply eq_None_not_Some; intros [x Hx].
  - specialize (H4 p x Hx). cbn in H4. lia.
  - specialize (H5 p x Hx). cbn in H5. lia.
Qed.

(** [bs] to read, and a [LogRequest] with indeterminate contents at 4096. *)
Definition request_state (bs : list Z) : dstate :=
  Dstate (pb_istream_from_buffer bs (zlen bs)) (blocks_mem [(4096, replicate 184 0xA5)]) 0.
Definition decode_request (bs : list Z) : out dstate unit :=
  pb_decode 4 4 cct_env gdt_cct_LogRequest_fields 4096 (request_state bs).

Definition two_events : list Z := [0x1A; 20] ++ event_bytes ++ [0x1A; 20] ++ event_bytes.
(** The second event ends too early. *)
Definition cut_events : list Z := take 43 two_events.

Lemma request_struct b bs : 4096 <= b < 4096 + 184 -> is_Some (m_bytes (ds_mem (request_state bs)) !! b).
Proof.
  intros Hb. assert (H : forallb (fun i => bool_decide (is_Some (m_bytes (ds_mem (request_state bs)) !! (4096 + Z.of_nat i))))
    (seq 0 184) = true) by (vm_compute; reflexivity).
  rw forallb_forall in H. specialize (H (Z.to_nat (b - 4096))). rw bool_decide_eq_true in H.
  replace (4096 + Z.of_nat (Z.to_nat (b - 4096))) with b in H by lia. apply H. apply in_seq. lia.
Qed.

Lemma two_events_bytes : bytes_ok two_events.
Proof.
  apply List.Forall_forall. intros b Hb.
  assert (H : forallb (fun b => (0 <=? b) && (b <? 256)) two_events = true) by (vm_compute; reflexivity).
  rw forallb_forall in H. specialize (H b Hb). unfold is_byte. lia.
Qed.

Lemma decode_memory_safe_witness :
  match pb_decode 4 4 cct_env gdt_cct_LogRequest_fields 4096 (request_state two_events) with
  | Ret _ s' => preserved 4096 184 (request_state two_events) s' /\
      match pb_release 4 cct_env gdt_cct_LogRequest_fields 4096 s' with
      | Ret _ s2 => untouched 4096 184 (request_state two_events) s2
      | _ => False
      end
  | Fail s' => untouched 4096 184 (request_state two_events) s'
  | Ub | NoFuel => False
  end.
Proof.
  apply (decode_memory_safe cct_env 2 4 4 gdt_cct_LogRequest_fields 184 4096).
  - vm_compute. reflexivity.
  - done.
  - exact cct_progress.
  - lia.
  - lia.
  - intros b Hb. by apply request_struct.
  - apply heap_okb_sound. vm_compute. reflexivity.
  - split; [split; [done|exact two_events_bytes]|done].
Defined.

(** The array of events and their two extensions; nothing after a failure. *)
Example two_events_blocks :
  match decode_request two_events with
  | Ret _ s => map_to_list (m_blocks (ds_mem s)) = [(65631, 176); (65807, 7); (65624, 7)]
  | _ => False
  end.
Proof. vm_compute. reflexivity. Qed.
Example cut_events_blocks :
  match decode_request cut_events with
  | Fail s => map_to_list (m_blocks (ds_mem s)) = [] /\ i_errmsg (ds_in s) = Some "parent stream too short"%string
  | _ => False
  end.
Proof. vm_compute. done. Qed.

(** ** What the test keeps out *)

(** A fixed-count array of two bytes: its default stores a four-byte counter over it. *)
Definition fixed_pair : list pb_field :=
  [PbField 1 (PB_LTYPE_UVARINT + PB_HTYPE_REPEATED) 0 0 1 2 ptr_null].
Example fixed_count_default_overruns :
  match pb_message_set_to_defaults 1 cct_env fixed_pair 4096
    (Dstate (pb_istream_from_buffer [] 0) (blocks_mem [(4096, [1; 2; 3; 4])]) 0) with
  | Ret _ s => load_bytes (ds_mem s) 4096 4 = Some [0; 0; 0; 0]
  | _ => False
  end.
Proof. vm_compute. reflexivity. Qed.

(** A static array of messages with a string each: the counter is incremented before the
    item is initialised, so that a length that is too long makes the failing decoder
    release an item of indeterminate contents. *)
Definition items_env : env :=
  Env (fun _ => [PbField 1 (PB_LTYPE_STRING + PB_ATYPE_POINTER) 0 0 1 0 ptr_null])
    (fun _ => None) (fun _ => None) (fun _ => None) 0.
Definition static_items : list pb_field :=
  [PbField 1 (PB_LTYPE_SUBMESSAGE + PB_HTYPE_REPEATED) 8 (-8) 8 2 (ptr_submsg 0)].
Example static_items_free_garbage :
  pb_decode 3 3 items_env static_items 4096
    (Dstate (pb_istream_from_buffer [0x0A; 0x7F] 2) (blocks_mem [(4096, replicate 24 0xA5)]) 0) = Ub.
Proof. vm_compute. reflexivity. Qed.
