(* ===== verification/Cbs.v ===== *)
(** * BoringSSL byte strings: the CBS parser (crypto/bytestring/cbs.c)

    A [CBS] is a pointer and a length; the model is the list of the bytes it
    still covers, so that a parser is a state transformer on that list.  [Fail]
    is the return of 0, with the bytes the function has consumed by then gone,
    as in the code. *)
From S2P Require Import Prelude.

Definition CBS : Type := list Z.

Definition cbs_get (n : Z) : M CBS (list Z) := fun cbs =>
  if zlen cbs <? n then Fail cbs else Ret (ztake n cbs) (zdrop n cbs).

Definition CBS_skip (len : Z) : M CBS unit := cbs_get len ;;! ret tt.

Definition CBS_contains_zero_byte (cbs : CBS) : bool := existsb (Z.eqb 0) cbs.

Definition CBS_mem_equal (cbs data : list Z) : bool :=
  if negb (zlen data =? zlen cbs) then false
  else forallb (fun p => p.1 =? p.2) (combine cbs data).

(** [result <<= 8; result |= data[i];] *)
Definition be_step (result b : Z) : Z := Z.lor (u64 (Z.shiftl result 8)) b.

Definition cbs_get_u (len : Z) : M CBS Z :=
  let! data := cbs_get len in ret (foldl be_step 0 data).

Definition CBS_get_u8 : M CBS Z :=
  let! v := cbs_get 1 in of_opt (head v).
Definition CBS_get_u16 : M CBS Z := let! v := cbs_get_u 2 in ret (u16 v).
Definition CBS_get_u24 : M CBS Z := let! v := cbs_get_u 3 in ret (u32 v).
Definition CBS_get_u32 : M CBS Z := let! v := cbs_get_u 4 in ret (u32 v).
Definition CBS_get_u64 : M CBS Z := cbs_get_u 8.

(** [CRYPTO_bswap2/4/8]: the bytes of an [n]-byte word in the other order. *)
Definition bswap (n : nat) (v : Z) : Z := le_value (rev (le_bytes n v)).

Definition CBS_get_u16le : M CBS Z := let! v := CBS_get_u16 in ret (bswap 2 v).
Definition CBS_get_u32le : M CBS Z := let! v := CBS_get_u32 in ret (bswap 4 v).
Definition CBS_get_u64le : M CBS Z := let! v := cbs_get_u 8 in ret (bswap 8 v).

Definition CBS_get_last_u8 : M CBS Z := fun cbs =>
  if zlen cbs =? 0 then Fail cbs
  else match last cbs with
       | Some b => Ret b (ztake (zlen cbs - 1) cbs)
       | None => Ub
       end.

Definition CBS_get_bytes (len : Z) : M CBS CBS := cbs_get len.
Definition CBS_copy_bytes (len : Z) : M CBS (list Z) := cbs_get len.

Definition cbs_get_length_prefixed (len_len : Z) : M CBS CBS :=
  let! len := cbs_get_u len_len in CBS_get_bytes len.
Definition CBS_get_u8_length_prefixed : M CBS CBS := cbs_get_length_prefixed 1.
Definition CBS_get_u16_length_prefixed : M CBS CBS := cbs_get_length_prefixed 2.
Definition CBS_get_u24_length_prefixed : M CBS CBS := cbs_get_length_prefixed 3.

(** [memchr]: the offset of the first [c]. *)
Fixpoint memchr (l : list Z) (c : Z) : option Z :=
  match l with
  | [] => None
  | b :: r => if b =? c then Some 0
              else match memchr r c with Some i => Some (i + 1) | None => None end
  end.

Definition CBS_get_until_first (c : Z) : M CBS CBS :=
  let! cbs := getm in
  match memchr cbs c with
  | None => failm
  | Some split => CBS_get_bytes split
  end.

(** The [do .. while] loop of [parse_base128_integer]. *)
Fixpoint base128_loop (fuel : nat) (v : Z) : M CBS Z :=
  match fuel with
  | O => nofuelm
  | S k =>
      let! b := CBS_get_u8 in
      if negb (Z.shiftr v (64 - 7) =? 0) then failm
      else if (v =? 0) && (b =? 0x80) then failm
      else
        let v' := Z.lor (u64 (Z.shiftl v 7)) (Z.land b 0x7f) in
        if negb (Z.land b 0x80 =? 0) then base128_loop k v' else ret v'
  end.

Definition parse_base128_integer : M CBS Z := fun cbs =>
  base128_loop (S (length cbs)) 0 cbs.

Definition CBS_ASN1_TAG_SHIFT : Z := 24.
Definition CBS_ASN1_CONSTRUCTED : Z := Z.shiftl 0x20 CBS_ASN1_TAG_SHIFT.
Definition CBS_ASN1_TAG_NUMBER_MASK : Z := Z.shiftl 1 (5 + CBS_ASN1_TAG_SHIFT) - 1.
Definition CBS_ASN1_BOOLEAN : Z := 0x1.
Definition CBS_ASN1_INTEGER : Z := 0x2.
Definition CBS_ASN1_OCTETSTRING : Z := 0x4.
Definition CBS_ASN1_SEQUENCE : Z := Z.lor 0x10 CBS_ASN1_CONSTRUCTED.

Definition parse_asn1_tag : M CBS Z :=
  let! tag_byte := CBS_get_u8 in
  let tag := u32 (Z.shiftl (Z.land tag_byte 0xe0) CBS_ASN1_TAG_SHIFT) in
  let! tag_number :=
    (let low := Z.land tag_byte 0x1f in
     if low =? 0x1f then
       let! v := parse_base128_integer in
       if (CBS_ASN1_TAG_NUMBER_MASK <? v) || (v <? 0x1f) then failm else ret (u32 v)
     else ret low) in
  ret (Z.lor tag tag_number).

(** What [cbs_get_any_asn1_element] writes through its pointers. *)
Record element : Type := Element {
  el_out : CBS; el_tag : Z; el_header_len : Z; el_ber_found : bool }.

(** The long form of the length, after its first byte: [Some (len, ber_found)] or
    [None] for a return of 0.  [len64] has [num_bytes] bytes. *)
Definition long_length (ber_ok : bool) (len64 num_bytes header_len : Z)
    : option (Z * bool) :=
  let nonminimal := (len64 <? 128) || (Z.shiftr len64 ((num_bytes - 1) * 8) =? 0) in
  if nonminimal && negb ber_ok then None
  else if u64 (len64 + header_len + num_bytes) <? len64 then None
  else Some (u64 (len64 + header_len + num_bytes), nonminimal).

(** The function works on a copy, [header], of its argument, and consumes the
    argument only by the final [CBS_get_bytes]. *)
Definition cbs_get_any_asn1_element (ber_ok : bool) : M CBS element := fun cbs =>
  let get len tag header_len ber :=
    (let! out := CBS_get_bytes len in ret (Element out tag header_len ber)) cbs in
  match (let! tag := parse_asn1_tag in let! length_byte := CBS_get_u8 in
         ret (tag, length_byte)) cbs with
  | Ret (tag, length_byte) header =>
      let header_len := zlen cbs - zlen header in
      if Z.land length_byte 0x80 =? 0
      then get (length_byte + header_len) tag header_len false
      else
        let num_bytes := Z.land length_byte 0x7f in
        if ber_ok && negb (Z.land tag CBS_ASN1_CONSTRUCTED =? 0) && (num_bytes =? 0)
        then get header_len tag header_len true
        else if (num_bytes =? 0) || (4 <? num_bytes) then Fail cbs
        else
          match cbs_get_u num_bytes header with
          | Ret len64 _ =>
              match long_length ber_ok len64 num_bytes header_len with
              | None => Fail cbs
              | Some (len, ber) => get len tag (header_len + num_bytes) ber
              end
          | Fail _ => Fail cbs
          | Ub => Ub
          | NoFuel => NoFuel
          end
  | Fail _ => Fail cbs
  | Ub => Ub
  | NoFuel => NoFuel
  end.

Definition CBS_get_any_asn1_element : M CBS element := cbs_get_any_asn1_element false.
Definition CBS_get_any_ber_asn1_element : M CBS element := cbs_get_any_asn1_element true.

(** [CBS_skip(out, header_len)] on the element; its failure is the [assert(0)]. *)
Definition skip_header (el : element) : M CBS CBS :=
  match CBS_skip (el_header_len el) (el_out el) with
  | Ret _ out => ret out
  | _ => ubm
  end.

(** Returns the contents and the tag. *)
Definition CBS_get_any_asn1 : M CBS (CBS * Z) :=
  let! el := CBS_get_any_asn1_element in
  let! out := skip_header el in
  ret (out, el_tag el).

Definition cbs_get_asn1 (tag_value : Z) (skip : bool) : M CBS CBS :=
  let! el := CBS_get_any_asn1_element in
  if negb (el_tag el =? tag_value) then failm
  else if skip then skip_header el else ret (el_out el).

Definition CBS_get_asn1 (tag_value : Z) : M CBS CBS := cbs_get_asn1 tag_value true.
Definition CBS_get_asn1_element (tag_value : Z) : M CBS CBS := cbs_get_asn1 tag_value false.

Definition CBS_peek_asn1_tag (cbs : CBS) (tag_value : Z) : bool :=
  if zlen cbs <? 1 then false
  else match parse_asn1_tag cbs with
       | Ret actual_tag _ => tag_value =? actual_tag
       | _ => false
       end.

(** Returns [*out_is_negative], or [None] for a return of 0. *)
Definition CBS_is_valid_asn1_integer (cbs : CBS) : option bool :=
  match cbs with
  | [] => None
  | first_byte :: copy =>
      let is_negative := negb (Z.land first_byte 0x80 =? 0) in
      match copy with
      | [] => Some is_negative
      | second_byte :: _ =>
          if ((first_byte =? 0x00) && (Z.land second_byte 0x80 =? 0)) ||
             ((first_byte =? 0xff) && negb (Z.land second_byte 0x80 =? 0))
          then None else Some is_negative
      end
  end.

Definition CBS_is_unsigned_asn1_integer (cbs : CBS) : bool :=
  match CBS_is_valid_asn1_integer cbs with Some neg => negb neg | None => false end.

(** The loop of [CBS_get_asn1_uint64]; [None] when the value is too large. *)
Fixpoint uint64_loop (data : list Z) (out : Z) : option Z :=
  match data with
  | [] => Some out
  | b :: r => if negb (Z.shiftr out 56 =? 0) then None
              else uint64_loop r (Z.lor (u64 (Z.shiftl out 8)) b)
  end.

Definition CBS_get_asn1_uint64 : M CBS Z :=
  let! bytes := CBS_get_asn1 CBS_ASN1_INTEGER in
  if negb (CBS_is_unsigned_asn1_integer bytes) then failm
  else match uint64_loop bytes 0 with Some v => ret v | None => failm end.

(** [u.bytes] after the copy, least significant byte first, and [u.i]. *)
Definition CBS_get_asn1_int64 : M CBS Z :=
  let! bytes := CBS_get_asn1 CBS_ASN1_INTEGER in
  match CBS_is_valid_asn1_integer bytes with
  | None => failm
  | Some is_negative =>
      if 8 <? zlen bytes then failm
      else ret (i64 (le_value (rev bytes ++
                 replicate (8 - length bytes) (if is_negative then 0xff else 0))))
  end.

Definition CBS_get_asn1_bool : M CBS bool :=
  let! bytes := CBS_get_asn1 CBS_ASN1_BOOLEAN in
  match bytes with
  | [value] => if negb (value =? 0) && negb (value =? 0xff) then failm
               else ret (negb (value =? 0))
  | _ => failm
  end.

(** [Some] contents when [*out_present]. *)
Definition CBS_get_optional_asn1 (tag : Z) : M CBS (option CBS) :=
  let! cbs := getm in
  if CBS_peek_asn1_tag cbs tag
  then let! out := CBS_get_asn1 tag in ret (Some out)
  else ret None.

(** A parser run on the contents of an element, which it must use up. *)
Definition parse_all {A} (p : M CBS A) (child : CBS) : M CBS A :=
  match p child with
  | Ret a rest => if zlen rest =? 0 then ret a else failm
  | Fail _ => failm
  | Ub => ubm
  | NoFuel => nofuelm
  end.

(** The octet string, and whether it was present. *)
Definition CBS_get_optional_asn1_octet_string (tag : Z) : M CBS (CBS * bool) :=
  let! child := CBS_get_optional_asn1 tag in
  match child with
  | Some child => let! out := parse_all (CBS_get_asn1 CBS_ASN1_OCTETSTRING) child in
                  ret (out, true)
  | None => ret ([], false)
  end.

Definition CBS_get_optional_asn1_uint64 (tag default_value : Z) : M CBS Z :=
  let! child := CBS_get_optional_asn1 tag in
  match child with
  | Some child => parse_all CBS_get_asn1_uint64 child
  | None => ret default_value
  end.

(** The length of [child2] is checked before the length of [child]. *)
Definition CBS_get_optional_asn1_bool (tag : Z) (default_value : bool) : M CBS bool :=
  let! child := CBS_get_optional_asn1 tag in
  match child with
  | Some child =>
      let! child2 := parse_all (CBS_get_asn1 CBS_ASN1_BOOLEAN) child in
      match child2 with
      | [boolean] => if boolean =? 0 then ret false
                     else if boolean =? 0xff then ret true else failm
      | _ => failm
      end
  | None => ret default_value
  end.

Definition CBS_is_valid_asn1_bitstring (cbs : CBS) : bool :=
  match CBS_get_u8 cbs with
  | Ret num_unused_bits rest =>
      if 7 <? num_unused_bits then false
      else if num_unused_bits =? 0 then true
      else match CBS_get_last_u8 rest with
           | Ret last _ => Z.land last (Z.shiftl 1 num_unused_bits - 1) =? 0
           | _ => false
           end
  | _ => false
  end.

Definition CBS_asn1_bitstring_has_bit (cbs : CBS) (bit : Z) : bool :=
  if negb (CBS_is_valid_asn1_bitstring cbs) then false
  else
    let byte_num := u32 (Z.shiftr bit 3 + 1) in
    let bit_num := 7 - Z.land bit 7 in
    (byte_num <? zlen cbs) &&
    negb (Z.land (nth (Z.to_nat byte_num) cbs 0) (Z.shiftl 1 bit_num) =? 0).
