(* ===== verification/CbsSpec.v ===== *)
(** * BoringSSL CBS: DER elements, contents, tags and integers

    A reference encoder of DER identifiers and lengths (ITU-T X.690, sections
    8.1.2, 8.1.3 and 10.1), and the proof that the parser accepts exactly what it
    produces. *)
From S2P Require Import Prelude Cbs.

(** ** Reference encoder *)

(** Base 128, most significant digit first, all digits but the last with their
    top bit set; [cont] is the top bit of the last. *)
Fixpoint base128 (k : nat) (v cont : Z) : list Z :=
  match k with
  | O => []
  | S k' => if v <? 128 then [v + cont] else base128 k' (v / 128) 128 ++ [v mod 128 + cont]
  end.

(** [n] bytes, most significant first. *)
Fixpoint be_bytes (n : nat) (v : Z) : list Z :=
  match n with
  | O => []
  | S k => be_bytes k (v / 256) ++ [v mod 256]
  end.

Definition der_tag (tag : Z) : list Z :=
  let cls := tag / 2 ^ 29 * 32 in
  let num := tag mod 2 ^ 29 in
  if num <? 31 then [cls + num] else (cls + 31) :: base128 10 num 0.

Definition length_bytes (n : Z) : nat :=
  if n <? 2 ^ 8 then 1 else if n <? 2 ^ 16 then 2 else if n <? 2 ^ 24 then 3 else 4.

Definition der_length (n : Z) : list Z :=
  if n <? 128 then [n] else (128 + Z.of_nat (length_bytes n)) :: be_bytes (length_bytes n) n.

Definition der_header (tag n : Z) : list Z := der_tag tag ++ der_length n.
Definition der_element (tag : Z) (body : list Z) : list Z :=
  der_header tag (zlen body) ++ body.

(** ** Reading bytes *)

Lemma cbs_get_app p l : cbs_get (zlen p) (p ++ l) = Ret p l.
Proof.
  unfold cbs_get. rewrite zlen_app. pose proof (zlen_nonneg l).
  bool_false (zlen p + zlen l <? zlen p). by rewrite ztake_app, zdrop_app.
Qed.

Lemma cbs_get_inv n l p r : 0 <= n -> cbs_get n l = Ret p r -> l = p ++ r /\ zlen p = n.
Proof.
  unfold cbs_get. destruct (Z.ltb_spec (zlen l) n); [done|]. intros Hn [= <- <-].
  split; [symmetry; apply ztake_zdrop|apply zlen_ztake; lia].
Qed.

Lemma get_u8_cons b l : CBS_get_u8 (b :: l) = Ret b l.
Proof. unfold CBS_get_u8. change (b :: l) with ([b] ++ l). change 1 with (zlen [b]).
  by rewrite (bind_Ret _ _ _ _ _ (cbs_get_app [b] l)). Qed.

Lemma get_u8_nil : CBS_get_u8 [] = Fail [].
Proof. reflexivity. Qed.

(** Big-endian numbers. *)
Definition be_value (v0 : Z) (l : list Z) : Z := foldl (fun a b => a * 256 + b) v0 l.

Lemma be_value_range l : forall v0 k, bytes_ok l -> 0 <= v0 < 2 ^ (8 * Z.of_nat k) ->
  0 <= be_value v0 l < 2 ^ (8 * Z.of_nat (k + length l)).
Proof.
  induction l as [|b l IH]; intros v0 k Hl Hv; cbn [be_value foldl length].
  - by rewrite Nat.add_0_r.
  - inversion Hl; subst. replace (k + S (length l))%nat with (S k + length l)%nat by lia.
    apply IH; [done|]. unfold is_byte in *.
    replace (8 * Z.of_nat (S k)) with (8 * Z.of_nat k + 8) by lia.
    rewrite Z.pow_add_r by lia. change (2 ^ 8) with 256. lia.
Qed.

Lemma be_step_sum v b k : is_byte b -> 0 <= v < 2 ^ (8 * Z.of_nat k) -> (k < 8)%nat ->
  be_step v b = v * 256 + b.
Proof.
  intros Hb Hv Hk. unfold be_step. rewrite wrap_small.
  - rewrite Z.lor_comm, lor_shiftl_add by (lia || exact Hb). change (2 ^ 8) with 256. lia.
  - rewrite Z.shiftl_mul_pow2 by lia. change (2 ^ 8) with 256.
    assert (2 ^ (8 * Z.of_nat k) <= 2 ^ 56) by (apply Z.pow_le_mono_r; lia).
    change (2 ^ 56) with 72057594037927936 in *. change (2 ^ 64) with 18446744073709551616. lia.
Qed.

Lemma be_steps l : forall v k, bytes_ok l -> 0 <= v < 2 ^ (8 * Z.of_nat k) ->
  (k + length l <= 8)%nat -> foldl be_step v l = be_value v l.
Proof.
  induction l as [|b l IH]; intros v k Hl Hv Hk; [done|]. inversion Hl; subst.
  cbn [foldl be_value length] in *. rewrite (be_step_sum v b k) by (done || lia).
  apply (IH _ (S k)); [done| |lia]. unfold is_byte in *.
  replace (8 * Z.of_nat (S k)) with (8 * Z.of_nat k + 8) by lia.
  rewrite Z.pow_add_r by lia. change (2 ^ 8) with 256. lia.
Qed.

Lemma get_u_app p l : bytes_ok p -> (length p <= 8)%nat ->
  cbs_get_u (zlen p) (p ++ l) = Ret (be_value 0 p) l.
Proof.
  intros Hp Hl. unfold cbs_get_u. rewrite (bind_Ret _ _ _ _ _ (cbs_get_app p l)).
  unfold ret. by rewrite (be_steps p 0 0).
Qed.

Lemma be_value_snoc v l b : be_value v (l ++ [b]) = be_value v l * 256 + b.
Proof. unfold be_value. by rewrite foldl_app. Qed.

(** The bytes of a number are the number's bytes. *)
Lemma be_bytes_value l : bytes_ok l -> be_bytes (length l) (be_value 0 l) = l.
Proof.
  induction l as [|b l IH] using rev_ind; intros Hl; [done|].
  apply Forall_app in Hl as [Hl Hb]. inversion Hb as [|? ? Hbb _]; subst. unfold is_byte in Hbb.
  rewrite be_value_snoc, length_app, Nat.add_comm. cbn [length be_bytes Nat.add].
  rewrite Z.div_add_l, Z.div_small, Z.add_0_r, IH by (done || lia).
  by rewrite Z.add_comm, Z.mod_add, Z.mod_small by lia.
Qed.

Lemma be_bytes_ok n : forall v, bytes_ok (be_bytes n v) /\ length (be_bytes n v) = n.
Proof.
  induction n as [|n IH]; intros v; cbn [be_bytes]; [by split; [constructor|]|].
  destruct (IH (v / 256)) as [Hok Hl]. split.
  - apply Forall_app; split; [done|]. constructor; [|constructor].
    apply Z.mod_pos_bound; lia.
  - rewrite length_app, Hl. cbn [length]. lia.
Qed.

Lemma be_value_bytes n : forall v, 0 <= v < 2 ^ (8 * Z.of_nat n) -> be_value 0 (be_bytes n v) = v.
Proof.
  induction n as [|n IH]; intros v Hv.
  - change (2 ^ (8 * Z.of_nat 0)) with 1 in Hv. cbn. lia.
  - cbn [be_bytes]. rewrite be_value_snoc, IH.
    + pose proof (Z.div_mod v 256). lia.
    + replace (8 * Z.of_nat (S n)) with (8 * Z.of_nat n + 8) in Hv by lia.
      rewrite Z.pow_add_r in Hv by lia. change (2 ^ 8) with 256 in Hv.
      split; [apply Z.div_pos; lia|apply Z.div_lt_upper_bound; lia].
Qed.

(** ** Base-128 integers *)

Definition more_digits (c : list Z) : Prop := Forall (fun b => 128 <= b < 256) c.
Definition value128 (v0 : Z) (p : list Z) : Z := foldl (fun a b => a * 128 + b mod 128) v0 p.

Lemma value128_snoc v c b : value128 v (c ++ [b]) = value128 v c * 128 + b mod 128.
Proof. unfold value128. by rewrite foldl_app. Qed.

Lemma byte_low b : is_byte b -> Z.land b 0x7f = b mod 128.
Proof. intros _. by rewrite (land_mask_mod b 7). Qed.

Lemma byte_high b : is_byte b -> (Z.land b 0x80 =? 0) = (b <? 128).
Proof.
  intros Hb. unfold is_byte in Hb.
  assert (H : forallb (fun n => Bool.eqb (Z.land (Z.of_nat n) 0x80 =? 0) (Z.of_nat n <? 128))
                (seq 0 256) = true) by (vm_compute; reflexivity).
  rewrite forallb_forall in H. specialize (H (Z.to_nat b)).
  rewrite Z2Nat.id in H by lia. apply eqb_prop, H, in_seq. lia.
Qed.

(** One round of the loop. *)
Lemma base128_step k v b l :
  is_byte b -> 0 <= v < 2 ^ 64 ->
  base128_loop (S k) v (b :: l) =
  if negb (v <? 2 ^ 57) || ((v =? 0) && (b =? 128)) then Fail l
  else if b <? 128 then Ret (v * 128 + b mod 128) l
  else base128_loop k (v * 128 + b mod 128) l.
Proof.
  intros Hb Hv. cbn [base128_loop]. rewrite (bind_Ret _ _ _ _ _ (get_u8_cons b l)).
  rewrite shiftr_div by lia. change (64 - 7) with 57.
  replace (v / 2 ^ 57 =? 0) with (v <? 2 ^ 57).
  2: { change (2 ^ 57) with 144115188075855872.
       destruct (Z.ltb_spec v 144115188075855872).
       - by rewrite Z.div_small by lia.
       - pose proof (Z.div_le_mono 144115188075855872 v 144115188075855872 ltac:(lia) ltac:(lia)) as Hd.
         rewrite Z.div_same in Hd by lia. symmetry. apply Z.eqb_neq. lia. }
  destruct (Z.ltb_spec v (2 ^ 57)) as [Hs|Hs]; cbn [negb orb]; [|done].
  destruct (_ && _); [done|]. rewrite byte_high, byte_low by done.
  rewrite Z.lor_comm, wrap_small, lor_shiftl_add; try lia.
  - change (2 ^ 7) with 128. rewrite (Z.add_comm (b mod 128)). by destruct (b <? 128).
  - apply Z.mod_pos_bound. lia.
  - rewrite Z.shiftl_mul_pow2 by lia. change (2 ^ 7) with 128.
    change (2 ^ 57) with 144115188075855872 in *. change (2 ^ 64) with 18446744073709551616. lia.
Qed.

Lemma step_range v b : 0 <= v < 2 ^ 57 -> 0 <= v * 128 + b mod 128 < 2 ^ 64.
Proof.
  intros Hv. pose proof (Z.mod_pos_bound b 128 ltac:(lia)).
  change (2 ^ 57) with 144115188075855872 in *. change (2 ^ 64) with 18446744073709551616. lia.
Qed.

(** What the loop accepts. *)
Lemma base128_sound k : forall v0 l v rest,
  bytes_ok l -> 0 <= v0 < 2 ^ 64 -> base128_loop k v0 l = Ret v rest ->
  exists c b, l = c ++ b :: rest /\ more_digits c /\ 0 <= b < 128 /\
    v = value128 v0 (c ++ [b]) /\ v < 2 ^ 64 /\ (v0 = 0 -> head (c ++ [b]) <> Some 128).
Proof.
  induction k as [|k IH]; intros v0 [|b l] v rest Hl Hv H; try done.
  inversion Hl as [|? ? Hb Hl']; subst. rewrite base128_step in H by done.
  destruct (Z.ltb_spec v0 (2 ^ 57)) as [Hs|Hs]; [|done]. cbn [negb orb] in H.
  pose proof (step_range v0 b (conj (proj1 Hv) Hs)) as Hr.
  destruct ((v0 =? 0) && (b =? 128)) eqn:Ez; [done|].
  assert (Hhd : v0 = 0 -> Some b <> Some 128).
  { intros -> [= ->]. done. }
  destruct (Z.ltb_spec b 128).
  - injection H as <- <-. exists [], b. unfold is_byte in Hb.
    split; [done|]. split; [constructor|]. split; [lia|]. split; [done|]. split; [lia|done].
  - apply IH in H as (c & b' & -> & Hc & Hb' & -> & Hlt & _); [|done|done].
    exists (b :: c), b'. unfold is_byte in Hb. split; [done|]. split; [constructor; [lia|done]|].
    split; [done|]. split; [done|]. split; [done|]. exact Hhd.
Qed.

(** The value only grows. *)
Lemma value128_ge p : forall v, 0 <= v -> v <= value128 v p.
Proof.
  induction p as [|b p IH]; intros v Hv; [done|]. cbn [value128 foldl].
  pose proof (Z.mod_pos_bound b 128 ltac:(lia)).
  etrans; [|apply IH; lia]. lia.
Qed.

Lemma base128_complete c : forall k v0 b rest,
  more_digits c -> 0 <= b < 128 -> 0 <= v0 -> value128 v0 (c ++ [b]) < 2 ^ 64 ->
  (v0 = 0 -> head (c ++ [b]) <> Some 128) -> (length c < k)%nat ->
  base128_loop k v0 (c ++ b :: rest) = Ret (value128 v0 (c ++ [b])) rest.
Proof.
  induction c as [|x c IH]; intros [|k] v0 b rest Hc Hb Hv Hlt Hhd Hk; cbn [length app] in *; try lia.
  - cbn [value128 foldl] in *. rewrite Z.mod_small in * by lia.
    rewrite base128_step; [|unfold is_byte; lia|lia]. rewrite Z.mod_small by lia.
    change (2 ^ 57) with 144115188075855872. change (2 ^ 64) with 18446744073709551616 in *.
    bool_true (v0 <? 144115188075855872). cbn [negb orb].
    replace ((v0 =? 0) && (b =? 128)) with false
      by (destruct (Z.eqb_spec v0 0), (Z.eqb_spec b 128); try done; lia).
    by bool_true (b <? 128).
  - inversion Hc as [|? ? Hx Hc']; subst. cbn [value128 foldl app] in Hlt.
    fold (value128 (v0 * 128 + x mod 128) (c ++ [b])) in Hlt.
    pose proof (Z.mod_pos_bound x 128 ltac:(lia)) as Hm.
    pose proof (value128_ge (c ++ [b]) (v0 * 128 + x mod 128) ltac:(lia)) as Hge.
    change (2 ^ 64) with 18446744073709551616 in *.
    rewrite base128_step; [|unfold is_byte; lia|change (2 ^ 64) with 18446744073709551616; lia].
    change (2 ^ 57) with 144115188075855872.
    bool_true (v0 <? 144115188075855872). cbn [negb orb].
    replace ((v0 =? 0) && (x =? 128)) with false.
    2: { destruct (Z.eqb_spec v0 0) as [E|], (Z.eqb_spec x 128) as [E'|]; try done.
         by destruct (Hhd E); rewrite E'. }
    bool_false (x <? 128). apply IH; [done|done|lia|change (2 ^ 64) with 18446744073709551616; exact Hlt| |lia].
    intros E. assert (v0 = 0) by lia. assert (x mod 128 = 0) by lia.
    destruct (Hhd ltac:(lia)). cbn [head]. f_equal.
    pose proof (Z.div_mod x 128). assert (x / 128 = 1) by
      (symmetry; apply (Z.div_unique_pos _ _ _ (x - 128)); lia). lia.
Qed.

Lemma digit_div v b : 0 <= b < 128 -> (v * 128 + b) / 128 = v.
Proof. intros. rewrite Z.div_add_l, Z.div_small; lia. Qed.

Lemma digit_mod v b : 0 <= b < 128 -> (v * 128 + b) mod 128 = b.
Proof. intros. rewrite Z.add_comm, Z.mod_add, Z.mod_small; lia. Qed.

(** The encoder's digits. *)
Lemma base128_digits c : forall k cont b,
  more_digits c -> c <> [] -> head c <> Some 128 -> (length c < k)%nat ->
  0 <= b < 128 ->
  0 < value128 0 c /\ base128 k (value128 0 c * 128 + b) cont = c ++ [b + cont].
Proof.
  induction c as [|x c IH] using rev_ind; intros k cont b Hc Hne Hhd Hk Hb; [done|].
  apply Forall_app in Hc as [Hc Hx]. inversion Hx as [|? ? Hx' _]; subst.
  rewrite length_app in Hk. cbn [length] in Hk. destruct k as [|k]; [lia|].
  assert (Hxm : x mod 128 = x - 128)
    by (symmetry; apply (Z.mod_unique_pos _ _ 1); lia).
  rewrite value128_snoc, Hxm. cbn [base128].
  assert (Hpos : 0 < value128 0 c * 128 + (x - 128) /\
    base128 k (value128 0 c * 128 + (x - 128)) 128 = c ++ [x]).
  { destruct c as [|y c].
    - cbn [value128 foldl app head] in *. assert (x <> 128) by congruence.
      destruct k as [|k]; [lia|]. cbn [base128]. split; [lia|].
      bool_true (0 * 128 + (x - 128) <? 128). f_equal. lia.
    - destruct (IH k 128 (x - 128)) as [Hp E]; try done; [lia|lia|]. split; [lia|].
      rewrite E. do 2 f_equal. lia. }
  destruct Hpos as [Hp E]. split; [done|]. set (V := value128 0 c * 128 + (x - 128)) in *.
  bool_false (V * 128 + b <? 128). by rewrite digit_div, digit_mod, E by lia.
Qed.

Lemma base128_minimal c b k :
  more_digits c -> 0 <= b < 128 -> head (c ++ [b]) <> Some 128 -> (length c < k)%nat ->
  base128 k (value128 0 (c ++ [b])) 0 = c ++ [b].
Proof.
  intros Hc Hb Hhd Hk. rewrite value128_snoc, (Z.mod_small b) by lia. destruct c as [|x c].
  - destruct k as [|k]; [cbn in Hk; lia|]. cbn [value128 foldl base128 app].
    bool_true (0 * 128 + b <? 128). f_equal. lia.
  - destruct (base128_digits (x :: c) k 0 b) as [_ E]; try done. by rewrite E, Z.add_0_r.
Qed.

(** The encoder's output has the shape the parser accepts. *)
Lemma base128_shape k : forall v cont,
  0 <= v < 2 ^ (7 * Z.of_nat k) -> (0 < k)%nat ->
  exists c b, base128 k v cont = c ++ [b + cont] /\ more_digits c /\ 0 <= b < 128 /\
    value128 0 (c ++ [b]) = v /\ (length c < k)%nat /\ (c <> [] -> head c <> Some 128).
Proof.
  induction k as [|k IH]; intros v cont Hv Hk; [lia|]. cbn [base128].
  destruct (Z.ltb_spec v 128) as [Hs|Hs].
  - exists [], v. split; [done|]. split; [constructor|]. split; [lia|].
    cbn [app value128 foldl length]. rewrite Z.mod_small by lia. split; [lia|]. split; [lia|done].
  - destruct k as [|k]; [change (2 ^ (7 * Z.of_nat 1)) with 128 in Hv; lia|].
    assert (E : 2 ^ (7 * Z.of_nat (S (S k))) = 128 * 2 ^ (7 * Z.of_nat (S k))).
    { change 128 with (2 ^ 7). rewrite <- Z.pow_add_r by lia. f_equal. lia. }
    destruct (IH (v / 128) 128) as (c & b & Ec & Hc & Hb & Hval & Hl & Hhd); [|lia|].
    { split; [apply Z.div_pos; lia|apply Z.div_lt_upper_bound; lia]. }
    rewrite Ec. exists (c ++ [b + 128]), (v mod 128).
    pose proof (Z.mod_pos_bound v 128 ltac:(lia)). split; [done|]. split.
    { apply Forall_app; split; [done|]. constructor; [lia|constructor]. }
    split; [done|]. split.
    { rewrite !value128_snoc in *. rewrite (Z.mod_small (v mod 128)) by lia.
      replace ((b + 128) mod 128) with (b mod 128)
        by (replace (b + 128) with (b + 1 * 128) by lia; by rewrite Z.mod_add).
      rewrite Hval. pose proof (Z.div_mod v 128). lia. }
    split; [rewrite length_app; cbn [length]; lia|].
    intros _. destruct c as [|x c]; [|exact (Hhd ltac:(done))]. cbn [app head].
    intros [= E0]. assert (b = 0) by lia. subst b.
    cbn [value128 foldl app] in Hval. change (0 * 128 + 0 mod 128) with 0 in Hval.
    assert (128 / 128 <= v / 128) by (apply Z.div_le_mono; lia).
    change (128 / 128) with 1 in *. lia.
Qed.

(** ** Identifiers *)

Lemma class_bits tb num : is_byte tb -> 0 <= num < 2 ^ 29 ->
  Z.lor (u32 (Z.shiftl (Z.land tb 0xe0) CBS_ASN1_TAG_SHIFT)) num = tb / 32 * 2 ^ 29 + num.
Proof.
  intros Hb Hn. unfold is_byte in Hb.
  assert (H : forallb (fun n => Z.land (Z.of_nat n) 0xe0 =? Z.of_nat n / 32 * 32) (seq 0 256) = true)
    by (vm_compute; reflexivity).
  rewrite forallb_forall in H. specialize (H (Z.to_nat tb) ltac:(apply in_seq; lia)).
  rewrite Z2Nat.id, Z.eqb_eq in H by lia. rewrite H.
  assert (0 <= tb / 32 < 8) by (split; [apply Z.div_pos; lia|apply Z.div_lt_upper_bound; lia]).
  rewrite Z.shiftl_mul_pow2 by done. change CBS_ASN1_TAG_SHIFT with 24.
  replace (tb / 32 * 32 * 2 ^ 24) with (tb / 32 * 2 ^ 29) by (change (2 ^ 29) with (32 * 2 ^ 24); lia).
  rewrite wrap_small by (change (2 ^ 29) with 536870912; change (2 ^ 32) with 4294967296; lia).
  rewrite Z.lor_comm. rewrite <- (Z.shiftl_mul_pow2 (tb / 32) 29) at 1 by done.
  rewrite lor_shiftl_add by (lia || exact Hn). apply Z.add_comm.
Qed.

Lemma low_bits tb : Z.land tb 0x1f = tb mod 32.
Proof. by rewrite (land_mask_mod tb 5). Qed.

(** A tag from its class and its number. *)
Lemma tag_split cls num : 0 <= num < 2 ^ 29 ->
  (cls * 2 ^ 29 + num) / 2 ^ 29 = cls /\ (cls * 2 ^ 29 + num) mod 2 ^ 29 = num.
Proof.
  intros Hn. rewrite Z.div_add_l, Z.div_small, Z.add_0_r by lia. split; [done|].
  by rewrite Z.add_comm, Z.mod_add, Z.mod_small by lia.
Qed.

Lemma base128_fuel l v rest : parse_base128_integer l = Ret v rest ->
  base128_loop (S (length l)) 0 l = Ret v rest.
Proof. done. Qed.

Lemma value128_scale c : forall v, 0 <= v -> v * 128 ^ Z.of_nat (length c) <= value128 v c.
Proof.
  induction c as [|y c IH]; intros v Hv; [cbn; lia|]. cbn [length value128 foldl].
  rewrite Nat2Z.inj_succ, Z.pow_succ_r by lia. pose proof (Z.mod_pos_bound y 128 ltac:(lia)).
  specialize (IH (v * 128 + y mod 128) ltac:(lia)). unfold value128 in IH.
  pose proof (Z.pow_pos_nonneg 128 (Z.of_nat (length c)) ltac:(lia) ltac:(lia)). nia.
Qed.

Lemma value128_long c b : more_digits c -> head (c ++ [b]) <> Some 128 ->
  c <> [] -> 128 ^ Z.of_nat (length c) <= value128 0 (c ++ [b]).
Proof.
  intros Hc Hhd Hne. destruct c as [|x c]; [done|].
  inversion Hc as [|? ? Hx Hc']; subst. cbn [app head] in Hhd.
  assert (x <> 128) by congruence.
  assert (Hxm : x mod 128 = x - 128) by (symmetry; apply (Z.mod_unique_pos _ _ 1); lia).
  change (value128 0 ((x :: c) ++ [b])) with (value128 (0 * 128 + x mod 128) (c ++ [b])).
  pose proof (value128_scale (c ++ [b]) (0 * 128 + x mod 128) ltac:(lia)) as H0.
  rewrite length_app, Nat.add_comm in H0. cbn [length Nat.add] in *.
  pose proof (Z.pow_pos_nonneg 128 (Z.of_nat (S (length c))) ltac:(lia) ltac:(lia)). nia.
Qed.

Lemma base128_sound10 l v rest :
  bytes_ok l -> parse_base128_integer l = Ret v rest ->
  0 <= v < 2 ^ 64 /\ l = base128 10 v 0 ++ rest.
Proof.
  intros Hl H. apply base128_sound in H as (c & b & -> & Hc & Hb & -> & Hlt & Hhd); [|done|done].
  specialize (Hhd eq_refl). pose proof (value128_ge (c ++ [b]) 0 ltac:(lia)).
  split; [lia|]. rewrite base128_minimal; try done; [by rewrite <- app_assoc|].
  destruct (Nat.lt_ge_cases (length c) 10) as [|Hlong]; [done|].
  pose proof (value128_long c b Hc Hhd ltac:(intros ->; cbn in Hlong; lia)) as Hge.
  assert (128 ^ 10 <= 128 ^ Z.of_nat (length c)) by (apply Z.pow_le_mono_r; lia).
  change (128 ^ 10) with 1180591620717411303424 in *.
  change (2 ^ 64) with 18446744073709551616 in *. lia.
Qed.

Lemma base128_complete10 v rest :
  0 <= v < 2 ^ 64 -> parse_base128_integer (base128 10 v 0 ++ rest) = Ret v rest.
Proof.
  intros Hv. destruct (base128_shape 10 v 0) as (c & b & E & Hc & Hb & Hval & Hl & Hhd).
  { change (2 ^ (7 * Z.of_nat 10)) with 1180591620717411303424.
    change (2 ^ 64) with 18446744073709551616 in *. lia. }
  { lia. }
  rewrite E, Z.add_0_r, <- app_assoc. cbn [app]. unfold parse_base128_integer.
  rewrite base128_complete; try done.
  - by rewrite Hval.
  - rewrite Hval. lia.
  - intros _. destruct c as [|x c]; [cbn; intros [= ->]; lia|]. by apply Hhd.
  - rewrite length_app. cbn [length]. lia.
Qed.

Lemma parse_tag_sound l tag rest :
  bytes_ok l -> parse_asn1_tag l = Ret tag rest ->
  0 <= tag < 2 ^ 32 /\ l = der_tag tag ++ rest.
Proof.
  intros Hl H. destruct l as [|tb l]; [done|]. inversion Hl as [|? ? Hb Hl']; subst.
  unfold parse_asn1_tag in H. rewrite (bind_Ret _ _ _ _ _ (get_u8_cons tb l)), low_bits in H.
  apply bind_inv in H as (num & s1 & H1 & H2). injection H2 as <- <-.
  unfold is_byte in Hb. pose proof (Z.mod_pos_bound tb 32 ltac:(lia)) as Hm.
  pose proof (Z.div_mod tb 32 ltac:(lia)) as Hd.
  assert (Hcls : 0 <= tb / 32 < 8) by (split; [apply Z.div_pos; lia|apply Z.div_lt_upper_bound; lia]).
  assert (Hfin : 0 <= num < 2 ^ 29 -> (num < 31 -> tb mod 32 = num /\ s1 = l) ->
    (31 <= num -> tb mod 32 = 31 /\ l = base128 10 num 0 ++ s1) ->
    0 <= Z.lor (u32 (Z.shiftl (Z.land tb 0xe0) CBS_ASN1_TAG_SHIFT)) num < 2 ^ 32 /\
    tb :: l = der_tag (Z.lor (u32 (Z.shiftl (Z.land tb 0xe0) CBS_ASN1_TAG_SHIFT)) num) ++ s1).
  { intros Hn Hlow Hhigh. rewrite class_bits by done. destruct (tag_split (tb / 32) num Hn) as [E1 E2].
    change (2 ^ 29) with 536870912 in *. split; [change (2 ^ 32) with 4294967296; lia|].
    unfold der_tag. change (2 ^ 29) with 536870912. rewrite E1, E2.
    destruct (Z.ltb_spec num 31) as [Hs|Hs].
    - destruct (Hlow Hs) as [E ->]. cbn [app]. f_equal. lia.
    - destruct (Hhigh Hs) as [E ->]. cbn [app]. f_equal. lia. }
  destruct (Z.eqb_spec (tb mod 32) 0x1f) as [E|E].
  - apply bind_inv in H1 as (v & s2 & H1 & H2).
    apply base128_sound10 in H1 as [Hv ->]; [|done].
    change CBS_ASN1_TAG_NUMBER_MASK with (2 ^ 29 - 1) in H2.
    destruct (Z.ltb_spec (2 ^ 29 - 1) v); [done|]. destruct (Z.ltb_spec v 0x1f); [done|].
    cbn [orb] in H2. injection H2 as <- <-. change (2 ^ 29) with 536870912 in *.
    rewrite (wrap_small 32 v) in * by (change (2 ^ 32) with 4294967296; lia).
    apply Hfin; [lia|lia|]. done.
  - injection H1 as <- <-. apply Hfin; [change (2 ^ 29) with 536870912; lia|done|lia].
Qed.

Lemma parse_tag_complete tag rest :
  0 <= tag < 2 ^ 32 -> parse_asn1_tag (der_tag tag ++ rest) = Ret tag rest.
Proof.
  intros Ht. unfold der_tag. pose proof (Z.div_mod tag (2 ^ 29) ltac:(lia)) as Hd.
  pose proof (Z.mod_pos_bound tag (2 ^ 29) ltac:(lia)) as Hn.
  set (num := tag mod 2 ^ 29) in *. set (cls := tag / 2 ^ 29) in *.
  assert (Hcls : 0 <= cls < 8).
  { change (2 ^ 29) with 536870912 in *. change (2 ^ 32) with 4294967296 in *. lia. }
  assert (Hbyte : forall x, 0 <= x < 32 -> (cls * 32 + x) mod 32 = x /\ (cls * 32 + x) / 32 = cls).
  { intros x Hx. rewrite Z.div_add_l, Z.div_small, Z.add_0_r by lia. split; [|done].
    by rewrite Z.add_comm, Z.mod_add, Z.mod_small by lia. }
  unfold parse_asn1_tag. destruct (Z.ltb_spec num 31) as [Hs|Hs].
  - cbn [app]. rewrite (bind_Ret _ _ _ _ _ (get_u8_cons _ _)), low_bits.
    destruct (Hbyte num ltac:(lia)) as [E1 E2]. rewrite E1. bool_false (num =? 0x1f).
    rewrite bind_ret. unfold ret. rewrite class_bits, E2 by (unfold is_byte; lia).
    f_equal. lia.
  - cbn [app]. rewrite (bind_Ret _ _ _ _ _ (get_u8_cons _ _)), low_bits.
    destruct (Hbyte 31 ltac:(lia)) as [E1 E2]. rewrite E1. cbn [Z.eqb Pos.eqb].
    assert (Hv : 0 <= num < 2 ^ 64).
    { change (2 ^ 29) with 536870912 in *. change (2 ^ 64) with 18446744073709551616. lia. }
    unfold bind at 1 2. rewrite base128_complete10 by done.
    change CBS_ASN1_TAG_NUMBER_MASK with (2 ^ 29 - 1).
    bool_false (2 ^ 29 - 1 <? num). bool_false (num <? 0x1f). cbn [orb]. unfold ret.
    rewrite (wrap_small 32 num).
    2: { change (2 ^ 29) with 536870912 in *. change (2 ^ 32) with 4294967296. lia. }
    rewrite class_bits, E2 by (unfold is_byte; lia). f_equal. lia.
Qed.

(** ** The parsers return *)

Definition returns {S A} (r : out S A) : Prop :=
  match r with Ret _ _ | Fail _ => True | _ => False end.

Lemma get_u8_cases l :
  CBS_get_u8 l = match l with [] => Fail [] | b :: r => Ret b r end.
Proof. destruct l as [|b l]; [done|apply get_u8_cons]. Qed.

Lemma base128_returns k : forall v l, (length l < k)%nat -> returns (base128_loop k v l).
Proof.
  induction k as [|k IH]; intros v l Hl; [lia|]. cbn [base128_loop].
  unfold bind. rewrite get_u8_cases. destruct l as [|b l]; [done|]. cbn [length] in Hl.
  destruct (negb (_ =? 0)); [done|]. destruct (_ && _); [done|].
  destruct (negb (_ =? 0)); [apply IH; lia|done].
Qed.

Lemma parse_tag_returns l : returns (parse_asn1_tag l).
Proof.
  unfold parse_asn1_tag, bind. rewrite get_u8_cases. destruct l as [|b l]; [done|].
  destruct (_ =? 0x1f); [|done].
  pose proof (base128_returns (S (length l)) 0 l ltac:(lia)) as H.
  unfold parse_base128_integer. destruct (base128_loop _ 0 l); try done.
  by destruct (_ || _).
Qed.

(** ** Elements *)

Lemma zlen_der_length n : 0 <= n < 2 ^ 32 -> 1 <= zlen (der_length n) <= 5.
Proof.
  intros Hn. unfold der_length. destruct (n <? 128); [done|]. rewrite zlen_cons.
  unfold zlen. rewrite (proj2 (be_bytes_ok _ _)). unfold length_bytes.
  repeat case_bool; lia.
Qed.

Lemma zlen_base128 k v cont : (0 < k)%nat -> zlen (base128 k v cont) <= Z.of_nat k.
Proof.
  revert v cont. induction k as [|k IH]; intros v cont Hk; [lia|]. cbn [base128].
  destruct (v <? 128); [change (zlen [v + cont]) with 1; lia|].
  rewrite zlen_app. change (zlen [v mod 128 + cont]) with 1. destruct k as [|k]; [change (zlen (base128 0 (v / 128) 128)) with 0; lia|].
  specialize (IH (v / 128) 128 ltac:(lia)). lia.
Qed.

Lemma zlen_der_tag tag : 1 <= zlen (der_tag tag) <= 11.
Proof.
  unfold der_tag. destruct (_ <? 31); [done|]. rewrite zlen_cons.
  pose proof (zlen_base128 10 (tag mod 2 ^ 29) 0 ltac:(lia)).
  pose proof (zlen_nonneg (base128 10 (tag mod 2 ^ 29) 0)). lia.
Qed.

(** The number of bytes the length needs. *)
Lemma length_bytes_spec n k :
  0 <= n < 2 ^ (8 * Z.of_nat k) -> (1 <= k <= 4)%nat -> 128 <= n ->
  Z.shiftr n ((Z.of_nat k - 1) * 8) <> 0 <-> k = length_bytes n.
Proof.
  intros Hn Hk H128. rewrite shiftr_div by lia. unfold length_bytes.
  change (2 ^ 8) with 256. change (2 ^ 16) with 65536. change (2 ^ 24) with 16777216.
  destruct k as [|[|[|[|[|k]]]]]; try lia;
    match goal with |- n / 2 ^ ?e <> 0 <-> _ =>
      let v := eval vm_compute in (2 ^ e) in change (2 ^ e) with v end;
    match type of Hn with 0 <= n < ?e =>
      let v := eval vm_compute in e in change e with v in Hn end;
    repeat case_bool; split; intros Hq; try lia;
    try (rewrite Z.div_small in Hq by lia; lia);
    try (intros Eq; apply Z.div_small_iff in Eq; lia).
Qed.

Lemma short_byte n : 0 <= n < 128 -> (Z.land n 0x80 =? 0) = true.
Proof. intros. rewrite byte_high by (unfold is_byte; lia). solve_bool. Qed.

Lemma long_byte k : (1 <= k <= 4)%nat ->
  (Z.land (128 + Z.of_nat k) 0x80 =? 0) = false /\ Z.land (128 + Z.of_nat k) 0x7f = Z.of_nat k.
Proof. intros Hk. do 5 (destruct k as [|k]; [try lia; by split|]). lia. Qed.

Lemma length_bytes_range n : (1 <= length_bytes n <= 4)%nat.
Proof. unfold length_bytes. repeat case_bool; lia. Qed.

Lemma length_bytes_fit n : 0 <= n < 2 ^ 32 -> n < 2 ^ (8 * Z.of_nat (length_bytes n)).
Proof.
  intros Hn. unfold length_bytes. change (2 ^ 8) with 256. change (2 ^ 16) with 65536.
  change (2 ^ 24) with 16777216. change (2 ^ 32) with 4294967296 in Hn.
  repeat case_bool; try assumption.
  change (2 ^ (8 * Z.of_nat 4)) with 4294967296. lia.
Qed.

(** The final [CBS_get_bytes] of the element. *)
Lemma element_bytes el_bytes rest tag hl ber :
  (let! out := CBS_get_bytes (zlen el_bytes) in ret (Element out tag hl ber)) (el_bytes ++ rest) =
  Ret (Element el_bytes tag hl ber) rest.
Proof. unfold CBS_get_bytes. by rewrite (bind_Ret _ _ _ _ _ (cbs_get_app _ _)). Qed.

Lemma element_complete ber_ok tag body rest :
  0 <= tag < 2 ^ 32 -> zlen body < 2 ^ 32 ->
  cbs_get_any_asn1_element ber_ok (der_element tag body ++ rest) =
  Ret (Element (der_element tag body) tag (zlen (der_header tag (zlen body))) false) rest.
Proof.
  intros Ht Hb. pose proof (zlen_nonneg body) as Hb0. set (n := zlen body) in *.
  unfold der_element. fold n. set (whole := der_header tag n ++ body).
  assert (Hw : zlen whole = zlen (der_header tag n) + n) by (unfold whole; by rewrite zlen_app).
  pose proof (zlen_der_tag tag) as Htl. pose proof (zlen_der_length n ltac:(lia)) as Hll.
  assert (Hhl : zlen (der_header tag n) = zlen (der_tag tag) + zlen (der_length n))
    by (unfold der_header; by rewrite zlen_app).
  unfold cbs_get_any_asn1_element. 
  assert (Hsplit : whole ++ rest = der_tag tag ++ (der_length n ++ body ++ rest))
    by (unfold whole, der_header; by rewrite <- !app_assoc).
  rewrite Hsplit at 1. unfold bind at 1. rewrite parse_tag_complete by done. unfold bind at 1.
  unfold der_length in *. destruct (Z.ltb_spec n 128) as [Hs|Hs].
  - cbn [app]. rewrite get_u8_cons. unfold ret at 1. rewrite short_byte by lia.
    replace (n + (zlen (whole ++ rest) - zlen (body ++ rest))) with (zlen whole).
    2: { rewrite !zlen_app, Hw, Hhl. change (zlen [n]) with 1. fold n. lia. }
    rewrite element_bytes. do 2 f_equal. rewrite !zlen_app, Hw, Hhl. change (zlen [n]) with 1.
    fold n. lia.
  - set (k := length_bytes n) in *. pose proof (length_bytes_range n) as Hk. fold k in Hk.
    destruct (long_byte k Hk) as [Ef E7]. cbn [app]. rewrite get_u8_cons. unfold ret at 1.
    rewrite Ef, E7. bool_false (Z.of_nat k =? 0). rewrite !andb_false_r.
    bool_false (4 <? Z.of_nat k). cbn [orb].
    destruct (be_bytes_ok k n) as [Hok Hlen].
    assert (Hzk : zlen (be_bytes k n) = Z.of_nat k) by (unfold zlen; by rewrite Hlen).
    rewrite <- Hzk at 1. rewrite get_u_app by (done || lia).
    pose proof (length_bytes_fit n ltac:(lia)) as Hfit. fold k in Hfit.
    rewrite be_value_bytes by lia.
    rewrite zlen_cons, Hzk in Hll, Hhl.
    set (hl := zlen (whole ++ rest) - zlen (be_bytes k n ++ body ++ rest)).
    assert (Ehl : hl = zlen (der_tag tag) + 1).
    { unfold hl. rewrite !zlen_app, Hw, Hhl, Hzk. fold n. lia. }
    unfold long_length. bool_false (n <? 128). cbn [orb].
    replace (Z.shiftr n ((Z.of_nat k - 1) * 8) =? 0) with false.
    2: { symmetry. apply Z.eqb_neq, (length_bytes_spec n k); (done || lia). }
    cbn [andb negb].
    assert (Hsum : u64 (n + hl + Z.of_nat k) = zlen whole).
    { rewrite wrap_small; [lia|]. change (2 ^ 32) with 4294967296 in *.
      change (2 ^ 64) with 18446744073709551616. lia. }
    rewrite Hsum. bool_false (zlen whole <? n). rewrite element_bytes.
    do 2 f_equal. lia.
Qed.

(** The element that the last read took. *)
Lemma element_bytes_inv len tag hl ber cbs el rest :
  0 <= len ->
  (let! out := CBS_get_bytes len in ret (Element out tag hl ber)) cbs = Ret el rest ->
  exists p, el = Element p tag hl ber /\ cbs = p ++ rest /\ zlen p = len.
Proof.
  intros Hlen H. apply bind_inv in H as (p & s & H1 & H2). injection H2 as <- <-.
  apply cbs_get_inv in H1 as [-> Hp]; [|done]. by exists p.
Qed.

(** A prefix of known length of a list that starts with [h]. *)
Lemma split_prefix (h p l rest : list Z) :
  h ++ l = p ++ rest -> zlen h <= zlen p ->
  exists body, p = h ++ body /\ l = body ++ rest /\ zlen body = zlen p - zlen h.
Proof.
  intros E Hl. apply app_eq_inv in E as [(k & E1 & E2)|(k & E1 & E2)].
  - subst. exists []. rewrite zlen_app in Hl. pose proof (zlen_nonneg k).
    destruct k; [|rewrite zlen_cons in *; pose proof (zlen_nonneg k); lia].
    rewrite app_nil_r. cbn [app] in *. rewrite app_nil_r. split; [done|]. split; [done|].
    change (zlen (@nil Z)) with 0. lia.
  - exists k. subst. rewrite zlen_app. split; [done|]. split; [done|lia].
Qed.

Lemma element_sound cbs el rest :
  bytes_ok cbs -> zlen cbs < 2 ^ 63 ->
  CBS_get_any_asn1_element cbs = Ret el rest ->
  exists tag body, 0 <= tag < 2 ^ 32 /\ zlen body < 2 ^ 32 /\
    el = Element (der_element tag body) tag (zlen (der_header tag (zlen body))) false /\
    cbs = der_element tag body ++ rest.
Proof.
  intros Hok Hlen H. unfold CBS_get_any_asn1_element, cbs_get_any_asn1_element in H.
  destruct (parse_asn1_tag cbs) as [tag l1|l1| |] eqn:Etag;
    unfold bind at 1 in H; rewrite Etag in H; try done.
  apply parse_tag_sound in Etag as [Ht Ecbs]; [|done].
  assert (Hok1 : bytes_ok l1) by (rewrite Ecbs in Hok; by apply Forall_app in Hok as [_ ?]).
  unfold bind at 1 in H. rewrite get_u8_cases in H. destruct l1 as [|lb header]; [done|].
  unfold ret at 1 in H. inversion Hok1 as [|? ? Hlb Hok2]; subst x l.
  assert (Hhl : zlen cbs - zlen header = zlen (der_tag tag) + 1)
    by (rewrite Ecbs, zlen_app, zlen_cons; lia).
  pose proof (zlen_der_tag tag) as Htl. pose proof (zlen_nonneg header). unfold is_byte in Hlb.
  rewrite byte_high in H by done. rewrite Hhl in H.
  destruct (Z.ltb_spec lb 128) as [Hs|Hs].
  - apply element_bytes_inv in H as (p & -> & Ep & Hp); [|lia].
    destruct (split_prefix (der_tag tag ++ [lb]) p header rest) as (body & -> & -> & Hb).
    { rewrite <- app_assoc. cbn [app]. by rewrite <- Ecbs. }
    { rewrite zlen_app. change (zlen [lb]) with 1. lia. }
    rewrite !zlen_app in Hp. change (zlen [lb]) with 1 in Hp.
    assert (E : zlen body = lb) by lia.
    assert (Ed : der_element tag body = (der_tag tag ++ [lb]) ++ body).
    { unfold der_element, der_header, der_length. rewrite E. by bool_true (lb <? 128). }
    exists tag, body. rewrite Ed. split; [done|].
    split; [change (2 ^ 32) with 4294967296; lia|]. split; [|done]. f_equal.
    unfold der_header, der_length. rewrite E. bool_true (lb <? 128).
    rewrite zlen_app. change (zlen [lb]) with 1. lia.
  - set (nb := Z.land lb 0x7f) in *. cbn [andb] in H.
    assert (Enb : nb = lb - 128).
    { unfold nb. rewrite (land_mask_mod lb 7) by done. change (2 ^ 7) with 128.
      symmetry. apply (Z.mod_unique_pos _ _ 1); lia. }
    destruct (Z.eqb_spec nb 0); [done|]. destruct (Z.ltb_spec 4 nb); [done|]. cbn [orb] in H.
    destruct (cbs_get_u nb header) as [len64 s|s| |] eqn:Eu; try done.
    unfold cbs_get_u in Eu. apply bind_inv in Eu as (data & s' & Hg & Hr).
    injection Hr as Hr _. apply cbs_get_inv in Hg as [Ehd Hdl]; [|lia].
    assert (Hokd : bytes_ok data) by (rewrite Ehd in Hok2; by apply Forall_app in Hok2 as [? _]).
    assert (Hlend : length data = Z.to_nat nb) by (unfold zlen in Hdl; lia).
    rewrite (be_steps data 0 0) in Hr by (done || lia).
    pose proof (be_value_range data 0 0 Hokd ltac:(done)) as Hrange. rewrite Hr in Hrange.
    cbn [Nat.add] in Hrange.
    set (k := Z.to_nat nb) in *. assert (Hk : (1 <= k <= 4)%nat) by lia. rewrite Hlend in Hrange.
    assert (Hnbk : nb = Z.of_nat k) by lia.
    unfold long_length in H. destruct (Z.ltb_spec len64 128) as [|H128]; [done|].
    cbn [orb] in H. rewrite Hnbk in H.
    destruct (Z.eqb_spec (Z.shiftr len64 ((Z.of_nat k - 1) * 8)) 0) as [|Hmin]; [done|].
    cbn [andb] in H. apply length_bytes_spec in Hmin; [|done|done|done].
    assert (H32 : len64 < 2 ^ 32).
    { assert (2 ^ (8 * Z.of_nat k) <= 2 ^ 32) by (apply Z.pow_le_mono_r; lia). lia. }
    rewrite wrap_small in H.
    2: { change (2 ^ 32) with 4294967296 in H32. change (2 ^ 64) with 18446744073709551616. lia. }
    destruct (_ <? len64); [done|].
    apply element_bytes_inv in H as (p & -> & Ep & Hp); [|lia].
    destruct (split_prefix (der_tag tag ++ lb :: data) p s' rest) as (body & -> & -> & Hb).
    { rewrite <- app_assoc. cbn [app]. by rewrite <- Ehd, <- Ecbs. }
    { rewrite zlen_app, zlen_cons. lia. }
    rewrite !zlen_app, zlen_cons in Hp. assert (E : zlen body = len64) by lia.
    assert (Edl : der_length (zlen body) = lb :: data).
    { unfold der_length. rewrite E. bool_false (len64 <? 128). rewrite <- Hmin.
      replace (128 + Z.of_nat k) with lb by lia. f_equal. rewrite <- Hr, <- Hlend.
      by apply be_bytes_value. }
    exists tag, body. unfold der_element, der_header. rewrite Edl.
    split; [done|]. split; [lia|]. split; [|done]. f_equal.
    rewrite zlen_app, zlen_cons. lia.
Qed.

Lemma element_returns ber_ok cbs :
  match cbs_get_any_asn1_element ber_ok cbs with
  | Ret _ _ => True | Fail s => s = cbs | _ => False end.
Proof.
  unfold cbs_get_any_asn1_element. pose proof (parse_tag_returns cbs) as Ht.
  assert (Hget : forall len tag hl ber,
    match (let! out := CBS_get_bytes len in ret (Element out tag hl ber)) cbs with
    | Ret _ _ => True | Fail s => s = cbs | _ => False end).
  { intros. unfold bind, CBS_get_bytes, cbs_get. by destruct (_ <? _). }
  unfold bind at 1. destruct (parse_asn1_tag cbs) as [tag l1|l1| |]; try done.
  unfold bind at 1. rewrite get_u8_cases. destruct l1 as [|lb header]; [done|].
  unfold ret at 1. destruct (_ =? 0); [apply Hget|]. destruct (_ && _); [apply Hget|].
  destruct (_ || _); [done|]. unfold cbs_get_u, bind at 1, cbs_get. destruct (_ <? _); [done|].
  unfold ret at 1. destruct (long_length _ _ _ _) as [[len ber]|]; [apply Hget|done].
Qed.


(** * BoringSSL CBS: theorems

    DER elements, the typed readers built on them, and integers. *)

(** The two's complement number of big-endian bytes. *)
Definition signed_be (l : list Z) : Z :=
  match l with
  | [] => 0
  | b :: _ => if b <? 128 then be_value 0 l else be_value 0 l - 2 ^ (8 * zlen l)
  end.

(** Minimal two's complement: the first nine bits are not all equal. *)
Definition minimal_int (l : list Z) : bool :=
  match l with
  | [] => false
  | [_] => true
  | a :: b :: _ => negb ((a =? 0) && (b <? 128)) && negb ((a =? 255) && (128 <=? b))
  end.

(** ** Lemmas *)

Lemma skip_header_ok tag body hl ber :
  hl = zlen (der_header tag (zlen body)) ->
  skip_header (Element (der_element tag body) tag hl ber) = ret body.
Proof.
  intros ->. unfold skip_header, CBS_skip, der_element. cbn [el_header_len el_out].
  by rewrite (bind_Ret _ _ _ _ _ (cbs_get_app _ _)).
Qed.

Lemma get_asn1_element tag v body rest :
  0 <= tag < 2 ^ 32 -> zlen body < 2 ^ 32 ->
  CBS_get_asn1 v (der_element tag body ++ rest) =
  if tag =? v then Ret body rest else Fail rest.
Proof.
  intros Ht Hb. unfold CBS_get_asn1, cbs_get_asn1, CBS_get_any_asn1_element.
  rewrite (bind_Ret _ _ _ _ _ (element_complete false tag body rest Ht Hb)).
  cbn [el_tag]. destruct (tag =? v); [|done]. cbn [negb]. by rewrite skip_header_ok.
Qed.

Lemma valid_integer_spec l :
  bytes_ok l ->
  CBS_is_valid_asn1_integer l =
  if minimal_int l then Some (match l with b :: _ => negb (b <? 128) | [] => false end) else None.
Proof.
  intros Hl. destruct l as [|a l]; [done|]. inversion Hl as [|? ? Ha Hl']; subst.
  cbn [CBS_is_valid_asn1_integer]. rewrite byte_high by exact Ha. destruct l as [|b l]; [done|].
  inversion Hl' as [|? ? Hb _]; subst. rewrite byte_high by exact Hb.
  cbn [minimal_int]. rewrite (Z.leb_antisym b 128).
  by destruct (a =? 0), (a =? 255), (b <? 128).
Qed.

Lemma uint64_loop_spec l : forall v,
  bytes_ok l -> 0 <= v < 2 ^ 64 ->
  uint64_loop l v = if be_value v l <? 2 ^ 64 then Some (be_value v l) else None.
Proof.
  induction l as [|b l IH]; intros v Hl Hv; cbn [uint64_loop be_value foldl].
  - by bool_true (v <? 2 ^ 64).
  - inversion Hl as [|? ? Hb Hl']; subst. unfold is_byte in Hb.
    rewrite shiftr_div by lia. fold (be_value (v * 256 + b) l).
    change (2 ^ 64) with 18446744073709551616 in *. change (2 ^ 56) with 72057594037927936.
    destruct (Z.lt_ge_cases v 72057594037927936).
    + rewrite Z.div_small by lia. cbn [Z.eqb negb].
      fold (be_step v b). rewrite (be_step_sum v b 7); [|done|exact (conj (proj1 Hv) H)|lia].
      apply IH; [done|lia].
    + replace (v / 72057594037927936 =? 0) with false.
      2: { symmetry. apply Z.eqb_neq.
           assert (72057594037927936 / 72057594037927936 <= v / 72057594037927936)
             by (apply Z.div_le_mono; lia). rewrite Z.div_same in * by lia. lia. }
      cbn [negb].
      assert (Hge : forall l v, bytes_ok l -> 0 <= v -> v <= be_value v l).
      { clear. induction l as [|b l IH]; intros v Hl Hv; [done|].
        inversion Hl as [|? ? Hb Hl']; subst. unfold is_byte in Hb. cbn [be_value foldl].
        etrans; [|apply IH; [done|lia]]. lia. }
      specialize (Hge l (v * 256 + b) Hl' ltac:(lia)).
      by bool_false (be_value (v * 256 + b) l <? 18446744073709551616).
Qed.

Lemma le_value_rev l : bytes_ok l -> le_value (rev l) = be_value 0 l.
Proof.
  induction l as [|b l IH] using rev_ind; intros Hl; [done|].
  apply Forall_app in Hl as [Hl Hb]. inversion Hb as [|? ? Hbb _]; subst.
  rewrite rev_app_distr, be_value_snoc. cbn [rev app le_value].
  rewrite lor_shiftl_add by (lia || exact Hbb). rewrite IH by done. change (2 ^ 8) with 256. lia.
Qed.

Lemma le_value_app a b : bytes_ok a ->
  le_value (a ++ b) = le_value a + 2 ^ (8 * zlen a) * le_value b.
Proof.
  induction a as [|x a IH]; intros Ha; [by rewrite Z.mul_1_l|].
  inversion Ha as [|? ? Hx Ha']; subst. cbn [app le_value].
  rewrite !lor_shiftl_add by (lia || exact Hx). rewrite IH, zlen_cons by done.
  replace (8 * (zlen a + 1)) with (8 * zlen a + 8) by lia. pose proof (zlen_nonneg a).
  rewrite Z.pow_add_r by lia. change (2 ^ 8) with 256. lia.
Qed.

Lemma le_value_replicate n : le_value (replicate n 255) = 2 ^ (8 * Z.of_nat n) - 1.
Proof.
  induction n as [|n IH]; [done|]. cbn [replicate le_value].
  rewrite lor_shiftl_add by lia. rewrite IH.
  replace (8 * Z.of_nat (S n)) with (8 * Z.of_nat n + 8) by lia.
  rewrite Z.pow_add_r by lia. change (2 ^ 8) with 256. lia.
Qed.

Lemma le_value_zeros n : le_value (replicate n 0) = 0.
Proof. induction n as [|n IH]; [done|]. cbn [replicate le_value]. by rewrite IH. Qed.

(** The top byte decides the sign. *)
Lemma be_value_split b l : bytes_ok (b :: l) ->
  be_value 0 (b :: l) = b * 2 ^ (8 * zlen l) + be_value 0 l /\
  0 <= be_value 0 l < 2 ^ (8 * zlen l).
Proof.
  intros Hl. inversion Hl as [|? ? Hb Hl']; subst. split.
  - cbn [be_value foldl]. change (0 * 256 + b) with b.
    clear Hl Hb. revert b. induction l as [|c l IH] using rev_ind; intros b; [change (zlen (@nil Z)) with 0; cbn; lia|].
    apply Forall_app in Hl' as [Hl' _].
    fold (be_value b (l ++ [c])). rewrite !be_value_snoc. unfold be_value at 1. rewrite IH by done.
    rewrite zlen_app. change (zlen [c]) with 1.
    replace (8 * (zlen l + 1)) with (8 * zlen l + 8) by lia. pose proof (zlen_nonneg l).
    rewrite Z.pow_add_r by lia. change (2 ^ 8) with 256. lia.
  - pose proof (be_value_range l 0 0 Hl' ltac:(done)) as H. exact H.
Qed.

Lemma sign_extend l : bytes_ok l -> l <> [] -> zlen l <= 8 ->
  i64 (le_value (rev l ++ replicate (8 - length l)
        (if (match l with b :: _ => negb (b <? 128) | [] => false end) then 0xff else 0))) =
  signed_be l.
Proof.
  intros Hl Hne Hlen. destruct l as [|b l]; [done|]. clear Hne.
  inversion Hl as [|? ? Hb Hl']; subst. unfold is_byte in Hb.
  destruct (be_value_split b l Hl) as [Hsplit Hr]. rewrite zlen_cons in Hlen.
  pose proof (zlen_nonneg l). set (P := 2 ^ (8 * zlen l)) in *.
  assert (HP : 0 < P) by (apply Z.pow_pos_nonneg; lia).
  assert (E8 : 2 ^ (8 * zlen (b :: l)) = 256 * P).
  { rewrite zlen_cons. replace (8 * (zlen l + 1)) with (8 * zlen l + 8) by lia.
    rewrite Z.pow_add_r by lia. change (2 ^ 8) with 256. unfold P. lia. }
  assert (E64 : 256 * P * 2 ^ (8 * Z.of_nat (8 - length (b :: l))) = 2 ^ 64).
  { rewrite <- E8, <- Z.pow_add_r by (rewrite ?zlen_cons; lia). f_equal.
    unfold zlen in *. cbn [length] in *. lia. }
  set (Q := 2 ^ (8 * Z.of_nat (8 - length (b :: l)))) in *.
  assert (HQ : 1 <= Q) by (unfold Q; pose proof (Z.pow_pos_nonneg 2 (8 * Z.of_nat (8 - length (b :: l)))); lia).
  rewrite le_value_app, le_value_rev; [|done|by apply Forall_rev].
  replace (zlen (rev (b :: l))) with (zlen (b :: l)) by (unfold zlen; by rewrite length_rev).
  rewrite E8, Hsplit. unfold signed_be. rewrite Hsplit, E8. unfold sext, wrap.
  change (2 ^ (64 - 1)) with 9223372036854775808.
  change (2 ^ 64) with 18446744073709551616 in *.
  destruct (Z.ltb_spec b 128); cbn [negb].
  - assert (0 <= b * P <= 127 * P) by nia. assert (256 * P <= 18446744073709551616) by nia.
    rewrite le_value_zeros, Z.mul_0_r, Z.add_0_r, Z.mod_small by lia.
    by bool_true (b * P + be_value 0 l <? 9223372036854775808).
  - assert (128 * P <= b * P <= 255 * P) by nia. assert (256 * P <= 18446744073709551616) by nia.
    rewrite le_value_replicate. fold Q.
    replace (256 * P * (Q - 1)) with (18446744073709551616 - 256 * P) by lia.
    rewrite Z.mod_small by lia.
    bool_false (b * P + be_value 0 l + (18446744073709551616 - 256 * P) <? 9223372036854775808).
    lia.
Qed.

Lemma integer_readers body rest :
  bytes_ok body -> zlen body < 2 ^ 32 ->
  CBS_get_asn1_uint64 (der_element CBS_ASN1_INTEGER body ++ rest) =
    (if minimal_int body && (0 <=? signed_be body) && (be_value 0 body <? 2 ^ 64)
     then Ret (be_value 0 body) rest else Fail rest) /\
  CBS_get_asn1_int64 (der_element CBS_ASN1_INTEGER body ++ rest) =
    (if minimal_int body && (zlen body <=? 8) then Ret (signed_be body) rest else Fail rest).
Proof.
  intros Hok Hb.
  assert (Hget : CBS_get_asn1 CBS_ASN1_INTEGER (der_element CBS_ASN1_INTEGER body ++ rest) = Ret body rest)
    by (by rewrite get_asn1_element).
  unfold CBS_get_asn1_uint64, CBS_get_asn1_int64.
  rewrite !(bind_Ret _ _ _ _ _ Hget). unfold CBS_is_unsigned_asn1_integer.
  rewrite (valid_integer_spec _ Hok). destruct (minimal_int body) eqn:Hmin; cbn [andb negb]; [|done].
  destruct body as [|b l]; [done|]. destruct (be_value_split b l Hok) as [Hsplit Hr].
  inversion Hok as [|? ? Hbb Hok']; subst. unfold is_byte in Hbb.
  assert (Hsign : (0 <=? signed_be (b :: l)) = (b <? 128)).
  { unfold signed_be. pose proof (zlen_nonneg l).
    pose proof (be_value_range (b :: l) 0 0 Hok ltac:(done)) as Hall. cbn [Nat.add] in Hall.
    unfold zlen in *. destruct (Z.ltb_spec b 128); solve_bool. }
  rewrite Hsign. split.
  - destruct (b <? 128); cbn [negb andb]; [|done]. rewrite uint64_loop_spec by done.
    by destruct (_ <? 2 ^ 64).
  - rewrite (Z.leb_antisym 8). destruct (Z.ltb_spec 8 (zlen (b :: l))); cbn [negb]; [done|].
    unfold ret. by rewrite sign_extend.
Qed.

(** ** Theorems *)

(** C4: the DER reader accepts exactly DER.  On any bytes,
    [CBS_get_any_asn1_element] returns, and it succeeds precisely when the input
    begins with the identifier and length octets that the reference encoder of
    X.690 produces (high tag numbers and lengths in their minimal form) followed by
    that many bytes; the element, its tag and its header length are then the ones
    encoded and the rest of the input is left.  Otherwise it returns 0 and the input
    is untouched.  So every element has one encoding only. *)
Theorem der_elements_accepted cbs :
  bytes_ok cbs -> zlen cbs < 2 ^ 63 ->
  match CBS_get_any_asn1_element cbs with
  | Ret el rest => exists tag body, 0 <= tag < 2 ^ 32 /\ zlen body < 2 ^ 32 /\
      el = Element (der_element tag body) tag (zlen (der_header tag (zlen body))) false /\
      cbs = der_element tag body ++ rest
  | Fail s => s = cbs /\ forall tag body rest, 0 <= tag < 2 ^ 32 -> zlen body < 2 ^ 32 ->
      cbs <> der_element tag body ++ rest
  | _ => False
  end.
Proof.
  intros Hok Hlen. pose proof (element_returns false cbs) as Hr.
  pose proof (element_sound cbs) as Hs. unfold CBS_get_any_asn1_element in *.
  destruct (cbs_get_any_asn1_element false cbs) as [el rest|s| |] eqn:E; try done.
  - by apply Hs.
  - split; [done|]. intros tag body rest Ht Hb ->. by rewrite element_complete in E.
Qed.

Lemma der_elements_accepted_witness :
  match CBS_get_any_asn1_element [0x30; 0x03; 0x02; 0x01; 0x05; 0x07] with
  | Ret el rest => exists tag body, 0 <= tag < 2 ^ 32 /\ zlen body < 2 ^ 32 /\
      el = Element (der_element tag body) tag (zlen (der_header tag (zlen body))) false /\
      [0x30; 0x03; 0x02; 0x01; 0x05; 0x07] = der_element tag body ++ rest
  | Fail s => s = [0x30; 0x03; 0x02; 0x01; 0x05; 0x07] /\
      forall tag body rest, 0 <= tag < 2 ^ 32 -> zlen body < 2 ^ 32 ->
      [0x30; 0x03; 0x02; 0x01; 0x05; 0x07] <> der_element tag body ++ rest
  | _ => False
  end.
Proof. apply der_elements_accepted; [repeat constructor; done|done]. Defined.

(** [CBS_get_asn1] inverts the encoding: given an element of the wanted tag it
    returns the contents and leaves what follows (the internal assertion that the
    header can be skipped holds); given an element of another tag it returns 0. *)
Theorem get_asn1_contents tag v body rest :
  0 <= tag < 2 ^ 32 -> zlen body < 2 ^ 32 ->
  CBS_get_asn1 v (der_element tag body ++ rest) = (if tag =? v then Ret body rest else Fail rest) /\
  CBS_get_any_asn1 (der_element tag body ++ rest) = Ret (body, tag) rest /\
  CBS_peek_asn1_tag (der_element tag body ++ rest) v = (v =? tag).
Proof.
  intros Ht Hb. split; [by apply get_asn1_element|]. split.
  - unfold CBS_get_any_asn1, CBS_get_any_asn1_element.
    rewrite (bind_Ret _ _ _ _ _ (element_complete false tag body rest Ht Hb)).
    by rewrite skip_header_ok.
  - unfold CBS_peek_asn1_tag, der_element, der_header. rewrite <- !app_assoc.
    pose proof (zlen_der_tag tag).
    pose proof (zlen_nonneg (der_length (zlen body) ++ body ++ rest)).
    rewrite zlen_app. bool_false (zlen (der_tag tag) + zlen (der_length (zlen body) ++ body ++ rest) <? 1).
    by rewrite parse_tag_complete.
Qed.

Lemma get_asn1_contents_witness :
  CBS_get_asn1 CBS_ASN1_SEQUENCE (der_element CBS_ASN1_SEQUENCE [2; 1; 5] ++ [9]) = Ret [2; 1; 5] [9] /\
  CBS_get_any_asn1 (der_element CBS_ASN1_SEQUENCE [2; 1; 5] ++ [9]) = Ret ([2; 1; 5], CBS_ASN1_SEQUENCE) [9] /\
  CBS_peek_asn1_tag (der_element CBS_ASN1_SEQUENCE [2; 1; 5] ++ [9]) CBS_ASN1_SEQUENCE = true.
Proof. apply (get_asn1_contents CBS_ASN1_SEQUENCE CBS_ASN1_SEQUENCE [2; 1; 5] [9]); done. Defined.

(** DER integers.  On an INTEGER element with the bytes [body],
    [CBS_get_asn1_uint64] returns the number exactly when the bytes are the minimal
    form of a number from 0 to 2^64 - 1, and [CBS_get_asn1_int64] exactly when they
    are the minimal form of a 64-bit two's complement number; in every other case
    they return 0. *)
Theorem get_asn1_integers body rest :
  bytes_ok body -> zlen body < 2 ^ 32 ->
  CBS_get_asn1_uint64 (der_element CBS_ASN1_INTEGER body ++ rest) =
    (if minimal_int body && (0 <=? signed_be body) && (be_value 0 body <? 2 ^ 64)
     then Ret (be_value 0 body) rest else Fail rest) /\
  CBS_get_asn1_int64 (der_element CBS_ASN1_INTEGER body ++ rest) =
    (if minimal_int body && (zlen body <=? 8) then Ret (signed_be body) rest else Fail rest).
Proof. apply integer_readers. Qed.

Lemma get_asn1_integers_witness :
  CBS_get_asn1_uint64 (der_element CBS_ASN1_INTEGER [0xff; 0x38] ++ [1]) =
    (if minimal_int [0xff; 0x38] && (0 <=? signed_be [0xff; 0x38]) && (be_value 0 [0xff; 0x38] <? 2 ^ 64)
     then Ret (be_value 0 [0xff; 0x38]) [1] else Fail [1]) /\
  CBS_get_asn1_int64 (der_element CBS_ASN1_INTEGER [0xff; 0x38] ++ [1]) =
    (if minimal_int [0xff; 0x38] && (zlen [0xff; 0x38] <=? 8) then Ret (signed_be [0xff; 0x38]) [1] else Fail [1]).
Proof. apply (get_asn1_integers [0xff; 0x38] [1]); [repeat constructor; done|done]. Defined.
