(* ===== verification/OsslMem.v ===== *)
(** * BoringSSL's allocator and memory helpers (crypto/mem.c)

    The C library's [malloc] is a parameter: its [n]-th call with a size returns a
    null pointer or a block with that many bytes, whatever they hold.  The callers
    count the allocations they make, so every pattern of failures is covered.  The
    weak hooks (OPENSSL_memory_alloc and its like) are not set in this build.  A
    block is the list of its bytes; the frees of blocks leave nothing to observe. *)
From S2P Require Import Prelude.

Definition OPENSSL_MALLOC_PREFIX : Z := 8.

Section allocator.
Context (malloc : nat -> Z -> option (list Z)).

(** The size is kept in the first eight bytes of the block. *)
Definition OPENSSL_malloc (n : nat) (size : Z) : option (list Z) :=
  if u64 (size + OPENSSL_MALLOC_PREFIX) <? size then None
  else zdrop OPENSSL_MALLOC_PREFIX <$> malloc n (size + OPENSSL_MALLOC_PREFIX).

(** [orig] is the old block, empty for a null pointer. *)
Definition OPENSSL_realloc (n : nat) (orig : list Z) (new_size : Z) : option (list Z) :=
  match OPENSSL_malloc n new_size with
  | None => None
  | Some block =>
      let to_copy := if zlen orig <? new_size then zlen orig else new_size in
      Some (ztake to_copy orig ++ zdrop to_copy block)
  end.

Definition OPENSSL_memdup (n : nat) (data : list Z) : option (list Z) :=
  if zlen data =? 0 then None
  else (fun _ => data) <$> OPENSSL_malloc n (zlen data).

(** The bytes of [s] before the first zero. *)
Fixpoint strnlen_loop (s : list Z) (len : nat) (i : Z) : option Z :=
  match len with
  | O => Some i
  | S k => match s with
           | [] => None
           | b :: r => if b =? 0 then Some i else strnlen_loop r k (i + 1)
           end
  end.
(** [None] when the string ends outside the memory it is in. *)
Definition OPENSSL_strnlen (s : list Z) (len : Z) : option Z :=
  strnlen_loop s (Z.to_nat len) 0.

(** [None] is undefined behaviour, [Some None] the null pointer. *)
Definition OPENSSL_strndup (n : nat) (str : list Z) (size : Z)
    : option (option (list Z)) :=
  match OPENSSL_strnlen str size with
  | None => None
  | Some size =>
      let alloc_size := u64 (size + 1) in
      if alloc_size <? size then Some None
      else Some ((fun _ => ztake size str ++ [0]) <$> OPENSSL_malloc n alloc_size)
  end.

End allocator.

(** The documented behaviour of [malloc]. *)
Definition malloc_spec (malloc : nat -> Z -> option (list Z)) : Prop :=
  forall n size block, malloc n size = Some block -> zlen block = size /\ bytes_ok block.

(** An allocator that never fails below the size of the address space. *)
Definition malloc_total (malloc : nat -> Z -> option (list Z)) : Prop :=
  forall n size, 0 <= size < 2 ^ 63 -> is_Some (malloc n size).

(** ** Lemmas *)

Lemma openssl_malloc_len malloc n size block :
  malloc_spec malloc -> 0 <= size < 2 ^ 64 ->
  OPENSSL_malloc malloc n size = Some block -> zlen block = size /\ bytes_ok block.
Proof.
  intros Hm Hs. unfold OPENSSL_malloc. destruct (_ <? size); [done|].
  intros (b & Hb & ->)%fmap_Some. apply Hm in Hb as [Hl Hok].
  split; [|by apply Forall_drop]. unfold OPENSSL_MALLOC_PREFIX in *.
  rewrite zlen_zdrop; lia.
Qed.

Lemma realloc_spec malloc n orig size block :
  malloc_spec malloc -> zlen orig <= size < 2 ^ 64 ->
  OPENSSL_realloc malloc n orig size = Some block ->
  exists more, block = orig ++ more /\ zlen block = size /\ bytes_ok more.
Proof.
  intros Hm Hs. unfold OPENSSL_realloc. pose proof (zlen_nonneg orig).
  destruct (OPENSSL_malloc malloc n size) as [b|] eqn:E; [|done].
  apply openssl_malloc_len in E as [Hl Hok]; [|done|lia].
  replace (if zlen orig <? size then zlen orig else size) with (zlen orig)
    by (destruct (Z.ltb_spec (zlen orig) size); lia).
  intros [= <-]. exists (zdrop (zlen orig) b).
  replace (ztake (zlen orig) orig) with orig
    by (unfold ztake, zlen; by rewrite Nat2Z.id, firstn_all).
  split; [done|]. split; [|by apply Forall_drop].
  rewrite zlen_app, zlen_zdrop by lia. lia.
Qed.

Lemma realloc_total malloc n orig size :
  malloc_total malloc -> 0 <= size < 2 ^ 62 -> is_Some (OPENSSL_realloc malloc n orig size).
Proof.
  intros Hm Hs. unfold OPENSSL_realloc, OPENSSL_malloc, OPENSSL_MALLOC_PREFIX.
  change (2 ^ 62) with 4611686018427387904 in Hs.
  rewrite wrap_small by (change (2 ^ 64) with 18446744073709551616; lia).
  bool_false (size + 8 <? size).
  destruct (Hm n (size + 8)) as [b ->]; [change (2 ^ 63) with 9223372036854775808; lia|].
  cbn. by eexists.
Qed.

(** An allocator that fills its blocks with a pattern. *)
Definition sample_malloc (n : nat) (size : Z) : option (list Z) :=
  if 0 <=? size then Some (replicate (Z.to_nat size) 0xa5) else None.

Lemma sample_malloc_spec : malloc_spec sample_malloc.
Proof.
  intros n size block. unfold sample_malloc. destruct (Z.leb_spec 0 size); [|done]. intros [= <-].
  split; [unfold zlen; rewrite length_replicate; lia|]. apply Forall_replicate. unfold is_byte. lia.
Qed.
