(* ===== verification/Qsort.v ===== *)
(** * The C library's qsort

    [qsort] is a parameter of the code that calls it.  This file states what the C
    standard says of it: given a comparison that orders the elements of the array,
    the array ends up a permutation of itself in that order.  Elements that compare
    equal come in any order.  An insertion sort shows that the statement can hold. *)
From S2P Require Import Prelude.
From stdpp Require Export sorting.
Global Open Scope Z_scope.

Section qsort.
Context {A : Type}.
Implicit Types cmp : A -> A -> Z.

(** [cmp] is a total order up to equality on the elements of [l]. *)
Definition comparison_ok cmp (l : list A) : Prop :=
  (forall x y, x ∈ l -> y ∈ l -> (cmp x y < 0 <-> 0 < cmp y x)) /\
  (forall x y z, x ∈ l -> y ∈ l -> z ∈ l -> cmp x y <= 0 -> cmp y z <= 0 -> cmp x z <= 0).

Definition cmp_le cmp (x y : A) : Prop := cmp x y <= 0.

Definition qsort_spec (qsort : (A -> A -> Z) -> list A -> list A) : Prop :=
  forall cmp l, comparison_ok cmp l -> qsort cmp l ≡ₚ l /\ Sorted (cmp_le cmp) (qsort cmp l).

Fixpoint insert_by cmp (x : A) (l : list A) : list A :=
  match l with
  | [] => [x]
  | y :: r => if cmp x y <=? 0 then x :: l else y :: insert_by cmp x r
  end.
Definition insertion_sort cmp (l : list A) : list A := foldr (insert_by cmp) [] l.

Lemma insert_by_perm cmp x l : insert_by cmp x l ≡ₚ x :: l.
Proof.
  induction l as [|y r IH]; [done|]. cbn [insert_by]. destruct (_ <=? 0); [done|].
  rewrite IH. constructor.
Qed.

Lemma insertion_sort_perm cmp l : insertion_sort cmp l ≡ₚ l.
Proof. induction l as [|x l IH]; [done|]. cbn [insertion_sort foldr]. by rewrite insert_by_perm, IH. Qed.

Lemma insert_by_head cmp x y l : HdRel (cmp_le cmp) y l -> cmp y x <= 0 ->
  HdRel (cmp_le cmp) y (insert_by cmp x l).
Proof. intros Hl Hx. destruct Hl as [|z l Hz]; cbn; [by constructor|]. destruct (_ <=? 0); by constructor. Qed.

Lemma insert_by_sorted cmp x l :
  (forall y, y ∈ l -> cmp x y < 0 <-> 0 < cmp y x) -> (forall y, y ∈ l -> cmp y x < 0 <-> 0 < cmp x y) ->
  Sorted (cmp_le cmp) l -> Sorted (cmp_le cmp) (insert_by cmp x l).
Proof.
  induction l as [|y r IH]; intros H1 H2 Hs; cbn [insert_by]; [by repeat constructor|].
  destruct (Z.leb_spec (cmp x y) 0) as [Hle|Hlt]; [by constructor; [done|constructor]|].
  apply Sorted_inv in Hs as [Hs Hh]. constructor.
  - apply IH; [intros z Hz; apply H1; by right|intros z Hz; apply H2; by right|done].
  - apply insert_by_head; [done|]. apply Z.lt_le_incl, H2; [by left|done].
Qed.

Lemma insertion_sort_spec : qsort_spec insertion_sort.
Proof.
  intros cmp l [Hanti _]. split; [apply insertion_sort_perm|].
  induction l as [|x l IH]; [constructor|]. cbn [insertion_sort foldr].
  apply insert_by_sorted.
  - intros y Hy. rewrite (insertion_sort_perm cmp l) in Hy. apply Hanti; [by left|by right].
  - intros y Hy. rewrite (insertion_sort_perm cmp l) in Hy. apply Hanti; [by right|by left].
  - apply IH. intros y z Hy Hz. apply Hanti; by right.
Qed.

(** What a comparison says of the elements on one side of [p]'s place. *)
Lemma cmp_above cmp p x y : (forall l, comparison_ok cmp l) ->
  cmp p x < 0 -> cmp x y <= 0 -> cmp p y < 0.
Proof.
  intros Hc Hp Hxy. destruct (Hc [p; x; y]) as [Ha Ht].
  assert (Hi : p ∈ [p; x; y] /\ x ∈ [p; x; y] /\ y ∈ [p; x; y])
    by (repeat split; repeat first [apply list_elem_of_here|apply list_elem_of_further]).
  destruct Hi as (Hip & Hix & Hiy). pose proof (Ht p x y Hip Hix Hiy ltac:(lia) Hxy).
  pose proof (Ht x y p Hix Hiy Hip Hxy) as Hyp.
  pose proof (Ha p y Hip Hiy). pose proof (Ha y p Hiy Hip). pose proof (Ha p x Hip Hix). lia.
Qed.

Lemma cmp_below cmp p x y : (forall l, comparison_ok cmp l) ->
  0 < cmp p y -> cmp x y <= 0 -> 0 < cmp p x.
Proof.
  intros Hc Hp Hxy. destruct (Hc [p; x; y]) as [Ha Ht].
  assert (Hi : p ∈ [p; x; y] /\ x ∈ [p; x; y] /\ y ∈ [p; x; y])
    by (repeat split; repeat first [apply list_elem_of_here|apply list_elem_of_further]).
  destruct Hi as (Hip & Hix & Hiy).
  pose proof (Ht p x y Hip Hix Hiy). lia.
Qed.

Lemma Sorted_weaken (R S : A -> A -> Prop) l : (forall x y, R x y -> S x y) -> Sorted R l -> Sorted S l.
Proof.
  intros H. induction 1 as [|x l Hs IH Hh]; constructor; [done|].
  destruct Hh; constructor; by apply H.
Qed.

End qsort.
