(* ===== verification/Stack.v ===== *)
(** * BoringSSL stacks (crypto/stack/stack.c)

    A [_STACK] is a growable array of pointers with an optional comparison function
    and a flag that says whether the array is known to be sorted.  Pointers are
    64-bit addresses with 0 for null; the stacks that are alive are in a store, so
    that a stack that was freed is a dangling pointer and its use is [Ub].  The
    comparison functions are behind pointers too, because the code compares those:
    [cmp] says what each computes on two elements.  The wrapper [call_cmp_func] that
    the macros of stack.h pass only restores the types, and so do their wrappers for
    copying and freeing. *)
From S2P Require Import Prelude OsslMem.

(** [data] is the whole block, [num] of whose pointers are valid. *)
Record stack_st : Type := Stack {
  num : Z; data : list Z; sorted : Z; num_alloc : Z; comp : option nat }.

Record world : Type := World { w_stacks : gmap nat stack_st; w_allocs : nat }.

Definition kMinSize : Z := 4.
(** On a 64-bit target. *)
Definition sizeof_ptr : Z := 8.
Definition sizeof_STACK : Z := 40.
Definition NULL : Z := 0.

(** ** Access to the store *)

(** Access through a pointer that may be null. *)
Definition get_stack (sk : option nat) : M world (nat * stack_st) := fun w =>
  match sk with
  | None => Ub
  | Some r => match w_stacks w !! r with Some s => Ret (r, s) w | None => Ub end
  end.
Definition put_stack (r : nat) (s : stack_st) : M world unit := modm (fun w =>
  World (<[r := s]> (w_stacks w)) (w_allocs w)).
Definition del_stack (r : nat) : M world unit := modm (fun w =>
  World (delete r (w_stacks w)) (w_allocs w)).
Definition upd_stack (sk : option nat) (f : stack_st -> stack_st) : M world unit :=
  let! x := get_stack sk in put_stack x.1 (f x.2).

Definition set_num (n : Z) (s : stack_st) : stack_st :=
  Stack n (data s) (sorted s) (num_alloc s) (comp s).
Definition set_data (l : list Z) (s : stack_st) : stack_st :=
  Stack (num s) l (sorted s) (num_alloc s) (comp s).
Definition set_sorted (b : Z) (s : stack_st) : stack_st :=
  Stack (num s) (data s) b (num_alloc s) (comp s).
Definition set_block (l : list Z) (n : Z) (s : stack_st) : stack_st :=
  Stack (num s) l (sorted s) n (comp s).
Definition set_comp (c : option nat) (s : stack_st) : stack_st :=
  Stack (num s) (data s) (sorted s) (num_alloc s) c.

(** Loads and stores of [n] and of [length l] pointers. *)
Definition load_ptrs (sk : option nat) (i n : Z) : M world (list Z) :=
  let! x := get_stack sk in of_opt (slice (data x.2) i n).
Definition store_ptrs (sk : option nat) (i : Z) (l : list Z) : M world unit :=
  let! x := get_stack sk in
  let! d := of_opt (overwrite (data x.2) i l) in
  put_stack x.1 (set_data d x.2).
Definition load_ptr (sk : option nat) (i : Z) : M world Z :=
  let! x := get_stack sk in
  of_opt (if 0 <=? i then data x.2 !! Z.to_nat i else None).

(** The pointers in a block of bytes, and the bytes of pointers. *)
Fixpoint ptrs_of (n : nat) (bytes : list Z) : list Z :=
  match n with
  | O => []
  | S k => le_value (take 8 bytes) :: ptrs_of k (drop 8 bytes)
  end.
Definition ptr_bytes (l : list Z) : list Z := concat (le_bytes 8 <$> l).

Section stack.
Context (malloc : nat -> Z -> option (list Z)).
Context (cmp : nat -> Z -> Z -> Z).
Context (qsort : (Z -> Z -> Z) -> list Z -> list Z).

Definition alloc (size : Z) : M world (option (list Z)) := fun w =>
  Ret (OPENSSL_malloc malloc (w_allocs w) size) (World (w_stacks w) (S (w_allocs w))).
Definition realloc (orig : list Z) (size : Z) : M world (option (list Z)) := fun w =>
  Ret (OPENSSL_realloc malloc (w_allocs w) orig size) (World (w_stacks w) (S (w_allocs w))).

(** ** Creation and destruction *)

(** [OPENSSL_memset(ret, 0, sizeof(_STACK))]. *)
Definition zero_stack : stack_st := Stack 0 [] 0 0 None.

Definition sk_free (sk : option nat) : M world unit :=
  match sk with
  | None => ret tt
  | Some _ => let! x := get_stack sk in del_stack x.1
  end.

Definition new_stack : M world (option nat) :=
  let! block := alloc sizeof_STACK in
  match block with
  | None => ret None
  | Some _ =>
      let! w := getm in
      let r := new_ref (w_stacks w) in
      put_stack r zero_stack ;;! ret (Some r)
  end.

Definition sk_new (c : option nat) : M world (option nat) :=
  let! ret_ := new_stack in
  match ret_ with
  | None => ret None
  | Some r =>
      let! block := alloc (sizeof_ptr * kMinSize) in
      match block with
      | None => del_stack r ;;! ret None
      | Some _ =>
          upd_stack (Some r) (set_data (replicate (Z.to_nat kMinSize) NULL)) ;;!
          upd_stack (Some r) (set_comp c) ;;!
          upd_stack (Some r) (fun s => set_block (data s) kMinSize s) ;;!
          ret (Some r)
      end
  end.

Definition sk_new_null : M world (option nat) := sk_new None.

(** ** Elements *)

Definition sk_num (sk : option nat) : M world Z :=
  match sk with None => ret 0 | Some _ => let! x := get_stack sk in ret (num x.2) end.

Definition sk_zero (sk : option nat) : M world unit :=
  match sk with
  | None => ret tt
  | Some _ =>
      let! x := get_stack sk in
      if num x.2 =? 0 then ret tt
      else
        store_ptrs sk 0 (replicate (Z.to_nat (num x.2)) NULL) ;;!
        upd_stack sk (fun s => set_sorted 0 (set_num 0 s))
  end.

Definition sk_value (sk : option nat) (i : Z) : M world Z :=
  match sk with
  | None => ret NULL
  | Some _ =>
      let! x := get_stack sk in
      if num x.2 <=? i then ret NULL else load_ptr sk i
  end.

Definition sk_set (sk : option nat) (i value : Z) : M world Z :=
  match sk with
  | None => ret NULL
  | Some _ =>
      let! x := get_stack sk in
      if num x.2 <=? i then ret NULL
      else store_ptrs sk i [value] ;;! ret value
  end.

(** The elements [free_func] is called on, in order, from index [i] on. *)
Fixpoint free_loop (k : nat) (sk : option nat) (i : Z) : M world (list Z) :=
  match k with
  | O => ret []
  | S k =>
      let! elem := load_ptr sk i in
      let! l := free_loop k sk (i + 1) in
      ret (if negb (elem =? NULL) then elem :: l else l)
  end.

(** Returns the elements that were freed. *)
Definition sk_pop_free_ex (sk : option nat) : M world (list Z) :=
  match sk with
  | None => ret []
  | Some _ =>
      let! x := get_stack sk in
      let! freed := free_loop (Z.to_nat (num x.2)) sk 0 in
      sk_free sk ;;!
      ret freed
  end.
Definition sk_pop_free (sk : option nat) : M world (list Z) := sk_pop_free_ex sk.

(** The size of the array after a growth, and in bytes; [None] when both the doubling
    and the increment overflow. *)
Definition grown (n : Z) : option (Z * Z) :=
  let overflows a size := (a <? n) || negb (size / sizeof_ptr =? a) in
  let new_alloc := u64 (Z.shiftl n 1) in
  let alloc_size := u64 (new_alloc * sizeof_ptr) in
  let '(new_alloc, alloc_size) :=
    if overflows new_alloc alloc_size
    then (u64 (n + 1), u64 (u64 (n + 1) * sizeof_ptr)) else (new_alloc, alloc_size) in
  if overflows new_alloc alloc_size then None else Some (new_alloc, alloc_size).

(** Whether there is room for one more pointer. *)
Definition make_room (sk : option nat) : M world bool :=
  let! x := get_stack sk in
  let s := x.2 in
  if num_alloc s <=? u64 (num s + 1) then
    match grown (num_alloc s) with
    | None => ret false
    | Some (new_alloc, alloc_size) =>
        let! block := realloc (ptr_bytes (data s)) alloc_size in
        match block with
        | None => ret false
        | Some block =>
            upd_stack sk (set_block (ptrs_of (Z.to_nat new_alloc) block) new_alloc) ;;!
            ret true
        end
    end
  else ret true.

Definition sk_insert (sk : option nat) (p where_ : Z) : M world Z :=
  match sk with
  | None => ret 0
  | Some _ =>
      let! ok := make_room sk in
      if negb ok then ret 0
      else
        let! x := get_stack sk in
        let n := num x.2 in
        (if n <=? where_ then store_ptrs sk n [p]
         else
           let! moved := load_ptrs sk where_ (n - where_) in
           store_ptrs sk (where_ + 1) moved ;;!
           store_ptrs sk where_ [p]) ;;!
        upd_stack sk (fun s => set_num (u64 (num s + 1)) s) ;;!
        upd_stack sk (set_sorted 0) ;;!
        let! x := get_stack sk in
        ret (num x.2)
  end.

Definition sk_delete (sk : option nat) (where_ : Z) : M world Z :=
  match sk with
  | None => ret NULL
  | Some _ =>
      let! x := get_stack sk in
      let n := num x.2 in
      if n <=? where_ then ret NULL
      else
        let! ret_ := load_ptr sk where_ in
        (if negb (where_ =? n - 1) then
           let! moved := load_ptrs sk (where_ + 1) (n - where_ - 1) in
           store_ptrs sk where_ moved
         else ret tt) ;;!
        upd_stack sk (fun s => set_num (u64 (num s - 1)) s) ;;!
        ret ret_
  end.

Fixpoint delete_loop (k : nat) (sk : option nat) (p i : Z) : M world Z :=
  match k with
  | O => ret NULL
  | S k =>
      let! elem := load_ptr sk i in
      if elem =? p then sk_delete sk i else delete_loop k sk p (i + 1)
  end.

Definition sk_delete_ptr (sk : option nat) (p : Z) : M world Z :=
  match sk with
  | None => ret NULL
  | Some _ => let! x := get_stack sk in delete_loop (Z.to_nat (num x.2)) sk p 0
  end.

Definition sk_shift (sk : option nat) : M world Z :=
  match sk with
  | None => ret NULL
  | Some _ => let! x := get_stack sk in
              if num x.2 =? 0 then ret NULL else sk_delete sk 0
  end.

(** The index is read before the call: a null [sk] is dereferenced. *)
Definition sk_push (sk : option nat) (p : Z) : M world Z :=
  let! x := get_stack sk in sk_insert sk p (num x.2).

Definition sk_pop (sk : option nat) : M world Z :=
  match sk with
  | None => ret NULL
  | Some _ => let! x := get_stack sk in
              if num x.2 =? 0 then ret NULL else sk_delete sk (u64 (num x.2 - 1))
  end.

(** ** Searching and sorting *)

Definition sk_is_sorted (sk : option nat) : M world Z :=
  match sk with None => ret 1 | Some _ => let! x := get_stack sk in ret (sorted x.2) end.

(** The first of [k] elements from index [i] on that [found] holds of. *)
Fixpoint find_loop (k : nat) (sk : option nat) (found : Z -> bool) (i : Z) : M world (option Z) :=
  match k with
  | O => ret None
  | S k =>
      let! elem := load_ptr sk i in
      if found elem then ret (Some i) else find_loop k sk found (i + 1)
  end.

(** A failed assertion is [Ub]. *)
Fixpoint search_loop (fuel : nat) (sk : option nat) (f : nat) (p lo hi : Z) : M world (option Z) :=
  match fuel with
  | O => nofuelm
  | S k =>
      if lo <? hi then
        let mid := lo + (hi - lo - 1) / 2 in
        if negb ((lo <=? mid) && (mid <? hi)) then ubm
        else
          let! elem := load_ptr sk mid in
          let r := cmp f p elem in
          if 0 <? r then search_loop k sk f p (mid + 1) hi
          else if r <? 0 then search_loop k sk f p lo mid
          else if hi - lo =? 1 then ret (Some mid)
          else if negb (mid + 1 <? hi) then ubm
          else search_loop k sk f p lo (mid + 1)
      else if lo =? hi then ret None else ubm
  end.

(** [*out_index] when the result is 1. *)
Definition sk_find (sk : option nat) (p : Z) : M world (option Z) :=
  match sk with
  | None => ret None
  | Some _ =>
      let! x := get_stack sk in
      let n := Z.to_nat (num x.2) in
      match comp x.2 with
      | None => find_loop n sk (fun elem => elem =? p) 0
      | Some f =>
          if p =? NULL then ret None
          else
            let! is_sorted := sk_is_sorted sk in
            if is_sorted =? 0 then find_loop n sk (fun elem => cmp f p elem =? 0) 0
            else search_loop (S n) sk f p 0 (num x.2)
      end
  end.

Definition sk_sort (sk : option nat) : M world unit :=
  match sk with
  | None => ret tt
  | Some _ =>
      let! x := get_stack sk in
      match comp x.2 with
      | None => ret tt
      | Some f =>
          if negb (sorted x.2 =? 0) then ret tt
          else
            (if 2 <=? num x.2 then
               let! l := load_ptrs sk 0 (num x.2) in
               store_ptrs sk 0 (qsort (cmp f) l)
             else ret tt) ;;!
            upd_stack sk (set_sorted 1)
      end
  end.

(** Whether two function pointers, null or not, are the same. *)
Definition same_func (a b : option nat) : bool := bool_decide (a = b).

(** Returns the previous function. *)
Definition sk_set_cmp_func (sk : option nat) (c : option nat) : M world (option nat) :=
  let! x := get_stack sk in
  let old := comp x.2 in
  (if negb (same_func old c) then upd_stack sk (set_sorted 0) else ret tt) ;;!
  upd_stack sk (set_comp c) ;;!
  ret old.

(** ** Copies *)

Definition sk_dup (sk : option nat) : M world (option nat) :=
  match sk with
  | None => ret None
  | Some _ =>
      let! ret_ := new_stack in
      match ret_ with
      | None => ret None
      | Some r =>
          let! x := get_stack sk in
          let s := x.2 in
          let! block := alloc (u64 (sizeof_ptr * num_alloc s)) in
          match block with
          | None => sk_free (Some r) ;;! ret None
          | Some block =>
              upd_stack (Some r) (set_data (ptrs_of (length block / 8) block)) ;;!
              upd_stack (Some r) (set_num (num s)) ;;!
              let! l := load_ptrs sk 0 (num s) in
              store_ptrs (Some r) 0 l ;;!
              upd_stack (Some r) (set_sorted (sorted s)) ;;!
              upd_stack (Some r) (fun t => set_block (data t) (num_alloc s) t) ;;!
              upd_stack (Some r) (set_comp (comp s)) ;;!
              ret (Some r)
          end
      end
  end.

(** [copy i p] is what [copy_func] returns on the element [p] at index [i]. *)
Context (copy : Z -> Z -> Z).

(** The loop from index [i] on: whether all copies were made, and what was freed. *)
Fixpoint copy_loop (k : nat) (sk : option nat) (i : Z) : M world (bool * list Z) :=
  match k with
  | O => ret (true, [])
  | S k =>
      let! elem := load_ptr sk i in
      if elem =? NULL then copy_loop k sk (i + 1)
      else
        store_ptrs sk i [copy i elem] ;;!
        let! elem := load_ptr sk i in
        if elem =? NULL then
          let! freed := free_loop (Z.to_nat i) sk 0 in
          sk_free sk ;;!
          ret (false, freed)
        else copy_loop k sk (i + 1)
  end.

(** The new stack, null on error, and the copies that were freed. *)
Definition sk_deep_copy (sk : option nat) : M world (option nat * list Z) :=
  let! ret_ := sk_dup sk in
  match ret_ with
  | None => ret (None, [])
  | Some _ =>
      let! x := get_stack ret_ in
      let! done_ := copy_loop (Z.to_nat (num x.2)) ret_ 0 in
      ret (if done_.1 then ret_ else None, done_.2)
  end.

End stack.
