(* ===== verification/StackSpec.v ===== *)
(** * BoringSSL stacks: theorems

    A stack against a list with a mark for sortedness; searching; copies. *)
From S2P Require Import Prelude OsslMem Qsort Stack.

(** ** The abstract stack *)

(** The elements, whether they are known to be sorted, and the comparison function. *)
Record alist : Type := AList { items : list Z; marked : bool; order : option nat }.

Definition word (p : Z) : Prop := 0 <= p < 2 ^ 64.

(** The index of the first element that satisfies [P], counted from [i]. *)
Fixpoint find_from (P : Z -> bool) (l : list Z) (i : Z) : option Z :=
  match l with
  | [] => None
  | x :: r => if P x then Some i else find_from P r (i + 1)
  end.

Inductive call : Type :=
| Num | Value (i : Z) | Set_ (i value : Z) | Zero
| Insert (p i : Z) | Push (p : Z) | Delete (i : Z) | DeletePtr (p : Z) | Shift | Pop
| Find (p : Z) | Sort | IsSorted | SetCmp (c : option nat).

Inductive reply : Type :=
| RNum (n : Z) | RPtr (p : Z) | RIndex (i : option Z) | RDone | RFunc (f : option nat).

(** ** Arrays of pointers *)

Lemma ptr_bytes_length l : zlen (ptr_bytes l) = 8 * zlen l.
Proof.
  induction l as [|p l IH]; [done|]. unfold ptr_bytes in *. cbn [fmap list_fmap concat].
  rewrite zlen_app, IH, zlen_cons. unfold zlen at 1. rewrite le_bytes_length. lia.
Qed.

(** A reallocated block starts with the old pointers. *)
Lemma ptrs_of_bytes l k more : Forall word l ->
  ptrs_of (length l + k) (ptr_bytes l ++ more) = l ++ ptrs_of k more.
Proof.
  induction 1 as [|p l Hp _ IH]; [done|]. unfold ptr_bytes in *.
  cbn [fmap list_fmap concat length Nat.add ptrs_of app]. rewrite <- app_assoc.
  pose proof (le_bytes_length 8 p) as Hl.
  rewrite take_app_length' by done. rewrite drop_app_length' by done. rewrite IH, le_value_bytes.
  unfold word in Hp. by rewrite wrap_small.
Qed.

Lemma ptrs_of_length k : forall bytes, length (ptrs_of k bytes) = k.
Proof. induction k as [|k IH]; intros bytes; [done|]. cbn [ptrs_of length]. by rewrite IH. Qed.

Lemma ptrs_of_words k : forall bytes, bytes_ok bytes -> Forall word (ptrs_of k bytes).
Proof.
  induction k as [|k IH]; intros bytes Hb; cbn [ptrs_of]; constructor; [|by apply IH, Forall_drop].
  pose proof (le_value_range (take 8 bytes) ltac:(by apply Forall_take)) as Hr.
  split; [apply Hr|]. eapply Z.lt_le_trans; [apply Hr|]. apply Z.pow_le_mono_r; [done|].
  unfold zlen. rewrite length_take. lia.
Qed.

Lemma grown_spec n : 0 < n < 2 ^ 61 ->
  match grown n with
  | Some (m, size) => n < m < 2 ^ 61 /\ m <= 2 * n /\ size = 8 * m
  | None => n = 2 ^ 61 - 1
  end.
Proof.
  intros Hn. unfold grown, sizeof_ptr. cbn zeta.
  rewrite Z.shiftl_mul_pow2 by lia. change (2 ^ 1) with 2.
  change (2 ^ 61) with 2305843009213693952 in *.
  rewrite (wrap_small 64 (n * 2)) by (change (2 ^ 64) with 18446744073709551616; lia).
  rewrite (wrap_small 64 (n + 1)) by (change (2 ^ 64) with 18446744073709551616; lia).
  assert (Hw : forall a, n < a <= 2 * n ->
    (a <? n) || negb (u64 (a * 8) / 8 =? a) = negb (a <? 2305843009213693952)).
  { intros a Ha. bool_false (a <? n). cbn [orb]. f_equal. unfold wrap.
    change (2 ^ 64) with 18446744073709551616.
    destruct (Z.ltb_spec a 2305843009213693952); [|symmetry; symmetry; apply Z.eqb_neq];
      [apply Z.eqb_eq|]; Z.to_euclidean_division_equations; lia. }
  assert (Hs : forall a, n < a < 2305843009213693952 -> u64 (a * 8) = 8 * a).
  { intros a Ha. rewrite wrap_small by (change (2 ^ 64) with 18446744073709551616; lia). lia. }
  rewrite Hw by lia. destruct (Z.ltb_spec (n * 2) 2305843009213693952); cbn [negb].
  - rewrite Hw by lia. bool_true (n * 2 <? 2305843009213693952). cbn [negb]. rewrite Hs by lia. lia.
  - rewrite Hw by lia. destruct (Z.ltb_spec (n + 1) 2305843009213693952); cbn [negb]; [rewrite Hs by lia|]; lia.
Qed.

Section stack.
Context (malloc : nat -> Z -> option (list Z)) (Hmalloc : malloc_spec malloc).
Context (cmp : nat -> Z -> Z -> Z) (Hcmp : forall f l, comparison_ok (cmp f) l).
Context (qsort : (Z -> Z -> Z) -> list Z -> list Z) (Hqsort : qsort_spec qsort).

(** The call on the stack at [r]. *)
Definition exec (r : nat) (c : call) : M world reply :=
  let sk := Some r in
  match c with
  | Num => let! n := sk_num sk in ret (RNum n)
  | Value i => let! p := sk_value sk i in ret (RPtr p)
  | Set_ i v => let! p := sk_set sk i v in ret (RPtr p)
  | Zero => sk_zero sk ;;! ret RDone
  | Insert p i => let! n := sk_insert malloc sk p i in ret (RNum n)
  | Push p => let! n := sk_push malloc sk p in ret (RNum n)
  | Delete i => let! p := sk_delete sk i in ret (RPtr p)
  | DeletePtr p => let! p := sk_delete_ptr sk p in ret (RPtr p)
  | Shift => let! p := sk_shift sk in ret (RPtr p)
  | Pop => let! p := sk_pop sk in ret (RPtr p)
  | Find p => let! i := sk_find cmp sk p in ret (RIndex i)
  | Sort => sk_sort cmp qsort sk ;;! ret RDone
  | IsSorted => let! n := sk_is_sorted sk in ret (RNum n)
  | SetCmp c => let! f := sk_set_cmp_func sk c in ret (RFunc f)
  end.

Definition at_ (l : list Z) (i : Z) : Z := nth (Z.to_nat i) l NULL.
Definition with_items (l : list Z) (a : alist) : alist := AList l (marked a) (order a).

Definition insert_items (p i : Z) (a : alist) : reply * alist :=
  (RNum (zlen (items a) + 1), AList (ztake i (items a) ++ p :: zdrop i (items a)) false (order a)).
Definition delete_item (i : Z) (a : alist) : reply * alist :=
  if i <? zlen (items a)
  then (RPtr (at_ (items a) i), with_items (ztake i (items a) ++ zdrop (i + 1) (items a)) a)
  else (RPtr NULL, a).
(** The order of the stack if it has one, and equality of pointers otherwise. *)
Definition equals (a : alist) (p elem : Z) : bool :=
  match order a with
  | None => elem =? p
  | Some f => negb (p =? NULL) && (cmp f p elem =? 0)
  end.

(** What a call returns and leaves. *)
Definition spec (a : alist) (c : call) : reply * alist :=
  let l := items a in
  match c with
  | Num => (RNum (zlen l), a)
  | Value i => (RPtr (at_ l i), a)
  | Set_ i v =>
      if i <? zlen l then (RPtr v, with_items (ztake i l ++ v :: zdrop (i + 1) l) a) else (RPtr NULL, a)
  | Zero => (RDone, if zlen l =? 0 then a else AList [] false (order a))
  | Insert p i => insert_items p i a
  | Push p => insert_items p (zlen l) a
  | Delete i => delete_item i a
  | DeletePtr p =>
      match find_from (fun elem => elem =? p) l 0 with
      | Some i => delete_item i a
      | None => (RPtr NULL, a)
      end
  | Shift => delete_item 0 a
  | Pop => if zlen l =? 0 then (RPtr NULL, a) else delete_item (zlen l - 1) a
  | Find p => (RIndex (find_from (equals a p) l 0), a)
  | Sort =>
      (RDone, match order a with
              | Some f => if marked a then a
                          else AList (if 2 <=? zlen l then qsort (cmp f) l else l) true (order a)
              | None => a
              end)
  | IsSorted => (RNum (if marked a then 1 else 0), a)
  | SetCmp c => (RFunc (order a), AList l (marked a && bool_decide (order a = c)) c)
  end.

(** An insertion can be refused; it then changes nothing. *)
Definition adds (c : call) : bool := match c with Insert _ _ | Push _ => true | _ => false end.
Definition refused (a : alist) : Prop := ~ (malloc_total malloc /\ zlen (items a) < 2 ^ 57).

Inductive step (a : alist) (c : call) : reply -> alist -> Prop :=
| step_done : step a c (spec a c).1 (spec a c).2
| step_refused : adds c = true -> refused a -> step a c (RNum 0) a.

(** Sorted by the function behind [order]. *)
Definition in_order (o : option nat) (l : list Z) : Prop :=
  match o with Some f => Sorted (cmp_le (cmp f)) l | None => False end.

(** The arguments have their C types, and a stack that is marked as sorted is not
    brought out of order behind its back: [sk_set] does not reset the mark. *)
Definition legal (a : alist) (c : call) : Prop :=
  match c with
  | Value i | Delete i => 0 <= i < 2 ^ 64
  | Insert p i => word p /\ 0 <= i < 2 ^ 64
  | Push p | DeletePtr p | Find p => word p
  | Set_ i v => 0 <= i < 2 ^ 64 /\ word v /\
      (marked a = true -> in_order (order a) (items (spec a c).2))
  | _ => True
  end.

(** ** The representation *)

Record holds (s : stack_st) (a : alist) : Prop := {
  holds_data : exists junk, data s = items a ++ junk;
  holds_num : num s = zlen (items a);
  holds_alloc : num_alloc s = zlen (data s);
  holds_room : num s < num_alloc s < 2 ^ 61;
  holds_words : Forall word (data s);
  holds_sorted : sorted s = if marked a then 1 else 0;
  holds_comp : comp s = order a;
  holds_order : marked a = true -> in_order (order a) (items a) }.

Definition rep (w : world) (r : nat) (a : alist) : Prop :=
  exists s, w_stacks w !! r = Some s /\ holds s a.

(** ** Steps on one stack of the store *)

Context (r : nat).

Definition put (w : world) (s : stack_st) (n : nat) : world := World (<[r := s]> (w_stacks w)) n.

Lemma put_self w s : w_stacks w !! r = Some s -> put w s (w_allocs w) = w.
Proof. intros H. unfold put. rewrite insert_id by done. by destruct w. Qed.

Lemma get_put w s n : get_stack (Some r) (put w s n) = Ret (r, s) (put w s n).
Proof. unfold get_stack, put. cbn [w_stacks]. by rewrite lookup_insert_eq. Qed.

Lemma upd_put w s n f : upd_stack (Some r) f (put w s n) = Ret tt (put w (f s) n).
Proof.
  unfold upd_stack. rewrite (bind_Ret _ _ _ _ _ (get_put w s n)). unfold put_stack, modm, put.
  cbn [w_stacks w_allocs fst snd]. by rewrite insert_insert_eq.
Qed.

Lemma load_put w s n i x : 0 <= i -> data s !! Z.to_nat i = Some x ->
  load_ptr (Some r) i (put w s n) = Ret x (put w s n).
Proof.
  intros Hi Hx. unfold load_ptr. rewrite (bind_Ret _ _ _ _ _ (get_put w s n)). cbn [snd].
  bool_true (0 <=? i). by rewrite Hx.
Qed.

Lemma loads_put w s n i k l : slice (data s) i k = Some l ->
  load_ptrs (Some r) i k (put w s n) = Ret l (put w s n).
Proof. intros Hl. unfold load_ptrs. rewrite (bind_Ret _ _ _ _ _ (get_put w s n)). cbn [snd]. by rewrite Hl. Qed.

Lemma stores_put w s n i l d : overwrite (data s) i l = Some d ->
  store_ptrs (Some r) i l (put w s n) = Ret tt (put w (set_data d s) n).
Proof.
  intros Hd. unfold store_ptrs. rewrite (bind_Ret _ _ _ _ _ (get_put w s n)). cbn [fst snd].
  rewrite Hd. unfold of_opt, bind, put_stack, modm, put. cbn [w_stacks w_allocs].
  by rewrite insert_insert_eq.
Qed.

Lemma realloc_put w s n orig size : realloc malloc orig size (put w s n) =
  Ret (OPENSSL_realloc malloc n orig size) (put w s (S n)).
Proof. done. Qed.

(** [m] on the stack [s] returns [x] and leaves [a']. *)
Definition returns {A} (m : M world A) (s : stack_st) (x : A) (a' : alist) : Prop :=
  forall w n, exists s' n', m (put w s n) = Ret x (put w s' n') /\ holds s' a'.

Lemma returns_ret {A} (x : A) s a : holds s a -> returns (ret x) s x a.
Proof. intros H w n. by exists s, n. Qed.

Lemma returns_map {A B} (m : M world A) (f : A -> B) s x a :
  returns m s x a -> returns (let! y := m in ret (f y)) s (f x) a.
Proof.
  intros H w n. destruct (H w n) as (s' & n' & E & Hs). exists s', n'. by rewrite (bind_Ret _ _ _ _ _ E).
Qed.

Lemma returns_get {A} (k : nat * stack_st -> M world A) s x a :
  returns (k (r, s)) s x a -> returns (bind (get_stack (Some r)) k) s x a.
Proof. intros H w n. by rewrite (bind_Ret _ _ _ _ _ (get_put w s n)). Qed.

Lemma split_at l (i : Z) : 0 <= i < zlen l ->
  exists pre (x : Z) post, l = pre ++ x :: post /\ zlen pre = i /\
    ztake i l = pre /\ zdrop (i + 1) l = post /\ at_ l i = x.
Proof.
  intros Hi. destruct (lookup_lt_is_Some_2 l (Z.to_nat i)) as [x Hx]; [unfold zlen in Hi; lia|].
  pose proof (take_drop_middle _ _ _ Hx) as E. exists (take (Z.to_nat i) l), x, (drop (S (Z.to_nat i)) l).
  split; [done|]. split; [unfold zlen in *; rewrite length_take; lia|]. split; [done|].
  split; [unfold zdrop; by replace (Z.to_nat (i + 1)) with (S (Z.to_nat i)) by lia|].
  unfold at_. apply nth_lookup_Some with (d := NULL) in Hx. done.
Qed.

(** ** Deletion *)

Lemma Sorted_sublist f l k : l `sublist_of` k -> Sorted (cmp_le (cmp f)) k -> Sorted (cmp_le (cmp f)) l.
Proof using Hcmp.
  intros Hsub Hs. assert (Ht : Transitive (cmp_le (cmp f))).
  { intros x y z. apply (Hcmp f [x; y; z]); repeat first [apply list_elem_of_here|apply list_elem_of_further]. }
  apply Sorted_StronglySorted in Hs; [|exact Ht]. apply StronglySorted_Sorted.
  revert l Hsub. induction Hs as [|x k Hs IH Hf]; intros l Hsub.
  - apply sublist_nil_r in Hsub as ->. constructor.
  - inversion_clear Hsub as [|l' ? ? H|l' ? ? H]; [|by apply IH].
    constructor; [by apply IH|]. apply Forall_forall. intros y Hy.
    eapply Forall_forall; [exact Hf|]. by eapply elem_of_sublist.
Qed.

Lemma delete_returns s a i : holds s a -> 0 <= i < 2 ^ 64 ->
  returns (sk_delete (Some r) i) s
    (match (delete_item i a).1 with RPtr p => p | _ => NULL end) (delete_item i a).2.
Proof using Hcmp.
  intros Hs Hi. unfold sk_delete, delete_item. apply returns_get. cbn [snd].
  pose proof Hs as [[junk Ed] En Ea Hr Hw Hso Hc Ho]. rewrite En.
  destruct (Z.leb_spec (zlen (items a)) i); [bool_false (i <? zlen (items a)); by apply returns_ret|].
  bool_true (i <? zlen (items a)). cbn [fst snd].
  destruct (split_at (items a) i) as (pre & x & post & El & Epre & -> & -> & ->); [lia|].
  assert (Hn : zlen (items a) = i + 1 + zlen post) by (rewrite El, zlen_app, zlen_cons; lia).
  pose proof (zlen_nonneg post) as Hpost.
  destruct (exists_last (l := x :: post)) as (old & z & Eold); [done|].
  assert (Hold : zlen old = zlen post).
  { apply (f_equal zlen) in Eold. rewrite zlen_cons, zlen_app in Eold. change (zlen [z]) with 1 in Eold. lia. }
  assert (Hdata : data s = pre ++ old ++ (z :: junk)).
  { rewrite Ed, El, <- app_assoc. cbn [app]. f_equal. change (x :: post ++ junk) with ((x :: post) ++ junk).
    by rewrite Eold, <- app_assoc. }
  intros w n. rewrite (bind_Ret _ _ _ _ _ (load_put w s n i x ltac:(lia) ltac:(
    rewrite Ed, El, <- app_assoc, lookup_app_r by (unfold zlen in Epre; lia);
    by replace (Z.to_nat i - length pre)%nat with 0%nat by (unfold zlen in Epre; lia)))).
  assert (Hnum : u64 (num s - 1) = i + zlen post).
  { rewrite En, Hn. change (2 ^ 61) with 2305843009213693952 in Hr.
    rewrite wrap_small by (change (2 ^ 64) with 18446744073709551616; lia). lia. }
  assert (Hitems : zlen (pre ++ post) = i + zlen post) by (rewrite zlen_app; lia).
  assert (Hok : forall d j, d = (pre ++ post) ++ j -> zlen d = zlen (data s) -> Forall word d ->
    holds (set_num (u64 (num s - 1)) (set_data d s)) (with_items (pre ++ post) a)).
  { intros d j Hd Hlen Hwd. split; cbn [set_num set_data data num num_alloc sorted comp with_items items marked order];
      rewrite ?Hnum, ?Hlen; try done; [by exists j|lia|].
    intros Hm. specialize (Ho Hm). destruct (order a) as [f|]; [|done]. cbn [in_order] in *.
    eapply Sorted_sublist; [|exact Ho]. rewrite El. apply sublist_app; [done|by apply sublist_cons]. }
  destruct (Z.eqb_spec i (zlen (items a) - 1)) as [Hlast|Hlast]; cbn [negb].
  - assert (post = []) as -> by (apply length_zero_iff_nil; unfold zlen in *; lia).
    rewrite bind_ret, (bind_Ret _ _ _ _ _ (upd_put w s n _)).
    exists (set_num (u64 (num s - 1)) (set_data (data s) s)), n. split; [by destruct s|].
    apply (Hok _ (x :: junk)); [|done|done]. rewrite Ed, El, app_nil_r, <- app_assoc. done.
  - assert (Hmv : slice (data s) (i + 1) (zlen (items a) - i - 1) = Some post).
    { replace (data s) with ((pre ++ [x]) ++ post ++ junk) by (by rewrite Ed, El, <- !app_assoc).
      apply slice_app; [rewrite zlen_app; change (zlen [x]) with 1; lia|lia]. }
    rewrite bind_assoc, (bind_Ret _ _ _ _ _ (loads_put w s n _ _ _ Hmv)).
    assert (Hst : overwrite (data s) i post = Some (pre ++ post ++ z :: junk))
      by (rewrite Hdata; by apply overwrite_app).
    rewrite (bind_Ret _ _ _ _ _ (stores_put w s n _ _ _ Hst)), (bind_Ret _ _ _ _ _ (upd_put w _ n _)).
    eexists _, n. split; [reflexivity|]. cbn [num set_data]. apply (Hok _ (z :: junk)).
    + by rewrite <- app_assoc.
    + rewrite Hdata, !zlen_app. lia.
    + rewrite Hdata in Hw. rewrite Ed, El in *. clear -Hw Eold Hdata.
      rewrite !Forall_app in *. destruct Hw as (H1 & H2 & H3). split; [done|]. split; [|done].
      rewrite Forall_cons in H3. destruct H3. assert (Hxp : Forall word (x :: post)) by (rewrite Eold, Forall_app; split; [done|by constructor]).
      by inversion Hxp.
Qed.

(** ** Insertion *)

Lemma holds_length s a : holds s a -> zlen (items a) <= zlen (data s).
Proof. intros [[junk ->] _ _ _ _ _ _ _]. rewrite zlen_app. pose proof (zlen_nonneg junk). lia. Qed.

Lemma realloc_refused s a size : holds s a -> num_alloc s <= num s + 1 -> size <= 16 * num_alloc s ->
  0 <= size -> (exists n, OPENSSL_realloc malloc n (ptr_bytes (data s)) size = None) -> refused a.
Proof.
  intros Hs Hfull Hsize H0 [n E] [Ht Hl]. pose proof Hs as [_ En Ea Hr _ _ _ _].
  change (2 ^ 57) with 144115188075855872 in Hl.
  destruct (realloc_total malloc n (ptr_bytes (data s)) size Ht) as [x Hx].
  { change (2 ^ 62) with 4611686018427387904. lia. }
  by rewrite Hx in E.
Qed.

Lemma make_room_run s a w n : holds s a ->
  (exists s1 n1, make_room malloc (Some r) (put w s n) = Ret true (put w s1 n1) /\
     holds s1 a /\ num s1 + 1 < num_alloc s1) \/
  (exists n1, make_room malloc (Some r) (put w s n) = Ret false (put w s n1) /\ refused a).
Proof using Hmalloc.
  intros Hs. pose proof Hs as [[junk Ed] En Ea Hr Hw Hso Hc Ho]. pose proof (zlen_nonneg (items a)) as Hi.
  change (2 ^ 61) with 2305843009213693952 in Hr.
  unfold make_room. rewrite (bind_Ret _ _ _ _ _ (get_put w s n)). cbn [snd]. cbn zeta.
  rewrite wrap_small by (change (2 ^ 64) with 18446744073709551616; lia).
  destruct (Z.leb_spec (num_alloc s) (num s + 1)) as [Hfull|]; [|left; by exists s, n].
  pose proof (grown_spec (num_alloc s) ltac:(change (2 ^ 61) with 2305843009213693952; lia)) as Hg.
  destruct (grown (num_alloc s)) as [[m size]|].
  2: { right. exists n. split; [done|]. intros [_ Hl]. change (2 ^ 57) with 144115188075855872 in Hl.
       change (2 ^ 61) with 2305843009213693952 in Hg. lia. }
  destruct Hg as (Hm & Hm2 & ->). change (2 ^ 61) with 2305843009213693952 in Hm.
  rewrite !(bind_Ret _ _ _ _ _ (realloc_put w s n _ _)).
  destruct (OPENSSL_realloc malloc n (ptr_bytes (data s)) (8 * m)) as [block|] eqn:E.
  - left. apply realloc_spec in E as (more & -> & Hlen & Hmore); [|done|].
    2: { rewrite ptr_bytes_length. change (2 ^ 64) with 18446744073709551616. lia. }
    rewrite (bind_Ret _ _ _ _ _ (upd_put w s (S n) _)). eexists _, (S n). split; [reflexivity|].
    assert (Hlm : (Z.to_nat m = length (data s) + (Z.to_nat m - length (data s)))%nat)
      by (unfold zlen in Ea; lia).
    rewrite Hlm, ptrs_of_bytes by done. set (k := (Z.to_nat m - length (data s))%nat).
    split; [|cbn [num num_alloc set_block]; lia].
    split; cbn [num data num_alloc sorted comp set_block]; try done.
    + exists (junk ++ ptrs_of k more). by rewrite Ed, <- app_assoc.
    + unfold zlen. rewrite length_app, ptrs_of_length. lia.
    + change (2 ^ 61) with 2305843009213693952. lia.
    + apply Forall_app. split; [done|]. by apply ptrs_of_words.
  - right. exists (S n). split; [done|].
    apply (realloc_refused s a (8 * m) Hs); [lia|lia|lia|by exists n].
Qed.

(** Storing [p] in the gap at [i] opened by moving the rest up. *)
Lemma put_element w s n a i p : holds s a -> num s + 1 < num_alloc s -> 0 <= i ->
  exists d, ((if num s <=? i then store_ptrs (Some r) (num s) [p]
    else let! moved := load_ptrs (Some r) i (num s - i) in
         store_ptrs (Some r) (i + 1) moved ;;!
         store_ptrs (Some r) i [p]) (put w s n)) = Ret tt (put w (set_data d s) n) /\
    zlen d = zlen (data s) /\ (word p -> Forall word d) /\
    exists junk, d = (ztake i (items a) ++ p :: zdrop i (items a)) ++ junk.
Proof.
  intros [[junk Ed] En Ea _ Hw _ _ _] Hroom Hi. rewrite En in *.
  destruct junk as [|j junk]; [rewrite app_nil_r in Ed; rewrite Ed in Ea; lia|].
  assert (Hw' : word p -> Forall word (items a) /\ word p /\ Forall word junk).
  { rewrite Ed, Forall_app, Forall_cons in Hw. tauto. }
  destruct (Z.leb_spec (zlen (items a)) i) as [Hend|Hin].
  - exists (items a ++ [p] ++ junk). split.
    { apply stores_put. rewrite Ed. by apply (overwrite_app (items a) [j] junk [p]). }
    assert (ztake i (items a) = items a) as -> by (apply take_ge; unfold zlen in *; lia).
    assert (zdrop i (items a) = []) as -> by (apply drop_ge; unfold zlen in *; lia).
    split; [rewrite Ed, !zlen_app, !zlen_cons, zlen_nil; lia|]. split; [|exists junk; by rewrite <- app_assoc].
    intros Hp. destruct (Hw' Hp) as (? & ? & ?). apply Forall_app. split; [done|]. by constructor.
  - destruct (split_at (items a) i) as (pre & x & post & El & Epre & Et & _ & _); [lia|].
    assert (Ez : zdrop i (items a) = x :: post) by (rewrite El, <- Epre; apply zdrop_app).
    rewrite Et, Ez.
    assert (Hn : zlen (items a) = i + zlen (x :: post)) by (rewrite El, zlen_app; lia).
    assert (Hmv : slice (data s) i (zlen (items a) - i) = Some (x :: post)).
    { rewrite Ed, El, <- app_assoc. apply slice_app; [done|rewrite <- El; lia]. }
    rewrite (bind_Ret _ _ _ _ _ (loads_put w s n _ _ _ Hmv)).
    assert (Hup : overwrite (data s) (i + 1) (x :: post) = Some ((pre ++ [x]) ++ (x :: post) ++ junk)).
    { replace (data s) with ((pre ++ [x]) ++ (post ++ [j]) ++ junk) by (by rewrite Ed, El, <- !app_assoc).
      apply overwrite_app; [rewrite zlen_app; change (zlen [x]) with 1; lia|].
      rewrite zlen_app, !zlen_cons, zlen_nil. lia. }
    rewrite (bind_Ret _ _ _ _ _ (stores_put w s n _ _ _ Hup)).
    assert (Hst : overwrite ((pre ++ [x]) ++ (x :: post) ++ junk) i [p] =
      Some (pre ++ [p] ++ (x :: post) ++ junk)) by (rewrite <- app_assoc; by apply overwrite_app).
    eexists. split; [exact (stores_put w (set_data _ s) n i [p] _ Hst)|]. split.
    { rewrite Ed, El, !zlen_app, !zlen_cons, zlen_nil. lia. }
    split; [|exists junk; by rewrite <- !app_assoc].
    intros Hp. destruct (Hw' Hp) as (Hit & ? & ?). rewrite El in Hit.
    apply Forall_app in Hit as [? ?]. apply Forall_app. split; [done|]. constructor; [done|].
    by apply Forall_app.
Qed.

Lemma insert_run s a p i w n : holds s a -> word p -> 0 <= i ->
  (exists s' n', sk_insert malloc (Some r) p i (put w s n) = Ret (zlen (items a) + 1) (put w s' n') /\
     holds s' (insert_items p i a).2) \/
  (exists n', sk_insert malloc (Some r) p i (put w s n) = Ret 0 (put w s n') /\ refused a).
Proof using Hmalloc.
  intros Hs Hp Hi. unfold sk_insert.
  destruct (make_room_run s a w n Hs) as [(s1 & n1 & E & Hs1 & Hroom)|(n1 & E & Hno)]; rewrite (bind_Ret _ _ _ _ _ E).
  2: { right. by exists n1. }
  left. cbn [negb]. rewrite (bind_Ret _ _ _ _ _ (get_put w s1 n1)). cbn [snd]. cbn zeta.
  destruct (put_element w s1 n1 a i p Hs1 Hroom Hi) as (d & Ed & Hlen & Hwd & junk & Hd).
  rewrite (bind_Ret _ _ _ _ _ Ed), (bind_Ret _ _ _ _ _ (upd_put w _ n1 _)),
    (bind_Ret _ _ _ _ _ (upd_put w _ n1 _)), (bind_Ret _ _ _ _ _ (get_put w _ n1)).
  cbn [snd num set_sorted set_num set_data]. destruct Hs1 as [_ En Ea Hr Hw Hso Hc Ho].
  change (2 ^ 61) with 2305843009213693952 in Hr. pose proof (zlen_nonneg (items a)).
  rewrite wrap_small by (change (2 ^ 64) with 18446744073709551616; lia).
  eexists _, n1. split; [by rewrite En|]. cbn [insert_items snd].
  assert (Hl : zlen (ztake i (items a) ++ p :: zdrop i (items a)) = zlen (items a) + 1).
  { rewrite <- (ztake_zdrop i (items a)) at 3. rewrite !zlen_app, zlen_cons. lia. }
  split; cbn [num data num_alloc sorted comp set_sorted set_num set_data items marked order];
    rewrite ?Hl, ?Hlen; try done.
  - by exists junk.
  - lia.
  - by apply Hwd.
Qed.

(** ** Searching *)

Lemma item_load w s n a i x : holds s a -> 0 <= i -> items a !! Z.to_nat i = Some x ->
  load_ptr (Some r) i (put w s n) = Ret x (put w s n).
Proof.
  intros [[junk Ed] _ _ _ _ _ _ _] Hi Hx. apply load_put; [done|]. rewrite Ed. by apply lookup_app_l_Some.
Qed.

(** The loops over the elements from index [zlen pre] on. *)
Lemma find_loop_run w s n a P l : holds s a -> forall pre, items a = pre ++ l ->
  find_loop (length l) (Some r) P (zlen pre) (put w s n) = Ret (find_from P l (zlen pre)) (put w s n).
Proof.
  intros Hs. induction l as [|x l IH]; intros pre El; [done|]. cbn [length find_loop find_from].
  rewrite (bind_Ret _ _ _ _ _ (item_load w s n a (zlen pre) x Hs (zlen_nonneg pre) ltac:(
    rewrite El; unfold zlen; rewrite Nat2Z.id; by apply list_lookup_middle))).
  destruct (P x); [done|]. specialize (IH (pre ++ [x])). rewrite zlen_app in IH.
  apply IH. by rewrite El, <- app_assoc.
Qed.

Lemma delete_loop_run w s n a p l : holds s a -> forall pre, items a = pre ++ l ->
  delete_loop (length l) (Some r) p (zlen pre) (put w s n) =
  match find_from (fun elem => elem =? p) l (zlen pre) with
  | Some i => sk_delete (Some r) i (put w s n)
  | None => Ret NULL (put w s n)
  end.
Proof.
  intros Hs. induction l as [|x l IH]; intros pre El; [done|]. cbn [length delete_loop find_from].
  rewrite (bind_Ret _ _ _ _ _ (item_load w s n a (zlen pre) x Hs (zlen_nonneg pre) ltac:(
    rewrite El; unfold zlen; rewrite Nat2Z.id; by apply list_lookup_middle))).
  destruct (x =? p); [done|]. specialize (IH (pre ++ [x])). rewrite zlen_app in IH.
  apply IH. by rewrite El, <- app_assoc.
Qed.

Lemma find_from_first P l : forall i j x, (j < length l)%nat -> l !! j = Some x -> P x = true ->
  (forall k y, (k < j)%nat -> l !! k = Some y -> P y = false) -> find_from P l i = Some (i + Z.of_nat j).
Proof.
  induction l as [|z l IH]; intros i j x Hj Hx HP Hb; [by rewrite lookup_nil in Hx|]. cbn [find_from].
  destruct j as [|j].
  - injection Hx as ->. rewrite HP. f_equal. lia.
  - rewrite (Hb 0%nat z) by (done || lia). cbn [length] in Hj.
    rewrite (IH (i + 1) j x); [f_equal; lia|lia|done|done|].
    intros k y Hk Hy. apply (Hb (S k) y); [lia|done].
Qed.

Lemma find_from_none P l : forall i, (forall k y, l !! k = Some y -> P y = false) -> find_from P l i = None.
Proof.
  induction l as [|z l IH]; intros i Hb; [done|]. cbn [find_from]. rewrite (Hb 0%nat z) by done.
  apply IH. intros k y Hy. by apply (Hb (S k) y).
Qed.

Lemma find_from_range P l : forall i j, find_from P l i = Some j -> i <= j < i + zlen l.
Proof.
  induction l as [|z l IH]; intros i j; [done|]. cbn [find_from]. rewrite zlen_cons.
  pose proof (zlen_nonneg l). destruct (P z); [intros [= <-]; lia|]. intros H1%IH. lia.
Qed.

(** Earlier elements of an ordered list are not above later ones. *)
Lemma ordered_le f l (i j : nat) x y : Sorted (cmp_le (cmp f)) l ->
  l !! i = Some x -> l !! j = Some y -> (i < j)%nat -> cmp f x y <= 0.
Proof using Hcmp.
  intros Hs Hx Hy Hij. assert (Ht : Transitive (cmp_le (cmp f))).
  { intros u v z. apply (Hcmp f [u; v; z]); repeat first [apply list_elem_of_here|apply list_elem_of_further]. }
  apply Sorted_StronglySorted in Hs; [|exact Ht].
  rewrite <- (take_drop_middle _ _ _ Hx) in Hs. apply StronglySorted_app_1_r in Hs.
  apply StronglySorted_inv in Hs as [_ Hf]. eapply Forall_forall in Hf; [exact Hf|].
  apply (list_elem_of_lookup_2 _ (j - S i)%nat). rewrite lookup_drop. by replace (S i + (j - S i))%nat with j by lia.
Qed.

(** The interval in which the first match, if there is one, has to be. *)
Definition narrowed (f : nat) (p : Z) (l : list Z) (lo hi : Z) : Prop :=
  0 <= lo <= hi /\ hi <= zlen l /\
  (forall k y, (k < Z.to_nat lo)%nat -> l !! k = Some y -> 0 < cmp f p y) /\
  ((forall k y, (Z.to_nat hi <= k)%nat -> l !! k = Some y -> cmp f p y < 0) \/
   (lo < hi /\ exists y, l !! Z.to_nat (hi - 1) = Some y /\ cmp f p y = 0)).

Lemma search_run w s n a f p : holds s a -> Sorted (cmp_le (cmp f)) (items a) -> forall k lo hi,
  narrowed f p (items a) lo hi -> hi - lo < Z.of_nat k ->
  search_loop cmp k (Some r) f p lo hi (put w s n) =
  Ret (find_from (fun elem => cmp f p elem =? 0) (items a) 0) (put w s n).
Proof using Hcmp.
  intros Hs Hsort. set (l := items a) in *. induction k as [|k IH]; intros lo hi (Hlo & Hhi & Hbelow & Habove) Hk; [lia|].
  cbn [search_loop]. destruct (Z.ltb_spec lo hi) as [Hlt|Hge].
  2: { bool_true (lo =? hi). unfold ret. f_equal. symmetry. apply find_from_none. intros j y Hy.
       destruct Habove as [Habove|[? _]]; [|lia]. apply Z.eqb_neq.
       destruct (Nat.lt_ge_cases j (Z.to_nat lo)) as [Hj|Hj]; [specialize (Hbelow j y Hj Hy); lia|].
       specialize (Habove j y ltac:(lia) Hy). lia. }
  cbn zeta. set (mid := lo + (hi - lo - 1) / 2).
  assert (Hmid : lo <= mid < hi /\ (mid + 1 = hi -> hi - lo = 1))
    by (unfold mid; Z.to_euclidean_division_equations; lia).
  bool_true (lo <=? mid). bool_true (mid <? hi). cbn [andb negb].
  destruct (lookup_lt_is_Some_2 l (Z.to_nat mid)) as [x Hx]; [unfold zlen in Hhi; lia|].
  rewrite (bind_Ret _ _ _ _ _ (item_load w s n a mid x Hs ltac:(lia) Hx)). cbn zeta.
  assert (Hle : forall (i j : nat) u v, l !! i = Some u -> l !! j = Some v -> (i < j)%nat -> cmp f u v <= 0)
    by (intros i j u v; by apply ordered_le).
  destruct (Z.ltb_spec 0 (cmp f p x)) as [Hgt|Hngt]; [|destruct (Z.ltb_spec (cmp f p x) 0) as [Hlt0|Hnlt]].
  - apply IH; [|lia]. split; [lia|]. split; [done|]. split.
    + intros j y Hj Hy. destruct (Nat.eq_dec j (Z.to_nat mid)) as [->|Hne]; [by rewrite Hx in Hy; injection Hy as <-|].
      apply (cmp_below (cmp f) p y x (Hcmp f) Hgt). apply (Hle j (Z.to_nat mid)); [done|done|lia].
    + destruct Habove as [Habove|(_ & y & Hy & Hy0)]; [by left|right].
      assert (mid <> hi - 1) by (intros ->; rewrite Hx in Hy; injection Hy as <-; lia). split; [lia|by exists y].
  - apply IH; [|lia]. split; [lia|]. split; [lia|]. split; [done|]. left. intros j y Hj Hy.
    destruct (Nat.eq_dec j (Z.to_nat mid)) as [->|Hne]; [by rewrite Hx in Hy; injection Hy as <-|].
    apply (cmp_above (cmp f) p x y (Hcmp f) Hlt0). apply (Hle (Z.to_nat mid) j); [done|done|lia].
  - assert (H0 : cmp f p x = 0) by lia. destruct (Z.eqb_spec (hi - lo) 1) as [H1|H1].
    + assert (mid = lo) as Em by lia. unfold ret. f_equal. symmetry.
      rewrite (find_from_first _ l 0 (Z.to_nat mid) x);
        [f_equal; lia|unfold zlen in Hhi; lia|done|by apply Z.eqb_eq|].
      intros j y Hj Hy. apply Z.eqb_neq. specialize (Hbelow j y ltac:(lia) Hy). lia.
    + bool_true (mid + 1 <? hi). cbn [negb]. apply IH; [|lia]. split; [lia|]. split; [lia|]. split; [done|].
      right. split; [lia|]. exists x. by replace (mid + 1 - 1) with mid by lia.
Qed.

Lemma find_returns s a p : holds s a ->
  returns (sk_find cmp (Some r) p) s (find_from (equals a p) (items a) 0) a.
Proof using Hcmp.
  intros Hs. apply returns_get. cbn [snd]. cbn zeta. pose proof Hs as [_ En _ _ _ Hso Hc Ho]. rewrite Hc, En.
  assert (Hnat : Z.to_nat (zlen (items a)) = length (items a)) by (unfold zlen; lia). rewrite Hnat.
  assert (Hloop : forall P, returns (find_loop (length (items a)) (Some r) P 0) s (find_from P (items a) 0) a).
  { intros P w n. exists s, n. split; [|done]. exact (find_loop_run w s n a P (items a) Hs [] eq_refl). }
  unfold equals. destruct (order a) as [f|] eqn:Eo; [|apply Hloop].
  destruct (p =? NULL) eqn:Ep; cbn [negb andb].
  { rewrite (find_from_none _ (items a) 0) by done. by apply returns_ret. }
  intros w n. unfold sk_is_sorted. rewrite bind_assoc, (bind_Ret _ _ _ _ _ (get_put w s n)), bind_ret.
  cbn [snd]. rewrite Hso. destruct (marked a) eqn:Em; [|apply Hloop].
  change (1 =? 0) with false. cbn iota. exists s, n. split; [|done].
  apply (search_run w s n a f p Hs); [by specialize (Ho eq_refl)| |unfold zlen; lia].
  split; [unfold zlen; lia|]. split; [lia|]. split; [intros k y Hk; lia|].
  left. intros k y Hk Hy. apply lookup_lt_Some in Hy. lia.
Qed.

Lemma sort_returns s a : holds s a -> returns (sk_sort cmp qsort (Some r)) s tt (spec a Sort).2.
Proof using Hcmp Hqsort.
  intros Hs. apply returns_get. cbn [snd spec]. pose proof Hs as [[junk Ed] En Ea Hr Hw Hso Hc Ho]. rewrite Hc, En, Hso.
  destruct (order a) as [f|] eqn:Eo; [|by apply returns_ret].
  destruct (marked a) eqn:Em; [by apply returns_ret|]. cbn [Z.eqb negb].
  destruct (Hqsort (cmp f) (items a) (Hcmp f _)) as [Hp Hsort]. set (l := qsort (cmp f) (items a)) in *.
  intros w n. destruct (Z.leb_spec 2 (zlen (items a))) as [H2|H2].
  - assert (Hl : slice (data s) 0 (zlen (items a)) = Some (items a))
      by (rewrite Ed; by apply (slice_app [] (items a) junk)).
    assert (Hlen : zlen l = zlen (items a)) by (unfold zlen; by rewrite Hp).
    assert (Hst : overwrite (data s) 0 l = Some (l ++ junk))
      by (rewrite Ed; by apply (overwrite_app [] (items a) junk l)).
    rewrite bind_assoc, (bind_Ret _ _ _ _ _ (loads_put w s n _ _ _ Hl)). fold l.
    rewrite (bind_Ret _ _ _ _ _ (stores_put w s n _ _ _ Hst)), upd_put.
    eexists _, n. split; [reflexivity|].
    split; cbn [num data num_alloc sorted comp set_sorted set_data items marked order]; try done.
    + by exists junk.
    + by rewrite En.
    + rewrite Ea, Ed, !zlen_app. lia.
    + rewrite Ed in Hw. apply Forall_app in Hw as [Hw1 Hw2]. apply Forall_app. by rewrite Hp.
  - rewrite bind_ret, upd_put. eexists _, n. split; [reflexivity|].
    split; cbn [num data num_alloc sorted comp set_sorted items marked order]; try done; [by exists junk|].
    intros _. destruct (items a) as [|x [|y k]]; [constructor|by repeat constructor|].
    rewrite !zlen_cons in H2. pose proof (zlen_nonneg k). lia.
Qed.

Lemma set_returns s a i v : holds s a -> legal a (Set_ i v) ->
  returns (sk_set (Some r) i v) s (if i <? zlen (items a) then v else NULL) (spec a (Set_ i v)).2.
Proof.
  intros Hs (Hi & Hv & Hm). apply returns_get. cbn [snd spec] in *. pose proof Hs as [[junk Ed] En Ea Hr Hw Hso Hc Ho]. rewrite En.
  destruct (Z.leb_spec (zlen (items a)) i); [bool_false (i <? zlen (items a)); by apply returns_ret|].
  replace (i <? zlen (items a)) with true in * by solve_bool. cbn [snd] in *. intros w n.
  destruct (split_at (items a) i) as (pre & x & post & El & Epre & Et & Ez & _); [lia|]. rewrite Et, Ez in *.
  assert (Hst : overwrite (data s) i [v] = Some (pre ++ [v] ++ post ++ junk)).
  { rewrite Ed, El, <- app_assoc. by apply (overwrite_app pre [x] (post ++ junk) [v]). }
  rewrite (bind_Ret _ _ _ _ _ (stores_put w s n _ _ _ Hst)). eexists _, n. split; [reflexivity|].
  assert (Hlen : zlen (pre ++ v :: post) = zlen (items a)) by (by rewrite El, !zlen_app, !zlen_cons).
  split; cbn [num data num_alloc sorted comp set_data with_items items marked order]; try done.
  - exists junk. by rewrite <- app_assoc.
  - by rewrite Hlen.
  - rewrite Ea, Ed, El, !zlen_app, !zlen_cons, zlen_nil. lia.
  - rewrite Ed, El, !Forall_app, Forall_cons in Hw. pose proof (Forall_nil_2 word).
    rewrite !Forall_app, Forall_cons. tauto.
Qed.

Lemma zero_returns s a : holds s a -> returns (sk_zero (Some r)) s tt (spec a Zero).2.
Proof.
  intros Hs. apply returns_get. cbn [snd spec]. pose proof Hs as [[junk Ed] En Ea Hr Hw Hso Hc Ho]. rewrite En.
  destruct (zlen (items a) =? 0); [by apply returns_ret|]. intros w n.
  set (zeros := replicate (Z.to_nat (zlen (items a))) NULL).
  assert (Hz : zlen zeros = zlen (items a)) by (unfold zeros, zlen; rewrite length_replicate; lia).
  assert (Hst : overwrite (data s) 0 zeros = Some (zeros ++ junk))
    by (rewrite Ed; by apply (overwrite_app [] (items a) junk zeros)).
  rewrite (bind_Ret _ _ _ _ _ (stores_put w s n _ _ _ Hst)), upd_put. eexists _, n. split; [reflexivity|].
  pose proof (zlen_nonneg (items a)).
  split; cbn [num data num_alloc sorted comp set_sorted set_num set_data items marked order]; try done.
  - by exists (zeros ++ junk).
  - rewrite Ea, Ed, !zlen_app. lia.
  - lia.
  - rewrite Ed in Hw. apply Forall_app in Hw as [_ Hw]. apply Forall_app. split; [|done].
    by apply Forall_replicate.
Qed.

Lemma set_cmp_returns s a c : holds s a -> returns (sk_set_cmp_func (Some r) c) s (order a) (spec a (SetCmp c)).2.
Proof.
  intros Hs. apply returns_get. cbn [snd spec]. cbn zeta. pose proof Hs as [Ed En Ea Hr Hw Hso Hc Ho]. rewrite Hc.
  intros w n. unfold same_func. destruct (bool_decide_reflect (order a = c)) as [<-|Hne]; cbn [negb].
  - rewrite bind_ret, (bind_Ret _ _ _ _ _ (upd_put w s n _)). eexists _, n. split; [reflexivity|].
    by rewrite andb_true_r.
  - rewrite (bind_Ret _ _ _ _ _ (upd_put w s n _)), (bind_Ret _ _ _ _ _ (upd_put w _ n _)).
    eexists _, n. split; [reflexivity|]. by rewrite andb_false_r.
Qed.

Lemma value_returns s a i : holds s a -> 0 <= i -> returns (sk_value (Some r) i) s (at_ (items a) i) a.
Proof.
  intros Hs Hi. apply returns_get. cbn [snd]. pose proof Hs as [_ En _ _ _ _ _ _]. rewrite En.
  destruct (Z.leb_spec (zlen (items a)) i).
  - unfold at_. rewrite nth_overflow by (unfold zlen in *; lia). by apply returns_ret.
  - destruct (lookup_lt_is_Some_2 (items a) (Z.to_nat i)) as [x Hx]; [unfold zlen in *; lia|].
    intros w n. exists s, n. split; [|done]. rewrite (item_load w s n a i x Hs Hi Hx).
    unfold at_. by rewrite (nth_lookup_Some _ _ _ _ Hx).
Qed.

(** ** The simulation *)

(** What a call on the stack [s] did. *)
Definition simulated (w : world) (a : alist) (c : call) (res : out world reply) : Prop :=
  match res with
  | Ret x w' => exists a' s' n', step a c x a' /\ w' = put w s' n' /\ holds s' a'
  | _ => False
  end.

Lemma simulated_done w n s a c : returns (exec r c) s (spec a c).1 (spec a c).2 ->
  simulated w a c (exec r c (put w s n)).
Proof.
  intros H. destruct (H w n) as (s' & n' & -> & Hs'). exists (spec a c).2, s', n'.
  split; [constructor|done].
Qed.

Lemma simulated_insert w n s a c p i :
  holds s a -> word p -> 0 <= i -> adds c = true -> spec a c = insert_items p i a ->
  simulated w a c ((let! n := sk_insert malloc (Some r) p i in ret (RNum n)) (put w s n)).
Proof using Hmalloc.
  intros Hs Hp Hi Hadds Hspec. destruct (insert_run s a p i w n Hs Hp Hi) as [(s' & n' & E & Hs')|(n' & E & Hno)];
    rewrite (bind_Ret _ _ _ _ _ E).
  - exists (insert_items p i a).2, s', n'. split; [|done]. pose proof (step_done a c) as H.
    by rewrite Hspec in H.
  - exists a, s, n'. split; [by constructor|done].
Qed.

Lemma exec_simulated w n s a c : holds s a -> legal a c -> simulated w a c (exec r c (put w s n)).
Proof using Hmalloc Hcmp Hqsort.
  intros Hs Hl. pose proof Hs as [_ En _ Hr _ Hso _ _]. change (2 ^ 61) with 2305843009213693952 in Hr.
  pose proof (zlen_nonneg (items a)) as Hz.
  assert (Hdel : forall i, 0 <= i < 2 ^ 64 -> returns (let! p := sk_delete (Some r) i in ret (RPtr p)) s
    (delete_item i a).1 (delete_item i a).2).
  { intros i Hi. pose proof (returns_map _ RPtr _ _ _ (delete_returns s a i Hs Hi)) as H.
    unfold delete_item in *. by destruct (i <? zlen (items a)). }
  assert (H64 : zlen (items a) < 2 ^ 64) by (change (2 ^ 64) with 18446744073709551616; lia).
  destruct c as [|i|i v| |p i|p|i|p| | |p| | |c]; cbn [legal] in Hl.
  - apply simulated_done, (returns_map _ RNum), returns_get. cbn [snd]. rewrite En. by apply returns_ret.
  - apply simulated_done, (returns_map _ RPtr), value_returns; [done|lia].
  - apply simulated_done. pose proof (returns_map _ RPtr _ _ _ (set_returns s a i v Hs Hl)) as H.
    cbn [exec spec] in *. by destruct (i <? zlen (items a)).
  - apply simulated_done. exact (returns_map _ (fun _ => RDone) _ _ _ (zero_returns s a Hs)).
  - destruct Hl. by apply (simulated_insert w n s a (Insert p i) p i); [| |lia| |].
  - unfold exec, sk_push. cbn zeta.
    apply (simulated_insert w n s a (Push p) p (zlen (items a))) in Hl; [|done|done|done|done].
    rewrite bind_assoc, (bind_Ret _ _ _ _ _ (get_put w s n)). cbn [snd]. by rewrite En.
  - apply simulated_done. by apply Hdel.
  - apply simulated_done. cbn [exec spec]. intros w' n'. unfold sk_delete_ptr.
    rewrite bind_assoc, (bind_Ret _ _ _ _ _ (get_put w' s n')). cbn [snd]. rewrite En.
    pose proof (delete_loop_run w' s n' a p (items a) Hs [] eq_refl) as Hd. change (zlen []) with 0 in Hd.
    replace (Z.to_nat (zlen (items a))) with (length (items a)) by (unfold zlen; lia).
    unfold bind at 1. rewrite Hd.
    destruct (find_from (fun elem => elem =? p) (items a) 0) as [i|] eqn:E; [|by exists s, n'].
    apply find_from_range in E. apply (Hdel i). lia.
  - apply simulated_done. cbn [exec spec]. unfold sk_shift. intros w' n'.
    rewrite bind_assoc, (bind_Ret _ _ _ _ _ (get_put w' s n')). cbn [snd]. rewrite En.
    destruct (Z.eqb_spec (zlen (items a)) 0) as [E0|E0]; [|by apply Hdel].
    unfold delete_item. bool_false (0 <? zlen (items a)). by exists s, n'.
  - apply simulated_done. cbn [exec spec]. unfold sk_pop. intros w' n'.
    rewrite bind_assoc, (bind_Ret _ _ _ _ _ (get_put w' s n')). cbn [snd]. rewrite En.
    destruct (Z.eqb_spec (zlen (items a)) 0) as [E0|E0]; [by exists s, n'|].
    rewrite wrap_small by (change (2 ^ 64) with 18446744073709551616; lia). apply Hdel. lia.
  - apply simulated_done, (returns_map _ RIndex), find_returns. done.
  - apply simulated_done. exact (returns_map _ (fun _ => RDone) _ _ _ (sort_returns s a Hs)).
  - apply simulated_done, (returns_map _ RNum), returns_get. cbn [snd]. rewrite Hso. by apply returns_ret.
  - apply simulated_done, (returns_map _ RFunc), set_cmp_returns. done.
Qed.

(** ** Runs *)

Fixpoint run (cs : list call) : M world (list reply) :=
  match cs with
  | [] => ret []
  | c :: cs => let! x := exec r c in let! l := run cs in ret (x :: l)
  end.

(** Replies an abstract stack can give to a sequence of calls. *)
Inductive behaves : alist -> list call -> list reply -> alist -> Prop :=
| behaves_nil a : behaves a [] [] a
| behaves_cons a c cs x l a1 a2 :
    step a c x a1 -> behaves a1 cs l a2 -> behaves a (c :: cs) (x :: l) a2.

(** Every call is legal, whatever insertions are refused before it. *)
Fixpoint safe (a : alist) (cs : list call) : Prop :=
  match cs with
  | [] => True
  | c :: cs => legal a c /\ forall x a', step a c x a' -> safe a' cs
  end.

Lemma run_simulated cs : forall w n s a, holds s a -> safe a cs ->
  match run cs (put w s n) with
  | Ret l w' => exists a' s' n', behaves a cs l a' /\ w' = put w s' n' /\ holds s' a'
  | _ => False
  end.
Proof using Hmalloc Hcmp Hqsort.
  induction cs as [|c cs IH]; intros w n s a Hs Hsafe; cbn [run safe] in *.
  - exists a, s, n. split; [constructor|done].
  - destruct Hsafe as [Hl Hsafe]. pose proof (exec_simulated w n s a c Hs Hl) as H.
    unfold bind at 1. destruct (exec r c (put w s n)) as [x w1|w1| |]; try done.
    destruct H as (a1 & s1 & n1 & Hstep & -> & Hs1). specialize (IH w n1 s1 a1 Hs1 (Hsafe _ _ Hstep)).
    unfold bind. destruct (run cs (put w s1 n1)) as [l w2|w2| |]; try done.
    destruct IH as (a2 & s2 & n2 & Hb & -> & Hs2). exists a2, s2, n2. split; [by econstructor|done].
Qed.

End stack.

(** ** New stacks *)

Lemma new_stack_run malloc w :
  match new_stack malloc w with
  | Ret (Some r) w1 => r = new_ref (w_stacks w) /\ w1 = put r w zero_stack (S (w_allocs w))
  | Ret None w1 => w_stacks w1 = w_stacks w /\ ~ malloc_total malloc
  | _ => False
  end.
Proof.
  unfold new_stack, bind at 1, alloc.
  destruct (OPENSSL_malloc malloc (w_allocs w) sizeof_STACK) as [b|] eqn:E; [done|].
  split; [done|]. intros Ht. destruct (realloc_total malloc (w_allocs w) [] sizeof_STACK Ht) as [x Hx]; [done|].
  unfold OPENSSL_realloc in Hx. by rewrite E in Hx.
Qed.

(** A stack that was only begun is gone again. *)
Lemma delete_put w s n : let r := new_ref (w_stacks w) in
  sk_free (Some r) (put r w s n) = Ret tt (World (w_stacks w) n).
Proof.
  intros r. cbn [sk_free]. rewrite (bind_Ret _ _ _ _ _ (get_put r w s n)).
  unfold del_stack, modm, put. cbn [w_stacks w_allocs fst]. by rewrite delete_insert_eq, delete_id by apply new_ref_fresh.
Qed.

Lemma sk_new_run malloc cmp c w :
  match sk_new malloc c w with
  | Ret (Some r) w1 => r = new_ref (w_stacks w) /\
      exists s n, w1 = put r w s n /\ holds cmp s (AList [] false c)
  | Ret None w1 => w_stacks w1 = w_stacks w /\ ~ malloc_total malloc
  | _ => False
  end.
Proof.
  unfold sk_new. pose proof (new_stack_run malloc w) as H. unfold bind at 1.
  destruct (new_stack malloc w) as [[r|] w1|w1| |]; try done. destruct H as [Hr ->].
  unfold bind at 1, alloc. cbn [w_allocs put].
  destruct (OPENSSL_malloc malloc (S (w_allocs w)) (sizeof_ptr * kMinSize)) as [b|] eqn:E.
  - change (World _ _) with (put r w zero_stack (S (S (w_allocs w)))).
    rewrite !(bind_Ret _ _ _ _ _ (upd_put r w _ _ _)). split; [done|].
    eexists _, _. split; [reflexivity|]. split; cbn; try done; [by eexists|].
    by repeat constructor.
  - change (World _ _) with (put r w zero_stack (S (S (w_allocs w)))).
    pose proof (delete_put w zero_stack (S (S (w_allocs w)))) as Hd. cbn zeta in Hd. rewrite <- Hr in Hd.
    cbn [sk_free] in Hd. rewrite (bind_Ret _ _ _ _ _ (get_put r w _ _)) in Hd. cbn [fst] in Hd.
    rewrite (bind_Ret _ _ _ _ _ Hd). split; [done|]. intros Ht.
    destruct (realloc_total malloc (S (w_allocs w)) [] (sizeof_ptr * kMinSize) Ht) as [x Hx]; [done|].
    unfold OPENSSL_realloc in Hx. by rewrite E in Hx.
Qed.

(** C13: a stack is a list.  A new stack answers every sequence of calls, of a client that
    does not bring it out of order with [sk_set] while it is marked as sorted, as a list
    with a mark for sortedness does: values, replacements, insertions anywhere, deletions by
    index and by pointer, shifts and pops, sorting, and searches, which find the first
    element equal to the one they are given, by the comparison function or by pointer,
    whether the search is linear or binary.  Only an insertion can be refused, for want
    of memory, and it then changes nothing.  No call reads or writes outside the array
    or ends in a failed assertion, and the other stacks are left alone. *)
Theorem stack_refines_list malloc cmp qsort c w cs :
  malloc_spec malloc -> (forall f l, comparison_ok (cmp f) l) -> qsort_spec qsort ->
  safe malloc cmp qsort (AList [] false c) cs ->
  match sk_new malloc c w with
  | Ret (Some r) w1 =>
      match run malloc cmp qsort r cs w1 with
      | Ret replies w2 =>
          exists a, behaves malloc cmp qsort (AList [] false c) cs replies a /\ rep cmp w2 r a /\
          forall r', r' <> r -> w_stacks w2 !! r' = w_stacks w !! r'
      | _ => False
      end
  | Ret None w1 => w_stacks w1 = w_stacks w /\ ~ malloc_total malloc
  | _ => False
  end.
Proof.
  intros Hm Hc Hq Hsafe. pose proof (sk_new_run malloc cmp c w) as H.
  destruct (sk_new malloc c w) as [[r|] w1|w1| |]; try done. destruct H as (_ & s & n & -> & Hs).
  pose proof (run_simulated malloc Hm cmp Hc qsort Hq r cs w n s _ Hs Hsafe) as H.
  destruct (run malloc cmp qsort r cs (put r w s n)) as [l w2|w2| |]; try done.
  destruct H as (a & s' & n' & Hb & -> & Hs'). exists a. split; [done|]. split.
  - exists s'. split; [apply lookup_insert_eq|done].
  - intros r' Hr'. apply lookup_insert_ne. done.
Qed.

(** ** Examples *)

(** Calls that are legal on any stack. *)
Definition plain (c : call) : Prop :=
  match c with
  | Set_ _ _ => False
  | Value i | Delete i => 0 <= i < 2 ^ 64
  | Insert p i => word p /\ 0 <= i < 2 ^ 64
  | Push p | DeletePtr p | Find p => word p
  | _ => True
  end.

Lemma plain_safe malloc cmp qsort cs : Forall plain cs -> forall a, safe malloc cmp qsort a cs.
Proof.
  induction 1 as [|c cs Hc _ IH]; intros a; [done|]. cbn [safe]. split; [by destruct c|].
  intros x a' _. apply IH.
Qed.

(** Elements are compared by the last hexadecimal digit of their address. *)
Definition sample_cmp (f : nat) (p q : Z) : Z := p mod 16 - q mod 16.

Lemma sample_cmp_ok f l : comparison_ok (sample_cmp f) l.
Proof. unfold sample_cmp. split; intros; lia. Qed.

(** Five pushes, so the array grows; two equal elements. *)
Definition sample_stack_calls : list call :=
  [Push 0x19; Push 0x13; Insert 0x23 0; Push 0x15; Push 0x11; Find 0x43; Sort; Find 0x43; Find 0x45;
   IsSorted; Delete 0; Find 0x49; DeletePtr 0x15; Shift; Pop; SetCmp None; IsSorted; Num; Zero; Pop].

Lemma sample_stack_safe : safe sample_malloc sample_cmp insertion_sort (AList [] false (Some 1%nat)) sample_stack_calls.
Proof. apply plain_safe. repeat constructor; done. Qed.

Lemma stack_refines_list_witness :
  match sk_new sample_malloc (Some 1%nat) (World ∅ 0) with
  | Ret (Some r) w1 =>
      match run sample_malloc sample_cmp insertion_sort r sample_stack_calls w1 with
      | Ret replies w2 =>
          exists a, behaves sample_malloc sample_cmp insertion_sort (AList [] false (Some 1%nat)) sample_stack_calls replies a /\
          rep sample_cmp w2 r a /\
          forall r', r' <> r -> w_stacks w2 !! r' = w_stacks (World ∅ 0) !! r'
      | _ => False
      end
  | Ret None w1 => w_stacks w1 = w_stacks (World ∅ 0) /\ ~ malloc_total sample_malloc
  | _ => False
  end.
Proof.
  pose proof (stack_refines_list sample_malloc sample_cmp insertion_sort
    (Some 1%nat) (World ∅ 0) sample_stack_calls sample_malloc_spec sample_cmp_ok insertion_sort_spec
    sample_stack_safe) as H.
  with_strategy opaque [sk_new run] exact H.
Defined.

(** [sk_set] on a sorted stack leaves the mark: the binary search then misses an
    element that is there. *)
Lemma set_keeps_mark :
  match (let! sk := sk_new sample_malloc (Some 1%nat) in
         match sk with
         | None => ubm
         | Some r => run sample_malloc sample_cmp insertion_sort r
             [Push 1; Push 3; Push 5; Sort; Set_ 0 9; Value 0; IsSorted; Find 9]
         end) (World ∅ 0) with
  | Ret replies _ => drop 5 replies = [RPtr 9; RNum 1; RIndex None]
  | _ => False
  end.
Proof. vm_compute. reflexivity. Qed.


(** * BoringSSL stacks: copies

    [sk_deep_copy] makes all the copies or none. *)

(** The copies of the elements from index [i] on, null pointers as they are, up to the
    first copy that fails, and whether there is none. *)
Fixpoint copies (copy : Z -> Z -> Z) (i : Z) (l : list Z) : list Z * bool :=
  match l with
  | [] => ([], true)
  | p :: l =>
      let q := if p =? NULL then NULL else copy i p in
      if negb (p =? NULL) && (q =? NULL) then ([], false)
      else let r := copies copy (i + 1) l in (q :: r.1, r.2)
  end.

Definition non_null (l : list Z) : list Z := filter (fun p => p <> NULL) l.

Section copy.
Context (malloc : nat -> Z -> option (list Z)) (Hmalloc : malloc_spec malloc).
Context (cmp : nat -> Z -> Z -> Z).

(** ** A shallow copy *)

Lemma ptrs_of_block block n : zlen block = 8 * n -> 0 <= n -> zlen (ptrs_of (length block / 8) block) = n.
Proof.
  intros Hl Hn. unfold zlen in *. rewrite ptrs_of_length. 
  replace (length block) with (Z.to_nat n * 8)%nat by lia. rewrite Nat.div_mul by done. lia.
Qed.

(** [w] is the world before the copy at [c] was begun. *)
Lemma dup_run w r s a : w_stacks w !! r = Some s -> holds cmp s a ->
  match sk_dup malloc (Some r) w with
  | Ret (Some c) w1 => c = new_ref (w_stacks w) /\
      exists t n, w1 = put c w t n /\ holds cmp t a
  | Ret None w1 => w_stacks w1 = w_stacks w /\ ~ (malloc_total malloc /\ num_alloc s < 2 ^ 58)
  | _ => False
  end.
Proof using Hmalloc.
  intros Hr Hs. unfold sk_dup. pose proof (new_stack_run malloc w) as H. unfold bind at 1.
  destruct (new_stack malloc w) as [[c|] w1|w1| |]; try done.
  2: { split; [apply H|]. intros [Ht _]. by apply H. }
  destruct H as [Hc ->].
  assert (Hne : c <> r) by (intros E; rewrite <- E, Hc, new_ref_fresh in Hr; done).
  assert (Hget : forall t n, get_stack (Some r) (put c w t n) = Ret (r, s) (put c w t n)).
  { intros t n. unfold get_stack, put. cbn [w_stacks]. by rewrite lookup_insert_ne, Hr. }
  pose proof Hs as [[junk Ed] En Ea Hroom Hw Hso Hco Ho]. pose proof (zlen_nonneg (items a)) as Hz.
  change (2 ^ 61) with 2305843009213693952 in Hroom.
  rewrite (bind_Ret _ _ _ _ _ (Hget _ _)). cbn [snd]. cbn zeta. unfold sizeof_ptr.
  rewrite wrap_small by (change (2 ^ 64) with 18446744073709551616; lia).
  unfold bind at 1, alloc. cbn [w_stacks w_allocs put].
  change (World (<[c:=zero_stack]> (w_stacks w)) (S (S (w_allocs w)))) with (put c w zero_stack (S (S (w_allocs w)))).
  destruct (OPENSSL_malloc malloc (S (w_allocs w)) (8 * num_alloc s)) as [block|] eqn:E.
  - apply openssl_malloc_len in E as [Hlen Hbytes]; [|done|change (2 ^ 64) with 18446744073709551616; lia].
    rewrite (bind_Ret _ _ _ _ _ (upd_put c w _ _ _)), (bind_Ret _ _ _ _ _ (upd_put c w _ _ _)).
    assert (Hload : forall t n, load_ptrs (Some r) 0 (num s) (put c w t n) = Ret (items a) (put c w t n)).
    { intros t n. unfold load_ptrs. rewrite (bind_Ret _ _ _ _ _ (Hget t n)). cbn [snd].
      rewrite En, Ed. by rewrite (slice_app [] (items a) junk). }
    rewrite (bind_Ret _ _ _ _ _ (Hload _ _)).
    pose proof (ptrs_of_block block (num_alloc s) Hlen ltac:(lia)) as Hpl.
    pose proof (ptrs_of_words (length block / 8) block Hbytes) as Hpw.
    set (ptrs := ptrs_of (length block / 8) block) in *.
    assert (Hst : overwrite ptrs 0 (items a) = Some (items a ++ zdrop (zlen (items a)) ptrs)).
    { rewrite <- (ztake_zdrop (zlen (items a)) ptrs) at 1. apply (overwrite_app []); [done|].
      apply zlen_ztake. lia. }
    rewrite (bind_Ret _ _ _ _ _ (stores_put c w (set_num (num s) (set_data ptrs zero_stack)) _ 0 (items a) _ Hst)).
    rewrite !(bind_Ret _ _ _ _ _ (upd_put c w _ _ _)). split; [done|]. eexists _, _. split; [reflexivity|].
    split; cbn [num data num_alloc sorted comp set_comp set_block set_sorted set_num set_data]; try done.
    + by eexists.
    + rewrite zlen_app, zlen_zdrop by lia. lia.
    + rewrite Ed in Hw. apply Forall_app in Hw as [Hw _]. apply Forall_app. split; [done|]. by apply Forall_drop.
  - pose proof (delete_put w zero_stack (S (S (w_allocs w)))) as Hd. cbn zeta in Hd. rewrite <- Hc in Hd.
    rewrite (bind_Ret _ _ _ _ _ Hd). split; [done|]. intros [Ht Hl]. change (2 ^ 58) with 288230376151711744 in Hl.
    destruct (realloc_total malloc (S (w_allocs w)) [] (8 * num_alloc s) Ht) as [x Hx].
    { change (2 ^ 62) with 4611686018427387904. lia. }
    unfold OPENSSL_realloc in Hx. by rewrite E in Hx.
Qed.

(** ** A deep copy *)

Context (copy : Z -> Z -> Z).

Lemma load_at c w n pre x post t : data t = pre ++ x :: post ->
  load_ptr (Some c) (zlen pre) (put c w t n) = Ret x (put c w t n).
Proof.
  intros E. apply load_put; [apply zlen_nonneg|]. rewrite E. unfold zlen. rewrite Nat2Z.id.
  by apply list_lookup_middle.
Qed.

Lemma free_loop_run c w n t l : forall pre post, data t = pre ++ l ++ post ->
  free_loop (length l) (Some c) (zlen pre) (put c w t n) = Ret (non_null l) (put c w t n).
Proof.
  induction l as [|x l IH]; intros pre post E; [done|]. cbn [length free_loop].
  rewrite (bind_Ret _ _ _ _ _ (load_at c w n pre x (l ++ post) t E)).
  specialize (IH (pre ++ [x]) post). rewrite zlen_app in IH. change (zlen [x]) with 1 in IH.
  rewrite (bind_Ret _ _ _ _ _ (IH ltac:(by rewrite E, <- app_assoc))). unfold non_null.
  rewrite filter_cons. destruct (Z.eqb_spec x NULL) as [Hx|Hx]; cbn [negb].
  - by rewrite decide_False by (intros H; by apply H).
  - by rewrite decide_True.
Qed.

Lemma copy_loop_run w n l : let c := new_ref (w_stacks w) in forall pre post t,
  data t = pre ++ l ++ post ->
  let made := (copies copy (zlen pre) l).1 in
  copy_loop copy (length l) (Some c) (zlen pre) (put c w t n) =
  if (copies copy (zlen pre) l).2
  then Ret (true, []) (put c w (set_data (pre ++ made ++ post) t) n)
  else Ret (false, non_null (pre ++ made)) (World (w_stacks w) n).
Proof.
  intros c. induction l as [|x l IH]; intros pre post t E; cbn [length copy_loop copies fst snd].
  - cbn [app] in *. rewrite <- E. by destruct t.
  - rewrite (bind_Ret _ _ _ _ _ (load_at c w n pre x (l ++ post) t E)).
    assert (Hnext : forall q t', data t' = (pre ++ [q]) ++ l ++ post -> set_data [] t' = set_data [] t ->
      copy_loop copy (length l) (Some c) (zlen pre + 1) (put c w t' n) =
      if (copies copy (zlen pre + 1) l).2
      then Ret (true, []) (put c w (set_data (pre ++ (q :: (copies copy (zlen pre + 1) l).1) ++ post) t) n)
      else Ret (false, non_null (pre ++ q :: (copies copy (zlen pre + 1) l).1)) (World (w_stacks w) n)).
    { intros q t' E' Ht. specialize (IH (pre ++ [q]) post t' E'). rewrite zlen_app in IH.
      change (zlen [q]) with 1 in IH. cbn zeta in IH. rewrite IH.
      destruct (copies copy (zlen pre + 1) l) as [made ok]. cbn [fst snd].
      rewrite <- !app_assoc. cbn [app]. destruct ok; [|done]. do 2 f_equal.
      unfold set_data in *. injection Ht as -> -> -> ->. done. }
    destruct (Z.eqb_spec x NULL) as [->|Hx]; cbn [negb andb].
    { cbn [fst snd]. apply (Hnext NULL t); [by rewrite E, <- app_assoc|done]. }
    assert (Hst : overwrite (data t) (zlen pre) [copy (zlen pre) x] = Some (pre ++ [copy (zlen pre) x] ++ l ++ post))
      by (rewrite E; by apply (overwrite_app pre [x] (l ++ post))).
    rewrite (bind_Ret _ _ _ _ _ (stores_put c w t n _ _ _ Hst)).
    set (q := copy (zlen pre) x) in *. set (t' := set_data _ t).
    rewrite (bind_Ret _ _ _ _ _ (load_at c w n pre q (l ++ post) t' eq_refl)).
    destruct (Z.eqb_spec q NULL) as [Hq|Hq]; cbn [fst snd].
    + pose proof (free_loop_run c w n t' pre [] ([q] ++ l ++ post) eq_refl) as Hf.
      change (zlen []) with 0 in Hf.
      replace (Z.to_nat (zlen pre)) with (length pre) by (unfold zlen; lia).
      rewrite (bind_Ret _ _ _ _ _ Hf), (bind_Ret _ _ _ _ _ (delete_put w t' n)). by rewrite app_nil_r.
    + apply Hnext; [|done]. unfold t'. cbn [data set_data]. by rewrite <- app_assoc.
Qed.

End copy.

Lemma copies_length copy l : forall i, (copies copy i l).2 = true -> zlen (copies copy i l).1 = zlen l.
Proof.
  induction l as [|x l IH]; intros i; [done|]. cbn [copies]. destruct (_ && _); [done|].
  cbn [fst snd]. rewrite !zlen_cons. by intros ->%IH.
Qed.

Lemma copies_words copy l : (forall i p, word (copy i p)) -> forall i, Forall word (copies copy i l).1.
Proof.
  intros Hc. induction l as [|x l IH]; intros i; [constructor|]. cbn [copies].
  destruct (_ && _); [constructor|]. cbn [fst]. constructor; [|apply IH].
  destruct (x =? NULL); [by split|apply Hc].
Qed.

(** C34: a deep copy is all or nothing.  When [sk_deep_copy] returns a stack, every element
    was copied, in order, null pointers kept; the new stack is a fresh object with the
    copies, the comparison function and the mark of the original, and it is sorted if
    the copies are.  When it returns null, either memory was refused before anything was
    copied, or some copy failed: then exactly the copies that were made, all before it,
    are freed, once each, and the new stack is gone.  In all cases the original and
    every other stack are as they were. *)
Theorem deep_copy_all_or_nothing malloc cmp copy w r a :
  malloc_spec malloc -> (forall i p, word (copy i p)) -> rep cmp w r a ->
  let '(made, all) := copies copy 0 (items a) in
  match sk_deep_copy malloc copy (Some r) w with
  | Ret (Some c, freed) w' => all = true /\ freed = [] /\ w_stacks w !! c = None /\
      exists t, w_stacks w' = <[c := t]> (w_stacks w) /\
        ((marked a = true -> in_order cmp (order a) made) -> holds cmp t (AList made (marked a) (order a)))
  | Ret (None, freed) w' => w_stacks w' = w_stacks w /\
      ((all = false /\ freed = non_null made) \/
       (freed = [] /\ forall s, w_stacks w !! r = Some s -> ~ (malloc_total malloc /\ num_alloc s < 2 ^ 58)))
  | _ => False
  end.
Proof.
  intros Hm Hcopy (s & Hr & Hs). unfold sk_deep_copy. pose proof (dup_run malloc Hm cmp w r s a Hr Hs) as H.
  unfold bind at 1. destruct (copies copy 0 (items a)) as [made all] eqn:Ecopies.
  destruct (sk_dup malloc (Some r) w) as [[c|] w1|w1| |]; try done.
  2: { destruct H as [Hw Hno]. split; [done|]. right. split; [done|]. rewrite Hr. by intros s' [= <-]. }
  destruct H as (Hc & t & n & -> & Ht). rewrite (bind_Ret _ _ _ _ _ (get_put c w t n)). cbn [snd].
  pose proof Ht as [[junk Ed] En Ea Hroom Hw Hso Hco _]. rewrite En.
  replace (Z.to_nat (zlen (items a))) with (length (items a)) by (unfold zlen; lia).
  pose proof (copy_loop_run copy w n (items a) [] junk t Ed) as Hrun. cbn zeta in Hrun. rewrite <- Hc in Hrun.
  change (zlen []) with 0 in Hrun. rewrite Ecopies in Hrun. cbn [fst snd app] in Hrun.
  pose proof (copies_length copy (items a) 0) as Hlen. pose proof (copies_words copy (items a) Hcopy 0) as Hwords.
  rewrite Ecopies in Hlen, Hwords. cbn [fst snd] in Hlen, Hwords.
  destruct all; rewrite (bind_Ret _ _ _ _ _ Hrun); cbn [fst snd]; [|split; [done|by left]].
  specialize (Hlen eq_refl). split; [done|]. split; [done|]. split; [rewrite Hc; apply new_ref_fresh|].
  eexists. split; [reflexivity|]. intros Hord.
  split; cbn [num data num_alloc sorted comp set_data items marked order]; try done.
  - by exists junk.
  - by rewrite En, Hlen.
  - rewrite Ea, Ed, !zlen_app. lia.
  - rewrite Ed in Hw. apply Forall_app in Hw as [_ Hw]. by apply Forall_app.
Qed.

(** Copies of addresses; the third one fails. *)
Definition sample_copy (i p : Z) : Z := if p =? 0x30 then NULL else (p + 0x1000) mod 2 ^ 64.
Definition sample_source : stack_st := Stack 4 [0x10; 0; 0x30; 0x40; 7] 0 5 None.

Lemma deep_copy_all_or_nothing_witness :
  let w := World {[ 1%nat := sample_source ]} 0 in
  let '(made, all) := copies sample_copy 0 [0x10; 0; 0x30; 0x40] in
  match sk_deep_copy sample_malloc sample_copy (Some 1%nat) w with
  | Ret (Some c, freed) w' => all = true /\ freed = [] /\ w_stacks w !! c = None /\
      exists t, w_stacks w' = <[c := t]> (w_stacks w) /\
        ((false = true -> in_order sample_cmp None made) -> holds sample_cmp t (AList made false None))
  | Ret (None, freed) w' => w_stacks w' = w_stacks w /\
      ((all = false /\ freed = non_null made) \/
       (freed = [] /\ forall s, w_stacks w !! 1%nat = Some s -> ~ (malloc_total sample_malloc /\ num_alloc s < 2 ^ 58)))
  | _ => False
  end.
Proof.
  assert (Hc : forall i p, word (sample_copy i p)).
  { intros i p. unfold sample_copy. destruct (p =? 0x30); [by split|]. by apply Z.mod_pos_bound. }
  assert (Hr : rep sample_cmp (World {[ 1%nat := sample_source ]} 0) 1 (AList [0x10; 0; 0x30; 0x40] false None)).
  { exists sample_source. split; [reflexivity|]. split; try done; [by exists [7]|].
    repeat constructor; done. }
  pose proof (deep_copy_all_or_nothing sample_malloc sample_cmp sample_copy _ _ _ sample_malloc_spec Hc Hr) as H.
  exact H.
Defined.
