(* ===== verification/Cbb.v ===== *)
(** * BoringSSL byte builders (crypto/bytestring/cbb.c)

    A [CBB] is an object of its caller that points to the buffer it shares with the
    CBBs above and below it, and to the child whose length prefix is still to be
    written.  The model keeps the two stores explicit: [w_cbbs] holds the live CBB
    objects and [w_bases] the live buffer objects, both by address, so that a CBB
    whose buffer is gone, or whose child has left its scope, is a dangling pointer
    and its use is [Ub].  A failed assertion is [Ub] too.  The bytes that [buf] points
    to are a value of the buffer object: they go with it, and a call that frees only
    them has no effect of its own here. *)
From S2P Require Import Prelude Decimal Cbs OsslMem.

(** [buf] is the whole block, [len] of whose bytes are valid. *)
Record cbb_buffer_st : Type := Buffer {
  b_buf : list Z; b_len : Z; b_cap : Z; b_can_resize : bool; b_error : bool }.

(** A null [base] or [child] is [None]. *)
Record cbb_st : Type := CBB {
  c_base : option nat; c_child : option nat; c_offset : Z;
  c_pending_len_len : Z; c_pending_is_asn1 : bool; c_is_child : bool }.

(** [w_allocs] counts the calls to the allocator. *)
Record world : Type := World {
  w_cbbs : gmap nat cbb_st; w_bases : gmap nat cbb_buffer_st; w_allocs : nat }.

(** ** Access to the stores *)

Definition put_cbb (r : nat) (c : cbb_st) : M world unit := modm (fun w =>
  World (<[r := c]> (w_cbbs w)) (w_bases w) (w_allocs w)).
Definition get_cbb (r : nat) : M world cbb_st := fun w =>
  match w_cbbs w !! r with Some c => Ret c w | None => Ub end.
Definition put_base (b : nat) (x : cbb_buffer_st) : M world unit := modm (fun w =>
  World (w_cbbs w) (<[b := x]> (w_bases w)) (w_allocs w)).
Definition del_base (b : nat) : M world unit := modm (fun w =>
  World (w_cbbs w) (delete b (w_bases w)) (w_allocs w)).
(** Access through a pointer that may be null. *)
Definition get_base (p : option nat) : M world (nat * cbb_buffer_st) := fun w =>
  match p with
  | None => Ub
  | Some b => match w_bases w !! b with Some x => Ret (b, x) w | None => Ub end
  end.

Definition set_len (n : Z) (x : cbb_buffer_st) : cbb_buffer_st :=
  Buffer (b_buf x) n (b_cap x) (b_can_resize x) (b_error x).
Definition set_buf (l : list Z) (x : cbb_buffer_st) : cbb_buffer_st :=
  Buffer l (b_len x) (b_cap x) (b_can_resize x) (b_error x).
Definition set_block (l : list Z) (cap : Z) (x : cbb_buffer_st) : cbb_buffer_st :=
  Buffer l (b_len x) cap (b_can_resize x) (b_error x).
Definition set_error (x : cbb_buffer_st) : cbb_buffer_st :=
  Buffer (b_buf x) (b_len x) (b_cap x) (b_can_resize x) true.
Definition set_base (p : option nat) (c : cbb_st) : cbb_st :=
  CBB p (c_child c) (c_offset c) (c_pending_len_len c) (c_pending_is_asn1 c) (c_is_child c).
Definition set_child (p : option nat) (c : cbb_st) : cbb_st :=
  CBB (c_base c) p (c_offset c) (c_pending_len_len c) (c_pending_is_asn1 c) (c_is_child c).
Definition set_prefix (offset pending : Z) (c : cbb_st) : cbb_st :=
  CBB (c_base c) (c_child c) offset pending (c_pending_is_asn1 c) (c_is_child c).

Definition upd_base (p : option nat) (f : cbb_buffer_st -> cbb_buffer_st) : M world unit :=
  let! x := get_base p in put_base x.1 (f x.2).
Definition upd_cbb (r : nat) (f : cbb_st -> cbb_st) : M world unit :=
  let! c := get_cbb r in put_cbb r (f c).

(** Stores into and loads from the block of a buffer. *)
Definition put_bytes (p : option nat) (i : Z) (data : list Z) : M world unit :=
  let! x := get_base p in
  let! l := of_opt (overwrite (b_buf x.2) i data) in
  put_base x.1 (set_buf l x.2).

Definition get_bytes (p : option nat) (i n : Z) : M world (list Z) :=
  let! x := get_base p in of_opt (slice (b_buf x.2) i n).

Definition zero_cbb : cbb_st := CBB None None 0 0 false false.

Section cbb.
Context (malloc : nat -> Z -> option (list Z)).

Definition alloc (size : Z) : M world (option (list Z)) := fun w =>
  Ret (OPENSSL_malloc malloc (w_allocs w) size)
      (World (w_cbbs w) (w_bases w) (S (w_allocs w))).
Definition realloc (orig : list Z) (size : Z) : M world (option (list Z)) := fun w =>
  Ret (OPENSSL_realloc malloc (w_allocs w) orig size)
      (World (w_cbbs w) (w_bases w) (S (w_allocs w))).

Definition memdup (data : list Z) : M world (option (list Z)) := fun w =>
  Ret (OPENSSL_memdup malloc (w_allocs w) data)
      (World (w_cbbs w) (w_bases w) (S (w_allocs w))).

(** ** Life of a builder *)

Definition CBB_zero (r : nat) : M world unit := put_cbb r zero_cbb.

(** [sizeof(struct cbb_buffer_st)] on a 64-bit target. *)
Definition sizeof_buffer : Z := 32.

Definition cbb_init (r : nat) (buf : list Z) (cap : Z) : M world unit :=
  let! block := alloc sizeof_buffer in
  match block with
  | None => failm
  | Some _ =>
      let! w := getm in
      let b := new_ref (w_bases w) in
      put_base b (Buffer buf 0 cap true false) ;;!
      upd_cbb r (fun c => CBB (Some b) (c_child c) (c_offset c) (c_pending_len_len c)
                            (c_pending_is_asn1 c) false)
  end.

(** When the buffer object cannot be allocated, [buf] is freed: nothing holds it. *)
Definition CBB_init (r : nat) (initial_capacity : Z) : M world unit :=
  CBB_zero r ;;!
  let! buf := alloc initial_capacity in
  match buf with
  | None => if 0 <? initial_capacity then failm else cbb_init r [] initial_capacity
  | Some buf => cbb_init r buf initial_capacity
  end.

Definition CBB_init_fixed (r : nat) (buf : list Z) (len : Z) : M world unit :=
  CBB_zero r ;;!
  cbb_init r buf len ;;!
  let! c := get_cbb r in
  upd_base (c_base c) (fun x => Buffer (b_buf x) (b_len x) (b_cap x) false (b_error x)).

(** The buffer object is freed, and [buf] with it if it can be resized; the bytes of a
    fixed buffer are the caller's again. *)
Definition CBB_cleanup (r : nat) : M world unit :=
  let! c := get_cbb r in
  if c_is_child c then ubm
  else
    (match c_base c with
     | None => ret tt
     | Some _ => let! x := get_base (c_base c) in del_base x.1
     end) ;;!
    upd_cbb r (set_base None).

(** ** The buffer *)

Definition buffer_error {A} (p : option nat) : M world A :=
  upd_base p set_error ;;! failm.

(** Returns the offset of [*out] in the block. *)
Definition cbb_buffer_reserve (p : option nat) (len : Z) : M world Z :=
  match p with
  | None => failm
  | Some _ =>
      let! x := get_base p in
      let base := x.2 in
      let newlen := u64 (b_len base + len) in
      if newlen <? b_len base then buffer_error p
      else
        (if b_cap base <? newlen then
           let newcap := u64 (b_cap base * 2) in
           if negb (b_can_resize base) then buffer_error p
           else
             let newcap := if (newcap <? b_cap base) || (newcap <? newlen)
                           then newlen else newcap in
             let! newbuf := realloc (b_buf base) newcap in
             match newbuf with
             | None => buffer_error p
             | Some newbuf => upd_base p (set_block newbuf newcap)
             end
         else ret tt) ;;!
        ret (b_len base)
  end.

Definition cbb_buffer_add (p : option nat) (len : Z) : M world Z :=
  let! out := cbb_buffer_reserve p len in
  upd_base p (fun x => set_len (b_len x + len) x) ;;!
  ret out.

(** [for (i = n - 1; i < n; i--) { buf[at + i] = v; v >>= 8; }] *)
Fixpoint store_be (p : option nat) (n : nat) (at_ v : Z) : M world Z :=
  match n with
  | O => ret v
  | S i => put_bytes p (at_ + Z.of_nat i) [u8 v] ;;! store_be p i at_ (Z.shiftr v 8)
  end.

Definition cbb_buffer_add_u (p : option nat) (v len_len : Z) : M world unit :=
  if len_len =? 0 then ret tt
  else
    let! buf := cbb_buffer_add p len_len in
    let! v := store_be p (Z.to_nat len_len) buf v in
    if negb (v =? 0) then buffer_error p else ret tt.

(** ** Pending length prefixes *)

(** [len_len], [initial_length_byte] and the new [len]; [None] is [goto err]. *)
Definition asn1_length_form (len : Z) : option (Z * Z * Z) :=
  if 0xfffffffe <? len then None
  else if 0xffffff <? len then Some (5, Z.lor 0x80 4, len)
  else if 0xffff <? len then Some (4, Z.lor 0x80 3, len)
  else if 0xff <? len then Some (3, Z.lor 0x80 2, len)
  else if 0x7f <? len then Some (2, Z.lor 0x80 1, len)
  else Some (1, u8 len, 0).

(** The branch for [pending_is_asn1]: makes room for the length, writes its first
    byte, moves the child's prefix past it; returns the new [len]. *)
Definition flush_asn1 (p : option nat) (ch : nat) (child_start len : Z) : M world Z :=
  let! child := get_cbb ch in
  if negb (c_pending_len_len child =? 1) then ubm
  else
    match asn1_length_form len with
    | None => failm
    | Some (len_len, initial_length_byte, len) =>
        (if negb (len_len =? 1) then
           let extra_bytes := len_len - 1 in
           cbb_buffer_add p extra_bytes ;;!
           let! contents := get_bytes p child_start len in
           put_bytes p (child_start + extra_bytes) contents
         else ret tt) ;;!
        put_bytes p (c_offset child) [initial_length_byte] ;;!
        upd_cbb ch (set_prefix (u64 (c_offset child + 1)) (len_len - 1)) ;;!
        ret len
    end.

(** The rest of [CBB_flush] once the child has been flushed. *)
Definition flush_prefix (p : option nat) (ch : nat) (child_start : Z) : M world unit :=
  let! child := get_cbb ch in
  let! x := get_base p in
  if (child_start <? c_offset child) || (b_len x.2 <? child_start) then failm
  else
    let len := b_len x.2 - child_start in
    let! len := (if c_pending_is_asn1 child then flush_asn1 p ch child_start len
                 else ret len) in
    let! child := get_cbb ch in
    let! len := store_be p (Z.to_nat (c_pending_len_len child)) (c_offset child) len in
    if negb (len =? 0) then failm else ret tt.

(** [err: cbb->base->error = 1; return 0;] *)
Definition or_err {A} (p : option nat) (m : M world A) : M world A :=
  let! o := tryb m in
  match o with Some a => ret a | None => buffer_error p end.

Fixpoint flush_loop (fuel : nat) (r : nat) : M world unit :=
  match fuel with
  | O => nofuelm
  | S k =>
      let! cbb := get_cbb r in
      match c_base cbb with
      | None => failm
      | Some _ =>
          let! x := get_base (c_base cbb) in
          if b_error x.2 then failm
          else
            match c_child cbb with
            | None => ret tt
            | Some ch =>
                let! child := get_cbb ch in
                if c_pending_len_len child =? 0 then ret tt
                else
                  let child_start := u64 (c_offset child + c_pending_len_len child) in
                  or_err (c_base cbb) (flush_loop k ch ;;! flush_prefix (c_base cbb) ch child_start) ;;!
                  upd_cbb ch (set_base None) ;;!
                  upd_cbb r (set_child None)
            end
      end
  end.

(** One round for each object is enough for a chain without a cycle. *)
Definition CBB_flush (r : nat) : M world unit := fun w =>
  flush_loop (S (size (w_cbbs w))) r w.

(** Returns [*out_data] (the block) and [*out_len]; the arguments say which of the
    two out-pointers are not null. *)
Definition CBB_finish (r : nat) (want_data want_len : bool) : M world (list Z * Z) :=
  let! c := get_cbb r in
  if c_is_child c then failm
  else
    CBB_flush r ;;!
    let! c := get_cbb r in
    let! x := get_base (c_base c) in
    if b_can_resize x.2 && (negb want_data || negb want_len) then failm
    else
      upd_base (c_base c) (set_buf []) ;;!
      CBB_cleanup r ;;!
      ret (b_buf x.2, b_len x.2).

(** The offset of the contents in the block. *)
Definition CBB_data (r : nat) : M world Z :=
  let! c := get_cbb r in
  match c_child c with
  | Some _ => ubm
  | None => let! x := get_base (c_base c) in ret (c_offset c + c_pending_len_len c)
  end.

Definition CBB_len (r : nat) : M world Z :=
  let! c := get_cbb r in
  match c_child c with
  | Some _ => ubm
  | None =>
      let! x := get_base (c_base c) in
      if b_len x.2 <? c_offset c + c_pending_len_len c then ubm
      else ret (b_len x.2 - c_offset c - c_pending_len_len c)
  end.

(** ** Children *)

(** [memset(out_contents, 0, ...)] and the assignments that follow it. *)
Definition start_child (r out_contents : nat) (base : option nat)
    (offset len_len : Z) (is_asn1 : bool) : M world unit :=
  put_cbb out_contents (set_base base (CBB None None 0 0 false true)) ;;!
  upd_cbb r (set_child (Some out_contents)) ;;!
  upd_cbb out_contents (fun c =>
    CBB (c_base c) (c_child c) offset len_len is_asn1 (c_is_child c)).

Definition cbb_add_length_prefixed (r out_contents : nat) (len_len : Z) : M world unit :=
  CBB_flush r ;;!
  let! c := get_cbb r in
  let! x := get_base (c_base c) in
  let offset := b_len x.2 in
  let! prefix_bytes := cbb_buffer_add (c_base c) len_len in
  put_bytes (c_base c) prefix_bytes (replicate (Z.to_nat len_len) 0) ;;!
  start_child r out_contents (c_base c) offset len_len false.

Definition CBB_add_u8_length_prefixed (r out_contents : nat) : M world unit :=
  cbb_add_length_prefixed r out_contents 1.
Definition CBB_add_u16_length_prefixed (r out_contents : nat) : M world unit :=
  cbb_add_length_prefixed r out_contents 2.
Definition CBB_add_u24_length_prefixed (r out_contents : nat) : M world unit :=
  cbb_add_length_prefixed r out_contents 3.

(** ** Contents *)

Definition cbb_add_u (r : nat) (value len_len : Z) : M world unit :=
  CBB_flush r ;;!
  let! c := get_cbb r in
  cbb_buffer_add_u (c_base c) value len_len.

Definition CBB_add_u8 (r : nat) (value : Z) : M world unit := cbb_add_u r (u8 value) 1.
Definition CBB_add_u16 (r : nat) (value : Z) : M world unit := cbb_add_u r (u16 value) 2.
Definition CBB_add_u16le (r : nat) (value : Z) : M world unit :=
  CBB_add_u16 r (bswap 2 (u16 value)).
Definition CBB_add_u24 (r : nat) (value : Z) : M world unit := cbb_add_u r (u32 value) 3.
Definition CBB_add_u32 (r : nat) (value : Z) : M world unit := cbb_add_u r (u32 value) 4.
Definition CBB_add_u32le (r : nat) (value : Z) : M world unit :=
  CBB_add_u32 r (bswap 4 (u32 value)).
Definition CBB_add_u64 (r : nat) (value : Z) : M world unit := cbb_add_u r (u64 value) 8.
Definition CBB_add_u64le (r : nat) (value : Z) : M world unit :=
  CBB_add_u64 r (bswap 8 (u64 value)).

(** Returns the offset of [*out_data] in the block. *)
Definition CBB_add_space (r : nat) (len : Z) : M world Z :=
  CBB_flush r ;;!
  let! c := get_cbb r in
  cbb_buffer_add (c_base c) len.

Definition CBB_add_bytes (r : nat) (data : list Z) : M world unit :=
  CBB_flush r ;;!
  let! c := get_cbb r in
  let! dest := cbb_buffer_add (c_base c) (zlen data) in
  put_bytes (c_base c) dest data.

Definition CBB_add_zeros (r : nat) (len : Z) : M world unit :=
  let! out := CBB_add_space r len in
  let! c := get_cbb r in
  put_bytes (c_base c) out (replicate (Z.to_nat len) 0).

Definition CBB_reserve (r : nat) (len : Z) : M world Z :=
  CBB_flush r ;;!
  let! c := get_cbb r in
  cbb_buffer_reserve (c_base c) len.

Definition CBB_did_write (r : nat) (len : Z) : M world unit :=
  let! c := get_cbb r in
  let! x := get_base (c_base c) in
  let newlen := u64 (b_len x.2 + len) in
  if match c_child c with Some _ => true | None => false end
     || (newlen <? b_len x.2) || (b_cap x.2 <? newlen)
  then failm
  else upd_base (c_base c) (set_len newlen).

Definition CBB_discard_child (r : nat) : M world unit :=
  let! c := get_cbb r in
  match c_child c with
  | None => ret tt
  | Some ch =>
      let! child := get_cbb ch in
      upd_base (c_base c) (set_len (c_offset child)) ;;!
      upd_cbb ch (set_base None) ;;!
      upd_cbb r (set_child None)
  end.

(** ** ASN.1 elements *)

(** [while (copy > 0) { len_len++; copy >>= 7; }] on a 64-bit number. *)
Fixpoint count_digits (fuel : nat) (copy : Z) : nat :=
  match fuel with
  | O => O
  | S k => if 0 <? copy then S (count_digits k (Z.shiftr copy 7)) else O
  end.

Fixpoint put_digits (r : nat) (v : Z) (n : nat) : M world unit :=
  match n with
  | O => ret tt
  | S i =>
      let byte := Z.land (Z.shiftr v (7 * Z.of_nat i)) 0x7f in
      let byte := if negb (Z.of_nat i =? 0) then Z.lor byte 0x80 else byte in
      CBB_add_u8 r byte ;;! put_digits r v i
  end.

Definition add_base128_integer (r : nat) (v : Z) : M world unit :=
  let len_len := count_digits 64 v in
  let len_len := if (len_len =? 0)%nat then 1%nat else len_len in
  put_digits r v len_len.

Definition CBB_add_asn1 (r out_contents : nat) (tag : Z) : M world unit :=
  CBB_flush r ;;!
  let tag_bits := Z.land (Z.shiftr tag CBS_ASN1_TAG_SHIFT) 0xe0 in
  let tag_number := Z.land tag CBS_ASN1_TAG_NUMBER_MASK in
  (if 0x1f <=? tag_number then
     CBB_add_u8 r (Z.lor tag_bits 0x1f) ;;! add_base128_integer r tag_number
   else CBB_add_u8 r (Z.lor tag_bits tag_number)) ;;!
  let! c := get_cbb r in
  let! x := get_base (c_base c) in
  let offset := b_len x.2 in
  CBB_add_u8 r 0 ;;!
  start_child r out_contents (c_base c) offset 1 true.

(** A function with a local [CBB child]: the object gets an address of its own and
    is gone when the function returns. *)
Definition with_local {A} (body : nat -> M world A) : M world A := fun w =>
  let child := new_ref (w_cbbs w) in
  let leave w := World (delete child (w_cbbs w)) (w_bases w) (w_allocs w) in
  match body child w with
  | Ret a w => Ret a (leave w)
  | Fail w => Fail (leave w)
  | Ub => Ub
  | NoFuel => NoFuel
  end.

(** The loop over the bytes of [value]; returns [started]. *)
Fixpoint put_uint64_bytes (child : nat) (value : Z) (n : nat) (started : bool) : M world bool :=
  match n with
  | O => ret started
  | S k =>
      let byte := Z.land (Z.shiftr value (8 * Z.of_nat k)) 0xff in
      if negb started && (byte =? 0) then put_uint64_bytes child value k false
      else
        (if negb started && negb (Z.land byte 0x80 =? 0) then CBB_add_u8 child 0
         else ret tt) ;;!
        CBB_add_u8 child byte ;;!
        put_uint64_bytes child value k true
  end.

Definition CBB_add_asn1_uint64 (r : nat) (value : Z) : M world unit :=
  with_local (fun child =>
    CBB_add_asn1 r child CBS_ASN1_INTEGER ;;!
    let! started := put_uint64_bytes child value 8 false in
    (if negb started then CBB_add_u8 child 0 else ret tt) ;;!
    CBB_flush r).

(** The last byte of a negative number that is not a mere sign extension. *)
Fixpoint sign_start (bytes : list Z) (start : nat) : nat :=
  match start with
  | O => O
  | S k => if (nth start bytes 0 =? 0xff) && negb (Z.land (nth k bytes 0) 0x80 =? 0)
           then sign_start bytes k else start
  end.

Fixpoint put_bytes_down (child : nat) (bytes : list Z) (n : nat) : M world unit :=
  match n with
  | O => ret tt
  | S i => CBB_add_u8 child (nth i bytes 0) ;;! put_bytes_down child bytes i
  end.

Definition CBB_add_asn1_int64 (r : nat) (value : Z) : M world unit :=
  if 0 <=? value then CBB_add_asn1_uint64 r value
  else
    let bytes := le_bytes 8 (u64 value) in
    let start := sign_start bytes 7 in
    with_local (fun child =>
      CBB_add_asn1 r child CBS_ASN1_INTEGER ;;!
      put_bytes_down child bytes (S start) ;;!
      CBB_flush r).

Definition CBB_add_asn1_octet_string (r : nat) (data : list Z) : M world unit :=
  with_local (fun child =>
    CBB_add_asn1 r child CBS_ASN1_OCTETSTRING ;;!
    CBB_add_bytes child data ;;!
    CBB_flush r).

Definition CBB_add_asn1_bool (r : nat) (value : Z) : M world unit :=
  with_local (fun child =>
    CBB_add_asn1 r child CBS_ASN1_BOOLEAN ;;!
    CBB_add_u8 child (if negb (value =? 0) then 0xff else 0) ;;!
    CBB_flush r).

(** ** Object identifiers *)

Definition UINT64_MAX : Z := 2 ^ 64 - 1.

Fixpoint decimal_loop (fuel : nat) (out : Z) (seen_digit : bool) : M CBS Z :=
  match fuel with
  | O => nofuelm
  | S k =>
      let! u := tryb CBS_get_u8 in
      let! cbs := getm in
      let stop := if seen_digit then ret out else failm in
      match u with
      | None => stop
      | Some u =>
          if (u =? chr_dot) && (0 <? zlen cbs) then stop
          else if (u <? chr_0) || (chr_9 <? u) || (seen_digit && (out =? 0))
                  || (UINT64_MAX / 10 <? out) || (UINT64_MAX - (u - chr_0) <? u64 (out * 10))
          then failm
          else decimal_loop k (u64 (out * 10 + (u - chr_0))) true
      end
  end.

Definition parse_dotted_decimal : M CBS Z := fun cbs =>
  decimal_loop (S (length cbs)) 0 false cbs.

(** A parser run on a local [CBS]. *)
Definition parse {A} (p : M CBS A) (cbs : CBS) : M world (A * CBS) :=
  match p cbs with
  | Ret a rest => ret (a, rest)
  | Fail _ => failm
  | Ub => ubm
  | NoFuel => nofuelm
  end.

Fixpoint oid_components (fuel : nat) (r : nat) (cbs : CBS) : M world unit :=
  match fuel with
  | O => nofuelm
  | S k =>
      if 0 <? zlen cbs then
        let! p := parse parse_dotted_decimal cbs in
        add_base128_integer r p.1 ;;!
        oid_components k r p.2
      else ret tt
  end.

Definition CBB_add_asn1_oid_from_text (r : nat) (text : list Z) : M world unit :=
  CBB_flush r ;;!
  let! pa := parse parse_dotted_decimal text in
  let! pb := parse parse_dotted_decimal pa.2 in
  let a := pa.1 in
  let b := pb.1 in
  if (2 <? a) || ((a <? 2) && (39 <? b)) || (UINT64_MAX - 80 <? b) then failm
  else
    add_base128_integer r (u64 (40 * a + b)) ;;!
    oid_components (S (length pb.2)) r pb.2.

(** ** Sets *)

(** [memcmp]: the sign of the first difference. *)
Fixpoint memcmp (a b : list Z) (n : nat) : Z :=
  match n, a, b with
  | S k, x :: a, y :: b => if x =? y then memcmp a b k else if x <? y then -1 else 1
  | _, _, _ => 0
  end.

Definition compare_set_of_element (a b : CBS) : Z :=
  let a_len := zlen a in
  let b_len := zlen b in
  let min_len := if a_len <? b_len then a_len else b_len in
  let ret := memcmp a b (Z.to_nat min_len) in
  if negb (ret =? 0) then ret
  else if a_len =? b_len then 0
  else if a_len <? b_len then -1 else 1.

Context (qsort : (CBS -> CBS -> Z) -> list CBS -> list CBS).

(** The first run over the contents counts the elements. *)
Fixpoint count_elements (fuel : nat) (cbs : CBS) : M world Z :=
  match fuel with
  | O => nofuelm
  | S k =>
      if negb (zlen cbs =? 0) then
        let! p := parse CBS_get_any_asn1_element cbs in
        let! num_children := count_elements k p.2 in
        ret (num_children + 1)
      else ret 0
  end.

(** The second run fills the array [children]. *)
Fixpoint take_elements (num_children : nat) (cbs : CBS) : M world (list CBS) :=
  match num_children with
  | O => ret []
  | S k =>
      let! p := parse CBS_get_any_asn1_element cbs in
      let! children := take_elements k p.2 in
      ret (el_out p.1 :: children)
  end.

Fixpoint add_elements (r : nat) (children : list CBS) : M world unit :=
  match children with
  | [] => ret tt
  | c :: l => CBB_add_bytes r c ;;! add_elements r l
  end.

(** [sizeof(CBS)] on a 64-bit target. *)
Definition sizeof_CBS : Z := 16.

Definition CBB_flush_asn1_set_of (r : nat) : M world unit :=
  CBB_flush r ;;!
  let! c := get_cbb r in
  let! data := CBB_data r in
  let! buf_len := CBB_len r in
  let! buf := get_bytes (c_base c) data buf_len in
  let! num_children := count_elements (S (length buf)) buf in
  if num_children <? 2 then ret tt
  else if UINT64_MAX / sizeof_CBS <? num_children then failm
  else
    let! copy := memdup buf in
    let! array := alloc (num_children * sizeof_CBS) in
    match copy, array with
    | Some copy, Some _ =>
        let! children := take_elements (Z.to_nat num_children) copy in
        upd_base (c_base c) (set_len (c_offset c + c_pending_len_len c)) ;;!
        add_elements r (qsort compare_set_of_element children) ;;!
        let! len := CBB_len r in
        if len =? buf_len then ret tt else ubm
    | _, _ => failm
    end.

End cbb.
