(* ===== verification/DerInt.v ===== *)
(** * DER integers

    The minimal two's complement form of an INTEGER (X.690, section 8.3), as a
    reference for the readers of [Cbs] and the writers of [Cbb]. *)
From S2P Require Import Prelude Cbs CbsSpec.

(** [v] is a two's complement number of [n] bytes. *)
Definition int_fits (n : nat) (v : Z) : bool :=
  (- 2 ^ (8 * Z.of_nat n - 1) <=? v) && (v <? 2 ^ (8 * Z.of_nat n - 1)).

Fixpoint least_fit (fuel n : nat) (v : Z) : nat :=
  match fuel with
  | O => n
  | S k => if int_fits n v then n else least_fit k (S n) v
  end.

(** For numbers of at most nine bytes. *)
Definition der_int (v : Z) : list Z := be_bytes (least_fit 9 1 v) v.

(** ** Lemmas *)

Lemma pow256 n : 0 <= n -> 2 ^ (8 * n) = 256 ^ n.
Proof. intros. rewrite Z.pow_mul_r by lia. done. Qed.

Lemma be_bytes_shape n : forall v,
  be_bytes (S n) v = (v / 256 ^ Z.of_nat n) mod 256 :: be_bytes n v.
Proof.
  induction n as [|n IH]; intros v; [by cbn; rewrite Z.div_1_r|].
  cbn [be_bytes] in IH |- *. rewrite IH. cbn [app]. f_equal. rewrite Z.div_div by lia.
  replace (Z.of_nat (S n)) with (1 + Z.of_nat n) by lia. by rewrite Z.pow_add_r by lia.
Qed.

Lemma zlen_be n v : zlen (be_bytes n v) = Z.of_nat n.
Proof. unfold zlen. by rewrite (proj2 (be_bytes_ok n v)). Qed.

Lemma be_value_mod n : forall v, be_value 0 (be_bytes n v) = v mod 256 ^ Z.of_nat n.
Proof.
  induction n as [|n IH]; intros v; [by rewrite Z.mod_1_r|]. cbn [be_bytes].
  rewrite be_value_snoc, IH. replace (Z.of_nat (S n)) with (1 + Z.of_nat n) by lia.
  pose proof (Z.pow_pos_nonneg 256 (Z.of_nat n) ltac:(lia) ltac:(lia)).
  rewrite Z.pow_add_r, Z.pow_1_r, Z.rem_mul_r by lia. lia.
Qed.

(** The range of a number of [m + 1] bytes. *)
Lemma int_fits_range m v : int_fits (S m) v = true <->
  - (128 * 256 ^ Z.of_nat m) <= v < 128 * 256 ^ Z.of_nat m.
Proof.
  unfold int_fits. replace (8 * Z.of_nat (S m) - 1) with (7 + 8 * Z.of_nat m) by lia.
  rewrite Z.pow_add_r, pow256 by lia. change (2 ^ 7) with 128.
  rewrite andb_true_iff, Z.leb_le, Z.ltb_lt. lia.
Qed.

(** The bytes at the top of such a number. *)
Lemma top_byte m v : int_fits (S m) v = true ->
  let q := v / 256 ^ Z.of_nat m in -128 <= q <= 127 /\ (0 <= q <-> 0 <= v).
Proof.
  intros Hv%int_fits_range. pose proof (Z.pow_pos_nonneg 256 (Z.of_nat m) ltac:(lia) ltac:(lia)).
  cbn zeta. set (P := 256 ^ Z.of_nat m) in *.
  pose proof (Z.div_mod v P ltac:(lia)). pose proof (Z.mod_pos_bound v P ltac:(lia)).
  split; [split; [apply Z.div_le_lower_bound; lia|]|].
  - assert (v / P < 128) by (apply Z.div_lt_upper_bound; lia). lia.
  - split; [intros; nia|intros; by apply Z.div_pos].
Qed.

Lemma signed_be_bytes m v : int_fits (S m) v = true -> signed_be (be_bytes (S m) v) = v.
Proof.
  intros Hf. pose proof (top_byte m v Hf) as [Hq Hs]. apply int_fits_range in Hf.
  pose proof (be_value_mod (S m) v) as Hbv. pose proof (zlen_be (S m) v) as Hl.
  unfold signed_be. rewrite (be_bytes_shape m v) in *. rewrite Hbv, Hl, pow256 by lia.
  replace (Z.of_nat (S m)) with (1 + Z.of_nat m) by lia. rewrite Z.pow_add_r, Z.pow_1_r by lia.
  set (P := 256 ^ Z.of_nat m) in *. cbn zeta in *. set (q := v / P) in *.
  destruct (Z.le_gt_cases 0 q).
  - rewrite (Z.mod_small q) by lia. bool_true (q <? 128). apply Z.mod_small. lia.
  - rewrite <- (Z.mod_add q 1) by lia. rewrite Z.mod_small by lia. bool_false (q + 1 * 256 <? 128).
    rewrite <- (Z.mod_add v 1) by lia. rewrite Z.mod_small by lia. lia.
Qed.

Lemma minimal_be_bytes m v : int_fits (S (S m)) v = true -> int_fits (S m) v = false ->
  minimal_int (be_bytes (S (S m)) v) = true.
Proof.
  intros Hf Hn. pose proof (top_byte (S m) v Hf) as [Hq _].
  rewrite !be_bytes_shape. cbn [minimal_int]. cbn zeta in Hq.
  assert (Hr : v < - (128 * 256 ^ Z.of_nat m) \/ 128 * 256 ^ Z.of_nat m <= v).
  { destruct (Z.lt_ge_cases v (- (128 * 256 ^ Z.of_nat m))); [by left|].
    destruct (Z.lt_ge_cases v (128 * 256 ^ Z.of_nat m)); [|by right].
    exfalso. assert (int_fits (S m) v = true) by (apply int_fits_range; lia). congruence. }
  replace (Z.of_nat (S m)) with (Z.of_nat m + 1) in * by lia.
  rewrite Z.pow_add_r, Z.pow_1_r in * by lia.
  pose proof (Z.pow_pos_nonneg 256 (Z.of_nat m) ltac:(lia) ltac:(lia)).
  set (P := 256 ^ Z.of_nat m) in *. rewrite <- Z.div_div in * by lia.
  pose proof (Z.div_mod v P ltac:(lia)). pose proof (Z.mod_pos_bound v P ltac:(lia)).
  set (p := v / P) in *.
  pose proof (Z.div_mod p 256 ltac:(lia)). pose proof (Z.mod_pos_bound p 256 ltac:(lia)).
  assert (Hp : p < -128 \/ 128 <= p).
  { destruct Hr; [left; nia|right]. apply Z.div_le_lower_bound; lia. }
  set (q := p / 256) in *.
  assert (Hqm : q mod 256 = if q <? 0 then q + 256 else q).
  { destruct (Z.ltb_spec q 0).
    - rewrite <- (Z.mod_add q 1) by lia. rewrite Z.mod_small by lia. lia.
    - apply Z.mod_small. lia. }
  rewrite Hqm. clear Hqm.
  destruct (Z.ltb_spec q 0), (Z.eqb_spec (if true then q + 256 else q) 0);
    repeat case_bool; cbn [andb negb]; try done; lia.
Qed.

Lemma least_fit_spec fuel : forall n v, int_fits (n + fuel) v = true ->
  let k := least_fit fuel n v in
  int_fits k v = true /\ (n <= k <= n + fuel)%nat /\
  (n < k -> int_fits (pred k) v = false)%nat.
Proof.
  induction fuel as [|fuel IH]; intros n v Hf; cbn [least_fit].
  - rewrite Nat.add_0_r in Hf. cbn zeta. split; [done|]. split; [lia|lia].
  - destruct (int_fits n v) eqn:E; cbn zeta; [split; [done|]; split; lia|].
    replace (n + S fuel)%nat with (S n + fuel)%nat in Hf by lia.
    destruct (IH (S n) v Hf) as (H1 & H2 & H3). split; [done|]. split; [lia|].
    intros _. destruct (Nat.eq_dec (least_fit fuel (S n) v) (S n)) as [->|]; [done|].
    apply H3. lia.
Qed.

(** [n] bytes are the fewest that hold [v]. *)
Lemma least_fit_eq fuel : forall n v k,
  int_fits k v = true -> (n <= k <= n + fuel)%nat ->
  (forall j, (n <= j < k)%nat -> int_fits j v = false) -> least_fit fuel n v = k.
Proof.
  induction fuel as [|fuel IH]; intros n v k Hk Hn Hj; cbn [least_fit]; [lia|].
  destruct (int_fits n v) eqn:E.
  - destruct (Nat.eq_dec n k); [done|]. rewrite Hj in E; [done|lia].
  - destruct (Nat.eq_dec n k) as [->|]; [congruence|]. apply IH; [done|lia|].
    intros j ?. apply Hj. lia.
Qed.

Lemma int_fits_mono j k v : (1 <= j <= k)%nat -> int_fits j v = true -> int_fits k v = true.
Proof.
  intros Hjk. destruct j as [|j]; [lia|]. destruct k as [|k]; [lia|]. rewrite !int_fits_range.
  assert (256 ^ Z.of_nat j <= 256 ^ Z.of_nat k) by (apply Z.pow_le_mono_r; lia). lia.
Qed.

Lemma least_fit_one k v :
  int_fits (S k) v = true -> (k <= 9)%nat -> (k <> O -> int_fits k v = false) ->
  least_fit 9 1 v = S k.
Proof.
  intros Hk H9 Hn. apply least_fit_eq; [done|lia|]. intros j Hj.
  destruct (int_fits j v) eqn:E; [|done]. exfalso.
  assert (int_fits k v = true) by (apply (int_fits_mono j); [lia|done]).
  rewrite Hn in *; [done|lia].
Qed.

(** The reference form is minimal and stands for its number. *)
Lemma der_int_spec v : - 2 ^ 63 <= v < 2 ^ 64 ->
  bytes_ok (der_int v) /\ minimal_int (der_int v) = true /\ signed_be (der_int v) = v /\
  1 <= zlen (der_int v) <= 9 /\ (v < 2 ^ 63 -> zlen (der_int v) <= 8).
Proof.
  intros Hv. unfold der_int. change (2 ^ 63) with 9223372036854775808 in *.
  change (2 ^ 64) with 18446744073709551616 in Hv.
  assert (H9 : int_fits 9 v = true).
  { apply int_fits_range. change (256 ^ Z.of_nat 8) with 18446744073709551616. lia. }
  destruct (least_fit_spec 9 1 v (int_fits_mono 9 10 v ltac:(lia) H9)) as (Hf & Hk & Hn).
  set (k := least_fit 9 1 v) in *. cbn zeta in *.
  assert (Hle : forall j, (1 <= j)%nat -> int_fits j v = true -> (k <= j)%nat).
  { intros j Hj Hjv. destruct (Nat.le_gt_cases k j); [done|]. specialize (Hn ltac:(lia)).
    rewrite (int_fits_mono j) in Hn; [done|lia|done]. }
  rewrite zlen_be. split; [apply be_bytes_ok|].
  destruct k as [|k']; [lia|]. split.
  - destruct k' as [|m]; [done|]. apply minimal_be_bytes; [done|]. apply Hn. lia.
  - split; [by apply signed_be_bytes|]. split; [pose proof (Hle 9%nat ltac:(lia) H9); lia|]. intros Hs.
    assert (H8 : (S k' <= 8)%nat); [|lia]. apply Hle; [lia|].
    apply int_fits_range. change (256 ^ Z.of_nat 7) with 72057594037927936. lia.
Qed.
