(* ===== verification/CbbFrames.v ===== *)
(** * BoringSSL CBB: an abstract builder

    The specification of cbb.c is a stack of open frames, innermost first.  A frame
    is a length-prefixed string, or the contents of an ASN.1 element, that is still
    being written; closing one appends its length and its bytes to the frame around
    it.  An operation on a CBB first closes every frame opened inside it.  This file
    defines the builder, the relation that ties it to the stores of [Cbb], and the
    judgement [does] by which an operation is proved to implement it. *)
From S2P Require Import Prelude Cbs OsslMem Cbb CbsSpec.

(** ** Frames *)

(** The CBB that writes the frame, the width of its length prefix, whether it is an
    ASN.1 element (whose prefix starts at one byte), and what it holds so far. *)
Record frame : Type := Frame {
  f_ref : nat; f_width : Z; f_asn1 : bool; f_data : list Z }.

Definition append (data : list Z) (f : frame) : frame :=
  Frame (f_ref f) (f_width f) (f_asn1 f) (f_data f ++ data).

(** The length prefix of a closed frame; [None] when the length does not fit. *)
Definition prefix (f : frame) : option (list Z) :=
  let n := zlen (f_data f) in
  if f_asn1 f then (if n <=? 0xfffffffe then Some (der_length n) else None)
  else if n <? 256 ^ f_width f then Some (be_bytes (Z.to_nat (f_width f)) n) else None.

Definition enclose (f : frame) : option (list Z) :=
  match prefix f with Some p => Some (p ++ f_data f) | None => None end.

(** What a call makes of the builder: it succeeds, it is refused and the builder can
    still be used, or it breaks the builder for good. *)
Inductive verdict : Type :=
| Ok (fs : list frame)
| No (fs : list frame)
| Dead.

Definition vbind (v : verdict) (k : list frame -> verdict) : verdict :=
  match v with Ok fs => k fs | No fs => No fs | Dead => Dead end.

(** Close the frames inside the one of [r]; [inner] is what the last one closed adds
    to the frame around it. *)
Fixpoint close_to (r : nat) (inner : list Z) (fs : list frame) : verdict :=
  match fs with
  | [] => Dead
  | f :: outer =>
      let f := append inner f in
      if (f_ref f =? r)%nat then Ok (f :: outer)
      else match enclose f with
           | None => Dead
           | Some data => close_to r data outer
           end
  end.
Definition spec_flush (r : nat) (fs : list frame) : verdict := close_to r [] fs.

Definition append_top (data : list Z) (fs : list frame) : list frame :=
  match fs with [] => [] | f :: outer => append data f :: outer end.

Definition spec_add (r : nat) (data : list Z) (fs : list frame) : verdict :=
  vbind (spec_flush r fs) (fun fs => Ok (append_top data fs)).

(** A number of [n] bytes, most significant first, that has to fit. *)
Definition spec_add_u (r : nat) (v n : Z) (fs : list frame) : verdict :=
  if v <? 256 ^ n then spec_add r (be_bytes (Z.to_nat n) v) fs else Dead.

Definition spec_prefixed (r out : nat) (n : Z) (fs : list frame) : verdict :=
  vbind (spec_flush r fs) (fun fs => Ok (Frame out n false [] :: fs)).
Definition spec_asn1 (r out : nat) (tag : Z) (fs : list frame) : verdict :=
  vbind (spec_add r (der_tag tag) fs) (fun fs => Ok (Frame out 1 true [] :: fs)).

(** A whole element. *)
Definition spec_element (r : nat) (tag : Z) (body : list Z) (fs : list frame) : verdict :=
  if zlen body <=? 0xfffffffe then spec_add r (der_element tag body) fs else Dead.

(** Drop the frames inside the one of [r]. *)
Fixpoint spec_discard (r : nat) (fs : list frame) : verdict :=
  match fs with
  | [] => Dead
  | f :: outer => if (f_ref f =? r)%nat then Ok fs else spec_discard r outer
  end.

(** ** Representation *)

(** The bytes of the buffer: a pending prefix holds zeros. *)
Fixpoint flat (fs : list frame) : list Z :=
  match fs with
  | [] => []
  | f :: outer => flat outer ++ replicate (Z.to_nat (f_width f)) 0 ++ f_data f
  end.

Definition refs (fs : list frame) : list nat := f_ref <$> fs.

(** The CBB [r] and those around it: the ones that are still open once [r] has been
    flushed. *)
Fixpoint enclosing (r : nat) (fs : list frame) : list nat :=
  match fs with
  | [] => []
  | f :: outer => if (f_ref f =? r)%nat then refs fs else enclosing r outer
  end.

(** The outermost frame has no prefix. *)
Definition frame_ok (top : bool) (f : frame) : Prop :=
  bytes_ok (f_data f) /\
  if top then f_width f = 0 /\ f_asn1 f = false
  else 1 <= f_width f <= 3 /\ (f_asn1 f = true -> f_width f = 1).

Fixpoint frames_ok (fs : list frame) : Prop :=
  match fs with
  | [] => False
  | f :: outer => frame_ok (match outer with [] => true | _ => false end) f /\
                  match outer with [] => True | _ => frames_ok outer end
  end.

Section representation.
Context (malloc : nat -> Z -> option (list Z)) (Hmalloc : malloc_spec malloc).
(** The buffer, the capacity of a buffer that cannot grow, and the outermost CBB. *)
Context (b : nat) (fixed : option Z) (top : nat).

(** Each frame's CBB points to the buffer and to the child inside it; the outermost
    one is [top]. *)
Fixpoint linked (cbbs : gmap nat cbb_st) (child : option nat) (fs : list frame) : Prop :=
  match fs with
  | [] => child = Some top
  | f :: outer =>
      cbbs !! f_ref f = Some (CBB (Some b) child (zlen (flat outer)) (f_width f) (f_asn1 f)
                                (match outer with [] => false | _ => true end)) /\
      linked cbbs (Some (f_ref f)) outer
  end.

Definition buffer_ok (x : cbb_buffer_st) : Prop :=
  zlen (b_buf x) = b_cap x /\ 0 <= b_len x <= b_cap x /\ b_cap x < 2 ^ 64 /\
  b_can_resize x = (match fixed with None => true | Some _ => false end) /\
  match fixed with None => True | Some c => b_cap x = c end.

Definition holds (x : cbb_buffer_st) (data : list Z) : Prop :=
  buffer_ok x /\ b_error x = false /\ exists junk, b_buf x = data ++ junk /\ b_len x = zlen data.

(** The outermost CBB is there to be cleaned up. *)
Definition owned (cbbs : gmap nat cbb_st) : Prop :=
  exists c, cbbs !! top = Some c /\ c_is_child c = false /\ c_base c = Some b.

Definition rep (w : world) (fs : list frame) : Prop :=
  owned (w_cbbs w) /\ frames_ok fs /\ NoDup (refs fs) /\ linked (w_cbbs w) None fs /\
  exists x, w_bases w !! b = Some x /\ holds x (flat fs).

(** The buffer is in the error state: nothing can be added any more. *)
Definition poisoned (w : world) : Prop :=
  owned (w_cbbs w) /\ exists x, w_bases w !! b = Some x /\ buffer_ok x /\ b_error x = true.

(** When [n] bytes are sure to fit. *)
Definition room (n : Z) : Prop :=
  match fixed with Some c => n <= c | None => malloc_total malloc /\ n < 2 ^ 61 end.

Definition target (v : verdict) : option (list frame) :=
  match v with Ok fs | No fs => Some fs | Dead => None end.

(** [m], started on the frames [fs], does what [v] says, or runs out of room. *)
Definition does {A} (slack : Z) (m : M world A) (fs : list frame) (v : verdict) : Prop :=
  forall w, rep w fs ->
  match m w with
  | Ret _ w' => exists fs', v = Ok fs' /\ rep w' fs'
  | Fail w' =>
      (exists fs', v = No fs' /\ rep w' fs') \/
      (poisoned w' /\ forall fs', target v = Some fs' -> ~ room (zlen (flat fs') + slack))
  | _ => False
  end.

(** ** Sizes *)

Definition grows (fs : list frame) (v : verdict) : Prop :=
  forall fs', target v = Some fs' -> zlen (flat fs) <= zlen (flat fs').

Lemma room_le n m : n <= m -> room m -> room n.
Proof. unfold room. destruct fixed; [lia|]. intros ? [? ?]. split; [done|lia]. Qed.

Lemma does_bind {A B} (m : M world A) (k : A -> M world B) fs v u slack :
  0 <= slack ->
  does 0 m fs v -> (forall fs1 a, v = Ok fs1 -> does slack (k a) fs1 (u fs1)) ->
  (forall fs1, v = Ok fs1 -> grows fs1 (u fs1)) ->
  does slack (bind m k) fs (vbind v u).
Proof.
  intros Hs Hm Hk Hg w Hw. specialize (Hm w Hw). unfold bind.
  destruct (m w) as [a w'|w'| |]; try done.
  - destruct Hm as (fs1 & -> & Hw1). cbn [vbind]. by apply (Hk fs1 a).
  - destruct Hm as [(fs1 & -> & Hw1)|[Hp Hr]]; [left; by exists fs1|].
    right. split; [done|]. intros fs' Ht. destruct v as [fs1|fs1|]; cbn [vbind] in Ht; [| |done].
    + intros Hroom. apply (Hr fs1 eq_refl). rewrite Z.add_0_r.
      specialize (Hg fs1 eq_refl fs' Ht). eapply room_le; [|exact Hroom]. lia.
    + intros Hroom. apply (Hr fs' Ht). eapply room_le; [|exact Hroom]. lia.
Qed.

Lemma does_ret {A} (a : A) fs : does 0 (ret a) fs (Ok fs).
Proof. intros w Hw. by exists fs. Qed.

(** A step that only reads. *)
Lemma does_read {A B} (m : M world A) (k : A -> M world B) fs v slack (P : A -> Prop) :
  (forall w, rep w fs -> exists a, m w = Ret a w /\ P a) ->
  (forall a, P a -> does slack (k a) fs v) ->
  does slack (bind m k) fs v.
Proof.
  intros Hm Hk w Hw. destruct (Hm w Hw) as (a & E & Ha).
  rewrite (bind_Ret _ _ _ _ _ E). by apply Hk.
Qed.

Lemma does_ext {A} (m m' : M world A) fs v slack :
  (forall w, m w = m' w) -> does slack m fs v -> does slack m' fs v.
Proof. intros E Hm w Hw. rewrite <- E. by apply Hm. Qed.

End representation.
