(* ===== verification/CbbBuffer.v ===== *)
(** * BoringSSL CBB: the buffer

    What the buffer operations of cbb.c do to a buffer that holds some bytes. *)
From S2P Require Import Prelude Cbs OsslMem Cbb CbsSpec CbbFrames.

(** ** Access to the stores *)

Definition with_base (w : world) (b : nat) (x : cbb_buffer_st) : world :=
  World (w_cbbs w) (<[b := x]> (w_bases w)) (w_allocs w).
Definition with_allocs (w : world) (n : nat) : world :=
  World (w_cbbs w) (w_bases w) n.

Lemma with_base_twice w b x y : with_base (with_base w b x) b y = with_base w b y.
Proof. unfold with_base. cbn. by rewrite insert_insert_eq. Qed.

Lemma with_base_lookup w b x : w_bases (with_base w b x) !! b = Some x.
Proof. apply lookup_insert_eq. Qed.

Lemma with_base_same w b x : w_bases w !! b = Some x -> with_base w b x = w.
Proof. intros H. unfold with_base. rewrite insert_id by done. by destruct w. Qed.

Lemma get_base_run w b x : w_bases w !! b = Some x -> get_base (Some b) w = Ret (b, x) w.
Proof. intros H. unfold get_base. by rewrite H. Qed.

Lemma upd_base_run w b x f : w_bases w !! b = Some x ->
  upd_base (Some b) f w = Ret tt (with_base w b (f x)).
Proof. intros H. unfold upd_base. by rewrite (bind_Ret _ _ _ _ _ (get_base_run _ _ _ H)). Qed.

Lemma buffer_error_run {A} w b x : w_bases w !! b = Some x ->
  buffer_error (A := A) (Some b) w = Fail (with_base w b (set_error x)).
Proof. intros H. unfold buffer_error. by rewrite (bind_Ret _ _ _ _ _ (upd_base_run _ _ _ _ H)). Qed.

Lemma get_cbb_run w r c : w_cbbs w !! r = Some c -> get_cbb r w = Ret c w.
Proof. intros H. unfold get_cbb. by rewrite H. Qed.

Lemma upd_cbb_run w r c f : w_cbbs w !! r = Some c ->
  upd_cbb r f w = Ret tt (World (<[r := f c]> (w_cbbs w)) (w_bases w) (w_allocs w)).
Proof. intros H. unfold upd_cbb. by rewrite (bind_Ret _ _ _ _ _ (get_cbb_run _ _ _ H)). Qed.

Lemma put_bytes_run w b x pre old post data i :
  w_bases w !! b = Some x -> b_buf x = pre ++ old ++ post ->
  i = zlen pre -> zlen old = zlen data ->
  put_bytes (Some b) i data w = Ret tt (with_base w b (set_buf (pre ++ data ++ post) x)).
Proof.
  intros Hb Hx Hi E. unfold put_bytes. rewrite (bind_Ret _ _ _ _ _ (get_base_run _ _ _ Hb)).
  cbn [fst snd]. by rewrite Hx, (overwrite_app pre old post data i Hi E).
Qed.

Lemma get_bytes_run w b x pre mid post i n :
  w_bases w !! b = Some x -> b_buf x = pre ++ mid ++ post -> i = zlen pre -> n = zlen mid ->
  get_bytes (Some b) i n w = Ret mid w.
Proof.
  intros Hb Hx Hi E. unfold get_bytes. rewrite (bind_Ret _ _ _ _ _ (get_base_run _ _ _ Hb)).
  cbn [fst snd]. by rewrite Hx, (slice_app pre mid post i n Hi E).
Qed.

(** ** Big-endian stores *)

Lemma be_bytes_snoc n v : be_bytes (S n) v = be_bytes n (v / 256) ++ [v mod 256].
Proof. done. Qed.

Lemma zlen_be_bytes n v : zlen (be_bytes n v) = Z.of_nat n.
Proof. unfold zlen. by rewrite (proj2 (be_bytes_ok n v)). Qed.

Lemma store_be_run n : forall w b x pre old post at_ v,
  w_bases w !! b = Some x -> b_buf x = pre ++ old ++ post ->
  at_ = zlen pre -> zlen old = Z.of_nat n -> 0 <= v ->
  store_be (Some b) n at_ v w =
  Ret (v / 256 ^ Z.of_nat n) (with_base w b (set_buf (pre ++ be_bytes n v ++ post) x)).
Proof.
  induction n as [|n IH]; intros w b x pre old post at_ v Hb Hx Hat Hold Hv; cbn [store_be].
  - destruct old as [|? ?]; [|rewrite zlen_cons in Hold; pose proof (zlen_nonneg old); lia].
    cbn [app] in Hx. rewrite Z.div_1_r. cbn [be_bytes app]. rewrite <- Hx.
    replace (set_buf (b_buf x) x) with x by (by destruct x). by rewrite with_base_same.
  - destruct (exists_last (l := old)) as (old' & o & ->).
    { intros ->. change (zlen (@nil Z)) with 0 in Hold. lia. }
    rewrite zlen_app in Hold. change (zlen [o]) with 1 in Hold.
    rewrite (bind_Ret _ _ _ _ _ (put_bytes_run w b x (pre ++ old') [o] post [u8 v]
      (at_ + Z.of_nat n) Hb ltac:(rewrite Hx, <- !app_assoc; done)
      ltac:(rewrite zlen_app; lia) ltac:(done))).
    rewrite shiftr_div by lia. change (2 ^ 8) with 256.
    rewrite (IH _ b (set_buf ((pre ++ old') ++ [u8 v] ++ post) x) pre old' ([u8 v] ++ post));
      [|apply with_base_lookup|by cbn; rewrite <- app_assoc|done|lia|apply Z.div_pos; lia].
    rewrite with_base_twice. f_equal.
    + replace (Z.of_nat (S n)) with (1 + Z.of_nat n) by lia.
      rewrite Z.pow_add_r, Z.pow_1_r, Z.div_div by lia. done.
    + f_equal. rewrite be_bytes_snoc, <- !app_assoc. done.
Qed.

(** ** Room *)

Section buffer.
Context (malloc : nat -> Z -> option (list Z)) (Hmalloc : malloc_spec malloc).
Context (b : nat) (fixed : option Z).

Local Abbreviation buffer_ok := (buffer_ok fixed).
Local Abbreviation room := (room malloc fixed).

(** The buffer is left with the same bytes and enough capacity, or in the error
    state because the new bytes do not fit. *)
Lemma reserve_run w x n :
  w_bases w !! b = Some x -> buffer_ok x -> 0 <= n < 2 ^ 64 ->
  (exists more a,
     let x' := set_block (b_buf x ++ more) (b_cap x + zlen more) x in
     cbb_buffer_reserve malloc (Some b) n w = Ret (b_len x) (with_allocs (with_base w b x') a) /\
     buffer_ok x' /\ b_len x + n <= b_cap x') \/
  (exists a, cbb_buffer_reserve malloc (Some b) n w = Fail (with_allocs (with_base w b (set_error x)) a) /\
     ~ room (b_len x + n)).
Proof using Hmalloc.
  intros Hb Hx Hn. destruct Hx as (Hcap & Hlen & H64 & Hres & Hfix).
  change (2 ^ 64) with 18446744073709551616 in *.
  unfold cbb_buffer_reserve. rewrite (bind_Ret _ _ _ _ _ (get_base_run _ _ _ Hb)). cbn [snd].
  assert (Herr : forall a w', w' = with_allocs w a ->
    ~ room (b_len x + n) ->
    exists a, buffer_error (A := Z) (Some b) w' = Fail (with_allocs (with_base w b (set_error x)) a) /\
      ~ room (b_len x + n)).
  { intros a w' -> Hr. exists a. split; [|done]. rewrite (buffer_error_run _ b x) by done. done. }
  assert (Hbig : 18446744073709551616 <= b_len x + n -> ~ room (b_len x + n)).
  { intros Hge. unfold CbbFrames.room. destruct fixed; [lia|].
    change (2 ^ 61) with 2305843009213693952. intros [_ ?]. lia. }
  assert (Hw : w = with_allocs w (w_allocs w)) by (by destruct w).
  destruct (Z.lt_ge_cases (b_len x + n) 18446744073709551616) as [Hs|Hs].
  2: { right. replace (u64 (b_len x + n)) with (b_len x + n - 18446744073709551616).
       - bool_true (b_len x + n - 18446744073709551616 <? b_len x).
         apply (Herr (w_allocs w) w Hw), Hbig, Hs.
       - apply (Z.mod_unique_pos _ _ 1); change (2 ^ 64) with 18446744073709551616; lia. }
  rewrite wrap_small by (change (2 ^ 64) with 18446744073709551616; lia).
  bool_false (b_len x + n <? b_len x).
  destruct (Z.ltb_spec (b_cap x) (b_len x + n)) as [Hgrow|Hfit].
  2: { left. exists [], (w_allocs w). cbn zeta. rewrite app_nil_r. change (zlen (@nil Z)) with 0.
       rewrite Z.add_0_r. replace (set_block (b_buf x) (b_cap x) x) with x by (by destruct x).
       rewrite (with_base_same w b x Hb). rewrite <- Hw.
       split; [done|]. split; [|done]. by repeat split; try lia. }
  destruct fixed as [c|] eqn:Ef; rewrite Hres; cbn [negb].
  { right. exists (w_allocs w). unfold bind. rewrite (buffer_error_run _ b x) by done.
    cbn. split; [by rewrite Hw at 1|lia]. }
  set (newcap := if _ || _ then _ else _).
  assert (Hnc : b_len x + n <= newcap < 18446744073709551616 /\ b_cap x <= newcap /\
    (b_len x + n < 2 ^ 61 -> newcap < 2 ^ 62)).
  { pose proof (wrap_range 64 (b_cap x * 2) ltac:(lia)) as Hu.
    pose proof (Z.mod_le (b_cap x * 2) (2 ^ 64) ltac:(lia) ltac:(lia)) as Hle. fold (u64 (b_cap x * 2)) in Hle.
    unfold newcap. change (2 ^ 64) with 18446744073709551616 in *.
    change (2 ^ 61) with 2305843009213693952. change (2 ^ 62) with 4611686018427387904.
    destruct (Z.ltb_spec (u64 (b_cap x * 2)) (b_cap x)),
      (Z.ltb_spec (u64 (b_cap x * 2)) (b_len x + n)); cbn [orb]; lia. }
  clearbody newcap. unfold bind, realloc. cbn beta iota.
  destruct (OPENSSL_realloc malloc (w_allocs w) (b_buf x) newcap) as [block|] eqn:Er.
  - left. apply realloc_spec in Er as (more & -> & Hblock & _); [|done|].
    2: { change (2 ^ 64) with 18446744073709551616. lia. }
    rewrite zlen_app in Hblock. exists more, (S (w_allocs w)). cbn zeta.
    replace (b_cap x + zlen more) with newcap by lia. split; [|split; [|cbn; lia]].
    + rewrite (upd_base_run _ b x) by done. done.
    + unfold CbbFrames.buffer_ok. cbn. rewrite zlen_app.
      change (2 ^ 64) with 18446744073709551616. repeat split; (done || lia).
  - right. rewrite (buffer_error_run _ b x) by done. cbn. eexists.
    split; [done|]. intros [Ht Hr].
    destruct (realloc_total malloc (w_allocs w) (b_buf x) newcap Ht) as [? E]; [lia|].
    by rewrite E in Er.
Qed.

Lemma add_run w x n :
  w_bases w !! b = Some x -> buffer_ok x -> 0 <= n < 2 ^ 64 ->
  (exists more a,
     let x' := set_len (b_len x + n) (set_block (b_buf x ++ more) (b_cap x + zlen more) x) in
     cbb_buffer_add malloc (Some b) n w = Ret (b_len x) (with_allocs (with_base w b x') a) /\
     buffer_ok x') \/
  (exists a, cbb_buffer_add malloc (Some b) n w = Fail (with_allocs (with_base w b (set_error x)) a) /\
     ~ room (b_len x + n)).
Proof using Hmalloc.
  intros Hb Hx Hn. destruct (reserve_run w x n Hb Hx Hn) as [(more & a & E & Hx' & Hle)|(a & E & Hr)].
  - left. exists more, a. cbn zeta. unfold cbb_buffer_add. rewrite (bind_Ret _ _ _ _ _ E).
    split.
    + rewrite (bind_Ret _ _ _ _ _ (upd_base_run (with_allocs (with_base w b _) a) b _ _
        (with_base_lookup w b _))).
      unfold ret, with_allocs, with_base. cbn. by rewrite insert_insert_eq.
    + destruct Hx' as (? & ? & ? & ? & ?). repeat split; cbn in *; (done || lia).
  - right. exists a. split; [|done]. unfold cbb_buffer_add. by rewrite (bind_Fail _ _ _ _ E).
Qed.

(** Room for [n] more bytes, as a buffer that holds [data] and [n] bytes of junk. *)
Lemma add_holds w x data n :
  w_bases w !! b = Some x -> holds fixed x data -> 0 <= n < 2 ^ 64 ->
  (exists x' a old post, cbb_buffer_add malloc (Some b) n w =
       Ret (zlen data) (with_allocs (with_base w b x') a) /\
     b_buf x' = data ++ old ++ post /\ zlen old = n /\
     forall mid, zlen mid = n -> holds fixed (set_buf (data ++ mid ++ post) x') (data ++ mid)) \/
  (exists a, cbb_buffer_add malloc (Some b) n w = Fail (with_allocs (with_base w b (set_error x)) a) /\
     ~ room (zlen data + n)).
Proof using Hmalloc.
  intros Hb (Hx & He & junk & Ebuf & Elen) Hn.
  destruct (add_run w x n Hb Hx Hn) as [(more & a & E & Hx')|(a & E & Hr)].
  - left. set (x' := set_len _ _) in *. destruct Hx' as (Hc & Hl & H64 & Hres & Hfix).
    cbn in Hc, Hl, H64, Hres, Hfix.
    exists x', a, (ztake n (junk ++ more)), (zdrop n (junk ++ more)).
    rewrite <- Elen. split; [done|]. rewrite ztake_zdrop. cbn. rewrite Ebuf, <- app_assoc.
    split; [done|]. rewrite Ebuf, <- app_assoc, zlen_app in Hc.
    assert (Hold : zlen (ztake n (junk ++ more)) = n) by (apply zlen_ztake; lia).
    split; [done|]. intros mid Hmid. split; [|split; [done|]].
    + unfold CbbFrames.buffer_ok. cbn. rewrite !zlen_app, zlen_zdrop by lia.
      rewrite zlen_app in Hc |- *. repeat split; (done || lia).
    + exists (zdrop n (junk ++ more)). cbn. rewrite zlen_app, app_assoc. split; [done|lia].
  - right. exists a. rewrite <- Elen. done.
Qed.

End buffer.
