(* ===== verification/CbbFlush.v ===== *)
(** * BoringSSL CBB: closing frames

    [CBB_flush] closes the frames inside a CBB, innermost first. *)
From S2P Require Import Prelude Cbs OsslMem Cbb CbsSpec CbbFrames CbbBuffer.

(** ** Lemmas on frames *)

Lemma append_nil f : append [] f = f.
Proof. destruct f. unfold append. cbn. by rewrite app_nil_r. Qed.

Lemma append_append a c f : append c (append a f) = append (a ++ c) f.
Proof. unfold append. cbn. by rewrite app_assoc. Qed.

Lemma flat_append data f outer : flat (append data f :: outer) = flat (f :: outer) ++ data.
Proof. cbn. by rewrite <- !app_assoc. Qed.

Lemma flat_cons f outer :
  flat (f :: outer) = flat outer ++ replicate (Z.to_nat (f_width f)) 0 ++ f_data f.
Proof. done. Qed.

Lemma zlen_replicate {A} n (a : A) : 0 <= n -> zlen (replicate (Z.to_nat n) a) = n.
Proof. intros. unfold zlen. rewrite length_replicate. lia. Qed.

(** Close the innermost frame into the one around it. *)
Definition close_top (fs : list frame) : verdict :=
  match fs with
  | g :: f :: outer =>
      match enclose g with Some d => Ok (append d f :: outer) | None => Dead end
  | _ => Dead
  end.

Lemma refs_app a c : refs (a ++ c) = refs a ++ refs c.
Proof. apply fmap_app. Qed.

Lemma close_to_cons r inner f outer :
  close_to r inner (f :: outer) =
  if (f_ref f =? r)%nat then Ok (append inner f :: outer)
  else match enclose (append inner f) with
       | None => Dead
       | Some data => close_to r data outer
       end.
Proof. done. Qed.

Lemma close_to_outer ups g f outer : forall inner,
  NoDup (refs (ups ++ g :: f :: outer)) ->
  close_to (f_ref f) inner (ups ++ g :: f :: outer) =
  vbind (close_to (f_ref g) inner (ups ++ g :: f :: outer)) close_top.
Proof.
  induction ups as [|u ups IH]; intros inner Hnd.
  - cbn [app refs fmap list_fmap] in Hnd. apply NoDup_cons in Hnd as [Hg Hnd].
    cbn [app]. rewrite !close_to_cons, Nat.eqb_refl. cbn [vbind close_top].
    destruct (Nat.eqb_spec (f_ref g) (f_ref f)) as [E|_].
    { exfalso. apply Hg. rewrite E. apply list_elem_of_here. }
    destruct (enclose _); [|done]. by rewrite close_to_cons, Nat.eqb_refl.
  - cbn [app refs fmap list_fmap] in Hnd. apply NoDup_cons in Hnd as [Hu Hnd].
    cbn [app]. rewrite !close_to_cons.
    assert (Hne : forall r, r ∈ refs (ups ++ g :: f :: outer) -> (f_ref u =? r)%nat = false).
    { intros r Hr. apply Nat.eqb_neq. intros E. apply Hu. rewrite E. exact Hr. }
    rewrite !Hne by (rewrite refs_app; cbn [refs fmap list_fmap]; set_solver).
    destruct (enclose _); [|done]. apply IH, Hnd.
Qed.

Lemma flush_top f outer : spec_flush (f_ref f) (f :: outer) = Ok (f :: outer).
Proof. unfold spec_flush. by rewrite close_to_cons, append_nil, Nat.eqb_refl. Qed.

Lemma flush_outer ups g f outer :
  NoDup (refs (ups ++ g :: f :: outer)) ->
  spec_flush (f_ref f) (ups ++ g :: f :: outer) =
  vbind (spec_flush (f_ref g) (ups ++ g :: f :: outer)) close_top.
Proof. apply close_to_outer. Qed.

(** The frame of [r] ends up on top, with the ones around it as they were. *)
Lemma close_to_Ok r fs : forall inner fs', close_to r inner fs = Ok fs' ->
  exists ups f outer data, fs = ups ++ f :: outer /\ f_ref f = r /\
    fs' = append data f :: outer.
Proof.
  induction fs as [|f fs IH]; intros inner fs'; [done|]. rewrite close_to_cons.
  destruct (Nat.eqb_spec (f_ref f) r) as [E|].
  - intros [= <-]. by exists [], f, fs, inner.
  - destruct (enclose _) as [d|]; [|done]. intros (ups & g & outer & data & -> & ? & ->)%IH.
    by exists (f :: ups), g, outer, data.
Qed.

Lemma close_to_at ups f outer : forall inner fs', NoDup (refs (ups ++ f :: outer)) ->
  close_to (f_ref f) inner (ups ++ f :: outer) = Ok fs' ->
  exists data, fs' = append data f :: outer.
Proof.
  induction ups as [|u ups IH]; intros inner fs' Hnd; cbn [app]; rewrite close_to_cons.
  - rewrite Nat.eqb_refl. intros [= <-]. by exists inner.
  - cbn [app refs fmap list_fmap] in Hnd. apply NoDup_cons in Hnd as [Hu Hnd].
    replace (f_ref u =? f_ref f)%nat with false.
    + destruct (enclose _); [|done]. by apply IH.
    + symmetry. apply Nat.eqb_neq. intros E. apply Hu. rewrite E.
      fold (refs (ups ++ f :: outer)). rewrite refs_app. cbn [refs fmap list_fmap]. set_solver.
Qed.

Lemma close_to_not_No r fs : forall inner fs', close_to r inner fs <> No fs'.
Proof.
  induction fs as [|f fs IH]; intros inner fs'; [done|]. rewrite close_to_cons.
  destruct (_ =? r)%nat; [done|]. by destruct (enclose _).
Qed.

Lemma flush_Ok r fs fs' : spec_flush r fs = Ok fs' ->
  exists ups f outer data, fs = ups ++ f :: outer /\ f_ref f = r /\
    fs' = append data f :: outer.
Proof. apply close_to_Ok. Qed.

(** ** Sizes *)

Lemma zlen_flat f outer : 0 <= f_width f ->
  zlen (flat (f :: outer)) = zlen (flat outer) + f_width f + zlen (f_data f).
Proof. intros. rewrite flat_cons, !zlen_app, zlen_replicate by done. lia. Qed.

Lemma zlen_flat_append data f outer :
  zlen (flat (append data f :: outer)) = zlen (flat (f :: outer)) + zlen data.
Proof. by rewrite flat_append, zlen_app. Qed.

Lemma frames_ok_cons f outer : frames_ok (f :: outer) ->
  0 <= f_width f <= 3 /\ bytes_ok (f_data f).
Proof.
  intros [[Hd Hf] _]. split; [|done]. destruct outer; [destruct Hf; lia|lia].
Qed.

Lemma frames_ok_inner f g outer : frames_ok (g :: f :: outer) ->
  1 <= f_width g <= 3 /\ (f_asn1 g = true -> f_width g = 1) /\ bytes_ok (f_data g) /\
  frames_ok (f :: outer).
Proof. by intros [[? [? ?]] ?]. Qed.

Lemma frames_ok_append data f outer :
  bytes_ok data -> frames_ok (f :: outer) -> frames_ok (append data f :: outer).
Proof.
  intros Hd [[Hf Hw] Ho]. split; [split; [|done]|done]. cbn. by apply Forall_app.
Qed.

Lemma zlen_prefix g p : 1 <= f_width g <= 3 -> (f_asn1 g = true -> f_width g = 1) ->
  prefix g = Some p -> f_width g <= zlen p /\ bytes_ok p.
Proof.
  intros Hw Ha. unfold prefix. pose proof (zlen_nonneg (f_data g)).
  destruct (f_asn1 g).
  - rewrite Ha by done. destruct (Z.leb_spec (zlen (f_data g)) 0xfffffffe); [|done].
    intros [= <-]. split.
    + apply zlen_der_length. change (2 ^ 32) with 4294967296. lia.
    + unfold der_length. destruct (Z.ltb_spec (zlen (f_data g)) 128).
      * constructor; [unfold is_byte; lia|constructor].
      * constructor; [|apply be_bytes_ok]. pose proof (length_bytes_range (zlen (f_data g))).
        unfold is_byte. lia.
  - destruct (_ <? _); [|done]. intros [= <-]. split; [|apply be_bytes_ok].
    unfold zlen. rewrite (proj2 (be_bytes_ok _ _)). lia.
Qed.

Lemma close_top_grows g f outer :
  1 <= f_width g <= 3 -> (f_asn1 g = true -> f_width g = 1) ->
  grows (g :: f :: outer) (close_top (g :: f :: outer)).
Proof.
  intros Hw Ha fs' Ht.
  unfold close_top, enclose in Ht. destruct (prefix g) as [p|] eqn:Ep; [|done].
  apply zlen_prefix in Ep as [Hp _]; [|done|done]. injection Ht as <-.
  rewrite zlen_flat_append, zlen_flat, zlen_app by lia. lia.
Qed.

(** ** Lemmas on the representation *)

Lemma length_form n : 0 <= n ->
  asn1_length_form n =
  if 0xfffffffe <? n then None
  else if n <? 128 then Some (1, n, 0)
  else Some (1 + Z.of_nat (length_bytes n), 128 + Z.of_nat (length_bytes n), n).
Proof.
  intros Hn. unfold asn1_length_form, length_bytes.
  change (2 ^ 8) with 256. change (2 ^ 16) with 65536. change (2 ^ 24) with 16777216.
  destruct (Z.ltb_spec 0xfffffffe n); [done|].
  destruct (Z.ltb_spec 0xffffff n).
  { by bool_false (n <? 128); bool_false (n <? 256); bool_false (n <? 65536);
      bool_false (n <? 16777216). }
  destruct (Z.ltb_spec 0xffff n).
  { by bool_false (n <? 128); bool_false (n <? 256); bool_false (n <? 65536);
      bool_true (n <? 16777216). }
  destruct (Z.ltb_spec 0xff n).
  { by bool_false (n <? 128); bool_false (n <? 256); bool_true (n <? 65536). }
  destruct (Z.ltb_spec 0x7f n).
  { by bool_false (n <? 128); bool_true (n <? 256). }
  bool_true (n <? 128). by rewrite wrap_small by (change (2 ^ 8) with 256; lia).
Qed.

Lemma or_err_bind {A B} p (m : M world A) (k : A -> M world B) w :
  or_err p (bind m k) w =
  match m w with
  | Ret a w' => or_err p (k a) w'
  | Fail w' => buffer_error p w'
  | Ub => Ub
  | NoFuel => NoFuel
  end.
Proof. unfold or_err, tryb, bind. by destruct (m w). Qed.

Section flush.
Context (malloc : nat -> Z -> option (list Z)) (Hmalloc : malloc_spec malloc).
Context (b : nat) (fixed : option Z) (top : nat).

Local Abbreviation rep := (rep b fixed top).
Local Abbreviation poisoned := (poisoned b fixed top).
Local Abbreviation does := (does malloc b fixed top).
Local Abbreviation owned := (owned b top).
Local Abbreviation linked := (linked b top).
Local Abbreviation holds := (holds fixed).

Lemma owned_other cbbs r c : owned cbbs -> r <> top -> owned (<[r := c]> cbbs).
Proof. intros Ho Hr. unfold CbbFrames.owned. by rewrite lookup_insert_ne. Qed.

(** An object keeps its place in the tree. *)
Lemma owned_update cbbs r c c' : owned cbbs -> cbbs !! r = Some c ->
  c_is_child c' = c_is_child c -> c_base c' = Some b -> owned (<[r := c']> cbbs).
Proof.
  intros (c0 & Hc0 & Hchild & Hb) Hr Hc Hb'. destruct (Nat.eq_dec r top) as [->|Hne].
  - exists c'. rewrite lookup_insert_eq. split; [done|]. split; [|done]. congruence.
  - exists c0. by rewrite lookup_insert_ne.
Qed.

Lemma linked_insert r c fs : forall cbbs ch, r ∉ refs fs ->
  linked cbbs ch fs -> linked (<[r := c]> cbbs) ch fs.
Proof.
  induction fs as [|f fs IH]; intros cbbs ch Hr; [done|].
  cbn [refs fmap list_fmap] in Hr. apply not_elem_of_cons in Hr as [Hne Hr].
  cbn [CbbFrames.linked]. intros [Hf Hl]. rewrite lookup_insert_ne by done.
  split; [done|]. by apply IH.
Qed.

Lemma linked_top fs : forall cbbs ch, linked cbbs ch fs -> fs <> [] -> top ∈ refs fs.
Proof.
  induction fs as [|f fs IH]; intros cbbs ch; [done|]. intros [_ Hl] _.
  cbn [refs fmap list_fmap]. destruct fs as [|g fs].
  - injection Hl as ->. apply list_elem_of_here.
  - right. by eapply IH.
Qed.

Lemma linked_append data f outer cbbs ch :
  linked cbbs ch (f :: outer) -> linked cbbs ch (append data f :: outer).
Proof. done. Qed.

Lemma poison cbbs bases a x : owned cbbs -> buffer_ok fixed x ->
  poisoned (World cbbs (<[b := set_error x]> bases) a).
Proof. intros Ho Hx. split; [done|]. exists (set_error x). cbn. by rewrite lookup_insert_eq. Qed.

Lemma rep_head w f outer : rep w (f :: outer) ->
  w_cbbs w !! f_ref f = Some (CBB (Some b) None (zlen (flat outer)) (f_width f) (f_asn1 f)
                               (match outer with [] => false | _ => true end)).
Proof. intros (_ & _ & _ & [H _] & _). exact H. Qed.

Lemma inner_not_top w g f outer : rep w (g :: f :: outer) -> f_ref g <> top.
Proof.
  intros Hw E. apply rep_head in Hw as Hg. destruct Hw as ((c & Hc & Hchild & _) & _).
  rewrite <- E, Hg in Hc. by injection Hc as <-.
Qed.

Lemma rep_top w fs : rep w fs -> exists f outer, fs = f :: outer.
Proof. intros (_ & Hok & _). destruct fs as [|f outer]; [done|by eauto]. Qed.

(** The buffer of a state with some frames, and a step that adds to the innermost. *)
Lemma rep_extend w f outer data x' a :
  rep w (f :: outer) -> bytes_ok data -> holds x' (flat (f :: outer) ++ data) ->
  rep (with_allocs (with_base w b x') a) (append data f :: outer).
Proof.
  intros (Ho & Hok & Hnd & Hl & _) Hd Hx. split; [done|].
  split; [by apply frames_ok_append|]. split; [done|]. split; [done|].
  exists x'. split; [apply lookup_insert_eq|]. by rewrite flat_append.
Qed.

(** The stores after a frame has been closed. *)
Lemma rep_closed w g f outer data x' a c :
  rep w (g :: f :: outer) -> bytes_ok data -> c_base c = None ->
  holds x' (flat (f :: outer) ++ data) ->
  rep (World (<[f_ref f := CBB (Some b) None (zlen (flat outer)) (f_width f) (f_asn1 f)
                 (match outer with [] => false | _ => true end)]> (<[f_ref g := c]> (w_cbbs w)))
             (<[b := x']> (w_bases w)) a) (append data f :: outer).
Proof.
  intros Hw Hd Hc Hx. pose proof (inner_not_top _ _ _ _ Hw) as Htop.
  destruct Hw as (Ho & Hok & Hnd & [_ [Hf Hl]] & _).
  apply frames_ok_inner in Hok as (_ & _ & _ & Hok).
  cbn [refs fmap list_fmap] in Hnd. apply NoDup_cons in Hnd as [Hg Hnd].
  apply NoDup_cons in Hnd as [Hff Hnd]. apply not_elem_of_cons in Hg as [Hgf Hg].
  split.
  { eapply owned_update; [by apply owned_other|by rewrite lookup_insert_ne|done|done]. }
  split; [by apply frames_ok_append|]. split; [by apply NoDup_cons|]. split.
  - cbn [CbbFrames.linked append f_ref f_width f_asn1 w_cbbs].
    rewrite lookup_insert_eq. split; [done|]. by apply linked_insert, linked_insert.
  - exists x'. cbn. split; [apply lookup_insert_eq|].
    change (holds x' (flat (append data f :: outer))). by rewrite flat_append.
Qed.

(** ** Writing a length prefix *)

Lemma holds_set x old d junk l :
  holds x old -> l = d ++ junk -> zlen l = zlen (b_buf x) -> zlen d = zlen old ->
  holds (set_buf l x) d.
Proof.
  intros ((Hc & Hl & H64 & Hres & Hfix) & He & j & E & El) -> Hz Hd.
  split; [|split; [done|]].
  - repeat split; cbn; (done || lia).
  - exists junk. cbn. split; [done|lia].
Qed.

Lemma holds_len x d : holds x d -> zlen d < 2 ^ 64 /\ b_len x = zlen d.
Proof.
  intros ((Hc & Hl & H64 & _) & _ & j & _ & E). rewrite <- E. split; [lia|done].
Qed.

(** What [flush_prefix] leaves: the prefix in its place, or an error. *)
Definition prefix_result (w : world) (g f : frame) (outer : list frame) (r : out world unit) : Prop :=
  exists c x' a,
    let w' := World (<[f_ref g := c]> (w_cbbs w)) (<[b := x']> (w_bases w)) a in
    c_base c = Some b /\
    match prefix g with
    | Some p =>
        (r = Ret tt w' /\ holds x' (flat (f :: outer) ++ p ++ f_data g)) \/
        (r = Fail w' /\ buffer_ok fixed x' /\
         ~ room malloc fixed (zlen (flat (f :: outer)) + zlen p + zlen (f_data g)))
    | None => r = Fail w' /\ buffer_ok fixed x'
    end.

Local Abbreviation object g f outer :=
  (CBB (Some b) None (zlen (flat (f :: outer))) (f_width g) (f_asn1 g) true).

Lemma same_object w g f outer : w_cbbs w !! f_ref g = Some (object g f outer) ->
  <[f_ref g := object g f outer]> (w_cbbs w) = w_cbbs w.
Proof. apply insert_id. Qed.

(** The guards of [flush_prefix] do not stop it. *)
Lemma flush_prefix_run w g f outer x :
  w_cbbs w !! f_ref g = Some (object g f outer) -> w_bases w !! b = Some x ->
  0 <= f_width g -> holds x (flat (g :: f :: outer)) ->
  flush_prefix malloc (Some b) (f_ref g) (zlen (flat (f :: outer)) + f_width g) w =
  (let! len := (if f_asn1 g
                then flush_asn1 malloc (Some b) (f_ref g) (zlen (flat (f :: outer)) + f_width g)
                       (zlen (f_data g))
                else ret (zlen (f_data g))) in
   let! child := get_cbb (f_ref g) in
   let! len := store_be (Some b) (Z.to_nat (c_pending_len_len child)) (c_offset child) len in
   if negb (len =? 0) then failm else ret tt) w.
Proof.
  intros Hg Hb Hw Hx. apply holds_len in Hx as [_ El].
  rewrite zlen_flat in El by done. pose proof (zlen_nonneg (f_data g)).
  unfold flush_prefix. rewrite (bind_Ret _ _ _ _ _ (get_cbb_run _ _ _ Hg)).
  rewrite (bind_Ret _ _ _ _ _ (get_base_run _ _ _ Hb)). cbn [c_offset c_pending_is_asn1 snd].
  set (pre := zlen (flat (f :: outer))) in *. rewrite El.
  bool_false (pre + f_width g <? pre). bool_false (pre + f_width g + zlen (f_data g) <? pre + f_width g).
  cbn [orb]. by replace (pre + f_width g + zlen (f_data g) - (pre + f_width g)) with (zlen (f_data g)) by lia.
Qed.

Lemma fits_div n k : 0 <= n -> 0 <= k -> (n / 256 ^ k =? 0) = (n <? 256 ^ k).
Proof.
  intros Hn Hk. assert (0 < 256 ^ k) by (apply Z.pow_pos_nonneg; lia).
  destruct (Z.ltb_spec n (256 ^ k)).
  - by rewrite Z.div_small by lia.
  - apply Z.eqb_neq. assert (256 ^ k / 256 ^ k <= n / 256 ^ k) by (apply Z.div_le_mono; lia).
    rewrite Z.div_same in * by lia. lia.
Qed.

Lemma close_fixed w g f outer x :
  w_cbbs w !! f_ref g = Some (object g f outer) -> w_bases w !! b = Some x ->
  1 <= f_width g -> f_asn1 g = false -> holds x (flat (g :: f :: outer)) ->
  prefix_result w g f outer
    (flush_prefix malloc (Some b) (f_ref g) (zlen (flat (f :: outer)) + f_width g) w).
Proof.
  intros Hg Hb Hw Ha Hx. rewrite (flush_prefix_run w g f outer x) by (done || lia).
  pose proof Hx as (Hok & He & junk & Ebuf & El). rewrite (flat_cons g), <- !app_assoc in Ebuf.
  pose proof (zlen_nonneg (f_data g)). rewrite Ha.
  set (pre := flat (f :: outer)) in *. set (n := zlen (f_data g)) in *.
  rewrite (bind_Ret _ _ w n w) by done. rewrite (bind_Ret _ _ _ _ _ (get_cbb_run _ _ _ Hg)).
  cbn [c_pending_len_len c_offset].
  rewrite (bind_Ret _ _ _ _ _ (store_be_run (Z.to_nat (f_width g)) w b x pre
    (replicate (Z.to_nat (f_width g)) 0) (f_data g ++ junk) (zlen pre) n Hb Ebuf eq_refl
    ltac:(rewrite zlen_replicate; lia) ltac:(lia))).
  rewrite Z2Nat.id, fits_div by lia.
  set (x' := set_buf _ x).
  assert (Hx' : holds x' (pre ++ be_bytes (Z.to_nat (f_width g)) n ++ f_data g)).
  { apply (holds_set x (flat (g :: f :: outer)) _ junk); [done|by rewrite <- !app_assoc| |].
    - rewrite Ebuf, !zlen_app, zlen_replicate, zlen_be_bytes by lia. lia.
    - rewrite (flat_cons g), !zlen_app, zlen_replicate, zlen_be_bytes by lia. fold pre. lia. }
  exists (object g f outer), x', (w_allocs w). cbn zeta. rewrite same_object by done.
  split; [done|]. unfold prefix. rewrite Ha. fold n.
  destruct (n <? 256 ^ f_width g); cbn [negb]; [by left|]. split; [done|]. by destruct Hx'.
Qed.

(** The last steps of [flush_asn1] and the loop, once there is room for [p], which
    starts with [ib] and ends with the [k] bytes of [len]. *)
Lemma store_asn1_length w g f outer x pre gap post ib k len :
  w_cbbs w !! f_ref g = Some (object g f outer) -> w_bases w !! b = Some x ->
  pre = flat (f :: outer) -> zlen pre + 1 < 2 ^ 64 ->
  b_buf x = pre ++ gap ++ post -> zlen gap = 1 + Z.of_nat k -> 0 <= len < 256 ^ Z.of_nat k ->
  (put_bytes (Some b) (zlen pre) [ib] ;;!
   upd_cbb (f_ref g) (set_prefix (u64 (zlen pre + 1)) (Z.of_nat k)) ;;!
   let! child := get_cbb (f_ref g) in
   let! len := store_be (Some b) (Z.to_nat (c_pending_len_len child)) (c_offset child) len in
   if negb (len =? 0) then failm else ret tt) w =
  Ret tt (World (<[f_ref g := set_prefix (zlen pre + 1) (Z.of_nat k) (object g f outer)]> (w_cbbs w))
    (<[b := set_buf (pre ++ (ib :: be_bytes k len) ++ post) x]> (w_bases w)) (w_allocs w)).
Proof.
  intros Hg Hb Hpre H64 Ebuf Hgap Hlen. pose proof (zlen_nonneg pre).
  destruct gap as [|o gap]; [change (zlen (@nil Z)) with 0 in Hgap; lia|]. rewrite zlen_cons in Hgap.
  rewrite (bind_Ret _ _ _ _ _ (put_bytes_run w b x pre [o] (gap ++ post) [ib] (zlen pre) Hb Ebuf
    eq_refl eq_refl)).
  rewrite (bind_Ret _ _ _ _ _ (upd_cbb_run (with_base w b _) (f_ref g) (object g f outer) _ Hg)).
  rewrite wrap_small by lia. cbn [w_cbbs with_base w_bases w_allocs].
  set (c := set_prefix _ _ _). set (w1 := World _ _ _).
  assert (Hg1 : w_cbbs w1 !! f_ref g = Some c) by apply lookup_insert_eq.
  rewrite (bind_Ret _ _ _ _ _ (get_cbb_run _ _ _ Hg1)). cbn [c_pending_len_len c_offset c set_prefix].
  rewrite Nat2Z.id.
  rewrite (bind_Ret _ _ _ _ _ (store_be_run k w1 b (set_buf (pre ++ [ib] ++ gap ++ post) x)
    (pre ++ [ib]) gap post (zlen pre + 1) len (lookup_insert_eq _ _ _)
    ltac:(by cbn; rewrite <- app_assoc) ltac:(by rewrite zlen_app) ltac:(lia) ltac:(lia))).
  rewrite Z.div_small by lia. cbn. unfold ret, with_base. cbn. rewrite insert_insert_eq, <- app_assoc. done.
Qed.

Lemma asn1_form_of g n : f_asn1 g = true -> zlen (f_data g) = n -> n <= 0xfffffffe ->
  exists k ib, prefix g = Some (ib :: be_bytes k n) /\ (k <= 4)%nat /\
    asn1_length_form n = Some (1 + Z.of_nat k, ib, if (k =? 0)%nat then 0 else n) /\
    ((k =? 0)%nat = true \/ n < 256 ^ Z.of_nat k).
Proof.
  intros Ha <- Hn. pose proof (zlen_nonneg (f_data g)) as H0. unfold prefix. rewrite Ha.
  rewrite length_form by done. bool_true (zlen (f_data g) <=? 0xfffffffe).
  bool_false (0xfffffffe <? zlen (f_data g)). unfold der_length.
  destruct (Z.ltb_spec (zlen (f_data g)) 128).
  - exists O, (zlen (f_data g)). split; [done|]. split; [lia|]. split; [done|by left].
  - pose proof (length_bytes_range (zlen (f_data g))) as Hk.
    exists (length_bytes (zlen (f_data g))), (128 + Z.of_nat (length_bytes (zlen (f_data g)))).
    replace (length_bytes (zlen (f_data g)) =? 0)%nat with false by (symmetry; apply Nat.eqb_neq; lia).
    split; [done|]. split; [lia|]. split; [done|]. right.
    change 256 with (2 ^ 8). rewrite <- Z.pow_mul_r by lia. apply length_bytes_fit.
    change (2 ^ 32) with 4294967296. lia.
Qed.

Lemma flush_assoc (m p q : M world unit) len (k : Z -> M world unit) w :
  (let! len := (m ;;! p ;;! q ;;! ret len) in k len) w = (m ;;! p ;;! q ;;! k len) w.
Proof.
  unfold bind. destruct (m w) as [? w1| | |]; try done. destruct (p w1) as [? w2| | |]; try done.
  by destruct (q w2).
Qed.

Lemma close_asn1 w g f outer x :
  w_cbbs w !! f_ref g = Some (object g f outer) -> w_bases w !! b = Some x ->
  f_width g = 1 -> f_asn1 g = true -> holds x (flat (g :: f :: outer)) ->
  prefix_result w g f outer
    (flush_prefix malloc (Some b) (f_ref g) (zlen (flat (f :: outer)) + f_width g) w).
Proof using Hmalloc.
  intros Hg Hb Hw Ha Hx. rewrite (flush_prefix_run w g f outer x) by (done || lia).
  pose proof (holds_len _ _ Hx) as [H64 El].
  assert (Ew : zlen (flat (g :: f :: outer)) = zlen (flat (f :: outer)) + 1 + zlen (f_data g))
    by (rewrite zlen_flat; lia).
  pose proof (zlen_nonneg (f_data g)) as Hn0. rewrite Ha.
  pose proof (zlen_nonneg (flat (f :: outer))) as Hp0.
  unfold flush_asn1. rewrite !bind_assoc, (bind_Ret _ _ _ _ _ (get_cbb_run _ _ _ Hg)).
  cbn [c_pending_len_len c_offset]. rewrite Hw. cbn [Z.eqb Pos.eqb negb].
  destruct (Z.le_gt_cases (zlen (f_data g)) 0xfffffffe) as [Hfit|Hbig].
  2: { rewrite length_form by done. bool_true (0xfffffffe <? zlen (f_data g)).
       exists (object g f outer), x, (w_allocs w). cbn zeta. rewrite same_object by done.
       split; [done|]. unfold prefix. rewrite Ha. bool_false (zlen (f_data g) <=? 0xfffffffe).
       split; [|by destruct Hx]. fold (with_base w b x). by rewrite with_base_same. }
  destruct (asn1_form_of g _ Ha eq_refl Hfit) as (k & ib & Ep & Hk & -> & Hlen).
  rewrite flush_assoc. replace (1 + Z.of_nat k - 1) with (Z.of_nat k) by lia.
  pose proof Hx as (Hok & He & junk & Ebuf & _). rewrite (flat_cons g), Hw, <- !app_assoc in Ebuf.
  destruct k as [|k].
  - (* one byte *)
    cbn [Nat.eqb Z.add Z.of_nat Z.eqb Pos.eqb negb]. rewrite (bind_Ret _ _ w tt w) by done.
    rewrite (store_asn1_length w g f outer x _ [0] (f_data g ++ junk) ib 0 0 Hg Hb eq_refl
      ltac:(lia) Ebuf eq_refl ltac:(lia)).
    unfold prefix_result. rewrite Ep. eexists _, _, _. split; [|left; split; [done|]]; [done|].
    apply (holds_set x (flat (g :: f :: outer)) _ junk); [done| | |].
    + by rewrite <- !app_assoc.
    + rewrite Ebuf, !zlen_app. done.
    + rewrite (flat_cons g), Hw, !zlen_app. done.
  - (* the contents move *)
    destruct Hlen as [|Hlen]; [done|]. cbn [Nat.eqb] in *.
    bool_false (1 + Z.of_nat (S k) =? 1). cbn [negb].
    assert (Ed : flat (g :: f :: outer) = flat (f :: outer) ++ [0] ++ f_data g)
      by (by rewrite (flat_cons g), Hw).
    rewrite bind_assoc.
    destruct (add_holds malloc Hmalloc b fixed w x _ (Z.of_nat (S k)) Hb Hx
      ltac:(change (2 ^ 64) with 18446744073709551616; lia))
      as [(x1 & a & old & post & E & Eb1 & Hold & Hmid)|(a & E & Hroom)].
    2: { rewrite (bind_Fail _ _ _ _ E). unfold prefix_result. rewrite Ep.
         exists (object g f outer), (set_error x), a. cbn zeta. rewrite same_object by done.
         split; [done|]. right. split; [done|]. split; [done|].
         rewrite zlen_cons, zlen_be_bytes. intros Hr. apply Hroom.
         rewrite Ew. eapply room_le; [|exact Hr]. lia. }
    rewrite (bind_Ret _ _ _ _ _ E). clear E. set (w1 := with_allocs _ a).
    specialize (Hmid old Hold). rewrite Ed, <- ?app_assoc in Eb1.
    assert (Hb1 : w_bases w1 !! b = Some x1) by apply lookup_insert_eq.
    rewrite bind_assoc.
    rewrite (bind_Ret _ _ _ _ _ (get_bytes_run w1 b x1 (flat (f :: outer) ++ [0]) (f_data g) (old ++ post)
      _ _ Hb1 ltac:(by rewrite Eb1, <- !app_assoc) ltac:(by rewrite zlen_app) eq_refl)).
    set (gap := ztake (Z.of_nat (S k)) (f_data g ++ old)).
    assert (Hgap : zlen gap = Z.of_nat (S k)) by (unfold gap; rewrite zlen_ztake; rewrite ?zlen_app; lia).
    rewrite (bind_Ret _ _ _ _ _ (put_bytes_run w1 b x1 (flat (f :: outer) ++ [0] ++ gap)
      (zdrop (Z.of_nat (S k)) (f_data g ++ old)) post (f_data g)
      (zlen (flat (f :: outer)) + 1 + Z.of_nat (S k)) Hb1
      ltac:(rewrite Eb1, <- !app_assoc; do 2 f_equal; unfold gap; by rewrite !app_assoc, ztake_zdrop)
      ltac:(rewrite !zlen_app, Hgap; change (zlen [0]) with 1; lia)
      ltac:(rewrite zlen_zdrop; rewrite ?zlen_app; lia))).
    set (x2 := set_buf _ x1).
    rewrite (store_asn1_length (with_base w1 b x2) g f outer x2 _ (0 :: gap) (f_data g ++ post) ib (S k)
      (zlen (f_data g)) Hg (lookup_insert_eq _ _ _) eq_refl ltac:(lia)
      ltac:(cbn; by rewrite <- !app_assoc) ltac:(rewrite zlen_cons; lia) ltac:(lia)).
    unfold prefix_result. rewrite Ep. eexists _, _, _.
    split; [|left; split; [unfold with_base; cbn; by rewrite !insert_insert_eq|]]; [done|].
    assert (Eh : holds x1 (flat (g :: f :: outer) ++ old)).
    { rewrite Ed, <- !app_assoc in Hmid. cbn [app] in Hmid, Eb1. rewrite <- Eb1 in Hmid.
      rewrite Ed, <- !app_assoc. by destruct x1. }
    change (holds (set_buf (flat (f :: outer) ++ (ib :: be_bytes (S k) (zlen (f_data g))) ++
      f_data g ++ post) x1) (flat (f :: outer) ++ (ib :: be_bytes (S k) (zlen (f_data g))) ++ f_data g)).
    apply (holds_set x1 _ _ post _ Eh).
    + by rewrite <- !app_assoc.
    + rewrite Eb1, !zlen_app, zlen_cons, zlen_be_bytes, Hold. change (zlen [0]) with 1. lia.
    + rewrite Ed, !zlen_app, zlen_cons, zlen_be_bytes, Hold. change (zlen [0]) with 1. lia.
Qed.

(** ** Flushing *)

Lemma close_frame w g f outer :
  rep w (g :: f :: outer) ->
  prefix_result w g f outer
    (flush_prefix malloc (Some b) (f_ref g) (zlen (flat (f :: outer)) + f_width g) w).
Proof using Hmalloc.
  intros Hrep. pose proof (rep_head _ _ _ Hrep) as Hg. cbn in Hg.
  destruct Hrep as (_ & Hok & _ & _ & x & Hb & Hx).
  apply frames_ok_inner in Hok as (Hw & Ha & _ & _). destruct (f_asn1 g) eqn:Ea.
  - apply (close_asn1 w g f outer x); auto. by rewrite Ea.
  - apply (close_fixed w g f outer x); auto; [by rewrite Ea|lia].
Qed.

Lemma close_does g f outer :
  does 0 (or_err (Some b) (flush_prefix malloc (Some b) (f_ref g)
            (zlen (flat (f :: outer)) + f_width g)) ;;!
          upd_cbb (f_ref g) (set_base None) ;;!
          upd_cbb (f_ref f) (set_child None)) (g :: f :: outer) (close_top (g :: f :: outer)).
Proof using Hmalloc.
  intros w Hrep. destruct (close_frame w g f outer Hrep) as (c & x' & a & Hc & Hres).
  set (w' := World _ _ _) in *.
  pose proof Hrep as (Ho & Hok & Hnd & [Hg [Hf _]] & x & Hb & Hx).
  apply frames_ok_inner in Hok as (Hw & Ha & Hdata & _).
  assert (Ho' : owned (<[f_ref g := c]> (w_cbbs w))) by (apply owned_other; [done|exact (inner_not_top _ _ _ _ Hrep)]).
  assert (Hb' : w_bases w' !! b = Some x') by apply lookup_insert_eq.
  assert (Herr : flush_prefix malloc (Some b) (f_ref g) (zlen (flat (f :: outer)) + f_width g) w = Fail w' ->
    buffer_ok fixed x' -> exists w2, or_err (A := unit) (Some b) (flush_prefix malloc (Some b) (f_ref g)
            (zlen (flat (f :: outer)) + f_width g)) w = Fail w2 /\ poisoned w2).
  { intros E Hx'. unfold or_err, tryb, bind. rewrite E. rewrite (buffer_error_run _ b x' Hb').
    eexists. split; [done|]. by apply poison. }
  unfold close_top, enclose. destruct (prefix g) as [p|] eqn:Ep.
  - destruct Hres as [[E Hx']|(E & Hx' & Hr)].
    + unfold bind at 1. unfold or_err, tryb. unfold bind at 1. rewrite E. unfold ret at 1.
      assert (Hg' : w_cbbs w' !! f_ref g = Some c) by apply lookup_insert_eq.
      rewrite (bind_Ret _ _ _ _ _ (upd_cbb_run w' _ c _ Hg')). cbn [w_cbbs w' w_bases w_allocs].
      rewrite insert_insert_eq. cbn [refs fmap list_fmap] in Hnd.
      apply NoDup_cons in Hnd as [Hgf _]. apply not_elem_of_cons in Hgf as [Hgf _].
      erewrite upd_cbb_run; [|cbn [w_cbbs]; rewrite lookup_insert_ne by done; exact Hf].
      eexists. split; [done|]. apply (rep_closed w g f outer _ x'); auto.
      apply zlen_prefix in Ep as [_ Hp]; auto. by apply Forall_app.
    + destruct (Herr E Hx') as (w2 & E2 & Hp). rewrite (bind_Fail _ _ _ _ E2). right.
      split; [done|]. intros fs' [= <-]. rewrite zlen_flat_append, zlen_app, Z.add_0_r.
      by rewrite Z.add_assoc.
  - destruct Hres as [E Hx']. destruct (Herr E Hx') as (w2 & E2 & Hp).
    rewrite (bind_Fail _ _ _ _ E2). right. by split.
Qed.

Lemma linked_inner ups g f outer : forall cbbs ch,
  linked cbbs ch (ups ++ g :: f :: outer) ->
  cbbs !! f_ref f = Some (CBB (Some b) (Some (f_ref g)) (zlen (flat outer)) (f_width f) (f_asn1 f)
                           (match outer with [] => false | _ => true end)) /\
  exists ch', cbbs !! f_ref g = Some (CBB (Some b) ch' (zlen (flat (f :: outer))) (f_width g) (f_asn1 g) true).
Proof.
  induction ups as [|u ups IH]; intros cbbs ch.
  - intros [Hg [Hf _]]. split; [done|]. by exists ch.
  - intros [_ Hl]. by apply IH in Hl.
Qed.

Lemma frames_ok_tail ups f outer : frames_ok (ups ++ f :: outer) -> frames_ok (f :: outer).
Proof.
  induction ups as [|u ups IH]; [done|]. cbn [app]. destruct (ups ++ f :: outer) eqn:E.
  - by destruct ups.
  - intros [_ H]. by apply IH.
Qed.

Lemma zlen_flat_tail ups f outer : frames_ok (ups ++ f :: outer) ->
  zlen (flat (f :: outer)) <= zlen (flat (ups ++ f :: outer)).
Proof.
  induction ups as [|u ups IH]; [done|]. cbn [app]. intros Hok.
  assert (Hok' : frames_ok (ups ++ f :: outer)).
  { destruct (ups ++ f :: outer) eqn:E; [by destruct ups|apply Hok]. }
  apply frames_ok_cons in Hok as [Hw _].
  rewrite (zlen_flat u) by lia. pose proof (zlen_nonneg (f_data u)). specialize (IH Hok'). lia.
Qed.

Lemma flush_loop_does ups : forall f outer k, (length ups < k)%nat ->
  does 0 (flush_loop malloc k (f_ref f)) (ups ++ f :: outer)
    (spec_flush (f_ref f) (ups ++ f :: outer)).
Proof using Hmalloc.
  induction ups as [|g ups IH] using rev_ind; intros f outer k Hk w Hrep.
  - destruct k as [|k]; [lia|]. cbn [app flush_loop] in *. rewrite flush_top.
    rewrite (bind_Ret _ _ _ _ _ (get_cbb_run _ _ _ (rep_head _ _ _ Hrep))). cbn [c_base c_child].
    pose proof Hrep as (_ & _ & _ & _ & x & Hb & _ & He & _).
    rewrite (bind_Ret _ _ _ _ _ (get_base_run _ _ _ Hb)). cbn [snd]. rewrite He. by eexists.
  - rewrite length_app in Hk. cbn [length] in Hk. destruct k as [|k]; [lia|].
    rewrite <- app_assoc in *. cbn [app] in *.
    rewrite flush_outer by apply Hrep. cbn [flush_loop].
    pose proof Hrep as (_ & Hok & _ & Hl & x & Hb & Hx).
    pose proof Hx as (_ & He & _). apply holds_len in Hx as [H64 _].
    apply linked_inner in Hl as (Hf & ch' & Hg).
    pose proof (zlen_flat_tail _ _ _ Hok) as Hle.
    apply frames_ok_tail, frames_ok_inner in Hok as (Hw & Ha & _).
    rewrite (zlen_flat g) in Hle by lia. pose proof (zlen_nonneg (f_data g)).
    pose proof (zlen_nonneg (flat (f :: outer))).
    rewrite (bind_Ret _ _ _ _ _ (get_cbb_run _ _ _ Hf)). cbn [c_base c_child].
    rewrite (bind_Ret _ _ _ _ _ (get_base_run _ _ _ Hb)). cbn [snd]. rewrite He.
    rewrite (bind_Ret _ _ _ _ _ (get_cbb_run _ _ _ Hg)). cbn [c_offset c_pending_len_len].
    bool_false (f_width g =? 0). rewrite wrap_small by lia.
    unfold bind at 1. rewrite or_err_bind.
    specialize (IH g (f :: outer) k ltac:(lia) w Hrep).
    destruct (flush_loop malloc k (f_ref g) w) as [[] w1|w1| |]; try done.
    + destruct IH as (fs1 & E1 & Hw1). rewrite E1. cbn [vbind].
      apply close_to_at in E1 as [data ->]; [|apply Hrep].
      by apply (close_does (append data g) f outer).
    + destruct IH as [(fs1 & E1 & _)|[Hp Hr]]; [by apply close_to_not_No in E1|].
      destruct Hp as (Ho & x1 & Hb1 & Hx1 & He1).
      rewrite (buffer_error_run _ b x1 Hb1). right. split.
      * apply (poison (w_cbbs w1) (w_bases w1) (w_allocs w1) x1 Ho Hx1).
      * intros fs' Ht Hroom.
        destruct (spec_flush (f_ref g) (ups ++ g :: f :: outer)) as [fs1|fs1|] eqn:E1; cbn [vbind] in Ht;
          [|by apply close_to_not_No in E1|done].
        apply (Hr fs1 eq_refl). eapply room_le; [|exact Hroom].
        apply close_to_at in E1 as [data ->]; [|apply Hrep].
        rewrite Z.add_0_r, Z.add_0_r.
        apply (close_top_grows (append data g) f outer Hw Ha fs' Ht).
Qed.

(** One round for each frame is within the bound of [CBB_flush]. *)
Lemma refs_le_size fs (m : gmap nat cbb_st) :
  NoDup (refs fs) -> (forall r, r ∈ refs fs -> is_Some (m !! r)) -> (length fs <= size m)%nat.
Proof.
  intros Hnd Hin. rewrite <- (length_fmap f_ref fs), <- size_dom, <- (size_list_to_set (C := gset nat)) by exact Hnd.
  apply subseteq_size. intros r Hr. apply elem_of_list_to_set in Hr. by apply elem_of_dom, Hin.
Qed.

Lemma linked_dom fs : forall cbbs ch r, linked cbbs ch fs -> r ∈ refs fs -> is_Some (cbbs !! r).
Proof.
  induction fs as [|f fs IH]; intros cbbs ch r; cbn [CbbFrames.linked refs fmap list_fmap].
  - intros _ Hr. by apply elem_of_nil in Hr.
  - intros [Hf Hl] [->|Hr]%elem_of_cons; [by rewrite Hf|by eapply IH].
Qed.

Lemma ref_split r fs : r ∈ refs fs -> exists ups f outer, fs = ups ++ f :: outer /\ f_ref f = r.
Proof.
  intros (f & -> & Hf)%list_elem_of_fmap. apply list_elem_of_split in Hf as (l1 & l2 & ->).
  by exists l1, f, l2.
Qed.

(** [CBB_flush] closes every frame inside its CBB. *)
Lemma flush_does r fs : r ∈ refs fs -> does 0 (CBB_flush malloc r) fs (spec_flush r fs).
Proof using Hmalloc.
  intros Hr. apply ref_split in Hr as (ups & f & outer & -> & <-). intros w Hrep.
  pose proof Hrep as (_ & _ & Hnd & Hl & _).
  apply (flush_loop_does ups f outer (S (size (w_cbbs w)))); [|done].
  pose proof (refs_le_size _ (w_cbbs w) Hnd (fun r => linked_dom _ _ _ r Hl)) as Hle.
  rewrite length_app in Hle. lia.
Qed.

End flush.

(** The widths of the prefixes alone. *)
Fixpoint widths_ok (fs : list frame) : Prop :=
  match fs with
  | [] => False
  | f :: outer =>
      match outer with
      | [] => True
      | _ => 1 <= f_width f <= 3 /\ (f_asn1 f = true -> f_width f = 1) /\ widths_ok outer
      end
  end.

Lemma frames_widths fs : frames_ok fs -> widths_ok fs.
Proof.
  induction fs as [|f fs IH]; [done|]. destruct fs as [|g fs]; [done|].
  intros (Hw & Ha & _ & Hok)%frames_ok_inner. split; [done|]. split; [done|]. by apply IH.
Qed.

Lemma close_to_widths r fs : forall inner fs', widths_ok fs ->
  close_to r inner fs = Ok fs' -> widths_ok fs'.
Proof.
  induction fs as [|f fs IH]; intros inner fs' Hok; [done|]. rewrite close_to_cons.
  destruct (f_ref f =? r)%nat; [intros [= <-]; exact Hok|].
  destruct (enclose _); [|done]. destruct fs as [|g fs]; [done|]. apply IH, Hok.
Qed.

Lemma close_to_grows r fs : forall inner fs', widths_ok fs ->
  target (close_to r inner fs) = Some fs' -> zlen (flat fs) + zlen inner <= zlen (flat fs').
Proof.
  induction fs as [|f fs IH]; intros inner fs' Hok; [done|]. rewrite close_to_cons.
  destruct (f_ref f =? r)%nat.
  - intros [= <-]. rewrite zlen_flat_append. lia.
  - destruct fs as [|f' fs]; [by destruct (enclose _)|].
    destruct Hok as (Hw & Ha & Hok). unfold enclose.
    destruct (prefix (append inner f)) as [p|] eqn:Ep; [|done].
    apply zlen_prefix in Ep as [Hp _]; [|done|done]. intros Ht. apply IH in Ht; [|done].
    cbn [append f_width f_data] in Hp, Ht. rewrite !zlen_app in Ht. rewrite zlen_flat by lia. lia.
Qed.

Lemma flush_grows r fs : widths_ok fs -> grows fs (spec_flush r fs).
Proof.
  intros Hok fs' Ht. apply close_to_grows in Ht; [|done].
  change (zlen (@nil Z)) with 0 in Ht. lia.
Qed.

(** Where a flush ends. *)
Lemma close_to_refs r fs : forall inner fs', close_to r inner fs = Ok fs' -> refs fs' = enclosing r fs.
Proof.
  induction fs as [|f fs IH]; intros inner fs'; [done|]. rewrite close_to_cons. cbn [enclosing].
  destruct (f_ref f =? r)%nat; [by intros [= <-]|]. destruct (enclose _); [apply IH|done].
Qed.

Lemma flush_refs r fs fs' : spec_flush r fs = Ok fs' -> refs fs' = enclosing r fs.
Proof. apply close_to_refs. Qed.

Lemma flush_frames r fs fs' : spec_flush r fs = Ok fs' ->
  exists f outer, fs' = f :: outer /\ f_ref f = r.
Proof.
  intros H. apply flush_Ok in H as (ups & f & outer & data & -> & Hr & ->).
  by exists (append data f), outer.
Qed.
