(* ===== verification/CbbOps.v ===== *)
(** * BoringSSL CBB: the operations

    Every operation of cbb.c does what the abstract builder of [CbbFrames] says. *)
From S2P Require Import Prelude Cbs OsslMem Cbb CbsSpec CbbFrames CbbBuffer CbbFlush.

(** ** Lemmas on verdicts *)

Lemma spec_add_top data f outer :
  spec_add (f_ref f) data (f :: outer) = Ok (append data f :: outer).
Proof. unfold spec_add. by rewrite flush_top. Qed.

Lemma append_top_grows data fs : grows fs (Ok (append_top data fs)).
Proof.
  intros fs' [= <-]. destruct fs as [|f outer]; [done|]. cbn [append_top].
  rewrite zlen_flat_append. pose proof (zlen_nonneg data). lia.
Qed.

Lemma spec_flush_not_No r fs fs' : spec_flush r fs <> No fs'.
Proof. apply close_to_not_No. Qed.

Lemma vbind_assoc v k h : vbind (vbind v k) h = vbind v (fun fs => vbind (k fs) h).
Proof. by destruct v. Qed.

(** ** Base-128 integers *)

(** The bytes that [put_digits] writes. *)
Fixpoint digits (v : Z) (n : nat) : list Z :=
  match n with
  | O => []
  | S i => u8 (if negb (Z.of_nat i =? 0) then Z.lor (Z.land (Z.shiftr v (7 * Z.of_nat i)) 0x7f) 0x80
               else Z.land (Z.shiftr v (7 * Z.of_nat i)) 0x7f) :: digits v i
  end.

(** The same digits by division; [cont] is the top bit of the last. *)
Fixpoint digits_cont (v cont : Z) (n : nat) : list Z :=
  match n with
  | O => []
  | S i => (v / 128 ^ Z.of_nat i) mod 128 + (if (i =? 0)%nat then cont else 128)
           :: digits_cont v cont i
  end.

Lemma digits_divided v n : digits v n = digits_cont v 0 n.
Proof.
  induction n as [|i IH]; [done|]. cbn [digits digits_cont]. rewrite IH. f_equal.
  rewrite shiftr_div, Z.pow_mul_r by lia. change (2 ^ 7) with 128.
  set (q := v / _). rewrite (land_mask_mod q 7) by done. change (2 ^ 7) with 128.
  pose proof (Z.mod_pos_bound q 128 ltac:(lia)) as Hq.
  destruct i as [|i]; cbn [Nat.eqb].
  - change (negb (Z.of_nat 0 =? 0)) with false. cbn iota. rewrite wrap_small by (change (2 ^ 8) with 256; lia). lia.
  - change (negb (Z.of_nat (S i) =? 0)) with true. cbn iota.
    replace (Z.lor (q mod 128) 128) with (q mod 128 + 128)
      by (symmetry; apply (lor_shiftl_add (q mod 128) 1 7); [lia|exact Hq]).
    rewrite wrap_small by (change (2 ^ 7) with 128; change (2 ^ 8) with 256; lia). done.
Qed.

Lemma digits_snoc v n : forall cont,
  digits_cont v cont (S (S n)) = digits_cont (v / 128) 128 (S n) ++ [v mod 128 + cont].
Proof.
  induction n as [|n IH]; intros cont.
  - cbn [digits_cont Nat.eqb app Z.of_nat]. rewrite !Z.pow_0_r, !Z.div_1_r, Z.pow_1_r. done.
  - cbn [digits_cont Nat.eqb] in IH |- *. rewrite IH. cbn [app]. f_equal.
    rewrite Z.div_div by lia. do 3 f_equal.
    replace (Z.of_nat (S (S n))) with (1 + Z.of_nat (S n)) by lia. by rewrite Z.pow_add_r by lia.
Qed.

Lemma digits_base128 n : forall k v cont,
  (n < k)%nat -> 0 <= v < 128 ^ Z.of_nat (S n) -> (n <> O -> 128 ^ Z.of_nat n <= v) ->
  digits_cont v cont (S n) = base128 k v cont.
Proof.
  induction n as [|n IH]; intros k v cont Hk Hv Hn; (destruct k as [|k]; [lia|]).
  - cbn [digits_cont Nat.eqb Z.of_nat base128]. rewrite Z.pow_0_r, Z.div_1_r.
    change (128 ^ Z.of_nat 1) with 128 in Hv. rewrite Z.mod_small by lia. by bool_true (v <? 128).
  - specialize (Hn ltac:(done)). cbn [base128].
    replace (Z.of_nat (S (S n))) with (1 + Z.of_nat (S n)) in Hv by lia.
    rewrite Z.pow_add_r, Z.pow_1_r in Hv by lia.
    replace (Z.of_nat (S n)) with (1 + Z.of_nat n) in Hn by lia.
    rewrite Z.pow_add_r, Z.pow_1_r in Hn by lia.
    pose proof (Z.pow_pos_nonneg 128 (Z.of_nat n) ltac:(lia) ltac:(lia)).
    bool_false (v <? 128). rewrite digits_snoc. f_equal. apply IH; [lia| |].
    + split; [apply Z.div_pos; lia|apply Z.div_lt_upper_bound; lia].
    + intros _. apply Z.div_le_lower_bound; lia.
Qed.

Lemma count_digits_spec fuel : forall v, 0 <= v < 128 ^ Z.of_nat fuel ->
  let n := count_digits fuel v in
  v < 128 ^ Z.of_nat n /\ (n <> O -> 128 ^ (Z.of_nat n - 1) <= v).
Proof.
  induction fuel as [|fuel IH]; intros v Hv.
  - change (128 ^ Z.of_nat 0) with 1 in Hv. cbn. lia.
  - cbn [count_digits]. destruct (Z.ltb_spec 0 v); [|change (128 ^ Z.of_nat 0) with 1; lia].
    rewrite shiftr_div by lia. change (2 ^ 7) with 128.
    replace (Z.of_nat (S fuel)) with (1 + Z.of_nat fuel) in Hv by lia.
    rewrite Z.pow_add_r, Z.pow_1_r in Hv by lia.
    destruct (IH (v / 128)) as [Hlt Hge];
      [split; [apply Z.div_pos; lia|apply Z.div_lt_upper_bound; lia]|].
    set (n := count_digits fuel (v / 128)) in *. cbn zeta.
    replace (Z.of_nat (S n)) with (1 + Z.of_nat n) by lia. rewrite Z.pow_add_r, Z.pow_1_r by lia.
    pose proof (Z.div_mod v 128 ltac:(lia)). pose proof (Z.mod_pos_bound v 128 ltac:(lia)).
    split; [lia|]. intros _. replace (1 + Z.of_nat n - 1) with (Z.of_nat n) by lia.
    destruct n as [|n]; [change (128 ^ Z.of_nat 0) with 1; lia|]. specialize (Hge ltac:(done)).
    replace (Z.of_nat (S n)) with (1 + (Z.of_nat (S n) - 1)) by lia.
    rewrite Z.pow_add_r, Z.pow_1_r by lia. lia.
Qed.

Lemma base128_bytes v : 0 <= v < 2 ^ 64 ->
  digits v (if (count_digits 64 v =? 0)%nat then 1%nat else count_digits 64 v) = base128 10 v 0.
Proof.
  intros Hv. destruct (count_digits_spec 64 v) as [Hlt Hge].
  { split; [lia|]. change (128 ^ Z.of_nat 64) with (2 ^ 448). 
    assert (2 ^ 64 <= 2 ^ 448) by (apply Z.pow_le_mono_r; lia). lia. }
  rewrite digits_divided. destruct (count_digits 64 v) as [|n] eqn:E; cbn [Nat.eqb].
  - change (128 ^ Z.of_nat 0) with 1 in Hlt. replace v with 0 by lia. done.
  - specialize (Hge ltac:(done)). replace (Z.of_nat (S n) - 1) with (Z.of_nat n) in Hge by lia.
    apply digits_base128; [|lia|done].
    destruct (Nat.lt_ge_cases n 10) as [|H10]; [done|].
    assert (128 ^ 10 <= 128 ^ Z.of_nat n) by (apply Z.pow_le_mono_r; lia).
    change (128 ^ 10) with 1180591620717411303424 in *.
    change (2 ^ 64) with 18446744073709551616 in Hv. lia.
Qed.

(** ** Identifier octets *)

Lemma class_octet x : is_byte x -> Z.land x 0xe0 = x / 32 * 32.
Proof.
  intros Hx. unfold is_byte in Hx.
  assert (H : forallb (fun n => Z.land (Z.of_nat n) 0xe0 =? Z.of_nat n / 32 * 32) (seq 0 256) = true)
    by (vm_compute; reflexivity).
  rewrite forallb_forall in H. specialize (H (Z.to_nat x)). rewrite Z2Nat.id in H by lia.
  apply Z.eqb_eq, H, in_seq. lia.
Qed.

Lemma identifier_octets tag : 0 <= tag < 2 ^ 32 ->
  let tag_bits := Z.land (Z.shiftr tag CBS_ASN1_TAG_SHIFT) 0xe0 in
  let tag_number := Z.land tag CBS_ASN1_TAG_NUMBER_MASK in
  0 <= tag_number < 2 ^ 29 /\
  der_tag tag = if 0x1f <=? tag_number
                then u8 (Z.lor tag_bits 0x1f) :: base128 10 tag_number 0
                else [u8 (Z.lor tag_bits tag_number)].
Proof.
  intros Ht. change (2 ^ 32) with 4294967296 in Ht.
  unfold CBS_ASN1_TAG_SHIFT, CBS_ASN1_TAG_NUMBER_MASK.
  rewrite shiftr_div, (land_mask_mod tag 29) by done. cbn zeta.
  assert (Hc : 0 <= tag / 2 ^ 29 < 8).
  { change (2 ^ 29) with 536870912. split; [apply Z.div_pos; lia|apply Z.div_lt_upper_bound; lia]. }
  rewrite class_octet.
  2: { unfold is_byte. change (2 ^ 24) with 16777216.
       split; [apply Z.div_pos; lia|apply Z.div_lt_upper_bound; lia]. }
  rewrite Z.div_div by lia. change (2 ^ 24 * 32) with (2 ^ 29).
  pose proof (Z.mod_pos_bound tag (2 ^ 29) ltac:(done)) as Hm.
  unfold der_tag. set (c := tag / 2 ^ 29) in *. set (num := tag mod 2 ^ 29) in *. clearbody c num.
  assert (Hlor : forall n, 0 <= n < 32 -> u8 (Z.lor (c * 32) n) = c * 32 + n).
  { intros n Hn. replace (Z.lor (c * 32) n) with (n + c * 2 ^ 5).
    - rewrite wrap_small; change (2 ^ 8) with 256; change (2 ^ 5) with 32; lia.
    - change 32 with (2 ^ 5). rewrite <- (Z.shiftl_mul_pow2 c) by lia.
      rewrite Z.lor_comm, lor_shiftl_add by (lia || exact Hn).
      by rewrite <- (Z.shiftl_mul_pow2 c) by lia. }
  split; [done|]. rewrite (Z.leb_antisym _ 0x1f), (Hlor 0x1f) by lia.
  destruct (Z.ltb_spec num 31); cbn [negb]; [|done]. by rewrite Hlor by lia.
Qed.

Section ops.
Context (malloc : nat -> Z -> option (list Z)) (Hmalloc : malloc_spec malloc).
Context (b : nat) (fixed : option Z) (top : nat).

Local Abbreviation rep := (rep b fixed top).
Local Abbreviation poisoned := (poisoned b fixed top).
Local Abbreviation does := (does malloc b fixed top).
Local Abbreviation holds := (holds fixed).

(** ** Reading the CBB and its buffer *)

Definition top_object (f : frame) (outer : list frame) : cbb_st :=
  CBB (Some b) None (zlen (flat outer)) (f_width f) (f_asn1 f)
     (match outer with [] => false | _ => true end).

Lemma does_head {A} slack (k : cbb_st -> M world A) f outer v :
  does slack (k (top_object f outer)) (f :: outer) v ->
  does slack (let! c := get_cbb (f_ref f) in k c) (f :: outer) v.
Proof.
  intros Hk w Hw. rewrite (bind_Ret _ _ _ _ _ (get_cbb_run _ _ _ (rep_head _ _ _ _ _ _ Hw))).
  by apply Hk.
Qed.

Lemma does_base {A} slack (k : nat * cbb_buffer_st -> M world A) fs v :
  (forall x, holds x (flat fs) -> does slack (k (b, x)) fs v) ->
  does slack (let! x := get_base (Some b) in k x) fs v.
Proof.
  intros Hk w Hw. pose proof Hw as (_ & _ & _ & _ & x & Hb & Hx).
  rewrite (bind_Ret _ _ _ _ _ (get_base_run _ _ _ Hb)). by apply (Hk x).
Qed.

(** An operation begins by closing the frames inside its CBB. *)
Lemma does_flush {A} slack r (k : unit -> M world A) fs u :
  0 <= slack -> r ∈ refs fs ->
  (forall f outer, f_ref f = r -> refs (f :: outer) = enclosing r fs ->
     spec_flush r fs = Ok (f :: outer) ->
     does slack (k tt) (f :: outer) (u (f :: outer)) /\ grows (f :: outer) (u (f :: outer))) ->
  does slack (bind (CBB_flush malloc r) k) fs (vbind (spec_flush r fs) u).
Proof using Hmalloc.
  intros Hs Hr Hk w Hw. refine (does_bind malloc b fixed top (CBB_flush malloc r) k fs _ u slack Hs
    (flush_does malloc Hmalloc b fixed top r fs Hr) _ _ w Hw).
  - intros fs1 [] E. destruct (flush_frames _ _ _ E) as (f & outer & -> & Hf).
    apply Hk; [done|by apply flush_refs|done].
  - intros fs1 E. destruct (flush_frames _ _ _ E) as (f & outer & -> & Hf).
    apply Hk; [done|by apply flush_refs|done].
Qed.

(** ** Adding bytes to the innermost frame *)

Lemma add_poison w fs x a : rep w fs -> holds x (flat fs) ->
  poisoned (with_allocs (with_base w b (set_error x)) a).
Proof. intros (Ho & _) (Hx & _). apply (poison b fixed top (w_cbbs w) (w_bases w) a x Ho Hx). Qed.

Lemma add_top_does f outer data :
  bytes_ok data -> zlen data < 2 ^ 64 ->
  does 0 (let! dest := cbb_buffer_add malloc (Some b) (zlen data) in put_bytes (Some b) dest data)
    (f :: outer) (Ok (append data f :: outer)).
Proof using Hmalloc.
  intros Hd Hn w Hw. pose proof Hw as (_ & _ & _ & _ & x & Hb & Hx). pose proof (zlen_nonneg data).
  destruct (add_holds malloc Hmalloc b fixed w x _ (zlen data) Hb Hx ltac:(lia))
    as [(x' & a & old & post & E & Eb & Hold & Hmid)|(a & E & Hr)].
  - rewrite (bind_Ret _ _ _ _ _ E).
    rewrite (put_bytes_run (with_allocs (with_base w b x') a) b x' _ old post data _
      (with_base_lookup w b x') Eb eq_refl Hold).
    eexists. split; [done|]. unfold with_base at 1. cbn. rewrite insert_insert_eq.
    apply (rep_extend b fixed top w f outer data _ a Hw Hd). by apply Hmid.
  - rewrite (bind_Fail _ _ _ _ E). right. split; [by eapply add_poison|]. intros fs' [= <-]. by rewrite zlen_flat_append, Z.add_0_r.
Qed.

Lemma add_u_top_does f outer v n :
  0 <= v -> 1 <= n <= 8 ->
  does 0 (cbb_buffer_add_u malloc (Some b) v n) (f :: outer)
    (if v <? 256 ^ n then Ok (append (be_bytes (Z.to_nat n) v) f :: outer) else Dead).
Proof using Hmalloc.
  intros Hv Hn w Hw. pose proof Hw as (Ho & _ & _ & _ & x & Hb & Hx).
  unfold cbb_buffer_add_u. bool_false (n =? 0).
  destruct (add_holds malloc Hmalloc b fixed w x _ n Hb Hx
    ltac:(change (2 ^ 64) with 18446744073709551616; lia))
    as [(x' & a & old & post & E & Eb & Hold & Hmid)|(a & E & Hr)].
  - rewrite (bind_Ret _ _ _ _ _ E). set (w1 := with_allocs _ a).
    rewrite (bind_Ret _ _ _ _ _ (store_be_run (Z.to_nat n) w1 b x' _ old post _ v
      (with_base_lookup w b x') Eb eq_refl ltac:(lia) Hv)).
    rewrite Z2Nat.id, fits_div by lia.
    assert (Hx' : holds (set_buf (flat (f :: outer) ++ be_bytes (Z.to_nat n) v ++ post) x')
      (flat (f :: outer) ++ be_bytes (Z.to_nat n) v)) by (apply Hmid; rewrite zlen_be_bytes; lia).
    destruct (v <? 256 ^ n); cbn [negb].
    + eexists. split; [done|]. unfold with_base, w1. cbn. rewrite insert_insert_eq.
      apply (rep_extend b fixed top w f outer _ _ a Hw); [apply be_bytes_ok|done].
    + rewrite (buffer_error_run _ b _ (lookup_insert_eq _ _ _)). right. split; [|done].
      apply (poison b fixed top (w_cbbs w) _ a _ Ho (proj1 Hx')).
  - rewrite (bind_Fail _ _ _ _ E). right. split; [by eapply add_poison|].
    destruct (v <? 256 ^ n); [|done]. intros fs' [= <-].
    rewrite zlen_flat_append, zlen_be_bytes, Z2Nat.id, Z.add_0_r by lia. done.
Qed.

(** ** Adding to any open CBB *)

Lemma bytes_does r fs data :
  r ∈ refs fs -> bytes_ok data -> zlen data < 2 ^ 64 ->
  does 0 (CBB_add_bytes malloc r data) fs (spec_add r data fs).
Proof using Hmalloc.
  intros Hr Hd Hn. unfold CBB_add_bytes, spec_add. apply does_flush; [lia|done|].
  intros f outer <- _ _. split; [|apply append_top_grows].
  apply does_head. cbn [c_base top_object]. by apply add_top_does.
Qed.

Lemma add_u_does r fs v n :
  r ∈ refs fs -> 0 <= v -> 1 <= n <= 8 ->
  does 0 (cbb_add_u malloc r v n) fs (spec_add_u r v n fs).
Proof using Hmalloc.
  intros Hr Hv Hn. unfold cbb_add_u, spec_add_u.
  replace (if v <? 256 ^ n then spec_add r (be_bytes (Z.to_nat n) v) fs else Dead) with
    (vbind (spec_flush r fs) (fun fs =>
       if v <? 256 ^ n then Ok (append_top (be_bytes (Z.to_nat n) v) fs) else Dead)).
  2: { unfold spec_add. pose proof (spec_flush_not_No r fs).
       destruct (v <? 256 ^ n), (spec_flush r fs) as [|fs'|]; try done. by destruct (H fs'). }
  apply does_flush; [lia|done|]. intros f outer <- _ _. split.
  - apply does_head. cbn [c_base top_object append_top]. by apply add_u_top_does.
  - destruct (v <? 256 ^ n); [apply append_top_grows|done].
Qed.

Lemma spec_add_u_fits r v n fs : v < 256 ^ n ->
  spec_add_u r v n fs = spec_add r (be_bytes (Z.to_nat n) v) fs.
Proof. intros H. unfold spec_add_u. by bool_true (v <? 256 ^ n). Qed.

Lemma u8_does r fs v : r ∈ refs fs ->
  does 0 (CBB_add_u8 malloc r v) fs (spec_add r [u8 v] fs).
Proof using Hmalloc.
  intros Hr. pose proof (wrap_range 8 v ltac:(lia)) as Hv.
  replace [u8 v] with (be_bytes (Z.to_nat 1) (u8 v)) by (change (be_bytes (Z.to_nat 1) (u8 v)) with [u8 v mod 256]; by rewrite Z.mod_small).
  rewrite <- spec_add_u_fits by lia. apply add_u_does; [done|lia|lia].
Qed.

Lemma u8_top_does f outer v :
  does 0 (CBB_add_u8 malloc (f_ref f) v) (f :: outer) (Ok (append [u8 v] f :: outer)).
Proof using Hmalloc. rewrite <- spec_add_top. apply u8_does, list_elem_of_here. Qed.

(** The caller fills the space. *)
Definition CBB_fill_space (r : nat) (data : list Z) : M world unit :=
  let! out := CBB_add_space malloc r (zlen data) in
  let! c := get_cbb r in
  put_bytes (c_base c) out data.

Lemma space_does r fs data :
  r ∈ refs fs -> bytes_ok data -> zlen data < 2 ^ 64 ->
  does 0 (CBB_fill_space r data) fs (spec_add r data fs).
Proof using Hmalloc.
  intros Hr Hd Hn.
  apply (does_ext _ _ _ _ (CBB_flush malloc r ;;! let! c := get_cbb r in
    let! out := cbb_buffer_add malloc (c_base c) (zlen data) in
    let! c := get_cbb r in put_bytes (c_base c) out data)).
  { intros w. unfold CBB_fill_space, CBB_add_space. rewrite bind_assoc.
    apply bind_ext. intros _ w1. by rewrite bind_assoc. }
  unfold spec_add. apply does_flush; [lia|done|].
  intros f outer <- _ _. split; [|apply append_top_grows].
  apply does_head. cbn [c_base top_object append_top].
  pose proof (add_top_does f outer data Hd Hn) as Hadd. intros w Hw. specialize (Hadd w Hw).
  unfold bind at 1. unfold bind in Hadd.
  destruct (cbb_buffer_add malloc (Some b) (zlen data) w) as [out w'| | |] eqn:E; try done.
  assert (Ec : w_cbbs w' = w_cbbs w).
  { pose proof Hw as (_ & _ & _ & _ & x & Hb & Hx). pose proof (zlen_nonneg data).
    destruct (add_holds malloc Hmalloc b fixed w x _ (zlen data) Hb Hx ltac:(lia))
      as [(x' & a & old & post & E' & _)|(a & E' & _)]; rewrite E in E'; [|done].
    by injection E' as -> ->. }
  rewrite (bind_Ret _ _ _ _ _ (get_cbb_run w' (f_ref f) (top_object f outer)
    ltac:(rewrite Ec; exact (rep_head _ _ _ _ _ _ Hw)))).
  exact Hadd.
Qed.

Lemma zeros_does r fs n :
  r ∈ refs fs -> 0 <= n < 2 ^ 64 ->
  does 0 (CBB_add_zeros malloc r n) fs (spec_add r (replicate (Z.to_nat n) 0) fs).
Proof using Hmalloc.
  intros Hr Hn. pose proof (zlen_replicate n 0 ltac:(lia)) as El.
  apply (does_ext _ _ _ _ (CBB_fill_space r (replicate (Z.to_nat n) 0))).
  { intros w. unfold CBB_fill_space, CBB_add_zeros. by rewrite El. }
  apply space_does; [done| |lia]. apply Forall_replicate. unfold is_byte. lia.
Qed.

(** The caller fills a part of the space it has reserved. *)
Definition CBB_fill_reserved (r : nat) (n : Z) (data : list Z) : M world unit :=
  let! out := CBB_reserve malloc r n in
  let! c := get_cbb r in
  put_bytes (c_base c) out data ;;!
  CBB_did_write r (zlen data).

Lemma fill_reserved_top w f outer x data :
  rep w (f :: outer) -> w_bases w !! b = Some x -> holds x (flat (f :: outer)) ->
  bytes_ok data -> b_len x + zlen data <= b_cap x ->
  exists w', (put_bytes (Some b) (b_len x) data ;;! CBB_did_write (f_ref f) (zlen data)) w = Ret tt w' /\
    rep w' (append data f :: outer).
Proof.
  intros Hw Hb Hx Hd Hn. pose proof Hx as ((Hc & Hl & H64 & Hres & Hfix) & He & junk & Eb & El).
  pose proof (zlen_nonneg data). rewrite Eb, zlen_app in Hc.
  rewrite <- (ztake_zdrop (zlen data) junk) in Eb.
  rewrite (bind_Ret _ _ _ _ _ (put_bytes_run w b x _ _ _ data _ Hb Eb El
    ltac:(apply zlen_ztake; lia))).
  set (x1 := set_buf _ x). unfold CBB_did_write.
  rewrite (bind_Ret _ _ _ _ _ (get_cbb_run (with_base w b x1) _ _ (rep_head _ _ _ _ _ _ Hw))).
  cbn [c_base c_child]. rewrite (bind_Ret _ _ _ _ _ (get_base_run _ _ _ (with_base_lookup w b x1))).
  cbn [snd x1 set_buf b_len b_cap]. rewrite wrap_small by lia.
  bool_false (b_len x + zlen data <? b_len x). bool_false (b_cap x <? b_len x + zlen data). cbn [orb].
  rewrite (upd_base_run _ b _ _ (with_base_lookup w b x1)), with_base_twice.
  eexists. split; [done|]. apply (rep_extend b fixed top w f outer data _ (w_allocs w) Hw Hd).
  split; [|split; [done|]].
  - repeat split; cbn -[flat]; rewrite ?zlen_app, ?zlen_zdrop; (done || lia).
  - exists (zdrop (zlen data) junk). cbn -[flat]. rewrite <- app_assoc, !zlen_app. split; [done|lia].
Qed.

Lemma reserved_does r fs n data :
  r ∈ refs fs -> bytes_ok data -> zlen data <= n < 2 ^ 64 ->
  does (n - zlen data) (CBB_fill_reserved r n data) fs (spec_add r data fs).
Proof using Hmalloc.
  intros Hr Hd Hn.
  apply (does_ext _ _ _ _ (CBB_flush malloc r ;;! let! c := get_cbb r in
    let! out := cbb_buffer_reserve malloc (c_base c) n in
    let! c := get_cbb r in put_bytes (c_base c) out data ;;! CBB_did_write r (zlen data))).
  { intros w. unfold CBB_fill_reserved, CBB_reserve. rewrite bind_assoc.
    apply bind_ext. intros _ w1. by rewrite bind_assoc. }
  unfold spec_add. pose proof (zlen_nonneg data). apply does_flush; [lia|done|].
  intros f outer <- _ _. split; [|apply append_top_grows].
  apply does_head. cbn [c_base top_object append_top]. intros w Hw.
  pose proof Hw as (Ho & Hok & Hnd & Hl & x & Hb & Hx). pose proof Hx as (Hx0 & He & junk & Eb & El).
  destruct (reserve_run malloc Hmalloc b fixed w x n Hb Hx0 ltac:(lia))
    as [(more & a & E & Hx1 & Hle)|(a & E & Hno)].
  - rewrite (bind_Ret _ _ _ _ _ E). set (x1 := set_block _ _ x) in *. set (w1 := with_allocs _ a).
    assert (Hx1' : holds x1 (flat (f :: outer))).
    { split; [done|]. split; [done|]. exists (junk ++ more). cbn. by rewrite Eb, app_assoc. }
    assert (Hw1 : rep w1 (f :: outer)).
    { repeat (split; [done|]). exists x1. split; [apply lookup_insert_eq|done]. }
    rewrite (bind_Ret _ _ _ _ _ (get_cbb_run w1 _ _ (rep_head _ _ _ _ _ _ Hw1))). cbn [c_base].
    destruct (fill_reserved_top w1 f outer x1 data Hw1 (lookup_insert_eq _ _ _) Hx1' Hd
      ltac:(change (b_len x1) with (b_len x); lia)) as (w' & E' & Hw').
    change (b_len x1) with (b_len x) in E'. rewrite E'. by eexists.
  - rewrite (bind_Fail _ _ _ _ E). right. split; [by eapply add_poison|].
    intros fs' [= <-]. rewrite zlen_flat_append, <- El.
    by replace (b_len x + zlen data + (n - zlen data)) with (b_len x + n) by lia.
Qed.

(** ** Opening a frame *)

Lemma push_does w f outer out n (asn1 : bool) off :
  rep w (append (replicate (Z.to_nat n) 0) f :: outer) ->
  off = zlen (flat (f :: outer)) -> out ∉ refs (f :: outer) ->
  1 <= n <= 3 -> (asn1 = true -> n = 1) ->
  exists w', start_child (f_ref f) out (Some b) off n asn1 w = Ret tt w' /\
    rep w' (Frame out n asn1 [] :: f :: outer).
Proof.
  intros Hw -> Hout Hn Ha. pose proof Hw as (Ho & Hok & Hnd & [Hf Hl] & x & Hb & Hx).
  change (refs (append _ f :: outer)) with (refs (f :: outer)) in Hnd.
  cbn [append f_ref] in Hf. pose proof Hout as Hout'. cbn [refs fmap list_fmap] in Hout'.
  apply not_elem_of_cons in Hout' as [Hne Hout'].
  unfold start_child. set (m1 := <[out := set_base (Some b) (CBB None None 0 0 false true)]> (w_cbbs w)).
  rewrite (bind_Ret (put_cbb out _) _ w tt (World m1 (w_bases w) (w_allocs w)) eq_refl).
  rewrite (bind_Ret _ _ _ _ _ (upd_cbb_run (World m1 (w_bases w) (w_allocs w)) (f_ref f) (top_object f outer) _
    ltac:(cbn; unfold m1; rewrite lookup_insert_ne by done; exact Hf))).
  erewrite upd_cbb_run; [|cbn [w_cbbs]; rewrite lookup_insert_ne by done; apply lookup_insert_eq].
  eexists. split; [done|]. cbn [w_cbbs w_bases w_allocs set_child set_base top_object]. 
  assert (Hdata : bytes_ok (f_data f) /\ frames_ok (f :: outer)).
  { destruct Hok as [[Hd Hwd] Hrest]. apply Forall_app in Hd as [Hd _].
    split; [done|]. split; [by split|done]. }
  split; [|split; [|split; [|split]]].
  - assert (Htop : out <> top).
    { intros ->. apply Hout. apply (linked_top b top (f :: outer) (w_cbbs w) None); [|done]. by split. }
    apply owned_other; [|done].
    apply (owned_update _ _ _ _ (top_object f outer)); [by apply owned_other| |done|done].
    unfold m1. rewrite lookup_insert_ne by done. exact Hf.
  - split; [|apply Hdata]. split; [constructor|done].
  - by apply NoDup_cons.
  - cbn [CbbFrames.linked f_ref f_width f_asn1 w_cbbs]. rewrite lookup_insert_eq. split; [done|].
    rewrite lookup_insert_ne by done. rewrite lookup_insert_eq. split; [done|].
    apply NoDup_cons in Hnd as [Hff _]. apply linked_insert; [done|]. apply linked_insert; [done|].
    by apply linked_insert.
  - exists x. split; [done|]. rewrite flat_append in Hx.
    rewrite (flat_cons (Frame out n asn1 [])). cbn [f_width f_data]. by rewrite app_nil_r.
Qed.

Lemma push_grows out n (asn1 : bool) fs : 0 <= n -> grows fs (Ok (Frame out n asn1 [] :: fs)).
Proof.
  intros Hn fs' [= <-]. rewrite zlen_flat by done. cbn [f_width f_data].
  change (zlen (@nil Z)) with 0. lia.
Qed.

Lemma prefixed_does r out n fs :
  r ∈ refs fs -> out ∉ enclosing r fs -> 1 <= n <= 3 ->
  does 0 (cbb_add_length_prefixed malloc r out n) fs (spec_prefixed r out n fs).
Proof using Hmalloc.
  intros Hr Hout Hn. unfold cbb_add_length_prefixed, spec_prefixed. apply does_flush; [lia|done|].
  intros f outer <- Hrefs _. rewrite <- Hrefs in Hout. split; [|apply push_grows; lia].
  apply does_head. cbn [c_base top_object]. apply does_base. intros x Hx. cbn [snd].
  apply holds_len in Hx as [_ ->].
  pose proof (zlen_replicate n 0 ltac:(lia)) as El.
  apply (does_ext _ _ _ _ ((let! dest := cbb_buffer_add malloc (Some b) (zlen (replicate (Z.to_nat n) 0)) in
    put_bytes (Some b) dest (replicate (Z.to_nat n) 0)) ;;!
    start_child (f_ref f) out (Some b) (zlen (flat (f :: outer))) n false)).
  { intros w. by rewrite bind_assoc, El. }
  change (Ok (Frame out n false [] :: f :: outer)) with
    (vbind (Ok (append (replicate (Z.to_nat n) 0) f :: outer))
           (fun _ => Ok (Frame out n false [] :: f :: outer))).
  apply does_bind; [lia|apply add_top_does| |].
  - apply Forall_replicate. unfold is_byte. lia.
  - change (2 ^ 64) with 18446744073709551616. lia.
  - intros fs1 [] [= <-] w Hw.
    destruct (push_does w f outer out n false _ Hw eq_refl Hout Hn ltac:(done)) as (w' & -> & Hw').
    by eexists.
  - intros fs1 [= <-] fs' [= <-]. rewrite zlen_flat_append, El, (zlen_flat (Frame _ _ _ _)) by (cbn; lia).
    cbn [f_width f_data]. change (zlen (@nil Z)) with 0. lia.
Qed.

Lemma put_digits_does v n : forall f outer,
  does 0 (put_digits malloc (f_ref f) v n) (f :: outer) (Ok (append (digits v n) f :: outer)).
Proof using Hmalloc.
  induction n as [|n IH]; intros f outer.
  - cbn [digits put_digits]. rewrite append_nil. apply does_ret.
  - cbn [digits put_digits]. set (d := if negb _ then _ else _).
    change (u8 d :: digits v n) with ([u8 d] ++ digits v n). rewrite <- append_append.
    apply (does_bind _ _ _ _ _ _ _ (Ok (append [u8 d] f :: outer)) (fun fs => Ok (append_top (digits v n) fs)));
      [lia|apply u8_top_does| |].
    + intros fs1 [] [= <-]. apply (IH (append [u8 d] f)).
    + intros fs1 _. apply append_top_grows.
Qed.

Lemma base128_int_top_does f outer v : 0 <= v < 2 ^ 64 ->
  does 0 (add_base128_integer malloc (f_ref f) v) (f :: outer)
    (Ok (append (base128 10 v 0) f :: outer)).
Proof using Hmalloc.
  intros Hv. unfold add_base128_integer. rewrite <- base128_bytes by done. apply put_digits_does.
Qed.

(** ** ASN.1 elements *)

Lemma tag_does f outer tag : 0 <= tag < 2 ^ 32 ->
  let tag_bits := Z.land (Z.shiftr tag CBS_ASN1_TAG_SHIFT) 0xe0 in
  let tag_number := Z.land tag CBS_ASN1_TAG_NUMBER_MASK in
  does 0 (if 0x1f <=? tag_number then
            CBB_add_u8 malloc (f_ref f) (Z.lor tag_bits 0x1f) ;;!
            add_base128_integer malloc (f_ref f) tag_number
          else CBB_add_u8 malloc (f_ref f) (Z.lor tag_bits tag_number))
    (f :: outer) (Ok (append (der_tag tag) f :: outer)).
Proof using Hmalloc.
  intros Ht. destruct (identifier_octets tag Ht) as [Hn ->]. cbn zeta.
  set (num := Z.land tag _) in *. set (bits := Z.land _ 0xe0).
  destruct (0x1f <=? num); [|apply u8_top_does].
  change (u8 (Z.lor bits 0x1f) :: base128 10 num 0) with ([u8 (Z.lor bits 0x1f)] ++ base128 10 num 0).
  rewrite <- append_append.
  apply (does_bind _ _ _ _ _ _ _ (Ok (append [u8 (Z.lor bits 0x1f)] f :: outer))
    (fun fs => Ok (append_top (base128 10 num 0) fs))); [lia|apply u8_top_does| |].
  - intros fs1 [] [= <-]. apply (base128_int_top_does (append _ f)).
    change (2 ^ 29) with 536870912 in Hn. change (2 ^ 64) with 18446744073709551616. lia.
  - intros fs1 _. apply append_top_grows.
Qed.

Lemma asn1_does r out tag fs :
  r ∈ refs fs -> out ∉ enclosing r fs -> 0 <= tag < 2 ^ 32 ->
  does 0 (CBB_add_asn1 malloc r out tag) fs (spec_asn1 r out tag fs).
Proof using Hmalloc.
  intros Hr Hout Ht. unfold CBB_add_asn1, spec_asn1, spec_add. rewrite vbind_assoc.
  apply does_flush; [lia|done|]. intros f outer <- Hrefs _. rewrite <- Hrefs in Hout.
  cbn [vbind append_top]. set (f1 := append (der_tag tag) f).
  split.
  2: { intros fs' [= <-]. etrans; [|apply (push_grows out 1 true); [lia|done]].
       unfold f1. rewrite zlen_flat_append. pose proof (zlen_nonneg (der_tag tag)). lia. }
  change (Ok (Frame out 1 true [] :: f1 :: outer)) with
    (vbind (Ok (f1 :: outer)) (fun _ => Ok (Frame out 1 true [] :: f1 :: outer))).
  apply does_bind; [lia|by apply tag_does| |].
  2: { intros fs1 [= <-]. apply push_grows. lia. }
  intros fs1 _ [= <-]. change (f_ref f) with (f_ref f1).
  apply does_head. cbn [c_base top_object]. apply does_base. intros x Hx. cbn [snd].
  apply holds_len in Hx as [_ ->].
  change (Ok (Frame out 1 true [] :: f1 :: outer)) with
    (vbind (Ok (append [u8 0] f1 :: outer)) (fun _ => Ok (Frame out 1 true [] :: f1 :: outer))).
  apply does_bind; [lia|apply u8_top_does| |].
  - intros fs1 [] [= <-] w Hw.
    destruct (push_does w f1 outer out 1 true _ Hw eq_refl Hout ltac:(lia) ltac:(done)) as (w' & -> & Hw').
    by eexists.
  - intros fs1 [= <-] fs' [= <-]. rewrite zlen_flat_append, (zlen_flat (Frame _ _ _ _)) by (cbn; lia).
    cbn [f_width f_data]. change (zlen (@nil Z)) with 0. change (zlen [u8 0]) with 1. lia.
Qed.

(** ** Discarding a child *)

Lemma flat_tail ups f outer : exists rest, flat (ups ++ f :: outer) = flat (f :: outer) ++ rest.
Proof.
  induction ups as [|u ups [rest IH]]; [exists []; by rewrite app_nil_r|].
  exists (rest ++ replicate (Z.to_nat (f_width u)) 0 ++ f_data u).
  cbn [app]. by rewrite (flat_cons u), IH, <- app_assoc.
Qed.

Lemma discard_at ups f outer : NoDup (refs (ups ++ f :: outer)) ->
  spec_discard (f_ref f) (ups ++ f :: outer) = Ok (f :: outer).
Proof.
  induction ups as [|u ups IH]; cbn [app spec_discard]; [by rewrite Nat.eqb_refl|].
  cbn [refs fmap list_fmap]. intros [Hu Hnd]%NoDup_cons.
  destruct (Nat.eqb_spec (f_ref u) (f_ref f)) as [E|_]; [|by apply IH].
  exfalso. apply Hu. rewrite E. fold (refs (ups ++ f :: outer)). rewrite refs_app.
  cbn [refs fmap list_fmap]. set_solver.
Qed.

Lemma discard_does r fs : r ∈ refs fs -> does 0 (CBB_discard_child r) fs (spec_discard r fs).
Proof.
  intros Hr. apply ref_split in Hr as (ups & f & outer & -> & <-). intros w Hw.
  pose proof Hw as (Ho & Hok & Hnd & Hl & x & Hb & Hx). rewrite discard_at by done.
  unfold CBB_discard_child. destruct ups as [|g ups _] using rev_ind.
  - rewrite (bind_Ret _ _ _ _ _ (get_cbb_run _ _ _ (rep_head _ _ _ _ _ _ Hw))). by eexists.
  - rewrite <- app_assoc in *. cbn [app] in *.
    destruct (flat_tail (ups ++ [g]) f outer) as [rest Erest]. rewrite <- app_assoc in Erest.
    cbn [app] in Erest. pose proof (linked_inner _ _ _ _ _ _ _ _ Hl) as (Hf & ch & Hg).
    rewrite (bind_Ret _ _ _ _ _ (get_cbb_run _ _ _ Hf)). cbn [c_child c_base].
    rewrite (bind_Ret _ _ _ _ _ (get_cbb_run _ _ _ Hg)). cbn [c_offset].
    rewrite (bind_Ret _ _ _ _ _ (upd_base_run w b x _ Hb)).
    rewrite (bind_Ret _ _ _ _ _ (upd_cbb_run (with_base w b _) _ _ _ Hg)).
    assert (Hne : f_ref g <> f_ref f /\ (f_ref f ∉ refs outer) /\ (f_ref g ∉ refs outer) /\ NoDup (refs outer)).
    { rewrite refs_app in Hnd. cbn [refs fmap list_fmap] in Hnd.
      apply NoDup_app in Hnd as (_ & _ & [Hg' [Hf' Hn]%NoDup_cons]%NoDup_cons).
      apply not_elem_of_cons in Hg' as [? ?]. done. }
    destruct Hne as (Hgf & Hfo & Hgo & Hndo).
    erewrite upd_cbb_run; [|cbn [w_cbbs with_base]; rewrite lookup_insert_ne by done; exact Hf].
    eexists. split; [done|]. cbn [w_cbbs w_bases w_allocs with_base set_child set_base].
    apply frames_ok_tail, frames_ok_inner in Hok as (_ & _ & _ & Hok).
    split; [|split; [done|split; [|split]]].
    + eapply owned_update; [apply owned_other; [done|]|rewrite lookup_insert_ne by done; exact Hf|done|done].
      intros Htop. destruct Ho as (c & Hc & Hchild & _). rewrite <- Htop, Hg in Hc.
      by injection Hc as <-.
    + by apply NoDup_cons.
    + cbn [CbbFrames.linked w_cbbs]. rewrite lookup_insert_eq. split; [done|].
      apply linked_insert, linked_insert; [done|done|].
      clear -Hl. revert Hl. generalize (w_cbbs w) (@None nat).
      induction ups as [|u ups IH]; intros m c'; [by intros (_ & _ & ?)|]. intros [_ Hl]. by eapply IH.
    + exists (set_len (zlen (flat (f :: outer))) x). split; [apply lookup_insert_eq|].
      destruct Hx as ((Hc & Hlen & H64 & Hres & Hfix) & He & junk & Eb & El).
      rewrite Erest in Eb, El. rewrite zlen_app in El. pose proof (zlen_nonneg rest).
      pose proof (zlen_nonneg (flat (f :: outer))).
      split; [repeat split; cbn -[flat]; (done || lia)|]. split; [done|].
      exists (rest ++ junk). cbn -[flat]. by rewrite Eb, app_assoc.
Qed.

End ops.
