(* ===== verification/CbbElements.v ===== *)
(** * BoringSSL CBB: whole ASN.1 elements

    The functions of cbb.c that write an element through a local child, against the
    DER encoding of [CbsSpec]. *)
From S2P Require Import Prelude Cbs OsslMem Cbb CbsSpec DerInt CbbFrames CbbBuffer CbbFlush CbbOps.

(** ** Local objects *)

Lemma with_local_ext {A} (body body' : nat -> M world A) w :
  (forall child w, body child w = body' child w) -> with_local body w = with_local body' w.
Proof. intros E. unfold with_local. by rewrite E. Qed.

Section elements.
Context (malloc : nat -> Z -> option (list Z)) (Hmalloc : malloc_spec malloc).
Context (b : nat) (fixed : option Z) (top : nat).

Local Abbreviation rep := (rep b fixed top).
Local Abbreviation poisoned := (poisoned b fixed top).
Local Abbreviation does := (does malloc b fixed top).

Lemma owned_delete cbbs r : r <> top -> owned b top cbbs -> owned b top (delete r cbbs).
Proof.
  intros Hr (c & Hc & H). exists c. by rewrite lookup_delete_ne.
Qed.

Lemma linked_delete r fs : forall cbbs ch, r ∉ refs fs ->
  linked b top cbbs ch fs -> linked b top (delete r cbbs) ch fs.
Proof.
  induction fs as [|f fs IH]; intros cbbs ch Hr; [done|].
  cbn [refs fmap list_fmap] in Hr. apply not_elem_of_cons in Hr as [Hne Hr].
  cbn [linked]. intros [Hf Hl]. rewrite lookup_delete_ne by done.
  split; [done|]. by apply IH.
Qed.

Lemma with_local_does {A} (body : nat -> M world A) fs v :
  (forall child, child ∉ refs fs -> does 0 (body child) fs v) ->
  (forall fs', target v = Some fs' -> refs fs' ⊆ refs fs) ->
  does 0 (with_local body) fs v.
Proof.
  intros Hbody Hsub w Hw. unfold with_local. pose proof (new_ref_fresh (w_cbbs w)) as Hnew.
  set (child := new_ref _) in *. pose proof Hw as (Ho & _ & _ & Hl & _).
  assert (Hc : child ∉ refs fs).
  { intros Hin. destruct (linked_dom _ _ _ _ _ _ Hl Hin) as [? E]. by rewrite Hnew in E. }
  assert (Htop : child <> top).
  { intros E. destruct Ho as (c & Hc' & _). by rewrite <- E, Hnew in Hc'. }
  assert (Hleave : forall w' fs', target v = Some fs' -> rep w' fs' ->
    rep (World (delete child (w_cbbs w')) (w_bases w') (w_allocs w')) fs').
  { intros w' fs' Hv (Ho' & Hok & Hnd & Hl' & x & Hx). split; [by apply owned_delete|].
    do 2 (split; [done|]). split; [apply linked_delete; [|done]|by exists x].
    intros Hin. by apply Hc, (Hsub fs' Hv). }
  specialize (Hbody child Hc w Hw). destruct (body child w) as [a w'|w'| |]; try done.
  - destruct Hbody as (fs' & -> & Hw'). exists fs'. split; [done|]. by apply Hleave.
  - destruct Hbody as [(fs' & -> & Hw')|[(Ho' & x & Hx) Hr]].
    + left. exists fs'. split; [done|]. by apply Hleave.
    + right. split; [|done]. split; [by apply owned_delete|by exists x].
Qed.

(** ** An element and its contents *)

Lemma add_refs r data fs fs' : spec_add r data fs = Ok fs' -> refs fs' = enclosing r fs.
Proof.
  unfold spec_add. destruct (spec_flush r fs) as [fs1| |] eqn:E; [|done|done].
  intros [= <-]. apply flush_refs in E as <-. by destruct fs1.
Qed.

Lemma enclosing_sub r fs : enclosing r fs ⊆ refs fs.
Proof.
  induction fs as [|f fs IH]; [done|]. cbn [enclosing]. destruct (_ =? r)%nat; [done|].
  cbn [refs fmap list_fmap]. set_solver.
Qed.

(** The verdict of an element written in three steps. *)
Lemma element_verdict r child tag body fs :
  child ∉ refs fs -> r ∈ refs fs ->
  vbind (spec_asn1 r child tag fs) (fun fs => vbind (Ok (append_top body fs)) (spec_flush r)) =
  spec_element r tag body fs.
Proof.
  intros Hc Hr. unfold spec_asn1, spec_element, spec_add. rewrite !vbind_assoc.
  destruct (spec_flush r fs) as [fs1|fs1|] eqn:E; cbn [vbind];
    [|by apply spec_flush_not_No in E|by destruct (_ <=? _)].
  destruct (flush_frames _ _ _ E) as (f & outer & -> & <-). cbn [append_top vbind].
  unfold append at 1. cbn [f_ref f_width f_asn1 f_data app].
  unfold spec_flush. rewrite close_to_cons. cbn [f_ref].
  replace (child =? f_ref f)%nat with false by (symmetry; apply Nat.eqb_neq; by intros ->).
  rewrite append_nil. unfold enclose, prefix. cbn [f_asn1 f_data].
  destruct (zlen body <=? 0xfffffffe); [|done]. rewrite close_to_cons. cbn [append f_ref f_width f_asn1 f_data].
  rewrite Nat.eqb_refl. unfold append. cbn. unfold der_element, der_header. by rewrite <- !app_assoc.
Qed.

Lemma child_widths child body outer : widths_ok outer ->
  widths_ok (append_top body (Frame child 1 true [] :: outer)).
Proof. destruct outer; [done|]. intros H. split; [cbn; lia|]. by split. Qed.

Lemma does_widths {A} slack (m : M world A) fs v :
  (widths_ok fs -> does slack m fs v) -> does slack m fs v.
Proof. intros Hm w Hw. apply Hm; [|done]. apply frames_widths, Hw. Qed.

(** Writing an element: its header, contents that are written to the innermost
    frame, and the flush of the CBB it belongs to. *)
Lemma element_does {A} r tag body (put : nat -> M world A) fs :
  r ∈ refs fs -> 0 <= tag < 2 ^ 32 ->
  (forall f outer, does 0 (put (f_ref f)) (f :: outer) (Ok (append body f :: outer))) ->
  does 0 (with_local (fun child =>
      CBB_add_asn1 malloc r child tag ;;! put child ;;! CBB_flush malloc r)) fs
    (spec_element r tag body fs).
Proof using Hmalloc.
  intros Hr Ht Hput. apply does_widths. intros Hwd. apply with_local_does.
  - intros child Hc. rewrite <- (element_verdict r child) by done.
    assert (Hasn1 : forall fs1, spec_asn1 r child tag fs = Ok fs1 ->
      exists outer, fs1 = Frame child 1 true [] :: outer /\ r ∈ refs outer /\ widths_ok outer).
    { intros fs1. unfold spec_asn1. destruct (spec_add r _ fs) as [fs0| |] eqn:E; [|done|done].
      intros [= <-]. exists fs0. split; [done|]. rewrite (add_refs _ _ _ _ E).
      unfold spec_add in E. destruct (spec_flush r fs) as [fs2| |] eqn:E2; [|done|done].
      rewrite <- (flush_refs _ _ _ E2). destruct (flush_frames _ _ _ E2) as (f & outer & -> & <-).
      split; [apply list_elem_of_here|]. unfold spec_flush in E2. apply close_to_widths in E2; [|done].
      injection E as <-. exact E2. }
    apply does_bind; [lia|apply asn1_does; [done|done| |done]| |].
    + intros Hin. by apply Hc, (enclosing_sub r).
    + intros fs1 _ E. destruct (Hasn1 fs1 E) as (outer & -> & Hin & Hwo).
      apply does_bind; [lia|apply (Hput (Frame child 1 true []))| |].
      * intros fs2 _ [= <-]. apply flush_does; [done|]. by apply list_elem_of_further.
      * intros fs2 [= <-]. apply flush_grows, (child_widths child body), Hwo.
    + intros fs1 E. destruct (Hasn1 fs1 E) as (outer & -> & Hin & Hwo). cbn [vbind].
      intros fs' Hf. etrans; [apply (append_top_grows body); done|].
      apply (flush_grows r); [|done]. apply (child_widths child body), Hwo.
  - intros fs' Hv. unfold spec_element in Hv. destruct (_ <=? _); [|done].
    destruct (spec_add _ _ _) as [fs1|fs1|] eqn:E; [| |done].
    + injection Hv as <-. rewrite (add_refs _ _ _ _ E). apply enclosing_sub.
    + unfold spec_add in E. destruct (spec_flush r fs) eqn:E2; try done. by apply spec_flush_not_No in E2.
Qed.

(** ** Contents written byte by byte *)

(** [m] appends [data] to the innermost frame, whatever it is. *)
Definition puts {A} (r : nat) (m : M world A) (data : list Z) : Prop :=
  forall f outer, f_ref f = r -> does 0 m (f :: outer) (Ok (append data f :: outer)).

Lemma puts_ret {A} r (a : A) : puts r (ret a) [].
Proof. intros f outer _. rewrite append_nil. apply does_ret. Qed.

Lemma puts_seq {A B} r (m : M world A) (k : A -> M world B) a c :
  puts r m a -> (forall x, puts r (k x) c) -> puts r (bind m k) (a ++ c).
Proof.
  intros Hm Hk f outer Hf. rewrite <- append_append.
  apply (does_bind _ _ _ _ _ _ _ (Ok (append a f :: outer)) (fun fs => Ok (append_top c fs)));
    [lia|by apply Hm| |].
  - intros fs1 x [= <-]. by apply (Hk x (append a f)).
  - intros fs1 _. apply append_top_grows.
Qed.

Lemma puts_ext {A} r (m m' : M world A) data :
  (forall w, m w = m' w) -> puts r m data -> puts r m' data.
Proof. intros E Hm f outer Hf. eapply does_ext; [exact E|by apply Hm]. Qed.

Lemma puts_u8 r v : puts r (CBB_add_u8 malloc r v) [u8 v].
Proof using Hmalloc. intros f outer <-. by apply u8_top_does. Qed.

(** ** Unsigned integers *)

(** The bytes [put_uint64_bytes] writes, and what it returns. *)
Fixpoint uint64_bytes (v : Z) (n : nat) (started : bool) : list Z :=
  match n with
  | O => []
  | S k =>
      let byte := (v / 256 ^ Z.of_nat k) mod 256 in
      if negb started && (byte =? 0) then uint64_bytes v k false
      else (if negb started && (128 <=? byte) then [0] else []) ++ byte :: uint64_bytes v k true
  end.
Fixpoint uint64_started (v : Z) (n : nat) (started : bool) : bool :=
  match n with
  | O => started
  | S k => uint64_started v k (started || negb ((v / 256 ^ Z.of_nat k) mod 256 =? 0))
  end.

Lemma byte_of v k : Z.land (Z.shiftr v (8 * Z.of_nat k)) 0xff = (v / 256 ^ Z.of_nat k) mod 256.
Proof.
  rewrite shiftr_div, Z.pow_mul_r by lia. change (2 ^ 8) with 256.
  by rewrite (land_mask_mod _ 8).
Qed.

Lemma put_uint64_puts r v n : forall started (k : bool -> M world unit) tail,
  puts r (k (uint64_started v n started)) tail ->
  puts r (let! s := put_uint64_bytes malloc r v n started in k s) (uint64_bytes v n started ++ tail).
Proof using Hmalloc.
  induction n as [|n IH]; intros started k tail Hk; [exact Hk|].
  cbn [put_uint64_bytes uint64_bytes uint64_started] in *. rewrite byte_of.
  set (byte := (v / _) mod 256) in *. pose proof (Z.mod_pos_bound (v / 256 ^ Z.of_nat n) 256 ltac:(lia)) as Hb.
  fold byte in Hb. destruct (negb started && (byte =? 0)) eqn:E.
  - apply IH. destruct started; [done|]. cbn [negb andb] in E. by rewrite E in Hk.
  - rewrite (Z.leb_antisym byte 128), <- (byte_high byte) by exact Hb.
    rewrite <- app_assoc. apply (puts_ext _ (
      (if negb started && negb (Z.land byte 0x80 =? 0) then CBB_add_u8 malloc r 0 else ret tt) ;;!
      CBB_add_u8 malloc r byte ;;!
      let! s := put_uint64_bytes malloc r v n true in k s)).
    { intros w. rewrite !bind_assoc. apply bind_ext. intros _ w1. by rewrite bind_assoc. }
    apply puts_seq.
    + destruct (negb started && negb (Z.land byte 0x80 =? 0)); [apply (puts_u8 r 0)|apply puts_ret].
    + intros _. change ((byte :: uint64_bytes v n true) ++ tail) with ([byte] ++ (uint64_bytes v n true ++ tail)).
      apply puts_seq.
      * replace [byte] with [u8 byte] by (rewrite wrap_small by (change (2 ^ 8) with 256; lia); done).
        apply puts_u8.
      * intros _. apply IH. replace true with (started || negb (byte =? 0)); [done|].
        by destruct started, (byte =? 0).
Qed.

Lemma uint64_bytes_true v n : uint64_bytes v n true = be_bytes n v.
Proof.
  induction n as [|n IH]; [done|]. rewrite be_bytes_shape. cbn [uint64_bytes negb andb app]. by rewrite IH.
Qed.

Lemma started_true v n : uint64_started v n true = true.
Proof. induction n as [|n IH]; [done|]. exact IH. Qed.

(** Leading zeros are dropped and a sign byte is added: the minimal form. *)
Lemma uint64_bytes_der v n : 0 <= v < 256 ^ Z.of_nat n -> (n <= 8)%nat ->
  uint64_bytes v n false ++ (if negb (uint64_started v n false) then [0] else []) = der_int v.
Proof.
  induction n as [|n IH]; intros Hv Hn.
  - change (256 ^ Z.of_nat 0) with 1 in Hv. replace v with 0 by lia. done.
  - cbn [uint64_bytes uint64_started negb andb orb].
    replace (Z.of_nat (S n)) with (1 + Z.of_nat n) in Hv by lia. rewrite Z.pow_add_r, Z.pow_1_r in Hv by lia.
    pose proof (Z.pow_pos_nonneg 256 (Z.of_nat n) ltac:(lia) ltac:(lia)).
    set (P := 256 ^ Z.of_nat n) in *.
    assert (Hq : 0 <= v / P < 256) by (split; [apply Z.div_pos; lia|apply Z.div_lt_upper_bound; lia]).
    rewrite (Z.mod_small (v / P)) by done. destruct (Z.eqb_spec (v / P) 0) as [E|E].
    + cbn [negb]. apply IH; [|lia]. apply Z.div_small_iff in E; lia.
    + cbn [negb]. rewrite started_true, uint64_bytes_true, app_nil_r.
      assert (HvP : P <= v) by (destruct (Z.lt_ge_cases v P); [rewrite Z.div_small in E by lia; done|done]).
      replace (v / P :: be_bytes n v) with (be_bytes (S n) v)
        by (rewrite be_bytes_shape; fold P; by rewrite Z.mod_small).
      unfold der_int. destruct (Z.leb_spec 128 (v / P)) as [Hhi|Hlo].
      * assert (Hv128 : 128 * P <= v) by (pose proof (Z.mul_div_le v P ltac:(lia)); nia).
        rewrite (least_fit_one (S n)); [|apply int_fits_range|lia|intros _; apply not_true_is_false; rewrite int_fits_range; fold P; lia].
        2: { replace (Z.of_nat (S n)) with (1 + Z.of_nat n) by lia. rewrite Z.pow_add_r, Z.pow_1_r by lia.
             fold P. lia. }
        rewrite (be_bytes_shape (S n)). replace (v / 256 ^ Z.of_nat (S n)) with 0; [done|].
        symmetry. apply Z.div_small. replace (Z.of_nat (S n)) with (1 + Z.of_nat n) by lia.
        rewrite Z.pow_add_r, Z.pow_1_r by lia. fold P. lia.
      * rewrite (least_fit_one n); [done|apply int_fits_range; fold P|lia|].
        { pose proof (Z.div_mod v P ltac:(lia)). pose proof (Z.mod_pos_bound v P ltac:(lia)). nia. }
        intros Hne. destruct n as [|m]; [done|]. apply not_true_is_false. rewrite int_fits_range.
        unfold P in HvP. replace (Z.of_nat (S m)) with (1 + Z.of_nat m) in HvP by lia.
        rewrite Z.pow_add_r, Z.pow_1_r in HvP by lia.
        pose proof (Z.pow_pos_nonneg 256 (Z.of_nat m) ltac:(lia) ltac:(lia)). lia.
Qed.

Lemma asn1_uint64_does r fs v : r ∈ refs fs -> 0 <= v < 2 ^ 64 ->
  does 0 (CBB_add_asn1_uint64 malloc r v) fs (spec_element r CBS_ASN1_INTEGER (der_int v) fs).
Proof using Hmalloc.
  intros Hr Hv. apply (does_ext _ _ _ _ (with_local (fun child =>
    CBB_add_asn1 malloc r child CBS_ASN1_INTEGER ;;!
    (let! started := put_uint64_bytes malloc child v 8 false in
     if negb started then CBB_add_u8 malloc child 0 else ret tt) ;;!
    CBB_flush malloc r))).
  { intros w. apply with_local_ext. intros child w1. apply bind_ext. intros _ w2.
    by rewrite bind_assoc. }
  apply element_does; [done|done|]. intros f outer.
  rewrite <- (uint64_bytes_der v 8) by (done || lia).
  apply (put_uint64_puts (f_ref f)); [|done].
  destruct (negb _); [apply (puts_u8 _ 0)|apply puts_ret].
Qed.

(** ** Signed integers *)

Lemma nth_le_bytes n : forall i v, (i < n)%nat -> nth i (le_bytes n v) 0 = (v / 256 ^ Z.of_nat i) mod 256.
Proof.
  induction n as [|n IH]; intros i v Hi; [lia|]. cbn [le_bytes]. destruct i as [|i]; cbn [nth].
  - rewrite Z.pow_0_r, Z.div_1_r. by rewrite (land_mask_mod v 8).
  - rewrite IH by lia. rewrite shiftr_div by lia. change (2 ^ 8) with 256. rewrite Z.div_div by lia.
    replace (Z.of_nat (S i)) with (1 + Z.of_nat i) by lia. by rewrite Z.pow_add_r by lia.
Qed.

(** The low bytes of a number do not depend on how far it is extended. *)
Lemma byte_u64 v i : (i < 8)%nat -> (u64 v / 256 ^ Z.of_nat i) mod 256 = (v / 256 ^ Z.of_nat i) mod 256.
Proof.
  intros Hi. unfold wrap. rewrite (Z.mod_eq v) by lia. 
  replace (2 ^ 64) with (256 ^ Z.of_nat (7 - i) * 256 * 256 ^ Z.of_nat i).
  2: { do 8 (destruct i as [|i]; [reflexivity|]). lia. }
  pose proof (Z.pow_pos_nonneg 256 (Z.of_nat i) ltac:(lia) ltac:(lia)). set (P := 256 ^ Z.of_nat i) in *.
  set (Q := 256 ^ Z.of_nat (7 - i)). set (d := v / _).
  replace (v - Q * 256 * P * d) with (v + (- (Q * d) * 256) * P) by lia.
  rewrite Z.div_add by lia. by rewrite Z.mod_add by lia.
Qed.

Lemma put_bytes_down_puts r v n : (n <= 8)%nat ->
  puts r (put_bytes_down malloc r (le_bytes 8 (u64 v)) n) (be_bytes n v).
Proof using Hmalloc.
  induction n as [|n IH]; intros Hn; [apply puts_ret|]. cbn [put_bytes_down].
  rewrite be_bytes_shape, nth_le_bytes, byte_u64 by lia.
  apply (puts_seq _ _ _ [_]); [|intros _; apply IH; lia].
  pose proof (Z.mod_pos_bound (v / 256 ^ Z.of_nat n) 256 ltac:(lia)).
  replace [(v / 256 ^ Z.of_nat n) mod 256] with [u8 ((v / 256 ^ Z.of_nat n) mod 256)]
    by (by rewrite wrap_small by (change (2 ^ 8) with 256; lia)).
  apply puts_u8.
Qed.

(** A byte is a mere sign extension when the number fits without it. *)
Lemma sign_byte v s : (s < 7)%nat -> v < 0 -> int_fits (S (S s)) v = true ->
  (nth (S s) (le_bytes 8 (u64 v)) 0 =? 0xff) &&
    negb (Z.land (nth s (le_bytes 8 (u64 v)) 0) 0x80 =? 0) = int_fits (S s) v.
Proof.
  intros Hs Hv Hf. rewrite !nth_le_bytes, !byte_u64 by lia.
  rewrite byte_high by (unfold is_byte; apply Z.mod_pos_bound; lia).
  apply int_fits_range in Hf. replace (Z.of_nat (S s)) with (Z.of_nat s + 1) in * by lia.
  rewrite Z.pow_add_r, Z.pow_1_r in * by lia.
  pose proof (Z.pow_pos_nonneg 256 (Z.of_nat s) ltac:(lia) ltac:(lia)).
  apply Bool.eq_iff_eq_true. rewrite int_fits_range, andb_true_iff, Z.eqb_eq, negb_true_iff, Z.ltb_ge.
  set (P := 256 ^ Z.of_nat s) in *. rewrite <- Z.div_div by lia.
  pose proof (Z.div_mod v P ltac:(lia)). pose proof (Z.mod_pos_bound v P ltac:(lia)).
  set (p := v / P) in *. assert (Hp : -32768 <= p < 0) by nia.
  pose proof (Z.div_mod p 256 ltac:(lia)). pose proof (Z.mod_pos_bound p 256 ltac:(lia)).
  set (q := p / 256) in *. assert (Hq : -128 <= q < 0) by lia.
  replace (q mod 256) with (q + 256) by (rewrite <- (Z.mod_add q 1) by lia; rewrite Z.mod_small; lia).
  split.
  - intros [Hq1 Hp1]. split; [|lia]. nia.
  - intros [Hlo _]. assert (-128 <= p) by nia. lia.
Qed.

Lemma sign_start_least v s : (s <= 7)%nat -> v < 0 -> int_fits (S s) v = true ->
  least_fit 9 1 v = S (sign_start (le_bytes 8 (u64 v)) s).
Proof.
  induction s as [|s IH]; intros Hs Hv Hf; cbn [sign_start].
  - by apply least_fit_one; [|lia|].
  - rewrite (sign_byte v s) by (done || lia). destruct (int_fits (S s) v) eqn:E.
    + apply IH; [lia|done|done].
    + by apply least_fit_one; [|lia|].
Qed.

Lemma asn1_int64_does r fs v : r ∈ refs fs -> - 2 ^ 63 <= v < 2 ^ 63 ->
  does 0 (CBB_add_asn1_int64 malloc r v) fs (spec_element r CBS_ASN1_INTEGER (der_int v) fs).
Proof using Hmalloc.
  intros Hr Hv. unfold CBB_add_asn1_int64.
  change (2 ^ 63) with 9223372036854775808 in Hv. destruct (Z.leb_spec 0 v).
  - apply asn1_uint64_does; [done|]. change (2 ^ 64) with 18446744073709551616. lia.
  - apply element_does; [done|done|]. intros f outer. unfold der_int.
    rewrite (sign_start_least v 7); [|lia|done|].
    + apply put_bytes_down_puts; [|done].
      assert (Hle : forall n, (sign_start (le_bytes 8 (u64 v)) n <= n)%nat); [|specialize (Hle 7%nat); lia].
      induction n as [|n IH]; [done|]. cbn [sign_start]. destruct (_ && _); lia.
    + apply int_fits_range. change (256 ^ Z.of_nat 7) with 72057594037927936. lia.
Qed.

(** ** Octet strings and booleans *)

Lemma asn1_octet_string_does r fs data : r ∈ refs fs -> bytes_ok data -> zlen data < 2 ^ 64 ->
  does 0 (CBB_add_asn1_octet_string malloc r data) fs (spec_element r CBS_ASN1_OCTETSTRING data fs).
Proof using Hmalloc.
  intros Hr Hd Hl. apply element_does; [done|done|]. intros f outer. rewrite <- spec_add_top.
  apply bytes_does; [done|apply list_elem_of_here|done|done].
Qed.

Lemma asn1_bool_does r fs value : r ∈ refs fs ->
  does 0 (CBB_add_asn1_bool malloc r value) fs
    (spec_element r CBS_ASN1_BOOLEAN [if negb (value =? 0) then 0xff else 0] fs).
Proof using Hmalloc.
  intros Hr. apply element_does; [done|done|]. intros f outer.
  destruct (negb (value =? 0)); [apply (u8_top_does malloc Hmalloc b fixed top f outer 0xff)|
    apply (u8_top_does malloc Hmalloc b fixed top f outer 0)].
Qed.

End elements.
