(* ===== verification/CbbOid.v ===== *)
(** * BoringSSL CBB: object identifiers from text

    The parser of dotted decimals, and what [CBB_add_asn1_oid_from_text] writes. *)
From S2P Require Import Prelude Decimal Cbs OsslMem Cbb CbsSpec CbbFrames CbbBuffer CbbFlush CbbOps CbbElements.

(** ** The parser of one component *)

Lemma get_u8_try l : tryb CBS_get_u8 l = match l with [] => Ret None [] | u :: r => Ret (Some u) r end.
Proof. unfold tryb. destruct l as [|u r]; [done|]. by rewrite get_u8_cons. Qed.

(** One round of the loop. *)
Lemma decimal_step k out seen l :
  decimal_loop (S k) out seen l =
  match l with
  | [] => if seen then Ret out [] else Fail []
  | u :: r =>
      if (u =? chr_dot) && (0 <? zlen r) then if seen then Ret out r else Fail r
      else if (u <? chr_0) || (chr_9 <? u) || (seen && (out =? 0))
              || (UINT64_MAX / 10 <? out) || (UINT64_MAX - (u - chr_0) <? u64 (out * 10))
      then Fail r
      else decimal_loop k (u64 (out * 10 + (u - chr_0))) true r
  end.
Proof.
  cbn [decimal_loop]. unfold bind at 1. rewrite get_u8_try. destruct l as [|u r].
  - cbn. by destruct seen.
  - unfold bind at 1. cbn [getm]. destruct (_ && _); [by destruct seen|]. by destruct (_ || _).
Qed.

(** The parser returns, with a 64-bit number, and consumes something. *)
Lemma decimal_returns k : forall out seen l, (length l < k)%nat -> 0 <= out < 2 ^ 64 ->
  match decimal_loop k out seen l with
  | Ret v rest => 0 <= v < 2 ^ 64 /\ (length rest <= length l)%nat /\
                  (seen = false -> (length rest < length l)%nat)
  | Fail _ => True
  | _ => False
  end.
Proof.
  induction k as [|k IH]; intros out seen l Hk Ho; [lia|]. rewrite decimal_step.
  destruct l as [|u r]; [by destruct seen|]. cbn [length] in *.
  destruct (_ && _); [destruct seen; [split; [done|split; [lia|done]]|done]|].
  destruct (_ || _); [done|].
  specialize (IH (u64 (out * 10 + (u - chr_0))) true r ltac:(lia) (wrap_range 64 _ ltac:(lia))).
  destruct (decimal_loop k _ true r) as [v rest|s| |]; try done. destruct IH as (? & ? & _).
  split; [done|]. split; lia.
Qed.

Lemma parse_decimal_returns l :
  match parse_dotted_decimal l with
  | Ret v rest => 0 <= v < 2 ^ 64 /\ (length rest < length l)%nat
  | Fail _ => True
  | _ => False
  end.
Proof.
  pose proof (decimal_returns (S (length l)) 0 false l ltac:(lia) ltac:(done)) as H.
  unfold parse_dotted_decimal. destruct (decimal_loop _ _ _ _); [|done..].
  destruct H as (? & _ & H). split; [done|]. by apply H.
Qed.

(** ** What is written *)

(** The bytes of the components, and whether all of them are valid. *)
Fixpoint oid_rest (fuel : nat) (l : list Z) : list Z * bool :=
  match fuel with
  | O => ([], true)
  | S k =>
      if 0 <? zlen l then
        match parse_dotted_decimal l with
        | Ret v rest => let r := oid_rest k rest in (base128 10 v 0 ++ r.1, r.2)
        | _ => ([], false)
        end
      else ([], true)
  end.

Definition oid_bytes (text : list Z) : list Z * bool :=
  match parse_dotted_decimal text with
  | Ret a t1 =>
      match parse_dotted_decimal t1 with
      | Ret b t2 =>
          if (2 <? a) || ((a <? 2) && (39 <? b)) || (UINT64_MAX - 80 <? b) then ([], false)
          else let r := oid_rest (S (length t2)) t2 in (base128 10 (40 * a + b) 0 ++ r.1, r.2)
      | _ => ([], false)
      end
  | _ => ([], false)
  end.

(** A refused text leaves the components before the bad one. *)
Definition oid_verdict (r : list Z * bool) (fs : list frame) : verdict :=
  if r.2 then Ok (append_top r.1 fs) else No (append_top r.1 fs).

Definition spec_oid (r : nat) (text : list Z) (fs : list frame) : verdict :=
  vbind (spec_flush r fs) (oid_verdict (oid_bytes text)).

Lemma oid_verdict_grows r fs : grows fs (oid_verdict r fs).
Proof.
  intros fs' H. apply (append_top_grows r.1). unfold oid_verdict in H. by destruct r.2.
Qed.

Section oid.
Context (malloc : nat -> Z -> option (list Z)) (Hmalloc : malloc_spec malloc).
Context (b : nat) (fixed : option Z) (top : nat).

Local Abbreviation does := (does malloc b fixed top).

Lemma fail_does {A} fs : does 0 (failm (A := A)) fs (No fs).
Proof. intros w Hw. left. by exists fs. Qed.

Lemma oid_rest_does k : forall f outer l, (length l < k)%nat ->
  does 0 (oid_components malloc k (f_ref f) l) (f :: outer) (oid_verdict (oid_rest k l) (f :: outer)).
Proof using Hmalloc.
  induction k as [|k IH]; intros f outer l Hk; [lia|]. cbn [oid_components oid_rest].
  destruct (0 <? zlen l).
  2: { unfold oid_verdict. cbn [fst snd append_top]. rewrite append_nil. apply does_ret. }
  pose proof (parse_decimal_returns l) as Hp. unfold parse.
  destruct (parse_dotted_decimal l) as [v rest|s| |]; try done.
  2: { unfold oid_verdict. cbn [fst snd append_top]. rewrite append_nil. apply fail_does. }
  destruct Hp as [Hv Hl]. eapply does_ext; [intros w; symmetry; apply bind_ret|]. cbn [fst snd].
  set (r := oid_rest k rest).
  replace (oid_verdict _ (f :: outer)) with
    (vbind (Ok (append (base128 10 v 0) f :: outer)) (oid_verdict r)).
  2: { unfold oid_verdict. cbn [vbind fst snd append_top]. by rewrite append_append. }
  apply does_bind; [lia|by apply base128_int_top_does| |].
  - intros fs1 [] [= <-]. apply (IH (append _ f)). lia.
  - intros fs1 _. apply oid_verdict_grows.
Qed.

Lemma oid_from_text_does r text fs : r ∈ refs fs ->
  does 0 (CBB_add_asn1_oid_from_text malloc r text) fs (spec_oid r text fs).
Proof using Hmalloc.
  intros Hr. unfold CBB_add_asn1_oid_from_text, spec_oid. apply does_flush; [done|lia|done|].
  intros f outer <- _ _. split; [|apply oid_verdict_grows].
  assert (Hno : forall A, does 0 (failm (A := A)) (f :: outer) (oid_verdict ([], false) (f :: outer))).
  { intros A. unfold oid_verdict. cbn [fst snd append_top]. rewrite append_nil. apply fail_does. }
  unfold oid_bytes, parse. pose proof (parse_decimal_returns text) as Ha.
  destruct (parse_dotted_decimal text) as [a t1|s| |]; try done.
  eapply does_ext; [intros w; symmetry; apply bind_ret|]. cbn [fst snd].
  pose proof (parse_decimal_returns t1) as Hb.
  destruct (parse_dotted_decimal t1) as [c t2|s| |]; try done.
  eapply does_ext; [intros w; symmetry; apply bind_ret|]. cbn [fst snd].
  destruct (_ || _) eqn:E; [apply Hno|].
  apply orb_false_iff in E as [[E1 E2]%orb_false_iff E3]. apply Z.ltb_ge in E1, E3.
  unfold UINT64_MAX in E3. change (2 ^ 64) with 18446744073709551616 in *.
  rewrite wrap_small by (change (2 ^ 64) with 18446744073709551616; lia).
  set (r := oid_rest _ t2).
  replace (oid_verdict _ (f :: outer)) with
    (vbind (Ok (append (base128 10 (40 * a + c) 0) f :: outer)) (oid_verdict r)).
  2: { unfold oid_verdict. cbn [vbind fst snd append_top]. by rewrite append_append. }
  apply does_bind; [lia|apply base128_int_top_does| |].
  - done.
  - change (2 ^ 64) with 18446744073709551616. lia.
  - intros fs1 [] [= <-]. apply (oid_rest_does _ (append _ f)). lia.
  - intros fs1 _. apply oid_verdict_grows.
Qed.

End oid.
