(* ===== verification/CbbSetOf.v ===== *)
(** * BoringSSL CBB: SET OF

    [CBB_flush_asn1_set_of] puts the elements of a frame in the order of X.690,
    section 11.6. *)
From S2P Require Import Prelude Cbs OsslMem Qsort Cbb CbsSpec CbbFrames CbbBuffer CbbFlush CbbOps.

(** ** The order *)

(** Lexicographic order on the encodings. *)
Fixpoint bytes_le (a b : list Z) : bool :=
  match a, b with
  | [], _ => true
  | _ :: _, [] => false
  | x :: a, y :: b => if x =? y then bytes_le a b else x <? y
  end.

Definition elem_le (a b : list Z) : Prop := bytes_le a b = true.
#[export] Instance elem_le_dec a b : Decision (elem_le a b).
Proof. unfold elem_le. apply _. Defined.

Definition set_order (els : list (list Z)) : list (list Z) := merge_sort elem_le els.

Lemma compare_spec a : forall b,
  compare_set_of_element a b =
  if bytes_le a b then (if bytes_le b a then 0 else -1) else 1.
Proof.
  unfold compare_set_of_element. induction a as [|x a IH]; intros [|y b].
  - done.
  - rewrite zlen_cons, zlen_nil. pose proof (zlen_nonneg b).
    bool_true (0 <? zlen b + 1). by bool_false (0 =? zlen b + 1).
  - rewrite zlen_cons, zlen_nil. pose proof (zlen_nonneg a).
    bool_false (zlen a + 1 <? 0). by bool_false (zlen a + 1 =? 0).
  - specialize (IH b). rewrite !zlen_cons. pose proof (zlen_nonneg a). pose proof (zlen_nonneg b).
    replace (zlen a + 1 <? zlen b + 1) with (zlen a <? zlen b)
      by (destruct (Z.ltb_spec (zlen a) (zlen b)); solve_bool).
    replace (zlen a + 1 =? zlen b + 1) with (zlen a =? zlen b)
      by (destruct (Z.eqb_spec (zlen a) (zlen b)); solve_bool).
    replace (Z.to_nat (if zlen a <? zlen b then zlen a + 1 else zlen b + 1)) with
      (S (Z.to_nat (if zlen a <? zlen b then zlen a else zlen b))) by (destruct (zlen a <? zlen b); lia).
    cbn [memcmp bytes_le]. rewrite (Z.eqb_sym y x). destruct (Z.eqb_spec x y) as [->|Hne]; [exact IH|].
    destruct (Z.ltb_spec x y); cbn; destruct (Z.ltb_spec y x); done || lia.
Qed.

Lemma bytes_le_refl a : bytes_le a a = true.
Proof. induction a as [|x a IH]; [done|]. cbn. by rewrite Z.eqb_refl. Qed.

Lemma bytes_le_total a : forall b, bytes_le a b = false -> bytes_le b a = true.
Proof.
  induction a as [|x a IH]; intros [|y b]; cbn; try done.
  rewrite (Z.eqb_sym y x). destruct (Z.eqb_spec x y); [apply IH|].
  intros ?%Z.ltb_ge. apply Z.ltb_lt. lia.
Qed.

Lemma bytes_le_antisym a : forall b, bytes_le a b = true -> bytes_le b a = true -> a = b.
Proof.
  induction a as [|x a IH]; intros [|y b]; cbn; try done.
  rewrite (Z.eqb_sym y x). destruct (Z.eqb_spec x y) as [->|].
  - intros H1 H2. f_equal. by apply IH.
  - intros ?%Z.ltb_lt ?%Z.ltb_lt. lia.
Qed.

Lemma bytes_le_trans a : forall b c, bytes_le a b = true -> bytes_le b c = true -> bytes_le a c = true.
Proof.
  induction a as [|x a IH]; intros [|y b] [|z c]; cbn; try done.
  destruct (Z.eqb_spec x y) as [->|]; destruct (Z.eqb_spec y z) as [->|]; try done.
  - apply IH.
  - rewrite (proj2 (Z.eqb_neq x z)) by done. done.
  - intros H1%Z.ltb_lt H2%Z.ltb_lt. destruct (Z.eqb_spec x z); [lia|]. apply Z.ltb_lt. lia.
Qed.

Lemma compare_le a b : compare_set_of_element a b <= 0 <-> elem_le a b.
Proof. rewrite compare_spec. unfold elem_le. destruct (bytes_le a b), (bytes_le b a); split; done || lia. Qed.

Lemma compare_ok els : comparison_ok compare_set_of_element els.
Proof.
  split.
  - intros x y _ _. rewrite !compare_spec.
    destruct (bytes_le x y) eqn:E1, (bytes_le y x) eqn:E2; try lia.
    apply bytes_le_total in E1. congruence.
  - intros x y z _ _ _. rewrite !compare_le. apply bytes_le_trans.
Qed.

#[export] Instance elem_le_trans : Transitive elem_le.
Proof. intros a c d. apply bytes_le_trans. Qed.
#[export] Instance elem_le_antisymm : AntiSymm (=) elem_le.
Proof. intros a c. apply bytes_le_antisym. Qed.
#[export] Instance elem_le_total : Total elem_le.
Proof. intros a c. destruct (bytes_le a c) eqn:E; [by left|right]. by apply bytes_le_total. Qed.

(** Whatever sort the C library uses, the result is the ordered set. *)
Lemma qsort_set_order qsort els :
  qsort_spec qsort -> qsort compare_set_of_element els = set_order els.
Proof.
  intros Hq. destruct (Hq _ _ (compare_ok els)) as [Hp Hs].
  apply (Sorted_unique elem_le).
  - eapply Sorted_weaken; [|exact Hs]. intros a c. apply compare_le.
  - apply Sorted_merge_sort, _.
  - rewrite Hp. symmetry. apply merge_sort_Permutation.
Qed.

(** ** The elements of a frame *)

Fixpoint elements_loop (fuel : nat) (data : list Z) : option (list (list Z)) :=
  match fuel with
  | O => None
  | S k =>
      match data with
      | [] => Some []
      | _ => match CBS_get_any_asn1_element data with
             | Ret el rest => cons (el_out el) <$> elements_loop k rest
             | _ => None
             end
      end
  end.
Definition elements (data : list Z) : option (list (list Z)) := elements_loop (S (length data)) data.

Lemma element_split data el rest : bytes_ok data -> zlen data < 2 ^ 63 ->
  CBS_get_any_asn1_element data = Ret el rest ->
  data = el_out el ++ rest /\ (length rest < length data)%nat /\ bytes_ok rest /\ bytes_ok (el_out el).
Proof.
  intros Hok Hl H. apply element_sound in H as (tag & body & _ & _ & -> & ->); [|done|done].
  cbn [el_out]. apply Forall_app in Hok as [? ?]. split; [done|]. split; [|done].
  rewrite length_app. unfold der_element, der_header. rewrite !length_app.
  pose proof (zlen_der_tag tag) as Ht. unfold zlen in Ht. lia.
Qed.

Lemma count_elements_run k : forall data w, (length data < k)%nat -> bytes_ok data -> zlen data < 2 ^ 63 ->
  count_elements k data w =
  match elements_loop k data with Some els => Ret (zlen els) w | None => Fail w end.
Proof.
  induction k as [|k IH]; intros data w Hk Hok Hl; [lia|]. cbn [count_elements elements_loop].
  destruct data as [|d data]; [done|]. rewrite zlen_cons in *. pose proof (zlen_nonneg data).
  bool_false (zlen data + 1 =? 0). cbn [negb]. unfold parse.
  pose proof (element_returns false (d :: data)) as Hr. fold CBS_get_any_asn1_element in Hr.
  destruct (CBS_get_any_asn1_element (d :: data)) as [el rest|s| |] eqn:E; try done.
  rewrite bind_ret. cbn [fst snd].
  apply element_split in E as (_ & Hlen & Hok' & _); [|done|by rewrite zlen_cons].
  cbn [length] in *. unfold bind. rewrite IH; [|lia|done|unfold zlen in *; lia].
  destruct (elements_loop k rest); [|done]. cbn. unfold ret. by rewrite zlen_cons.
Qed.

Lemma take_elements_run k : forall data els w, elements_loop k data = Some els ->
  take_elements (length els) data w = Ret els w.
Proof.
  induction k as [|k IH]; intros data els w; [done|]. cbn [elements_loop].
  destruct data as [|d data]; [by intros [= <-]|].
  destruct (CBS_get_any_asn1_element (d :: data)) as [el rest| | |] eqn:E; try done.
  intros (l & Hl & ->)%fmap_Some. cbn [length take_elements]. unfold parse. rewrite E, bind_ret.
  by rewrite (bind_Ret _ _ _ _ _ (IH _ _ w Hl)).
Qed.

Lemma elements_concat k : forall data els, bytes_ok data -> zlen data < 2 ^ 63 ->
  elements_loop k data = Some els ->
  data = concat els /\ Forall bytes_ok els /\ zlen els <= zlen data.
Proof.
  induction k as [|k IH]; intros data els Hok Hl; [done|]. cbn [elements_loop].
  destruct data as [|d data']; [by intros [= <-]|]. set (data := d :: data') in *.
  destruct (CBS_get_any_asn1_element data) as [el rest| | |] eqn:E; try done.
  apply element_split in E as (Hd & Hlen & Hok' & Hel); [|done|done].
  intros (l & Hl' & ->)%fmap_Some. apply IH in Hl' as (-> & Hf & Hz); [|done|unfold zlen in *; lia].
  split; [done|]. split; [by constructor|]. rewrite zlen_cons. unfold zlen in *. lia.
Qed.

Section set_of.
Context (malloc : nat -> Z -> option (list Z)) (Hmalloc : malloc_spec malloc).
Context (qsort : (CBS -> CBS -> Z) -> list CBS -> list CBS) (Hqsort : qsort_spec qsort).
Context (b : nat) (fixed : option Z) (top : nat).

Local Abbreviation rep := (rep b fixed top).
Local Abbreviation poisoned := (poisoned b fixed top).
Local Abbreviation does := (does malloc b fixed top).

(** [f] with other contents. *)
Definition with_data (data : list Z) (f : frame) : frame :=
  Frame (f_ref f) (f_width f) (f_asn1 f) data.

(** Reading the contents of the innermost frame. *)
Lemma contents_run w f outer : rep w (f :: outer) ->
  CBB_data (f_ref f) w = Ret (zlen (flat outer) + f_width f) w /\
  CBB_len (f_ref f) w = Ret (zlen (f_data f)) w /\
  get_bytes (Some b) (zlen (flat outer) + f_width f) (zlen (f_data f)) w = Ret (f_data f) w.
Proof.
  intros Hw. pose proof (rep_head _ _ _ _ _ _ Hw) as Hf.
  pose proof Hw as (_ & Hok & _ & _ & x & Hb & Hx). apply frames_ok_cons in Hok as [Hwd _].
  pose proof Hx as (_ & _ & junk & Eb & El). rewrite zlen_flat in El by lia.
  pose proof (zlen_nonneg (f_data f)). unfold CBB_data, CBB_len.
  rewrite !(bind_Ret _ _ _ _ _ (get_cbb_run _ _ _ Hf)). cbn [c_child c_base c_offset c_pending_len_len].
  rewrite !(bind_Ret _ _ _ _ _ (get_base_run _ _ _ Hb)). cbn [snd]. split; [done|]. split.
  - rewrite El. bool_false (zlen (flat outer) + f_width f + zlen (f_data f) <? zlen (flat outer) + f_width f).
    unfold ret. f_equal. lia.
  - rewrite flat_cons, <- !app_assoc in Eb.
    apply (get_bytes_run w b x (flat outer ++ replicate (Z.to_nat (f_width f)) 0) _ junk _ _ Hb);
      [by rewrite Eb, <- app_assoc|rewrite zlen_app, zlen_replicate by lia; done|done].
Qed.

Lemma rewind_run w f outer : rep w (f :: outer) ->
  exists w', upd_base (Some b) (set_len (zlen (flat outer) + f_width f)) w = Ret tt w' /\
    rep w' (with_data [] f :: outer).
Proof.
  intros (Ho & Hok & Hnd & Hl & x & Hb & Hx). rewrite (upd_base_run w b x _ Hb).
  eexists. split; [done|]. pose proof (frames_ok_cons _ _ Hok) as [Hwd _].
  destruct Hok as [[_ Hwf] Hrest].
  split; [done|]. split; [split; [split; [constructor|done]|done]|]. split; [done|]. split; [done|].
  exists (set_len (zlen (flat outer) + f_width f) x). split; [apply lookup_insert_eq|].
  destruct Hx as ((Hc & Hlen & H64 & Hres & Hfix) & He & junk & Eb & El).
  rewrite zlen_flat in El by lia. pose proof (zlen_nonneg (f_data f)). pose proof (zlen_nonneg (flat outer)).
  split; [repeat split; cbn -[flat]; (done || lia)|]. split; [done|]. exists (f_data f ++ junk).
  rewrite zlen_flat by (cbn; lia). cbn [f_width f_data with_data set_len b_len b_buf].
  change (zlen (@nil Z)) with 0. rewrite flat_cons, <- !app_assoc in Eb. split; [|lia].
  rewrite Eb, flat_cons. cbn [f_width f_data]. by rewrite app_nil_r, <- app_assoc.
Qed.

Lemma add_elements_does els : forall f outer,
  Forall bytes_ok els -> Forall (fun c => zlen c < 2 ^ 63) els ->
  does 0 (add_elements malloc (f_ref f) els) (f :: outer) (Ok (append (concat els) f :: outer)).
Proof using Hmalloc.
  induction els as [|c els IH]; intros f outer Hok Hl; cbn [add_elements concat].
  - rewrite append_nil. apply does_ret.
  - inversion_clear Hok as [|? ? Hc Hok']. inversion_clear Hl as [|? ? Hlc Hl'].
    rewrite <- append_append.
    apply (does_bind _ _ _ _ _ _ _ (Ok (append c f :: outer)) (fun fs => Ok (append_top (concat els) fs)));
      [lia| | |].
    + rewrite <- spec_add_top. apply bytes_does; [done|apply list_elem_of_here|done|].
      change (2 ^ 63) with 9223372036854775808 in Hlc. change (2 ^ 64) with 18446744073709551616. lia.
    + intros fs1 [] [= <-]. by apply (IH (append c f)).
    + intros fs1 _. apply append_top_grows.
Qed.

(** Writing the sorted elements over the contents. *)
Lemma rewrite_run w f outer els :
  rep w (f :: outer) -> elements (f_data f) = Some els -> zlen (f_data f) < 2 ^ 63 ->
  match (upd_base (Some b) (set_len (zlen (flat outer) + f_width f)) ;;!
         add_elements malloc (f_ref f) (qsort compare_set_of_element els) ;;!
         let! len := CBB_len (f_ref f) in
         if len =? zlen (f_data f) then ret tt else ubm) w with
  | Ret _ w' => rep w' (with_data (concat (set_order els)) f :: outer)
  | Fail w' => poisoned w' /\ ~ room malloc fixed (zlen (flat (f :: outer)))
  | _ => False
  end.
Proof using Hmalloc Hqsort.
  intros Hw Hels Hl. pose proof Hw as (_ & Hok & _). apply frames_ok_cons in Hok as [Hwd Hd].
  destruct (elements_concat _ _ _ Hd Hl Hels) as (Econ & Hok & _).
  rewrite (qsort_set_order qsort els Hqsort).
  assert (Hp : set_order els ≡ₚ els) by apply merge_sort_Permutation.
  destruct (rewind_run w f outer Hw) as (w1 & E1 & Hw1). rewrite (bind_Ret _ _ _ _ _ E1).
  assert (Hlen : zlen (concat (set_order els)) = zlen (f_data f)).
  { rewrite Econ. unfold zlen. by rewrite Hp. }
  assert (Hall : Forall bytes_ok (set_order els) /\ Forall (fun c => zlen c < 2 ^ 63) (set_order els)).
  { rewrite !Hp. split; [done|]. apply Forall_forall. intros c Hc.
    apply list_elem_of_split in Hc as (l1 & l2 & ->). rewrite Econ, concat_app in Hl. cbn [concat] in Hl.
    rewrite !zlen_app in Hl. pose proof (zlen_nonneg (concat l1)). pose proof (zlen_nonneg (concat l2)). lia. }
  destruct Hall as [Hall1 Hall2].
  pose proof (add_elements_does (set_order els) (with_data [] f) outer Hall1 Hall2 w1 Hw1) as Hadd.
  change (f_ref (with_data [] f)) with (f_ref f) in Hadd.
  unfold bind at 1. destruct (add_elements malloc (f_ref f) (set_order els) w1) as [u w2|w2| |]; try done.
  - destruct Hadd as (fs' & [= <-] & Hw2). destruct (contents_run w2 _ _ Hw2) as (_ & E2 & _).
    change (f_ref (append (concat (set_order els)) (with_data [] f))) with (f_ref f) in E2.
    rewrite (bind_Ret _ _ _ _ _ E2).
    cbn [f_data append with_data app]. rewrite Hlen, Z.eqb_refl. exact Hw2.
  - destruct Hadd as [(fs' & ? & _)|[Hpo Hr]]; [done|]. split; [done|].
    specialize (Hr _ eq_refl). rewrite Z.add_0_r in Hr. intros Hroom. apply Hr.
    rewrite zlen_flat_append, zlen_flat, Hlen by (cbn; lia). cbn [f_width f_data with_data].
    rewrite zlen_flat in Hroom by lia. change (zlen (@nil Z)) with 0.
    by replace (zlen (flat outer) + f_width f + 0 + zlen (f_data f)) with
      (zlen (flat outer) + f_width f + zlen (f_data f)) by lia.
Qed.

Lemma set_order_short els : zlen els < 2 -> set_order els = els.
Proof.
  intros Hl. apply (Sorted_unique elem_le).
  - apply Sorted_merge_sort, _.
  - destruct els as [|c [|d els]]; [constructor|by repeat constructor|].
    rewrite !zlen_cons in Hl. pose proof (zlen_nonneg els). lia.
  - apply merge_sort_Permutation.
Qed.

Lemma alloc_total n : malloc_total malloc -> 0 <= n < 2 ^ 62 -> forall i, is_Some (OPENSSL_malloc malloc i n).
Proof.
  intros Ht Hn i. destruct (realloc_total malloc i [] n Ht Hn) as [x Hx].
  unfold OPENSSL_realloc in Hx. destruct (OPENSSL_malloc malloc i n); [by eexists|done].
Qed.

Definition set_of_outcome (r : nat) (fs : list frame) (res : out world unit) : Prop :=
  match res with
  | Ret _ w' => exists f outer els, spec_flush r fs = Ok (f :: outer) /\ elements (f_data f) = Some els /\
      f_data f = concat els /\ rep w' (with_data (concat (set_order els)) f :: outer)
  | Fail w' =>
      (exists f outer, spec_flush r fs = Ok (f :: outer) /\ rep w' (f :: outer) /\
         (elements (f_data f) = None \/ ~ (malloc_total malloc /\ zlen (f_data f) < 2 ^ 58))) \/
      (poisoned w' /\ forall fs1, spec_flush r fs = Ok fs1 -> ~ room malloc fixed (zlen (flat fs1)))
  | _ => False
  end.

(** The part after the elements have been counted. *)
Lemma sort_run w f outer els :
  rep w (f :: outer) -> elements (f_data f) = Some els -> zlen (f_data f) < 2 ^ 63 -> 2 <= zlen els ->
  let res := (let! copy := memdup malloc (f_data f) in
     let! array := alloc malloc (zlen els * sizeof_CBS) in
     match copy, array with
     | Some copy, Some _ =>
         let! children := take_elements (Z.to_nat (zlen els)) copy in
         upd_base (Some b) (set_len (zlen (flat outer) + f_width f)) ;;!
         add_elements malloc (f_ref f) (qsort compare_set_of_element children) ;;!
         let! len := CBB_len (f_ref f) in
         if len =? zlen (f_data f) then ret tt else ubm
     | _, _ => failm
     end) w in
  match res with
  | Ret _ w' => rep w' (with_data (concat (set_order els)) f :: outer)
  | Fail w' => (rep w' (f :: outer) /\ ~ (malloc_total malloc /\ zlen (f_data f) < 2 ^ 58)) \/
               (poisoned w' /\ ~ room malloc fixed (zlen (flat (f :: outer))))
  | _ => False
  end.
Proof using Hmalloc Hqsort.
  intros Hw Hels Hl H2. cbn zeta. pose proof Hw as (_ & Hok & _). apply frames_ok_cons in Hok as [_ Hd].
  destruct (elements_concat _ _ _ Hd Hl Hels) as (_ & _ & Hle).
  unfold bind at 1 2, memdup, alloc. cbn [w_cbbs w_bases w_allocs].
  set (w1 := World _ _ _). assert (Hw1 : rep w1 (f :: outer)) by exact Hw.
  assert (Hno : forall i (o : option (list Z)), o = None ->
    o = OPENSSL_memdup malloc i (f_data f) \/ o = OPENSSL_malloc malloc i (zlen els * sizeof_CBS) ->
    ~ (malloc_total malloc /\ zlen (f_data f) < 2 ^ 58)).
  { intros i o -> Ho [Ht Hs]. change (2 ^ 58) with 288230376151711744 in Hs. unfold sizeof_CBS in Ho.
    destruct Ho as [Ho|Ho].
    - unfold OPENSSL_memdup in Ho. replace (zlen (f_data f) =? 0) with false in Ho by (symmetry; apply Z.eqb_neq; lia).
      destruct (alloc_total (zlen (f_data f)) Ht ltac:(change (2 ^ 62) with 4611686018427387904; lia) i) as [y Hy].
      by rewrite Hy in Ho.
    - destruct (alloc_total (zlen els * 16) Ht ltac:(change (2 ^ 62) with 4611686018427387904; lia) i) as [y Hy].
      by rewrite Hy in Ho. }
  destruct (OPENSSL_memdup malloc _ (f_data f)) as [copy|] eqn:Em;
    [destruct (OPENSSL_malloc malloc _ (zlen els * sizeof_CBS)) as [array|] eqn:Ea|].
  - assert (copy = f_data f) as ->.
    { unfold OPENSSL_memdup in Em. destruct (_ =? 0); [done|]. by apply fmap_Some in Em as (? & _ & ->). }
    unfold zlen at 1. rewrite Nat2Z.id, (bind_Ret _ _ _ _ _ (take_elements_run _ _ _ w1 Hels)).
    pose proof (rewrite_run w1 f outer els Hw1 Hels Hl) as Hrun.
    destruct (bind _ _ w1) as [u w2|w2| |]; try done. by right.
  - left. split; [exact Hw|]. by eapply Hno; [|right; symmetry].
  - left. split; [exact Hw|]. by eapply Hno; [|left; symmetry].
Qed.

Lemma set_of_run w r fs :
  rep w fs -> r ∈ refs fs -> (forall fs1, spec_flush r fs = Ok fs1 -> zlen (flat fs1) < 2 ^ 60) ->
  set_of_outcome r fs (CBB_flush_asn1_set_of malloc qsort r w).
Proof using Hmalloc Hqsort.
  intros Hw Hr Hsize. unfold CBB_flush_asn1_set_of, set_of_outcome.
  pose proof (flush_does malloc Hmalloc b fixed top r fs Hr w Hw) as Hfl.
  unfold bind at 1. destruct (CBB_flush malloc r w) as [u w1|w1| |]; try done.
  2: { destruct Hfl as [(fs1 & E & _)|[Hp Hno]]; [by apply spec_flush_not_No in E|]. right. split; [done|].
       intros fs1 E. specialize (Hno fs1 ltac:(by rewrite E)). by rewrite Z.add_0_r in Hno. }
  destruct Hfl as (fs1 & E & Hw1). specialize (Hsize fs1 E).
  destruct (flush_frames _ _ _ E) as (f & outer & -> & <-).
  destruct (contents_run w1 f outer Hw1) as (E1 & E2 & E3).
  rewrite (bind_Ret _ _ _ _ _ (get_cbb_run _ _ _ (rep_head _ _ _ _ _ _ Hw1))). cbn [c_base c_offset c_pending_len_len].
  rewrite (bind_Ret _ _ _ _ _ E1), (bind_Ret _ _ _ _ _ E2), (bind_Ret _ _ _ _ _ E3).
  pose proof Hw1 as (_ & Hok & _). apply frames_ok_cons in Hok as [Hwd Hd].
  rewrite zlen_flat in Hsize by lia. pose proof (zlen_nonneg (flat outer)).
  change (2 ^ 60) with 1152921504606846976 in Hsize.
  assert (Hl63 : zlen (f_data f) < 2 ^ 63) by (change (2 ^ 63) with 9223372036854775808; lia).
  pose proof (count_elements_run (S (length (f_data f))) (f_data f) w1 ltac:(lia) Hd Hl63) as Esp.
  fold (elements (f_data f)) in Esp.
  destruct (elements (f_data f)) as [els|] eqn:Eel.
  2: { rewrite (bind_Fail _ _ _ _ Esp). left. exists f, outer. split; [done|]. split; [done|by left]. }
  rewrite (bind_Ret _ _ _ _ _ Esp).
  destruct (elements_concat _ _ _ Hd Hl63 Eel) as (Econ & _ & Hle).
  cbn zeta.
  destruct (Z.ltb_spec (zlen els) 2) as [Hs|Hbig].
  { exists f, outer, els. do 3 (split; [done|]). rewrite set_order_short, <- Econ by done.
    by destruct f. }
  replace (UINT64_MAX / sizeof_CBS <? zlen els) with false
    by (symmetry; apply Z.ltb_ge; change (UINT64_MAX / sizeof_CBS) with 1152921504606846975; lia).
  pose proof (sort_run w1 f outer els Hw1 Eel Hl63 Hbig) as Hsort. cbn zeta in Hsort. cbn zeta iota.
  destruct (bind _ _ w1) as [v w2|w2| |]; try done.
  - by exists f, outer, els.
  - destruct Hsort as [[Hw2 Hno]|[Hp Hno]].
    + left. exists f, outer. split; [done|]. split; [done|by right].
    + right. split; [done|]. rewrite E. by intros fs1 [= <-].
Qed.

End set_of.
