(* ===== verification/CbbSpec.v ===== *)
(** * BoringSSL CBB: theorems

    A builder, from its initialisation through any calls to the bytes it hands out,
    against the abstract builder of [CbbFrames]. *)
From S2P Require Import Prelude Cbs OsslMem Qsort Cbb CbsSpec DerInt CbbFrames.
From S2P Require Import CbbBuffer CbbFlush CbbOps CbbElements CbbOid CbbSetOf.

(** ** Calls *)

(** The calls of a client between the initialisation of a builder and its end.  A
    client that asks for space is also given the bytes it writes there. *)
Inductive call : Type :=
| AddU8 (r : nat) (v : Z) | AddU16 (r : nat) (v : Z) | AddU16le (r : nat) (v : Z)
| AddU24 (r : nat) (v : Z) | AddU32 (r : nat) (v : Z) | AddU32le (r : nat) (v : Z)
| AddU64 (r : nat) (v : Z) | AddU64le (r : nat) (v : Z)
| AddBytes (r : nat) (data : list Z) | AddZeros (r : nat) (n : Z)
| FillSpace (r : nat) (data : list Z) | FillReserved (r : nat) (n : Z) (data : list Z)
| AddU8Prefixed (r out : nat) | AddU16Prefixed (r out : nat) | AddU24Prefixed (r out : nat)
| AddAsn1 (r out : nat) (tag : Z)
| Flush (r : nat) | Discard (r : nat)
| AddUint64 (r : nat) (v : Z) | AddInt64 (r : nat) (v : Z)
| AddOctets (r : nat) (data : list Z) | AddBool (r : nat) (v : Z)
| AddOid (r : nat) (text : list Z).

Definition exec (malloc : nat -> Z -> option (list Z)) (c : call) : M world unit :=
  match c with
  | AddU8 r v => CBB_add_u8 malloc r v
  | AddU16 r v => CBB_add_u16 malloc r v
  | AddU16le r v => CBB_add_u16le malloc r v
  | AddU24 r v => CBB_add_u24 malloc r v
  | AddU32 r v => CBB_add_u32 malloc r v
  | AddU32le r v => CBB_add_u32le malloc r v
  | AddU64 r v => CBB_add_u64 malloc r v
  | AddU64le r v => CBB_add_u64le malloc r v
  | AddBytes r data => CBB_add_bytes malloc r data
  | AddZeros r n => CBB_add_zeros malloc r n
  | FillSpace r data => CBB_fill_space malloc r data
  | FillReserved r n data => CBB_fill_reserved malloc r n data
  | AddU8Prefixed r out => CBB_add_u8_length_prefixed malloc r out
  | AddU16Prefixed r out => CBB_add_u16_length_prefixed malloc r out
  | AddU24Prefixed r out => CBB_add_u24_length_prefixed malloc r out
  | AddAsn1 r out tag => CBB_add_asn1 malloc r out tag
  | Flush r => CBB_flush malloc r
  | Discard r => CBB_discard_child r
  | AddUint64 r v => CBB_add_asn1_uint64 malloc r v
  | AddInt64 r v => CBB_add_asn1_int64 malloc r v
  | AddOctets r data => CBB_add_asn1_octet_string malloc r data
  | AddBool r v => CBB_add_asn1_bool malloc r v
  | AddOid r text => CBB_add_asn1_oid_from_text malloc r text
  end.

(** What the abstract builder does. *)
Definition spec (c : call) : list frame -> verdict :=
  match c with
  | AddU8 r v => spec_add r [u8 v]
  | AddU16 r v => spec_add r (be_bytes 2 (u16 v))
  | AddU16le r v => spec_add r (le_bytes 2 (u16 v))
  | AddU24 r v => spec_add_u r (u32 v) 3
  | AddU32 r v => spec_add r (be_bytes 4 (u32 v))
  | AddU32le r v => spec_add r (le_bytes 4 (u32 v))
  | AddU64 r v => spec_add r (be_bytes 8 (u64 v))
  | AddU64le r v => spec_add r (le_bytes 8 (u64 v))
  | AddBytes r data | FillSpace r data | FillReserved r _ data => spec_add r data
  | AddZeros r n => spec_add r (replicate (Z.to_nat n) 0)
  | AddU8Prefixed r out => spec_prefixed r out 1
  | AddU16Prefixed r out => spec_prefixed r out 2
  | AddU24Prefixed r out => spec_prefixed r out 3
  | AddAsn1 r out tag => spec_asn1 r out tag
  | Flush r => spec_flush r
  | Discard r => spec_discard r
  | AddUint64 r v | AddInt64 r v => spec_element r CBS_ASN1_INTEGER (der_int v)
  | AddOctets r data => spec_element r CBS_ASN1_OCTETSTRING data
  | AddBool r v => spec_element r CBS_ASN1_BOOLEAN [if negb (v =? 0) then 0xff else 0]
  | AddOid r text => spec_oid r text
  end.

Definition target_ref (c : call) : nat :=
  match c with
  | AddU8 r _ | AddU16 r _ | AddU16le r _ | AddU24 r _ | AddU32 r _ | AddU32le r _
  | AddU64 r _ | AddU64le r _ | AddBytes r _ | AddZeros r _ | FillSpace r _ | FillReserved r _ _
  | AddU8Prefixed r _ | AddU16Prefixed r _ | AddU24Prefixed r _ | AddAsn1 r _ _ | Flush r
  | Discard r | AddUint64 r _ | AddInt64 r _ | AddOctets r _ | AddBool r _ | AddOid r _ => r
  end.

(** The arguments have their C types, and a new child is not one of the CBBs that
    stay open. *)
Definition args_ok (c : call) (fs : list frame) : Prop :=
  match c with
  | AddBytes _ data | FillSpace _ data | AddOctets _ data => bytes_ok data /\ zlen data < 2 ^ 64
  | FillReserved _ n data => bytes_ok data /\ zlen data <= n < 2 ^ 64
  | AddZeros _ n => 0 <= n < 2 ^ 64
  | AddU8Prefixed r out | AddU16Prefixed r out | AddU24Prefixed r out => out ∉ enclosing r fs
  | AddAsn1 r out tag => (out ∉ enclosing r fs) /\ 0 <= tag < 2 ^ 32
  | AddUint64 _ v => 0 <= v < 2 ^ 64
  | AddInt64 _ v => - 2 ^ 63 <= v < 2 ^ 63
  | _ => True
  end.

(** A call on an open CBB. *)
Definition allowed (c : call) (fs : list frame) : Prop := (target_ref c ∈ refs fs) /\ args_ok c fs.

#[export] Instance allowed_dec c fs : Decision (allowed c fs).
Proof. unfold allowed, args_ok, bytes_ok, is_byte. destruct c; apply _. Defined.

(** What a call needs beyond the bytes it leaves. *)
Definition slack (c : call) : Z := match c with FillReserved _ n data => n - zlen data | _ => 0 end.

(** ** Every call does what the specification says *)

Lemma le_bytes_ok n : forall v, bytes_ok (le_bytes n v).
Proof.
  induction n as [|n IH]; intros v; cbn [le_bytes]; constructor; [|apply IH].
  rewrite (land_mask_mod v 8) by done. apply Z.mod_pos_bound. done.
Qed.

(** Swapping the bytes and writing them from the other end. *)
Lemma bswap_value n v : bswap n v = be_value 0 (le_bytes n v).
Proof. apply le_value_rev, le_bytes_ok. Qed.

Lemma bswap_range n v : 0 <= bswap n v < 2 ^ (8 * Z.of_nat n).
Proof.
  rewrite bswap_value. pose proof (be_value_range (le_bytes n v) 0 0 (le_bytes_ok n v) ltac:(done)) as H.
  rewrite le_bytes_length in H. exact H.
Qed.

Lemma be_bytes_bswap n v : be_bytes n (bswap n v) = le_bytes n v.
Proof. rewrite bswap_value, <- (le_bytes_length n v) at 1. apply be_bytes_value, le_bytes_ok. Qed.

Section exec.
Context (malloc : nat -> Z -> option (list Z)) (Hmalloc : malloc_spec malloc).
Context (b : nat) (fixed : option Z) (top : nat).

Local Abbreviation does := (does malloc b fixed top).

(** A number that fills its [n] bytes. *)
Lemma word_does r fs n v : r ∈ refs fs -> (1 <= n <= 8)%nat ->
  let u := wrap (8 * Z.of_nat n) v in
  does 0 (cbb_add_u malloc r u (Z.of_nat n)) fs (spec_add r (be_bytes n u) fs).
Proof using Hmalloc.
  intros Hr Hn u. pose proof (wrap_range (8 * Z.of_nat n) v ltac:(lia)) as Hu. fold u in Hu.
  rewrite <- (Nat2Z.id n) at 2. rewrite <- spec_add_u_fits by (rewrite <- pow256; lia).
  apply add_u_does; [done|done|lia|lia].
Qed.

Lemma word_le_does r fs n v : r ∈ refs fs -> (1 <= n <= 8)%nat ->
  does 0 (cbb_add_u malloc r (wrap (8 * Z.of_nat n) (bswap n v)) (Z.of_nat n)) fs
    (spec_add r (le_bytes n v) fs).
Proof using Hmalloc.
  intros Hr Hn. rewrite <- be_bytes_bswap. pose proof (bswap_range n v).
  rewrite <- (wrap_small (8 * Z.of_nat n) (bswap n v)) at 2 by done. by apply word_does.
Qed.

Lemma exec_does c fs : allowed c fs -> does (slack c) (exec malloc c) fs (spec c fs).
Proof using Hmalloc.
  intros [Hr Ha]. destruct c; cbn [exec spec slack target_ref args_ok] in *.
  - by apply u8_does.
  - apply (word_does r fs 2); [done|lia].
  - apply (word_le_does r fs 2); [done|lia].
  - apply add_u_does; [done|done|by apply wrap_range|lia].
  - apply (word_does r fs 4); [done|lia].
  - apply (word_le_does r fs 4); [done|lia].
  - apply (word_does r fs 8); [done|lia].
  - apply (word_le_does r fs 8); [done|lia].
  - destruct Ha. by apply bytes_does.
  - by apply zeros_does.
  - destruct Ha. by apply space_does.
  - destruct Ha. by apply reserved_does.
  - apply prefixed_does; [done|done|done|lia].
  - apply prefixed_does; [done|done|done|lia].
  - apply prefixed_does; [done|done|done|lia].
  - destruct Ha. by apply asn1_does.
  - by apply flush_does.
  - by apply discard_does.
  - by apply asn1_uint64_does.
  - by apply asn1_int64_does.
  - destruct Ha. by apply asn1_octet_string_does.
  - by apply asn1_bool_does.
  - by apply oid_from_text_does.
Qed.

(** ** The end of a builder *)

(** After a failure the client can still clean up. *)
Definition cleaned (w : world) (r : nat) (gone : nat) : Prop :=
  exists w', CBB_cleanup r w = Ret tt w' /\ w_bases w' !! gone = None.

Lemma cleanup_run w x : owned b top (w_cbbs w) -> w_bases w !! b = Some x -> cleaned w top b.
Proof.
  intros (c & Hc & Hchild & Hbase) Hx.
  unfold cleaned, CBB_cleanup. rewrite (bind_Ret _ _ _ _ _ (get_cbb_run _ _ _ Hc)), Hchild, Hbase.
  rewrite bind_assoc, (bind_Ret _ _ _ _ _ (get_base_run _ _ _ Hx)). cbn [fst].
  rewrite (bind_Ret (del_base b) _ w tt (World (w_cbbs w) (delete b (w_bases w)) (w_allocs w)) eq_refl).
  rewrite (upd_cbb_run _ top c); [|done]. eexists. split; [done|]. apply lookup_delete_eq.
Qed.

(** The frame of a builder that has just been initialised. *)
Definition top_frame : frame := Frame top 0 false [].

(** Only the outermost frame is left once its CBB has been flushed. *)
Lemma only_top w f outer : rep b fixed top w (f :: outer) -> f_ref f = top -> outer = [] /\ f_width f = 0.
Proof.
  intros Hw <-. pose proof (rep_head _ _ _ _ _ _ Hw) as Hf.
  destruct Hw as ((c & Hc & Hchild & _) & Hok & _). rewrite Hf in Hc. injection Hc as <-.
  destruct outer; [|done]. split; [done|]. by destruct Hok as [[_ [? _]] _].
Qed.

Lemma finish_run w fs : rep b fixed top w fs ->
  match CBB_finish malloc top true true w with
  | Ret (block, len) w' => exists f, spec_flush top fs = Ok [f] /\ ztake len block = f_data f /\
      len = zlen (f_data f) /\ w_bases w' !! b = None
  | Fail w' => cleaned w' top b /\ forall fs', spec_flush top fs = Ok fs' -> ~ room malloc fixed (zlen (flat fs'))
  | _ => False
  end.
Proof using Hmalloc.
  intros Hw. unfold CBB_finish. pose proof Hw as ((c & Hc & Hchild & Hbase) & _ & _ & Hl & _).
  rewrite (bind_Ret _ _ _ _ _ (get_cbb_run _ _ _ Hc)), Hchild.
  assert (Hin : top ∈ refs fs).
  { apply (linked_top b top fs _ _ Hl). intros ->. by destruct Hw as (_ & ? & _). }
  pose proof (flush_does malloc Hmalloc b fixed top top fs Hin w Hw) as Hfl. unfold bind at 1.
  destruct (CBB_flush malloc top w) as [u w1|w1| |]; try done.
  2: { destruct Hfl as [(fs1 & E & _)|[(Ho & x & Hx & _) Hno]]; [by apply spec_flush_not_No in E|].
       split; [by eapply cleanup_run|]. intros fs' E. specialize (Hno fs' ltac:(by rewrite E)).
       by rewrite Z.add_0_r in Hno. }
  destruct Hfl as (fs1 & E & Hw1). destruct (flush_frames _ _ _ E) as (f & outer & -> & Hf).
  destruct (only_top _ _ _ Hw1 Hf) as [-> Hwd]. pose proof (rep_head _ _ _ _ _ _ Hw1) as Hc1.
  rewrite Hf in Hc1. pose proof Hw1 as (_ & _ & _ & _ & x & Hb & (Hx & He & junk & Eb & El)).
  rewrite (bind_Ret _ _ _ _ _ (get_cbb_run _ _ _ Hc1)). cbn [c_base].
  rewrite (bind_Ret _ _ _ _ _ (get_base_run _ _ _ Hb)). cbn [snd]. cbn [negb orb]. rewrite andb_false_r.
  rewrite (bind_Ret _ _ _ _ _ (upd_base_run w1 b x _ Hb)).
  destruct (cleanup_run (with_base w1 b (set_buf [] x)) (set_buf [] x)) as (w' & Ew & Hgone);
    [apply Hw1|apply lookup_insert_eq|].
  rewrite (bind_Ret _ _ _ _ _ Ew). exists f. cbn [flat] in Eb, El.
  rewrite Hwd in Eb, El. cbn [Z.to_nat replicate app] in Eb, El.
  rewrite Eb, El, ztake_app. done.
Qed.

(** ** Runs *)

(** The calls in order, up to the first that returns 0. *)
Fixpoint run (calls : list call) : M world unit :=
  match calls with
  | [] => ret tt
  | c :: cs => exec malloc c ;;! run cs
  end.

Fixpoint spec_run (calls : list call) (fs : list frame) : verdict :=
  match calls with [] => Ok fs | c :: cs => vbind (spec c fs) (spec_run cs) end.

(** Each call is allowed where the calls before it leave the builder. *)
Fixpoint allowed_run (calls : list call) (fs : list frame) : bool :=
  match calls with
  | [] => true
  | c :: cs => bool_decide (allowed c fs) &&
               match spec c fs with Ok fs' => allowed_run cs fs' | _ => true end
  end.

(** There is room after each call. *)
Fixpoint room_run (calls : list call) (fs : list frame) : Prop :=
  match calls with
  | [] => True
  | c :: cs =>
      match spec c fs with
      | Ok fs' => room malloc fixed (zlen (flat fs') + slack c) /\ room_run cs fs'
      | No fs' => room malloc fixed (zlen (flat fs') + slack c)
      | Dead => True
      end
  end.

Lemma run_spec calls : forall fs w, rep b fixed top w fs -> allowed_run calls fs = true ->
  match run calls w with
  | Ret _ w' => exists fs', spec_run calls fs = Ok fs' /\ rep b fixed top w' fs'
  | Fail w' => cleaned w' top b /\ ((forall fs', spec_run calls fs <> Ok fs') \/ ~ room_run calls fs)
  | _ => False
  end.
Proof using Hmalloc.
  induction calls as [|c cs IH]; intros fs w Hw Ha; cbn [run spec_run allowed_run room_run] in *.
  - by exists fs.
  - apply andb_true_iff in Ha as [Hc Hcs]. apply bool_decide_eq_true_1 in Hc.
    pose proof (exec_does c fs Hc w Hw) as Hd. unfold bind at 1.
    destruct (exec malloc c w) as [u w1|w1| |]; try done.
    + destruct Hd as (fs1 & E & Hw1). rewrite E in *. cbn [vbind]. specialize (IH fs1 w1 Hw1 Hcs).
      destruct (run cs w1) as [v w2|w2| |]; try done. destruct IH as [Hcl Hor]. split; [done|].
      destruct Hor as [|Hno]; [by left|right]. by intros [_ ?].
    + destruct Hd as [(fs1 & E & Hw1)|[(Ho & x & Hx & _) Hno]].
      * split; [|left; by rewrite E]. destruct Hw1 as (Ho & _ & _ & _ & x & Hx & _).
        by eapply cleanup_run.
      * split; [by eapply cleanup_run|]. destruct (spec c fs) as [fs1|fs1|] eqn:E; cbn [vbind].
        -- right. intros [Hr _]. by apply (Hno fs1).
        -- by left.
        -- by left.
Qed.

End exec.

(** ** Initialisation *)

(** A buffer that grows from a first capacity, or the caller's. *)
Inductive storage : Type :=
| Growable (cap : Z)
| Fixed (buf : list Z).

Definition init (malloc : nat -> Z -> option (list Z)) (st : storage) (top : nat) : M world unit :=
  match st with
  | Growable cap => CBB_init malloc top cap
  | Fixed buf => CBB_init_fixed malloc top buf (zlen buf)
  end.

Definition storage_ok (st : storage) : Prop :=
  match st with Growable cap => 0 <= cap < 2 ^ 64 | Fixed buf => zlen buf < 2 ^ 64 end.
Definition mode (st : storage) : option Z :=
  match st with Growable _ => None | Fixed buf => Some (zlen buf) end.

Lemma rep_init w b top x fixed :
  x = Buffer (b_buf x) 0 (zlen (b_buf x)) (match fixed with None => true | _ => false end) false ->
  match fixed with None => True | Some c => zlen (b_buf x) = c end -> zlen (b_buf x) < 2 ^ 64 ->
  w_cbbs w !! top = Some (CBB (Some b) None 0 0 false false) -> w_bases w !! b = Some x ->
  rep b fixed top w [top_frame top].
Proof.
  intros -> Hfix H64 Hc Hb. cbn [b_buf] in *. split; [by eexists|]. split.
  - split; [|done]. split; [constructor|done].
  - split; [apply NoDup_singleton|]. split; [by split|]. eexists. split; [exact Hb|].
    pose proof (zlen_nonneg (b_buf x)). split; [by repeat split|]. split; [done|]. by eexists.
Qed.

Lemma cleaned_zero w top (b : nat) c :
  w_cbbs w !! top = Some c -> c_is_child c = false -> c_base c = None -> w_bases w !! b = None ->
  cleaned w top b.
Proof.
  intros Hc Hchild Hbase Hb. unfold cleaned, CBB_cleanup.
  rewrite (bind_Ret _ _ _ _ _ (get_cbb_run _ _ _ Hc)), Hchild, Hbase.
  rewrite (bind_Ret (ret tt) _ w tt w eq_refl). rewrite (upd_cbb_run _ top c); [|done].
  by eexists.
Qed.

(** What [cbb_init] leaves of a zeroed CBB. *)
Lemma cbb_init_run malloc w top buf cap :
  let b := new_ref (w_bases w) in
  w_cbbs w !! top = Some zero_cbb ->
  match cbb_init malloc top buf cap w with
  | Ret _ w' => w_cbbs w' !! top = Some (CBB (Some b) None 0 0 false false) /\
                w_bases w' !! b = Some (Buffer buf 0 cap true false)
  | Fail w' => cleaned w' top b /\ ~ malloc_total malloc
  | _ => False
  end.
Proof.
  intros b Hc. unfold cbb_init, alloc. unfold bind at 1.
  destruct (OPENSSL_malloc malloc (w_allocs w) sizeof_buffer) as [block|] eqn:E.
  - unfold bind at 1, getm. rewrite (bind_Ret (put_base _ _) _ _ tt _ eq_refl).
    rewrite (upd_cbb_run _ top zero_cbb); [|done]. cbn [w_cbbs w_bases]. by rewrite !lookup_insert_eq.
  - split.
    + eapply (cleaned_zero _ top b zero_cbb); [done|done|done|apply new_ref_fresh].
    + intros Ht. destruct (alloc_total malloc sizeof_buffer Ht ltac:(done) (w_allocs w)) as [y Hy].
      by rewrite Hy in E.
Qed.

Lemma init_run malloc w st top :
  malloc_spec malloc -> storage_ok st ->
  let b := new_ref (w_bases w) in
  match init malloc st top w with
  | Ret _ w' => rep b (mode st) top w' [top_frame top]
  | Fail w' => cleaned w' top b /\
      ~ (malloc_total malloc /\ match st with Growable cap => cap < 2 ^ 61 | Fixed _ => True end)
  | _ => False
  end.
Proof.
  intros Hm Hst. destruct w as [cbbs bases n0]. cbn [w_bases]. set (b := new_ref bases).
  assert (Hz : forall n, CBB_zero top (World cbbs bases n) =
    Ret tt (World (<[top := zero_cbb]> cbbs) bases n)) by done.
  assert (Hc0 : forall n, w_cbbs (World (<[top := zero_cbb]> cbbs) bases n) !! top = Some zero_cbb)
    by (intros; apply lookup_insert_eq).
  destruct st as [cap|buf]; cbn [init storage_ok mode] in *.
  - unfold CBB_init. rewrite (bind_Ret _ _ _ _ _ (Hz _)). unfold alloc. unfold bind at 1.
    cbn [w_cbbs w_bases w_allocs].
    destruct (OPENSSL_malloc malloc n0 cap) as [buf|] eqn:E.
    + apply openssl_malloc_len in E as [Hlen _]; [|done|done].
      pose proof (cbb_init_run malloc (World (<[top := zero_cbb]> cbbs) bases (S n0))
        top buf cap (Hc0 _)) as Hrun. cbn zeta in Hrun. fold b in Hrun.
      destruct (cbb_init _ _ _ _ _) as [u w1|w1| |]; try done.
      * destruct Hrun as [Hc Hb]. eapply rep_init; [| | |exact Hc|exact Hb]; cbn; [by rewrite Hlen|done|lia].
      * split; [apply Hrun|]. intros [Ht _]. by apply Hrun.
    + destruct (Z.ltb_spec 0 cap) as [Hpos|Hzero].
      * split; [by eapply (cleaned_zero _ top b zero_cbb); [apply Hc0| | |apply new_ref_fresh]|].
        intros [Ht Hs]. destruct (alloc_total malloc cap Ht) with n0 as [y Hy];
          [change (2 ^ 61) with 2305843009213693952 in Hs; change (2 ^ 62) with 4611686018427387904; lia|].
        by rewrite Hy in E.
      * pose proof (cbb_init_run malloc (World (<[top := zero_cbb]> cbbs) bases (S n0))
          top [] cap (Hc0 _)) as Hrun. cbn zeta in Hrun. fold b in Hrun. replace cap with 0 in * by lia.
        destruct (cbb_init _ _ _ _ _) as [u w1|w1| |]; try done.
        -- destruct Hrun as [Hc Hb]. eapply rep_init; [| | |exact Hc|exact Hb]; done.
        -- split; [apply Hrun|]. intros [Ht _]. by apply Hrun.
  - unfold CBB_init_fixed. rewrite (bind_Ret _ _ _ _ _ (Hz _)).
    pose proof (cbb_init_run malloc (World (<[top := zero_cbb]> cbbs) bases n0)
      top buf (zlen buf) (Hc0 _)) as Hrun. cbn zeta in Hrun. fold b in Hrun.
    unfold bind at 1. destruct (cbb_init _ _ _ _ _) as [u w1|w1| |]; try done.
    + destruct Hrun as [Hc Hb]. rewrite (bind_Ret _ _ _ _ _ (get_cbb_run _ _ _ Hc)). cbn [c_base].
      rewrite (upd_base_run w1 b _ _ Hb). eapply rep_init; [| | |exact Hc|apply lookup_insert_eq]; cbn; done.
    + split; [apply Hrun|]. intros [Ht _]. by apply Hrun.
Qed.

(** ** Building *)

(** The bytes a client gets. *)
Definition spec_build (top : nat) (calls : list call) : option (list Z) :=
  match spec_run calls [top_frame top] with
  | Ok fs => match spec_flush top fs with Ok [f] => Some (f_data f) | _ => None end
  | _ => None
  end.

Definition build (malloc : nat -> Z -> option (list Z)) (st : storage) (top : nat) (calls : list call)
    : M world (list Z * Z) :=
  init malloc st top ;;! run malloc calls ;;! CBB_finish malloc top true true.

(** Memory is never refused and the buffer never fills up. *)
Definition enough_room (malloc : nat -> Z -> option (list Z)) (st : storage) (top : nat)
    (calls : list call) : Prop :=
  malloc_total malloc /\
  match st with Growable cap => cap < 2 ^ 61 | Fixed _ => True end /\
  room_run malloc (mode st) calls [top_frame top] /\
  forall data, spec_build top calls = Some data -> room malloc (mode st) (zlen data).

Lemma build_run malloc w top st calls :
  malloc_spec malloc -> storage_ok st -> allowed_run calls [top_frame top] = true ->
  match build malloc st top calls w with
  | Ret (block, len) w' =>
      spec_build top calls = Some (ztake len block) /\ len = zlen (ztake len block) /\
      w_bases w' !! new_ref (w_bases w) = None
  | Fail w' =>
      (spec_build top calls = None \/ ~ enough_room malloc st top calls) /\
      cleaned w' top (new_ref (w_bases w))
  | _ => False
  end.
Proof.
  intros Hm Hst Ha. unfold build. pose proof (init_run malloc w st top Hm Hst) as Hi. cbn zeta in Hi.
  unfold bind at 1. destruct (init malloc st top w) as [u w1|w1| |]; try done.
  2: { destruct Hi as [Hcl Hno]. split; [|done]. right. intros (? & ? & _). by apply Hno. }
  pose proof (run_spec malloc Hm _ _ top calls _ w1 Hi Ha) as Hr.
  unfold bind at 1. destruct (run malloc calls w1) as [v w2|w2| |]; try done.
  2: { destruct Hr as [Hcl Hno]. split; [|done]. destruct Hno as [Hno|Hno].
       - left. unfold spec_build. destruct (spec_run _ _) as [fs| |]; [by destruct (Hno fs)|done|done].
       - right. by intros (_ & _ & ? & _). }
  destruct Hr as (fs & E & Hw2).
  pose proof (finish_run malloc Hm _ _ top w2 fs Hw2) as Hf.
  destruct (CBB_finish malloc top true true w2) as [[block len] w3|w3| |]; try done.
  - destruct Hf as (f & Ef & Hd & Hl & Hgone). unfold spec_build. rewrite E, Ef, Hd. done.
  - destruct Hf as [Hcl Hno]. split; [|done]. unfold enough_room, spec_build. rewrite E.
    destruct (spec_flush top fs) as [[|f [|g fs']]| |] eqn:Ef; try (by left).
    right. intros (_ & _ & _ & Hroom). apply (Hno [f] eq_refl). specialize (Hroom _ eq_refl).
    apply flush_Ok in Ef as (ups & f0 & outer & data & -> & _ & [= -> <-]).
    destruct Hw2 as (_ & Hok & _). apply frames_ok_tail in Hok as [[_ [Hwd _]] _].
    cbn [flat app append f_width f_data]. by rewrite Hwd.
Qed.

(** C6: a CBB is a faithful builder of nested length-prefixed data.  Take any world of
    live builders, initialise a CBB with a growable or a fixed buffer, make any
    sequence of calls on it and on the children opened in it (children are closed
    implicitly, in any nesting and order; every call is made on a CBB that is still
    open), and finish it.  The run never reads or writes outside the buffer, never
    follows a dangling pointer, and ends.  If it succeeds, the bytes handed out are the
    ones the abstract builder defines, each frame's contents behind its length; it
    fails only where the abstract builder does (a length or a number that does not fit
    its prefix, a malformed OID) or because memory ran out or the fixed buffer is full.
    In both cases the buffer object is freed, in the second by [CBB_cleanup]. *)
Theorem cbb_refines_frames malloc w top st calls :
  malloc_spec malloc -> storage_ok st -> allowed_run calls [top_frame top] = true ->
  match build malloc st top calls w with
  | Ret (block, len) w' =>
      spec_build top calls = Some (ztake len block) /\ len = zlen (ztake len block) /\
      w_bases w' !! new_ref (w_bases w) = None
  | Fail w' =>
      (spec_build top calls = None \/ ~ enough_room malloc st top calls) /\
      cleaned w' top (new_ref (w_bases w))
  | _ => False
  end.
Proof. apply build_run. Qed.

Definition sample_world : world := World ∅ ∅ 0.

(** A TLS-like record with a nested SEQUENCE, a discarded child and a refused flush. *)
Definition sample_calls : list call :=
  [AddU8 1 0x16; AddU16Prefixed 1 2; AddAsn1 2 3 CBS_ASN1_SEQUENCE; AddInt64 3 (-129);
   AddZeros 3 130; AddU8Prefixed 2 3; AddU32le 3 0x01020304; FillReserved 3 9 [7; 8];
   AddAsn1 3 4 0xa000001f; AddBool 4 1; Discard 2; AddOid 1 [49; 46; 50; 46; 56; 52; 48]].

Lemma cbb_refines_frames_witness :
  match build sample_malloc (Growable 4) 1 sample_calls sample_world with
  | Ret (block, len) w' =>
      spec_build 1 sample_calls = Some (ztake len block) /\ len = zlen (ztake len block) /\
      w_bases w' !! new_ref (w_bases sample_world) = None
  | Fail w' =>
      (spec_build 1 sample_calls = None \/ ~ enough_room sample_malloc (Growable 4) 1 sample_calls) /\
      cleaned w' 1 (new_ref (w_bases sample_world))
  | _ => False
  end.
Proof.
  apply cbb_refines_frames; [exact sample_malloc_spec|done|vm_compute; reflexivity].
Defined.
