(* ===== verification/CbsText.v ===== *)
(** * BoringSSL CBS: copies and text (crypto/bytestring/cbs.c)

    The functions of cbs.c that allocate: [CBS_stow], [CBS_strdup] and the printer of
    object identifiers, which writes through a CBB. *)
From S2P Require Import Prelude Decimal Cbs OsslMem Cbb.

Section text.
Context (malloc : nat -> Z -> option (list Z)).

(** The new [*out_ptr] and [*out_len]; the old block is freed. [n] numbers the
    allocation. *)
Definition CBS_stow (n : nat) (cbs : CBS) : option (option (list Z) * Z) :=
  if zlen cbs =? 0 then Some (None, 0)
  else match OPENSSL_memdup malloc n cbs with
       | None => None
       | Some copy => Some (Some copy, zlen cbs)
       end.

(** The new [*out_ptr]; the outer [None] is undefined behaviour. *)
Definition CBS_strdup (n : nat) (cbs : CBS) : option (option (list Z)) :=
  OPENSSL_strndup malloc n cbs (zlen cbs).

Definition add_decimal (out : nat) (v : Z) : M world unit :=
  CBB_add_bytes malloc out (decimal v).

Fixpoint text_components (fuel : nat) (cbb : nat) (copy : CBS) : M world unit :=
  match fuel with
  | O => nofuelm
  | S k =>
      if negb (zlen copy =? 0) then
        let! p := parse parse_base128_integer copy in
        CBB_add_u8 malloc cbb chr_dot ;;!
        add_decimal cbb p.1 ;;!
        text_components k cbb p.2
      else ret tt
  end.

(** [err: CBB_cleanup(&cbb); return NULL;] *)
Definition or_cleanup {A} (cbb : nat) (m : M world A) : M world A :=
  let! o := tryb m in
  match o with Some a => ret a | None => CBB_cleanup cbb ;;! failm end.

(** Returns the block [txt] and [txt_len]; [Fail] is the null pointer. *)
Definition CBS_asn1_oid_to_text (cbs : CBS) : M world (list Z * Z) :=
  with_local (fun cbb => or_cleanup cbb (
    CBB_init malloc cbb 32 ;;!
    let! p := parse parse_base128_integer cbs in
    let v := p.1 in
    (if 80 <=? v then
       CBB_add_bytes malloc cbb [50; chr_dot] ;;! add_decimal cbb (u64 (v - 80))
     else
       add_decimal cbb (v / 40) ;;! CBB_add_u8 malloc cbb chr_dot ;;! add_decimal cbb (v mod 40)) ;;!
    text_components (S (length p.2)) cbb p.2 ;;!
    CBB_add_u8 malloc cbb 0 ;;!
    CBB_finish malloc cbb true true)).

End text.
