(* ===== verification/CbbOidText.v ===== *)
(** * BoringSSL: object identifiers, from text and to text

    The printer of cbs.c and the parser of cbb.c are inverse. *)
From S2P Require Import Prelude Decimal Cbs CbsSpec OsslMem Qsort Cbb CbbFrames CbbBuffer CbbFlush CbbOps CbbElements CbbOid CbbSpec CbsText.

(** ** The parser accepts exactly the numerals *)

(** What may follow a component: nothing, or a dot and something. *)
Definition component_end (sep rest : list Z) : Prop :=
  (sep = [] /\ rest = []) \/ (sep = [chr_dot] /\ rest <> []).

(** The digits that may come after [seen] ones with the value [out]. *)
Definition tail_ok (out : Z) (seen : bool) (ds : list Z) : Prop :=
  Forall is_digit ds /\ (seen = true -> out = 0 -> ds = []) /\
  (seen = false -> out = 0 /\ numeral ds).

Lemma digit_not_dot d : is_digit d -> (d =? chr_dot) = false.
Proof. unfold is_digit, chr_0, chr_9, chr_dot. intros. apply Z.eqb_neq. lia. Qed.

(** The checks on one digit are the check for overflow. *)
Lemma digit_checks out d seen : is_digit d -> 0 <= out < 2 ^ 64 ->
  ((d <? chr_0) || (chr_9 <? d) || (seen && (out =? 0))
   || (UINT64_MAX / 10 <? out) || (UINT64_MAX - (d - chr_0) <? u64 (out * 10))) =
  (seen && (out =? 0)) || (UINT64_MAX <? out * 10 + (d - chr_0)).
Proof.
  intros Hd Ho. unfold is_digit, chr_0, chr_9 in *. unfold UINT64_MAX. 
  change (2 ^ 64 - 1) with 18446744073709551615.
  change (18446744073709551615 / 10) with 1844674407370955161.
  bool_false (d <? 48). bool_false (57 <? d). cbn [orb]. destruct (seen && _); [done|]. cbn [orb].
  destruct (Z.ltb_spec 1844674407370955161 out); cbn [orb].
  - symmetry. apply Z.ltb_lt. lia.
  - rewrite wrap_small by (change (2 ^ 64) with 18446744073709551616; lia).
    destruct (Z.ltb_spec (18446744073709551615 - (d - 48)) (out * 10)); symmetry;
      [apply Z.ltb_lt|apply Z.ltb_ge]; lia.
Qed.

Lemma decimal_complete ds : forall k out seen sep rest,
  tail_ok out seen ds -> 0 <= out -> dec_value out ds < 2 ^ 64 -> component_end sep rest ->
  (length ds < k)%nat ->
  decimal_loop k out seen (ds ++ sep ++ rest) = Ret (dec_value out ds) rest.
Proof.
  induction ds as [|d ds IH]; intros k out seen sep rest (Hall & Hseen & Hnew) Ho Hv Hend Hk;
    (destruct k as [|k]; [lia|]); rewrite decimal_step; cbn [app].
  - assert (seen = true) as ->.
    { destruct seen; [done|]. by destruct (Hnew eq_refl) as (_ & _ & ? & _). }
    destruct Hend as [[-> ->]|[-> Hr]]; [done|]. cbn [app]. rewrite Z.eqb_refl.
    destruct rest as [|x rest]; [done|]. rewrite zlen_cons. pose proof (zlen_nonneg rest).
    by bool_true (0 <? zlen rest + 1).
  - inversion_clear Hall as [|? ? Hd Hall']. rewrite (digit_not_dot d Hd). cbn [andb].
    cbn [dec_value foldl] in Hv. fold (dec_value (out * 10 + (d - chr_0)) ds) in Hv.
    assert (Hd' : 0 <= d - chr_0 <= 9) by (unfold is_digit, chr_0, chr_9 in *; lia).
    pose proof (dec_value_ge ds (out * 10 + (d - chr_0)) Hall' ltac:(lia)) as Hge.
    change (2 ^ 64) with 18446744073709551616 in Hv.
    rewrite digit_checks by (done || (change (2 ^ 64) with 18446744073709551616; lia)).
    assert ((seen && (out =? 0)) = false) as ->.
    { destruct seen; [|done]. cbn [andb]. apply Z.eqb_neq. intros E. by specialize (Hseen eq_refl E). }
    unfold UINT64_MAX. change (2 ^ 64 - 1) with 18446744073709551615.
    bool_false (18446744073709551615 <? out * 10 + (d - chr_0)). cbn [orb].
    rewrite wrap_small by (change (2 ^ 64) with 18446744073709551616; lia).
    rewrite IH; [done| |lia|change (2 ^ 64) with 18446744073709551616; lia|done|cbn [length] in Hk; lia].
    split; [done|]. split; [|done]. intros _ E. destruct seen.
    + assert (out = 0) by lia. by specialize (Hseen eq_refl ltac:(done)).
    + destruct (Hnew eq_refl) as (-> & _ & _ & Hh).
      assert (d = chr_0) as -> by lia. by specialize (Hh eq_refl) as [= ->].
Qed.

Lemma decimal_sound k : forall l out seen v rest,
  0 <= out < 2 ^ 64 -> (seen = false -> out = 0) -> decimal_loop k out seen l = Ret v rest ->
  exists ds sep, l = ds ++ sep ++ rest /\ component_end sep rest /\ tail_ok out seen ds /\
    v = dec_value out ds /\ v < 2 ^ 64.
Proof.
  induction k as [|k IH]; intros l out seen v rest Ho Hs; [done|]. rewrite decimal_step.
  destruct l as [|d l].
  - destruct seen; [|done]. intros [= <- <-]. exists [], []. split; [done|]. split; [by left|].
    split; [|split; [done|lia]]. by split; [constructor|].
  - destruct (Z.eqb_spec d chr_dot) as [->|Hnd]; cbn [andb].
    { destruct (Z.ltb_spec 0 (zlen l)) as [Hl|Hl].
      - destruct seen; [|done]. intros [= <- <-]. exists [], [chr_dot]. split; [done|].
        split; [right; split; [done|by destruct l]|]. split; [|split; [done|lia]]. by split; [constructor|].
      - done. }
    destruct (decide (is_digit d)) as [Hd|Hd].
    2: { replace ((d <? chr_0) || (chr_9 <? d)) with true; [done|]. unfold is_digit in Hd.
         destruct (Z.ltb_spec d chr_0), (Z.ltb_spec chr_9 d); done || lia. }
    rewrite digit_checks by done. destruct (seen && (out =? 0)) eqn:Ez; [done|]. cbn [orb].
    destruct (Z.ltb_spec UINT64_MAX (out * 10 + (d - chr_0))) as [|Hfit]; [done|].
    unfold UINT64_MAX in Hfit. assert (Hd' : 0 <= d - chr_0 <= 9) by (unfold is_digit, chr_0, chr_9 in *; lia).
    rewrite wrap_small by lia. intros H.
    apply IH in H as (ds & sep & -> & Hend & (Hall & Hz & _) & -> & Hv); [|lia|done].
    exists (d :: ds), sep. split; [done|]. split; [done|]. split; [|done].
    split; [by constructor|]. split.
    + intros -> ->. done.
    + intros ->. specialize (Hs eq_refl) as ->. split; [done|]. split; [by constructor|].
      split; [done|]. intros [= ->]. by rewrite Hz.
Qed.

(** One component, followed by [sep]. *)
Lemma component_complete v sep rest : 0 <= v < 2 ^ 64 -> component_end sep rest ->
  parse_dotted_decimal (decimal v ++ sep ++ rest) = Ret v rest.
Proof.
  intros Hv Hend. destruct (decimal_numeral v Hv) as [Hn Ev]. unfold parse_dotted_decimal.
  rewrite (decimal_complete (decimal v)); [by rewrite Ev| |done|rewrite Ev; apply Hv|done|rewrite length_app; lia].
  split; [apply Hn|]. by split.
Qed.

Lemma component_sound l v rest : parse_dotted_decimal l = Ret v rest ->
  0 <= v < 2 ^ 64 /\ exists sep, l = decimal v ++ sep ++ rest /\ component_end sep rest.
Proof.
  intros H. pose proof (parse_decimal_returns l) as Hr. rewrite H in Hr.
  apply decimal_sound in H as (ds & sep & -> & Hend & (_ & _ & Hn) & -> & Hv); [|done|done].
  destruct (Hn eq_refl) as [_ Hnum]. split; [apply Hr|]. exists sep. by rewrite decimal_of_numeral.
Qed.

(** ** Object identifiers *)

(** A 64-bit number, as every component of an identifier is. *)
Definition word64 (v : Z) : Prop := 0 <= v < 2 ^ 64.

(** The first two components are encoded together. *)
Definition arcs_ok (a b : Z) (arcs : list Z) : Prop :=
  0 <= a <= 2 /\ 0 <= b <= UINT64_MAX - 80 /\ (a < 2 -> b <= 39) /\ Forall word64 arcs.

Definition arcs_bytes (arcs : list Z) : list Z := concat ((fun v => base128 10 v 0) <$> arcs).
Fixpoint dotted (arcs : list Z) : list Z :=
  match arcs with
  | [] => []
  | v :: r => decimal v ++ match r with [] => [] | _ => chr_dot :: dotted r end
  end.

Definition oid_encoding (a b : Z) (arcs : list Z) : list Z :=
  base128 10 (40 * a + b) 0 ++ arcs_bytes arcs.
Definition oid_name (a b : Z) (arcs : list Z) : list Z := dotted (a :: b :: arcs).

(** What the printer of cbs.c writes, before the final zero. *)
Fixpoint text_rest (fuel : nat) (l : list Z) : option (list Z) :=
  match fuel with
  | O => None
  | S k =>
      if negb (zlen l =? 0) then
        match parse_base128_integer l with
        | Ret v rest => (fun t => [chr_dot] ++ decimal v ++ t) <$> text_rest k rest
        | _ => None
        end
      else Some []
  end.
Definition oid_text (cbs : list Z) : option (list Z) :=
  match parse_base128_integer cbs with
  | Ret v rest =>
      (fun t => (if 80 <=? v then [50; chr_dot] ++ decimal (u64 (v - 80))
                 else decimal (v / 40) ++ [chr_dot] ++ decimal (v mod 40)) ++ t)
      <$> text_rest (S (length rest)) rest
  | _ => None
  end.

Lemma decimal_nonempty v : 0 <= v < 2 ^ 64 -> decimal v <> [].
Proof. intros Hv. apply decimal_spec, Hv. Qed.

Lemma dotted_nil arcs : Forall word64 arcs -> dotted arcs = [] -> arcs = [].
Proof.
  destruct arcs as [|v r]; [done|]. intros Hf [E _]%app_eq_nil. inversion_clear Hf as [|? ? Hv _].
  by apply decimal_nonempty in Hv.
Qed.

(** [dotted], one component at a time. *)
Lemma dotted_cons v r : Forall word64 r -> exists sep,
  dotted (v :: r) = decimal v ++ sep ++ dotted r /\ component_end sep (dotted r).
Proof.
  intros Hr. destruct r as [|w r].
  - exists []. split; [done|by left].
  - exists [chr_dot]. split; [done|]. right. split; [done|]. intros E. by apply dotted_nil in E.
Qed.

Lemma dotted_component v r : word64 v -> Forall word64 r ->
  parse_dotted_decimal (dotted (v :: r)) = Ret v (dotted r).
Proof. intros Hv Hr. destruct (dotted_cons v r Hr) as (sep & -> & Hend). by apply component_complete. Qed.

Lemma dotted_sep v sep r : Forall word64 r -> component_end sep (dotted r) ->
  decimal v ++ sep ++ dotted r = dotted (v :: r).
Proof.
  intros Hr [[-> E]|[-> Hne]].
  - apply dotted_nil in E as ->; [|done]. done.
  - destruct r; [done|]. done.
Qed.

Lemma dotted_length arcs : Forall word64 arcs -> (length arcs <= length (dotted arcs))%nat.
Proof.
  induction arcs as [|v r IH]; [done|]. intros Hf. inversion_clear Hf as [|? ? Hv Hr].
  destruct (dotted_cons v r Hr) as (sep & -> & _). rewrite !length_app. specialize (IH Hr). cbn [length].
  pose proof (decimal_nonempty v Hv). destruct (decimal v); [done|]. cbn [length]. lia.
Qed.

Lemma oid_rest_complete arcs : forall k, Forall word64 arcs -> (length arcs < k)%nat ->
  oid_rest k (dotted arcs) = (arcs_bytes arcs, true).
Proof.
  induction arcs as [|v r IH]; intros k Hf Hk; (destruct k as [|k]; [lia|]); cbn [oid_rest]; [done|].
  inversion_clear Hf as [|? ? Hv Hr]. rewrite dotted_component by done.
  pose proof (dotted_length (v :: r) ltac:(by constructor)) as Hl. cbn [length] in Hl, Hk.
  replace (0 <? zlen (dotted (v :: r))) with true by (symmetry; apply Z.ltb_lt; unfold zlen; lia).
  rewrite IH by (done || lia). done.
Qed.

Lemma oid_rest_sound k : forall l bs, (length l < k)%nat -> oid_rest k l = (bs, true) ->
  exists arcs, Forall word64 arcs /\ l = dotted arcs /\ bs = arcs_bytes arcs.
Proof.
  induction k as [|k IH]; intros l bs Hk; [lia|]. cbn [oid_rest].
  destruct (Z.ltb_spec 0 (zlen l)) as [Hl|Hl].
  - destruct (parse_dotted_decimal l) as [v rest| | |] eqn:E; try done.
    pose proof (parse_decimal_returns l) as Hr. rewrite E in Hr. destruct Hr as [_ Hlen].
    apply component_sound in E as (Hv & sep & -> & Hend).
    destruct (oid_rest k rest) as [bs' ok] eqn:Er. cbn [fst snd]. intros [= <- ->].
    apply IH in Er as (arcs & Hf & -> & ->); [|lia].
    exists (v :: arcs). split; [by constructor|]. split; [by apply dotted_sep|done].
  - intros [= <-]. exists []. split; [constructor|]. split; [|done].
    destruct l; [done|]. rewrite zlen_cons in Hl. pose proof (zlen_nonneg l). lia.
Qed.

(** The parser of the text accepts exactly the names of identifiers. *)
Lemma oid_bytes_complete a b arcs : arcs_ok a b arcs ->
  oid_bytes (oid_name a b arcs) = (oid_encoding a b arcs, true).
Proof.
  intros (Ha & Hb & Hab & Hf). unfold oid_bytes, oid_name. unfold UINT64_MAX in *.
  change (2 ^ 64) with 18446744073709551616 in Hb.
  rewrite dotted_component;
    [|unfold word64; lia|constructor; [unfold word64; change (2 ^ 64) with 18446744073709551616; lia|done]].
  rewrite dotted_component; [|unfold word64; change (2 ^ 64) with 18446744073709551616; lia|done].
  bool_false (2 <? a). change (2 ^ 64) with 18446744073709551616.
  replace ((a <? 2) && (39 <? b)) with false
    by (destruct (Z.ltb_spec a 2); [bool_false (39 <? b)|]; done || lia).
  bool_false (18446744073709551616 - 1 - 80 <? b). cbn [orb].
  rewrite oid_rest_complete; [done|done|]. pose proof (dotted_length arcs Hf). lia.
Qed.

Lemma oid_bytes_sound t bs : oid_bytes t = (bs, true) ->
  exists a b arcs, arcs_ok a b arcs /\ t = oid_name a b arcs /\ bs = oid_encoding a b arcs.
Proof.
  unfold oid_bytes. destruct (parse_dotted_decimal t) as [a t1| | |] eqn:Ea; try done.
  destruct (parse_dotted_decimal t1) as [b t2| | |] eqn:Eb; try done.
  destruct (_ || _) eqn:Ec; [done|]. destruct (oid_rest _ t2) as [bs' ok] eqn:Er. cbn [fst snd].
  intros [= <- ->]. apply component_sound in Ea as (Ha & sepa & -> & Henda).
  apply component_sound in Eb as (Hb & sepb & -> & Hendb).
  apply oid_rest_sound in Er as (arcs & Hf & -> & ->); [|lia].
  apply orb_false_iff in Ec as [[E1 E2]%orb_false_iff E3]. apply Z.ltb_ge in E1, E3.
  exists a, b, arcs. split; [|split; [|done]].
  - split; [lia|]. split; [lia|]. split; [|done]. intros Ha2. rewrite (proj2 (Z.ltb_lt a 2) Ha2) in E2.
    cbn [andb] in E2. apply Z.ltb_ge in E2. done.
  - unfold oid_name. rewrite <- (dotted_sep a sepa (b :: arcs));
      [|by constructor|by rewrite <- (dotted_sep b sepb arcs)].
    by rewrite <- (dotted_sep b sepb arcs).
Qed.

(** ** The printer *)

(** The components after the first two, each behind a dot. *)
Definition arcs_text (arcs : list Z) : list Z := concat ((fun v => [chr_dot] ++ decimal v) <$> arcs).

Lemma dotted_text v arcs : dotted (v :: arcs) = decimal v ++ arcs_text arcs.
Proof.
  revert v. induction arcs as [|w arcs IH]; intros v; [done|].
  change (dotted (v :: w :: arcs)) with (decimal v ++ chr_dot :: dotted (w :: arcs)). by rewrite IH.
Qed.

Lemma base128_nonempty v : base128 10 v 0 <> [].
Proof. cbn [base128]. destruct (v <? 128); [done|]. intros [_ ?]%app_eq_nil. done. Qed.

Lemma arcs_bytes_length arcs : (length arcs <= length (arcs_bytes arcs))%nat.
Proof.
  induction arcs as [|v r IH]; [done|]. unfold arcs_bytes in *. cbn [fmap list_fmap concat length].
  rewrite length_app. pose proof (base128_nonempty v). destruct (base128 10 v 0); [done|]. cbn [length]. lia.
Qed.

Lemma text_rest_complete arcs : forall k, Forall word64 arcs -> (length arcs < k)%nat ->
  text_rest k (arcs_bytes arcs) = Some (arcs_text arcs).
Proof.
  induction arcs as [|v r IH]; intros k Hf Hk; (destruct k as [|k]; [lia|]); cbn [text_rest]; [done|].
  inversion_clear Hf as [|? ? Hv Hr].
  change (arcs_bytes (v :: r)) with (base128 10 v 0 ++ arcs_bytes r).
  replace (zlen (base128 10 v 0 ++ arcs_bytes r) =? 0) with false.
  2: { symmetry. apply Z.eqb_neq. pose proof (base128_nonempty v). unfold zlen.
       destruct (base128 10 v 0); [done|]. cbn [app length]. lia. }
  cbn [negb]. rewrite base128_complete10 by exact Hv. cbn [length] in Hk. by rewrite IH by (done || lia).
Qed.

Lemma text_rest_sound k : forall l t, bytes_ok l -> (length l < k)%nat -> text_rest k l = Some t ->
  exists arcs, Forall word64 arcs /\ l = arcs_bytes arcs /\ t = arcs_text arcs.
Proof.
  induction k as [|k IH]; intros l t Hok Hk; [lia|]. cbn [text_rest].
  destruct (Z.eqb_spec (zlen l) 0) as [El|El]; cbn [negb].
  - intros [= <-]. exists []. split; [constructor|]. destruct l; [done|]. rewrite zlen_cons in El.
    pose proof (zlen_nonneg l). lia.
  - destruct (parse_base128_integer l) as [v rest| | |] eqn:E; try done.
    apply base128_sound10 in E as [Hv ->]; [|done]. apply Forall_app in Hok as [_ Hok].
    rewrite length_app in Hk. pose proof (base128_nonempty v).
    intros (t' & E & ->)%fmap_Some. apply IH in E as (arcs & Hf & -> & ->); [|done|].
    + exists (v :: arcs). split; [by constructor|done].
    + destruct (base128 10 v 0); [done|]. cbn [length] in Hk. lia.
Qed.

(** The printer splits the first number as the parser joined it. *)
Lemma first_arcs a b arcs : arcs_ok a b arcs ->
  0 <= 40 * a + b < 2 ^ 64 /\
  (if 80 <=? 40 * a + b then [50; chr_dot] ++ decimal (u64 (40 * a + b - 80))
   else decimal ((40 * a + b) / 40) ++ [chr_dot] ++ decimal ((40 * a + b) mod 40)) =
  decimal a ++ [chr_dot] ++ decimal b.
Proof.
  intros (Ha & Hb & Hab & _). unfold UINT64_MAX in Hb. change (2 ^ 64) with 18446744073709551616 in *.
  split; [lia|]. destruct (Z.leb_spec 80 (40 * a + b)) as [Hge|Hlt].
  - assert (a = 2) as -> by lia. rewrite wrap_small by (change (2 ^ 64) with 18446744073709551616; lia).
    replace (40 * 2 + b - 80) with b by lia. done.
  - replace ((40 * a + b) / 40) with a by (Z.to_euclidean_division_equations; lia).
    by replace ((40 * a + b) mod 40) with b by (Z.to_euclidean_division_equations; lia).
Qed.

Lemma oid_text_complete a b arcs : arcs_ok a b arcs ->
  oid_text (oid_encoding a b arcs) = Some (oid_name a b arcs).
Proof.
  intros Hok. destruct (first_arcs a b arcs Hok) as [Hv Hfirst]. destruct Hok as (_ & _ & _ & Hf).
  unfold oid_text, oid_encoding. rewrite base128_complete10 by done. rewrite Hfirst.
  rewrite text_rest_complete; [|done|pose proof (arcs_bytes_length arcs); lia]. cbn [fmap option_fmap option_map].
  unfold oid_name. rewrite dotted_text. unfold arcs_text. cbn [fmap list_fmap concat].
  by rewrite <- !app_assoc.
Qed.

Lemma oid_text_sound bs t : bytes_ok bs -> oid_text bs = Some t ->
  exists a b arcs, arcs_ok a b arcs /\ bs = oid_encoding a b arcs /\ t = oid_name a b arcs.
Proof.
  intros Hok. unfold oid_text. destruct (parse_base128_integer bs) as [v rest| | |] eqn:E; try done.
  apply base128_sound10 in E as [Hv ->]; [|done]. apply Forall_app in Hok as [_ Hok].
  intros (t' & Et & ->)%fmap_Some. apply text_rest_sound in Et as (arcs & Hf & -> & ->); [|done|lia].
  set (a := if 80 <=? v then 2 else v / 40). set (b := if 80 <=? v then v - 80 else v mod 40).
  assert (Hab : arcs_ok a b arcs /\ 40 * a + b = v).
  { unfold a, b, arcs_ok, UINT64_MAX. change (2 ^ 64) with 18446744073709551616 in *.
    destruct (Z.leb_spec 80 v).
    - repeat split; (done || lia).
    - repeat split; try done; Z.to_euclidean_division_equations; lia. }
  destruct Hab as [Hab Ev]. destruct (first_arcs a b arcs Hab) as [_ Hfirst]. rewrite Ev in Hfirst.
  exists a, b, arcs. split; [done|]. unfold oid_encoding. rewrite Ev. split; [done|].
  rewrite Hfirst. unfold oid_name. rewrite dotted_text. unfold arcs_text. cbn [fmap list_fmap concat].
  by rewrite <- !app_assoc.
Qed.


(** * BoringSSL: the printer of object identifiers, run on a CBB

    What [CBS_asn1_oid_to_text] returns, and the round trips between the text and
    the encoding of an object identifier. *)

(** ** What is written *)

(** The text of the components up to a bad one, and whether there is none. *)
Fixpoint text_written (fuel : nat) (l : list Z) : list Z * bool :=
  match fuel with
  | O => ([], true)
  | S k =>
      if negb (zlen l =? 0) then
        match parse_base128_integer l with
        | Ret v rest => let r := text_written k rest in (([chr_dot] ++ decimal v) ++ r.1, r.2)
        | _ => ([], false)
        end
      else ([], true)
  end.

Lemma text_written_rest k : forall l, bytes_ok l -> (length l < k)%nat ->
  text_rest k l = if (text_written k l).2 then Some (text_written k l).1 else None.
Proof.
  induction k as [|k IH]; intros l Hok Hk; [lia|]. cbn [text_rest text_written].
  destruct (negb _); [|done]. destruct (parse_base128_integer l) as [v rest| | |] eqn:E; try done.
  apply base128_sound10 in E as [_ ->]; [|done]. apply Forall_app in Hok as [_ Hok].
  rewrite length_app in Hk. pose proof (base128_nonempty v).
  rewrite IH by (done || (destruct (base128 10 v 0); [done|cbn [length] in Hk; lia])).
  cbn [fst snd]. by destruct (text_written k rest) as [t []].
Qed.

Lemma parse_base128_returns l : returns (parse_base128_integer l).
Proof. apply base128_returns. lia. Qed.

Lemma decimal_bytes v : 0 <= v < 2 ^ 64 -> bytes_ok (decimal v) /\ zlen (decimal v) < 2 ^ 64.
Proof.
  intros Hv. destruct (decimal_spec v Hv) as (Hd & Hval & _). split.
  - eapply Forall_impl; [exact Hd|]. intros d. unfold is_digit, is_byte, chr_0, chr_9. lia.
  - destruct (decimal_numeral v Hv) as [Hn _]. pose proof (numeral_length _ Hn ltac:(lia)).
    unfold zlen. change (2 ^ 64) with 18446744073709551616. lia.
Qed.

Section print.
Context (malloc : nat -> Z -> option (list Z)) (Hmalloc : malloc_spec malloc).
Context (b : nat) (fixed : option Z) (top : nat).

Local Abbreviation does := (does malloc b fixed top).
Local Abbreviation puts := (puts malloc b fixed top).

Lemma puts_bytes r data : bytes_ok data -> zlen data < 2 ^ 64 ->
  puts r (CBB_add_bytes malloc r data) data.
Proof using Hmalloc.
  intros Hok Hl f outer <-. rewrite <- spec_add_top. apply bytes_does; [done|apply list_elem_of_here|done|done].
Qed.

Lemma puts_decimal r v : 0 <= v < 2 ^ 64 -> puts r (add_decimal malloc r v) (decimal v).
Proof using Hmalloc. intros Hv. by apply puts_bytes; apply decimal_bytes. Qed.

(** An emitted text in front of a verdict. *)
Lemma puts_then {A B} (m : M world A) (k : A -> M world B) text r f outer :
  puts (f_ref f) m text ->
  (forall a, does 0 (k a) (append text f :: outer) (oid_verdict r (append text f :: outer))) ->
  does 0 (bind m k) (f :: outer) (oid_verdict (text ++ r.1, r.2) (f :: outer)).
Proof.
  intros Hm Hk. replace (oid_verdict _ (f :: outer)) with
    (vbind (Ok (append text f :: outer)) (oid_verdict r)).
  2: { unfold oid_verdict. cbn [vbind fst snd append_top]. by rewrite append_append. }
  apply does_bind; [lia|by apply Hm| |].
  - intros fs1 a [= <-]. apply Hk.
  - intros fs1 _. apply oid_verdict_grows.
Qed.

Lemma nothing_written {A} (a : A) (ok : bool) f outer :
  does 0 (if ok then ret a else failm) (f :: outer) (oid_verdict ([], ok) (f :: outer)).
Proof.
  unfold oid_verdict. destruct ok; cbn [fst snd append_top]; rewrite append_nil;
    [apply does_ret|apply fail_does].
Qed.

Lemma text_components_does k : forall f outer l, bytes_ok l -> (length l < k)%nat ->
  does 0 (text_components malloc k (f_ref f) l) (f :: outer) (oid_verdict (text_written k l) (f :: outer)).
Proof using Hmalloc.
  induction k as [|k IH]; intros f outer l Hok Hk; [lia|]. cbn [text_components text_written].
  destruct (negb _); [|apply (nothing_written tt true)].
  pose proof (parse_base128_returns l) as Hret. unfold parse.
  destruct (parse_base128_integer l) as [v rest|s| |] eqn:E; try done.
  2: apply (nothing_written tt false).
  apply base128_sound10 in E as [Hv ->]; [|done]. apply Forall_app in Hok as [_ Hok].
  rewrite length_app in Hk. pose proof (base128_nonempty v).
  eapply does_ext; [intros w; symmetry; rewrite bind_ret; symmetry; apply bind_assoc|].
  apply puts_then.
  - apply puts_seq; [by apply (puts_u8 malloc Hmalloc)|]. intros []. by apply puts_decimal.
  - intros []. apply (IH (append _ f)); [done|]. destruct (base128 10 v 0); [done|cbn [length] in Hk; lia].
Qed.

(** The first number stands for two components. *)
Definition first_text (v : Z) : list Z :=
  if 80 <=? v then [50; chr_dot] ++ decimal (u64 (v - 80))
  else decimal (v / 40) ++ [chr_dot] ++ decimal (v mod 40).

Definition print_written (cbs : list Z) : list Z * bool :=
  match parse_base128_integer cbs with
  | Ret v rest => let r := text_written (S (length rest)) rest in (first_text v ++ r.1, r.2)
  | _ => ([], false)
  end.

Lemma print_written_text cbs : bytes_ok cbs ->
  oid_text cbs = if (print_written cbs).2 then Some (print_written cbs).1 else None.
Proof.
  intros Hok. unfold oid_text, print_written. fold first_text.
  destruct (parse_base128_integer cbs) as [v rest| | |] eqn:E; try done.
  apply base128_sound10 in E as [_ ->]; [|done]. apply Forall_app in Hok as [_ Hok].
  rewrite text_written_rest by (done || lia). cbn [fst snd].
  by destruct (text_written (S (length rest)) rest) as [t []].
Qed.

(** The printer, between the initialisation of its CBB and the final zero. *)
Definition print_oid (cbb : nat) (cbs : CBS) : M world unit :=
  let! p := parse parse_base128_integer cbs in
  let v := p.1 in
  (if 80 <=? v then
     CBB_add_bytes malloc cbb [50; chr_dot] ;;! add_decimal malloc cbb (u64 (v - 80))
   else
     add_decimal malloc cbb (v / 40) ;;! CBB_add_u8 malloc cbb chr_dot ;;! add_decimal malloc cbb (v mod 40)) ;;!
  text_components malloc (S (length p.2)) cbb p.2.

Lemma puts_first r v : 0 <= v < 2 ^ 64 ->
  puts r (if 80 <=? v then
     CBB_add_bytes malloc r [50; chr_dot] ;;! add_decimal malloc r (u64 (v - 80))
   else
     add_decimal malloc r (v / 40) ;;! CBB_add_u8 malloc r chr_dot ;;! add_decimal malloc r (v mod 40))
    (first_text v).
Proof using Hmalloc.
  intros Hv. unfold first_text. change (2 ^ 64) with 18446744073709551616 in *. destruct (80 <=? v).
  - apply puts_seq; [apply puts_bytes; [by repeat constructor|done]|]. intros [].
    by apply puts_decimal, wrap_range.
  - apply puts_seq; [|intros []; apply puts_seq; [by apply (puts_u8 malloc Hmalloc)|intros []]];
      apply puts_decimal; change (2 ^ 64) with 18446744073709551616;
      Z.to_euclidean_division_equations; lia.
Qed.

Lemma print_does f outer cbs : bytes_ok cbs ->
  does 0 (print_oid (f_ref f) cbs) (f :: outer) (oid_verdict (print_written cbs) (f :: outer)).
Proof using Hmalloc.
  intros Hok. unfold print_oid, print_written, parse. pose proof (parse_base128_returns cbs).
  destruct (parse_base128_integer cbs) as [v rest|s| |] eqn:E; try done.
  2: apply (nothing_written tt false).
  apply base128_sound10 in E as [Hv ->]; [|done]. apply Forall_app in Hok as [_ Hok].
  eapply does_ext; [intros w; symmetry; apply bind_ret|]. cbn zeta. cbn [fst snd].
  apply puts_then; [by apply puts_first|]. intros []. apply (text_components_does _ (append _ f)); [done|lia].
Qed.

End print.

(** ** The whole function *)

Lemma or_cleanup_ext {A} cbb (m m' : M world A) w :
  (forall s, m s = m' s) -> or_cleanup cbb m w = or_cleanup cbb m' w.
Proof. intros E. unfold or_cleanup, tryb, bind at 1 3. by rewrite E. Qed.

Lemma oid_to_text_body malloc cbs w :
  CBS_asn1_oid_to_text malloc cbs w =
  with_local (fun cbb => or_cleanup cbb (
    init malloc (Growable 32) cbb ;;! print_oid malloc cbb cbs ;;!
    CBB_add_u8 malloc cbb 0 ;;! CBB_finish malloc cbb true true)) w.
Proof.
  apply with_local_ext. intros cbb w'. apply or_cleanup_ext. intros s. unfold init.
  apply bind_ext. intros [] s'. unfold print_oid. rewrite bind_assoc. apply bind_ext.
  intros p s2. cbn zeta. by rewrite bind_assoc.
Qed.

(** Memory is refused, or the text is too long for it. *)
Definition no_memory (malloc : nat -> Z -> option (list Z)) (cbs : list Z) : Prop :=
  ~ (malloc_total malloc /\ forall t, oid_text cbs = Some t -> zlen t < 2 ^ 60).

(** From an initialised CBB to the block it hands out. *)
Lemma print_run malloc b c w cbs :
  malloc_spec malloc -> bytes_ok cbs -> rep b None c w [top_frame c] ->
  match (print_oid malloc c cbs ;;! CBB_add_u8 malloc c 0 ;;! CBB_finish malloc c true true) w with
  | Ret (block, len) w' => exists t, oid_text cbs = Some t /\ ztake len block = t ++ [0] /\
      len = zlen t + 1 /\ w_bases w' !! b = None
  | Fail w' => cleaned w' c b /\ (oid_text cbs = None \/ no_memory malloc cbs)
  | _ => False
  end.
Proof.
  intros Hm Hok Hw. unfold no_memory. rewrite print_written_text by done.
  assert (Hcl : forall w', poisoned b None c w' -> cleaned w' c b).
  { intros w' (Ho & x & Hx & _). by eapply cleanup_run. }
  pose proof (print_does malloc Hm b None c (top_frame c) [] cbs Hok w Hw) as Hp.
  destruct (print_written cbs) as [t ok]. unfold oid_verdict in Hp. cbn [fst snd append_top] in *.
  change (f_ref (top_frame c)) with c in Hp.
  unfold bind at 1. destruct (print_oid malloc c cbs w) as [[] w1|w1| |]; try done.
  2: { destruct Hp as [(fs & E & Hw1)|[Hpo Hno]]; [destruct ok; [done|]|].
       - split; [|by left]. destruct Hw1 as (Ho & _ & _ & _ & x & Hx & _). by eapply cleanup_run.
       - split; [by apply Hcl|]. destruct ok; [|by left]. right. intros [Ht Hs].
         specialize (Hs t eq_refl). specialize (Hno _ eq_refl). apply Hno. split; [done|].
         change (zlen (flat [append t (top_frame c)])) with (zlen t). change (2 ^ 60) with 1152921504606846976 in Hs.
         change (2 ^ 61) with 2305843009213693952. lia. }
  destruct Hp as (fs & E & Hw1). destruct ok; [|done]. injection E as <-.
  pose proof (u8_top_does malloc Hm b None c _ _ 0 w1 Hw1) as Hz.
  change (f_ref (append t (top_frame c))) with c in Hz. rewrite append_append in Hz.
  unfold bind at 1. change (u8 0) with 0 in Hz.
  assert (Hroom : forall n, n = zlen t + 1 -> ~ room malloc None n ->
    ~ (malloc_total malloc /\ forall t', Some t = Some t' -> zlen t' < 2 ^ 60)).
  { intros n -> Hno [Ht Hs]. apply Hno. split; [done|]. specialize (Hs t eq_refl).
    change (2 ^ 60) with 1152921504606846976 in Hs. change (2 ^ 61) with 2305843009213693952. lia. }
  assert (Hflat : zlen (flat [append (t ++ [0]) (top_frame c)]) = zlen t + 1).
  { change (zlen (t ++ [0]) = zlen t + 1). by rewrite zlen_app. }
  destruct (CBB_add_u8 malloc c 0 w1) as [[] w2|w2| |]; try done.
  2: { destruct Hz as [(fs & ? & _)|[Hpo Hno]]; [done|]. split; [by apply Hcl|]. right.
       specialize (Hno _ eq_refl). rewrite Z.add_0_r in Hno. by eapply Hroom. }
  destruct Hz as (fs & [= <-] & Hw2). pose proof (finish_run malloc Hm b None c w2 _ Hw2) as Hf.
  assert (Ef : spec_flush c [append (t ++ [0]) (top_frame c)] = Ok [append (t ++ [0]) (top_frame c)])
    by apply flush_top.
  destruct (CBB_finish malloc c true true w2) as [[block len] w3|w3| |]; try done.
  - rewrite Ef in Hf. destruct Hf as (f & [= <-] & Hd & -> & Hb). exists t. split; [done|].
    split; [exact Hd|]. split; [|done]. change (zlen (t ++ [0]) = zlen t + 1). by rewrite zlen_app.
  - destruct Hf as [Hc Hno]. split; [done|]. right. specialize (Hno _ Ef). by eapply Hroom.
Qed.

(** The text and its final zero, or the null pointer; the CBB's buffer is gone. *)
Lemma oid_to_text_run malloc w cbs :
  malloc_spec malloc -> bytes_ok cbs ->
  match CBS_asn1_oid_to_text malloc cbs w with
  | Ret (block, len) w' => exists t, oid_text cbs = Some t /\ ztake len block = t ++ [0] /\
      len = zlen t + 1 /\ w_bases w' !! new_ref (w_bases w) = None
  | Fail w' => (oid_text cbs = None \/ no_memory malloc cbs) /\ w_bases w' !! new_ref (w_bases w) = None
  | _ => False
  end.
Proof.
  intros Hm Hok. rewrite oid_to_text_body. unfold with_local. set (c := new_ref (w_cbbs w)).
  set (b := new_ref (w_bases w)). unfold or_cleanup.
  assert (Hclean : forall w1, cleaned w1 c b -> exists w2,
    (CBB_cleanup c ;;! failm (A := list Z * Z)) w1 = Fail w2 /\ w_bases w2 !! b = None).
  { intros w1 (w2 & E & Hb). exists w2. by rewrite (bind_Ret _ _ _ _ _ E). }
  pose proof (init_run malloc w (Growable 32) c Hm ltac:(done)) as Hi. cbn zeta in Hi. fold b in Hi.
  unfold bind at 1, tryb, bind at 1.
  destruct (init malloc (Growable 32) c w) as [[] w1|w1| |]; try done.
  - pose proof (print_run malloc b c w1 cbs Hm Hok Hi) as Hp.
    destruct (bind _ _ w1) as [[block len] w2|w2| |]; try done.
    destruct Hp as [Hc Hno]. destruct (Hclean w2 Hc) as (w3 & -> & Hb). by split.
  - destruct Hi as [Hc Hno]. destruct (Hclean w1 Hc) as (w3 & -> & Hb). split; [|done].
    right. intros [Ht _]. by apply Hno.
Qed.
