(* ===== verification/CbbTheorems.v ===== *)
(** * BoringSSL CBB: round trips with CBS, and SET OF

    What the CBB writes, the CBS reads back: object identifiers and their text, and
    the typed elements of a SEQUENCE; and the order of a SET OF. *)
From S2P Require Import Prelude Decimal Cbs OsslMem Qsort Cbb CbsSpec DerInt CbsText CbbFrames CbbBuffer.
From S2P Require Import CbbFlush CbbOps CbbElements CbbOid CbbSetOf CbbSpec CbbOidText.

(** ** Object identifiers *)

Lemma base128_ok v : 0 <= v < 2 ^ 64 -> bytes_ok (base128 10 v 0).
Proof.
  intros Hv. destruct (base128_shape 10 v 0) as (c & b & -> & Hc & Hb & _); [|lia|].
  { change (2 ^ (7 * Z.of_nat 10)) with 1180591620717411303424.
    change (2 ^ 64) with 18446744073709551616 in Hv. lia. }
  apply Forall_app. split; [|repeat constructor; unfold is_byte; lia].
  eapply Forall_impl; [exact Hc|]. unfold is_byte. intros. lia.
Qed.

Lemma encoding_ok a b arcs : arcs_ok a b arcs -> bytes_ok (oid_encoding a b arcs).
Proof.
  intros Hok. destruct (first_arcs a b arcs Hok) as [Hv _]. destruct Hok as (_ & _ & _ & Hf).
  apply Forall_app. split; [by apply base128_ok|]. unfold arcs_bytes.
  induction Hf as [|v r Hw Hr IH]; [constructor|]. cbn [fmap list_fmap concat].
  apply Forall_app. split; [by apply base128_ok|done].
Qed.

(** A builder that only writes an object identifier. *)
Lemma oid_build_run malloc cap top text w :
  malloc_spec malloc -> 0 <= cap < 2 ^ 61 ->
  match build malloc (Growable cap) top [AddOid top text] w with
  | Ret (block, len) _ => oid_bytes text = (ztake len block, true)
  | Fail _ => (oid_bytes text).2 = false \/
              ~ (malloc_total malloc /\ zlen (oid_bytes text).1 < 2 ^ 61)
  | _ => False
  end.
Proof.
  intros Hm Hcap. change (2 ^ 61) with 2305843009213693952 in Hcap.
  assert (Hrun : spec (AddOid top text) [top_frame top] = oid_verdict (oid_bytes text) [top_frame top]).
  { cbn [spec]. unfold spec_oid. by rewrite (flush_top (top_frame top)). }
  assert (Hsb : (oid_bytes text).2 = true -> spec_build top [AddOid top text] = Some (oid_bytes text).1).
  { intros Hb. unfold spec_build. cbn [spec_run]. rewrite Hrun. unfold oid_verdict. rewrite Hb. cbn [vbind].
    cbn [append_top]. by rewrite (flush_top (append _ (top_frame top))). }
  pose proof (build_run malloc w top (Growable cap) [AddOid top text] Hm) as H.
  specialize (H ltac:(cbn; change (2 ^ 64) with 18446744073709551616; lia)).
  assert (Ha : allowed_run [AddOid top text] [top_frame top] = true).
  { cbn [allowed_run]. rewrite bool_decide_eq_true_2.
    - by destruct (spec _ _).
    - split; [apply list_elem_of_here|done]. }
  specialize (H Ha). destruct (build _ _ _ _ w) as [[block len] w'|w'| |]; try done.
  - destruct H as (Hs & _ & _). unfold spec_build in Hs. cbn [spec_run] in Hs. rewrite Hrun in Hs.
    unfold oid_verdict in Hs. destruct (oid_bytes text) as [bs []]; [|done].
    cbn [fst snd vbind append_top] in Hs. rewrite (flush_top (append _ (top_frame top))) in Hs.
    by injection Hs as <-.
  - destruct H as [[Hs|Hs] _].
    + left. destruct (oid_bytes text).2; [|done]. by rewrite Hsb in Hs.
    + destruct (oid_bytes text).2 eqn:Eb; [right|by left]. intros [Ht Hl]. apply Hs.
      split; [done|]. split; [change (2 ^ 61) with 2305843009213693952; lia|]. split.
      * cbn [room_run]. rewrite Hrun. unfold oid_verdict. rewrite Eb. cbn [slack append_top mode].
        rewrite Z.add_0_r. by split.
      * intros data. rewrite Hsb by done. by intros [= <-].
Qed.

(** C32: the parser and the printer of object identifiers are inverse.  The bytes
    [CBB_add_asn1_oid_from_text] writes for a text it accepts are printed by
    [CBS_asn1_oid_to_text] as the same text, with its final zero: so each accepted
    text is the one canonical name of its identifier.  Conversely the text printed
    for any bytes is accepted and gives the same bytes.  In both directions the second
    step can only fail for want of memory, and neither has undefined behaviour. *)
Theorem oid_text_roundtrip malloc cap top w1 w2 :
  malloc_spec malloc -> 0 <= cap < 2 ^ 61 ->
  (forall text,
     match build malloc (Growable cap) top [AddOid top text] w1 with
     | Ret (block, len) _ =>
         match CBS_asn1_oid_to_text malloc (ztake len block) w2 with
         | Ret (txt, n) _ => ztake n txt = text ++ [0] /\ n = zlen text + 1
         | Fail _ => ~ (malloc_total malloc /\ zlen text < 2 ^ 60)
         | _ => False
         end
     | Fail _ => True
     | _ => False
     end) /\
  (forall cbs, bytes_ok cbs ->
     match CBS_asn1_oid_to_text malloc cbs w1 with
     | Ret (txt, n) _ => exists text, ztake n txt = text ++ [0] /\
         match build malloc (Growable cap) top [AddOid top text] w2 with
         | Ret (block, len) _ => ztake len block = cbs
         | Fail _ => ~ (malloc_total malloc /\ zlen cbs < 2 ^ 61)
         | _ => False
         end
     | Fail _ => True
     | _ => False
     end).
Proof.
  intros Hm Hcap. split.
  - intros text. pose proof (oid_build_run malloc cap top text w1 Hm Hcap) as Hb.
    destruct (build _ _ _ _ w1) as [[block len] w'|w'| |]; try done.
    apply oid_bytes_sound in Hb as (a & b & arcs & Hok & -> & ->).
    pose proof (oid_to_text_run malloc w2 _ Hm (encoding_ok a b arcs Hok)) as Ht. unfold no_memory in Ht.
    rewrite oid_text_complete in Ht by done.
    destruct (CBS_asn1_oid_to_text _ _ w2) as [[txt n] w3|w3| |]; try done.
    + by destruct Ht as (t & [= <-] & ? & -> & _).
    + destruct Ht as [[?|Hno] _]; [done|]. intros [Ht Hl]. apply Hno. split; [done|]. by intros t [= <-].
  - intros cbs Hok. pose proof (oid_to_text_run malloc w1 cbs Hm Hok) as Ht.
    destruct (CBS_asn1_oid_to_text _ _ w1) as [[txt n] w3|w3| |]; try done.
    destruct Ht as (text & Et & Htxt & _ & _). exists text. split; [done|].
    apply oid_text_sound in Et as (a & b & arcs & Ha & -> & ->); [|done].
    pose proof (oid_build_run malloc cap top (oid_name a b arcs) w2 Hm Hcap) as Hb.
    rewrite oid_bytes_complete in Hb by done.
    destruct (build _ _ _ _ w2) as [[block len] w'|w'| |]; try done.
    + by injection Hb as <-.
    + by destruct Hb.
Qed.

(** "1.2.840.113549" and its encoding. *)
Definition sample_oid_text : list Z := [49; 46; 50; 46; 56; 52; 48; 46; 49; 49; 51; 53; 52; 57].
Definition sample_oid : list Z := [0x2a; 0x86; 0x48; 0x86; 0xf7; 0x0d].

Lemma oid_text_roundtrip_witness :
  match build sample_malloc (Growable 8) 1 [AddOid 1 sample_oid_text] sample_world with
  | Ret (block, len) _ =>
      match CBS_asn1_oid_to_text sample_malloc (ztake len block) sample_world with
      | Ret (txt, n) _ => ztake n txt = sample_oid_text ++ [0] /\ n = zlen sample_oid_text + 1
      | Fail _ => ~ (malloc_total sample_malloc /\ zlen sample_oid_text < 2 ^ 60)
      | _ => False
      end
  | Fail _ => True
  | _ => False
  end /\
  match CBS_asn1_oid_to_text sample_malloc sample_oid sample_world with
  | Ret (txt, n) _ => exists text, ztake n txt = text ++ [0] /\
      match build sample_malloc (Growable 8) 1 [AddOid 1 text] sample_world with
      | Ret (block, len) _ => ztake len block = sample_oid
      | Fail _ => ~ (malloc_total sample_malloc /\ zlen sample_oid < 2 ^ 61)
      | _ => False
      end
  | Fail _ => True
  | _ => False
  end.
Proof.
  assert (Hok : bytes_ok sample_oid) by (repeat constructor; done).
  destruct (oid_text_roundtrip sample_malloc 8 1 sample_world sample_world sample_malloc_spec ltac:(done))
    as [Htext Hbytes].
  split; [exact (Htext sample_oid_text)|exact (Hbytes sample_oid Hok)].
Defined.

(** ** The elements of a SEQUENCE *)

(** What a client writes and reads, and the reader it uses. *)
Inductive item : Type := Int (v : Z) | Uint (v : Z) | Octets (data : list Z) | Bool (v : bool).
Inductive kind : Type := KInt | KUint | KOctets | KBool.

Definition kind_of (i : item) : kind :=
  match i with Int _ => KInt | Uint _ => KUint | Octets _ => KOctets | Bool _ => KBool end.

Definition item_ok (i : item) : Prop :=
  match i with
  | Int v => - 2 ^ 63 <= v < 2 ^ 63
  | Uint v => 0 <= v < 2 ^ 64
  | Octets data => bytes_ok data /\ zlen data < 2 ^ 64
  | Bool _ => True
  end.

Definition put_item (child : nat) (i : item) : call :=
  match i with
  | Int v => AddInt64 child v
  | Uint v => AddUint64 child v
  | Octets data => AddOctets child data
  | Bool v => AddBool child (if v then 1 else 0)
  end.

Definition get_item (k : kind) : M CBS item :=
  match k with
  | KInt => let! v := CBS_get_asn1_int64 in ret (Int v)
  | KUint => let! v := CBS_get_asn1_uint64 in ret (Uint v)
  | KOctets => let! data := CBS_get_asn1 CBS_ASN1_OCTETSTRING in ret (Octets data)
  | KBool => let! v := CBS_get_asn1_bool in ret (Bool v)
  end.

Fixpoint get_items (ks : list kind) : M CBS (list item) :=
  match ks with
  | [] => ret []
  | k :: r => let! i := get_item k in let! l := get_items r in ret (i :: l)
  end.

Definition put_sequence (top child : nat) (items : list item) : list call :=
  AddAsn1 top child CBS_ASN1_SEQUENCE :: (put_item child <$> items).
Definition get_sequence (ks : list kind) : M CBS (list item) :=
  let! contents := CBS_get_asn1 CBS_ASN1_SEQUENCE in parse_all (get_items ks) contents.

(** The tag and the contents of an item. *)
Definition item_tag (i : item) : Z :=
  match i with
  | Int _ | Uint _ => CBS_ASN1_INTEGER
  | Octets _ => CBS_ASN1_OCTETSTRING
  | Bool _ => CBS_ASN1_BOOLEAN
  end.
Definition item_body (i : item) : list Z :=
  match i with
  | Int v | Uint v => der_int v
  | Octets data => data
  | Bool v => [if v then 0xff else 0]
  end.
Definition item_der (i : item) : list Z := der_element (item_tag i) (item_body i).
Definition items_der (items : list item) : list Z := concat (item_der <$> items).

Lemma unsigned_be body : bytes_ok body -> 0 <= signed_be body -> be_value 0 body = signed_be body.
Proof.
  intros Hok. destruct body as [|b l]; [done|]. unfold signed_be. destruct (b <? 128); [done|].
  pose proof (be_value_range (b :: l) 0 0 Hok ltac:(done)) as Hr. cbn [Nat.add] in Hr. unfold zlen. lia.
Qed.

Lemma get_item_der i rest : item_ok i -> zlen (item_body i) < 2 ^ 32 ->
  get_item (kind_of i) (item_der i ++ rest) = Ret i rest.
Proof.
  intros Hok Hl. destruct i as [v|v|data|v]; cbn [kind_of get_item item_ok item_body] in *;
    unfold item_der; cbn [item_tag item_body].
  - change (2 ^ 63) with 9223372036854775808 in Hok.
    destruct (der_int_spec v) as (Hb & Hmin & Hs & _ & Hlen).
    { change (2 ^ 63) with 9223372036854775808. change (2 ^ 64) with 18446744073709551616. lia. }
    destruct (integer_readers (der_int v) rest Hb Hl) as [_ E]. rewrite Hmin, Hs in E.
    change (2 ^ 63) with 9223372036854775808 in Hlen.
    rewrite (proj2 (Z.leb_le (zlen (der_int v)) 8)) in E by (apply Hlen; lia).
    by rewrite (bind_Ret _ _ _ _ _ E).
  - change (2 ^ 64) with 18446744073709551616 in Hok.
    destruct (der_int_spec v) as (Hb & Hmin & Hs & _).
    { change (2 ^ 63) with 9223372036854775808. change (2 ^ 64) with 18446744073709551616. lia. }
    destruct (integer_readers (der_int v) rest Hb Hl) as [E _].
    rewrite unsigned_be, Hmin, Hs in E by (done || lia). rewrite (proj2 (Z.leb_le 0 v)) in E by lia.
    rewrite (proj2 (Z.ltb_lt v (2 ^ 64))) in E by (change (2 ^ 64) with 18446744073709551616; lia).
    by rewrite (bind_Ret _ _ _ _ _ E).
  - rewrite (bind_Ret _ _ _ data rest); [done|]. by rewrite get_asn1_element.
  - unfold CBS_get_asn1_bool. rewrite bind_assoc.
    rewrite (bind_Ret _ _ _ [if v then 0xff else 0] rest) by (by rewrite get_asn1_element).
    by destruct v.
Qed.

Lemma get_items_der items rest : Forall item_ok items -> Forall (fun i => zlen (item_body i) < 2 ^ 32) items ->
  get_items (kind_of <$> items) (items_der items ++ rest) = Ret items rest.
Proof.
  induction items as [|i items IH]; intros Hok Hl; [done|].
  inversion_clear Hok as [|? ? Hi Hok']. inversion_clear Hl as [|? ? Hli Hl'].
  unfold items_der. cbn [fmap list_fmap concat get_items]. rewrite <- app_assoc.
  rewrite (bind_Ret _ _ _ _ _ (get_item_der i _ Hi Hli)).
  by rewrite (bind_Ret _ _ _ _ _ (IH Hok' Hl')).
Qed.

(** ** Writing them *)

Definition fits (i : item) : bool := zlen (item_body i) <=? 0xfffffffe.

Lemma put_item_spec child i : spec (put_item child i) = spec_element child (item_tag i) (item_body i).
Proof. by destruct i as [| | |[]]. Qed.

Lemma put_items_run items : forall f outer,
  spec_run (put_item (f_ref f) <$> items) (f :: outer) =
  if forallb fits items then Ok (append (items_der items) f :: outer) else Dead.
Proof.
  induction items as [|i items IH]; intros f outer; cbn [fmap list_fmap spec_run forallb].
  - unfold items_der. cbn [fmap list_fmap concat]. by rewrite append_nil.
  - rewrite put_item_spec. unfold spec_element. fold (fits i). destruct (fits i); [|done]. cbn [andb].
    rewrite spec_add_top. cbn [vbind]. rewrite (IH (append _ f)).
    unfold items_der. cbn [fmap list_fmap concat]. by rewrite append_append.
Qed.

Lemma put_sequence_run top child items : child <> top ->
  spec_run (put_sequence top child items) [top_frame top] =
  if forallb fits items
  then Ok [Frame child 1 true (items_der items); append (der_tag CBS_ASN1_SEQUENCE) (top_frame top)]
  else Dead.
Proof.
  intros Hne. unfold put_sequence. cbn [spec_run spec]. unfold spec_asn1.
  rewrite (spec_add_top _ (top_frame top) []). cbn [vbind].
  rewrite (put_items_run items (Frame child 1 true [])). by destruct (forallb fits items).
Qed.

Lemma put_sequence_build top child items : child <> top ->
  spec_build top (put_sequence top child items) =
  if forallb fits items && (zlen (items_der items) <=? 0xfffffffe)
  then Some (der_element CBS_ASN1_SEQUENCE (items_der items)) else None.
Proof.
  intros Hne. unfold spec_build. rewrite put_sequence_run by done.
  destruct (forallb fits items); [|done]. cbn [andb]. unfold spec_flush. cbn [close_to append f_ref].
  rewrite (proj2 (Nat.eqb_neq child top)) by done. unfold enclose, prefix. cbn [f_data f_asn1 append].
  rewrite app_nil_r. destruct (_ <=? 0xfffffffe); [|done]. cbn [append f_ref f_data top_frame].
  rewrite Nat.eqb_refl. cbn [f_data append]. unfold der_element, der_header.
  by rewrite <- app_assoc.
Qed.

Lemma put_items_allowed items : forall f outer, Forall item_ok items ->
  allowed_run (put_item (f_ref f) <$> items) (f :: outer) = true.
Proof.
  induction items as [|i items IH]; intros f outer Hok; [done|]. inversion_clear Hok as [|? ? Hi Hok'].
  cbn [fmap list_fmap allowed_run]. apply andb_true_iff. split.
  - apply bool_decide_eq_true_2. split; [destruct i; apply list_elem_of_here|by destruct i].
  - rewrite put_item_spec. unfold spec_element. destruct (_ <=? _); [|done].
    rewrite spec_add_top. by apply (IH (append _ f)).
Qed.

Lemma put_sequence_allowed top child items : child <> top -> Forall item_ok items ->
  allowed_run (put_sequence top child items) [top_frame top] = true.
Proof.
  intros Hne Hok. unfold put_sequence. cbn [allowed_run]. apply andb_true_iff. split.
  - apply bool_decide_eq_true_2. split; [apply list_elem_of_here|]. split; [|done].
    cbn. rewrite Nat.eqb_refl. by apply not_elem_of_cons; split; [|apply not_elem_of_nil].
  - cbn [spec]. unfold spec_asn1. rewrite (spec_add_top _ (top_frame top) []). cbn [vbind].
    by apply (put_items_allowed items (Frame child 1 true [])).
Qed.

(** C7: what the CBB writes the CBS reads back.  Any list of numbers, octet strings and
    booleans written as a SEQUENCE with [CBB_add_asn1], [CBB_add_asn1_int64],
    [CBB_add_asn1_uint64], [CBB_add_asn1_octet_string] and [CBB_add_asn1_bool] is read
    back unchanged by [CBS_get_asn1] and the typed readers, which use up the input: the
    implicit length prefixes, the tags and the minimal integers agree.  Writing fails
    only when the contents are longer than the four-byte length of cbb.c allows or there
    is no room for them. *)
Theorem cbb_cbs_roundtrip malloc st top child items w :
  malloc_spec malloc -> storage_ok st -> child <> top -> Forall item_ok items ->
  match build malloc st top (put_sequence top child items) w with
  | Ret (block, len) _ => get_sequence (kind_of <$> items) (ztake len block) = Ret items []
  | Fail _ => 0xfffffffe < zlen (items_der items) \/
              ~ enough_room malloc st top (put_sequence top child items)
  | _ => False
  end.
Proof.
  intros Hm Hst Hne Hok.
  pose proof (build_run malloc w top st (put_sequence top child items) Hm Hst
    (put_sequence_allowed top child items Hne Hok)) as H.
  rewrite put_sequence_build in H by done.
  assert (Hfit : zlen (items_der items) <= 0xfffffffe ->
    forallb fits items = true /\ Forall (fun i => zlen (item_body i) < 2 ^ 32) items).
  { clear. unfold items_der. induction items as [|i items IH]; [done|]. cbn [fmap list_fmap concat forallb].
    unfold item_der at 1, der_element at 1, der_header at 1. rewrite !zlen_app. intros Hl.
    pose proof (zlen_nonneg (der_tag (item_tag i))). pose proof (zlen_nonneg (der_length (zlen (item_body i)))).
    pose proof (zlen_nonneg (concat (item_der <$> items))). pose proof (zlen_nonneg (item_body i)).
    destruct IH as [IH1 IH2]; [lia|]. rewrite IH1. unfold fits. split; [solve_bool|].
    constructor; [change (2 ^ 32) with 4294967296; lia|done]. }
  destruct (build _ _ _ _ w) as [[block len] w'|w'| |]; try done.
  - destruct H as (E & _ & _). destruct (forallb fits items && _) eqn:Eb; [|done].
    apply andb_true_iff in Eb as [_ Eb%Z.leb_le]. destruct (Hfit Eb) as [_ Hl].
    injection E as <-. unfold get_sequence.
    rewrite (bind_Ret (CBS_get_asn1 CBS_ASN1_SEQUENCE) _ _ (items_der items) []).
    2: { rewrite <- (app_nil_r (der_element _ _)). rewrite get_asn1_element; [done|done|].
         change (2 ^ 32) with 4294967296. lia. }
    unfold parse_all. rewrite <- (app_nil_r (items_der items)). by rewrite get_items_der.
  - destruct H as [[H|H] _]; [|by right]. left.
    destruct (Z.lt_ge_cases 0xfffffffe (zlen (items_der items))) as [|Hl]; [done|].
    destruct (Hfit Hl) as [E _]. rewrite E, (proj2 (Z.leb_le _ _) Hl) in H. done.
Qed.

Definition sample_items : list item :=
  [Int (-129); Uint (2 ^ 64 - 1); Octets (replicate 200 7); Bool true; Int 0].

Lemma cbb_cbs_roundtrip_witness :
  match build sample_malloc (Growable 16) 1 (put_sequence 1 2 sample_items) sample_world with
  | Ret (block, len) _ => get_sequence (kind_of <$> sample_items) (ztake len block) = Ret sample_items []
  | Fail _ => 0xfffffffe < zlen (items_der sample_items) \/
              ~ enough_room sample_malloc (Growable 16) 1 (put_sequence 1 2 sample_items)
  | _ => False
  end.
Proof.
  apply cbb_cbs_roundtrip; [exact sample_malloc_spec|done|done|].
  repeat constructor; try done; apply Forall_replicate; done.
Defined.

(** ** SET OF *)

(** C33: [CBB_flush_asn1_set_of] puts the elements of the innermost open frame of [r]
    into DER order.  When it returns 1 the contents were a sequence of elements, and
    they are now those elements, each as it was and as often as it was, in ascending
    order of their encodings ([set_order] is the sorted permutation); nothing outside
    the contents has changed and the builder can be used on.  It refuses contents that
    do not parse, and leaves them as they were; otherwise it fails only for want of
    memory.  The internal assertion on the length holds, whatever [qsort] does with
    equal elements. *)
Theorem set_of_sorted malloc qsort b fixed top w r fs :
  malloc_spec malloc -> qsort_spec qsort -> rep b fixed top w fs -> r ∈ refs fs ->
  (forall fs1, spec_flush r fs = Ok fs1 -> zlen (flat fs1) < 2 ^ 60) ->
  (forall els, Sorted elem_le (set_order els) /\ set_order els ≡ₚ els) /\
  match CBB_flush_asn1_set_of malloc qsort r w with
  | Ret _ w' => exists f outer els, spec_flush r fs = Ok (f :: outer) /\
      elements (f_data f) = Some els /\ f_data f = concat els /\
      rep b fixed top w' (with_data (concat (set_order els)) f :: outer)
  | Fail w' =>
      (exists f outer, spec_flush r fs = Ok (f :: outer) /\ rep b fixed top w' (f :: outer) /\
         (elements (f_data f) = None \/ ~ (malloc_total malloc /\ zlen (f_data f) < 2 ^ 58))) \/
      (poisoned b fixed top w' /\ forall fs1, spec_flush r fs = Ok fs1 -> ~ room malloc fixed (zlen (flat fs1)))
  | _ => False
  end.
Proof.
  intros Hm Hq Hw Hr Hs. split.
  { intros els. split; [apply Sorted_merge_sort, _|apply merge_sort_Permutation]. }
  pose proof (set_of_run malloc Hm qsort Hq b fixed top w r fs Hw Hr Hs) as H.
  unfold set_of_outcome in H. destruct (CBB_flush_asn1_set_of malloc qsort r w) as [[] w'|w'| |]; try done.
Qed.

(** A SEQUENCE with a SET OF whose two INTEGERs are in the wrong order. *)
Definition sample_set_calls : list call :=
  [AddAsn1 1 2 CBS_ASN1_SEQUENCE; AddAsn1 2 3 0x20000011; AddInt64 3 300; AddInt64 3 5].
Definition sample_set_world : world := Eval vm_compute in
  match (init sample_malloc (Growable 4) 1 ;;! run sample_malloc sample_set_calls) sample_world with
  | Ret _ w => w
  | _ => sample_world
  end.
Definition sample_set_frames : list frame :=
  [Frame 3 1 true [2; 2; 1; 44; 2; 1; 5]; Frame 2 1 true [0x31]; Frame 1 0 false [0x30]].

Lemma sample_set_rep : rep 1 None 1 sample_set_world sample_set_frames.
Proof.
  split; [eexists; split; [vm_compute; reflexivity|by split]|].
  split; [by repeat constructor|]. split; [|split].
  - compute_done.
  - repeat split; vm_compute; reflexivity.
  - eexists. split; [vm_compute; reflexivity|].
    split; [repeat split; vm_compute; done|]. split; [done|]. by eexists.
Qed.

Lemma set_of_sorted_witness :
  (forall els, Sorted elem_le (set_order els) /\ set_order els ≡ₚ els) /\
  match CBB_flush_asn1_set_of sample_malloc insertion_sort 3 sample_set_world with
  | Ret _ w' => exists f outer els, spec_flush 3 sample_set_frames = Ok (f :: outer) /\
      elements (f_data f) = Some els /\ f_data f = concat els /\
      rep 1 None 1 w' (with_data (concat (set_order els)) f :: outer)
  | Fail w' =>
      (exists f outer, spec_flush 3 sample_set_frames = Ok (f :: outer) /\ rep 1 None 1 w' (f :: outer) /\
         (elements (f_data f) = None \/ ~ (malloc_total sample_malloc /\ zlen (f_data f) < 2 ^ 58))) \/
      (poisoned 1 None 1 w' /\
         forall fs1, spec_flush 3 sample_set_frames = Ok fs1 -> ~ room sample_malloc None (zlen (flat fs1)))
  | _ => False
  end.
Proof.
  assert (Hr : (3%nat) ∈ refs sample_set_frames) by apply list_elem_of_here.
  assert (Hs : forall fs1, spec_flush 3 sample_set_frames = Ok fs1 -> zlen (flat fs1) < 2 ^ 60)
    by (intros fs1 [= <-]; reflexivity).
  exact (set_of_sorted sample_malloc insertion_sort 1 None 1 sample_set_world 3 sample_set_frames
    sample_malloc_spec insertion_sort_spec sample_set_rep Hr Hs).
Defined.
