(* ===== verification/Base64.v ===== *)
(** * BoringSSL base64 (crypto/base64/base64.c)

    The constant-time character conversions (with the helpers of
    crypto/internal.h they call), the block coders and the streaming coders.  An
    output buffer is the list of the bytes written to it; the NUL that the encoders
    store after the last byte is left out. *)
From S2P Require Import Prelude.

(** ** Constant-time helpers on 64-bit words *)

Definition constant_time_msb_w (a : Z) : Z := u64 (0 - Z.shiftr a 63).
Definition constant_time_is_zero_w (a : Z) : Z :=
  constant_time_msb_w (Z.land (u64 (Z.lnot a)) (u64 (a - 1))).
Definition constant_time_eq_w (a b : Z) : Z := constant_time_is_zero_w (Z.lxor a b).
Definition constant_time_eq_8 (a b : Z) : Z := u8 (constant_time_eq_w a b).
Definition constant_time_select_w (mask a b : Z) : Z :=
  Z.lor (Z.land mask a) (Z.land (u64 (Z.lnot mask)) b).
Definition constant_time_select_8 (mask a b : Z) : Z := u8 (constant_time_select_w mask a b).

Definition constant_time_lt_args_8 (a b : Z) : Z := u8 (constant_time_msb_w (u64 (a - b))).
Definition constant_time_in_range_8 (a min max : Z) : Z :=
  constant_time_lt_args_8 (u8 (a - min)) (u8 (max - min + 1)).

(** ** Encoding *)

(** ASCII codes. *)
Definition chr_plus : Z := 43.
Definition chr_slash : Z := 47.
Definition chr_0 : Z := 48.
Definition chr_9 : Z := 57.
Definition chr_equals : Z := 61.
Definition chr_A : Z := 65.
Definition chr_Z : Z := 90.
Definition chr_a : Z := 97.
Definition chr_z : Z := 122.
Definition chr_nl : Z := 10.

Definition conv_bin2ascii (x : Z) : Z :=
  let a := Z.land x 0x3f in
  let ret := constant_time_select_8 (constant_time_eq_8 a 62) chr_plus chr_slash in
  let ret := constant_time_select_8 (constant_time_lt_args_8 a 62) (u8 (a - 52 + chr_0)) ret in
  let ret := constant_time_select_8 (constant_time_lt_args_8 a 52) (u8 (a - 26 + chr_a)) ret in
  constant_time_select_8 (constant_time_lt_args_8 a 26) (u8 (a + chr_A)) ret.

(** The argument of each [conv_bin2ascii] call is converted to [uint8_t]. *)
Definition conv (l : Z) : Z := conv_bin2ascii (u8 l).

(** [*out_len], or [None] for a return of 0. *)
Definition EVP_EncodedLength (len : Z) : option Z :=
  if u64 (len + 2) <? len then None else
  let len := u64 (len + 2) / 3 in
  if negb (Z.shiftr (u64 (Z.shiftl len 2)) 2 =? len) then None else
  let len := u64 (Z.shiftl len 2) in
  if u64 (len + 1) <? len then None else Some (u64 (len + 1)).

Fixpoint EVP_EncodeBlock (src : list Z) : list Z :=
  match src with
  | [] => []
  | [a] =>
      let l := Z.shiftl a 16 in
      [conv (Z.shiftr l 18); conv (Z.shiftr l 12); chr_equals; chr_equals]
  | [a; b] =>
      let l := Z.lor (Z.shiftl a 16) (Z.shiftl b 8) in
      [conv (Z.shiftr l 18); conv (Z.shiftr l 12); conv (Z.shiftr l 6); chr_equals]
  | a :: b :: c :: r =>
      let l := Z.lor (Z.lor (Z.shiftl a 16) (Z.shiftl b 8)) c in
      [conv (Z.shiftr l 18); conv (Z.shiftr l 12); conv (Z.shiftr l 6); conv l] ++
      EVP_EncodeBlock r
  end.

(** [EVP_ENCODE_CTX]: the first [data_used] bytes of [data], and the flags. *)
Record EVP_ENCODE_CTX : Type := Ctx {
  data : list Z;
  eof_seen : bool;
  error_encountered : bool }.
Definition DATA_SIZE : Z := 48.
Definition INT_MAX : Z := 2 ^ 31 - 1.

Definition EVP_EncodeInit : EVP_ENCODE_CTX := Ctx [] false false.
Definition EVP_DecodeInit : EVP_ENCODE_CTX := Ctx [] false false.
Definition set_data (l : list Z) (ctx : EVP_ENCODE_CTX) : EVP_ENCODE_CTX :=
  Ctx l (eof_seen ctx) (error_encountered ctx).

(** The loop over the full lines of the input: the bytes written, the rest of the
    input and [total], or the early return on its overflow ([None]). *)
Fixpoint encode_lines (fuel : nat) (inp : list Z) (total : Z)
    : option (list Z * list Z * Z) :=
  match fuel with
  | O => Some ([], inp, total)
  | S k =>
      if DATA_SIZE <=? zlen inp then
        let enc := EVP_EncodeBlock (ztake DATA_SIZE inp) in
        let total' := u64 (total + zlen enc + 1) in
        if total' <? total then None
        else match encode_lines k (zdrop DATA_SIZE inp) total' with
             | None => None
             | Some (o, rest, t) => Some (enc ++ [chr_nl] ++ o, rest, t)
             end
      else Some ([], inp, total)
  end.

(** The bytes written, [*out_len], and the context; the early return of the loop
    is [None]. *)
Definition EVP_EncodeUpdate (ctx : EVP_ENCODE_CTX) (inp : list Z)
    : option (list Z * Z * EVP_ENCODE_CTX) :=
  if zlen inp =? 0 then Some ([], 0, ctx)
  else if zlen inp <? DATA_SIZE - zlen (data ctx)
  then Some ([], 0, set_data (data ctx ++ inp) ctx)
  else
    let '(out1, inp1, total) :=
      if negb (zlen (data ctx) =? 0) then
        let todo := DATA_SIZE - zlen (data ctx) in
        let enc := EVP_EncodeBlock (data ctx ++ ztake todo inp) in
        (enc ++ [chr_nl], zdrop todo inp, zlen enc + 1)
      else ([], inp, 0) in
    match encode_lines (S (length inp1)) inp1 total with
    | None => None
    | Some (out2, rest, total) =>
        Some (out1 ++ out2, (if INT_MAX <? total then 0 else total), set_data rest ctx)
    end.

Definition EVP_EncodeFinal (ctx : EVP_ENCODE_CTX) : list Z * Z * EVP_ENCODE_CTX :=
  if zlen (data ctx) =? 0 then ([], 0, ctx)
  else
    let out := EVP_EncodeBlock (data ctx) ++ [chr_nl] in
    (out, zlen out, set_data [] ctx).

(** ** Decoding *)

Definition EVP_DecodedLength (len : Z) : option Z :=
  if negb (len mod 4 =? 0) then None else Some (u64 (len / 4 * 3)).

Definition base64_ascii_to_bin (a : Z) : Z :=
  let is_upper := constant_time_in_range_8 a chr_A chr_Z in
  let is_lower := constant_time_in_range_8 a chr_a chr_z in
  let is_digit := constant_time_in_range_8 a chr_0 chr_9 in
  let is_plus := constant_time_eq_8 a chr_plus in
  let is_slash := constant_time_eq_8 a chr_slash in
  let is_equals := constant_time_eq_8 a chr_equals in
  let ret := 0 in
  let ret := u8 (Z.lor ret (Z.land is_upper (a - chr_A))) in
  let ret := u8 (Z.lor ret (Z.land is_lower (a - chr_a + 26))) in
  let ret := u8 (Z.lor ret (Z.land is_digit (a - chr_0 + 52))) in
  let ret := u8 (Z.lor ret (Z.land is_plus 62)) in
  let ret := u8 (Z.lor ret (Z.land is_slash 63)) in
  let is_valid := Z.lor (Z.lor (Z.lor (Z.lor (Z.lor is_upper is_lower) is_digit)
                                is_plus) is_slash) is_equals in
  u8 (Z.lor ret (Z.lnot is_valid)).

Definition bit (b : bool) (n : Z) : Z := if b then Z.shiftl 1 n else 0.

(** The bytes written, or [None] for a return of 0. *)
Definition base64_decode_quad (i0 i1 i2 i3 : Z) : option (list Z) :=
  let a := base64_ascii_to_bin i0 in
  let b := base64_ascii_to_bin i1 in
  let c := base64_ascii_to_bin i2 in
  let d := base64_ascii_to_bin i3 in
  if (a =? 0xff) || (b =? 0xff) || (c =? 0xff) || (d =? 0xff) then None else
  let v := Z.lor (Z.lor (Z.lor (Z.shiftl a 18) (Z.shiftl b 12)) (Z.shiftl c 6)) d in
  let padding_pattern :=
    Z.lor (Z.lor (Z.lor (bit (i0 =? chr_equals) 3) (bit (i1 =? chr_equals) 2))
                 (bit (i2 =? chr_equals) 1)) (bit (i3 =? chr_equals) 0) in
  match padding_pattern with
  | 0 => Some [u8 (Z.shiftr v 16); u8 (Z.shiftr v 8); u8 v]
  | 1 => Some [u8 (Z.shiftr v 16); u8 (Z.shiftr v 8)]
  | 3 => Some [u8 (Z.shiftr v 16)]
  | _ => None
  end.

Definition is_space (c : Z) : bool := (c =? 32) || (c =? 9) || (c =? 13) || (c =? 10).

Definition set_error (ctx : EVP_ENCODE_CTX) : EVP_ENCODE_CTX :=
  Ctx (data ctx) (eof_seen ctx) true.

(** One round of the loop of [EVP_DecodeUpdate]: the bytes written and the context;
    [None] for the [return -1], with the context it leaves. *)
Definition decode_char (ctx : EVP_ENCODE_CTX) (c : Z)
    : option (list Z) * EVP_ENCODE_CTX :=
  if is_space c then (Some [], ctx)
  else if eof_seen ctx then (None, set_error ctx)
  else
    let d := data ctx ++ [c] in
    match d with
    | [i0; i1; i2; i3] =>
        match base64_decode_quad i0 i1 i2 i3 with
        | None => (None, set_error (set_data d ctx))
        | Some bs => (Some bs, Ctx [] (eof_seen ctx || (zlen bs <? 3)) (error_encountered ctx))
        end
    | _ => (Some [], set_data d ctx)
    end.

Fixpoint decode_chars (ctx : EVP_ENCODE_CTX) (inp : list Z)
    : option (list Z) * EVP_ENCODE_CTX :=
  match inp with
  | [] => (Some [], ctx)
  | c :: r =>
      match decode_char ctx c with
      | (None, ctx') => (None, ctx')
      | (Some bs, ctx') =>
          match decode_chars ctx' r with
          | (None, ctx'') => (None, ctx'')
          | (Some bs', ctx'') => (Some (bs ++ bs'), ctx'')
          end
      end
  end.

(** The return value, the bytes counted by [*out_len], and the context. *)
Definition EVP_DecodeUpdate (ctx : EVP_ENCODE_CTX) (inp : list Z)
    : Z * list Z * EVP_ENCODE_CTX :=
  if error_encountered ctx then (-1, [], ctx)
  else match decode_chars ctx inp with
       | (None, ctx') => (-1, [], ctx')
       | (Some bs, ctx') =>
           if INT_MAX <? zlen bs then (-1, [], set_error ctx')
           else ((if eof_seen ctx' then 0 else 1), bs, ctx')
       end.

Definition EVP_DecodeFinal (ctx : EVP_ENCODE_CTX) : Z :=
  if error_encountered ctx || negb (zlen (data ctx) =? 0) then -1 else 1.

(** The loop of [EVP_DecodeBase64]. *)
Fixpoint decode_quads (inp : list Z) : option (list Z) :=
  match inp with
  | [] => Some []
  | i0 :: i1 :: i2 :: i3 :: r =>
      match base64_decode_quad i0 i1 i2 i3 with
      | None => None
      | Some bs =>
          if negb (zlen bs =? 3) && negb (zlen r =? 0) then None
          else match decode_quads r with
               | None => None
               | Some bs' => Some (bs ++ bs')
               end
      end
  | _ => None
  end.

Definition EVP_DecodeBase64 (max_out : Z) (inp : list Z) : option (list Z) :=
  if negb (zlen inp mod 4 =? 0) then None else
  match EVP_DecodedLength (zlen inp) with
  | None => None
  | Some max_len => if max_out <? max_len then None else decode_quads inp
  end.

Fixpoint drop_while (p : Z -> bool) (l : list Z) : list Z :=
  match l with
  | [] => []
  | b :: r => if p b then drop_while p r else l
  end.
Definition drop_last_while (p : Z -> bool) (l : list Z) : list Z := rev (drop_while p (rev l)).

(** [dst] and the returned length; [None] for a return of -1. *)
Definition EVP_DecodeBlock (src : list Z) : option (list Z) :=
  let src1 := drop_while (fun c => (c =? 32) || (c =? 9)) src in
  let src2 := drop_last_while is_space src1 in
  match EVP_DecodedLength (zlen src2) with
  | None => None
  | Some dst_len =>
      if INT_MAX <? dst_len then None else
      match EVP_DecodeBase64 dst_len src2 with
      | None => None
      | Some bs => Some (bs ++ replicate (Z.to_nat ((3 - zlen bs mod 3) mod 3)) 0)
      end
  end.
