(* ===== verification/Base64Spec.v ===== *)
(** * BoringSSL base64: theorems

    The constant-time tables are the standard's, decoding inverts encoding, and the
    streaming coders do not depend on how the input is cut. *)
From S2P Require Import Prelude Base64.

(** The alphabet of RFC 4648, by value. *)
Definition alphabet : list Z :=
  map (fun n => 65 + Z.of_nat n) (seq 0 26) ++ map (fun n => 97 + Z.of_nat n) (seq 0 26) ++
  map (fun n => 48 + Z.of_nat n) (seq 0 10) ++ [43; 47].
Definition b64_char (v : Z) : Z := nth (Z.to_nat v) alphabet 0.
Fixpoint index_of (c : Z) (l : list Z) : option Z :=
  match l with
  | [] => None
  | x :: r => if x =? c then Some 0
              else match index_of c r with Some i => Some (i + 1) | None => None end
  end.

(** A character of the coded text. *)
Definition is_b64 (c : Z) : Prop := exists x, 0 <= x < 64 /\ c = b64_char x.

(** Lines of 48 input bytes, each followed by a newline; [tail] is what remains. *)
Fixpoint lines_of (fuel : nat) (l : list Z) : list Z * list Z :=
  match fuel with
  | O => ([], l)
  | S k => if 48 <=? zlen l
           then let '(o, r) := lines_of k (zdrop 48 l) in
                (EVP_EncodeBlock (ztake 48 l) ++ [chr_nl] ++ o, r)
           else ([], l)
  end.

(** The encoder's calls on a list of chunks, their output, and the final call. *)
Fixpoint encode_chunks (ctx : EVP_ENCODE_CTX) (chunks : list (list Z)) : option (list Z) :=
  match chunks with
  | [] => Some (EVP_EncodeFinal ctx).1.1
  | c :: r =>
      match EVP_EncodeUpdate ctx c with
      | None => None
      | Some (o, _, ctx') =>
          match encode_chunks ctx' r with None => None | Some o' => Some (o ++ o') end
      end
  end.

(** The decoder's calls on a list of chunks: the bytes, and the last return value. *)
Fixpoint decode_chunks (ctx : EVP_ENCODE_CTX) (chunks : list (list Z))
    : option (list Z) * EVP_ENCODE_CTX :=
  match chunks with
  | [] => (Some [], ctx)
  | c :: r =>
      let '(rc, o, ctx') := EVP_DecodeUpdate ctx c in
      if rc =? -1 then (None, ctx')
      else match decode_chunks ctx' r with
           | (None, c2) => (None, c2)
           | (Some o', c2) => (Some (o ++ o'), c2)
           end
  end.

(** ** The tables *)

Lemma conv_table a : is_byte a -> conv_bin2ascii a = b64_char (a mod 64).
Proof.
  intros Ha. unfold is_byte in Ha.
  assert (H : forallb (fun n => conv_bin2ascii (Z.of_nat n) =? b64_char (Z.of_nat n mod 64))
                (seq 0 256) = true) by (vm_compute; reflexivity).
  rewrite forallb_forall in H. specialize (H (Z.to_nat a) ltac:(apply in_seq; lia)).
  rewrite Z2Nat.id in H by lia. by apply Z.eqb_eq.
Qed.

Definition bin_table (c : Z) : Z :=
  match index_of c alphabet with Some i => i | None => if c =? chr_equals then 0 else 0xff end.

Lemma ascii_table c : is_byte c -> base64_ascii_to_bin c = bin_table c.
Proof.
  intros Hc. unfold is_byte in Hc.
  assert (H : forallb (fun n => base64_ascii_to_bin (Z.of_nat n) =? bin_table (Z.of_nat n))
                (seq 0 256) = true) by (vm_compute; reflexivity).
  rewrite forallb_forall in H. specialize (H (Z.to_nat c) ltac:(apply in_seq; lia)).
  rewrite Z2Nat.id in H by lia. by apply Z.eqb_eq.
Qed.

(** Each character stands for its value, and is neither padding nor space. *)
Lemma char_facts x : 0 <= x < 64 ->
  base64_ascii_to_bin (b64_char x) = x /\ (b64_char x =? chr_equals) = false /\
  is_space (b64_char x) = false.
Proof.
  intros Hx.
  assert (H : forallb (fun n => let x := Z.of_nat n in
     (base64_ascii_to_bin (b64_char x) =? x) && negb (b64_char x =? chr_equals) &&
     negb (is_space (b64_char x))) (seq 0 64) = true) by (vm_compute; reflexivity).
  rewrite forallb_forall in H. specialize (H (Z.to_nat x) ltac:(apply in_seq; lia)).
  rewrite Z2Nat.id in H by lia. cbv zeta in H.
  apply andb_prop in H as [[H1 H2]%andb_prop H3].
  apply Z.eqb_eq in H1. apply negb_true_iff in H2, H3. done.
Qed.

Lemma conv_char l : 0 <= l -> conv l = b64_char (l mod 64).
Proof.
  intros Hl. unfold conv. rewrite conv_table by (apply wrap_range; lia).
  f_equal. unfold wrap. change (2 ^ 8) with (64 * 4).
  rewrite Z.rem_mul_r, Z.mul_comm, Z.mod_add, Z.mod_mod by lia. done.
Qed.

(** ** One quad *)

Definition sextet (l n : Z) : Z := l / 2 ^ n mod 64.

Lemma sextet_range l n : 0 <= sextet l n < 64.
Proof. apply Z.mod_pos_bound. lia. Qed.

Lemma sextets_sum l : 0 <= l < 2 ^ 24 ->
  Z.lor (Z.lor (Z.lor (Z.shiftl (sextet l 18) 18) (Z.shiftl (sextet l 12) 12))
    (Z.shiftl (sextet l 6) 6)) (sextet l 0) = l.
Proof.
  intros Hl.
  pose proof (sextet_range l 18); pose proof (sextet_range l 12);
  pose proof (sextet_range l 6); pose proof (sextet_range l 0).
  rewrite <- !Z.lor_assoc.
  rewrite (Z.lor_comm (Z.shiftl (sextet l 6) 6)), lor_shiftl_add by (lia || (split; [lia|]; done) || (change (2 ^ 6) with 64; lia)).
  rewrite (Z.lor_comm (Z.shiftl (sextet l 12) 12)), lor_shiftl_add
    by (try lia; change (2 ^ 6) with 64; change (2 ^ 12) with 4096; lia).
  rewrite (Z.lor_comm (Z.shiftl (sextet l 18) 18)), lor_shiftl_add
    by (try lia; change (2 ^ 6) with 64; change (2 ^ 12) with 4096; change (2 ^ 18) with 262144; lia).
  unfold sextet in *. change (2 ^ 0) with 1 in *. change (2 ^ 6) with 64 in *.
  change (2 ^ 12) with 4096 in *. change (2 ^ 18) with 262144 in *. change (2 ^ 24) with 16777216 in *.
  rewrite Z.div_1_r. Z.to_euclidean_division_equations; lia.
Qed.

Lemma triple_value a b c : is_byte a -> is_byte b -> is_byte c ->
  Z.lor (Z.lor (Z.shiftl a 16) (Z.shiftl b 8)) c = a * 65536 + b * 256 + c /\
  0 <= a * 65536 + b * 256 + c < 2 ^ 24.
Proof.
  unfold is_byte. intros Ha Hb Hc. change (2 ^ 24) with 16777216. split; [|lia].
  rewrite <- Z.lor_assoc, (Z.lor_comm (Z.shiftl b 8)), lor_shiftl_add by (lia || exact Hc).
  change (2 ^ 8) with 256. rewrite Z.lor_comm, lor_shiftl_add; [change (2 ^ 16) with 65536; lia|lia|].
  change (2 ^ 16) with 65536. lia.
Qed.

(** The bytes that a quad of value [l] decodes to. *)
Lemma value_bytes a b c : is_byte a -> is_byte b -> is_byte c ->
  let l := a * 65536 + b * 256 + c in
  u8 (Z.shiftr l 16) = a /\ u8 (Z.shiftr l 8) = b /\ u8 l = c.
Proof.
  intros Ha Hb Hc l. unfold is_byte in *. unfold wrap. rewrite !shiftr_div by lia.
  change (2 ^ 8) with 256. change (2 ^ 16) with 65536. unfold l.
  split_and!; Z.to_euclidean_division_equations; lia.
Qed.

Lemma conv_shift l n : 0 <= l -> 0 <= n -> conv (Z.shiftr l n) = b64_char (sextet l n).
Proof.
  intros Hl Hn. rewrite conv_char by (by apply Z.shiftr_nonneg). by rewrite shiftr_div.
Qed.

Lemma conv_low l : 0 <= l -> conv l = b64_char (sextet l 0).
Proof. intros Hl. rewrite conv_char by done. unfold sextet. by rewrite Z.div_1_r. Qed.

Lemma quad_chars x3 x2 x1 x0 :
  0 <= x3 < 64 -> 0 <= x2 < 64 -> 0 <= x1 < 64 -> 0 <= x0 < 64 ->
  let v := Z.lor (Z.lor (Z.lor (Z.shiftl x3 18) (Z.shiftl x2 12)) (Z.shiftl x1 6)) x0 in
  base64_decode_quad (b64_char x3) (b64_char x2) (b64_char x1) (b64_char x0) =
  Some [u8 (Z.shiftr v 16); u8 (Z.shiftr v 8); u8 v].
Proof.
  intros H3 H2 H1 H0 v. unfold base64_decode_quad.
  destruct (char_facts x3 H3) as (-> & -> & _), (char_facts x2 H2) as (-> & -> & _),
    (char_facts x1 H1) as (-> & -> & _), (char_facts x0 H0) as (-> & -> & _).
  bool_false (x3 =? 0xff). bool_false (x2 =? 0xff). bool_false (x1 =? 0xff).
  bool_false (x0 =? 0xff). done.
Qed.

Lemma equals_bin : base64_ascii_to_bin chr_equals = 0.
Proof. reflexivity. Qed.

Lemma quad_pad1 x3 x2 x1 : 0 <= x3 < 64 -> 0 <= x2 < 64 -> 0 <= x1 < 64 ->
  let v := Z.lor (Z.lor (Z.lor (Z.shiftl x3 18) (Z.shiftl x2 12)) (Z.shiftl x1 6)) 0 in
  base64_decode_quad (b64_char x3) (b64_char x2) (b64_char x1) chr_equals =
  Some [u8 (Z.shiftr v 16); u8 (Z.shiftr v 8)].
Proof.
  intros H3 H2 H1 v. unfold base64_decode_quad.
  destruct (char_facts x3 H3) as (-> & -> & _), (char_facts x2 H2) as (-> & -> & _),
    (char_facts x1 H1) as (-> & -> & _). rewrite equals_bin.
  bool_false (x3 =? 0xff). bool_false (x2 =? 0xff). bool_false (x1 =? 0xff). done.
Qed.

Lemma quad_pad2 x3 x2 : 0 <= x3 < 64 -> 0 <= x2 < 64 ->
  let v := Z.lor (Z.lor (Z.lor (Z.shiftl x3 18) (Z.shiftl x2 12)) (Z.shiftl 0 6)) 0 in
  base64_decode_quad (b64_char x3) (b64_char x2) chr_equals chr_equals =
  Some [u8 (Z.shiftr v 16)].
Proof.
  intros H3 H2 v. unfold base64_decode_quad.
  destruct (char_facts x3 H3) as (-> & -> & _), (char_facts x2 H2) as (-> & -> & _).
  rewrite equals_bin. bool_false (x3 =? 0xff). bool_false (x2 =? 0xff). done.
Qed.

(** The characters of a block of at most three bytes. *)
Definition quad_of (l : list Z) : list Z :=
  match l with
  | [a] => let v := a * 65536 in
      [b64_char (sextet v 18); b64_char (sextet v 12); chr_equals; chr_equals]
  | [a; b] => let v := a * 65536 + b * 256 in
      [b64_char (sextet v 18); b64_char (sextet v 12); b64_char (sextet v 6); chr_equals]
  | a :: b :: c :: _ => let v := a * 65536 + b * 256 + c in
      [b64_char (sextet v 18); b64_char (sextet v 12); b64_char (sextet v 6); b64_char (sextet v 0)]
  | _ => []
  end.

Lemma is_byte_0 : is_byte 0.
Proof. done. Qed.

Lemma encode_one a : is_byte a -> EVP_EncodeBlock [a] = quad_of [a].
Proof.
  intros Ha. cbn [EVP_EncodeBlock quad_of]. unfold is_byte in Ha.
  rewrite !conv_shift by (rewrite ?Z.shiftl_nonneg; lia).
  by rewrite Z.shiftl_mul_pow2.
Qed.

Lemma encode_two a b : is_byte a -> is_byte b -> EVP_EncodeBlock [a; b] = quad_of [a; b].
Proof.
  intros Ha Hb. cbn [EVP_EncodeBlock quad_of].
  destruct (triple_value a b 0 Ha Hb is_byte_0) as [E Hr].
  rewrite Z.lor_0_r, Z.add_0_r in *. rewrite E, !conv_shift by lia. done.
Qed.

Lemma encode_three a b c r : is_byte a -> is_byte b -> is_byte c ->
  EVP_EncodeBlock (a :: b :: c :: r) = quad_of [a; b; c] ++ EVP_EncodeBlock r.
Proof.
  intros Ha Hb Hc. cbn [EVP_EncodeBlock quad_of].
  destruct (triple_value a b c Ha Hb Hc) as [E Hr].
  by rewrite E, !conv_shift, conv_low by lia.
Qed.

(** A quad decodes to its block. *)
Lemma decode_quad_of l i0 i1 i2 i3 :
  bytes_ok l -> 1 <= zlen l <= 3 -> quad_of l = [i0; i1; i2; i3] ->
  base64_decode_quad i0 i1 i2 i3 = Some l.
Proof.
  intros Hl Hlen. destruct l as [|a [|b [|c [|d l]]]]; try (cbn in Hlen; unfold zlen in Hlen; cbn in Hlen; lia).
  - inversion Hl as [|? ? Ha _]; subst. cbn [quad_of]. intros [= <- <- <- <-].
    pose proof (triple_value a 0 0 Ha is_byte_0 is_byte_0) as [_ Hr].
    replace (a * 65536 + 0 * 256 + 0) with (a * 65536) in Hr by lia.
    rewrite quad_pad2 by apply sextet_range.
    assert (E : Z.shiftl 0 6 = Z.shiftl (sextet (a * 65536) 6) 6 /\ 0 = sextet (a * 65536) 0).
    { unfold sextet. change (2 ^ 6) with 64. change (2 ^ 0) with 1. rewrite Z.div_1_r.
      replace (a * 65536) with (a * 1024 * 64) by lia. rewrite Z.div_mul, Z.mod_mul by lia.
      replace (a * 1024) with (a * 16 * 64) by lia. by rewrite Z.mod_mul. }
    destruct E as [E1 E2]. rewrite E1. rewrite E2 at 1. rewrite sextets_sum by done.
    destruct (value_bytes a 0 0 Ha is_byte_0 is_byte_0) as [E _].
    replace (a * 65536 + 0 * 256 + 0) with (a * 65536) in E by lia. by rewrite E.
  - inversion Hl as [|? ? Ha Hl']; subst. inversion Hl' as [|? ? Hb _]; subst.
    cbn [quad_of]. intros [= <- <- <- <-].
    pose proof (triple_value a b 0 Ha Hb is_byte_0) as [_ Hr]. rewrite Z.add_0_r in Hr.
    rewrite quad_pad1 by apply sextet_range.
    assert (E2 : 0 = sextet (a * 65536 + b * 256) 0).
    { unfold sextet. change (2 ^ 0) with 1. rewrite Z.div_1_r.
      replace (a * 65536 + b * 256) with ((a * 1024 + b * 4) * 64) by lia. by rewrite Z.mod_mul. }
    rewrite E2 at 1 2. rewrite sextets_sum by done.
    destruct (value_bytes a b 0 Ha Hb is_byte_0) as [E1 [E3 _]]. rewrite Z.add_0_r in E1, E3.
    by rewrite E1, E3.
  - inversion Hl as [|? ? Ha Hl']; subst. inversion Hl' as [|? ? Hb Hl'']; subst.
    inversion Hl'' as [|? ? Hc _]; subst. cbn [quad_of]. intros [= <- <- <- <-].
    pose proof (triple_value a b c Ha Hb Hc) as [_ Hr].
    rewrite quad_chars by apply sextet_range. rewrite sextets_sum by done.
    by destruct (value_bytes a b c Ha Hb Hc) as (-> & -> & ->).
Qed.

(** ** Blocks *)

(** Induction by blocks of three bytes. *)
Lemma triples_ind (P : list Z -> Prop) :
  P [] -> (forall a, P [a]) -> (forall a b, P [a; b]) ->
  (forall a b c r, P r -> P (a :: b :: c :: r)) -> forall l, P l.
Proof.
  intros H0 H1 H2 H3 l. enough (H : P l /\ (forall a, P (a :: l)) /\ forall a b, P (a :: b :: l)) by apply H.
  induction l as [|x l (IH0 & IH1 & IH2)]; [done|]. split; [done|]. split; [done|].
  intros a b. by apply H3.
Qed.

Lemma encode_block_length l : zlen (EVP_EncodeBlock l) = (zlen l + 2) / 3 * 4.
Proof.
  induction l as [|a|a b|a b c r IH] using triples_ind; [done..|].
  cbn [EVP_EncodeBlock]. rewrite zlen_app, IH, !zlen_cons. change (zlen (@nil Z)) with 0.
  replace (zlen r + 1 + 1 + 1 + 2) with (zlen r + 2 + 1 * 3) by lia.
  rewrite Z.div_add by lia. lia.
Qed.

Lemma decode_encode_quads l : bytes_ok l -> decode_quads (EVP_EncodeBlock l) = Some l.
Proof.
  induction l as [|a|a b|a b c r IH] using triples_ind; intros Hl; [done|..].
  - rewrite encode_one by (by inversion Hl). cbn [quad_of decode_quads].
    by rewrite (decode_quad_of [a]) by (done || reflexivity).
  - inversion Hl as [|? ? Ha Hl']; subst. inversion Hl' as [|? ? Hb _]; subst.
    rewrite encode_two by done. cbn [quad_of decode_quads].
    by rewrite (decode_quad_of [a; b]) by (done || reflexivity).
  - inversion Hl as [|? ? Ha Hl']; subst. inversion Hl' as [|? ? Hb Hl'']; subst.
    inversion Hl'' as [|? ? Hc Hr]; subst.
    rewrite encode_three by done. cbn [quad_of app decode_quads].
    assert (Habc : bytes_ok [a; b; c]) by (by repeat (apply List.Forall_cons; [assumption|])).
    rewrite (decode_quad_of [a; b; c]) by (assumption || done || reflexivity). change (zlen [a; b; c] =? 3) with true. cbn [negb andb].
    by rewrite IH.
Qed.

(** ** Streaming encoder *)

Lemma encode_lines_spec fuel : forall inp total,
  (length inp < fuel)%nat -> 0 <= total -> total + 2 * zlen inp < 2 ^ 63 ->
  exists t, encode_lines fuel inp total =
    Some ((lines_of fuel inp).1, (lines_of fuel inp).2, t) /\
    t = total + zlen (lines_of fuel inp).1 /\ zlen (lines_of fuel inp).2 < 48.
Proof.
  induction fuel as [|fuel IH]; intros inp total Hf Ht Hb; [lia|].
  cbn [encode_lines lines_of]. change DATA_SIZE with 48.
  destruct (Z.leb_spec 48 (zlen inp)) as [Hge|Hlt].
  - assert (Hlen : zlen (EVP_EncodeBlock (ztake 48 inp)) = 64).
    { rewrite encode_block_length, zlen_ztake by lia. reflexivity. }
    assert (Hd : zlen (zdrop 48 inp) = zlen inp - 48) by (apply zlen_zdrop; lia).
    rewrite Hlen, wrap_small by (change (2 ^ 64) with (2 * 2 ^ 63); lia).
    bool_false (total + 64 + 1 <? total).
    destruct (IH (zdrop 48 inp) (total + 64 + 1)) as (t & -> & -> & Hr); [|lia|lia|].
    { unfold zlen in *. lia. }
    destruct (lines_of fuel (zdrop 48 inp)) as [o r]. cbn [fst snd] in *.
    eexists. split; [reflexivity|]. split; [|done].
    rewrite !zlen_app, Hlen. change (zlen [chr_nl]) with 1. lia.
  - exists total. cbn [fst snd]. split; [done|]. split; [change (zlen (@nil Z)) with 0; lia|done].
Qed.

(** More fuel changes nothing. *)
Lemma lines_of_fuel k1 : forall k2 l, (length l < k1)%nat -> (length l < k2)%nat ->
  lines_of k1 l = lines_of k2 l.
Proof.
  induction k1 as [|k1 IH]; intros [|k2] l H1 H2; try lia. cbn [lines_of].
  destruct (Z.leb_spec 48 (zlen l)); [|done].
  assert (length (zdrop 48 l) = length l - 48)%nat by (unfold zdrop; apply length_drop).
  unfold zlen in *. rewrite (IH k2); [done|lia..].
Qed.

Definition lines (l : list Z) : list Z * list Z := lines_of (S (length l)) l.

Lemma lines_short l : zlen l < 48 -> lines l = ([], l).
Proof. intros H. unfold lines. cbn [lines_of]. by bool_false (48 <=? zlen l). Qed.

(** A full first line. *)
Lemma lines_cons a l : zlen a = 48 ->
  lines (a ++ l) = (EVP_EncodeBlock a ++ [chr_nl] ++ (lines l).1, (lines l).2).
Proof.
  intros Ha. unfold lines at 1. cbn [lines_of]. pose proof (zlen_nonneg l).
  rewrite zlen_app. bool_true (48 <=? zlen a + zlen l). rewrite <- Ha, ztake_app, zdrop_app.
  unfold lines. rewrite (lines_of_fuel _ (S (length l))); [by destruct (lines_of _ _)| |lia].
  rewrite length_app. unfold zlen in Ha. lia.
Qed.

(** Cutting the input anywhere: the lines of the first part, then the lines of its
    tail followed by the second part. *)
Lemma lines_app n : forall a b, (length a <= n)%nat ->
  lines (a ++ b) = ((lines a).1 ++ (lines ((lines a).2 ++ b)).1, (lines ((lines a).2 ++ b)).2).
Proof.
  induction n as [|n IH]; intros a b Hn.
  - destruct a; [|cbn in Hn; lia]. rewrite (lines_short []) by done. cbn [fst snd app].
    by destruct (lines b).
  - destruct (Z.lt_ge_cases (zlen a) 48) as [Hs|Hs].
    + rewrite (lines_short a) by done. cbn [fst snd app]. by destruct (lines (a ++ b)).
    + assert (Ha : exists x y, a = x ++ y /\ zlen x = 48 /\ (length y <= n)%nat).
      { exists (ztake 48 a), (zdrop 48 a). rewrite ztake_zdrop. split; [done|].
        split; [apply zlen_ztake; lia|]. unfold zdrop, zlen in *. rewrite length_drop. lia. }
      destruct Ha as (x & y & -> & Hx & Hy).
      rewrite <- app_assoc, (lines_cons x (y ++ b)), (lines_cons x y) by done. cbn [fst snd].
      rewrite (IH y b Hy). cbn [fst snd]. by rewrite <- !app_assoc.
Qed.

(** One update on a context that holds less than a line. *)
Lemma encode_update_spec ctx inp :
  zlen (data ctx) < 48 -> zlen inp < 2 ^ 60 ->
  exists n, EVP_EncodeUpdate ctx inp =
    Some ((lines (data ctx ++ inp)).1, n, set_data (lines (data ctx ++ inp)).2 ctx) /\
    (zlen (lines (data ctx ++ inp)).1 <= INT_MAX -> n = zlen (lines (data ctx ++ inp)).1) /\
    zlen (lines (data ctx ++ inp)).2 < 48.
Proof.
  intros Hd Hi. unfold EVP_EncodeUpdate. change DATA_SIZE with 48.
  pose proof (zlen_nonneg (data ctx)); pose proof (zlen_nonneg inp).
  change (2 ^ 60) with 1152921504606846976 in Hi.
  destruct (Z.eqb_spec (zlen inp) 0) as [E|E].
  { destruct inp; [|rewrite zlen_cons in *; pose proof (zlen_nonneg inp); lia].
    rewrite app_nil_r, lines_short by done. exists 0. cbn [fst snd]. by destruct ctx. }
  destruct (Z.ltb_spec (zlen inp) (48 - zlen (data ctx))) as [Hs|Hs].
  { rewrite lines_short by (rewrite zlen_app; lia). exists 0. cbn [fst snd].
    split; [done|]. split; [done|rewrite zlen_app; lia]. }
  assert (Hrest : forall out1 l total, 0 <= total <= 65 -> zlen l <= zlen inp -> total = zlen out1 ->
    exists n, match encode_lines (S (length l)) l total with
      | None => None
      | Some (out2, rest, total) =>
          Some (out1 ++ out2, (if INT_MAX <? total then 0 else total), set_data rest ctx)
      end = Some (out1 ++ (lines l).1, n, set_data (lines l).2 ctx) /\
      (zlen (out1 ++ (lines l).1) <= INT_MAX -> n = zlen (out1 ++ (lines l).1)) /\
      zlen (lines l).2 < 48).
  { intros out1 l total Ht Hl Eo.
    destruct (encode_lines_spec (S (length l)) l total) as (t & -> & Et & Hr); [lia|lia| |].
    { change (2 ^ 63) with 9223372036854775808. lia. }
    fold (lines l) in *. eexists. split; [reflexivity|]. split; [|done].
    rewrite zlen_app, <- Eo, <- Et. intros Hle. by bool_false (INT_MAX <? t). }
  destruct (Z.eqb_spec (zlen (data ctx)) 0) as [E0|E0]; cbn [negb].
  - destruct (data ctx) as [|x d] eqn:Ed; [|rewrite zlen_cons in *; pose proof (zlen_nonneg d); lia].
    cbn [app]. by apply (Hrest [] inp 0).
  - set (todo := 48 - zlen (data ctx)) in *.
    assert (H48 : zlen (data ctx ++ ztake todo inp) = 48)
      by (rewrite zlen_app, zlen_ztake; lia).
    assert (Elines : lines (data ctx ++ inp) =
      (EVP_EncodeBlock (data ctx ++ ztake todo inp) ++ [chr_nl] ++ (lines (zdrop todo inp)).1,
       (lines (zdrop todo inp)).2)).
    { rewrite <- lines_cons by done. f_equal. by rewrite <- app_assoc, ztake_zdrop. }
    rewrite Elines. cbn [fst snd].
    assert (Hlen : zlen (EVP_EncodeBlock (data ctx ++ ztake todo inp)) = 64)
      by (by rewrite encode_block_length, H48).
    destruct (Hrest (EVP_EncodeBlock (data ctx ++ ztake todo inp) ++ [chr_nl]) (zdrop todo inp)
      (zlen (EVP_EncodeBlock (data ctx ++ ztake todo inp)) + 1)) as (n & E1 & E2 & E3).
    + lia.
    + rewrite zlen_zdrop; lia.
    + by rewrite zlen_app.
    + exists n. rewrite <- app_assoc in E1, E2. done.
Qed.

(** The text of [l]: its full lines, then the last, shorter one. *)
Definition b64_text (l : list Z) : list Z :=
  (lines l).1 ++ match (lines l).2 with [] => [] | r => EVP_EncodeBlock r ++ [chr_nl] end.

Lemma encode_final_spec ctx : (EVP_EncodeFinal ctx).1.1 =
  match data ctx with [] => [] | r => EVP_EncodeBlock r ++ [chr_nl] end.
Proof.
  unfold EVP_EncodeFinal. destruct (data ctx) as [|x r] eqn:E; [done|].
  rewrite zlen_cons. pose proof (zlen_nonneg r). by bool_false (zlen r + 1 =? 0).
Qed.

Lemma encode_chunks_spec chunks : forall ctx,
  zlen (data ctx) < 48 -> Forall (fun c => zlen c < 2 ^ 60) chunks ->
  encode_chunks ctx chunks = Some (b64_text (data ctx ++ concat chunks)).
Proof.
  induction chunks as [|c r IH]; intros ctx Hd Hc; cbn [encode_chunks concat].
  - rewrite encode_final_spec. unfold b64_text. rewrite app_nil_r, lines_short by done. done.
  - inversion Hc as [|? ? Hc1 Hcr]; subst.
    destruct (encode_update_spec ctx c Hd Hc1) as (n & -> & _ & Hr).
    rewrite IH by done. cbn [set_data data]. f_equal. unfold b64_text.
    rewrite (app_assoc (data ctx)), (lines_app (length (data ctx ++ c)) (data ctx ++ c)) by lia.
    cbn [fst snd]. by rewrite app_assoc.
Qed.

(** ** Streaming decoder *)

Definition chain (r : option (list Z) * EVP_ENCODE_CTX) (k : EVP_ENCODE_CTX -> option (list Z) * EVP_ENCODE_CTX)
    : option (list Z) * EVP_ENCODE_CTX :=
  match r with
  | (None, c) => (None, c)
  | (Some o, c) => match k c with (None, c2) => (None, c2) | (Some o', c2) => (Some (o ++ o'), c2) end
  end.

Lemma decode_chars_app a : forall b ctx,
  decode_chars ctx (a ++ b) = chain (decode_chars ctx a) (fun c => decode_chars c b).
Proof.
  induction a as [|x a IH]; intros b ctx; cbn [app decode_chars].
  - cbn. by destruct (decode_chars ctx b) as [[o|] c].
  - destruct (decode_char ctx x) as [[o|] c1]; [|done]. rewrite IH.
    destruct (decode_chars c1 a) as [[o1|] c2]; [|done]. cbn [chain].
    destruct (decode_chars c2 b) as [[o2|] c3]; [|done]. by rewrite app_assoc.
Qed.

Lemma decode_char_collect d c : is_space c = false -> (length d < 3)%nat ->
  decode_char (Ctx d false false) c = (Some [], Ctx (d ++ [c]) false false).
Proof.
  intros Hc Hd. unfold decode_char. rewrite Hc.
  destruct d as [|? [|? [|? d]]]; try done. cbn in Hd. lia.
Qed.

Lemma decode_char_quad i0 i1 i2 i3 bs : is_space i3 = false ->
  base64_decode_quad i0 i1 i2 i3 = Some bs ->
  decode_char (Ctx [i0; i1; i2] false false) i3 = (Some bs, Ctx [] (zlen bs <? 3) false).
Proof.
  intros Hs Hq. unfold decode_char. rewrite Hs. cbn [eof_seen data app error_encountered].
  by rewrite Hq.
Qed.

Lemma decode_chars_quad i0 i1 i2 i3 bs r :
  is_space i0 = false -> is_space i1 = false -> is_space i2 = false -> is_space i3 = false ->
  base64_decode_quad i0 i1 i2 i3 = Some bs ->
  decode_chars EVP_DecodeInit (i0 :: i1 :: i2 :: i3 :: r) =
  chain (Some bs, Ctx [] (zlen bs <? 3) false) (fun c => decode_chars c r).
Proof.
  intros H0 H1 H2 H3 Hq. cbn [decode_chars]. unfold EVP_DecodeInit.
  rewrite !decode_char_collect by (done || cbn; lia). cbn [app].
  rewrite (decode_char_quad _ _ _ _ bs) by done.
  cbn [chain]. by destruct (decode_chars _ r) as [[o|] c].
Qed.

Lemma quad_of_spaces l i0 i1 i2 i3 : quad_of l = [i0; i1; i2; i3] ->
  is_space i0 = false /\ is_space i1 = false /\ is_space i2 = false /\ is_space i3 = false.
Proof.
  destruct l as [|a [|b [|c l]]]; cbn [quad_of]; [done|..]; intros [= <- <- <- <-];
    split_and!; (reflexivity || (apply char_facts, sextet_range)).
Qed.

Lemma decode_block_chars l : bytes_ok l ->
  decode_chars EVP_DecodeInit (EVP_EncodeBlock l) =
  (Some l, Ctx [] (negb (zlen l mod 3 =? 0)) false).
Proof.
  induction l as [|a|a b|a b c r IH] using triples_ind; intros Hl; [done|..].
  - rewrite encode_one by (by inversion Hl). cbn [quad_of].
    destruct (quad_of_spaces [a] _ _ _ _ eq_refl) as (S0 & S1 & S2 & S3).
    by rewrite (decode_chars_quad _ _ _ _ [a]) by (assumption || by apply (decode_quad_of [a])).
  - inversion Hl as [|? ? Ha Hl']; subst. inversion Hl' as [|? ? Hb _]; subst.
    rewrite encode_two by done. cbn [quad_of].
    destruct (quad_of_spaces [a; b] _ _ _ _ eq_refl) as (S0 & S1 & S2 & S3).
    by rewrite (decode_chars_quad _ _ _ _ [a; b]) by (assumption || by apply (decode_quad_of [a; b])).
  - inversion Hl as [|? ? Ha Hl']; subst. inversion Hl' as [|? ? Hb Hl'']; subst.
    inversion Hl'' as [|? ? Hc Hr]; subst. rewrite encode_three by done.
    assert (Habc : bytes_ok [a; b; c]) by (by repeat (apply List.Forall_cons; [assumption|])).
    destruct (quad_of_spaces [a; b; c] _ _ _ _ eq_refl) as (S0 & S1 & S2 & S3).
    cbn [quad_of app] in *.
    rewrite (decode_chars_quad _ _ _ _ [a; b; c]) by (assumption || by apply (decode_quad_of [a; b; c])).
    change (zlen [a; b; c] <? 3) with false. change (Ctx [] false false) with EVP_DecodeInit.
    cbn [chain]. rewrite IH by done. rewrite !zlen_cons. f_equal. do 3 f_equal.
    replace (zlen r + 1 + 1 + 1) with (zlen r + 1 * 3) by lia. by rewrite Z.mod_add.
Qed.

Lemma decode_newline ctx r :
  decode_chars ctx (chr_nl :: r) = decode_chars ctx r.
Proof. cbn. by destruct (decode_chars ctx r) as [[o|] c]. Qed.

Lemma decode_text n : forall l, bytes_ok l -> (length l <= n)%nat ->
  decode_chars EVP_DecodeInit (b64_text l) = (Some l, Ctx [] (negb (zlen l mod 3 =? 0)) false).
Proof.
  induction n as [|n IH]; intros l Hl Hn.
  - by destruct l; [|cbn in Hn; lia].
  - destruct (Z.lt_ge_cases (zlen l) 48) as [Hs|Hs].
    + unfold b64_text. rewrite lines_short by done. cbn [fst snd app].
      destruct l as [|x l]; [done|]. rewrite decode_chars_app, decode_block_chars by done.
      cbn [chain]. rewrite decode_newline. cbn. by rewrite app_nil_r.
    + assert (Ha : exists x y, l = x ++ y /\ zlen x = 48 /\ (length y <= n)%nat).
      { exists (ztake 48 l), (zdrop 48 l). rewrite ztake_zdrop. split; [done|].
        split; [apply zlen_ztake; lia|]. unfold zdrop, zlen in *. rewrite length_drop. lia. }
      destruct Ha as (x & y & -> & Hx & Hy). apply Forall_app in Hl as [Hlx Hly].
      unfold b64_text. rewrite lines_cons by done. cbn [fst snd].
      rewrite <- !app_assoc, decode_chars_app, decode_block_chars by done. rewrite Hx.
      change (negb (48 mod 3 =? 0)) with false. change (Ctx [] false false) with EVP_DecodeInit.
      cbn [chain app]. rewrite decode_newline. fold (b64_text y). rewrite IH by done.
      rewrite zlen_app, Hx. do 3 f_equal.
      replace (48 + zlen y) with (zlen y + 16 * 3) by lia. by rewrite Z.mod_add.
Qed.

(** Cutting the text anywhere. *)
Lemma decode_chunks_spec chunks : forall ctx o ctx',
  decode_chars ctx (concat chunks) = (Some o, ctx') -> error_encountered ctx = false ->
  zlen o <= INT_MAX -> error_encountered ctx' = false ->
  decode_chunks ctx chunks = (Some o, ctx').
Proof.
  induction chunks as [|c r IH]; intros ctx o ctx' H He Ho He'; cbn [decode_chunks concat] in *.
  - cbn in H. injection H as <- <-. done.
  - rewrite decode_chars_app in H. unfold EVP_DecodeUpdate. rewrite He.
    destruct (decode_chars ctx c) as [[o1|] c1] eqn:E1; [|done]. cbn [chain] in H.
    destruct (decode_chars c1 (concat r)) as [[o2|] c2] eqn:E2; [|done].
    injection H as <- <-. rewrite zlen_app in Ho. pose proof (zlen_nonneg o2); pose proof (zlen_nonneg o1).
    bool_false (INT_MAX <? zlen o1).
    assert (Hrc : ((if eof_seen c1 then 0 else 1) =? -1) = false) by (by destruct (eof_seen c1)).
    rewrite Hrc.
    assert (Hec : error_encountered c1 = false).
    { assert (Hkeep : forall l c o c', decode_chars c l = (Some o, c') ->
        error_encountered c' = error_encountered c).
      { clear. induction l as [|x l IH]; intros c o c' H; cbn [decode_chars] in H; [by injection H as <- <-|].
        destruct (decode_char c x) as [[b|] d] eqn:Ed; [|done].
        destruct (decode_chars d l) as [[b'|] d'] eqn:Edl; [|done]. injection H as <- <-.
        rewrite (IH _ _ _ Edl). unfold decode_char in Ed.
        destruct (is_space x); [by injection Ed as <- <-|]. destruct (eof_seen c); [done|].
        repeat case_match; simplify_eq; done. }
      by rewrite (Hkeep _ _ _ _ E1). }
    by rewrite (IH c1 o2 c2) by (done || lia).
Qed.

Lemma encode_block_no_space l : bytes_ok l ->
  Forall (fun c => is_space c = false) (EVP_EncodeBlock l).
Proof.
  assert (Hq : forall l i0 i1 i2 i3 r, quad_of l = [i0; i1; i2; i3] ->
    Forall (fun c => is_space c = false) r ->
    Forall (fun c => is_space c = false) ([i0; i1; i2; i3] ++ r)).
  { intros l' i0 i1 i2 i3 r E Hr. destruct (quad_of_spaces _ _ _ _ _ E) as (? & ? & ? & ?).
    by repeat (apply List.Forall_cons; [assumption|]). }
  induction l as [|a|a b|a b c r IH] using triples_ind; intros Hl; [constructor|..].
  - rewrite encode_one by (by inversion Hl). apply (Hq [a] _ _ _ _ [] eq_refl). constructor.
  - inversion Hl as [|? ? Ha Hl']; subst. inversion Hl' as [|? ? Hb _]; subst.
    rewrite encode_two by done. apply (Hq [a; b] _ _ _ _ [] eq_refl). constructor.
  - inversion Hl as [|? ? Ha Hl']; subst. inversion Hl' as [|? ? Hb Hl'']; subst.
    inversion Hl'' as [|? ? Hc Hr]; subst. rewrite encode_three by done.
    by apply (Hq [a; b; c] _ _ _ _ _ eq_refl), IH.
Qed.

Lemma drop_while_none p l : Forall (fun c => p c = false) l -> drop_while p l = l.
Proof. intros H. destruct H as [|c l Hc _]; [done|]. cbn [drop_while]. by rewrite Hc. Qed.

Lemma decoded_length l : zlen l < 2 ^ 60 ->
  EVP_DecodedLength (zlen (EVP_EncodeBlock l)) = Some ((zlen l + 2) / 3 * 3) /\
  zlen (EVP_EncodeBlock l) mod 4 = 0.
Proof.
  intros Hl. pose proof (zlen_nonneg l). change (2 ^ 60) with 1152921504606846976 in Hl.
  rewrite encode_block_length. unfold EVP_DecodedLength. rewrite Z.mod_mul, Z.div_mul by lia.
  split; [|done]. cbn [Z.eqb negb]. f_equal. apply wrap_small.
  change (2 ^ 64) with 18446744073709551616. Z.to_euclidean_division_equations; lia.
Qed.

(** ** Theorems *)

(** the constant-time character conversions are the RFC 4648 tables, on every
    byte: [conv_bin2ascii] gives the alphabet's character of the low six bits, and
    [base64_ascii_to_bin] the value of an alphabet character, 0 for '=' and 0xff for
    everything else, although neither branches on its argument. *)
Theorem base64_tables a :
  is_byte a ->
  conv_bin2ascii a = b64_char (a mod 64) /\
  base64_ascii_to_bin a =
    match index_of a alphabet with
    | Some v => v
    | None => if a =? chr_equals then 0 else 0xff
    end.
Proof. intros Ha. split; [by apply conv_table|by apply ascii_table]. Qed.

Lemma base64_tables_witness :
  conv_bin2ascii 63 = b64_char (63 mod 64) /\
  base64_ascii_to_bin 63 =
    match index_of 63 alphabet with
    | Some v => v
    | None => if 63 =? chr_equals then 0 else 0xff
    end.
Proof. apply (base64_tables 63). unfold is_byte. lia. Defined.

(** C25: one-shot base64.  For every input [l], [EVP_EncodedLength] announces exactly
    the bytes that [EVP_EncodeBlock] writes (its NUL included); [EVP_DecodeBase64]
    given that text returns [l] when its output buffer has the announced decoded
    length and 0 when it is smaller; and [EVP_DecodeBlock] returns [l] padded with
    zero bytes to a multiple of three. *)
Theorem base64_roundtrip l max_out :
  bytes_ok l -> zlen l < 2 ^ 60 ->
  EVP_EncodedLength (zlen l) = Some (zlen (EVP_EncodeBlock l) + 1) /\
  EVP_DecodeBase64 max_out (EVP_EncodeBlock l) =
    (if max_out <? (zlen l + 2) / 3 * 3 then None else Some l) /\
  ((zlen l + 2) / 3 * 3 <= INT_MAX ->
   EVP_DecodeBlock (EVP_EncodeBlock l) = Some (l ++ replicate (Z.to_nat ((3 - zlen l mod 3) mod 3)) 0)).
Proof.
  intros Hok Hl. destruct (decoded_length l Hl) as [Hd Hmod]. pose proof (zlen_nonneg l) as Hl0.
  assert (Hdec : forall m, EVP_DecodeBase64 m (EVP_EncodeBlock l) =
    if m <? (zlen l + 2) / 3 * 3 then None else Some l).
  { intros m. unfold EVP_DecodeBase64. rewrite Hmod, Hd, decode_encode_quads by done. done. }
  split; [|split; [done|]].
  - change (2 ^ 60) with 1152921504606846976 in Hl. unfold EVP_EncodedLength.
    rewrite encode_block_length.
    assert (Hq : 0 <= (zlen l + 2) / 3 <= 384307168202282326) by (Z.to_euclidean_division_equations; lia).
    assert (Hw : forall x, 0 <= x <= 4611686018427387904 -> u64 x = x)
      by (intros x Hx; apply wrap_small; change (2 ^ 64) with 18446744073709551616; lia).
    rewrite (Hw (zlen l + 2)) by lia. bool_false (zlen l + 2 <? zlen l).
    rewrite Z.shiftl_mul_pow2 by done. change (2 ^ 2) with 4. rewrite (Hw ((zlen l + 2) / 3 * 4)) by lia.
    rewrite shiftr_div by done. change (2 ^ 2) with 4. rewrite Z.div_mul, Z.eqb_refl by lia. cbn [negb].
    rewrite (Hw ((zlen l + 2) / 3 * 4 + 1)) by lia.
    by bool_false ((zlen l + 2) / 3 * 4 + 1 <? (zlen l + 2) / 3 * 4).
  - intros Hmax. unfold EVP_DecodeBlock.
    pose proof (encode_block_no_space l Hok) as Hsp.
    rewrite (drop_while_none _ (EVP_EncodeBlock l)).
    2: { eapply Forall_impl; [exact Hsp|]. intros c Hc. unfold is_space in Hc.
         apply orb_false_iff in Hc as [Hc _]. by apply orb_false_iff in Hc as [Hc _]. }
    unfold drop_last_while. rewrite drop_while_none by (by apply Forall_rev).
    rewrite rev_involutive, Hd. bool_false (INT_MAX <? (zlen l + 2) / 3 * 3).
    rewrite Hdec. by rewrite Z.ltb_irrefl.
Qed.

Lemma base64_roundtrip_witness :
  EVP_EncodedLength (zlen [1; 2; 3; 255]) = Some (zlen (EVP_EncodeBlock [1; 2; 3; 255]) + 1) /\
  EVP_DecodeBase64 6 (EVP_EncodeBlock [1; 2; 3; 255]) =
    (if 6 <? (zlen [1; 2; 3; 255] + 2) / 3 * 3 then None else Some [1; 2; 3; 255]) /\
  ((zlen [1; 2; 3; 255] + 2) / 3 * 3 <= INT_MAX ->
   EVP_DecodeBlock (EVP_EncodeBlock [1; 2; 3; 255]) =
     Some ([1; 2; 3; 255] ++ replicate (Z.to_nat ((3 - zlen [1; 2; 3; 255] mod 3) mod 3)) 0)).
Proof. apply (base64_roundtrip [1; 2; 3; 255] 6); [repeat constructor; done|done]. Defined.


