(* ===== verification/LHash.v ===== *)
(** * BoringSSL hash table (crypto/lhash/lhash.c)

    A table is an array of chains.  A chain is the list of its items from the head
    on; a pointer into the chain structure ([LHASH_ITEM **]) is the bucket's index
    and the position in its chain, the end of the chain being the position of the
    terminating NULL.  The hash and comparison functions are the caller's, and
    whether an allocation succeeds is an argument of the operations that allocate. *)
From S2P Require Import Prelude.

Definition kMinNumBuckets : Z := 16.
Definition kMaxAverageChainLength : Z := 2.
Definition kMinAverageChainLength : Z := 1.
Definition UINT_MAX : Z := 2 ^ 32 - 1.
Definition sizeof_item_ptr : Z := 8.

Section Table.
Context {D : Type}.
(** The type-erased helpers [call_hash_func] and [call_cmp_func]; [equal a b] is
    [call_cmp_func(lh->comp, a, b) == 0]. *)
Variable hash : D -> Z.
Variable equal : D -> D -> bool.

Record LHASH_ITEM : Type := Item { it_data : D; it_hash : Z }.
Record LHASH : Type := LHash {
  num_items : Z;
  buckets : list (list LHASH_ITEM);
  num_buckets : Z;
  callback_depth : Z }.

Definition set_buckets (b : list (list LHASH_ITEM)) (lh : LHASH) : LHASH :=
  LHash (num_items lh) b (num_buckets lh) (callback_depth lh).
Definition set_num_items (n : Z) (lh : LHASH) : LHASH :=
  LHash n (buckets lh) (num_buckets lh) (callback_depth lh).
Definition set_callback_depth (n : Z) (lh : LHASH) : LHASH :=
  LHash (num_items lh) (buckets lh) (num_buckets lh) n.

(** [None] is the null pointer; [ret_ok] and [buckets_ok] say whether the table
    and its array can be allocated. *)
Definition OPENSSL_lh_new (ret_ok buckets_ok : bool) : option LHASH :=
  if negb ret_ok then None
  else if negb buckets_ok then None
  else Some (LHash 0 (replicate (Z.to_nat kMinNumBuckets) []) kMinNumBuckets 0).

Definition OPENSSL_lh_num_items (lh : LHASH) : Z := num_items lh.

Definition chain (lh : LHASH) (b : nat) : list LHASH_ITEM := nth b (buckets lh) [].

(** The position of the first item that [found] accepts, or the end. *)
Fixpoint chain_pos (found : D -> bool) (c : list LHASH_ITEM) : nat :=
  match c with
  | [] => O
  | cur :: next => if found (it_data cur) then O else S (chain_pos found next)
  end.

Definition bucket_of (lh : LHASH) (h : Z) : nat := Z.to_nat (h mod num_buckets lh).

Definition get_next_ptr_by_key (lh : LHASH) (key_hash : Z) (found : D -> bool)
    : nat * nat :=
  let b := bucket_of lh key_hash in (b, chain_pos found (chain lh b)).

(** The pointer, and [*out_hash]. *)
Definition get_next_ptr_and_hash (lh : LHASH) (data : D) : (nat * nat) * Z :=
  let h := hash data in
  (get_next_ptr_by_key lh h (fun cur => equal cur data), h).

(** [*next_ptr] *)
Definition deref (lh : LHASH) (p : nat * nat) : option LHASH_ITEM :=
  chain lh p.1 !! p.2.

Definition OPENSSL_lh_retrieve (lh : LHASH) (data : D) : option D :=
  option_map it_data (deref lh (get_next_ptr_and_hash lh data).1).

Definition OPENSSL_lh_retrieve_key (lh : LHASH) (key_hash : Z) (found : D -> bool)
    : option D :=
  option_map it_data (deref lh (get_next_ptr_by_key lh key_hash found)).

(** [cur->next = new_buckets[new_bucket]; new_buckets[new_bucket] = cur;] *)
Definition move_item (new_num_buckets : Z) (new_buckets : list (list LHASH_ITEM))
    (cur : LHASH_ITEM) : list (list LHASH_ITEM) :=
  alter (cons cur) (Z.to_nat (it_hash cur mod new_num_buckets)) new_buckets.

Definition lh_rebucket (alloc_ok : bool) (new_num_buckets : Z) (lh : LHASH) : LHASH :=
  let alloc_size := u64 (sizeof_item_ptr * new_num_buckets) in
  if negb (alloc_size / sizeof_item_ptr =? new_num_buckets) then lh
  else if negb alloc_ok then lh
  else
    let new_buckets := replicate (Z.to_nat new_num_buckets) [] in
    LHash (num_items lh)
      (foldl (fun acc c => foldl (move_item new_num_buckets) acc c) new_buckets (buckets lh))
      new_num_buckets (callback_depth lh).

Definition lh_maybe_resize (alloc_ok : bool) (lh : LHASH) : LHASH :=
  if 0 <? callback_depth lh then lh
  else
    let avg_chain_length := num_items lh / num_buckets lh in
    if kMaxAverageChainLength <? avg_chain_length then
      let new_num_buckets := u64 (num_buckets lh * 2) in
      if num_buckets lh <? new_num_buckets
      then lh_rebucket alloc_ok new_num_buckets lh else lh
    else if (avg_chain_length <? kMinAverageChainLength) &&
            (kMinNumBuckets <? num_buckets lh) then
      let new_num_buckets := num_buckets lh / 2 in
      lh_rebucket alloc_ok
        (if new_num_buckets <? kMinNumBuckets then kMinNumBuckets else new_num_buckets) lh
    else lh.

(** Writes to the chain structure at a pointer: the item's data, a new item in
    place of the NULL at the end, and the removal of an item. *)
Definition set_data_at (p : nat * nat) (data : D) (lh : LHASH) : LHASH :=
  set_buckets (alter (alter (fun it => Item data (it_hash it)) p.2) p.1 (buckets lh)) lh.
Definition append_at (p : nat * nat) (item : LHASH_ITEM) (lh : LHASH) : LHASH :=
  set_buckets (alter (fun c => c ++ [item]) p.1 (buckets lh)) lh.
Definition unlink_at (p : nat * nat) (lh : LHASH) : LHASH :=
  set_buckets (alter (fun c => take p.2 c ++ drop (S p.2) c) p.1 (buckets lh)) lh.

(** The return value, [*old_data] and the table. *)
Definition OPENSSL_lh_insert (item_ok rebucket_ok : bool) (lh : LHASH) (data : D)
    : bool * option D * LHASH :=
  let '(next_ptr, h) := get_next_ptr_and_hash lh data in
  match deref lh next_ptr with
  | Some old => (true, Some (it_data old), set_data_at next_ptr data lh)
  | None =>
      if negb item_ok then (false, None, lh)
      else
        let lh1 := append_at next_ptr (Item data h) lh in
        (true, None, lh_maybe_resize rebucket_ok (set_num_items (u64 (num_items lh1 + 1)) lh1))
  end.

Definition OPENSSL_lh_delete (rebucket_ok : bool) (lh : LHASH) (data : D)
    : option D * LHASH :=
  let '(next_ptr, _) := get_next_ptr_and_hash lh data in
  match deref lh next_ptr with
  | None => (None, lh)
  | Some item =>
      let lh1 := unlink_at next_ptr lh in
      (Some (it_data item),
       lh_maybe_resize rebucket_ok (set_num_items (u64 (num_items lh1 - 1)) lh1))
  end.

(** The walk, for a callback that leaves the table as it is; [arg] is threaded. *)
Definition OPENSSL_lh_doall_arg {A} (rebucket_ok : bool) (lh : LHASH)
    (func : D -> A -> A) (arg : A) : A * LHASH :=
  let lh1 := if callback_depth lh <? UINT_MAX
             then set_callback_depth (callback_depth lh + 1) lh else lh in
  let arg' := foldl (fun acc c => foldl (fun acc cur => func (it_data cur) acc) acc c)
                arg (buckets lh1) in
  let lh2 := if callback_depth lh1 <? UINT_MAX
             then set_callback_depth (callback_depth lh1 - 1) lh1 else lh1 in
  (arg', lh_maybe_resize rebucket_ok lh2).
End Table.
Arguments LHASH_ITEM : clear implicits.
Arguments LHASH : clear implicits.
