(* ===== verification/LHashSpec.v ===== *)
(** * BoringSSL hash table: theorems

    The table refines a finite map from the classes of [equal] to items: the
    invariant, what each operation does to [retrieve], and the load bound. *)
From S2P Require Import Prelude LHash.

Section Spec.
Context {D : Type} (hash : D -> Z) (equal : D -> D -> bool).
(** What lhash.h asks of the caller's functions: the comparison is an equivalence
    and equal items have one hash, a [uint32_t]. *)
Record callbacks_lawful : Prop := {
  equal_refl : forall a, equal a a = true;
  equal_sym : forall a b, equal a b = equal b a;
  equal_trans : forall a b c, equal a b = true -> equal b c = true -> equal a c = true;
  hash_equal : forall a b, equal a b = true -> hash a = hash b;
  hash_range : forall a, 0 <= hash a < 2 ^ 32 }.
Hypothesis Hlaw : callbacks_lawful.

Abbreviation table := (LHASH D).
Abbreviation item := (LHASH_ITEM D).

Definition all_items (lh : table) : list item := concat (buckets lh).

(** No two items are equal. *)
Fixpoint distinct (l : list item) : Prop :=
  match l with
  | [] => True
  | a :: r => Forall (fun b => equal (it_data a) (it_data b) = false) r /\ distinct r
  end.

(** Every item is in the bucket of its hash, modulo the number of buckets. *)
Definition placed (n : Z) (bs : list (list item)) : Prop :=
  forall b c it, bs !! b = Some c -> it ∈ c ->
  it_hash it = hash (it_data it) /\ b = Z.to_nat (it_hash it mod n).

Record well_formed (lh : table) : Prop := {
  wf_buckets : num_buckets lh = zlen (buckets lh);
  wf_min : kMinNumBuckets <= num_buckets lh < 2 ^ 60;
  wf_placed : placed (num_buckets lh) (buckets lh);
  wf_count : num_items lh = zlen (all_items lh);
  wf_small : num_items lh < 2 ^ 60;
  wf_distinct : distinct (all_items lh) }.

(** The item of a list that is equal to [x]. *)
Definition lookup_item (l : list item) (x : D) : option item :=
  find (fun it => equal (it_data it) x) l.

(** ** Distinct lists up to the order of their items *)

Lemma distinct_perm l k : l ≡ₚ k -> distinct l -> distinct k.
Proof.
  induction 1 as [|a l k Hp IH|a b l|l m k H1 IH1 H2 IH2]; intros Hd; [done|..].
  - destruct Hd as [Hf Hd]. split; [by rewrite <- Hp|by apply IH].
  - destruct Hd as [Hb [Ha Hd]]. inversion Hb as [|? ? Hba Hb']; subst.
    split; [constructor; [by rewrite (equal_sym Hlaw)|done]|]. done.
  - by apply IH2, IH1.
Qed.

Lemma lookup_item_Some l x it : distinct l ->
  lookup_item l x = Some it <-> it ∈ l /\ equal (it_data it) x = true.
Proof.
  intros Hd. induction l as [|a l IH]; cbn [lookup_item find].
  - split; [done|]. intros [H _]. by apply elem_of_nil in H.
  - destruct Hd as [Ha Hd]. rewrite Forall_forall in Ha. rewrite elem_of_cons.
    destruct (equal (it_data a) x) eqn:Ea.
    + split; [intros [= <-]; auto|]. intros [[->|Hin] Hx]; [done|].
      specialize (Ha _ Hin). rewrite (equal_sym Hlaw) in Hx.
      by rewrite (equal_trans Hlaw _ _ _ Ea Hx) in Ha.
    + fold (lookup_item l x). rewrite IH by done. split; [by intros [? ?]; auto|].
      intros [[->|Hin] Hx]; [by rewrite Ea in Hx|done].
Qed.

Lemma lookup_item_perm l k x : l ≡ₚ k -> distinct l -> lookup_item l x = lookup_item k x.
Proof.
  intros Hp Hd. apply option_eq. intros it.
  rewrite (lookup_item_Some l), (lookup_item_Some k) by (done || by eapply distinct_perm).
  by rewrite Hp.
Qed.

Lemma lookup_item_cons a l x :
  lookup_item (a :: l) x = if equal (it_data a) x then Some a else lookup_item l x.
Proof. done. Qed.

(** ** One bucket of the array *)

Lemma concat_alter (bs : list (list item)) : forall b c, bs !! b = Some c ->
  exists rest, concat bs ≡ₚ c ++ rest /\ forall f, concat (alter f b bs) ≡ₚ f c ++ rest.
Proof.
  induction bs as [|d bs IH]; intros [|b] c H; try done; cbn in H.
  - injection H as ->. exists (concat bs). by split.
  - destruct (IH b c H) as (rest & E1 & E2). exists (d ++ rest). split; [|intros f]; cbn.
    + rewrite E1. apply Permutation_app_swap_app.
    + setoid_rewrite (E2 f). apply Permutation_app_swap_app.
Qed.

Lemma placed_alter n bs b f c :
  placed n bs -> bs !! b = Some c ->
  (forall it, it ∈ f c -> it ∈ c \/ (it_hash it = hash (it_data it) /\
     b = Z.to_nat (it_hash it mod n))) ->
  placed n (alter f b bs).
Proof.
  intros Hp Hc Hf b' c' it Hb' Hit. destruct (decide (b = b')) as [<-|Hne].
  - rewrite list_lookup_alter_eq, Hc in Hb'. injection Hb' as <-.
    destruct (Hf it Hit) as [Hin|]; [by eapply Hp|done].
  - rewrite list_lookup_alter_ne in Hb' by done. by eapply Hp.
Qed.

(** The bucket of a hash exists. *)
Lemma bucket_exists lh h : well_formed lh ->
  buckets lh !! bucket_of lh h = Some (chain lh (bucket_of lh h)).
Proof.
  intros Hw. pose proof (wf_buckets _ Hw) as Hn. pose proof (wf_min _ Hw) as Hm.
  change kMinNumBuckets with 16 in Hm.
  pose proof (Z.mod_pos_bound h (num_buckets lh) ltac:(lia)) as Hr.
  assert (Hlt : (bucket_of lh h < length (buckets lh))%nat)
    by (unfold bucket_of, zlen in *; lia).
  destruct (lookup_lt_is_Some_2 _ _ Hlt) as [c Hc]. unfold chain.
  by rewrite nth_lookup, Hc.
Qed.

Lemma chain_pos_found (found : D -> bool) c : forall it,
  c !! chain_pos found c = Some it -> found (it_data it) = true /\ it ∈ c.
Proof.
  induction c as [|a c IH]; intros it; cbn [chain_pos]; [done|].
  destruct (found (it_data a)) eqn:Ea.
  - intros [= <-]. split; [done|left].
  - intros H. destruct (IH it H) as [? ?]. split; [done|by right].
Qed.

Lemma chain_pos_end (found : D -> bool) c :
  c !! chain_pos found c = None -> forall it, it ∈ c -> found (it_data it) = false.
Proof.
  induction c as [|a c IH]; cbn [chain_pos]; intros H it Hit; [by apply elem_of_nil in Hit|].
  destruct (found (it_data a)) eqn:Ea; [done|].
  apply elem_of_cons in Hit as [->|Hit]; [done|by apply IH].
Qed.

Lemma in_all_items lh b c it : buckets lh !! b = Some c -> it ∈ c -> it ∈ all_items lh.
Proof.
  intros Hb Hit. unfold all_items. apply list_elem_of_In, in_concat. exists c.
  split; apply list_elem_of_In; [by eapply list_elem_of_lookup_2|done].
Qed.

Lemma all_items_in lh it : it ∈ all_items lh ->
  exists b c, buckets lh !! b = Some c /\ it ∈ c.
Proof.
  unfold all_items. intros H. apply list_elem_of_In, in_concat in H as (c & Hc & Hit).
  apply list_elem_of_In, list_elem_of_lookup in Hc as [b Hb].
  exists b, c. split; [done|by apply list_elem_of_In].
Qed.

(** The search in one chain finds what the whole table holds. *)
Lemma deref_lookup lh x : well_formed lh ->
  deref lh (get_next_ptr_and_hash hash equal lh x).1 = lookup_item (all_items lh) x.
Proof.
  intros Hw. unfold get_next_ptr_and_hash, get_next_ptr_by_key, deref. cbn [fst snd].
  set (b := bucket_of lh (hash x)). set (c := chain lh b).
  pose proof (bucket_exists lh (hash x) Hw) as Hb. fold b c in Hb.
  destruct (c !! chain_pos _ c) as [it|] eqn:E.
  - apply chain_pos_found in E as [Hx Hit]. symmetry.
    apply lookup_item_Some; [exact (wf_distinct _ Hw)|].
    split; [by eapply in_all_items|done].
  - symmetry. destruct (lookup_item (all_items lh) x) as [it|] eqn:El; [|done].
    apply lookup_item_Some in El as [Hin Hx]; [|exact (wf_distinct _ Hw)].
    apply all_items_in in Hin as (b' & c' & Hb' & Hit).
    destruct (wf_placed _ Hw _ _ _ Hb' Hit) as [Hh Hbe].
    assert (Ebb : b' = b).
    { rewrite Hbe, Hh, (hash_equal Hlaw _ _ Hx). done. }
    rewrite Ebb, Hb in Hb'. injection Hb' as <-.
    by rewrite (chain_pos_end _ _ E it Hit) in Hx.
Qed.

Lemma retrieve_lookup lh x : well_formed lh ->
  OPENSSL_lh_retrieve hash equal lh x = option_map it_data (lookup_item (all_items lh) x).
Proof. intros Hw. unfold OPENSSL_lh_retrieve. by rewrite deref_lookup. Qed.

(** ** Resizing *)

Lemma move_item_length n (acc : list (list item)) it : length (move_item n acc it) = length acc.
Proof. apply length_alter. Qed.

Lemma move_items_length n c : forall acc : list (list item), length (foldl (move_item n) acc c) = length acc.
Proof.
  induction c as [|it c IH]; intros acc; [done|]. cbn [foldl].
  by rewrite IH, move_item_length.
Qed.

Lemma move_items n c : forall (acc : list (list item)), 0 < n -> zlen acc = n ->
  (forall it, it ∈ c -> it_hash it = hash (it_data it)) -> placed n acc ->
  concat (foldl (move_item n) acc c) ≡ₚ c ++ concat acc /\
  placed n (foldl (move_item n) acc c).
Proof.
  induction c as [|it c IH]; intros acc Hn Hlen Hh Hp; [done|]. cbn [foldl].
  set (b := Z.to_nat (it_hash it mod n)).
  pose proof (Z.mod_pos_bound (it_hash it) n Hn) as Hr.
  assert (Hb : (b < length acc)%nat) by (unfold b, zlen in *; lia).
  destruct (lookup_lt_is_Some_2 _ _ Hb) as [d Hd].
  destruct (IH (move_item n acc it)) as [E1 E2]; [done| | | |].
  - unfold zlen. by rewrite move_item_length.
  - intros it' Hit'. apply Hh. by right.
  - apply (placed_alter n acc b _ d Hp Hd). intros it' Hit'.
    apply elem_of_cons in Hit' as [->|]; [right|by left].
    split; [apply Hh; left|done].
  - split; [|done]. rewrite E1. destruct (concat_alter acc b d Hd) as (rest & Ea & Eb).
    unfold move_item. fold b. rewrite (Eb (cons it)), Ea. cbn [app].
    by rewrite <- Permutation_middle.
Qed.

Lemma move_buckets n bs : forall (acc : list (list item)), 0 < n -> zlen acc = n ->
  (forall it, it ∈ concat bs -> it_hash it = hash (it_data it)) -> placed n acc ->
  let res := foldl (fun acc c => foldl (move_item n) acc c) acc bs in
  concat res ≡ₚ concat bs ++ concat acc /\ placed n res /\ zlen res = n.
Proof.
  induction bs as [|c bs IH]; intros acc Hn Hlen Hh Hp res; [done|]. unfold res. cbn [foldl concat].
  destruct (move_items n c acc Hn Hlen) as [E1 E2]; [|done|].
  { intros it Hit. apply Hh. cbn [concat]. apply elem_of_app. by left. }
  destruct (IH (foldl (move_item n) acc c) Hn) as (E3 & E4 & E5); [| |done|].
  { unfold zlen. by rewrite move_items_length. }
  { intros it Hit. apply Hh. cbn [concat]. apply elem_of_app. by right. }
  split; [|done]. rewrite E3, E1, app_assoc. by rewrite (Permutation_app_comm (concat bs) c).
Qed.

Lemma item_hash lh it : well_formed lh -> it ∈ all_items lh -> it_hash it = hash (it_data it).
Proof.
  intros Hw (b & c & Hb & Hit)%all_items_in. by destruct (wf_placed _ Hw _ _ _ Hb Hit).
Qed.

Lemma rebucket_spec ok n lh : well_formed lh -> kMinNumBuckets <= n < 2 ^ 60 ->
  let lh' := lh_rebucket ok n lh in
  well_formed lh' /\ all_items lh' ≡ₚ all_items lh /\
  num_items lh' = num_items lh /\ callback_depth lh' = callback_depth lh /\
  num_buckets lh' = if ok then n else num_buckets lh.
Proof.
  intros Hw Hn lh'. change kMinNumBuckets with 16 in Hn. unfold lh', lh_rebucket.
  change sizeof_item_ptr with 8. change (2 ^ 60) with 1152921504606846976 in Hn.
  rewrite wrap_small by (change (2 ^ 64) with 18446744073709551616; lia).
  rewrite (Z.mul_comm 8), Z.div_mul, Z.eqb_refl by lia. cbn [negb].
  destruct ok; cbn [negb]; [|done].
  destruct (move_buckets n (buckets lh) (replicate (Z.to_nat n) [])) as (E1 & E2 & E3).
  { lia. }
  { unfold zlen. rewrite length_replicate. lia. }
  { intros it Hit. by apply (item_hash lh). }
  { intros b c it Hb Hit. apply lookup_replicate in Hb as [-> _]. by apply elem_of_nil in Hit. }
  assert (Hempty : concat (replicate (Z.to_nat n) (@nil item)) = []).
  { clear. induction (Z.to_nat n) as [|k IHk]; [done|]. cbn [replicate concat]. by rewrite IHk. }
  rewrite Hempty, app_nil_r in E1.
  split; [|done]. split; cbn [num_buckets buckets num_items].
  - done.
  - change kMinNumBuckets with 16. change (2 ^ 60) with 1152921504606846976. lia.
  - done.
  - rewrite (wf_count _ Hw). unfold zlen, all_items. cbn [buckets]. by rewrite E1.
  - exact (wf_small _ Hw).
  - unfold all_items. cbn [buckets]. eapply distinct_perm; [symmetry; exact E1|].
    exact (wf_distinct _ Hw).
Qed.

Lemma maybe_resize_spec ok lh : well_formed lh ->
  let lh' := lh_maybe_resize ok lh in
  well_formed lh' /\ all_items lh' ≡ₚ all_items lh /\
  num_items lh' = num_items lh /\ callback_depth lh' = callback_depth lh /\
  (ok = true -> callback_depth lh = 0 -> num_items lh <= 3 * num_buckets lh ->
   num_items lh' < 3 * num_buckets lh').
Proof.
  intros Hw lh'. unfold lh', lh_maybe_resize.
  pose proof (wf_min _ Hw) as Hm. pose proof (wf_small _ Hw) as Hs.
  pose proof (wf_count _ Hw) as Hc. pose proof (zlen_nonneg (all_items lh)) as H0.
  change (2 ^ 60) with 1152921504606846976 in *. change kMinNumBuckets with 16 in *.
  change kMaxAverageChainLength with 2. change kMinAverageChainLength with 1.
  destruct (Z.ltb_spec 0 (callback_depth lh)).
  { split; [done|]. split; [done|]. split; [done|]. split; [done|]. lia. }
  pose proof (Z.div_mod (num_items lh) (num_buckets lh) ltac:(lia)) as Hdm.
  pose proof (Z.mod_pos_bound (num_items lh) (num_buckets lh) ltac:(lia)) as Hmb.
  set (avg := num_items lh / num_buckets lh) in *.
  assert (Havg : 0 <= avg) by (apply Z.div_pos; lia).
  destruct (Z.ltb_spec 2 avg) as [Hbig|Hbig].
  - assert (H3 : 3 * num_buckets lh <= num_items lh) by nia.
    rewrite wrap_small by (change (2 ^ 64) with 18446744073709551616; lia).
    bool_true (num_buckets lh <? num_buckets lh * 2).
    destruct (rebucket_spec ok (num_buckets lh * 2) lh Hw) as (Hw' & Hp & Hn & Hd & Hb).
    { change kMinNumBuckets with 16. change (2 ^ 60) with 1152921504606846976. lia. }
    do 4 (split; [done|]). intros -> _ Hle. lia.
  - assert (Hfin : num_items lh < 3 * num_buckets lh) by nia.
    destruct (Z.ltb_spec avg 1) as [Hsm|Hsm]; [|by cbn [andb]].
    destruct (Z.ltb_spec 16 (num_buckets lh)) as [H16|H16]; [|by cbn [andb]]. cbn [andb].
    assert (Hlt : num_items lh < num_buckets lh) by nia.
    pose proof (Z.div_mod (num_buckets lh) 2 ltac:(lia)) as Hd2.
    pose proof (Z.mod_pos_bound (num_buckets lh) 2 ltac:(lia)) as Hm2.
    set (n := if num_buckets lh / 2 <? 16 then 16 else num_buckets lh / 2).
    assert (Hn : 16 <= n /\ num_buckets lh / 2 <= n < 1152921504606846976)
      by (unfold n; case_bool; lia).
    destruct (rebucket_spec ok n lh Hw) as (Hw' & Hp & Hni & Hd & Hb).
    { change kMinNumBuckets with 16. change (2 ^ 60) with 1152921504606846976. lia. }
    do 4 (split; [done|]). intros -> _ _. lia.
Qed.

(** A change of one chain that keeps the items placed. *)
Lemma alter_well_formed lh b c f n' l' : well_formed lh -> buckets lh !! b = Some c ->
  (forall it, it ∈ f c -> it ∈ c \/ (it_hash it = hash (it_data it) /\
     b = Z.to_nat (it_hash it mod num_buckets lh))) ->
  concat (alter f b (buckets lh)) ≡ₚ l' -> distinct l' -> n' = zlen l' -> n' < 2 ^ 60 ->
  well_formed (LHash n' (alter f b (buckets lh)) (num_buckets lh) (callback_depth lh)).
Proof.
  intros Hw Hb Hf Hp Hd Hn Hs. split; cbn [num_buckets buckets num_items].
  - rewrite (wf_buckets _ Hw). unfold zlen. by rewrite length_alter.
  - exact (wf_min _ Hw).
  - eapply placed_alter; [exact (wf_placed _ Hw)|exact Hb|exact Hf].
  - rewrite Hn. unfold zlen, all_items. cbn [buckets]. by rewrite (Permutation_length Hp).
  - done.
  - unfold all_items. cbn [buckets]. by eapply distinct_perm; [symmetry|].
Qed.

Lemma lookup_item_None l x : lookup_item l x = None ->
  Forall (fun it => equal (it_data it) x = false) l.
Proof.
  intros H. apply Forall_forall. intros it Hit%list_elem_of_In. by eapply find_none in H.
Qed.

(** Where the search stops: the chain is split there. *)
Lemma next_ptr_split lh d it : well_formed lh ->
  deref lh (get_next_ptr_and_hash hash equal lh d).1 = Some it ->
  let p := (get_next_ptr_and_hash hash equal lh d).1 in
  exists c pre post, buckets lh !! p.1 = Some c /\ c = pre ++ it :: post /\ p.2 = length pre /\
    equal (it_data it) d = true /\ it ∈ all_items lh.
Proof.
  intros Hw Hd p. pose proof (bucket_exists lh (hash d) Hw) as Hb.
  pose proof Hd as Hd'. rewrite (deref_lookup lh d Hw) in Hd'.
  apply lookup_item_Some in Hd' as [Hin Heq]; [|exact (wf_distinct _ Hw)].
  unfold deref in Hd. fold p in Hd.
  exists (chain lh p.1), (take p.2 (chain lh p.1)), (drop (S p.2) (chain lh p.1)).
  split; [exact Hb|]. split; [symmetry; by apply take_drop_middle|].
  split; [|done]. rewrite length_take. apply lookup_lt_Some in Hd. lia.
Qed.

Lemma lookup_after (l rest : list item) (it : item) x :
  l ≡ₚ it :: rest -> distinct l ->
  lookup_item l x = if equal (it_data it) x then Some it else lookup_item rest x.
Proof.
  intros Hp Hd. rewrite (lookup_item_perm _ _ x Hp Hd). apply lookup_item_cons.
Qed.

(** An item equal to one in the list is not in the rest. *)
Lemma lookup_rest (it : item) rest x : distinct (it :: rest) ->
  equal (it_data it) x = true -> lookup_item rest x = None.
Proof.
  intros [Hf Hd] Hx. destruct (lookup_item rest x) as [it'|] eqn:E; [|done].
  apply lookup_item_Some in E as [Hin Hx']; [|done].
  rewrite Forall_forall in Hf. specialize (Hf _ Hin).
  rewrite (equal_sym Hlaw) in Hx'. by rewrite (equal_trans Hlaw _ _ _ Hx Hx') in Hf.
Qed.

Lemma equal_swap a b x : equal a b = true -> equal a x = equal b x.
Proof.
  intros Hab. apply eq_true_iff_eq. split; intros H.
  - rewrite (equal_sym Hlaw) in Hab. by eapply (equal_trans Hlaw).
  - by eapply (equal_trans Hlaw).
Qed.

(** ** The operations *)

Lemma new_well_formed ret_ok buckets_ok lh :
  OPENSSL_lh_new ret_ok buckets_ok = Some lh ->
  well_formed lh /\ all_items lh = [] /\ callback_depth lh = 0.
Proof.
  unfold OPENSSL_lh_new. destruct ret_ok, buckets_ok; [|done..]. intros [= <-].
  split; [|done]. split; try (cbn; done || lia).
  intros b c it Hb Hit. change (replicate 16 [] !! b = Some c) in Hb. apply lookup_replicate in Hb as [-> _]. by apply elem_of_nil in Hit.
Qed.

Lemma retrieve_perm lh lh' x : well_formed lh -> well_formed lh' ->
  all_items lh' ≡ₚ all_items lh ->
  OPENSSL_lh_retrieve hash equal lh' x = OPENSSL_lh_retrieve hash equal lh x.
Proof.
  intros Hw Hw' Hp. rewrite !retrieve_lookup by done.
  by rewrite (lookup_item_perm _ _ x Hp (wf_distinct _ Hw')).
Qed.

(** The item at the pointer is one of the table's, the others the rest; writing
    its data and unlinking it change that item only. *)
Lemma at_next_ptr lh d it : well_formed lh ->
  deref lh (get_next_ptr_and_hash hash equal lh d).1 = Some it ->
  let p := (get_next_ptr_and_hash hash equal lh d).1 in
  exists rest c, all_items lh ≡ₚ it :: rest /\ equal (it_data it) d = true /\
    buckets lh !! p.1 = Some c /\ c !! p.2 = Some it /\
    (forall g, concat (alter (alter g p.2) p.1 (buckets lh)) ≡ₚ g it :: rest) /\
    concat (alter (fun c => take p.2 c ++ drop (S p.2) c) p.1 (buckets lh)) ≡ₚ rest.
Proof.
  intros Hw Hd p.
  destruct (next_ptr_split lh d it Hw Hd) as (c & pre & post & Hb & Ec & Ep & Heq & Hin).
  fold p in Hb, Ep. destruct (concat_alter _ _ _ Hb) as (r & E1 & E2).
  exists (pre ++ post ++ r), c. unfold all_items.
  split; [rewrite E1, Ec, <- app_assoc; cbn [app]; by rewrite <- Permutation_middle|].
  split; [done|]. split; [done|]. split; [rewrite Ec, Ep; by apply list_lookup_middle|].
  split; [intros g|]; rewrite E2, Ec, Ep.
  - rewrite alter_app_r_alt, Nat.sub_diag by lia. cbn [alter list_alter].
    rewrite <- app_assoc. cbn [app]. by rewrite <- Permutation_middle.
  - rewrite take_app_length. replace (S (length pre)) with (length (pre ++ [it]))
      by (rewrite length_app; cbn; lia).
    rewrite (cons_middle it pre post), (app_assoc pre [it] post).
    by rewrite drop_app_length, <- app_assoc.
Qed.

(** What a write at the pointer of the search leaves. *)
Lemma set_data_spec lh d old : well_formed lh ->
  deref lh (get_next_ptr_and_hash hash equal lh d).1 = Some old ->
  let lh' := set_data_at (get_next_ptr_and_hash hash equal lh d).1 d lh in
  well_formed lh' /\ forall x, lookup_item (all_items lh') x =
    if equal d x then Some (Item d (it_hash old)) else lookup_item (all_items lh) x.
Proof.
  intros Hw Hd lh'.
  destruct (at_next_ptr lh d old Hw Hd) as (rest & c & Ea & Heq & Hb & Hc & Eset & _).
  set (p := (get_next_ptr_and_hash hash equal lh d).1) in *.
  set (new := Item d (it_hash old)).
  assert (Edist : distinct (old :: rest)) by exact (distinct_perm _ _ Ea (wf_distinct _ Hw)).
  assert (Hnew : distinct (new :: rest)).
  { destruct Edist as [Hf Hr]. split; [|done]. eapply Forall_impl; [exact Hf|].
    intros it Hit. cbn. by rewrite <- (equal_swap _ _ _ Heq). }
  assert (Eall : all_items lh' ≡ₚ new :: rest)
    by exact (Eset (fun it => Item d (it_hash it))).
  assert (Hin : old ∈ all_items lh) by (rewrite Ea; left).
  assert (Hlen : num_items lh = zlen (new :: rest)).
  { rewrite (wf_count _ Hw). unfold zlen. by rewrite (Permutation_length Ea). }
  assert (Hw' : well_formed lh').
  { refine (alter_well_formed lh p.1 c _ (num_items lh) (new :: rest) Hw Hb _ Eall Hnew Hlen _).
    - intros it Hit. apply list_elem_of_lookup in Hit as [i Hi].
      destruct (decide (i = p.2)) as [->|Hne].
      + rewrite list_lookup_alter_eq, Hc in Hi. injection Hi as <-. right. cbn.
        destruct (wf_placed _ Hw p.1 c old Hb) as [Hh Hpl];
          [by eapply list_elem_of_lookup_2|].
        by rewrite Hh, (hash_equal Hlaw _ _ Heq) in Hpl |- *.
      + rewrite list_lookup_alter_ne in Hi by done. left. by eapply list_elem_of_lookup_2.
    - exact (wf_small _ Hw). }
  split; [done|]. intros x.
  rewrite (lookup_after _ rest new x Eall (wf_distinct _ Hw')),
    (lookup_after _ rest old x Ea (wf_distinct _ Hw)). cbn [it_data new].
  rewrite (equal_swap _ _ x Heq). by destruct (equal d x).
Qed.

Lemma append_spec lh d n' : well_formed lh -> n' = num_items lh + 1 -> n' < 2 ^ 60 ->
  deref lh (get_next_ptr_and_hash hash equal lh d).1 = None ->
  let lh' := set_num_items n' (append_at (get_next_ptr_and_hash hash equal lh d).1
                                 (Item d (hash d)) lh) in
  well_formed lh' /\ forall x, lookup_item (all_items lh') x =
    if equal d x then Some (Item d (hash d)) else lookup_item (all_items lh) x.
Proof.
  intros Hw Hn Hs Hd lh'. pose proof (bucket_exists lh (hash d) Hw) as Hb.
  destruct (concat_alter _ _ _ Hb) as (r & E1 & E2).
  set (new := Item d (hash d)).
  assert (Eall : all_items lh' ≡ₚ new :: all_items lh).
  { unfold all_items at 1. cbn. setoid_rewrite E2. unfold all_items. rewrite E1.
    rewrite <- app_assoc. cbn [app]. by rewrite <- Permutation_middle. }
  rewrite (deref_lookup lh d Hw) in Hd. apply lookup_item_None in Hd.
  assert (Hnew : distinct (new :: all_items lh)).
  { split; [|exact (wf_distinct _ Hw)]. eapply Forall_impl; [exact Hd|].
    intros it Hit. cbn. by rewrite (equal_sym Hlaw). }
  assert (Hw' : well_formed lh').
  { refine (alter_well_formed lh _ _ _ n' _ Hw Hb _ Eall Hnew _ Hs).
    - intros it Hit. apply elem_of_app in Hit as [|Hit]; [by left|right].
      apply list_elem_of_singleton in Hit as ->. done.
    - rewrite Hn, (wf_count _ Hw). unfold zlen. cbn [length]. lia. }
  split; [done|]. intros x. by rewrite (lookup_after _ _ new x Eall (wf_distinct _ Hw')).
Qed.

Lemma unlink_spec lh d old n' : well_formed lh -> n' = num_items lh - 1 ->
  deref lh (get_next_ptr_and_hash hash equal lh d).1 = Some old ->
  let lh' := set_num_items n' (unlink_at (get_next_ptr_and_hash hash equal lh d).1 lh) in
  well_formed lh' /\ forall x, lookup_item (all_items lh') x =
    if equal d x then None else lookup_item (all_items lh) x.
Proof.
  intros Hw Hn Hd lh'.
  destruct (at_next_ptr lh d old Hw Hd) as (rest & c & Ea & Heq & Hb & Hc & _ & Eall).
  set (p := (get_next_ptr_and_hash hash equal lh d).1) in *.
  assert (Edist : distinct (old :: rest)) by exact (distinct_perm _ _ Ea (wf_distinct _ Hw)).
  pose proof (proj2 Edist) as Hrest. pose proof (wf_small _ Hw).
  assert (Hw' : well_formed lh').
  { refine (alter_well_formed lh p.1 c _ n' rest Hw Hb _ Eall Hrest _ _); [|..|lia].
    - intros it Hit. left. apply elem_of_app in Hit as [Hit|Hit].
      + by apply elem_of_take in Hit as (? & ?%list_elem_of_lookup_2 & _).
      + apply list_elem_of_lookup in Hit as [i Hi]. rewrite lookup_drop in Hi.
        by eapply list_elem_of_lookup_2.
    - rewrite Hn, (wf_count _ Hw). unfold zlen. rewrite (Permutation_length Ea).
      cbn [length]. lia. }
  split; [done|]. intros x.
  rewrite (lookup_after _ rest old x Ea (wf_distinct _ Hw)), (equal_swap _ _ x Heq).
  rewrite (lookup_item_perm (all_items lh') rest x Eall (wf_distinct _ Hw')).
  destruct (equal d x) eqn:Ex; [|done]. apply (lookup_rest old); [done|].
  by rewrite (equal_swap _ _ x Heq).
Qed.

Lemma num_items_pos lh it : well_formed lh -> it ∈ all_items lh -> 1 <= num_items lh.
Proof.
  intros Hw Hin. rewrite (wf_count _ Hw). apply list_elem_of_lookup in Hin as [i Hi].
  apply lookup_lt_Some in Hi. unfold zlen. lia.
Qed.

Lemma resized ok lh lh' x (o : option D) : well_formed lh ->
  lh' = lh_maybe_resize ok lh ->
  option_map it_data (lookup_item (all_items lh) x) = o ->
  OPENSSL_lh_retrieve hash equal lh' x = o.
Proof.
  intros Hw -> <-. destruct (maybe_resize_spec ok lh Hw) as (Hw' & Hp & _).
  rewrite retrieve_lookup by done. by rewrite (lookup_item_perm _ _ x Hp (wf_distinct _ Hw')).
Qed.

Lemma insert_spec item_ok rebucket_ok lh d : well_formed lh -> num_items lh + 1 < 2 ^ 60 ->
  let old := OPENSSL_lh_retrieve hash equal lh d in
  exists ok lh', OPENSSL_lh_insert hash equal item_ok rebucket_ok lh d = (ok, old, lh') /\
  ok = match old with Some _ => true | None => item_ok end /\
  well_formed lh' /\ callback_depth lh' = callback_depth lh /\
  num_items lh' =
    (if ok then match old with Some _ => num_items lh | None => num_items lh + 1 end
     else num_items lh) /\
  (forall x, OPENSSL_lh_retrieve hash equal lh' x =
     if ok && equal d x then Some d else OPENSSL_lh_retrieve hash equal lh x) /\
  (rebucket_ok = true -> callback_depth lh = 0 -> num_items lh < 3 * num_buckets lh ->
   num_items lh' < 3 * num_buckets lh').
Proof.
  intros Hw Hn old. unfold old, OPENSSL_lh_insert. pose proof (wf_count _ Hw) as Hc.
  pose proof (zlen_nonneg (all_items lh)) as H0.
  destruct (get_next_ptr_and_hash hash equal lh d) as [p h] eqn:Ep.
  assert (Eh : h = hash d) by (unfold get_next_ptr_and_hash in Ep; congruence).
  assert (Ept : p = (get_next_ptr_and_hash hash equal lh d).1) by by rewrite Ep.
  assert (Eo : OPENSSL_lh_retrieve hash equal lh d = option_map it_data (deref lh p))
    by (unfold OPENSSL_lh_retrieve; by rewrite Ep).
  rewrite Eo. destruct (deref lh p) as [it|] eqn:Ed; cbn [option_map].
  - rewrite Ept in Ed. destruct (set_data_spec lh d it Hw Ed) as [Hw' Hl].
    rewrite <- Ept in Hw', Hl. eexists true, _. split; [done|]. split; [done|].
    split; [done|]. split; [done|]. split; [done|]. split; [|done].
    intros x. rewrite !retrieve_lookup, Hl by done. cbn [andb]. by destruct (equal d x).
  - destruct item_ok; cbn [negb].
    + rewrite Ept in Ed.
      assert (Ew : u64 (num_items (append_at p (Item d h) lh) + 1) = num_items lh + 1).
      { cbn. apply wrap_small. change (2 ^ 64) with 18446744073709551616.
        change (2 ^ 60) with 1152921504606846976 in Hn. lia. }
      rewrite Ew, Eh, Ept.
      destruct (append_spec lh d (num_items lh + 1) Hw eq_refl Hn Ed) as [Hw1 Hl].
      destruct (maybe_resize_spec rebucket_ok _ Hw1) as (Hw' & Hp & En & Ecd & Hb).
      eexists true, _. split; [done|]. split; [done|]. split; [done|]. split; [done|].
      split; [done|]. split.
      * intros x. eapply resized; [exact Hw1|done|]. rewrite Hl, retrieve_lookup by done.
        cbn [andb]. by destruct (equal d x).
      * intros Hr Hcd Hlt. apply Hb; [done|done|]. cbn. lia.
    + eexists false, _. by repeat (split; [done|]).
Qed.

Lemma delete_spec rebucket_ok lh d : well_formed lh ->
  let old := OPENSSL_lh_retrieve hash equal lh d in
  exists lh', OPENSSL_lh_delete hash equal rebucket_ok lh d = (old, lh') /\
  well_formed lh' /\ callback_depth lh' = callback_depth lh /\
  num_items lh' = match old with Some _ => num_items lh - 1 | None => num_items lh end /\
  (forall x, OPENSSL_lh_retrieve hash equal lh' x =
     if equal d x then None else OPENSSL_lh_retrieve hash equal lh x) /\
  (rebucket_ok = true -> callback_depth lh = 0 -> num_items lh < 3 * num_buckets lh ->
   num_items lh' < 3 * num_buckets lh').
Proof.
  intros Hw old. unfold old, OPENSSL_lh_delete.
  destruct (get_next_ptr_and_hash hash equal lh d) as [p h] eqn:Ep.
  assert (Ept : p = (get_next_ptr_and_hash hash equal lh d).1) by by rewrite Ep.
  assert (Eo : OPENSSL_lh_retrieve hash equal lh d = option_map it_data (deref lh p))
    by (unfold OPENSSL_lh_retrieve; by rewrite Ep).
  rewrite Eo. destruct (deref lh p) as [it|] eqn:Ed; cbn [option_map]; rewrite Ept in Ed.
  - pose proof Ed as Hin. rewrite (deref_lookup lh d Hw) in Hin.
    apply lookup_item_Some in Hin as [Hin _]; [|exact (wf_distinct _ Hw)].
    pose proof (num_items_pos lh it Hw Hin). pose proof (wf_small _ Hw) as Hs.
    assert (Ew : u64 (num_items (unlink_at p lh) - 1) = num_items lh - 1).
    { cbn. apply wrap_small. change (2 ^ 64) with 18446744073709551616.
      change (2 ^ 60) with 1152921504606846976 in Hs. lia. }
    rewrite Ew, Ept. destruct (unlink_spec lh d it (num_items lh - 1) Hw eq_refl Ed) as [Hw1 Hl].
    destruct (maybe_resize_spec rebucket_ok _ Hw1) as (Hw' & Hp & En & Ecd & Hb).
    eexists _. split; [done|]. split; [done|]. split; [done|]. split; [done|]. split.
    + intros x. eapply resized; [exact Hw1|done|]. rewrite Hl, retrieve_lookup by done.
      by destruct (equal d x).
    + intros Hr Hcd Hlt. apply Hb; [done|done|]. cbn. lia.
  - eexists lh. split; [done|]. split; [done|]. split; [done|]. split; [done|].
    split; [|done]. intros x. destruct (equal d x) eqn:Ex; [|done].
    rewrite (deref_lookup lh d Hw) in Ed. rewrite retrieve_lookup by done.
    destruct (lookup_item (all_items lh) x) as [it|] eqn:El; [|done].
    apply lookup_item_Some in El as [Hin Hx]; [|exact (wf_distinct _ Hw)].
    apply lookup_item_None in Ed. rewrite Forall_forall in Ed. specialize (Ed _ Hin).
    rewrite (equal_sym Hlaw) in Ex. by rewrite (equal_trans Hlaw _ _ _ Hx Ex) in Ed.
Qed.

(** ** The promise of lhash.h, as an abstract dictionary *)

Record dict : Type := Dict { entry : D -> option D; size : Z }.

Definition dict_insert (item_ok : bool) (m : dict) (d : D) : bool * option D * dict :=
  let assigned := fun x => if equal d x then Some d else entry m x in
  match entry m d with
  | Some old => (true, Some old, Dict assigned (size m))
  | None => if item_ok then (true, None, Dict assigned (size m + 1)) else (false, None, m)
  end.

Definition dict_delete (m : dict) (d : D) : option D * dict :=
  (entry m d, Dict (fun x => if equal d x then None else entry m x)
                match entry m d with Some _ => size m - 1 | None => size m end).

(** One call by a client; [item_ok] and [rebucket_ok] say whether the allocations
    the call makes succeed. *)
Inductive call : Type :=
| Insert (item_ok rebucket_ok : bool) (d : D)
| Delete (rebucket_ok : bool) (d : D)
| Retrieve (d : D)
| NumItems.
Inductive answer : Type :=
| Inserted (ok : bool) (old : option D)
| Data (d : option D)
| Count (n : Z).

Definition lh_call (lh : table) (c : call) : answer * table :=
  match c with
  | Insert item_ok rebucket_ok d =>
      let '(ok, old, lh') := OPENSSL_lh_insert hash equal item_ok rebucket_ok lh d in
      (Inserted ok old, lh')
  | Delete rebucket_ok d =>
      let '(old, lh') := OPENSSL_lh_delete hash equal rebucket_ok lh d in (Data old, lh')
  | Retrieve d => (Data (OPENSSL_lh_retrieve hash equal lh d), lh)
  | NumItems => (Count (OPENSSL_lh_num_items lh), lh)
  end.

Definition dict_call (m : dict) (c : call) : answer * dict :=
  match c with
  | Insert item_ok _ d => let '(ok, old, m') := dict_insert item_ok m d in (Inserted ok old, m')
  | Delete _ d => let '(old, m') := dict_delete m d in (Data old, m')
  | Retrieve d => (Data (entry m d), m)
  | NumItems => (Count (size m), m)
  end.

(** The answers of a sequence of calls, and the state after it. *)
Fixpoint run {S} (step : S -> call -> answer * S) (s : S) (cs : list call)
    : list answer * S :=
  match cs with
  | [] => ([], s)
  | c :: r => let '(a, s1) := step s c in let '(l, s2) := run step s1 r in (a :: l, s2)
  end.

Definition rebucket_succeeds (c : call) : bool :=
  match c with Insert _ ok _ | Delete ok _ => ok | _ => true end.

(** The simulation relation. *)
Record represents (lh : table) (m : dict) : Prop := {
  rep_wf : well_formed lh;
  rep_entry : forall x, OPENSSL_lh_retrieve hash equal lh x = entry m x;
  rep_size : num_items lh = size m }.

Lemma call_simulates lh m c : represents lh m -> num_items lh + 1 < 2 ^ 60 ->
  let '(a, lh') := lh_call lh c in let '(a', m') := dict_call m c in
  a = a' /\ represents lh' m' /\ num_items lh' <= num_items lh + 1 /\
  callback_depth lh' = callback_depth lh /\
  (rebucket_succeeds c = true -> callback_depth lh = 0 ->
   num_items lh < 3 * num_buckets lh -> num_items lh' < 3 * num_buckets lh').
Proof.
  intros [Hw He Hsz] Hn. destruct c as [iok rok d|rok d|d|]; cbn [lh_call dict_call].
  - destruct (insert_spec iok rok lh d Hw Hn)
      as (ok & lh' & E & Eok & Hw' & Hcd & Hni & Hr & Hload).
    rewrite E. unfold dict_insert. rewrite He in Eok, Hni |- *.
    assert (Hrep : forall x, OPENSSL_lh_retrieve hash equal lh' x =
                     if ok && equal d x then Some d else entry m x)
      by (intros x; by rewrite Hr, He).
    destruct (entry m d) as [old|]; [|destruct iok]; subst ok; cbn [andb] in Hrep;
      (split; [done|]; split; [split; [done|done|cbn; lia]|]; split; [lia|done]).
  - destruct (delete_spec rok lh d Hw) as (lh' & E & Hw' & Hcd & Hni & Hr & Hload).
    rewrite E. unfold dict_delete. rewrite He in Hni |- *.
    split; [done|]. split; [split; [done| |]|split; [|done]].
    + intros x. by rewrite Hr, He.
    + cbn. destruct (entry m d); lia.
    + destruct (entry m d); lia.
  - rewrite He. split; [done|]. split; [done|]. split; [lia|done].
  - unfold OPENSSL_lh_num_items. rewrite Hsz. split; [done|].
    split; [by split|]. split; [lia|done].
Qed.

Lemma run_simulates cs : forall lh m, represents lh m -> num_items lh + zlen cs < 2 ^ 60 ->
  let '(l, lh') := run lh_call lh cs in let '(l', m') := run dict_call m cs in
  l = l' /\ represents lh' m' /\
  (Forall (fun c => rebucket_succeeds c = true) cs -> callback_depth lh = 0 ->
   num_items lh < 3 * num_buckets lh -> num_items lh' < 3 * num_buckets lh').
Proof.
  induction cs as [|c cs IH]; intros lh m Hrep Hn; cbn [run]; [done|].
  assert (Hlen : zlen (c :: cs) = 1 + zlen cs) by (unfold zlen; cbn [length]; lia).
  pose proof (zlen_nonneg cs).
  pose proof (call_simulates lh m c Hrep ltac:(lia)) as Hc.
  destruct (lh_call lh c) as [a lh1], (dict_call m c) as [a' m1].
  destruct Hc as (-> & Hrep1 & Hn1 & Hcd & Hl). specialize (IH lh1 m1 Hrep1 ltac:(lia)).
  destruct (run lh_call lh1 cs) as [l lh2], (run dict_call m1 cs) as [l' m2].
  destruct IH as (-> & Hrep2 & Hl2). split; [done|]. split; [done|].
  intros Hf Hcd0 H3. inversion Hf as [|? ? Hf1 Hf2]; subst.
  apply Hl2; [done|by rewrite Hcd|by apply Hl].
Qed.

Definition empty_dict : dict := Dict (fun _ => None) 0.

Lemma new_represents ret_ok buckets_ok lh :
  OPENSSL_lh_new ret_ok buckets_ok = Some lh -> represents lh empty_dict.
Proof.
  intros H. destruct (new_well_formed _ _ _ H) as (Hw & E & _). split; [done| |].
  - intros x. rewrite retrieve_lookup, E by done. done.
  - by rewrite (wf_count _ Hw), E.
Qed.

Lemma run_from_new ret_ok buckets_ok lh0 cs :
  OPENSSL_lh_new ret_ok buckets_ok = Some lh0 -> zlen cs < 2 ^ 60 ->
  let '(l, lh') := run lh_call lh0 cs in let '(l', m') := run dict_call empty_dict cs in
  l = l' /\ represents lh' m' /\
  (Forall (fun c => rebucket_succeeds c = true) cs ->
   num_items lh' < 3 * num_buckets lh').
Proof.
  intros Hnew Hn. pose proof (new_represents _ _ _ Hnew) as Hrep.
  destruct (new_well_formed _ _ _ Hnew) as (Hw & E & Hcd).
  pose proof (rep_size _ _ Hrep) as Hsz. change (size empty_dict) with 0 in Hsz.
  pose proof (wf_min _ Hw) as Hm. change kMinNumBuckets with 16 in Hm.
  pose proof (run_simulates cs lh0 _ Hrep ltac:(lia)) as H.
  destruct (run lh_call lh0 cs), (run dict_call empty_dict cs).
  destruct H as (? & ? & Hl). split; [done|]. split; [done|].
  intros Hf. apply Hl; [done|done|lia].
Qed.
End Spec.
Arguments Dict {D}.
Arguments entry {D}.
Arguments size {D}.

(** C5: refinement: a fresh table answers every sequence of inserts, deletes,
    retrieves and counts exactly as the abstract dictionary does, whatever
    allocations fail on the way (a failed insert changes nothing, a failed resize is
    not observable), and at the end it is well formed and holds the dictionary's
    entries. *)
Theorem lh_refines_dict {D} (hash : D -> Z) (equal : D -> D -> bool) ret_ok buckets_ok lh0
    (cs : list (call (D := D))) :
  callbacks_lawful hash equal -> OPENSSL_lh_new ret_ok buckets_ok = Some lh0 ->
  zlen cs < 2 ^ 60 ->
  let '(answers, lh) := run (lh_call hash equal) lh0 cs in
  let '(expected, m) := run (dict_call equal) empty_dict cs in
  answers = expected /\ represents hash equal lh m.
Proof.
  intros Hlaw Hnew Hn. pose proof (run_from_new hash equal Hlaw _ _ _ cs Hnew Hn) as H.
  destruct (run (lh_call hash equal) _ cs), (run (dict_call equal) _ cs).
  by destruct H as (? & ? & _).
Qed.

(** C39: the load bound: if the resizes of a sequence of calls can allocate, the table
    has at the end fewer than three items a bucket on average (the resize is at
    more than two whole ones), and never fewer than sixteen buckets. *)
Theorem lh_load_bound {D} (hash : D -> Z) (equal : D -> D -> bool) ret_ok buckets_ok lh0
    (cs : list (call (D := D))) :
  callbacks_lawful hash equal -> OPENSSL_lh_new ret_ok buckets_ok = Some lh0 ->
  zlen cs < 2 ^ 60 -> Forall (fun c => rebucket_succeeds c = true) cs ->
  let lh := (run (lh_call hash equal) lh0 cs).2 in
  num_items lh < 3 * num_buckets lh /\ kMinNumBuckets <= num_buckets lh /\
  num_buckets lh = zlen (buckets lh).
Proof.
  intros Hlaw Hnew Hn Hf lh.
  pose proof (run_from_new hash equal Hlaw _ _ _ cs Hnew Hn) as H. unfold lh.
  destruct (run (lh_call hash equal) _ cs) as [l lh'], (run (dict_call equal) _ cs) as [l' m].
  destruct H as (_ & Hrep & Hl). pose proof (rep_wf _ _ _ _ Hrep) as Hw. cbn [snd].
  split; [by apply Hl|]. split; [apply (wf_min _ _ _ Hw)|apply (wf_buckets _ _ _ Hw)].
Qed.

Lemma foldl_concat {A B} (f : B -> A -> B) ls : forall b,
  foldl (fun acc l => foldl f acc l) b ls = foldl f b (concat ls).
Proof.
  induction ls as [|l ls IH]; intros b; [done|]. cbn [foldl concat]. by rewrite foldl_app, IH.
Qed.

(** the walk calls the function once for every item and leaves the table well
    formed, with the same entries and the same callback depth.  The depth must be
    two below the saturation value: at one below it the increment is not undone. *)
Theorem lh_doall_visits {D A} (hash : D -> Z) (equal : D -> D -> bool) rebucket_ok
    (lh : LHASH D) (func : D -> A -> A) (arg : A) :
  callbacks_lawful hash equal -> well_formed hash equal lh ->
  0 <= callback_depth lh -> callback_depth lh + 1 < UINT_MAX ->
  let '(arg', lh') := OPENSSL_lh_doall_arg rebucket_ok lh func arg in
  (exists visited, Permutation visited (all_items lh) /\
     arg' = foldl (fun acc it => func (it_data it) acc) arg visited /\
     zlen visited = OPENSSL_lh_num_items lh) /\
  well_formed hash equal lh' /\ callback_depth lh' = callback_depth lh /\
  forall x, OPENSSL_lh_retrieve hash equal lh' x = OPENSSL_lh_retrieve hash equal lh x.
Proof.
  intros Hlaw Hw H0 Hd. unfold OPENSSL_lh_doall_arg.
  bool_true (callback_depth lh <? UINT_MAX). cbn [callback_depth set_callback_depth buckets].
  bool_true (callback_depth lh + 1 <? UINT_MAX).
  set (lh2 := set_callback_depth (callback_depth lh + 1 - 1)
                (set_callback_depth (callback_depth lh + 1) lh)).
  assert (E2 : lh2 = lh).
  { unfold lh2, set_callback_depth. destruct lh. cbn. f_equal. lia. }
  rewrite E2. destruct (maybe_resize_spec hash equal Hlaw rebucket_ok lh Hw)
    as (Hw' & Hp & _ & Hcd & _).
  split; [|split; [done|split; [done|]]].
  - exists (all_items lh). split; [done|]. split; [|symmetry; exact (wf_count _ _ _ Hw)].
    apply (foldl_concat (fun acc it => func (it_data it) acc)).
  - intros x. by apply retrieve_perm.
Qed.

(** ** Witnesses: pairs of a key and a value, compared by their keys *)

Definition key_hash (d : Z * Z) : Z := d.1 mod 7.
Definition key_equal (a b : Z * Z) : bool := a.1 =? b.1.

Lemma key_lawful : callbacks_lawful key_hash key_equal.
Proof.
  split; unfold key_equal, key_hash; intros; rewrite ?Z.eqb_eq in *; try lia; try congruence.
  pose proof (Z.mod_pos_bound a.1 7 ltac:(lia)). change (2 ^ 32) with 4294967296. lia.
Qed.

Definition new_table : LHASH (Z * Z) :=
  match OPENSSL_lh_new true true with Some lh => lh | None => LHash 0 [] 0 0 end.

(** Fifty inserts, so the table grows once, a failed one, a replacement, deletes. *)
Definition sample_calls : list (call (D := Z * Z)) :=
  map (fun k => Insert true true (Z.of_nat k, 0)) (seq 0 50)
  ++ [Insert false true (50, 0); Insert false true (7, 1); Retrieve (7, 9); Retrieve (50, 0);
      Delete true (0, 0); Delete true (0, 0); NumItems].

Lemma lh_refines_dict_witness :
  let '(answers, lh) := run (lh_call key_hash key_equal) new_table sample_calls in
  let '(expected, m) := run (dict_call key_equal) empty_dict sample_calls in
  (answers = expected /\ represents key_hash key_equal lh m) /\
  num_buckets lh = 32 /\
  drop 50 answers = [Inserted false None; Inserted true (Some (7, 0)); Data (Some (7, 1));
    Data None; Data (Some (0, 0)); Data None; Count 49].
Proof.
  pose proof (lh_refines_dict key_hash key_equal true true new_table sample_calls key_lawful eq_refl
                ltac:(vm_compute; reflexivity)) as H.
  assert (E : num_buckets (run (lh_call key_hash key_equal) new_table sample_calls).2 = 32 /\
    drop 50 (run (lh_call key_hash key_equal) new_table sample_calls).1 =
      [Inserted false None; Inserted true (Some (7, 0)); Data (Some (7, 1));
       Data None; Data (Some (0, 0)); Data None; Count 49])
    by (split; vm_compute; reflexivity).
  destruct (run (lh_call key_hash key_equal) new_table sample_calls) as [answers lh],
    (run (dict_call key_equal) empty_dict sample_calls) as [expected m].
  exact (conj H E).
Defined.

Lemma lh_load_bound_witness :
  let lh := (run (lh_call key_hash key_equal) new_table sample_calls).2 in
  num_items lh < 3 * num_buckets lh /\ kMinNumBuckets <= num_buckets lh /\
  num_buckets lh = zlen (buckets lh).
Proof.
  apply (lh_load_bound key_hash key_equal true true new_table sample_calls key_lawful eq_refl).
  - vm_compute; reflexivity.
  - apply (bool_decide_eq_true_1 _). vm_compute; reflexivity.
Defined.

Lemma sample_well_formed :
  well_formed key_hash key_equal (run (lh_call key_hash key_equal) new_table sample_calls).2.
Proof.
  pose proof (run_from_new key_hash key_equal key_lawful true true new_table sample_calls
    eq_refl ltac:(vm_compute; reflexivity)) as H.
  destruct (run (lh_call key_hash key_equal) new_table sample_calls),
    (run (dict_call key_equal) empty_dict sample_calls). by destruct H as (_ & [] & _).
Qed.

Lemma lh_doall_visits_witness :
  let lh := (run (lh_call key_hash key_equal) new_table sample_calls).2 in
  let '(n, lh') := OPENSSL_lh_doall_arg true lh (fun d n => n + d.1) 0 in
  n = 1225 /\ callback_depth lh' = 0.
Proof.
  intros lh. assert (Hw : well_formed key_hash key_equal lh) by exact sample_well_formed.
  assert (Hd : callback_depth lh = 0) by (vm_compute; reflexivity).
  pose proof (lh_doall_visits key_hash key_equal true lh (fun d n => n + d.1) 0 key_lawful Hw
    ltac:(rewrite Hd; lia) ltac:(rewrite Hd; vm_compute; reflexivity)) as H.
  assert (En : (OPENSSL_lh_doall_arg true lh (fun d n => n + d.1) 0).1 = 1225)
    by (vm_compute; reflexivity).
  destruct (OPENSSL_lh_doall_arg true lh (fun d n => n + d.1) 0) as [n lh'].
  destruct H as (_ & _ & Hcd & _). split; [exact En|]. by rewrite Hcd.
Defined.
