(* ===== verification/UvHeap.v ===== *)
(** * libuv's binary heap (Pods/Libuv-gRPC/src/heap-inl.h)

    The heap is a tree of nodes linked by pointers, embedded in the objects of its
    user: a node is named by its address, a [nat], and the memory of all nodes is a
    store.  Following a null pointer, or one to no node, is [Ub]. *)
From S2P Require Import Prelude.

Record heap_node : Type := HeapNode {
  left : option nat; right : option nat; parent : option nat }.

Record heap : Type := Heap { h_min : option nat; nelts : Z; nodes : gmap nat heap_node }.

(** What a [struct heap_node**] of the code points to: [&heap->min], [&n->left] or
    [&n->right]. *)
Inductive loc : Type := AtMin | AtLeft (n : nat) | AtRight (n : nat).

Definition null_node : heap_node := HeapNode None None None.
Definition set_left (v : option nat) (x : heap_node) : heap_node :=
  HeapNode v (right x) (parent x).
Definition set_right (v : option nat) (x : heap_node) : heap_node :=
  HeapNode (left x) v (parent x).
Definition set_parent (v : option nat) (x : heap_node) : heap_node :=
  HeapNode (left x) (right x) v.

(** ** Access to the store *)

Definition load_node (n : nat) : M heap heap_node := fun h =>
  match nodes h !! n with Some x => Ret x h | None => Ub end.
Definition upd_node (n : nat) (f : heap_node -> heap_node) : M heap unit := fun h =>
  match nodes h !! n with
  | Some x => Ret tt (Heap (h_min h) (nelts h) (<[n := f x]> (nodes h)))
  | None => Ub
  end.
(** [if (p != NULL) p->parent = v]. *)
Definition upd_parent_of (p v : option nat) : M heap unit :=
  match p with None => ret tt | Some n => upd_node n (set_parent v) end.
Definition deref (p : option nat) : M heap nat := of_opt p.
Definition set_min (v : option nat) : M heap unit :=
  modm (fun h => Heap v (nelts h) (nodes h)).
Definition set_nelts (n : Z) : M heap unit :=
  modm (fun h => Heap (h_min h) n (nodes h)).
Definition load_loc (p : loc) : M heap (option nat) :=
  match p with
  | AtMin => let! h := getm in ret (h_min h)
  | AtLeft n => let! x := load_node n in ret (left x)
  | AtRight n => let! x := load_node n in ret (right x)
  end.
Definition store_loc (p : loc) (v : option nat) : M heap unit :=
  match p with
  | AtMin => set_min v
  | AtLeft n => upd_node n (set_left v)
  | AtRight n => upd_node n (set_right v)
  end.

(** ** Operations *)

Definition heap_init : M heap unit := set_min None ;;! set_nelts 0.

Definition heap_min : M heap (option nat) := let! h := getm in ret (h_min h).

(** Swap parent with child. Child moves closer to the root, parent moves away. *)
Definition heap_node_swap (par child : nat) : M heap unit :=
  let! t := load_node par in
  let! c := load_node child in
  upd_node par (fun _ => c) ;;!
  upd_node child (fun _ => t) ;;!
  upd_node par (set_parent (Some child)) ;;!
  let! c := load_node child in
  let! sibling :=
    if decide (left c = Some child)
    then upd_node child (set_left (Some par)) ;;! ret (right c)
    else upd_node child (set_right (Some par)) ;;! ret (left c) in
  upd_parent_of sibling (Some child) ;;!
  let! p := load_node par in
  upd_parent_of (left p) (Some par) ;;!
  upd_parent_of (right p) (Some par) ;;!
  let! c := load_node child in
  match parent c with
  | None => set_min (Some child)
  | Some g =>
      let! gn := load_node g in
      if decide (left gn = Some par)
      then upd_node g (set_left (Some child))
      else upd_node g (set_right (Some child))
  end.

(** The loop that computes the path from the root to position [n]: its result is
    the number of steps [k] and the bits [path], the first step in the lowest. *)
Fixpoint path_loop (fuel : nat) (k path n : Z) : option (Z * Z) :=
  match fuel with
  | O => None
  | S f =>
      if 2 <=? n
      then path_loop f (u32 (k + 1)) (Z.lor (u32 (Z.shiftl path 1)) (Z.land n 1)) (n / 2)
      else Some (k, path)
  end.
(** A 32-bit [n] is halved at most 31 times. *)
Definition heap_path (n : Z) : M heap (Z * Z) := fun h =>
  match path_loop 32 0 0 n with Some p => Ret p h | None => NoFuel end.

(** The walk along a path from [child]; the other pointer lags one step behind. *)
Fixpoint walk_loop (k : nat) (path : Z) (par child : loc) : M heap (loc * loc) :=
  match k with
  | O => ret (par, child)
  | S j =>
      let! c := load_loc child in
      let! n := deref c in
      walk_loop j (Z.shiftr path 1) child
                (if negb (Z.land path 1 =? 0) then AtRight n else AtLeft n)
  end.

Section heap.
Context (less_than : nat -> nat -> bool).

(** The loops that move a node up and down visit every level at most once, and a
    heap of 32-bit size has at most 32 levels. *)
Definition levels : nat := 33.

Fixpoint swim (fuel : nat) (n : nat) : M heap unit :=
  match fuel with
  | O => nofuelm
  | S f =>
      let! x := load_node n in
      match parent x with
      | None => ret tt
      | Some p => if less_than n p then heap_node_swap p n ;;! swim f n else ret tt
      end
  end.

Definition smaller (c : option nat) (smallest : nat) : nat :=
  match c with
  | Some c => if less_than c smallest then c else smallest
  | None => smallest
  end.

Fixpoint sink (fuel : nat) (child : nat) : M heap unit :=
  match fuel with
  | O => nofuelm
  | S f =>
      let! x := load_node child in
      let smallest := smaller (right x) (smaller (left x) child) in
      if decide (smallest = child) then ret tt
      else heap_node_swap child smallest ;;! sink f child
  end.

Definition heap_insert (newnode : nat) : M heap unit :=
  upd_node newnode (set_left None) ;;!
  upd_node newnode (set_right None) ;;!
  upd_node newnode (set_parent None) ;;!
  let! h := getm in
  let! (k, path) := heap_path (u32 (1 + nelts h)) in
  let! (par, child) := walk_loop (Z.to_nat k) path AtMin AtMin in
  let! v := load_loc par in
  upd_node newnode (set_parent v) ;;!
  store_loc child (Some newnode) ;;!
  let! h := getm in
  set_nelts (u32 (nelts h + 1)) ;;!
  swim levels newnode.

(** Replace the to be deleted node with the max node. *)
Definition heap_replace (node child : nat) : M heap unit :=
  let! x := load_node node in
  upd_node child (set_left (left x)) ;;!
  let! x := load_node node in
  upd_node child (set_right (right x)) ;;!
  let! x := load_node node in
  upd_node child (set_parent (parent x)) ;;!
  let! y := load_node child in
  upd_parent_of (left y) (Some child) ;;!
  let! y := load_node child in
  upd_parent_of (right y) (Some child) ;;!
  let! x := load_node node in
  match parent x with
  | None => set_min (Some child)
  | Some p =>
      let! y := load_node p in
      if decide (left y = Some node)
      then upd_node p (set_left (Some child))
      else upd_node p (set_right (Some child))
  end.

Definition heap_remove (node : nat) : M heap unit :=
  let! h := getm in
  if nelts h =? 0 then ret tt
  else
    let! (k, path) := heap_path (nelts h) in
    let! (_, max) := walk_loop (Z.to_nat k) path AtMin AtMin in
    set_nelts (u32 (nelts h - 1)) ;;!
    let! c := load_loc max in
    store_loc max None ;;!
    if decide (c = Some node) then
      let! h := getm in
      if decide (c = h_min h) then set_min None else ret tt
    else
      let! child := deref c in
      heap_replace node child ;;!
      sink levels child ;;!
      swim levels child.

(** [heap_remove(heap, heap->min, less_than)]: on an empty heap the null pointer is
    not followed, because the number of elements is checked first. *)
Definition heap_dequeue : M heap unit :=
  let! h := getm in
  match h_min h with
  | Some n => heap_remove n
  | None => if nelts h =? 0 then ret tt else ubm
  end.

End heap.
