(* ===== verification/UvHeapSpec.v ===== *)
(** * libuv's heap: a tree in level order, and a priority queue

    The linked nodes of [UvHeap] are described by the list of their addresses in
    level order: the node at position [p], from 1, has its children at [2 * p] and
    [2 * p + 1].  This file proves that the pointer operations -- swapping a node with
    its parent, walking to a position, linking and unlinking the last node, putting
    one node in the place of another -- are the corresponding list operations. *)
From S2P Require Import Prelude UvHeap.

Local Open Scope nat_scope.

(** ** Positions *)

Definition slot (l : list nat) (p : nat) : option nat :=
  match p with O => None | S i => l !! i end.
Definition place (l : list nat) (p x : nat) : list nat := <[pred p := x]> l.
(** The node a position must hold. *)
Definition node_at (l : list nat) (p : nat) : heap_node :=
  HeapNode (slot l (2 * p)) (slot l (2 * p + 1)) (slot l (p / 2)).

Lemma half_spec p : 2 * (p / 2) <= p <= 2 * (p / 2) + 1.
Proof. pose proof (Nat.div_mod_eq p 2). pose proof (Nat.mod_upper_bound p 2). lia. Qed.
(** Facts about the halves that occur, for [lia]. *)
Ltac halves :=
  repeat match goal with
  | |- context [?p / 2] =>
      lazymatch goal with _ : 2 * (p / 2) <= p <= _ |- _ => fail | _ => pose proof (half_spec p) end
  | _ : context [?p / 2] |- _ =>
      lazymatch goal with _ : 2 * (p / 2) <= p <= _ |- _ => fail | _ => pose proof (half_spec p) end
  end.

Lemma slot_range l p x : slot l p = Some x -> 1 <= p <= length l.
Proof. destruct p as [|i]; [done|]. intros H%lookup_lt_Some. lia. Qed.

Lemma slot_is_Some l p : 1 <= p <= length l -> exists x, slot l p = Some x.
Proof. destruct p as [|i]; [lia|]. intros H. apply lookup_lt_is_Some_2. lia. Qed.

Lemma slot_None l p : length l < p -> slot l p = None.
Proof. destruct p as [|i]; [done|]. intros H. apply lookup_ge_None_2. lia. Qed.

Lemma slot_inj l p q x : NoDup l -> slot l p = Some x -> slot l q = Some x -> p = q.
Proof.
  destruct p as [|i], q as [|j]; try done. intros H Hi Hj. f_equal.
  by apply (NoDup_lookup l i j x).
Qed.

Lemma slot_elem l x : x ∈ l <-> exists p, slot l p = Some x.
Proof.
  rewrite list_elem_of_lookup. split.
  - intros [i H]. by exists (S i).
  - intros [[|i] H]; [done|]. by exists i.
Qed.

Lemma place_length l p x : length (place l p x) = length l.
Proof. apply length_insert. Qed.

Lemma slot_place l p x s :
  1 <= p <= length l -> slot (place l p x) s = if decide (s = p) then Some x else slot l s.
Proof.
  intros Hp. unfold place. destruct s as [|s]; [by rewrite decide_False by lia|]. cbn [slot].
  destruct (decide (S s = p)) as [<-|Hne].
  - apply list_lookup_insert_eq. cbn. lia.
  - apply list_lookup_insert_ne. lia.
Qed.

Lemma slot_snoc l x s :
  slot (l ++ [x]) s = if decide (s = S (length l)) then Some x else slot l s.
Proof.
  destruct s as [|s]; [done|]. cbn [slot]. destruct (decide (S s = S (length l))) as [E|Hne].
  - injection E as ->. by rewrite lookup_app_r, Nat.sub_diag by lia.
  - destruct (decide (s < length l)) as [?|?]; [by rewrite lookup_app_l|].
    rewrite !lookup_ge_None_2; [done|lia|rewrite length_app; cbn; lia].
Qed.

(** The list with the node of position [p] and its parent's exchanged. *)
Definition exchange (l : list nat) (p par child : nat) : list nat :=
  place (place l (p / 2) child) p par.
(** The position whose node [exchange] brings to position [s]. *)
Definition from (p s : nat) : nat :=
  if decide (s = p) then p / 2 else if decide (s = p / 2) then p else s.

Lemma slot_exchange l p par child s :
  slot l (p / 2) = Some par -> slot l p = Some child ->
  slot (exchange l p par child) s = slot l (from p s).
Proof.
  intros Hq Hp. pose proof (slot_range _ _ _ Hp). pose proof (slot_range _ _ _ Hq).
  unfold exchange, from. rewrite !slot_place by (rewrite ?place_length; lia).
  by repeat case_decide.
Qed.

Lemma exchange_length l p par child : length (exchange l p par child) = length l.
Proof. unfold exchange. by rewrite !place_length. Qed.

Lemma NoDup_slots l :
  (forall p q x, slot l p = Some x -> slot l q = Some x -> p = q) -> NoDup l.
Proof. intros H. apply NoDup_alt. intros i j x Hi Hj. pose proof (H (S i) (S j) x Hi Hj). lia. Qed.

Lemma exchange_perm l p par child :
  NoDup l -> slot l (p / 2) = Some par -> slot l p = Some child ->
  exchange l p par child ≡ₚ l.
Proof.
  intros Hl Hq Hp. pose proof (slot_range _ _ _ Hp). pose proof (slot_range _ _ _ Hq).
  assert (Hf : forall s, from p (from p s) = s) by (intros; unfold from; halves; repeat case_decide; lia).
  apply NoDup_Permutation; [|done|].
  - apply NoDup_slots. intros r s x. rewrite !slot_exchange by done. intros Hr Hs.
    rewrite <- (Hf r), <- (Hf s). f_equal. by apply (slot_inj l _ _ x).
  - intros x. rewrite !slot_elem. split.
    + intros [s Hs]. rewrite slot_exchange in Hs by done. eauto.
    + intros [s Hs]. exists (from p s). by rewrite slot_exchange, Hf by done.
Qed.

(** ** The view of the store through a list

    The node of each position [s] holds [V s]; updates of nodes are updates of [V]. *)
Definition view (l : list nat) (V : nat -> heap_node) (D : gset nat) (m : gmap nat heap_node) : Prop :=
  (forall s x, slot l s = Some x -> m !! x = Some (V s)) /\ dom m = D.
Definition vupd (V : nat -> heap_node) (t : nat) (f : heap_node -> heap_node) : nat -> heap_node :=
  fun s => if decide (s = t) then f (V s) else V s.

Section view.
Context (l : list nat) (Hl : NoDup l) (D : gset nat) (mn : option nat) (ne : Z).

Lemma load_view V m t x :
  view l V D m -> slot l t = Some x ->
  load_node x (Heap mn ne m) = Ret (V t) (Heap mn ne m).
Proof. intros [Hv _] Hx. unfold load_node. cbn [nodes]. by rewrite (Hv _ _ Hx). Qed.

Lemma upd_view f V m t x :
  view l V D m -> slot l t = Some x ->
  exists m', upd_node x f (Heap mn ne m) = Ret tt (Heap mn ne m') /\ view l (vupd V t f) D m'.
Proof using Hl.
  intros [Hv Hd] Hx. unfold upd_node. cbn [nodes h_min nelts]. rewrite (Hv _ _ Hx).
  eexists. split; [done|]. split.
  - intros s y Hy. unfold vupd. destruct (decide (s = t)) as [->|Hne].
    + assert (y = x) as -> by congruence. by rewrite lookup_insert_eq.
    + rewrite lookup_insert_ne; [by apply Hv|]. intros ->. by apply Hne, (slot_inj l _ _ y).
  - rewrite <- Hd. apply dom_insert_lookup_L. by rewrite (Hv _ _ Hx).
Qed.

Lemma upd_parent_view V m t v :
  view l V D m ->
  exists m', upd_parent_of (slot l t) v (Heap mn ne m) = Ret tt (Heap mn ne m') /\
    view l (vupd V t (set_parent v)) D m'.
Proof using Hl.
  intros Hv. destruct (slot l t) as [x|] eqn:Hx; cbn [upd_parent_of].
  - by apply upd_view.
  - exists m. split; [done|]. destruct Hv as [Hv Hd]. split; [|done].
    intros s y Hy. unfold vupd. rewrite decide_False by congruence. by apply Hv.
Qed.

End view.

(** One step of a run over a view: a load, an update, the next statement. *)
Ltac vload Hv Hs := erewrite bind_Ret by (apply (load_view _ _ _ _ _ _ _ _ Hv Hs)).
Ltac vstep lem :=
  let m' := fresh "m" in let E := fresh "E" in let Hv := fresh "Hv" in
  destruct lem as (m' & E & Hv); rewrite (bind_Ret _ _ _ _ _ E); clear E.
Ltac vcases :=
  unfold vupd; repeat (case_decide; try (exfalso; lia));
  cbn [left right parent set_left set_right set_parent].

(** ** Swapping a node with its parent *)

(** A view through one list is a view through another that names the same nodes. *)
Lemma view_relabel l l' V W D m (g : nat -> nat) :
  view l V D m ->
  (forall s x, slot l' s = Some x -> slot l (g s) = Some x /\ V (g s) = W s) ->
  view l' W D m.
Proof.
  intros [Hv Hd] H. split; [|done]. intros s x Hx. destruct (H s x Hx) as [Hs <-]. by apply Hv.
Qed.

Lemma view_ext l V W D m : (forall s, V s = W s) -> view l V D m -> view l W D m.
Proof. intros E Hv. apply (view_relabel l l V W D m (fun s => s) Hv). eauto. Qed.

Lemma node_at_exchange l p par child s :
  slot l (p / 2) = Some par -> slot l p = Some child ->
  node_at (exchange l p par child) s =
  HeapNode (slot l (from p (2 * s))) (slot l (from p (2 * s + 1))) (slot l (from p (s / 2))).
Proof. intros Hq Hp. unfold node_at. by rewrite !slot_exchange by done. Qed.

Section swap.
Context (l : list nat) (Hl : NoDup l) (D : gset nat) (ne : Z).
Context (p par child : nat).
Context (Hq : slot l (p / 2) = Some par) (Hp : slot l p = Some child).

(** The nodes after the contents are exchanged and the two are linked. *)
Definition swap_links (s : nat) : heap_node :=
  let sib := if decide (p = 2 * (p / 2)) then p + 1 else p - 1 in
  if decide (s = p / 2) then set_parent (Some child) (node_at l p)
  else if decide (s = p) then
    (if decide (p = 2 * (p / 2)) then set_left (Some par) else set_right (Some par)) (node_at l (p / 2))
  else if decide (s = sib) then set_parent (Some child) (node_at l s)
  else if decide (s / 2 = p) then set_parent (Some par) (node_at l s)
  else node_at l s.

Lemma swap_links_run m mn :
  view l (node_at l) D m ->
  exists m', view l swap_links D m' /\
    heap_node_swap par child (Heap mn ne m) =
    (let! c := load_node child in
     match parent c with
     | None => set_min (Some child)
     | Some g =>
         let! gn := load_node g in
         if decide (left gn = Some par)
         then upd_node g (set_left (Some child))
         else upd_node g (set_right (Some child))
     end) (Heap mn ne m').
Proof using Hl Hq Hp.
  intros Hv. pose proof (slot_range _ _ _ Hp). pose proof (slot_range _ _ _ Hq).
  unfold heap_node_swap. pose proof (half_spec p) as Hhalf.
  vload Hv Hq. vload Hv Hp.
  vstep (upd_view l Hl D mn ne (fun _ => node_at l p) _ _ _ _ Hv Hq).
  vstep (upd_view l Hl D mn ne (fun _ => node_at l (p / 2)) _ _ _ _ Hv0 Hp).
  vstep (upd_view l Hl D mn ne (set_parent (Some child)) _ _ _ _ Hv1 Hq).
  vload Hv2 Hp.
  match type of Hv2 with view _ ?V _ _ => assert (EV : V p = node_at l (p / 2)) by (vcases; done) end.
  rewrite EV. cbn [node_at left right].
  set (sib := if decide (p = 2 * (p / 2)) then p + 1 else p - 1).
  set (fix_child := if decide (p = 2 * (p / 2)) then set_left (Some par) else set_right (Some par)).
  destruct (upd_view l Hl D mn ne fix_child _ _ _ _ Hv2 Hp) as (m3 & E3 & Hv3).
  rewrite (bind_Ret _ _ _ (slot l sib) (Heap mn ne m3)); last first.
  { unfold sib, fix_child in E3 |- *. destruct (decide (p = 2 * (p / 2))) as [E|E].
    - rewrite decide_True by congruence.
      rewrite (bind_Ret _ _ _ _ _ E3). unfold ret. do 2 f_equal. lia.
    - rewrite decide_False by (intros E'; pose proof (slot_inj _ _ _ _ Hl E' Hp); lia).
      rewrite (bind_Ret _ _ _ _ _ E3). unfold ret. do 2 f_equal. lia. }
  vstep (upd_parent_view l Hl D mn ne _ _ sib (Some child) Hv3).
  vload Hv4 Hq.
  match type of Hv4 with view _ ?V _ _ =>
    assert (EV' : V (p / 2) = set_parent (Some child) (node_at l p))
      by (unfold sib; vcases; done) end.
  rewrite EV'. cbn [node_at left right set_parent].
  vstep (upd_parent_view l Hl D mn ne _ _ (2 * p) (Some par) Hv4).
  vstep (upd_parent_view l Hl D mn ne _ _ (2 * p + 1) (Some par) Hv5).
  eexists. split; [|reflexivity].
  refine (view_ext _ _ _ _ _ _ Hv6). intros s. unfold swap_links.
  unfold fix_child, sib. halves. vcases; reflexivity.
Qed.

Lemma swap_links_final s x :
  slot (exchange l p par child) s = Some x ->
  vupd swap_links (p / 2 / 2)
    (if decide (p / 2 = 2 * (p / 2 / 2)) then set_left (Some child) else set_right (Some child))
    (from p s) = node_at (exchange l p par child) s.
Proof using Hq Hp.
  intros Hs%slot_range. rewrite exchange_length in Hs.
  pose proof (slot_range _ _ _ Hp). pose proof (slot_range _ _ _ Hq).
  rewrite node_at_exchange by done.
  pose proof Hq as Hq'. pose proof Hp as Hp'. revert Hq' Hp' H H0 Hs.
  pose proof (half_spec s) as Hts. pose proof (half_spec p) as Hqp.
  pose proof (half_spec (p / 2)) as Hrq. revert Hts Hqp Hrq.
  assert (Es : from p s = if decide (s = p) then p / 2 else if decide (s = p / 2) then p else s) by done.
  revert Es. generalize (from p s) as s'. unfold vupd, swap_links, node_at, from. intros s'.
  pose proof (half_spec s') as Hts'. revert Hts'.
  generalize (p / 2 / 2) as r. generalize (p / 2) as q. generalize (s / 2) as t. generalize (s' / 2) as t'.
  intros t' t q r Hts' Es Hts Hqp Hrq Hq' Hp' H H0 Hs.
  destruct (decide (s = p)) as [->|]; [subst s'|destruct (decide (s = q)) as [->|]; subst s'].
  all: vcases.
  all: unfold set_left, set_right, set_parent; cbn [left right parent]; f_equal.
  all: match goal with
       | |- Some _ = slot l ?a => first [rewrite <- Hp'|rewrite <- Hq']; f_equal; lia
       | |- slot l _ = slot l _ => f_equal; lia
       end.
Qed.

Lemma swap_run m :
  view l (node_at l) D m ->
  exists m', heap_node_swap par child (Heap (slot l 1) ne m) =
               Ret tt (Heap (slot (exchange l p par child) 1) ne m') /\
    view (exchange l p par child) (node_at (exchange l p par child)) D m'.
Proof using Hl Hq Hp.
  intros Hv. pose proof (slot_range _ _ _ Hp). pose proof (slot_range _ _ _ Hq).
  destruct (swap_links_run m (slot l 1) Hv) as (m1 & Hv1 & ->).
  assert (Es : forall f, (forall s x, slot (exchange l p par child) s = Some x ->
      f (from p s) = node_at (exchange l p par child) s) ->
    forall m', view l f D m' -> view (exchange l p par child) (node_at (exchange l p par child)) D m').
  { intros f Hf m' Hm'. apply (view_relabel l _ f _ D m' (from p) Hm'). intros s x Hx.
    split; [by rewrite slot_exchange in Hx by done|by apply (Hf s x)]. }
  vload Hv1 Hp.
  replace (parent (swap_links p)) with (slot l (p / 2 / 2)); last first.
  { unfold swap_links. halves. vcases; reflexivity. }
  destruct (slot l (p / 2 / 2)) as [g|] eqn:Hg.
  - pose proof (slot_range _ _ _ Hg). vload Hv1 Hg.
    replace (left (swap_links (p / 2 / 2))) with (slot l (2 * (p / 2 / 2))); last first.
    { unfold swap_links. halves. vcases; reflexivity. }
    replace (slot (exchange l p par child) 1) with (slot l 1); last first.
    { rewrite slot_exchange by done. unfold from. halves. by vcases. }
    destruct (upd_view l Hl D (slot l 1) ne
      (if decide (p / 2 = 2 * (p / 2 / 2)) then set_left (Some child) else set_right (Some child))
      _ _ _ _ Hv1 Hg) as (m2 & E2 & Hv2).
    exists m2. split; [|apply (Es _ swap_links_final _ Hv2)]. rewrite <- E2.
    destruct (decide (p / 2 = 2 * (p / 2 / 2))) as [E|E].
    + by rewrite decide_True by congruence.
    + rewrite decide_False; [done|]. intros E'. by pose proof (slot_inj _ _ _ _ Hl E' Hq).
  - assert (E1 : p / 2 = 1).
    { destruct (decide (1 <= p / 2 / 2)); [|halves; lia].
      destruct (slot_is_Some l (p / 2 / 2)) as [y Hy]; [halves; lia|congruence]. }
    exists m1. split.
    + unfold set_min, modm. cbn [nelts nodes]. rewrite slot_exchange by done.
      unfold from. rewrite E1. rewrite decide_False by (intros <-; discriminate E1).
      by rewrite decide_True, Hp by done.
    + apply (Es swap_links); [|done]. intros s x Hx. rewrite <- (swap_links_final s x Hx).
      unfold vupd. rewrite decide_False; [done|]. rewrite E1. change (1 / 2) with 0. unfold from. intros Ef.
      apply slot_range in Hx. repeat case_decide; lia.
Qed.
End swap.

(** ** The path to a position *)

(** Where [k] steps lead from position [p]. *)
Fixpoint dest (k : nat) (path : Z) (p : nat) : nat :=
  match k with
  | O => p
  | S j => dest j (Z.shiftr path 1) (2 * p + Z.to_nat (Z.land path 1))
  end.

Lemma dest_ge k path p : p <= dest k path p.
Proof.
  revert path p. induction k as [|k IH]; intros path p; cbn [dest]; [done|].
  etrans; [|apply IH]. lia.
Qed.

Lemma path_loop_dest f k path n :
  (1 <= n < 2 ^ Z.of_nat f -> 0 <= k -> k + Z.of_nat f <= 32 -> 0 <= path < 2 ^ k ->
   exists k' path', path_loop f k path n = Some (k', path') /\ (0 <= k')%Z /\
     dest (Z.to_nat k') path' 1 = dest (Z.to_nat k) path (Z.to_nat n))%Z.
Proof.
  revert k path n. induction f as [|f IH]; intros k path n Hn Hk Hf Hp.
  - change (2 ^ Z.of_nat 0)%Z with 1%Z in Hn. lia.
  - cbn [path_loop]. destruct (Z.leb_spec 2 n) as [Hge|Hlt].
    2: { exists k, path. by replace n with 1%Z by lia. }
    replace (Z.of_nat (S f)) with (Z.of_nat f + 1)%Z in * by lia. rewrite Z.pow_add_r in Hn by lia.
    change (2 ^ 1)%Z with 2%Z in Hn.
    assert (Hf1 : (1 <= Z.of_nat f)%Z) by (destruct f; [change (2 ^ Z.of_nat 0)%Z with 1%Z in Hn|]; lia).
    assert (Hk32 : (2 ^ (k + 1) <= 2 ^ 32)%Z) by (apply Z.pow_le_mono_r; lia).
    rewrite Z.pow_add_r in Hk32 by lia. change (2 ^ 1)%Z with 2%Z in Hk32.
    pose proof (Z.div_mod n 2). pose proof (Z.mod_pos_bound n 2).
    assert (Hland : Z.land n 1 = (n mod 2)%Z) by (apply (land_mask_mod n 1); lia).
    assert (Hnew : Z.lor (u32 (Z.shiftl path 1)) (Z.land n 1) = (2 * path + n mod 2)%Z).
    { rewrite Z.shiftl_mul_pow2 by lia. change (2 ^ 1)%Z with 2%Z. rewrite wrap_small by lia.
      rewrite Z.lor_comm, Hland. change 2%Z with (2 ^ 1)%Z at 2. rewrite <- Z.shiftl_mul_pow2 by lia.
      rewrite lor_shiftl_add by (change (2 ^ 1)%Z with 2%Z; lia). lia. }
    rewrite Hnew, (wrap_small 32 (k + 1)) by (change (2 ^ 32)%Z with 4294967296%Z; lia).
    destruct (IH (k + 1) (2 * path + n mod 2) (n / 2))%Z as (k' & path' & E & Hk' & Hd).
    1,2,3: lia.
    { rewrite Z.pow_add_r by lia. change (2 ^ 1)%Z with 2%Z. lia. }
    exists k', path'. split_and!; [done|done|]. rewrite Hd.
    replace (Z.to_nat (k + 1)) with (S (Z.to_nat k)) by lia. cbn [dest]. f_equal.
    + rewrite shiftr_div by lia. change (2 ^ 1)%Z with 2%Z. rewrite Z.mul_comm, Z.div_add_l by lia.
      rewrite (Z.div_small (n mod 2)) by lia. lia.
    + rewrite (land_mask_mod _ 1) by lia. change (2 ^ 1)%Z with 2%Z.
      rewrite Z.add_comm, Z.mul_comm, Z.mod_add, Z.mod_mod by lia. lia.
Qed.

Lemma heap_path_run n h :
  (1 <= n < 2 ^ 32)%Z ->
  exists k path, heap_path n h = Ret (k, path) h /\ dest (Z.to_nat k) path 1 = Z.to_nat n.
Proof.
  intros Hn. unfold heap_path.
  destruct (path_loop_dest 32 0 0 n) as (k & path & -> & _ & Hd); [done|done|done|done|].
  exists k, path. split; [done|]. by rewrite Hd.
Qed.

(** The pointer that holds the node of position [p]. *)
Definition loc_at (l : list nat) (p : nat) : loc :=
  match slot l (p / 2) with
  | Some x => if decide (p = 2 * (p / 2)) then AtLeft x else AtRight x
  | None => AtMin
  end.

Section loc.
Context (l : list nat) (D : gset nat) (ne : Z) (m : gmap nat heap_node).
Context (Hv : view l (node_at l) D m).

Lemma load_loc_run p :
  1 <= p <= 2 * length l + 1 ->
  load_loc (loc_at l p) (Heap (slot l 1) ne m) = Ret (slot l p) (Heap (slot l 1) ne m).
Proof using Hv.
  intros Hp. unfold loc_at. destruct (slot l (p / 2)) as [x|] eqn:Hx.
  - destruct (decide (p = 2 * (p / 2))) as [E|E]; cbn [load_loc]; vload Hv Hx.
    all: unfold ret, node_at; cbn [left right]; do 2 f_equal; halves; lia.
  - assert (p = 1) as ->; [|done].
    destruct (decide (p = 1)); [done|]. destruct (slot_is_Some l (p / 2)) as [y Hy]; [|congruence].
    halves. lia.
Qed.

Lemma walk_run k path par p :
  1 <= p -> dest k path p <= 2 * length l + 1 ->
  walk_loop k path par (loc_at l p) (Heap (slot l 1) ne m) =
  Ret (if k is O then par else loc_at l (dest k path p / 2), loc_at l (dest k path p))
      (Heap (slot l 1) ne m).
Proof using Hv.
  revert path par p. induction k as [|k IH]; intros path par p Hp Hd; [done|].
  cbn [walk_loop dest] in *.
  assert (Hbit : Z.land path 1 = (path mod 2)%Z) by (apply (land_mask_mod path 1); lia).
  pose proof (Z.mod_pos_bound path 2). set (b := Z.to_nat (Z.land path 1)) in *.
  pose proof (dest_ge k (Z.shiftr path 1) (2 * p + b)).
  rewrite (bind_Ret _ _ _ _ _ (load_loc_run p ltac:(lia))).
  destruct (slot_is_Some l p) as [x Hx]; [lia|]. rewrite Hx. cbn [deref of_opt bind].
  replace (if negb (Z.land path 1 =? 0)%Z then AtRight x else AtLeft x) with (loc_at l (2 * p + b)); last first.
  { assert (Hhalf : (2 * p + b) / 2 = p) by (halves; lia). unfold loc_at. rewrite Hhalf, Hx.
    destruct (Z.eqb_spec (Z.land path 1) 0); cbn [negb]; [apply decide_True|apply decide_False]; lia. }
  unfold bind, deref, of_opt. rewrite IH by lia. do 2 f_equal. destruct k as [|k]; [|done].
  cbn [dest]. f_equal. halves. lia.
Qed.

End loc.

(** ** The representation of a heap by a list *)

Definition hrep (l : list nat) (D : gset nat) (h : heap) : Prop :=
  NoDup l /\ h_min h = slot l 1 /\ nelts h = Z.of_nat (length l) /\
  view l (node_at l) D (nodes h).

(** The update of the parent of position [p] that links [v] there. *)
Definition side (p : nat) (v : option nat) : heap_node -> heap_node :=
  if decide (p = 2 * (p / 2)) then set_left v else set_right v.

Lemma store_loc_view l L V D m mn ne p v :
  NoDup L -> view L V D m -> 1 <= p <= 2 * length l + 1 ->
  (forall s x, slot l s = Some x -> slot L s = Some x) ->
  exists m', store_loc (loc_at l p) v (Heap mn ne m) =
               Ret tt (Heap (if decide (p = 1) then v else mn) ne m') /\
    view L (vupd V (p / 2) (side p v)) D m'.
Proof.
  intros HL Hv Hp HlL. unfold loc_at, side. destruct (slot l (p / 2)) as [x|] eqn:Hx.
  - rewrite (decide_False (P := p = 1)) by (intros ->; discriminate Hx). pose proof (HlL _ _ Hx) as HX.
    destruct (decide (p = 2 * (p / 2))); cbn [store_loc]; by apply (upd_view L HL D mn ne _ V m _ x).
  - assert (p = 1) as ->.
    { destruct (decide (p = 1)); [done|]. destruct (slot_is_Some l (p / 2)) as [y Hy]; [|congruence].
      halves. lia. }
    exists m. split; [done|]. destruct Hv as [Hv Hd]. split; [|done].
    intros s x Hs. unfold vupd. rewrite decide_False; [by apply Hv|].
    change (1 / 2) with 0. intros ->. discriminate Hs.
Qed.

(** *** Insertion *)

Lemma view_snoc l x D m :
  NoDup (l ++ [x]) -> view l (node_at l) D m -> x ∈ D ->
  exists v, view (l ++ [x]) (fun s => if decide (s = S (length l)) then v else node_at l s) D m.
Proof.
  intros Hl [Hv Hd] Hx. assert (Hs : is_Some (m !! x)) by (apply elem_of_dom; by rewrite Hd).
  destruct Hs as [v Hs]. exists v. split; [|done]. intros s y Hy. rewrite slot_snoc in Hy.
  destruct (decide (s = S (length l))); [congruence|by apply Hv].
Qed.

Lemma insert_links lt l D h x :
  hrep l D h -> x ∉ l -> x ∈ D -> (Z.of_nat (length l) + 1 < 2 ^ 32)%Z ->
  exists h', heap_insert lt x h = swim lt levels x h' /\ hrep (l ++ [x]) D h'.
Proof.
  intros (Hl & Hmin & Hne & Hv) Hx HD Hlen. destruct h as [mn ne m]. cbn in Hmin, Hne, Hv. subst mn ne.
  assert (HL : NoDup (l ++ [x])).
  { apply NoDup_app. split_and!; [done| |apply NoDup_singleton].
    intros y Hy ->%list_elem_of_singleton. done. }
  assert (HxL : slot (l ++ [x]) (S (length l)) = Some x) by (rewrite slot_snoc; by rewrite decide_True).
  assert (HlL : forall s y, slot l s = Some y -> slot (l ++ [x]) s = Some y).
  { intros s y Hs. pose proof (slot_range _ _ _ Hs). rewrite slot_snoc, decide_False; [done|lia]. }
  destruct (view_snoc l x D m HL Hv HD) as [v Hv0].
  unfold heap_insert. set (mn := slot l 1). set (ne := Z.of_nat (length l)).
  vstep (upd_view _ HL D mn ne (set_left None) _ _ _ _ Hv0 HxL).
  vstep (upd_view _ HL D mn ne (set_right None) _ _ _ _ Hv1 HxL).
  vstep (upd_view _ HL D mn ne (set_parent None) _ _ _ _ Hv2 HxL).
  rewrite (bind_Ret getm _ _ _ _ eq_refl). cbn [nelts].
  replace (u32 (1 + ne)) with (Z.of_nat (S (length l))) by (unfold ne; rewrite wrap_small; lia).
  destruct (heap_path_run (Z.of_nat (S (length l))) (Heap mn ne m2)) as (k & path & E & Hdest); [lia|].
  rewrite (bind_Ret _ _ _ _ _ E). clear E. rewrite Nat2Z.id in Hdest.
  assert (Hvl : view l (node_at l) D m2).
  { apply (view_relabel _ l _ _ _ _ (fun s => s) Hv3). intros s y Hs. split; [by apply HlL|].
    pose proof (slot_range _ _ _ Hs). by vcases. }
  assert (Hw := walk_run l D ne m2 Hvl (Z.to_nat k) path AtMin 1 ltac:(lia) ltac:(lia)).
  rewrite Hdest in Hw. rewrite (bind_Ret _ _ _ _ _ Hw). clear Hw.
  assert (Hpar : load_loc (if Z.to_nat k is O then AtMin else loc_at l (S (length l) / 2)) (Heap mn ne m2) =
                 Ret (slot l (S (length l) / 2)) (Heap mn ne m2)).
  { destruct (Z.to_nat k) eqn:Ek.
    - cbn [dest] in Hdest. injection Hdest as Hdest. rewrite <- Hdest. unfold load_loc, bind, getm, ret, mn.
      do 2 f_equal. by destruct l.
    - cbn [dest] in Hdest. match type of Hdest with dest ?a ?b ?c = _ => pose proof (dest_ge a b c) end.
      apply (load_loc_run l D ne m2 Hvl). halves. lia. }
  rewrite (bind_Ret _ _ _ _ _ Hpar). clear Hpar.
  vstep (upd_view _ HL D mn ne (set_parent (slot l (S (length l) / 2))) _ _ _ _ Hv3 HxL).
  vstep (store_loc_view l (l ++ [x]) _ D m3 mn ne (S (length l)) (Some x) HL Hv4 ltac:(lia) HlL).
  rewrite (bind_Ret getm _ _ _ _ eq_refl). cbn [nelts].
  unfold set_nelts. rewrite (bind_Ret (modm _) _ _ _ _ eq_refl). cbn [h_min nodes].
  eexists. split; [reflexivity|]. split_and!; [done| | |]; cbn [h_min nelts nodes].
  - rewrite slot_snoc. unfold mn. repeat case_decide; try done; lia.
  - rewrite wrap_small, length_app by (unfold ne; lia). unfold ne. cbn [length]. lia.
  - refine (view_relabel _ _ _ _ _ _ (fun s => s) Hv5 _). intros s y Hs. split; [done|].
    pose proof (slot_range _ _ _ Hs) as Hr. rewrite length_app in Hr. cbn [length] in Hr.
    unfold node_at, side. rewrite !slot_snoc. halves. vcases.
    all: unfold set_left, set_right, set_parent; cbn [left right parent]; f_equal.
    all: first [by rewrite slot_None by lia | congruence].
Qed.

(** *** Removal *)

Section remove.
Context (lt : nat -> nat -> bool) (k : list nat) (c : nat) (D : gset nat).
Context (HL : NoDup (k ++ [c])).
Local Abbreviation n := (S (length k)).
Local Abbreviation L := (k ++ [c]).

Lemma k_in_L s y : slot k s = Some y -> slot L s = Some y.
Proof. intros Hs. pose proof (slot_range _ _ _ Hs). rewrite slot_snoc, decide_False; [done|lia]. Qed.

Lemma slot_last : slot L n = Some c.
Proof. rewrite slot_snoc. by rewrite decide_True. Qed.

(** The nodes after the last is unlinked: it still holds what it held. *)
Definition unlinked (s : nat) : heap_node :=
  if decide (s = n) then node_at L n else node_at k s.

Lemma unlink_run node h :
  hrep L D h -> (Z.of_nat n < 2 ^ 32)%Z ->
  exists m, view L unlinked D m /\
    heap_remove lt node h =
    (if decide (c = node) then ret tt
     else heap_replace node c ;;! sink lt levels c ;;! swim lt levels c)
      (Heap (slot k 1) (Z.of_nat (length k)) m).
Proof using HL.
  intros (_ & Hmin & Hne & Hv) Hlen. destruct h as [mn ne m]. cbn in Hmin, Hne, Hv. subst mn ne.
  rewrite length_app in *. cbn [length] in *. rewrite Nat.add_1_r in *.
  unfold heap_remove. rewrite (bind_Ret getm _ _ _ _ eq_refl). cbn [nelts].
  bool_false (Z.of_nat n =? 0)%Z.
  destruct (heap_path_run (Z.of_nat n) (Heap (slot L 1) (Z.of_nat n) m)) as (j & path & E & Hdest); [lia|].
  rewrite (bind_Ret _ _ _ _ _ E). clear E. rewrite Nat2Z.id in Hdest.
  assert (HlenL : length L = n) by (rewrite length_app; cbn; lia).
  assert (Hw := walk_run L D (Z.of_nat n) m Hv (Z.to_nat j) path AtMin 1 ltac:(lia) ltac:(lia)).
  rewrite Hdest in Hw. rewrite (bind_Ret _ _ _ _ _ Hw). clear Hw.
  unfold set_nelts. rewrite (bind_Ret (modm _) _ _ _ _ eq_refl). cbn [h_min nodes].
  replace (u32 (Z.of_nat n - 1)) with (Z.of_nat (length k)) by (rewrite wrap_small; lia).
  rewrite (bind_Ret _ _ _ _ _ (load_loc_run L D _ m Hv n ltac:(lia))), slot_last.
  vstep (store_loc_view L L _ D m (slot L 1) (Z.of_nat (length k)) n None HL Hv ltac:(lia) ltac:(done)).
  replace (if decide (n = 1) then None else slot L 1) with (slot k 1); last first.
  { rewrite slot_snoc. destruct k as [|a k']; [done|]. cbn [length]. by vcases. }
  exists m0. split.
  - refine (view_relabel _ _ _ _ _ _ (fun s => s) Hv0 _). intros s y Hs. split; [done|].
    pose proof (slot_range _ _ _ Hs) as Hr. rewrite HlenL in Hr.
    unfold vupd, unlinked, node_at, side. cbv beta. rewrite !slot_snoc. halves. vcases.
    all: unfold set_left, set_right, set_parent; cbn [left right parent]; f_equal.
    all: first [by rewrite slot_None by lia | congruence].
  - destruct (decide (c = node)) as [<-|Hne].
    + rewrite decide_True by done. rewrite (bind_Ret getm _ _ _ _ eq_refl). cbn [h_min].
      rewrite decide_False; [done|]. intros Hs. pose proof (slot_range _ _ _ (eq_sym Hs)).
      pose proof (slot_inj _ _ _ _ HL (k_in_L _ _ (eq_sym Hs)) slot_last). lia.
    + by rewrite decide_False by congruence.
Qed.

Context (node p : nat) (Hnode : slot k p = Some node).

(** The nodes after the last takes the place of the node of position [p], which stays
    with the links it had. *)
Lemma replace_run m ne :
  view L unlinked D m ->
  exists m', heap_replace node c (Heap (slot k 1) ne m) =
               Ret tt (Heap (slot (place k p c) 1) ne m') /\
    view (place k p c) (node_at (place k p c)) D m'.
Proof using HL Hnode.
  intros Hv. set (mn := slot k 1). pose proof (slot_range _ _ _ Hnode) as Hp.
  pose proof (k_in_L _ _ Hnode) as HnL. pose proof slot_last as Hc.
  unfold heap_replace.
  vload Hv HnL. vstep (upd_view _ HL D mn ne (set_left (left (unlinked p))) _ _ _ _ Hv Hc).
  vload Hv0 HnL. match type of Hv0 with view _ ?V _ _ => replace (V p) with (unlinked p) by (vcases; done) end.
  vstep (upd_view _ HL D mn ne (set_right (right (unlinked p))) _ _ _ _ Hv0 Hc).
  vload Hv1 HnL. match type of Hv1 with view _ ?V _ _ => replace (V p) with (unlinked p) by (vcases; done) end.
  vstep (upd_view _ HL D mn ne (set_parent (parent (unlinked p))) _ _ _ _ Hv1 Hc).
  (* the children, as positions of [L] *)
  assert (Hin : forall t, slot k t = slot L (if decide (t <= length k) then t else 0)).
  { intros t. case_decide; [|by rewrite slot_None by lia]. rewrite slot_snoc, decide_False by lia. done. }
  vload Hv2 Hc. match type of Hv2 with view _ ?V _ _ => replace (V n) with (unlinked p)
    by (vcases; by destruct (unlinked p)) end.
  replace (unlinked p) with (node_at k p) by (unfold unlinked; by vcases).
  cbn [node_at left right]. rewrite (Hin (2 * p)).
  vstep (upd_parent_view _ HL D mn ne _ _ (if decide (2 * p <= length k) then 2 * p else 0) (Some c) Hv2).
  vload Hv3 Hc. match type of Hv3 with view _ ?V _ _ => replace (right (V n)) with (slot k (2 * p + 1))
    by (unfold unlinked; vcases; done) end.
  rewrite (Hin (2 * p + 1)).
  vstep (upd_parent_view _ HL D mn ne _ _ (if decide (2 * p + 1 <= length k) then 2 * p + 1 else 0) (Some c) Hv3).
  vload Hv4 HnL. match type of Hv4 with view _ ?V _ _ => replace (parent (V p)) with (slot k (p / 2))
    by (unfold unlinked; vcases; done) end.
  match type of Hv4 with view _ ?V _ _ => set (W := V) in Hv4 end.
  assert (HW : forall s x, slot (place k p c) s = Some x ->
    vupd W (p / 2) (side p (Some c)) (if decide (s = p) then n else s) = node_at (place k p c) s).
  { intros s x Hs%slot_range. rewrite place_length in Hs. unfold W, unlinked, side, node_at.
    rewrite !slot_place by lia. halves. vcases.
    all: unfold set_left, set_right, set_parent; cbn [left right parent]; f_equal.
    all: congruence. }
  assert (Hfin : forall m', view L (vupd W (p / 2) (side p (Some c))) D m' ->
    view (place k p c) (node_at (place k p c)) D m').
  { intros m' Hm'. refine (view_relabel _ _ _ _ _ _ (fun s => if decide (s = p) then n else s) Hm' _).
    intros s x Hs. split; [|by apply (HW s x)]. rewrite slot_place in Hs by lia.
    case_decide; [congruence|by apply k_in_L]. }
  destruct (slot k (p / 2)) as [g|] eqn:Hg.
  - pose proof (slot_range _ _ _ Hg). vload Hv4 (k_in_L _ _ Hg).
    replace (left (W (p / 2))) with (slot k (2 * (p / 2))) by (unfold W, unlinked; halves; vcases; done).
    destruct (upd_view _ HL D mn ne (side p (Some c)) _ _ _ _ Hv4 (k_in_L _ _ Hg)) as (m5 & E5 & Hv5).
    exists m5. split; [|by apply Hfin].
    rewrite slot_place, (decide_False (P := 1 = p)) by (halves; lia). fold mn. rewrite <- E5. unfold side.
    destruct (decide (p = 2 * (p / 2))) as [E|E]; [by rewrite decide_True by congruence|].
    rewrite decide_False; [done|]. intros E'. pose proof (slot_inj _ _ _ _ HL (k_in_L _ _ E') HnL). lia.
  - assert (p = 1) as Ep.
    { destruct (decide (p = 1)); [done|]. destruct (slot_is_Some k (p / 2)) as [y Hy]; [|congruence].
      halves. lia. }
    eexists. split; [unfold set_min, modm; by rewrite slot_place, decide_True by lia|].
    apply Hfin. destruct Hv4 as [Hv4 Hd]. split; [|done]. intros s x Hs. unfold vupd.
    rewrite decide_False; [by apply Hv4|]. rewrite Ep. change (1 / 2) with 0. intros ->. discriminate Hs.
Qed.

End remove.


(** * libuv's heap is a priority queue

    The loops that move a node up and down restore the
    heap order, within the number of levels, so that every operation keeps a complete
    binary tree in heap order over exactly the nodes inserted and not removed, whose
    root is a least element. *)

Local Open Scope nat_scope.

(** What [less_than] must be: a strict weak order. *)
Class HeapOrder (lt : nat -> nat -> bool) : Prop := {
  lt_asym : forall a b, lt a b = true -> lt b a = false;
  lt_trans : forall a b c, lt b a = false -> lt c b = false -> lt c a = false }.

Section order.
Context (lt : nat -> nat -> bool) `{!HeapOrder lt}.

(** [a] may be above [b]. *)
Definition above (a b : nat) : Prop := lt b a = false.

Lemma above_refl a : above a a.
Proof using All. unfold above. destruct (lt a a) eqn:E; [by rewrite (lt_asym _ _ E) in E|done]. Qed.
Lemma above_trans a b c : above a b -> above b c -> above a c.
Proof using All. apply lt_trans. Qed.
Lemma above_lt a b : lt a b = true -> above a b.
Proof using All. apply lt_asym. Qed.

Definition le_at (l : list nat) (q r : nat) : Prop :=
  forall x y, slot l q = Some x -> slot l r = Some y -> above x y.
Definition ordered (l : list nat) : Prop := forall q, le_at l (q / 2) q.
(** The order holds but for the node of [p], which may belong higher. *)
Definition upheap (l : list nat) (p : nat) : Prop :=
  (forall q, q <> p -> le_at l (q / 2) q) /\ (forall q, q / 2 = p -> le_at l (p / 2) q).
(** The order holds but for the node of [p], which may belong higher or lower. *)
Definition holeheap (l : list nat) (p : nat) : Prop :=
  (forall q, q <> p -> q / 2 <> p -> le_at l (q / 2) q) /\ (forall q, q / 2 = p -> le_at l (p / 2) q).

Lemma le_at_trans l q r s y :
  slot l r = Some y -> le_at l q r -> le_at l r s -> le_at l q s.
Proof using All. intros Hr Hqr Hrs x z Hx Hz. eapply above_trans; [by apply Hqr|by apply Hrs]. Qed.

Lemma le_at_nil l r : le_at l 0 r.
Proof. intros x y Hx. discriminate Hx. Qed.

Lemma upheap_ordered l p :
  upheap l p -> le_at l (p / 2) p -> ordered l.
Proof. intros [H _] Hp q. destruct (decide (q = p)) as [->|Hq]; [done|by apply H]. Qed.

Lemma le_at_exchange l p par child q r :
  slot l (p / 2) = Some par -> slot l p = Some child ->
  le_at l (from p q) (from p r) -> le_at (exchange l p par child) q r.
Proof. intros Hq Hp H x y. rewrite !slot_exchange by done. apply H. Qed.

(** A node that is smaller than its parent moves up. *)
Lemma upheap_step l p par child :
  slot l (p / 2) = Some par -> slot l p = Some child -> lt child par = true ->
  upheap l p -> upheap (exchange l p par child) (p / 2).
Proof using All.
  intros Hq Hp Hlt [Hord Hgr].
  pose proof (slot_range _ _ _ Hq). pose proof (slot_range _ _ _ Hp).
  assert (Hup : le_at l p (p / 2)) by (intros x y Hx Hy; apply above_lt; congruence).
  split.
  - intros q Hne. apply le_at_exchange; try done. unfold from.
    destruct (decide (q = p)) as [->|Hqp].
    { rewrite decide_False, decide_True by (halves; lia). done. }
    rewrite (decide_False (P := q = p / 2)) by done.
    destruct (decide (q / 2 = p)) as [E|Hc]; [by apply Hgr|].
    destruct (decide (q / 2 = p / 2)) as [E|Hs]; [|by apply Hord].
    apply (le_at_trans l p (p / 2) q par); [done|done|]. rewrite <- E. by apply Hord.
  - intros q E. apply le_at_exchange; try done. unfold from.
    destruct (decide (p / 2 / 2 = 0)) as [->|Hnz].
    { rewrite !decide_False by (halves; lia). apply le_at_nil. }
    rewrite (decide_False (P := p / 2 / 2 = p)) by (halves; lia).
    rewrite (decide_False (P := p / 2 / 2 = p / 2)) by (halves; lia).
    destruct (decide (q = p)) as [->|Hqp]; [apply Hord; halves; lia|].
    rewrite decide_False by (halves; lia).
    apply (le_at_trans l _ (p / 2) q par); [done|apply Hord; halves; lia|].
    rewrite <- E. by apply Hord.
Qed.

(** A node that is larger than a child moves down, under the smallest. *)
Lemma holeheap_step l j par child :
  slot l (j / 2) = Some par -> slot l j = Some child -> lt child par = true ->
  (forall q, q / 2 = j / 2 -> le_at l j q) ->
  holeheap l (j / 2) -> holeheap (exchange l j par child) j.
Proof using All.
  intros Hq Hp Hlt Hsm [Hord Hgr].
  pose proof (slot_range _ _ _ Hq). pose proof (slot_range _ _ _ Hp).
  split.
  - intros q Hqj Hcj. apply le_at_exchange; try done. unfold from.
    rewrite (decide_False (P := q = j)) by done. rewrite (decide_False (P := q / 2 = j)) by done.
    destruct (decide (q / 2 = j / 2)) as [E|Hs].
    { rewrite decide_False by (halves; lia). by apply Hsm. }
    destruct (decide (q = j / 2)) as [->|Hqp]; [by apply Hgr|by apply Hord].
  - intros q E. apply le_at_exchange; try done. unfold from.
    rewrite (decide_False (P := j / 2 = j)), (decide_True (P := j / 2 = j / 2)) by (halves; lia).
    rewrite !decide_False by (halves; lia). rewrite <- E at 1. apply Hord; halves; lia.
Qed.

(** ** The two loops *)

Lemma hrep_exchange l D h p par child :
  hrep l D h -> slot l (p / 2) = Some par -> slot l p = Some child ->
  exists h', heap_node_swap par child h = Ret tt h' /\ hrep (exchange l p par child) D h'.
Proof.
  intros (Hl & Hmin & Hne & Hv) Hq Hp. destruct h as [mn ne m]. cbn in Hmin, Hne, Hv. subst mn.
  destruct (swap_run l Hl D ne p par child Hq Hp m Hv) as (m' & E & Hv').
  eexists. split; [exact E|]. split_and!; cbn [h_min nelts nodes]; try done.
  - by rewrite exchange_perm.
  - by rewrite exchange_length.
Qed.

Lemma load_hrep l D h p x :
  hrep l D h -> slot l p = Some x -> load_node x h = Ret (node_at l p) h.
Proof. intros (_ & _ & _ & Hv) Hx. destruct h as [mn ne m]. by apply (load_view l D mn ne _ m p x). Qed.

Lemma swim_run f l D h p x :
  hrep l D h -> slot l p = Some x -> upheap l p -> p < 2 ^ f ->
  exists l' h', swim lt f x h = Ret tt h' /\ hrep l' D h' /\ ordered l' /\ l' ≡ₚ l.
Proof using All.
  revert l h p. induction f as [|f IH]; intros l h p Hh Hx Hup Hf.
  { apply slot_range in Hx. cbn in Hf. lia. }
  cbn [swim]. rewrite (bind_Ret _ _ _ _ _ (load_hrep _ _ _ _ _ Hh Hx)). cbn [node_at parent].
  destruct (slot l (p / 2)) as [y|] eqn:Hy.
  - destruct (lt x y) eqn:Hlt.
    + destruct (hrep_exchange _ _ _ _ _ _ Hh Hy Hx) as (h1 & E & Hh1).
      rewrite (bind_Ret _ _ _ _ _ E).
      destruct (IH (exchange l p y x) h1 (p / 2)) as (l' & h' & E' & Hh' & Ho & HP).
      * done.
      * rewrite slot_exchange by done. unfold from.
        pose proof (slot_range _ _ _ Hy). rewrite decide_False, decide_True by (halves; lia). done.
      * by apply upheap_step.
      * cbn in Hf. halves. lia.
      * exists l', h'. split_and!; try done. rewrite HP. apply exchange_perm; [by destruct Hh|done|done].
    + exists l, h. split_and!; try done. apply (upheap_ordered l p Hup). intros a b Ha Hb.
      unfold above. congruence.
  - exists l, h. split_and!; try done. apply (upheap_ordered l p Hup). intros a b Ha Hb. congruence.
Qed.

(** The choice of the smallest among a node and its children. *)
Lemma smaller_above o s : above (smaller lt o s) s /\ (forall x, o = Some x -> above (smaller lt o s) x).
Proof using All.
  unfold smaller. destruct o as [x|]; [|split; [apply above_refl|done]].
  destruct (lt x s) eqn:E; split; try (intros ? [= <-]).
  - by apply above_lt.
  - apply above_refl.
  - apply above_refl.
  - exact E.
Qed.

Lemma smaller_case o s : smaller lt o s = s \/ (o = Some (smaller lt o s) /\ lt (smaller lt o s) s = true).
Proof. unfold smaller. destruct o as [x|]; [|by left]. destruct (lt x s) eqn:E; auto. Qed.

Lemma smallest_spec l p c :
  slot l p = Some c ->
  let s := smaller lt (slot l (2 * p + 1)) (smaller lt (slot l (2 * p)) c) in
  (forall q y, q / 2 = p -> slot l q = Some y -> above s y) /\
  (s = c \/ exists j, j / 2 = p /\ slot l j = Some s /\ lt s c = true).
Proof using All.
  intros Hc. cbv zeta. set (a := smaller lt (slot l (2 * p)) c).
  destruct (smaller_above (slot l (2 * p)) c) as [Hac Hal]. fold a in Hac, Hal.
  destruct (smaller_above (slot l (2 * p + 1)) a) as [Hsa Hsr].
  set (s := smaller lt (slot l (2 * p + 1)) a) in *. split.
  - intros q y Hq Hy. pose proof (half_spec q). destruct (decide (q = 2 * p)) as [->|Hne].
    + apply (above_trans s a y Hsa). by apply Hal.
    + apply Hsr. rewrite <- Hy. f_equal. lia.
  - destruct (smaller_case (slot l (2 * p + 1)) a) as [E|[E Hlt]]; fold s in E.
    + rewrite E. destruct (smaller_case (slot l (2 * p)) c) as [E'|[E' Hlt']]; fold a in E'; [by left|].
      right. exists (2 * p). split_and!; try done. halves. lia.
    + right. exists (2 * p + 1). split_and!; [halves; lia|done|].
      fold s in Hlt. destruct (lt s c) eqn:Hsc; [done|].
      exfalso. assert (H : lt s a = false) by (apply (above_trans a c s Hac Hsc)). congruence.
Qed.

Lemma sink_run f l D h p c :
  hrep l D h -> slot l p = Some c -> holeheap l p -> length l < p * 2 ^ f ->
  exists l' h' p', sink lt f c h = Ret tt h' /\ hrep l' D h' /\ slot l' p' = Some c /\
    upheap l' p' /\ l' ≡ₚ l.
Proof using All.
  revert l h p. induction f as [|f IH]; intros l h p Hh Hc Hho Hf.
  { apply slot_range in Hc. cbn in Hf. lia. }
  cbn [sink]. rewrite (bind_Ret _ _ _ _ _ (load_hrep _ _ _ _ _ Hh Hc)). cbn [node_at left right].
  destruct (smallest_spec l p c Hc) as [Hall Hs].
  set (s := smaller lt (slot l (2 * p + 1)) (smaller lt (slot l (2 * p)) c)) in *.
  destruct (decide (s = c)) as [Es|Hne].
  - exists l, h, p. split_and!; try done. destruct Hho as [Hord Hgr]. split; [|done].
    intros q Hq. destruct (decide (q / 2 = p)) as [E|E]; [|by apply Hord].
    rewrite E. intros x y Hx Hy. assert (x = s) as -> by congruence. by apply (Hall q).
  - destruct Hs as [?|(j & Hj & Hsj & Hlt)]; [done|]. subst p.
    destruct (hrep_exchange _ _ _ _ _ _ Hh Hc Hsj) as (h1 & E & Hh1).
    rewrite (bind_Ret _ _ _ _ _ E). pose proof (slot_range _ _ _ Hc).
    destruct (IH (exchange l j c s) h1 j) as (l' & h' & p' & E' & Hh' & Hp' & Hup & HP).
    + done.
    + rewrite slot_exchange by done. unfold from. by rewrite decide_True.
    + apply holeheap_step; try done. intros q Hq x y Hx Hy.
      assert (x = s) as -> by congruence. by apply (Hall q).
    + rewrite exchange_length. rewrite Nat.pow_succ_r', Nat.mul_assoc, (Nat.mul_comm _ 2) in Hf.
      eapply Nat.lt_le_trans; [exact Hf|]. apply Nat.mul_le_mono_r. halves. lia.
    + exists l', h', p'. split_and!; try done. rewrite HP. apply exchange_perm; [by destruct Hh|done|done].
Qed.
End order.

(** ** The operations *)

(** The heap holds exactly the nodes of [X]; [D] are the nodes there are in memory. *)
Definition heap_rep (lt : nat -> nat -> bool) (D : gset nat) (h : heap) (X : gset nat) : Prop :=
  exists l, hrep l D h /\ ordered lt l /\ list_to_set l = X.

Section operations.
Context (lt : nat -> nat -> bool) `{!HeapOrder lt} (D : gset nat).
Local Abbreviation fits X := (Z.of_nat (size X) < 2 ^ 32)%Z.

Lemma heap_init_rep h :
  dom (nodes h) = D -> exists h', heap_init h = Ret tt h' /\ heap_rep lt D h' ∅.
Proof.
  intros HD. exists (Heap None 0 (nodes h)). split; [done|]. exists []. split_and!; [|by intros [|q] ??|done].
  split_and!; [constructor|done|done|]. split; [|done]. intros [|s] ?; done.
Qed.

Lemma ordered_snoc_up l x : ordered lt l -> upheap lt (l ++ [x]) (S (length l)).
Proof.
  intros Ho. split.
  - intros q Hq y z. rewrite !slot_snoc, (decide_False (P := q = _)) by done.
    destruct (decide (q / 2 = S (length l))) as [E|E]; [|by apply Ho].
    intros _ Hz%slot_range. halves. lia.
  - intros q Hq y z _ Hz%slot_range. rewrite length_app in Hz. cbn in Hz. halves. lia.
Qed.

(** Any 32-bit number of elements leaves the loops enough levels. *)
Lemma levels_enough l : (Z.of_nat (@length nat l) < 2 ^ 32)%Z -> length l < 2 ^ levels.
Proof.
  intros H. apply Nat2Z.inj_lt. rewrite Nat2Z.inj_pow. change (Z.of_nat 2 ^ Z.of_nat levels)%Z with (2 ^ 33)%Z.
  change (2 ^ 33)%Z with (2 * 2 ^ 32)%Z. lia.
Qed.

Lemma heap_insert_rep h X x :
  heap_rep lt D h X -> x ∉ X -> x ∈ D -> fits ({[x]} ∪ X) ->
  exists h', heap_insert lt x h = Ret tt h' /\ heap_rep lt D h' ({[x]} ∪ X).
Proof using All.
  intros (l & Hh & Ho & <-) Hx HD Hfit. rewrite elem_of_list_to_set in Hx.
  pose proof Hh as (Hl & _). rewrite size_union, size_singleton, size_list_to_set in Hfit
    by (try apply disjoint_singleton_l; by rewrite ?elem_of_list_to_set).
  destruct (insert_links lt l D h x Hh Hx HD ltac:(lia)) as (h1 & -> & Hh1).
  destruct (swim_run lt levels (l ++ [x]) D h1 (S (length l)) x) as (l' & h' & E & Hh' & Ho' & HP).
  - done.
  - rewrite slot_snoc. by rewrite decide_True.
  - by apply ordered_snoc_up.
  - pose proof (levels_enough (l ++ [x])) as Hlev. rewrite length_app in Hlev. cbn [length] in Hlev. lia.
  - exists h'. split; [done|]. exists l'. split_and!; try done.
    apply set_eq. intros y.
    rewrite elem_of_list_to_set, HP, elem_of_app, list_elem_of_singleton, elem_of_union,
      elem_of_singleton, elem_of_list_to_set. tauto.
Qed.

Lemma ordered_init_of l c : ordered lt (l ++ [c]) -> ordered lt l.
Proof.
  intros Ho q x y Hx Hy. apply (Ho q); by apply k_in_L.
Qed.

Lemma ordered_place l p x :
  1 <= p <= length l -> ordered lt l -> holeheap lt (place l p x) p.
Proof using All.
  intros Hp Ho. destruct (slot_is_Some l p Hp) as [n Hn]. split.
  - intros q Hq Hq2 y z. rewrite !slot_place, !decide_False by done. apply Ho.
  - intros q Hq y z. rewrite !slot_place, !decide_False by (halves; lia). intros Hy Hz.
    apply (above_trans lt y n z); [by apply (Ho p)|]. apply (Ho q); [|done]. by rewrite Hq.
Qed.

Lemma place_perm l p x n :
  NoDup l -> x ∉ l -> slot l p = Some n -> n :: place l p x ≡ₚ x :: l.
Proof.
  intros Hl Hx Hn. destruct p as [|i]; [done|]. cbn [slot] in Hn. unfold place. cbn [pred].
  pose proof (lookup_lt_Some _ _ _ Hn). rewrite <- (list_insert_id l i n Hn) at 2.
  rewrite !insert_take_drop by done. rewrite <- !Permutation_middle. apply perm_swap.
Qed.

Lemma heap_remove_rep h X x :
  heap_rep lt D h X -> x ∈ X -> fits X ->
  exists h', heap_remove lt x h = Ret tt h' /\ heap_rep lt D h' (X ∖ {[x]}).
Proof using All.
  intros (l & Hh & Ho & <-) Hx Hfit. rewrite elem_of_list_to_set in Hx.
  pose proof Hh as (Hl & _). rewrite size_list_to_set in Hfit by done.
  destruct l as [|c k _] using rev_ind; [by apply not_elem_of_nil in Hx|].
  rewrite length_app in Hfit. cbn [length] in Hfit.
  assert (Hc : (c ∉ k) /\ NoDup k).
  { apply NoDup_app in Hl as (? & Hd & _). split; [|done]. intros Hc. apply (Hd c Hc). apply list_elem_of_here. }
  assert (Hout : forall l', x :: l' ≡ₚ k ++ [c] ->
    list_to_set l' = (list_to_set (k ++ [c]) : gset nat) ∖ {[x]}).
  { intros l' HP. apply set_eq. intros y. rewrite elem_of_difference, !elem_of_list_to_set, <- HP.
    rewrite elem_of_cons, elem_of_singleton. rewrite <- HP in Hl. apply NoDup_cons in Hl as [Hxl _].
    split; [|tauto]. intros Hy. split; [auto|]. by intros ->. }
  destruct (unlink_run lt k c D Hl x h Hh ltac:(lia)) as (m & Hv & ->).
  destruct (decide (c = x)) as [->|Hcx].
  - eexists. split; [reflexivity|]. exists k. split_and!.
    + split_and!; cbn [h_min nelts nodes]; try done; [by destruct Hc|].
      refine (view_relabel _ _ _ _ _ _ (fun s => s) Hv _). intros s y Hs. split; [by apply k_in_L|].
      pose proof (slot_range _ _ _ Hs). unfold unlinked. rewrite decide_False; [done|lia].
    + by eapply ordered_init_of.
    + apply Hout. by rewrite Permutation_app_comm.
  - apply elem_of_app in Hx as [Hx|Hx%list_elem_of_singleton]; [|congruence].
    apply slot_elem in Hx as [p Hp]. pose proof (slot_range _ _ _ Hp) as Hpr.
    destruct (replace_run k c D Hl x p Hp m (Z.of_nat (length k)) Hv) as (m' & E & Hv').
    rewrite (bind_Ret _ _ _ _ _ E).
    assert (HP := place_perm k p c x (proj2 Hc) (proj1 Hc) Hp).
    assert (Hnd : NoDup (place k p c)).
    { apply NoDup_app in Hl as Hl'. assert (H : NoDup (x :: place k p c)).
      { rewrite HP. apply NoDup_cons. tauto. } by apply NoDup_cons in H as [_ ?]. }
    destruct (sink_run lt levels (place k p c) D
      (Heap (slot (place k p c) 1) (Z.of_nat (length k)) m') p c) as (l1 & h1 & p1 & E1 & Hh1 & Hp1 & Hup & HP1).
    { split_and!; cbn [h_min nelts nodes]; try done. by rewrite place_length. }
    { rewrite slot_place by done. by rewrite decide_True. }
    { apply ordered_place; [done|]. by eapply ordered_init_of. }
    { rewrite place_length. pose proof (levels_enough k ltac:(lia)). nia. }
    rewrite (bind_Ret _ _ _ _ _ E1).
    destruct (swim_run lt levels l1 D h1 p1 c Hh1 Hp1 Hup) as (l2 & h2 & E2 & Hh2 & Ho2 & HP2).
    { pose proof (slot_range _ _ _ Hp1) as Hr. rewrite HP1, place_length in Hr.
      pose proof (levels_enough k ltac:(lia)). lia. }
    exists h2. split; [done|]. exists l2. split_and!; try done. apply Hout.
    rewrite HP2, HP1, HP. by rewrite Permutation_app_comm.
Qed.

Lemma root_least l q x y : ordered lt l -> slot l 1 = Some x -> slot l q = Some y -> above lt x y.
Proof using All.
  intros Ho Hx. revert y. induction q as [q IH] using lt_wf_ind. intros y Hy.
  pose proof (slot_range _ _ _ Hy). destruct (decide (q = 1)) as [->|Hq].
  - replace y with x by congruence. by apply above_refl.
  - destruct (slot_is_Some l (q / 2)) as [z Hz]; [halves; lia|].
    apply (above_trans lt x z y); [apply (IH (q / 2)); [halves; lia|done]|by apply (Ho q)].
Qed.

Lemma heap_min_rep h X :
  heap_rep lt D h X ->
  heap_min h = Ret (h_min h) h /\
  match h_min h with
  | None => X = ∅ /\ nelts h = 0%Z
  | Some x => x ∈ X /\ (forall y, y ∈ X -> above lt x y) /\ nelts h <> 0%Z
  end.
Proof using All.
  intros (l & (Hl & Hmin & Hne & _) & Ho & <-). split; [done|]. rewrite Hmin, Hne.
  destruct l as [|x l]; cbn [slot lookup list_lookup]; [done|]. split_and!.
  - apply elem_of_list_to_set, list_elem_of_here.
  - intros y Hy. rewrite elem_of_list_to_set in Hy. apply slot_elem in Hy as [q Hq].
    by apply (root_least (x :: l) q x y Ho eq_refl).
  - cbn [length]. lia.
Qed.

Lemma heap_dequeue_rep h X :
  heap_rep lt D h X -> fits X ->
  exists h', heap_dequeue lt h = Ret tt h' /\
    heap_rep lt D h' (match h_min h with Some x => X ∖ {[x]} | None => X end).
Proof using All.
  intros Hh Hfit. pose proof (heap_min_rep h X Hh) as [_ Hm]. unfold heap_dequeue, bind, getm.
  destruct (h_min h) as [x|].
  - by apply heap_remove_rep; [|apply Hm|].
  - destruct Hm as [_ ->]. by exists h.
Qed.
End operations.

(** ** Sequences of operations, against an abstract priority queue *)

Inductive hop : Type := HInsert (x : nat) | HRemove (x : nat) | HDequeue.

(** One call; the result is the root before it. *)
Definition run_hop (lt : nat -> nat -> bool) (op : hop) : M heap (option nat) :=
  let! r := heap_min in
  match op with
  | HInsert x => heap_insert lt x
  | HRemove x => heap_remove lt x
  | HDequeue => heap_dequeue lt
  end ;;! ret r.
Fixpoint run_hops (lt : nat -> nat -> bool) (ops : list hop) : M heap (list (option nat)) :=
  match ops with
  | [] => ret []
  | op :: ops => let! r := run_hop lt op in let! rs := run_hops lt ops in ret (r :: rs)
  end.

(** A least element, if there is one. *)
Definition least (lt : nat -> nat -> bool) (X : gset nat) (r : option nat) : Prop :=
  match r with
  | None => X = ∅
  | Some x => x ∈ X /\ forall y, y ∈ X -> lt y x = false
  end.
Definition queue_step (X : gset nat) (op : hop) (r : option nat) : gset nat :=
  match op with
  | HInsert x => {[x]} ∪ X
  | HRemove x => X ∖ {[x]}
  | HDequeue => match r with Some x => X ∖ {[x]} | None => X end
  end.
Inductive queue_run (lt : nat -> nat -> bool) :
    gset nat -> list hop -> list (option nat) -> gset nat -> Prop :=
| queue_nil X : queue_run lt X [] [] X
| queue_cons X op r ops rs X' :
    least lt X r -> queue_run lt (queue_step X op r) ops rs X' ->
    queue_run lt X (op :: ops) (r :: rs) X'.

(** The calls respect the interface: what is inserted is a node that is not in the
    heap, what is removed is one that is, and the number of elements fits. *)
Definition hop_ok (D X : gset nat) (op : hop) : Prop :=
  match op with
  | HInsert x => (x ∉ X) /\ x ∈ D /\ (Z.of_nat (size ({[x]} ∪ X)) < 2 ^ 32)%Z
  | HRemove x => x ∈ X
  | HDequeue => True
  end.
Fixpoint hops_ok (lt : nat -> nat -> bool) (D X : gset nat) (ops : list hop) : Prop :=
  match ops with
  | [] => True
  | op :: ops => hop_ok D X op /\ forall r, least lt X r -> hops_ok lt D (queue_step X op r) ops
  end.

Section sequences.
Context (lt : nat -> nat -> bool) `{!HeapOrder lt} (D : gset nat).

Lemma queue_step_fits X op r :
  (Z.of_nat (size X) < 2 ^ 32)%Z -> hop_ok D X op -> (Z.of_nat (size (queue_step X op r)) < 2 ^ 32)%Z.
Proof.
  intros HX Hok. assert (Hsub : forall x, (size (X ∖ {[x]}) <= size X)).
  { intros x. apply subseteq_size, subseteq_difference_l. done. }
  destruct op as [x|x|]; cbn [queue_step hop_ok] in *; [by apply Hok| |].
  - specialize (Hsub x). lia.
  - destruct r as [x|]; [specialize (Hsub x); lia|done].
Qed.

Lemma run_hop_rep h X op :
  heap_rep lt D h X -> (Z.of_nat (size X) < 2 ^ 32)%Z -> hop_ok D X op ->
  exists h', run_hop lt op h = Ret (h_min h) h' /\ least lt X (h_min h) /\
    heap_rep lt D h' (queue_step X op (h_min h)).
Proof using All.
  intros Hh HX Hok. destruct (heap_min_rep lt D h X Hh) as [Em Hm].
  assert (Hleast : least lt X (h_min h)).
  { destruct (h_min h); cbn [least]; [|by destruct Hm]. by destruct Hm as (? & ? & _). }
  unfold run_hop. rewrite (bind_Ret _ _ _ _ _ Em).
  destruct op as [x|x|]; cbn [hop_ok queue_step] in *.
  - destruct Hok as (Hx & HD & Hf). destruct (heap_insert_rep lt D h X x Hh Hx HD Hf) as (h' & E & Hh').
    exists h'. by rewrite (bind_Ret _ _ _ _ _ E).
  - destruct (heap_remove_rep lt D h X x Hh Hok HX) as (h' & E & Hh').
    exists h'. by rewrite (bind_Ret _ _ _ _ _ E).
  - destruct (heap_dequeue_rep lt D h X Hh HX) as (h' & E & Hh').
    exists h'. by rewrite (bind_Ret _ _ _ _ _ E).
Qed.

(** C14: every sequence of calls that inserts nodes that are not in the heap and
    removes nodes that are runs to its end without following a null pointer and
    within 33 rounds of each of its loops; the linked nodes stay a complete binary
    tree in heap order over exactly the nodes inserted and not removed; and the root
    that is read, or dequeued, before each call is a least element of them. *)
Theorem heap_keeps_shape ops X h :
  heap_rep lt D h X -> (Z.of_nat (size X) < 2 ^ 32)%Z -> hops_ok lt D X ops ->
  exists rs h' X', run_hops lt ops h = Ret rs h' /\ queue_run lt X ops rs X' /\ heap_rep lt D h' X'.
Proof using All.
  revert X h. induction ops as [|op ops IH]; intros X h Hh HX Hok.
  - exists [], h, X. split_and!; [done|constructor|done].
  - destruct Hok as [Hop Hops]. destruct (run_hop_rep h X op Hh HX Hop) as (h1 & E & Hl & Hh1).
    destruct (IH _ h1 Hh1) as (rs & h' & X' & E' & Hr & Hh').
    { by apply queue_step_fits. }
    { by apply Hops. }
    exists (h_min h :: rs), h', X'. cbn [run_hops]. rewrite (bind_Ret _ _ _ _ _ E), (bind_Ret _ _ _ _ _ E').
    split_and!; [done|by econstructor|done].
Qed.
End sequences.

(** ** A heap of numbers *)

#[export] Instance ltb_order : HeapOrder Nat.ltb.
Proof.
  split.
  - intros a b H%Nat.ltb_lt. apply Nat.ltb_ge. lia.
  - intros a b c H1%Nat.ltb_ge H2%Nat.ltb_ge. apply Nat.ltb_ge. lia.
Qed.

Definition sample_nodes : gset nat := {[1; 2; 3; 4; 5; 6]}.
Definition sample_heap : heap :=
  Heap None 0 (set_to_map (fun n => (n, HeapNode (Some n) (Some 7) (Some n))) sample_nodes).
Definition sample_hops : list hop :=
  [HInsert 5; HInsert 3; HInsert 4; HInsert 1; HInsert 6; HInsert 2; HRemove 3; HDequeue].

Lemma sample_run : exists h, run_hops Nat.ltb sample_hops sample_heap =
  Ret [None; Some 5; Some 3; Some 3; Some 1; Some 1; Some 1; Some 1] h.
Proof. eexists. vm_compute. reflexivity. Qed.

Lemma heap_keeps_shape_witness :
  heap_rep Nat.ltb sample_nodes sample_heap ∅ /\
  exists rs h' X', run_hops Nat.ltb sample_hops sample_heap = Ret rs h' /\
    queue_run Nat.ltb ∅ sample_hops rs X' /\ heap_rep Nat.ltb sample_nodes h' X'.
Proof.
  assert (Hh : heap_rep Nat.ltb sample_nodes sample_heap ∅).
  { exists []. split_and!; [|by intros [|q] ??|done]. split_and!; [constructor|done|done|].
    split; [intros [|s] ?; done|]. vm_compute. reflexivity. }
  split; [exact Hh|]. apply (heap_keeps_shape Nat.ltb sample_nodes sample_hops ∅ sample_heap Hh).
  - done.
  - cbn [hops_ok sample_hops hop_ok queue_step].
    repeat (split; [repeat (lazymatch goal with |- _ /\ _ => split | _ => idtac end);
                    refine (bool_decide_unpack _ _); vm_compute; exact I|intros ? _]).
    exact I.
Defined.
