(* ===== verification/UvTimer.v ===== *)
(** * libuv's timers (Pods/Libuv-gRPC/src/timer.c, with the handles of uv-common.h)

    The world of a loop: its fields, the memory of its timer handles, and whatever the
    program's callbacks work on.  A handle is named by its address; the heap node
    embedded in it has the same name, so that [container_of] is the identity.
    Callbacks are behind pointers; [call] says what each does to the world when it is
    run on a handle.  A failing [assert] is [Ub]. *)
From S2P Require Import Prelude UvHeap.

Record uv_timer_t : Type := Timer {
  t_cb : option nat; t_timeout : Z; t_repeat : Z; t_start_id : Z; t_flags : Z;
  t_next_closing : option nat; t_close_cb : option nat }.
#[export] Instance uv_timer_inhabited : Inhabited uv_timer_t := populate (Timer None 0 0 0 0 None None).

(** The queues of idle handles and of pending watchers, which other components fill,
    are lists of handles here, and so is the queue of all handles. *)
Record uv_loop_t : Type := Loop {
  timer_heap : heap; time : Z; timer_counter : Z; active_handles : Z; active_reqs : Z;
  stop_flag : Z; handle_queue : list nat; idle_handles : list nat; pending_queue : list nat;
  closing_handles : option nat }.

Record world (U : Type) : Type := World {
  w_loop : uv_loop_t; w_timers : gmap nat uv_timer_t; w_user : U }.
Arguments World {U}.
Arguments w_loop {U}.
Arguments w_timers {U}.
Arguments w_user {U}.

Definition UV_HANDLE_CLOSING : Z := 1.
Definition UV_HANDLE_CLOSED : Z := 2.
Definition UV_HANDLE_ACTIVE : Z := 4.
Definition UV_HANDLE_REF : Z := 8.
(** The negated errno, as on Darwin. *)
Definition UV_EINVAL : Z := -22.
Definition INT_MAX : Z := 2147483647.

(** ** Updates of the records *)

Definition set_heap (h : heap) (l : uv_loop_t) : uv_loop_t :=
  Loop h (time l) (timer_counter l) (active_handles l) (active_reqs l) (stop_flag l)
    (handle_queue l) (idle_handles l) (pending_queue l) (closing_handles l).
Definition set_time (n : Z) (l : uv_loop_t) : uv_loop_t :=
  Loop (timer_heap l) n (timer_counter l) (active_handles l) (active_reqs l) (stop_flag l)
    (handle_queue l) (idle_handles l) (pending_queue l) (closing_handles l).
Definition set_counter (n : Z) (l : uv_loop_t) : uv_loop_t :=
  Loop (timer_heap l) (time l) n (active_handles l) (active_reqs l) (stop_flag l)
    (handle_queue l) (idle_handles l) (pending_queue l) (closing_handles l).
Definition set_active (n : Z) (l : uv_loop_t) : uv_loop_t :=
  Loop (timer_heap l) (time l) (timer_counter l) n (active_reqs l) (stop_flag l)
    (handle_queue l) (idle_handles l) (pending_queue l) (closing_handles l).
Definition set_stop (n : Z) (l : uv_loop_t) : uv_loop_t :=
  Loop (timer_heap l) (time l) (timer_counter l) (active_handles l) (active_reqs l) n
    (handle_queue l) (idle_handles l) (pending_queue l) (closing_handles l).
Definition set_queue (q : list nat) (l : uv_loop_t) : uv_loop_t :=
  Loop (timer_heap l) (time l) (timer_counter l) (active_handles l) (active_reqs l) (stop_flag l)
    q (idle_handles l) (pending_queue l) (closing_handles l).
Definition set_closing (p : option nat) (l : uv_loop_t) : uv_loop_t :=
  Loop (timer_heap l) (time l) (timer_counter l) (active_handles l) (active_reqs l) (stop_flag l)
    (handle_queue l) (idle_handles l) (pending_queue l) p.

Definition set_flags (f : Z) (t : uv_timer_t) : uv_timer_t :=
  Timer (t_cb t) (t_timeout t) (t_repeat t) (t_start_id t) f (t_next_closing t) (t_close_cb t).
Definition set_cb (c : option nat) (t : uv_timer_t) : uv_timer_t :=
  Timer c (t_timeout t) (t_repeat t) (t_start_id t) (t_flags t) (t_next_closing t) (t_close_cb t).
Definition set_timeout (n : Z) (t : uv_timer_t) : uv_timer_t :=
  Timer (t_cb t) n (t_repeat t) (t_start_id t) (t_flags t) (t_next_closing t) (t_close_cb t).
Definition set_repeat (n : Z) (t : uv_timer_t) : uv_timer_t :=
  Timer (t_cb t) (t_timeout t) n (t_start_id t) (t_flags t) (t_next_closing t) (t_close_cb t).
Definition set_start_id (n : Z) (t : uv_timer_t) : uv_timer_t :=
  Timer (t_cb t) (t_timeout t) (t_repeat t) n (t_flags t) (t_next_closing t) (t_close_cb t).
Definition set_next_closing (p : option nat) (t : uv_timer_t) : uv_timer_t :=
  Timer (t_cb t) (t_timeout t) (t_repeat t) (t_start_id t) (t_flags t) p (t_close_cb t).
Definition set_close_cb (c : option nat) (t : uv_timer_t) : uv_timer_t :=
  Timer (t_cb t) (t_timeout t) (t_repeat t) (t_start_id t) (t_flags t) (t_next_closing t) c.

(** [timer_less_than]: the deadline, then the order of the starts.  The heap only
    compares the handles that are in it. *)
Definition timer_less_than (ts : gmap nat uv_timer_t) (ha hb : nat) : bool :=
  let a := ts !!! ha in
  let b := ts !!! hb in
  if t_timeout a <? t_timeout b then true
  else if t_timeout b <? t_timeout a then false
  else t_start_id a <? t_start_id b.

Section timer.
Context {U : Type}.
Implicit Types w : world U.

Definition get_timer (handle : nat) : M (world U) uv_timer_t := fun w =>
  match w_timers w !! handle with Some t => Ret t w | None => Ub end.
Definition upd_timer (handle : nat) (f : uv_timer_t -> uv_timer_t) : M (world U) unit := fun w =>
  match w_timers w !! handle with
  | Some t => Ret tt (World (w_loop w) (<[handle := f t]> (w_timers w)) (w_user w))
  | None => Ub
  end.
Definition get_loop : M (world U) uv_loop_t := fun w => Ret (w_loop w) w.
Definition upd_loop (f : uv_loop_t -> uv_loop_t) : M (world U) unit :=
  modm (fun w => World (f (w_loop w)) (w_timers w) (w_user w)).
(** A heap operation on [timer_heap(loop)] with [timer_less_than]. *)
Definition on_heap {A} (op : (nat -> nat -> bool) -> M heap A) : M (world U) A := fun w =>
  match op (timer_less_than (w_timers w)) (timer_heap (w_loop w)) with
  | Ret a h => Ret a (World (set_heap h (w_loop w)) (w_timers w) (w_user w))
  | Fail h => Fail (World (set_heap h (w_loop w)) (w_timers w) (w_user w))
  | Ub => Ub
  | NoFuel => NoFuel
  end.
Definition assertm (b : bool) : M (world U) unit := if b then ret tt else ubm.

(** ** Handles (uv-common.h) *)

Definition has_flag (f : Z) (t : uv_timer_t) : bool := negb (Z.land (t_flags t) f =? 0).
Definition uv__is_active (t : uv_timer_t) : bool := has_flag UV_HANDLE_ACTIVE t.
Definition uv__is_closing (t : uv_timer_t) : bool :=
  has_flag (Z.lor UV_HANDLE_CLOSING UV_HANDLE_CLOSED) t.
Definition uv__has_ref (t : uv_timer_t) : bool := has_flag UV_HANDLE_REF t.
Definition add_flag (f : Z) (t : uv_timer_t) : uv_timer_t := set_flags (Z.lor (t_flags t) f) t.
Definition del_flag (f : Z) (t : uv_timer_t) : uv_timer_t :=
  set_flags (Z.land (t_flags t) (u32 (Z.lnot f))) t.

Definition uv__has_active_handles (l : uv_loop_t) : bool := 0 <? active_handles l.
Definition uv__has_active_reqs (l : uv_loop_t) : bool := 0 <? active_reqs l.
Definition uv__active_handle_add : M (world U) unit :=
  upd_loop (fun l => set_active (u32 (active_handles l + 1)) l).
Definition uv__active_handle_rm : M (world U) unit :=
  upd_loop (fun l => set_active (u32 (active_handles l - 1)) l).

Definition uv__handle_start (handle : nat) : M (world U) unit :=
  let! t := get_timer handle in
  if uv__is_active t then ret tt
  else
    upd_timer handle (add_flag UV_HANDLE_ACTIVE) ;;!
    let! t := get_timer handle in
    if uv__has_ref t then uv__active_handle_add else ret tt.

Definition uv__handle_stop (handle : nat) : M (world U) unit :=
  let! t := get_timer handle in
  if negb (uv__is_active t) then ret tt
  else
    upd_timer handle (del_flag UV_HANDLE_ACTIVE) ;;!
    let! t := get_timer handle in
    if uv__has_ref t then uv__active_handle_rm else ret tt.

Definition uv__handle_ref (handle : nat) : M (world U) unit :=
  let! t := get_timer handle in
  if uv__has_ref t then ret tt
  else
    upd_timer handle (add_flag UV_HANDLE_REF) ;;!
    let! t := get_timer handle in
    if has_flag UV_HANDLE_CLOSING t then ret tt
    else if uv__is_active t then uv__active_handle_add else ret tt.

Definition uv__handle_unref (handle : nat) : M (world U) unit :=
  let! t := get_timer handle in
  if negb (uv__has_ref t) then ret tt
  else
    upd_timer handle (del_flag UV_HANDLE_REF) ;;!
    let! t := get_timer handle in
    if has_flag UV_HANDLE_CLOSING t then ret tt
    else if uv__is_active t then uv__active_handle_rm else ret tt.

(** The loop and the type of the handle, which the model fixes, have no field. *)
Definition uv__handle_init (handle : nat) : M (world U) unit :=
  upd_timer handle (set_flags UV_HANDLE_REF) ;;!
  upd_loop (fun l => set_queue (handle_queue l ++ [handle]) l) ;;!
  upd_timer handle (set_next_closing None).

Definition uv_ref (handle : nat) : M (world U) unit := uv__handle_ref handle.
Definition uv_unref (handle : nat) : M (world U) unit := uv__handle_unref handle.
Definition uv_has_ref (handle : nat) : M (world U) bool :=
  let! t := get_timer handle in ret (uv__has_ref t).
Definition uv_is_active (handle : nat) : M (world U) bool :=
  let! t := get_timer handle in ret (uv__is_active t).
Definition uv_is_closing (handle : nat) : M (world U) bool :=
  let! t := get_timer handle in ret (uv__is_closing t).
Definition uv_stop : M (world U) unit := upd_loop (set_stop 1).

(** ** Timers (timer.c) *)

Definition uv_timer_init (handle : nat) : M (world U) Z :=
  uv__handle_init handle ;;!
  upd_timer handle (set_cb None) ;;!
  upd_timer handle (set_repeat 0) ;;!
  ret 0.

Definition uv_timer_stop (handle : nat) : M (world U) Z :=
  let! t := get_timer handle in
  if negb (uv__is_active t) then ret 0
  else
    on_heap (fun lt => heap_remove lt handle) ;;!
    uv__handle_stop handle ;;!
    ret 0.

Definition uv_timer_start (handle : nat) (cb : option nat) (timeout repeat : Z) : M (world U) Z :=
  let! t := get_timer handle in
  if uv__is_closing t || match cb with None => true | Some _ => false end then ret UV_EINVAL
  else
    (if uv__is_active t then let! _ := uv_timer_stop handle in ret tt else ret tt) ;;!
    let! l := get_loop in
    let clamped := u64 (time l + timeout) in
    let clamped := if clamped <? timeout then u64 (-1) else clamped in
    upd_timer handle (set_cb cb) ;;!
    upd_timer handle (set_timeout clamped) ;;!
    upd_timer handle (set_repeat repeat) ;;!
    upd_timer handle (set_start_id (timer_counter l)) ;;!
    upd_loop (set_counter (u64 (timer_counter l + 1))) ;;!
    on_heap (fun lt => heap_insert lt handle) ;;!
    uv__handle_start handle ;;!
    ret 0.

Definition uv_timer_again (handle : nat) : M (world U) Z :=
  let! t := get_timer handle in
  match t_cb t with
  | None => ret UV_EINVAL
  | Some _ =>
      if negb (t_repeat t =? 0) then
        let! _ := uv_timer_stop handle in
        let! t := get_timer handle in
        let! _ := uv_timer_start handle (t_cb t) (t_repeat t) (t_repeat t) in
        ret 0
      else ret 0
  end.

Definition uv_timer_set_repeat (handle : nat) (repeat : Z) : M (world U) unit :=
  upd_timer handle (set_repeat repeat).
Definition uv_timer_get_repeat (handle : nat) : M (world U) Z :=
  let! t := get_timer handle in ret (t_repeat t).

Definition uv__next_timeout : M (world U) Z :=
  let! heap_node := on_heap (fun _ => heap_min) in
  match heap_node with
  | None => ret (-1)
  | Some handle =>
      let! t := get_timer handle in
      let! l := get_loop in
      if t_timeout t <=? time l then ret 0
      else
        let diff := u64 (t_timeout t - time l) in
        let diff := if INT_MAX <? diff then INT_MAX else diff in
        ret (i32 diff)
  end.

Definition uv__timer_close (handle : nat) : M (world U) unit :=
  let! _ := uv_timer_stop handle in ret tt.

Section callbacks.
(** What the callback at an address does, run on a handle. *)
Context (call : nat -> nat -> M (world U) unit).

(** The loop ends when no timer is due, which the callbacks decide: [fuel] bounds its
    rounds. *)
Fixpoint uv__run_timers (fuel : nat) : M (world U) unit :=
  match fuel with
  | O => nofuelm
  | S f =>
      let! heap_node := on_heap (fun _ => heap_min) in
      match heap_node with
      | None => ret tt
      | Some handle =>
          let! t := get_timer handle in
          let! l := get_loop in
          if time l <? t_timeout t then ret tt
          else
            let! _ := uv_timer_stop handle in
            let! _ := uv_timer_again handle in
            let! t := get_timer handle in
            match t_cb t with
            | Some cb => call cb handle ;;! uv__run_timers f
            | None => ubm
            end
      end
  end.

(** ** Closing (unix/core.c), for timers *)

Definition uv__make_close_pending (handle : nat) : M (world U) unit :=
  let! t := get_timer handle in
  assertm (has_flag UV_HANDLE_CLOSING t) ;;!
  assertm (negb (has_flag UV_HANDLE_CLOSED t)) ;;!
  let! l := get_loop in
  upd_timer handle (set_next_closing (closing_handles l)) ;;!
  upd_loop (set_closing (Some handle)).

Definition uv_close (handle : nat) (close_cb : option nat) : M (world U) unit :=
  let! t := get_timer handle in
  assertm (negb (uv__is_closing t)) ;;!
  upd_timer handle (add_flag UV_HANDLE_CLOSING) ;;!
  upd_timer handle (set_close_cb close_cb) ;;!
  uv__timer_close handle ;;!
  uv__make_close_pending handle.

Definition uv__finish_close (handle : nat) : M (world U) unit :=
  let! t := get_timer handle in
  assertm (has_flag UV_HANDLE_CLOSING t) ;;!
  assertm (negb (has_flag UV_HANDLE_CLOSED t)) ;;!
  upd_timer handle (add_flag UV_HANDLE_CLOSED) ;;!
  uv__handle_unref handle ;;!
  upd_loop (fun l => set_queue (list_difference (handle_queue l) [handle]) l) ;;!
  let! t := get_timer handle in
  match t_close_cb t with
  | Some cb => call cb handle
  | None => ret tt
  end.

Fixpoint close_loop (fuel : nat) (p : option nat) : M (world U) unit :=
  match p with
  | None => ret tt
  | Some p =>
      match fuel with
      | O => nofuelm
      | S f =>
          let! t := get_timer p in
          uv__finish_close p ;;!
          close_loop f (t_next_closing t)
      end
  end.
(** The list of the closing handles holds every handle at most once. *)
Definition uv__run_closing_handles : M (world U) unit :=
  let! l := get_loop in
  upd_loop (set_closing None) ;;!
  let! w := getm in
  close_loop (size (w_timers w)) (closing_handles l).

End callbacks.

(** ** The clock (unix/internal.h) and how long the loop may sleep (unix/core.c) *)

(** [hrtime] is what the system's clock returns, in nanoseconds. *)
Definition uv__update_time (hrtime : Z) : M (world U) unit := upd_loop (set_time (hrtime / 1000000)).

Definition uv_backend_timeout : M (world U) Z :=
  let! l := get_loop in
  if negb (stop_flag l =? 0) then ret 0
  else if negb (uv__has_active_handles l) && negb (uv__has_active_reqs l) then ret 0
  else if negb (bool_decide (idle_handles l = [])) then ret 0
  else if negb (bool_decide (pending_queue l = [])) then ret 0
  else if match closing_handles l with Some _ => true | None => false end then ret 0
  else uv__next_timeout.

Definition uv__loop_alive (l : uv_loop_t) : bool :=
  uv__has_active_handles l || uv__has_active_reqs l ||
  match closing_handles l with Some _ => true | None => false end.
Definition uv_loop_alive : M (world U) bool := let! l := get_loop in ret (uv__loop_alive l).

End timer.
