(* ===== verification/UvTimerInv.v ===== *)
(** * The invariant of libuv's timers

    The heap of a loop holds exactly the active timers, ordered by their deadlines,
    and the loop counts the active handles it must wait for.  Every call keeps that,
    and does to the fields of its handle what it says. *)
From S2P Require Import Prelude UvHeap UvHeapSpec UvTimer.

(** ** Flags *)

Lemma has_flag_bit i t : 0 <= i -> has_flag (2 ^ i) t = Z.testbit (t_flags t) i.
Proof.
  intros Hi. unfold has_flag. destruct (Z.testbit (t_flags t) i) eqn:E.
  - apply negb_true_iff, Z.eqb_neq. intros H. apply (f_equal (fun x => Z.testbit x i)) in H.
    by rewrite Z.land_spec, E, Z.pow2_bits_true, Z.bits_0 in H by done.
  - apply negb_false_iff, Z.eqb_eq. apply Z.bits_inj'. intros j Hj.
    rewrite Z.land_spec, Z.bits_0. destruct (Z.eq_dec j i) as [->|Hne]; [by rewrite E|].
    by rewrite Z.pow2_bits_false, andb_false_r by done.
Qed.

Lemma is_active_bit t : uv__is_active t = Z.testbit (t_flags t) 2.
Proof. by apply (has_flag_bit 2). Qed.
Lemma has_ref_bit t : uv__has_ref t = Z.testbit (t_flags t) 3.
Proof. by apply (has_flag_bit 3). Qed.
Lemma closing_flag_bit t : has_flag UV_HANDLE_CLOSING t = Z.testbit (t_flags t) 0.
Proof. by apply (has_flag_bit 0). Qed.
Lemma closed_flag_bit t : has_flag UV_HANDLE_CLOSED t = Z.testbit (t_flags t) 1.
Proof. by apply (has_flag_bit 1). Qed.

Lemma add_flag_bits i t j :
  0 <= i -> 0 <= j ->
  Z.testbit (t_flags (add_flag (2 ^ i) t)) j = Z.testbit (t_flags t) j || (i =? j).
Proof. intros Hi Hj. cbn. by rewrite Z.lor_spec, Z.pow2_bits_eqb. Qed.

Lemma del_flag_bits i t j :
  0 <= i -> 0 <= j < 32 ->
  Z.testbit (t_flags (del_flag (2 ^ i) t)) j = Z.testbit (t_flags t) j && negb (i =? j).
Proof.
  intros Hi Hj. cbn. rewrite Z.land_spec. unfold wrap.
  by rewrite Z.mod_pow2_bits_low, Z.lnot_spec, Z.pow2_bits_eqb by lia.
Qed.

(** Every flag of every handle as a bit, and the bits that an update leaves. *)
Ltac flags :=
  rewrite ?is_active_bit, ?has_ref_bit, ?closing_flag_bit, ?closed_flag_bit;
  rewrite ?(add_flag_bits 0), ?(add_flag_bits 1), ?(add_flag_bits 2), ?(add_flag_bits 3),
    ?(del_flag_bits 2), ?(del_flag_bits 3) by lia.

(** ** Counting the entries of a map *)

Definition count {A} (P : A -> bool) (m : gmap nat A) : nat :=
  size (filter (fun p => P p.2 = true) m).

Lemma count_fresh {A} (P : A -> bool) m i x :
  m !! i = None -> count P (<[i := x]> m) = (Nat.b2n (P x) + count P m)%nat.
Proof.
  intros Hi. unfold count. destruct (P x) eqn:E; cbn [Nat.b2n].
  - rewrite map_filter_insert_True by done. rewrite map_size_insert_None; [done|].
    apply map_lookup_filter_None. by left.
  - rewrite map_filter_insert_False by (cbn; congruence). by rewrite delete_id.
Qed.

Lemma count_insert {A} (P : A -> bool) m i x y :
  m !! i = Some x -> (count P (<[i := y]> m) + Nat.b2n (P x) = count P m + Nat.b2n (P y))%nat.
Proof.
  intros Hi. rewrite <- (insert_delete_id m i x Hi) at 2.
  rewrite <- insert_delete_eq, !count_fresh by apply lookup_delete_eq. lia.
Qed.

Lemma count_le {A} (P : A -> bool) m : (count P m <= size m)%nat.
Proof. apply map_subseteq_size, map_filter_subseteq. Qed.

(** ** The invariant *)

Definition active_set (ts : gmap nat uv_timer_t) : gset nat :=
  dom (filter (fun p => uv__is_active p.2 = true) ts).

Lemma elem_of_active ts h :
  h ∈ active_set ts <-> exists t, ts !! h = Some t /\ uv__is_active t = true.
Proof.
  unfold active_set. rewrite elem_of_dom. split.
  - intros [t [Ht Ha]%map_lookup_filter_Some]. eauto.
  - intros (t & Ht & Ha). exists t. by apply map_lookup_filter_Some.
Qed.

(** A handle the loop must wait for. *)
Definition keeps_alive (t : uv_timer_t) : bool := uv__is_active t && uv__has_ref t.

Definition in_u64 (x : Z) : Prop := 0 <= x < 2 ^ 64.
Definition timer_ok (t : uv_timer_t) : Prop :=
  in_u64 (t_timeout t) /\ in_u64 (t_repeat t) /\
  (uv__is_active t = true -> (exists cb, t_cb t = Some cb) /\ uv__is_closing t = false).

(** [others] is the number of active handles of other kinds, [ok] what holds of every
    timer: [timer_ok], but while one of them is being closed. *)
Record wf_with {U} (ok : nat -> uv_timer_t -> Prop) (others : Z) (w : world U) : Prop := {
  wf_heap : heap_rep (timer_less_than (w_timers w)) (dom (w_timers w)) (timer_heap (w_loop w))
              (active_set (w_timers w));
  wf_fits : Z.of_nat (size (w_timers w)) < 2 ^ 32;
  wf_timers : map_Forall ok (w_timers w);
  wf_time : in_u64 (time (w_loop w));
  wf_count : active_handles (w_loop w) = u32 (others + Z.of_nat (count keeps_alive (w_timers w))) }.
Abbreviation wf := (wf_with (fun _ => timer_ok)).

#[export] Instance timer_order ts : HeapOrder (timer_less_than ts).
Proof.
  split; unfold timer_less_than; intros *; repeat case_bool; lia || (intros; lia).
Qed.

(** Only the deadlines and start numbers of the timers in the heap matter to it. *)
Lemma heap_rep_ext lt lt' D h X :
  (forall a b, a ∈ X -> b ∈ X -> lt a b = lt' a b) -> heap_rep lt D h X -> heap_rep lt' D h X.
Proof.
  intros E (l & Hh & Ho & HX). exists l. split_and!; [done| |done].
  intros q x y Hx Hy. unfold above.
  assert (H : forall q z, slot l q = Some z -> z ∈ X).
  { intros r z Hz. rewrite <- HX. apply elem_of_list_to_set, slot_elem. eauto. }
  rewrite <- E by eauto. by apply (Ho q).
Qed.

Lemma active_size ts : (size (active_set ts) <= size ts)%nat.
Proof. unfold active_set. rewrite size_dom. apply map_subseteq_size, map_filter_subseteq. Qed.

(** The callbacks' own state does not matter. *)
Lemma wf_user {U V} others (l : uv_loop_t) ts (u : U) (v : V) :
  wf others (World l ts u) -> wf others (World l ts v).
Proof. by intros []. Qed.

(** ** Updates of one timer *)

Lemma active_insert ts h t :
  active_set (<[h := t]> ts) =
  if uv__is_active t then {[h]} ∪ active_set ts else active_set ts ∖ {[h]}.
Proof.
  apply set_eq. intros x. rewrite elem_of_active.
  destruct (uv__is_active t) eqn:E; rewrite ?elem_of_union, ?elem_of_difference, elem_of_singleton, elem_of_active.
  all: destruct (decide (x = h)) as [->|Hne];
    [rewrite lookup_insert_eq|rewrite lookup_insert_ne by done].
  - split; [by left|]. intros _. by exists t.
  - split; [by right|]. by intros [->|?].
  - split; [|by intros [_ []]]. intros (t' & [= <-] & Ha). congruence.
  - split; [done|]. by intros [? _].
Qed.

Lemma lt_insert_out ts h t a b :
  a <> h -> b <> h -> timer_less_than (<[h := t]> ts) a b = timer_less_than ts a b.
Proof. intros Ha Hb. unfold timer_less_than. by rewrite !lookup_total_insert_ne by done. Qed.

Lemma lt_insert_same ts h t t' a b :
  ts !! h = Some t -> t_timeout t' = t_timeout t -> t_start_id t' = t_start_id t ->
  timer_less_than (<[h := t']> ts) a b = timer_less_than ts a b.
Proof.
  intros Ht E1 E2. apply lookup_total_correct in Ht as Ht'.
  assert (E : forall x, t_timeout (<[h := t']> ts !!! x) = t_timeout (ts !!! x) /\
                        t_start_id (<[h := t']> ts !!! x) = t_start_id (ts !!! x)).
  { intros x. destruct (decide (x = h)) as [->|Hne].
    - by rewrite lookup_total_insert_eq, Ht'.
    - by rewrite lookup_total_insert_ne. }
  unfold timer_less_than. destruct (E a) as [-> ->], (E b) as [-> ->]. done.
Qed.

(** The loop but for the fields that timers change. *)
Definition same_loop (l l' : uv_loop_t) : Prop :=
  time l' = time l /\ active_reqs l' = active_reqs l /\ stop_flag l' = stop_flag l /\
  idle_handles l' = idle_handles l /\ pending_queue l' = pending_queue l.

Lemma same_loop_refl l : same_loop l l.
Proof. done. Qed.
Lemma same_loop_trans l1 l2 l3 : same_loop l1 l2 -> same_loop l2 l3 -> same_loop l1 l3.
Proof. intros (?&?&?&?&?) (?&?&?&?&?). repeat split; congruence. Qed.
#[export] Hint Resolve same_loop_refl : cmodel.

Section invariant.
Context {U : Type} (others : Z).
Implicit Types w : world U.

Lemma get_timer_run (l : uv_loop_t) ts (u : U) h t :
  ts !! h = Some t -> get_timer h (World l ts u) = Ret t (World l ts u).
Proof. intros H. unfold get_timer. cbn. by rewrite H. Qed.

Lemma upd_timer_run (l : uv_loop_t) ts (u : U) h t f :
  ts !! h = Some t -> upd_timer h f (World l ts u) = Ret tt (World l (<[h := f t]> ts) u).
Proof. intros H. unfold upd_timer. cbn. by rewrite H. Qed.

(** A timer changes, but neither whether it is active nor its place in the heap. *)
Lemma wf_update ok l l' ts (u u' : U) h t t' :
  wf_with ok others (World l ts u) -> ts !! h = Some t -> ok h t' ->
  uv__is_active t' = uv__is_active t ->
  (uv__is_active t = true -> t_timeout t' = t_timeout t /\ t_start_id t' = t_start_id t) ->
  timer_heap l' = timer_heap l -> time l' = time l ->
  active_handles l' = u32 (others + Z.of_nat (count keeps_alive (<[h := t']> ts))) ->
  wf_with ok others (World l' (<[h := t']> ts) u').
Proof.
  intros [Hh Hf Ht Htm Hc] Hl Hok Ha Hk Eh Et Ec. cbn in *.
  assert (HX : active_set (<[h := t']> ts) = active_set ts).
  { apply set_eq. intros x. rewrite !elem_of_active. destruct (decide (x = h)) as [->|Hne].
    - rewrite lookup_insert_eq, Hl. split; intros (y & [= <-] & Hy); eexists; (split; [done|congruence]).
    - by rewrite lookup_insert_ne. }
  split; cbn; [| | | |exact Ec].
  - rewrite HX, Eh, dom_insert_lookup_L by done. refine (heap_rep_ext _ _ _ _ _ _ Hh).
    intros a b Hxa Hxb. symmetry. destruct (uv__is_active t) eqn:E.
    + destruct (Hk eq_refl). by eapply lt_insert_same.
    + assert (Hout : forall x, x ∈ active_set ts -> x <> h).
      { intros x (tx & Hx & Hax)%elem_of_active ->. congruence. }
      by apply lt_insert_out; apply Hout.
  - by rewrite map_size_insert_Some.
  - by apply map_Forall_insert_2.
  - by rewrite Et.
Qed.

(** ** Stopping and starting *)

Lemma on_heap_run {A} (op : (nat -> nat -> bool) -> M heap A) (l : uv_loop_t) ts (u : U) a h :
  op (timer_less_than ts) (timer_heap l) = Ret a h ->
  on_heap op (World l ts u) = Ret a (World (set_heap h l) ts u).
Proof. intros E. unfold on_heap. cbn. by rewrite E. Qed.

Lemma handle_stop_run (l : uv_loop_t) ts (u : U) h t :
  ts !! h = Some t -> uv__is_active t = true ->
  uv__handle_stop h (World l ts u) =
  Ret tt (World (if uv__has_ref t then set_active (u32 (active_handles l - 1)) l else l)
                (<[h := del_flag UV_HANDLE_ACTIVE t]> ts) u).
Proof.
  intros Ht Ha. unfold uv__handle_stop. rewrite (bind_Ret _ _ _ _ _ (get_timer_run _ _ _ _ _ Ht)), Ha.
  cbn [negb]. rewrite (bind_Ret _ _ _ _ _ (upd_timer_run _ _ _ _ _ _ Ht)).
  erewrite bind_Ret by apply get_timer_run, lookup_insert_eq.
  replace (uv__has_ref (del_flag UV_HANDLE_ACTIVE t)) with (uv__has_ref t); [by destruct (uv__has_ref t)|].
  flags. by rewrite andb_true_r.
Qed.

Lemma handle_start_run (l : uv_loop_t) ts (u : U) h t :
  ts !! h = Some t -> uv__is_active t = false ->
  uv__handle_start h (World l ts u) =
  Ret tt (World (if uv__has_ref t then set_active (u32 (active_handles l + 1)) l else l)
                (<[h := add_flag UV_HANDLE_ACTIVE t]> ts) u).
Proof.
  intros Ht Ha. unfold uv__handle_start. rewrite (bind_Ret _ _ _ _ _ (get_timer_run _ _ _ _ _ Ht)), Ha.
  rewrite (bind_Ret _ _ _ _ _ (upd_timer_run _ _ _ _ _ _ Ht)).
  erewrite bind_Ret by apply get_timer_run, lookup_insert_eq.
  replace (uv__has_ref (add_flag UV_HANDLE_ACTIVE t)) with (uv__has_ref t); [by destruct (uv__has_ref t)|].
  flags. by rewrite orb_false_r.
Qed.

(** The count of the loop after one handle changes. *)
Lemma count_step ts h t t' (n : Z) :
  ts !! h = Some t -> n = u32 (others + Z.of_nat (count keeps_alive ts)) ->
  u32 (n + (Z.b2z (keeps_alive t') - Z.b2z (keeps_alive t))) =
  u32 (others + Z.of_nat (count keeps_alive (<[h := t']> ts))).
Proof.
  intros Ht ->. pose proof (count_insert keeps_alive ts h t t' Ht) as Hc.
  unfold wrap. rewrite Zplus_mod_idemp_l. f_equal.
  destruct (keeps_alive t), (keeps_alive t'); cbn [Nat.b2n Z.b2z] in *; lia.
Qed.

Definition stopped (t : uv_timer_t) : uv_timer_t :=
  if uv__is_active t then del_flag UV_HANDLE_ACTIVE t else t.
Definition deadline (now timeout : Z) : Z := Z.min (now + timeout) (2 ^ 64 - 1).
Definition started (now id : Z) (c : nat) (timeout repeat : Z) (t : uv_timer_t) : uv_timer_t :=
  add_flag UV_HANDLE_ACTIVE (Timer (Some c) (deadline now timeout) repeat id
    (t_flags (stopped t)) (t_next_closing t) (t_close_cb t)).

Lemma stopped_inactive t : uv__is_active (stopped t) = false.
Proof.
  unfold stopped. destruct (uv__is_active t) eqn:E; [|done]. flags. by rewrite andb_false_r.
Qed.

Lemma stopped_stopped t : stopped (stopped t) = stopped t.
Proof. unfold stopped at 1. by rewrite stopped_inactive. Qed.

Lemma started_stopped now id c timeout repeat t :
  started now id c timeout repeat (stopped t) = started now id c timeout repeat t.
Proof. unfold started. rewrite stopped_stopped. unfold stopped. by destruct (uv__is_active t). Qed.

Lemma stop_run_with ok (l : uv_loop_t) ts (u : U) h t :
  wf_with ok others (World l ts u) -> ts !! h = Some t -> ok h (stopped t) ->
  exists l', uv_timer_stop h (World l ts u) = Ret 0 (World l' (<[h := stopped t]> ts) u) /\
    wf_with ok others (World l' (<[h := stopped t]> ts) u) /\ same_loop l l' /\
    timer_counter l' = timer_counter l /\ closing_handles l' = closing_handles l.
Proof.
  intros Hw Ht Hokt. unfold uv_timer_stop.
  rewrite (bind_Ret _ _ _ _ _ (get_timer_run _ _ _ _ _ Ht)).
  destruct (uv__is_active t) eqn:Ha; cbn [negb].
  2: { exists l. unfold stopped. rewrite Ha, insert_id by done. by split_and!. }
  replace (stopped t) with (del_flag UV_HANDLE_ACTIVE t) in * by (unfold stopped; by rewrite Ha).
  destruct Hw as [Hh Hf Hok Htm Hc]. cbn in Hh, Hf, Hok, Htm, Hc.
  destruct (heap_remove_rep _ _ _ _ h Hh) as (hp & E & Hh').
  { apply elem_of_active. eauto. }
  { pose proof (active_size ts). lia. }
  rewrite (bind_Ret _ _ _ _ _ (on_heap_run (fun lt => heap_remove lt h) _ _ _ _ _ E)).
  rewrite (bind_Ret _ _ _ _ _ (handle_stop_run _ _ _ _ _ Ht Ha)).
  eexists. split; [reflexivity|]. split_and!; [|by destruct (uv__has_ref t)..].
  assert (Ha' := stopped_inactive t). unfold stopped in Ha'. rewrite Ha in Ha'.
  split; cbn; rewrite ?active_insert, ?Ha', ?dom_insert_lookup_L, ?map_size_insert_Some by eauto.
  - replace (timer_heap (if uv__has_ref t then _ else _)) with hp by (by destruct (uv__has_ref t)).
    refine (heap_rep_ext _ _ _ _ _ _ Hh'). intros a b Hxa Hxb. symmetry. by eapply lt_insert_same.
  - done.
  - by apply map_Forall_insert_2.
  - by destruct (uv__has_ref t).
  - rewrite <- (count_step ts h t _ _ Ht Hc). unfold keeps_alive. rewrite Ha', Ha. cbn [andb Z.b2z].
    destruct (uv__has_ref t); cbn; [done|]. rewrite Z.add_0_r, Hc. by rewrite wrap_wrap.
Qed.

Lemma stop_run (l : uv_loop_t) ts (u : U) h t :
  wf others (World l ts u) -> ts !! h = Some t ->
  exists l', uv_timer_stop h (World l ts u) = Ret 0 (World l' (<[h := stopped t]> ts) u) /\
    wf others (World l' (<[h := stopped t]> ts) u) /\ same_loop l l' /\
    timer_counter l' = timer_counter l /\ closing_handles l' = closing_handles l.
Proof.
  intros Hw Ht. apply stop_run_with; [done|done|].
  destruct (wf_timers _ _ _ Hw h t Ht) as (H1 & H2 & H3). split_and!.
  - unfold stopped. by destruct (uv__is_active t).
  - unfold stopped. by destruct (uv__is_active t).
  - by rewrite stopped_inactive.
Qed.

Lemma is_closing_bits t : uv__is_closing t = Z.testbit (t_flags t) 0 || Z.testbit (t_flags t) 1.
Proof.
  rewrite <- closing_flag_bit, <- closed_flag_bit. unfold uv__is_closing, has_flag.
  rewrite Z.land_lor_distr_r. rewrite <- negb_andb. f_equal.
  destruct (Z.eqb_spec (Z.lor (Z.land (t_flags t) UV_HANDLE_CLOSING) (Z.land (t_flags t) UV_HANDLE_CLOSED)) 0)
    as [E|E].
  - apply Z.lor_eq_0_iff in E as [-> ->]. done.
  - symmetry. apply andb_false_iff. rewrite !Z.eqb_neq.
    destruct (Z.eq_dec (Z.land (t_flags t) UV_HANDLE_CLOSING) 0); [|by left]. right. intros E2.
    by apply E, Z.lor_eq_0_iff.
Qed.

Lemma is_closing_flags t t' :
  (forall j, j = 0 \/ j = 1 -> Z.testbit (t_flags t') j = Z.testbit (t_flags t) j) ->
  uv__is_closing t' = uv__is_closing t.
Proof. intros H. rewrite !is_closing_bits, !H by lia. done. Qed.

Lemma stopped_closing t : uv__is_closing (stopped t) = uv__is_closing t.
Proof.
  unfold stopped. destruct (uv__is_active t); [|done]. apply is_closing_flags.
  intros j [->| ->]; flags; by rewrite andb_true_r.
Qed.

Lemma clamp_deadline now timeout :
  in_u64 now -> in_u64 timeout ->
  (if u64 (now + timeout) <? timeout then u64 (-1) else u64 (now + timeout)) = deadline now timeout.
Proof.
  unfold in_u64, deadline, wrap. intros Hn Ht.
  change (-1 mod 2 ^ 64) with (2 ^ 64 - 1). change (2 ^ 64) with 18446744073709551616 in *.
  destruct (Z.lt_ge_cases (now + timeout) 18446744073709551616).
  - rewrite Z.mod_small by lia. bool_false (now + timeout <? timeout). lia.
  - replace ((now + timeout) mod 18446744073709551616) with (now + timeout - 18446744073709551616)
      by (Z.to_euclidean_division_equations; lia).
    bool_true (now + timeout - 18446744073709551616 <? timeout). lia.
Qed.

Lemma deadline_u64 now timeout : in_u64 now -> in_u64 timeout -> in_u64 (deadline now timeout).
Proof. unfold in_u64, deadline. lia. Qed.

Lemma start_refused (l : uv_loop_t) ts (u : U) h t cb timeout repeat :
  ts !! h = Some t -> uv__is_closing t = true \/ cb = None ->
  uv_timer_start h cb timeout repeat (World l ts u) = Ret UV_EINVAL (World l ts u).
Proof.
  intros Ht H. unfold uv_timer_start. rewrite (bind_Ret _ _ _ _ _ (get_timer_run _ _ _ _ _ Ht)).
  destruct H as [->| ->]; [done|]. by rewrite orb_true_r.
Qed.

(** A timer that is not active gets its deadline and enters the heap. *)
Lemma start_tail (l : uv_loop_t) ts (u : U) h t c timeout repeat :
  wf others (World l ts u) -> ts !! h = Some t -> uv__is_active t = false ->
  uv__is_closing t = false -> in_u64 timeout -> in_u64 repeat ->
  exists l',
    (let! l := get_loop in
     let clamped := u64 (time l + timeout) in
     let clamped := if clamped <? timeout then u64 (-1) else clamped in
     upd_timer h (set_cb (Some c)) ;;!
     upd_timer h (set_timeout clamped) ;;!
     upd_timer h (set_repeat repeat) ;;!
     upd_timer h (set_start_id (timer_counter l)) ;;!
     upd_loop (set_counter (u64 (timer_counter l + 1))) ;;!
     on_heap (fun lt => heap_insert lt h) ;;!
     uv__handle_start h ;;!
     ret 0) (World l ts u) = Ret 0 (World l' (<[h := started (time l) (timer_counter l) c timeout repeat t]> ts) u) /\
    wf others (World l' (<[h := started (time l) (timer_counter l) c timeout repeat t]> ts) u) /\ same_loop l l' /\
    timer_counter l' = u64 (timer_counter l + 1) /\ closing_handles l' = closing_handles l.
Proof.
  intros [Hh Hf Hok Htm Hc] Ht Ha Hcl Hto Hre. cbn in Hh, Hf, Hok, Htm, Hc.
  rewrite (bind_Ret get_loop _ _ _ _ eq_refl). cbn [w_loop]. cbv zeta.
  rewrite (clamp_deadline (time l) timeout Htm Hto).
  rewrite (bind_Ret _ _ _ _ _ (upd_timer_run _ _ _ _ _ _ Ht)).
  erewrite bind_Ret by apply upd_timer_run, lookup_insert_eq. rewrite insert_insert_eq.
  erewrite bind_Ret by apply upd_timer_run, lookup_insert_eq. rewrite insert_insert_eq.
  erewrite bind_Ret by apply upd_timer_run, lookup_insert_eq. rewrite insert_insert_eq.
  unfold upd_loop at 1. rewrite (bind_Ret (modm _) _ _ _ _ eq_refl). cbn [w_loop w_timers w_user].
  set (t1 := set_start_id _ _).
  assert (Hx : h ∉ active_set ts) by (intros (tx & ? & ?)%elem_of_active; congruence).
  assert (Hh1 : heap_rep (timer_less_than (<[h := t1]> ts)) (dom ts) (timer_heap l) (active_set ts)).
  { refine (heap_rep_ext _ _ _ _ _ _ Hh). intros a b Hxa Hxb. symmetry.
    apply lt_insert_out; by intros ->. }
  destruct (heap_insert_rep _ (dom ts) (timer_heap l) (active_set ts) h Hh1 Hx) as (hp & E & Hh2).
  { apply elem_of_dom. eauto. }
  { assert (Hsub : {[h]} ∪ active_set ts ⊆ dom ts).
    { apply union_subseteq. split; [apply singleton_subseteq_l, elem_of_dom; eauto|].
      apply subseteq_dom, map_filter_subseteq. }
    apply subseteq_size in Hsub. rewrite size_dom in Hsub. lia. }
  rewrite (bind_Ret _ _ _ _ _ (on_heap_run (fun lt => heap_insert lt h)
    (set_counter (u64 (timer_counter l + 1)) l) _ u _ _ E)).
  rewrite (bind_Ret _ _ _ _ _ (handle_start_run _ _ _ h t1 (lookup_insert_eq _ _ _) Ha)).
  rewrite insert_insert_eq.
  replace (add_flag UV_HANDLE_ACTIVE t1) with (started (time l) (timer_counter l) c timeout repeat t)
    by (unfold started, stopped; by rewrite Ha).
  eexists. split; [reflexivity|]. split_and!; [|by destruct (uv__has_ref t1)..].
  assert (Ha' : uv__is_active (started (time l) (timer_counter l) c timeout repeat t) = true).
  { unfold started. flags. by rewrite orb_true_r. }
  split; cbn; rewrite ?active_insert, ?Ha', ?dom_insert_lookup_L, ?map_size_insert_Some by eauto.
  - replace (timer_heap (if uv__has_ref t1 then _ else _)) with hp by (by destruct (uv__has_ref t1)).
    refine (heap_rep_ext _ _ _ _ _ _ Hh2). intros a b Hxa Hxb. symmetry.
    rewrite <- (insert_insert_eq ts h _ t1). eapply lt_insert_same; [apply lookup_insert_eq|done|done].
  - done.
  - apply map_Forall_insert_2; [|done].
    split_and!; [by apply deadline_u64|done|]. intros _. split; [by exists c|].
    rewrite <- Hcl. apply is_closing_flags. intros j Hj. unfold started, stopped. rewrite Ha.
    destruct Hj as [->| ->]; flags; by rewrite orb_false_r.
  - by destruct (uv__has_ref t1).
  - rewrite <- (count_step ts h t _ _ Ht Hc). unfold keeps_alive. rewrite Ha', Ha. cbn [andb Z.b2z].
    replace (uv__has_ref (started (time l) (timer_counter l) c timeout repeat t)) with (uv__has_ref t1).
    + destruct (uv__has_ref t1); cbn; [done|]. rewrite Z.add_0_r, Hc. by rewrite wrap_wrap.
    + unfold started, stopped. rewrite Ha. flags. by rewrite orb_false_r.
Qed.

Lemma start_run (l : uv_loop_t) ts (u : U) h t c timeout repeat :
  wf others (World l ts u) -> ts !! h = Some t -> uv__is_closing t = false ->
  in_u64 timeout -> in_u64 repeat ->
  exists l', uv_timer_start h (Some c) timeout repeat (World l ts u) =
      Ret 0 (World l' (<[h := started (time l) (timer_counter l) c timeout repeat t]> ts) u) /\
    wf others (World l' (<[h := started (time l) (timer_counter l) c timeout repeat t]> ts) u) /\ same_loop l l' /\
    timer_counter l' = u64 (timer_counter l + 1) /\ closing_handles l' = closing_handles l.
Proof.
  intros Hw Ht Hcl Hto Hre. unfold uv_timer_start.
  rewrite (bind_Ret _ _ _ _ _ (get_timer_run _ _ _ _ _ Ht)), Hcl. cbn [orb].
  destruct (stop_run l ts u h t Hw Ht) as (l1 & E1 & Hw1 & Hl1 & Hn1 & Hc1).
  assert (E : (if uv__is_active t then let! _ := uv_timer_stop h in ret tt else ret tt) (World l ts u) =
              Ret tt (World (if uv__is_active t then l1 else l) (<[h := stopped t]> ts) u)).
  { destruct (uv__is_active t) eqn:Ha; [by rewrite (bind_Ret _ _ _ _ _ E1)|].
    unfold stopped. rewrite Ha. by rewrite insert_id. }
  rewrite (bind_Ret _ _ _ _ _ E). clear E.
  assert (Hw2 : wf others (World (if uv__is_active t then l1 else l) (<[h := stopped t]> ts) u)).
  { destruct (uv__is_active t) eqn:Ha; [done|]. unfold stopped. rewrite Ha. by rewrite insert_id. }
  destruct (start_tail _ _ u h (stopped t) c timeout repeat Hw2 (lookup_insert_eq _ _ _)
    (stopped_inactive t) (eq_trans (stopped_closing t) Hcl) Hto Hre) as (l' & E' & Hw' & Hl' & Hn' & Hc').
  rewrite insert_insert_eq in E', Hw'.
  replace (time (if uv__is_active t then l1 else l)) with (time l) in E', Hw'
    by (destruct Hl1 as (Et & _); by destruct (uv__is_active t)).
  replace (timer_counter (if uv__is_active t then l1 else l)) with (timer_counter l) in E', Hw', Hn'
    by (by destruct (uv__is_active t)).
  rewrite started_stopped in E', Hw'.
  exists l'. split; [exact E'|]. split_and!; [done| |done|].
  - destruct (uv__is_active t); [by eapply same_loop_trans|done].
  - rewrite Hc'. by destruct (uv__is_active t).
Qed.
End invariant.
