(* ===== verification/UvTimerCalls.v ===== *)
(** * What the calls on libuv's timers do

    Every call is a function of the fields of one handle, the time and the counter of
    starts; the heap and the count of active handles follow. *)
From S2P Require Import Prelude UvHeap UvHeapSpec UvTimer UvTimerInv.

(** A call of the program on a timer.  [TClose] is the guarded
    [if (!uv_is_closing(h)) uv_close(h, cb)]. *)
Inductive tcall : Type :=
| TInit (h : nat)
| TStart (h : nat) (cb : option nat) (timeout repeat : Z)
| TStop (h : nat)
| TAgain (h : nat)
| TSetRepeat (h : nat) (repeat : Z)
| TRef (h : nat)
| TUnref (h : nat)
| TClose (h : nat) (cb : option nat).

Definition tcall_handle (c : tcall) : nat :=
  match c with
  | TInit h | TStart h _ _ _ | TStop h | TAgain h | TSetRepeat h _ | TRef h | TUnref h
  | TClose h _ => h
  end.

Section run.
Context {U : Type}.
Definition run_tcall (c : tcall) : M (world U) unit :=
  match c with
  | TInit h => let! _ := uv_timer_init h in ret tt
  | TStart h cb timeout repeat => let! _ := uv_timer_start h cb timeout repeat in ret tt
  | TStop h => let! _ := uv_timer_stop h in ret tt
  | TAgain h => let! _ := uv_timer_again h in ret tt
  | TSetRepeat h repeat => uv_timer_set_repeat h repeat
  | TRef h => uv_ref h
  | TUnref h => uv_unref h
  | TClose h cb => let! b := uv_is_closing h in if b then ret tt else uv_close h cb
  end.
Fixpoint run_tcalls (cs : list tcall) : M (world U) unit :=
  match cs with [] => ret tt | c :: cs => run_tcall c ;;! run_tcalls cs end.
End run.

(** ** The calls as functions *)

Definition again (now id : Z) (t : uv_timer_t) : uv_timer_t :=
  match t_cb t with
  | Some c =>
      if t_repeat t =? 0 then t
      else if uv__is_closing t then stopped t else started now id c (t_repeat t) (t_repeat t) t
  | None => t
  end.
(** The new handle, given the handle the loop's list of closing handles starts with. *)
Definition closed (next cb : option nat) (t : uv_timer_t) : uv_timer_t :=
  set_next_closing next (stopped (set_close_cb cb (add_flag UV_HANDLE_CLOSING t))).

Definition tcall_timer (now n : Z) (p : option nat) (c : tcall) (t : uv_timer_t) : uv_timer_t :=
  match c with
  | TInit _ => Timer None (t_timeout t) 0 (t_start_id t) UV_HANDLE_REF None (t_close_cb t)
  | TStart _ cb timeout repeat =>
      match cb with
      | Some k => if uv__is_closing t then t else started now n k timeout repeat t
      | None => t
      end
  | TStop _ => stopped t
  | TAgain _ => again now n t
  | TSetRepeat _ repeat => set_repeat repeat t
  | TRef _ => if uv__has_ref t then t else add_flag UV_HANDLE_REF t
  | TUnref _ => if uv__has_ref t then del_flag UV_HANDLE_REF t else t
  | TClose _ cb => if uv__is_closing t then t else closed p cb t
  end.

Definition starts (c : tcall) (t : uv_timer_t) : bool :=
  match c with
  | TStart _ (Some _) _ _ => negb (uv__is_closing t)
  | TAgain _ =>
      match t_cb t with
      | Some _ => negb (t_repeat t =? 0) && negb (uv__is_closing t)
      | None => false
      end
  | _ => false
  end.
Definition tcall_counter (n : Z) (c : tcall) (t : uv_timer_t) : Z :=
  if starts c t then u64 (n + 1) else n.
Definition tcall_closing (p : option nat) (c : tcall) (t : uv_timer_t) : option nat :=
  match c with
  | TClose h _ => if uv__is_closing t then p else Some h
  | _ => p
  end.

(** What the interface asks of a call: times are 64-bit, and an active handle is not
    initialised again. *)
Definition tcall_ok (c : tcall) (t : uv_timer_t) : Prop :=
  match c with
  | TInit _ => uv__is_active t = false
  | TStart _ _ timeout repeat => in_u64 timeout /\ in_u64 repeat
  | TSetRepeat _ repeat => in_u64 repeat
  | _ => True
  end.

Section calls.
Context {U : Type} (others : Z).

(** The outcome of a call that turns [t] into [t'], the counter of starts into [n] and
    the first closing handle into [p]. *)
Definition outcome (m : M (world U) unit) (l : uv_loop_t) ts (u : U) (h : nat) (t' : uv_timer_t)
    (n : Z) (p : option nat) : Prop :=
  exists l', m (World l ts u) = Ret tt (World l' (<[h := t']> ts) u) /\
    wf others (World l' (<[h := t']> ts) u) /\ same_loop l l' /\
    timer_counter l' = n /\ closing_handles l' = p.

Lemma outcome_same (m : M (world U) unit) l ts (u : U) h t :
  wf others (World l ts u) -> ts !! h = Some t -> m (World l ts u) = Ret tt (World l ts u) ->
  outcome m l ts u h t (timer_counter l) (closing_handles l).
Proof. intros Hw Ht E. exists l. rewrite insert_id by done. by split_and!. Qed.

(** A change of the flags that counting does not see. *)
Lemma wf_update_uncounted ok l l' ts (u : U) h t t' :
  wf_with ok others (World l ts u) -> ts !! h = Some t -> ok h t' ->
  uv__is_active t' = uv__is_active t -> uv__has_ref t' = uv__has_ref t \/ uv__is_active t = false ->
  (uv__is_active t = true -> t_timeout t' = t_timeout t /\ t_start_id t' = t_start_id t) ->
  timer_heap l' = timer_heap l -> time l' = time l -> active_handles l' = active_handles l ->
  wf_with ok others (World l' (<[h := t']> ts) u).
Proof.
  intros Hw Ht Hok Ha Hr Hk Eh Et Ec. apply (wf_update others ok l l' ts u u h t t'); try done.
  destruct Hw as [_ _ _ _ Hc]. cbn in Hc. rewrite <- (count_step others ts h t t' _ Ht Hc), Ec.
  replace (keeps_alive t') with (keeps_alive t).
  - rewrite Z.sub_diag, Z.add_0_r, Hc. by rewrite wrap_wrap.
  - unfold keeps_alive. rewrite Ha. destruct Hr as [->| ->]; done.
Qed.

Lemma stop_outcome l ts (u : U) h t :
  wf others (World l ts u) -> ts !! h = Some t -> 
  outcome (run_tcall (TStop h)) l ts u h (stopped t) (timer_counter l) (closing_handles l).
Proof.
  intros Hw Ht. destruct (stop_run others l ts u h t Hw Ht) as (l' & E & Hw' & Hl & Hn & Hp).
  exists l'. cbn [run_tcall]. by rewrite (bind_Ret _ _ _ _ _ E).
Qed.

Lemma start_outcome l ts (u : U) h t cb timeout repeat :
  wf others (World l ts u) -> ts !! h = Some t -> in_u64 timeout -> in_u64 repeat ->
  outcome (run_tcall (TStart h cb timeout repeat)) l ts u h (tcall_timer (time l) (timer_counter l) (closing_handles l) (TStart h cb timeout repeat) t)
    (tcall_counter (timer_counter l) (TStart h cb timeout repeat) t) (closing_handles l).
Proof.
  intros Hw Ht Hto Hre. cbn [run_tcall tcall_timer]. unfold tcall_counter, starts.
  destruct cb as [k|]; [destruct (uv__is_closing t) eqn:Hc|].
  1: pose proof (start_refused l ts u h t (Some k) timeout repeat Ht (or_introl Hc)) as E.
  3: pose proof (start_refused l ts u h t None timeout repeat Ht (or_intror eq_refl)) as E.
  1,3: apply outcome_same; [done|done|]; by rewrite (bind_Ret _ _ _ _ _ E).
  destruct (start_run others l ts u h t k timeout repeat Hw Ht Hc Hto Hre) as (l' & E & Hw' & Hl & Hn & Hp).
  exists l'. by rewrite (bind_Ret _ _ _ _ _ E).
Qed.

Lemma again_outcome l ts (u : U) h t :
  wf others (World l ts u) -> ts !! h = Some t ->
  outcome (run_tcall (TAgain h)) l ts u h (again (time l) (timer_counter l) t)
    (tcall_counter (timer_counter l) (TAgain h) t) (closing_handles l).
Proof.
  intros Hw Ht. cbn [run_tcall]. unfold uv_timer_again, again, tcall_counter, starts.
  assert (Hget := get_timer_run l ts u h t Ht).
  destruct (t_cb t) as [k|] eqn:Hcb; [destruct (t_repeat t =? 0) eqn:Hz|].
  1,3: apply outcome_same; [done|done|]; unfold bind at 1; rewrite (bind_Ret _ _ _ _ _ Hget), Hcb, ?Hz; done.
  destruct (stop_run others l ts u h t Hw Ht) as (l1 & E1 & Hw1 & Hl1 & Hn1 & Hp1).
  assert (Ht1 := lookup_insert_eq ts h (stopped t)).
  assert (Hf : t_cb (stopped t) = Some k /\ t_repeat (stopped t) = t_repeat t)
    by (unfold stopped; by destruct (uv__is_active t)).
  destruct Hf as [Hf1 Hf2]. pose proof (wf_timers _ _ _ Hw h t Ht) as (_ & Hre & _).
  destruct (start_outcome l1 _ u h (stopped t) (Some k) (t_repeat t) (t_repeat t) Hw1 Ht1 Hre Hre)
    as (l2 & E2 & Hw2 & Hl2 & Hn2 & Hp2).
  cbn [run_tcall tcall_timer] in E2, Hw2. unfold tcall_counter, starts in Hn2. rewrite stopped_closing, Hn1 in Hn2. rewrite stopped_closing, insert_insert_eq in E2, Hw2.
  destruct Hl1 as (Et & ?). rewrite Et, Hn1, started_stopped in E2, Hw2.
  exists l2. split_and!; [|done|by eapply same_loop_trans|by rewrite Hn2|congruence].
  rewrite !bind_assoc, (bind_Ret _ _ _ _ _ Hget), Hcb, Hz. cbn [negb].
  rewrite bind_assoc, (bind_Ret _ _ _ _ _ E1), bind_assoc, (bind_Ret _ _ _ _ _ (get_timer_run _ _ _ _ _ Ht1)).
  rewrite Hf1, Hf2, bind_assoc. exact E2.
Qed.

Lemma set_repeat_outcome l ts (u : U) h t repeat :
  wf others (World l ts u) -> ts !! h = Some t -> in_u64 repeat ->
  outcome (run_tcall (TSetRepeat h repeat)) l ts u h (set_repeat repeat t) (timer_counter l) (closing_handles l).
Proof.
  intros Hw Ht Hre. exists l. split; [by apply upd_timer_run|]. split; [|done].
  apply (wf_update_uncounted _ l l ts u h t); try done; [|by left].
  destruct (wf_timers _ _ _ Hw h t Ht) as (H1 & _ & H3). by split_and!.
Qed.

Lemma closing_not_flag t : uv__is_closing t = false -> has_flag UV_HANDLE_CLOSING t = false.
Proof. rewrite is_closing_bits, closing_flag_bit. by intros [? _]%orb_false_iff. Qed.

Lemma ref_outcome l ts (u : U) h t :
  wf others (World l ts u) -> ts !! h = Some t ->
  outcome (run_tcall (TRef h)) l ts u h (if uv__has_ref t then t else add_flag UV_HANDLE_REF t)
    (timer_counter l) (closing_handles l).
Proof.
  intros Hw Ht. cbn [run_tcall]. unfold uv_ref, uv__handle_ref.
  assert (Hget := get_timer_run l ts u h t Ht).
  destruct (uv__has_ref t) eqn:Hr.
  { apply outcome_same; [done|done|]. by rewrite (bind_Ret _ _ _ _ _ Hget), Hr. }
  assert (Hact : uv__is_active (add_flag UV_HANDLE_REF t) = uv__is_active t) by (flags; by rewrite orb_false_r).
  assert (Href : uv__has_ref (add_flag UV_HANDLE_REF t) = true) by (flags; by rewrite orb_true_r).
  assert (Hcl : has_flag UV_HANDLE_CLOSING (add_flag UV_HANDLE_REF t) = has_flag UV_HANDLE_CLOSING t)
    by (flags; by rewrite orb_false_r).
  assert (Hclo : uv__is_closing (add_flag UV_HANDLE_REF t) = uv__is_closing t)
    by (apply is_closing_flags; intros j [->| ->]; flags; by rewrite orb_false_r).
  destruct (wf_timers _ _ _ Hw h t Ht) as (H1 & H2 & H3).
  assert (Hok : timer_ok (add_flag UV_HANDLE_REF t)).
  { split_and!; [done|done|]. rewrite Hact, Hclo. exact H3. }
  exists (if uv__is_active t then set_active (u32 (active_handles l + 1)) l else l). split_and!.
  - rewrite (bind_Ret _ _ _ _ _ Hget), Hr, (bind_Ret _ _ _ _ _ (upd_timer_run _ _ _ _ _ _ Ht)).
    erewrite bind_Ret by apply get_timer_run, lookup_insert_eq. rewrite Hact, Hcl.
    destruct (uv__is_active t) eqn:Ha; [|by destruct (has_flag UV_HANDLE_CLOSING t)].
    destruct (H3 eq_refl) as [_ Hc]. by rewrite (closing_not_flag _ Hc).
  - apply (wf_update others _ l _ ts u u h t); [done|done|done|done|done|by destruct (uv__is_active t)..|].
    destruct Hw as [_ _ _ _ Hc]. cbn in Hc. rewrite <- (count_step others ts h t _ _ Ht Hc).
    unfold keeps_alive. rewrite Hact, Href, Hr, andb_false_r.
    destruct (uv__is_active t); cbn; [done|]. rewrite Z.add_0_r, Hc. by rewrite wrap_wrap.
  - by destruct (uv__is_active t).
  - by destruct (uv__is_active t).
  - by destruct (uv__is_active t).
Qed.

Lemma unref_outcome l ts (u : U) h t :
  wf others (World l ts u) -> ts !! h = Some t ->
  outcome (run_tcall (TUnref h)) l ts u h (if uv__has_ref t then del_flag UV_HANDLE_REF t else t)
    (timer_counter l) (closing_handles l).
Proof.
  intros Hw Ht. cbn [run_tcall]. unfold uv_unref, uv__handle_unref.
  assert (Hget := get_timer_run l ts u h t Ht).
  destruct (uv__has_ref t) eqn:Hr.
  2: { apply outcome_same; [done|done|]. by rewrite (bind_Ret _ _ _ _ _ Hget), Hr. }
  assert (Hact : uv__is_active (del_flag UV_HANDLE_REF t) = uv__is_active t) by (flags; by rewrite andb_true_r).
  assert (Href : uv__has_ref (del_flag UV_HANDLE_REF t) = false) by (flags; by rewrite andb_false_r).
  assert (Hcl : has_flag UV_HANDLE_CLOSING (del_flag UV_HANDLE_REF t) = has_flag UV_HANDLE_CLOSING t)
    by (flags; by rewrite andb_true_r).
  assert (Hclo : uv__is_closing (del_flag UV_HANDLE_REF t) = uv__is_closing t)
    by (apply is_closing_flags; intros j [->| ->]; flags; by rewrite andb_true_r).
  destruct (wf_timers _ _ _ Hw h t Ht) as (H1 & H2 & H3).
  assert (Hok : timer_ok (del_flag UV_HANDLE_REF t)).
  { split_and!; [done|done|]. rewrite Hact, Hclo. exact H3. }
  exists (if uv__is_active t then set_active (u32 (active_handles l - 1)) l else l). split_and!.
  - rewrite (bind_Ret _ _ _ _ _ Hget), Hr. cbn [negb].
    rewrite (bind_Ret _ _ _ _ _ (upd_timer_run _ _ _ _ _ _ Ht)).
    erewrite bind_Ret by apply get_timer_run, lookup_insert_eq. rewrite Hact, Hcl.
    destruct (uv__is_active t) eqn:Ha; [|by destruct (has_flag UV_HANDLE_CLOSING t)].
    destruct (H3 eq_refl) as [_ Hc]. by rewrite (closing_not_flag _ Hc).
  - apply (wf_update others _ l _ ts u u h t); [done|done|done|done|done|by destruct (uv__is_active t)..|].
    destruct Hw as [_ _ _ _ Hc]. cbn in Hc. rewrite <- (count_step others ts h t _ _ Ht Hc).
    unfold keeps_alive. rewrite Hact, Href, Hr, andb_false_r, andb_true_r.
    destruct (uv__is_active t); cbn; [done|]. rewrite Z.add_0_r, Hc. by rewrite wrap_wrap.
  - by destruct (uv__is_active t).
  - by destruct (uv__is_active t).
  - by destruct (uv__is_active t).
Qed.

Lemma close_outcome l ts (u : U) h t cb :
  wf others (World l ts u) -> ts !! h = Some t ->
  outcome (run_tcall (TClose h cb)) l ts u h (tcall_timer (time l) (timer_counter l) (closing_handles l) (TClose h cb) t)
    (timer_counter l) (if uv__is_closing t then closing_handles l else Some h).
Proof.
  intros Hw Ht. cbn [run_tcall tcall_timer]. assert (Hget := get_timer_run l ts u h t Ht).
  assert (Eb : uv_is_closing h (World l ts u) = Ret (uv__is_closing t) (World l ts u)).
  { unfold uv_is_closing. by rewrite (bind_Ret _ _ _ _ _ Hget). }
  destruct (uv__is_closing t) eqn:Hcl.
  { apply outcome_same; [done|done|]. by rewrite (bind_Ret _ _ _ _ _ Eb). }
  set (t1 := set_close_cb cb (add_flag UV_HANDLE_CLOSING t)).
  set (ok := fun x t => x = h \/ timer_ok t).
  assert (Hact : uv__is_active t1 = uv__is_active t).
  { unfold t1. rewrite !is_active_bit. cbn [set_close_cb t_flags]. flags. by rewrite orb_false_r. }
  assert (Hw1 : wf_with ok others (World l (<[h := t1]> ts) u)).
  { apply (wf_update_uncounted ok l l ts u h t); [|done|by left|done| |done..].
    - destruct Hw as [Q1 Q2 Hok Q4 Q5]. split; try done. intros x y Hx. right. by apply (Hok x).
    - left. unfold t1. rewrite !has_ref_bit. cbn [set_close_cb t_flags]. flags. by rewrite orb_false_r. }
  destruct (stop_run_with others ok l _ u h t1 Hw1 (lookup_insert_eq _ _ _)) as (l1 & E1 & Hw2 & Hl1 & Hn1 & Hcl1).
  { by left. }
  rewrite insert_insert_eq in E1, Hw2.
  exists (set_closing (Some h) l1).
  assert (Hbits : has_flag UV_HANDLE_CLOSING (stopped t1) = true /\ has_flag UV_HANDLE_CLOSED (stopped t1) = false).
  { assert (has_flag UV_HANDLE_CLOSED t = false)
      by (rewrite is_closing_bits in Hcl; rewrite closed_flag_bit; by apply orb_false_iff in Hcl as [_ ?]).
    assert (H1 : has_flag UV_HANDLE_CLOSING t1 = true).
    { unfold t1. rewrite closing_flag_bit. cbn [set_close_cb t_flags]. flags. by rewrite orb_true_r. }
    assert (H2 : has_flag UV_HANDLE_CLOSED t1 = false).
    { unfold t1. rewrite closed_flag_bit in *. cbn [set_close_cb t_flags]. flags. by rewrite orb_false_r. }
    unfold stopped. destruct (uv__is_active t1); [|done]. rewrite closing_flag_bit, closed_flag_bit in *.
    rewrite !(del_flag_bits 2) by lia. by rewrite H1, H2. }
  destruct Hbits as [Hb1 Hb2]. assert (Ht2 := lookup_insert_eq ts h (stopped t1)).
  assert (Hgt := get_timer_run l1 _ u h _ Ht2).
  split_and!; [| |exact Hl1|exact Hn1|done].
  - rewrite (bind_Ret _ _ _ _ _ Eb). unfold uv_close. rewrite (bind_Ret _ _ _ _ _ Hget), Hcl. cbn [negb assertm].
    rewrite (bind_Ret (ret tt) _ _ _ _ eq_refl), (bind_Ret _ _ _ _ _ (upd_timer_run _ _ _ _ _ _ Ht)).
    erewrite bind_Ret by apply upd_timer_run, lookup_insert_eq. rewrite insert_insert_eq. fold t1.
    unfold uv__timer_close. rewrite bind_assoc, (bind_Ret _ _ _ _ _ E1). rewrite (bind_Ret (ret tt) _ _ _ _ eq_refl).
    unfold uv__make_close_pending. rewrite (bind_Ret _ _ _ _ _ Hgt), Hb1, Hb2. cbn [negb assertm].
    rewrite !(bind_Ret (ret tt) _ _ _ _ eq_refl), (bind_Ret get_loop _ _ _ _ eq_refl). cbn [w_loop].
    rewrite (bind_Ret _ _ _ _ _ (upd_timer_run _ _ _ _ _ _ Ht2)), insert_insert_eq, Hcl1. reflexivity.
  - unfold closed. fold t1. assert (Hw3 : wf_with ok others
      (World (set_closing (Some h) l1) (<[h := set_next_closing (closing_handles l) (stopped t1)]> ts) u)).
    { rewrite <- (insert_insert_eq ts h _ (stopped t1)).
      apply (wf_update_uncounted ok l1 _ _ u h (stopped t1)); try done; by left. }
    destruct Hw3 as [Q1 Q2 Q3 Q4 Q5]. split; try done. cbn. apply map_Forall_insert_2; [|apply Hw].
    destruct (wf_timers _ _ _ Hw h t Ht) as (H1 & H2 & _).
    assert (Hf : t_timeout (stopped t1) = t_timeout t /\ t_repeat (stopped t1) = t_repeat t)
      by (unfold stopped; by destruct (uv__is_active t1)).
    destruct Hf as [Hf1 Hf2]. split_and!; cbn [set_next_closing t_timeout t_repeat].
    + by rewrite Hf1.
    + by rewrite Hf2.
    + pose proof (stopped_inactive t1) as Hin. unfold uv__is_active, has_flag in *. cbn. by rewrite Hin.
Qed.

Lemma init_outcome l ts (u : U) h t :
  wf others (World l ts u) -> ts !! h = Some t -> uv__is_active t = false ->
  outcome (run_tcall (TInit h)) l ts u h (tcall_timer (time l) (timer_counter l) (closing_handles l) (TInit h) t) (timer_counter l) (closing_handles l).
Proof.
  intros Hw Ht Ha. cbn [run_tcall tcall_timer].
  exists (set_queue (handle_queue l ++ [h]) l). split_and!; [| |done|done|done].
  - unfold uv_timer_init, uv__handle_init. rewrite !bind_assoc.
    rewrite (bind_Ret _ _ _ _ _ (upd_timer_run _ _ _ _ _ _ Ht)), bind_assoc.
    unfold upd_loop. rewrite (bind_Ret (modm _) _ _ _ _ eq_refl). cbn [w_loop w_timers w_user].
    erewrite bind_Ret by apply upd_timer_run, lookup_insert_eq. rewrite insert_insert_eq, bind_assoc.
    erewrite bind_Ret by apply upd_timer_run, lookup_insert_eq. rewrite insert_insert_eq, bind_assoc.
    erewrite bind_Ret by apply upd_timer_run, lookup_insert_eq. rewrite insert_insert_eq.
    reflexivity.
  - apply (wf_update_uncounted _ l _ ts u h t); try done; [|by right].
    destruct (wf_timers _ _ _ Hw h t Ht) as (H1 & _ & _). by split_and!.
Qed.

Lemma tcall_outcome l ts (u : U) c t :
  wf others (World l ts u) -> ts !! tcall_handle c = Some t -> tcall_ok c t ->
  outcome (run_tcall c) l ts u (tcall_handle c)
    (tcall_timer (time l) (timer_counter l) (closing_handles l) c t)
    (tcall_counter (timer_counter l) c t) (tcall_closing (closing_handles l) c t).
Proof.
  intros Hw Ht Hok. destruct c; cbn [tcall_handle tcall_ok] in *.
  - by apply init_outcome.
  - destruct Hok. by apply start_outcome.
  - by apply stop_outcome.
  - by apply again_outcome.
  - by apply set_repeat_outcome.
  - by apply ref_outcome.
  - by apply unref_outcome.
  - by apply close_outcome.
Qed.
End calls.

(** ** Sequences of calls *)

(** What the calls are about: the handles, with the counter of starts and the list of
    closing handles, and no heap. *)
Record tabs : Type := TAbs { a_timers : gmap nat uv_timer_t; a_counter : Z; a_closing : option nat }.
Definition abs_call (now : Z) (c : tcall) (a : tabs) : tabs :=
  let h := tcall_handle c in
  let t := a_timers a !!! h in
  TAbs (<[h := tcall_timer now (a_counter a) (a_closing a) c t]> (a_timers a))
    (tcall_counter (a_counter a) c t) (tcall_closing (a_closing a) c t).
Definition abs_calls (now : Z) (cs : list tcall) (a : tabs) : tabs :=
  foldl (fun a c => abs_call now c a) a cs.
Fixpoint tcalls_ok (now : Z) (cs : list tcall) (a : tabs) : Prop :=
  match cs with
  | [] => True
  | c :: cs =>
      (exists t, a_timers a !! tcall_handle c = Some t /\ tcall_ok c t) /\
      tcalls_ok now cs (abs_call now c a)
  end.
Definition abs_of {U} (w : world U) : tabs :=
  TAbs (w_timers w) (timer_counter (w_loop w)) (closing_handles (w_loop w)).

Lemma tcall_run {U} others (w : world U) c :
  wf others w -> (exists t, w_timers w !! tcall_handle c = Some t /\ tcall_ok c t) ->
  exists w', run_tcall c w = Ret tt w' /\ wf others w' /\
    same_loop (w_loop w) (w_loop w') /\ w_user w' = w_user w /\
    abs_of w' = abs_call (time (w_loop w)) c (abs_of w).
Proof.
  intros Hw (t & Ht & Hok). destruct w as [l ts u]. cbn in Ht.
  destruct (tcall_outcome others l ts u c t Hw Ht Hok) as (l' & E & Hw' & Hl & Hn & Hp).
  eexists. split; [exact E|]. split_and!; [done|done|done|].
  unfold abs_of, abs_call. cbn. by rewrite (lookup_total_correct _ _ _ Ht), Hn, Hp.
Qed.

Lemma tcalls_run {U} others cs (w : world U) :
  wf others w -> tcalls_ok (time (w_loop w)) cs (abs_of w) ->
  exists w', run_tcalls cs w = Ret tt w' /\ wf others w' /\
    same_loop (w_loop w) (w_loop w') /\ w_user w' = w_user w /\
    abs_of w' = abs_calls (time (w_loop w)) cs (abs_of w).
Proof.
  revert w. induction cs as [|c cs IH]; intros w Hw Hok.
  - exists w. by split_and!.
  - destruct Hok as [Hc Hcs]. destruct (tcall_run others w c Hw Hc) as (w1 & E1 & Hw1 & Hl1 & Hu1 & Ha1).
    assert (Et : time (w_loop w1) = time (w_loop w)) by apply Hl1.
    destruct (IH w1 Hw1) as (w2 & E2 & Hw2 & Hl2 & Hu2 & Ha2); [by rewrite Et, Ha1|].
    exists w2. cbn [run_tcalls]. rewrite (bind_Ret _ _ _ _ _ E1).
    split_and!; [done|done|by eapply same_loop_trans|congruence|].
    by rewrite Ha2, Et, Ha1.
Qed.
