(* ===== verification/UvTimerSpec.v ===== *)
(** * libuv's timers fire when they are due, in order

    The theorems on timer.c: sequences of calls against the fields of the handles,
    the time the loop may sleep, the termination of the loop that runs the due timers
    whatever calls their callbacks make, and the order in which it runs them. *)
From Stdlib Require Import Sorted.
From S2P Require Import Prelude UvHeap UvHeapSpec UvTimer UvTimerInv UvTimerCalls.

(** C16: every sequence of calls on timers (initialise, start, stop, again, set repeat,
    reference, unreference, close), with 64-bit times and no initialisation of an
    active timer, runs to its end; it leaves the heap holding exactly the active
    timers in the order of their deadlines, and the loop counting the active
    referenced ones; and it does to the fields of the handles exactly what the calls
    say, as functions that know no heap: a deadline that would overflow is the largest
    64-bit time, a closing handle and a start without callback are refused, restarts
    use the repeat interval, and the starts are numbered in order. *)
Theorem timer_calls_refine {U} others cs (w : world U) :
  wf others w -> tcalls_ok (time (w_loop w)) cs (abs_of w) ->
  exists w', run_tcalls cs w = Ret tt w' /\ wf others w' /\
    w_user w' = w_user w /\ abs_of w' = abs_calls (time (w_loop w)) cs (abs_of w).
Proof.
  intros Hw Hok. destruct (tcalls_run others cs w Hw Hok) as (w' & E & Hw' & _ & Hu & Ha). eauto.
Qed.

(** ** How long the loop may sleep *)

Lemma heap_min_run {U} others (w : world U) :
  wf others w ->
  on_heap (fun _ => heap_min) w = Ret (h_min (timer_heap (w_loop w))) w /\
  match h_min (timer_heap (w_loop w)) with
  | None => active_set (w_timers w) = ∅
  | Some h => exists t, w_timers w !! h = Some t /\ uv__is_active t = true /\
      forall x y, w_timers w !! x = Some y -> uv__is_active y = true ->
        timer_less_than (w_timers w) x h = false
  end.
Proof.
  intros [Hh _ _ _ _]. destruct (heap_min_rep _ _ _ _ Hh) as [_ Hm]. destruct w as [l ts u]. cbn in *. split.
  - unfold on_heap. cbn. by destruct l.
  - destruct (h_min (timer_heap l)) as [h|]; [|by destruct Hm].
    destruct Hm as ((t & Ht & Ha)%elem_of_active & Hle & _). exists t. split_and!; [done|done|].
    intros x y Hx Hy. apply Hle, elem_of_active. eauto.
Qed.

Lemma less_deadline ts x y tx ty :
  ts !! x = Some tx -> ts !! y = Some ty -> timer_less_than ts y x = false -> t_timeout tx <= t_timeout ty.
Proof.
  intros Hx Hy. unfold timer_less_than.
  rewrite (lookup_total_correct _ _ _ Hx), (lookup_total_correct _ _ _ Hy).
  case_bool; [done|]. lia.
Qed.

(** C18: the loop is told to block without limit when no timer is active, and
    otherwise to sleep until the earliest deadline of the active timers, at most
    INT_MAX milliseconds, and not at all when it has passed: it never sleeps past a
    deadline. *)
Theorem next_timeout_earliest {U} others (w : world U) :
  wf others w ->
  exists n, uv__next_timeout w = Ret n w /\
    (n = -1 /\ active_set (w_timers w) = ∅ \/
     exists h t, w_timers w !! h = Some t /\ uv__is_active t = true /\
       (forall x y, w_timers w !! x = Some y -> uv__is_active y = true -> t_timeout t <= t_timeout y) /\
       n = Z.min INT_MAX (Z.max 0 (t_timeout t - time (w_loop w)))).
Proof.
  intros Hw. destruct (heap_min_run others w Hw) as [E Hm]. unfold uv__next_timeout.
  rewrite (bind_Ret _ _ _ _ _ E). destruct (h_min (timer_heap (w_loop w))) as [h|].
  2: { exists (-1). split; [done|]. by left. }
  destruct Hm as (t & Ht & Ha & Hle). destruct w as [l ts u]. cbn in *.
  rewrite (bind_Ret _ _ _ _ _ (get_timer_run l ts u h t Ht)), (bind_Ret get_loop _ _ _ _ eq_refl).
  cbn [w_loop]. destruct (wf_timers _ _ _ Hw h t Ht) as (Hto & _). pose proof (wf_time _ _ _ Hw) as Htm.
  cbn in Htm. unfold in_u64 in *.
  exists (Z.min INT_MAX (Z.max 0 (t_timeout t - time l))). split.
  - destruct (Z.leb_spec (t_timeout t) (time l)) as [Hpast|Hfut].
    + unfold ret. f_equal. unfold INT_MAX. lia.
    + cbv zeta. rewrite wrap_small by lia. unfold INT_MAX in *.
      destruct (Z.ltb_spec 2147483647 (t_timeout t - time l)); unfold ret; f_equal.
      * change (i32 2147483647) with 2147483647. lia.
      * unfold sext. rewrite wrap_small by (change (2 ^ 32) with 4294967296; lia).
        change (2 ^ (32 - 1)) with 2147483648. bool_true (t_timeout t - time l <? 2147483648). lia.
  - right. exists h, t. split_and!; try done. intros x y Hx Hy. eapply less_deadline; eauto.
Qed.

(** ** Running the due timers *)

Definition is_due (now : Z) (t : uv_timer_t) : bool := uv__is_active t && (t_timeout t <=? now).
Definition due_set (now : Z) (ts : gmap nat uv_timer_t) : gset nat :=
  dom (filter (fun p => is_due now p.2 = true) ts).
(** A timer that fires is stopped, and started again if it repeats. *)
Definition fired (now n : Z) (t : uv_timer_t) : uv_timer_t := again now n (stopped t).

Lemma elem_of_due now ts h :
  h ∈ due_set now ts <-> exists t, ts !! h = Some t /\ uv__is_active t = true /\ t_timeout t <= now.
Proof.
  unfold due_set. rewrite elem_of_dom. unfold is_due. split.
  - intros [t [Ht [Ha Hd%Z.leb_le]%andb_true_iff]%map_lookup_filter_Some]. eauto.
  - intros (t & Ht & Ha & Hd%Z.leb_le). exists t. apply map_lookup_filter_Some. cbn. by rewrite Ha, Hd.
Qed.

Lemma due_count now ts : size (due_set now ts) = count (is_due now) ts.
Proof. apply size_dom. Qed.

(** Before the last millisecond of the clock, a start with a timeout is not due. *)
Lemma started_not_due now n c timeout repeat t :
  now < 2 ^ 64 - 1 -> 1 <= timeout -> is_due now (started now n c timeout repeat t) = false.
Proof.
  intros Hn Ht. unfold is_due. cbn [started add_flag set_flags t_timeout]. unfold deadline.
  bool_false (Z.min (now + timeout) (2 ^ 64 - 1) <=? now). by rewrite andb_false_r.
Qed.

Lemma stopped_not_due now t : is_due now (stopped t) = false.
Proof. unfold is_due. by rewrite stopped_inactive. Qed.

Lemma again_due now n t :
  timer_ok t -> now < 2 ^ 64 - 1 -> is_due now (again now n t) = true -> is_due now t = true.
Proof.
  intros (_ & Hre & _) Hn. unfold again, in_u64 in *. destruct (t_cb t); [|done].
  destruct (Z.eqb_spec (t_repeat t) 0); [done|]. destruct (uv__is_closing t).
  - by rewrite stopped_not_due.
  - rewrite started_not_due by lia. done.
Qed.

Lemma fired_not_due now n t : timer_ok t -> now < 2 ^ 64 - 1 -> is_due now (fired now n t) = false.
Proof.
  intros Hok Hn. apply not_true_iff_false. intros H. unfold fired in H.
  apply again_due in H; [by rewrite stopped_not_due in H| |done].
  destruct Hok as (H1 & H2 & _). unfold stopped.
  split_and!; [by destruct (uv__is_active t)..|].
  intros Ha. pose proof (stopped_inactive t) as E. unfold stopped in E. congruence.
Qed.

Lemma fired_cb now n t : t_cb (fired now n t) = t_cb t.
Proof.
  unfold fired, again. assert (E : t_cb (stopped t) = t_cb t) by (unfold stopped; by destruct (uv__is_active t)).
  rewrite E. destruct (t_cb t) as [k|] eqn:Hk; [|done].
  destruct (t_repeat (stopped t) =? 0); [done|].
  destruct (uv__is_closing (stopped t)); [by rewrite stopped_stopped|done].
Qed.

Section rounds.
Context {U : Type} (others : Z).

Lemma fire_run (l : uv_loop_t) ts (u : U) h t :
  wf others (World l ts u) -> ts !! h = Some t ->
  exists l1 l2 r, uv_timer_stop h (World l ts u) = Ret 0 (World l1 (<[h := stopped t]> ts) u) /\
    uv_timer_again h (World l1 (<[h := stopped t]> ts) u) =
      Ret r (World l2 (<[h := fired (time l) (timer_counter l) t]> ts) u) /\
    wf others (World l2 (<[h := fired (time l) (timer_counter l) t]> ts) u) /\ same_loop l l2.
Proof.
  intros Hw Ht. destruct (stop_run others l ts u h t Hw Ht) as (l1 & E1 & Hw1 & Hl1 & Hn1 & _).
  destruct (again_outcome others l1 _ u h (stopped t) Hw1 (lookup_insert_eq _ _ _))
    as (l2 & E2 & Hw2 & Hl2 & _). cbn [run_tcall] in E2.
  apply bind_inv in E2 as (r & s & E2 & [= ->]).
  assert (Et : time l1 = time l) by apply Hl1.
  rewrite insert_insert_eq, Et, Hn1 in E2, Hw2.
  exists l1, l2, r. split_and!; [done|done|done|by eapply same_loop_trans].
Qed.

(** One round: nothing is due and the loop ends, or the earliest timer fires. *)
Lemma run_timers_round call f (l : uv_loop_t) ts (u : U) :
  wf others (World l ts u) ->
  (uv__run_timers call (S f) (World l ts u) = Ret tt (World l ts u) /\ due_set (time l) ts = ∅) \/
  exists h t k l', ts !! h = Some t /\ uv__is_active t = true /\ t_timeout t <= time l /\ t_cb t = Some k /\
    (forall x y, ts !! x = Some y -> uv__is_active y = true -> timer_less_than ts x h = false) /\
    let w' := World l' (<[h := fired (time l) (timer_counter l) t]> ts) u in
    wf others w' /\ same_loop l l' /\
    uv__run_timers call (S f) (World l ts u) = (call k h ;;! uv__run_timers call f) w'.
Proof.
  intros Hw. destruct (heap_min_run others _ Hw) as [E Hm]. cbn [uv__run_timers].
  rewrite (bind_Ret _ _ _ _ _ E). cbn [w_loop w_timers] in *.
  destruct (h_min (timer_heap l)) as [h|].
  2: { left. split; [done|]. apply set_eq. intros x. rewrite elem_of_due. split; [|done].
       intros (t & Ht & Ha & _). assert (Hx : x ∈ active_set ts) by (apply elem_of_active; eauto).
       by rewrite Hm in Hx. }
  destruct Hm as (t & Ht & Ha & Hle).
  rewrite (bind_Ret _ _ _ _ _ (get_timer_run l ts u h t Ht)), (bind_Ret get_loop _ _ _ _ eq_refl).
  cbn [w_loop]. destruct (Z.ltb_spec (time l) (t_timeout t)) as [Hlater|Hdue].
  - left. split; [done|]. apply set_eq. intros x. rewrite elem_of_due. split; [|done].
    intros (y & Hy & Hay & Hd). pose proof (less_deadline ts h x t y Ht Hy (Hle x y Hy Hay)). lia.
  - right. destruct (fire_run l ts u h t Hw Ht) as (l1 & l2 & r & E1 & E2 & Hw2 & Hl2).
    destruct (wf_timers _ _ _ Hw h t Ht) as (_ & _ & Hcb). destruct (Hcb Ha) as [[k Hk] _].
    exists h, t, k, l2. split_and!; try done. cbv zeta.
    rewrite (bind_Ret _ _ _ _ _ E1), (bind_Ret _ _ _ _ _ E2).
    erewrite bind_Ret by apply get_timer_run, lookup_insert_eq. by rewrite fired_cb, Hk.
Qed.

(** Callbacks that make no timer due let the loop end, one round per due timer. *)
Lemma run_timers_ends call f (w : world U) :
  (forall k h v, wf others v -> dom (w_timers v) = dom (w_timers w) -> time (w_loop v) = time (w_loop w) ->
    exists v', call k h v = Ret tt v' /\ wf others v' /\ dom (w_timers v') = dom (w_timers w) /\
      time (w_loop v') = time (w_loop w) /\
      (count (is_due (time (w_loop w))) (w_timers v') <= count (is_due (time (w_loop w))) (w_timers v))%nat) ->
  wf others w -> time (w_loop w) < 2 ^ 64 - 1 -> (size (due_set (time (w_loop w)) (w_timers w)) < f)%nat ->
  exists w', uv__run_timers call f w = Ret tt w' /\ wf others w' /\
    time (w_loop w') = time (w_loop w) /\ due_set (time (w_loop w)) (w_timers w') = ∅.
Proof.
  intros Hcall Hw Hnow. rewrite due_count. remember (time (w_loop w)) as now eqn:En.
  remember (dom (w_timers w)) as D eqn:ED. symmetry in En, ED. revert w Hw En ED.
  induction f as [|f IH]; intros w Hw En ED Hf; [lia|]. destruct w as [l ts u]. cbn in En, ED, Hf.
  destruct (run_timers_round call f l ts u Hw)
    as [[E Hd]|(h & t & k & l' & Ht & Ha & Hto & Hk & _ & Hw' & Hl' & E)].
  - eexists. split; [exact E|]. cbn. by rewrite <- En.
  - cbv zeta in Hw'. pose proof (wf_timers _ _ _ Hw h t Ht) as Hok. cbn in Hok.
    set (t' := fired (time l) (timer_counter l) t) in *.
    assert (Hdec : (count (is_due now) (<[h := t']> ts) < count (is_due now) ts)%nat).
    { pose proof (count_insert (is_due now) ts h t t' Ht) as Hc.
      assert (E1 : is_due now t = true) by (unfold is_due; rewrite Ha; bool_true (t_timeout t <=? now); done).
      assert (E2 : is_due now t' = false) by (unfold t'; rewrite En; apply fired_not_due; [done|lia]).
      rewrite E1, E2 in Hc. cbn [Nat.b2n] in Hc. lia. }
    assert (Et' : time l' = now) by (destruct Hl' as [-> _]; done).
    destruct (Hcall k h _ Hw') as (v & Ev & Hwv & Hdv & Htv & Hcv); cbn [w_timers w_loop].
    { by rewrite dom_insert_lookup_L by eauto. }
    { done. }
    cbn [w_timers] in Hcv.
    destruct (IH v Hwv Htv Hdv ltac:(lia)) as (w' & E' & Hww & Htw & Hdw).
    exists w'. rewrite E, (bind_Ret _ _ _ _ _ Ev). by split_and!.
Qed.
End rounds.

(** ** Callbacks that make calls on timers *)

(** A callback, from the state of the program, decides on calls and a new state. *)
Definition cb_call {U} (prog : nat -> nat -> U -> list tcall * U) (k h : nat) : M (world U) unit :=
  fun w => let (cs, u) := prog k h (w_user w) in run_tcalls cs (World (w_loop w) (w_timers w) u).

(** A call on one of the handles [D] that starts no timer with a zero timeout. *)
Definition tcall_safe (D : gset nat) (c : tcall) : Prop :=
  tcall_handle c ∈ D /\
  match c with
  | TInit _ => False
  | TStart _ _ timeout repeat => 1 <= timeout < 2 ^ 64 /\ in_u64 repeat
  | TSetRepeat _ repeat => in_u64 repeat
  | _ => True
  end.

Lemma safe_not_due now n p D c t :
  tcall_safe D c -> timer_ok t -> now < 2 ^ 64 - 1 ->
  is_due now (tcall_timer now n p c t) = true -> is_due now t = true.
Proof.
  intros [_ Hs] Hok Hn. destruct c; cbn [tcall_timer] in *; try done.
  - destruct cb; [|done]. destruct (uv__is_closing t); [done|].
    rewrite started_not_due by lia. done.
  - by rewrite stopped_not_due.
  - by apply again_due.
  - destruct (uv__has_ref t); [done|]. unfold is_due. flags. by rewrite orb_false_r.
  - destruct (uv__has_ref t); [|done]. unfold is_due. flags. by rewrite andb_true_r.
  - destruct (uv__is_closing t); [done|]. unfold closed, is_due.
    pose proof (stopped_inactive (set_close_cb cb (add_flag UV_HANDLE_CLOSING t))) as E.
    unfold uv__is_active, has_flag in *. cbn [set_next_closing t_flags]. by rewrite E.
Qed.

Lemma safe_call_run {U} others (w : world U) c :
  wf others w -> time (w_loop w) < 2 ^ 64 - 1 -> tcall_safe (dom (w_timers w)) c ->
  exists w', run_tcall c w = Ret tt w' /\ wf others w' /\ dom (w_timers w') = dom (w_timers w) /\
    time (w_loop w') = time (w_loop w) /\
    (count (is_due (time (w_loop w))) (w_timers w') <= count (is_due (time (w_loop w))) (w_timers w))%nat.
Proof.
  intros Hw Hn Hs. pose proof Hs as [Hd Hok]. apply elem_of_dom in Hd as [t Ht].
  destruct (tcall_run others w c Hw) as (w' & E & Hw' & Hl & _ & Ha).
  { exists t. split; [done|]. destruct c; cbn [tcall_ok]; try done. unfold in_u64. destruct Hok. split; [lia|done]. }
  exists w'. split; [done|]. split; [done|].
  assert (Et : w_timers w' = <[tcall_handle c := tcall_timer (time (w_loop w)) (timer_counter (w_loop w))
                                (closing_handles (w_loop w)) c t]> (w_timers w)).
  { apply (f_equal a_timers) in Ha. cbn in Ha. by rewrite (lookup_total_correct _ _ _ Ht) in Ha. }
  rewrite Et. split_and!; [by rewrite dom_insert_lookup_L by eauto|apply Hl|].
  pose proof (count_insert (is_due (time (w_loop w))) _ _ t (tcall_timer (time (w_loop w))
    (timer_counter (w_loop w)) (closing_handles (w_loop w)) c t) Ht) as Hc.
  assert (Hle : (Nat.b2n (is_due (time (w_loop w)) (tcall_timer (time (w_loop w)) (timer_counter (w_loop w))
      (closing_handles (w_loop w)) c t)) <= Nat.b2n (is_due (time (w_loop w)) t))%nat).
  { destruct (is_due _ (tcall_timer _ _ _ c t)) eqn:E1; [|cbn; lia].
    rewrite (safe_not_due _ _ _ _ c t Hs (wf_timers _ _ _ Hw _ _ Ht) Hn E1). done. }
  lia.
Qed.

Lemma safe_calls_run {U} others cs (w : world U) :
  wf others w -> time (w_loop w) < 2 ^ 64 - 1 -> Forall (tcall_safe (dom (w_timers w))) cs ->
  exists w', run_tcalls cs w = Ret tt w' /\ wf others w' /\ dom (w_timers w') = dom (w_timers w) /\
    time (w_loop w') = time (w_loop w) /\
    (count (is_due (time (w_loop w))) (w_timers w') <= count (is_due (time (w_loop w))) (w_timers w))%nat.
Proof.
  revert w. induction cs as [|c cs IH]; intros w Hw Hn Hs.
  { exists w. by split_and!. }
  apply Forall_cons in Hs as [Hc Hs]. destruct (safe_call_run others w c Hw Hn Hc) as (w1 & E1 & Hw1 & Hd1 & Ht1 & Hc1).
  destruct (IH w1 Hw1) as (w2 & E2 & Hw2 & Hd2 & Ht2 & Hc2); [by rewrite Ht1|by rewrite Hd1|].
  exists w2. cbn [run_tcalls]. rewrite (bind_Ret _ _ _ _ _ E1).
  rewrite Ht1 in Hc2. split_and!; [done|done|congruence|congruence|lia].
Qed.

(** C15: the loop that runs the due timers ends, whatever calls on timers the callbacks
    make, as long as none starts a timer with a zero timeout (a callback that does can
    keep the loop running for ever) and the clock is short of its last millisecond:
    one round for every timer that is due at the start is enough, a timer that repeats
    is not due again in the same run, and no timer is due when it ends. *)
Theorem run_timers_terminates {U} others (prog : nat -> nat -> U -> list tcall * U) f (w : world U) :
  wf others w -> time (w_loop w) < 2 ^ 64 - 1 ->
  (forall k h u, Forall (tcall_safe (dom (w_timers w))) (prog k h u).1) ->
  (size (due_set (time (w_loop w)) (w_timers w)) < f)%nat ->
  exists w', uv__run_timers (cb_call prog) f w = Ret tt w' /\ wf others w' /\
    time (w_loop w') = time (w_loop w) /\ due_set (time (w_loop w)) (w_timers w') = ∅.
Proof.
  intros Hw Hn Hp Hf. apply run_timers_ends; try done. intros k h [l ts u] Hv Hd Ht. cbn in Hd, Ht.
  unfold cb_call. cbn [w_user w_loop w_timers]. specialize (Hp k h u).
  destruct (prog k h u) as [cs u']. cbn [fst] in Hp. rewrite <- Hd in Hp. rewrite <- Ht in Hn |- *.
  destruct (safe_calls_run others cs (World l ts u') (wf_user _ _ _ _ _ Hv) Hn Hp)
    as (v' & E & Hv' & Hd' & Ht' & Hc').
  cbn [w_timers w_loop] in Hd', Ht', Hc'. exists v'. split_and!; [done|done|congruence|done|done].
Qed.

(** ** The order in which the timers fire *)

(** The deadline of [x] is earlier, or it is the same and [x] was started earlier. *)
Definition not_later (ts : gmap nat uv_timer_t) (x y : nat) : Prop :=
  t_timeout (ts !!! x) < t_timeout (ts !!! y) \/
  t_timeout (ts !!! x) = t_timeout (ts !!! y) /\ t_start_id (ts !!! x) <= t_start_id (ts !!! y).

Lemma not_later_less ts x y : timer_less_than ts y x = false <-> not_later ts x y.
Proof. unfold timer_less_than, not_later. repeat case_bool; split; intros; try done; lia. Qed.

(** [sched] lists the due timers by deadline, those of one deadline by their starts. *)
Definition schedule (now : Z) (ts : gmap nat uv_timer_t) (sched : list nat) : Prop :=
  NoDup sched /\ list_to_set sched = due_set now ts /\
  StronglySorted (not_later ts) sched.
Definition cb_of (ts : gmap nat uv_timer_t) (h : nat) : nat := default 0%nat (t_cb (ts !!! h)).

Lemma StronglySorted_weaken {A} (R R' : A -> A -> Prop) l :
  (forall x y, x ∈ l -> y ∈ l -> R x y -> R' x y) -> StronglySorted R l -> StronglySorted R' l.
Proof.
  intros H Hl. induction Hl as [|x l Hl IH Hx]; [constructor|]. constructor.
  - apply IH. intros y z Hy Hz. by apply H; apply list_elem_of_further.
  - rewrite Forall_forall in *. intros y Hy.
    apply H; [apply list_elem_of_here|by apply list_elem_of_further|by apply Hx].
Qed.

Section order.
Context {U : Type} (others : Z) (act : nat -> nat -> U -> U).

Definition quiet_call (k h : nat) : M (world U) unit :=
  fun w => Ret tt (World (w_loop w) (w_timers w) (act k h (w_user w))).

(** The schedule of a state in which the first timer has fired. *)
Lemma schedule_cons now ts h t t' sched :
  ts !! h = Some t -> is_due now t = true -> is_due now t' = false ->
  (forall x y, ts !! x = Some y -> uv__is_active y = true -> timer_less_than ts x h = false) ->
  schedule now (<[h := t']> ts) sched -> schedule now ts (h :: sched).
Proof.
  intros Ht Hd Hd' Hle (Hnd & Hset & Hsort).
  assert (Hin : forall x, x ∈ sched <-> x <> h /\ x ∈ due_set now ts).
  { intros x. rewrite <- (elem_of_list_to_set (C := gset nat)), Hset, !elem_of_due.
    destruct (decide (x = h)) as [->|Hne].
    - rewrite lookup_insert_eq. split; [|by intros []]. intros (y & [= <-] & Ha & Hto).
      unfold is_due in Hd'. rewrite Ha in Hd'. apply Z.leb_gt in Hd'. lia.
    - rewrite lookup_insert_ne by done. tauto. }
  apply andb_true_iff in Hd as Hdt. destruct Hdt as [Hda Hdt%Z.leb_le].
  assert (Hdue : h ∈ due_set now ts) by (apply elem_of_due; eauto).
  split_and!.
  - apply NoDup_cons. split; [|done]. by intros [? _]%Hin.
  - apply set_eq. intros x. rewrite elem_of_list_to_set, elem_of_cons, Hin.
    destruct (decide (x = h)) as [->|Hne]; [tauto|]. tauto.
  - apply SSorted_cons.
    + refine (StronglySorted_weaken _ _ _ _ Hsort). intros x y Hx Hy.
      apply Hin in Hx as [Hx _]. apply Hin in Hy as [Hy _]. unfold not_later.
      by rewrite !lookup_total_insert_ne by done.
    + apply Forall_forall. intros x [_ (y & Hy & Hay & _)%elem_of_due]%Hin. apply not_later_less. by apply (Hle x y).
Qed.

Lemma cb_of_insert ts h t t' x : ts !! h = Some t -> t_cb t' = t_cb t -> cb_of (<[h := t']> ts) x = cb_of ts x.
Proof.
  intros Ht E. unfold cb_of. destruct (decide (x = h)) as [->|Hne].
  - by rewrite lookup_total_insert_eq, (lookup_total_correct _ _ _ Ht), E.
  - by rewrite lookup_total_insert_ne.
Qed.

(** What a run does to the timers: the due ones have fired. *)
Definition all_fired (now : Z) (ts ts' : gmap nat uv_timer_t) : Prop :=
  forall h t, ts !! h = Some t ->
    if is_due now t then exists n, ts' !! h = Some (fired now n t) else ts' !! h = Some t.

Lemma quiet_run f (l : uv_loop_t) ts (u : U) :
  wf others (World l ts u) -> time l < 2 ^ 64 - 1 -> (size (due_set (time l) ts) < f)%nat ->
  exists sched l' ts', uv__run_timers quiet_call f (World l ts u) =
      Ret tt (World l' ts' (foldl (fun u h => act (cb_of ts h) h u) u sched)) /\
    schedule (time l) ts sched /\ all_fired (time l) ts ts'.
Proof.
  revert l ts u. induction f as [|f IH]; intros l ts u Hw Hn Hf; [lia|].
  destruct (run_timers_round others quiet_call f l ts u Hw)
    as [[E Hd]|(h & t & k & l' & Ht & Ha & Hto & Hk & Hle & Hw' & [Et' _] & E)].
  - exists [], l, ts. split; [exact E|]. split.
    + split_and!; [constructor|by rewrite Hd|constructor].
    + intros h t Ht. destruct (is_due (time l) t) eqn:Edue; [|done]. exfalso.
      apply andb_true_iff in Edue as [Ha Hto%Z.leb_le].
      assert (Hx : h ∈ due_set (time l) ts) by (apply elem_of_due; eauto). by rewrite Hd in Hx.
  - cbv zeta in Hw'. set (t' := fired (time l) (timer_counter l) t) in *.
    assert (Hdue : is_due (time l) t = true) by (unfold is_due; rewrite Ha; bool_true (t_timeout t <=? time l); done).
    assert (Hdue' : is_due (time l) t' = false) by (apply fired_not_due; [by apply (wf_timers _ _ _ Hw h)|done]).
    assert (Hcount := count_insert (is_due (time l)) ts h t t' Ht).
    rewrite Hdue, Hdue' in Hcount. cbn [Nat.b2n] in Hcount. rewrite due_count in Hf.
    destruct (IH l' (<[h := t']> ts) (act k h u)) as (sched & l2 & ts2 & E2 & Hs & Hfired).
    { by apply (wf_user others l' _ u). }
    { by rewrite Et'. }
    { rewrite due_count, Et'. lia. }
    rewrite Et' in Hs, Hfired. exists (h :: sched), l2, ts2. split_and!.
    + rewrite E. unfold quiet_call at 1. erewrite bind_Ret by reflexivity. cbn [w_loop w_timers w_user foldl].
      rewrite E2. do 2 f_equal.
      replace (cb_of ts h) with k by (unfold cb_of; by rewrite (lookup_total_correct _ _ _ Ht), Hk).
      generalize (act k h u). clear -Ht. induction sched as [|x sched IHs]; intros v; [done|]. cbn [foldl].
      rewrite (cb_of_insert ts h t t' x Ht) by apply fired_cb. apply IHs.
    + by apply (schedule_cons _ ts h t t').
    + intros x tx Hx. destruct (decide (x = h)) as [->|Hne].
      * assert (tx = t) as -> by congruence. rewrite Hdue. exists (timer_counter l).
        specialize (Hfired h t' (lookup_insert_eq _ _ _)). by rewrite Hdue' in Hfired.
      * apply (Hfired x tx). by rewrite lookup_insert_ne.
Qed.

(** C17: callbacks that leave the timers alone, on a loop whose clock is below its
    maximum, are run once for every timer that is
    due and for no other, by deadline, those of one deadline in the order in which
    they were started; the timers that were not due are untouched, a due one without
    repeat interval is stopped, and one with an interval has the deadline
    min(now + repeat, 2^64 - 1). *)
Theorem run_timers_in_order f (w : world U) :
  wf others w -> time (w_loop w) < 2 ^ 64 - 1 ->
  (size (due_set (time (w_loop w)) (w_timers w)) < f)%nat ->
  exists sched w', uv__run_timers quiet_call f w = Ret tt w' /\
    schedule (time (w_loop w)) (w_timers w) sched /\
    w_user w' = foldl (fun u h => act (cb_of (w_timers w) h) h u) (w_user w) sched /\
    all_fired (time (w_loop w)) (w_timers w) (w_timers w').
Proof.
  intros Hw Hn Hf. destruct w as [l ts u]. destruct (quiet_run f l ts u Hw Hn Hf) as (sched & l' & ts' & E & Hs & Ha).
  exists sched. eexists. split; [exact E|]. by split_and!.
Qed.
End order.

(** ** A loop with four timers *)

Lemma update_time_wf {U} others (w : world U) hrtime :
  wf others w -> in_u64 hrtime ->
  exists w', uv__update_time hrtime w = Ret tt w' /\ wf others w' /\
    w_timers w' = w_timers w /\ time (w_loop w') = hrtime / 1000000.
Proof.
  intros [H1 H2 H3 H4 H5] Hh. eexists. split; [reflexivity|]. split_and!; [|done|done].
  split; try done. cbn. unfold in_u64 in *. Z.to_euclidean_division_equations. lia.
Qed.

Definition empty_world : world (list nat) :=
  World (Loop (Heap None 0 (set_to_map (fun n => (n, null_node)) ({[1; 2; 3; 4]}%nat : gset nat)))
           100 7 3 0 0 [] [] [] None)
    (set_to_map (fun n => (n, Timer None 0 0 0 0 None None)) ({[1; 2; 3; 4]}%nat : gset nat)) [].
Definition sample_calls : list tcall :=
  [TInit 1; TInit 2; TInit 3; TInit 4;
   TStart 1 (Some 11%nat) 50 0; TStart 2 (Some 12%nat) 20 30; TStart 3 (Some 13%nat) 20 0;
   TStart 4 (Some 14%nat) (2 ^ 64 - 1) 0; TUnref 3].
(** The same loop 60 milliseconds later. *)
Definition sample_world : world (list nat) := Eval vm_compute in
  match (run_tcalls sample_calls ;;! uv__update_time 160999999) empty_world with
  | Ret _ w => w | _ => empty_world end.

Lemma empty_wf : wf 3 empty_world.
Proof.
  split.
  - exists []. split_and!; [|by intros [|q] ??|vm_compute; reflexivity].
    split_and!; [constructor|done|done|]. split; [intros [|s] ?; done|]. vm_compute. reflexivity.
  - done.
  - apply map_Forall_lookup. intros h t. cbn [w_timers empty_world]. rewrite lookup_set_to_map by naive_solver.
    intros (? & _ & [= _ <-]). done.
  - done.
  - vm_compute. reflexivity.
Qed.

Lemma sample_calls_ok : tcalls_ok (time (w_loop empty_world)) sample_calls (abs_of empty_world).
Proof.
  unfold sample_calls. repeat match goal with |- tcalls_ok _ (_ :: _) _ => split; [eexists; split; [vm_compute; reflexivity|] | ] end.
  all: try exact I. all: try (vm_compute; reflexivity).
  all: split; split; vm_compute; first [reflexivity|discriminate].
Qed.

Lemma sample_hrtime : in_u64 160999999.
Proof. done. Qed.

Lemma sample_wf : wf 3 sample_world.
Proof.
  destruct (tcalls_run 3 sample_calls empty_world empty_wf sample_calls_ok) as (w & E & Hw & _).
  destruct (update_time_wf 3 w 160999999 Hw sample_hrtime) as (w' & E' & Hw' & _).
  assert (Es : (run_tcalls sample_calls ;;! uv__update_time 160999999) empty_world = Ret tt sample_world)
    by (vm_compute; reflexivity).
  rewrite (bind_Ret _ _ _ _ _ E), E' in Es. injection Es as <-. exact Hw'.
Qed.

Lemma timer_calls_refine_witness :
  exists w', run_tcalls sample_calls empty_world = Ret tt w' /\ wf 3 w' /\
    w_user w' = w_user empty_world /\ abs_of w' = abs_calls (time (w_loop empty_world)) sample_calls (abs_of empty_world).
Proof. exact (timer_calls_refine 3 sample_calls empty_world empty_wf sample_calls_ok). Defined.

Lemma next_timeout_earliest_witness :
  exists n, uv__next_timeout sample_world = Ret n sample_world /\
    (n = -1 /\ active_set (w_timers sample_world) = ∅ \/
     exists h t, w_timers sample_world !! h = Some t /\ uv__is_active t = true /\
       (forall x y, w_timers sample_world !! x = Some y -> uv__is_active y = true -> t_timeout t <= t_timeout y) /\
       n = Z.min INT_MAX (Z.max 0 (t_timeout t - time (w_loop sample_world)))).
Proof. exact (next_timeout_earliest 3 sample_world sample_wf). Defined.

(** Timer 2 repeats; the callback of timer 3 closes timer 1, which is due, and the one
    of timer 2 starts it again. *)
Definition sample_prog (k h : nat) (u : list nat) : list tcall * list nat :=
  (match h with
   | 2%nat => [TSetRepeat 2 10; TStart 1 (Some 11%nat) 5 0]
   | 3%nat => [TClose 1 None; TRef 4]
   | _ => [TAgain 4]
   end, u ++ [h]).

Lemma run_timers_terminates_witness :
  exists w', uv__run_timers (cb_call sample_prog) 4 sample_world = Ret tt w' /\ wf 3 w' /\
    time (w_loop w') = 160 /\ due_set 160 (w_timers w') = ∅.
Proof.
  apply (run_timers_terminates 3 sample_prog 4 sample_world sample_wf).
  - done.
  - intros k h u. unfold sample_prog. cbn [fst].
    destruct h as [|[|[|[|h]]]]; repeat constructor; try (apply elem_of_dom; vm_compute; eauto); vm_compute; done.
  - apply Nat.ltb_lt. vm_compute. reflexivity.
Defined.

Lemma run_timers_in_order_witness :
  exists sched w', uv__run_timers (quiet_call (fun k h u => u ++ [h])) 4 sample_world = Ret tt w' /\
    schedule 160 (w_timers sample_world) sched /\
    w_user w' = foldl (fun u h => u ++ [h]) [] sched /\
    all_fired 160 (w_timers sample_world) (w_timers w').
Proof.
  apply (run_timers_in_order 3 (fun k h u => u ++ [h]) 4 sample_world sample_wf).
  - done.
  - apply Nat.ltb_lt. vm_compute. reflexivity.
Defined.

Lemma sample_order : exists w',
  uv__run_timers (quiet_call (fun k h u => u ++ [h])) 4 sample_world = Ret tt w' /\
  w_user w' = [2; 3; 1]%nat.
Proof. eexists. split; vm_compute; reflexivity. Qed.
