(* ===== verification/UvClose.v ===== *)
(** * Closing libuv's timers

    [uv_close] pushes a handle on the loop's list of closing handles, linked through
    the handles; at the end of an iteration the loop takes the whole list and finishes
    every handle on it. *)
From S2P Require Import Prelude UvHeap UvHeapSpec UvTimer UvTimerInv UvTimerCalls UvTimerSpec.

(** [hs] are the handles linked from [p], closing and not yet closed. *)
Fixpoint chain (ts : gmap nat uv_timer_t) (p : option nat) (hs : list nat) : Prop :=
  match hs with
  | [] => p = None
  | h :: hs =>
      p = Some h /\ exists t, ts !! h = Some t /\
        has_flag UV_HANDLE_CLOSING t = true /\ has_flag UV_HANDLE_CLOSED t = false /\
        chain ts (t_next_closing t) hs
  end.

(** A closed handle: the loop no longer waits for it. *)
Definition finished (t : uv_timer_t) : uv_timer_t :=
  let t := add_flag UV_HANDLE_CLOSED t in
  if uv__has_ref t then del_flag UV_HANDLE_REF t else t.

Lemma chain_insert ts p hs h t : h ∉ hs -> chain ts p hs -> chain (<[h := t]> ts) p hs.
Proof.
  revert p. induction hs as [|x hs IH]; intros p Hx; [done|]. apply not_elem_of_cons in Hx as [Hne Hx].
  intros (-> & y & Hy & H1 & H2 & Hc). split; [done|]. exists y. rewrite lookup_insert_ne by congruence.
  split_and!; try done. by apply IH.
Qed.

Lemma chain_length ts p hs : NoDup hs -> chain ts p hs -> (length hs <= size ts)%nat.
Proof.
  intros Hnd Hc. rewrite <- (size_list_to_set (C := gset nat) hs Hnd), <- size_dom. apply subseteq_size.
  intros x Hx%elem_of_list_to_set. revert p Hc. clear Hnd. induction hs as [|h hs IH]; intros p.
  - by apply not_elem_of_nil in Hx.
  - intros (_ & t & Ht & _ & _ & Hc). apply elem_of_cons in Hx as [->|Hx]; [apply elem_of_dom; eauto|].
    by apply (IH Hx (t_next_closing t)).
Qed.

Lemma finished_active t : uv__is_active (finished t) = uv__is_active t.
Proof.
  unfold finished. cbv zeta. destruct (uv__has_ref _); do 2 flags; by rewrite ?andb_true_r, orb_false_r.
Qed.

Lemma finished_closed t : has_flag UV_HANDLE_CLOSED (finished t) = true.
Proof.
  unfold finished. cbv zeta. destruct (uv__has_ref _); rewrite closed_flag_bit;
    rewrite ?(del_flag_bits 3) by lia; rewrite (add_flag_bits 1) by lia; by rewrite orb_true_r.
Qed.

Section close.
Context {U : Type} (others : Z) (act : nat -> nat -> U -> U).

(** A close callback that leaves the loop alone, and its absence. *)
Definition close_call (k h : nat) : M (world U) unit :=
  fun w => Ret tt (World (w_loop w) (w_timers w) (act k h (w_user w))).
Definition close_act (t : uv_timer_t) (h : nat) (u : U) : U :=
  match t_close_cb t with Some k => act k h u | None => u end.

Lemma finish_close_run (l : uv_loop_t) ts (u : U) h t :
  wf others (World l ts u) -> ts !! h = Some t ->
  has_flag UV_HANDLE_CLOSING t = true -> has_flag UV_HANDLE_CLOSED t = false ->
  exists l', uv__finish_close close_call h (World l ts u) =
      Ret tt (World l' (<[h := finished t]> ts) (close_act t h u)) /\
    wf others (World l' (<[h := finished t]> ts) (close_act t h u)) /\
    l' = set_queue (list_difference (handle_queue l) [h]) l.
Proof.
  intros Hw Ht Hc Hnc. eexists. split_and!; [| |reflexivity].
  - unfold uv__finish_close. rewrite (bind_Ret _ _ _ _ _ (get_timer_run _ _ _ _ _ Ht)), Hc, Hnc.
    cbn [negb assertm]. rewrite !(bind_Ret (ret tt) _ _ _ _ eq_refl).
    rewrite (bind_Ret _ _ _ _ _ (upd_timer_run _ _ _ _ _ _ Ht)).
    set (t1 := add_flag UV_HANDLE_CLOSED t). assert (Ht1 := lookup_insert_eq ts h t1).
    assert (E : uv__handle_unref h (World l (<[h := t1]> ts) u) =
                Ret tt (World l (<[h := finished t]> ts) u)).
    { unfold uv__handle_unref, finished. fold t1. rewrite (bind_Ret _ _ _ _ _ (get_timer_run _ _ _ _ _ Ht1)).
      destruct (uv__has_ref t1); cbn [negb]; [|done].
      rewrite (bind_Ret _ _ _ _ _ (upd_timer_run _ _ _ _ _ _ Ht1)), insert_insert_eq.
      erewrite bind_Ret by apply get_timer_run, lookup_insert_eq.
      replace (has_flag UV_HANDLE_CLOSING (del_flag UV_HANDLE_REF t1)) with true; [done|].
      rewrite closing_flag_bit, (del_flag_bits 3) by lia. unfold t1. rewrite (add_flag_bits 1) by lia.
      rewrite <- closing_flag_bit, Hc. done. }
    rewrite (bind_Ret _ _ _ _ _ E). unfold upd_loop. rewrite (bind_Ret (modm _) _ _ _ _ eq_refl).
    cbn [w_loop w_timers w_user]. erewrite bind_Ret by apply get_timer_run, lookup_insert_eq.
    replace (t_close_cb (finished t)) with (t_close_cb t)
      by (unfold finished; cbv zeta; by destruct (uv__has_ref _)).
    unfold close_act. by destruct (t_close_cb t).
  - apply (wf_user others _ _ u).
    assert (Ha : uv__is_active t = false).
    { destruct (wf_timers _ _ _ Hw h t Ht) as (_ & _ & H). destruct (uv__is_active t); [|done].
      destruct (H eq_refl) as [_ Hcl]. rewrite is_closing_bits, <- closing_flag_bit, Hc in Hcl. done. }
    apply (wf_update_uncounted others _ l _ ts u h t); try done; [|by apply finished_active|by right|by rewrite Ha].
    destruct (wf_timers _ _ _ Hw h t Ht) as (H1 & H2 & _). split_and!.
    + unfold finished. cbv zeta. by destruct (uv__has_ref _).
    + unfold finished. cbv zeta. by destruct (uv__has_ref _).
    + by rewrite finished_active, Ha.
Qed.

Lemma close_loop_run hs f p (l : uv_loop_t) ts (u : U) :
  wf others (World l ts u) -> NoDup hs -> chain ts p hs -> (length hs <= f)%nat ->
  exists l', close_loop close_call f p (World l ts u) =
      Ret tt (World l' (foldl (fun m h => <[h := finished (m !!! h)]> m) ts hs)
                (foldl (fun u h => close_act (ts !!! h) h u) u hs)) /\
    wf others (World l' (foldl (fun m h => <[h := finished (m !!! h)]> m) ts hs) u) /\
    closing_handles l' = closing_handles l /\ same_loop l l' /\
    (forall x, x ∈ handle_queue l' <-> x ∈ handle_queue l /\ x ∉ hs).
Proof.
  revert f p l ts u. induction hs as [|h hs IH]; intros f p l ts u Hw Hnd Hc Hf.
  { cbn in Hc. subst p. exists l. split; [by destruct f|]. split_and!; try done.
    intros x. split; [|tauto]. intros Hx. split; [done|]. apply not_elem_of_nil. }
  destruct Hc as (-> & t & Ht & H1 & H2 & Hc). apply NoDup_cons in Hnd as [Hh Hnd].
  destruct f as [|f]; [cbn in Hf; lia|]. cbn [close_loop foldl].
  rewrite (bind_Ret _ _ _ _ _ (get_timer_run _ _ _ _ _ Ht)).
  destruct (finish_close_run l ts u h t Hw Ht H1 H2) as (l1 & E1 & Hw1 & Hl1).
  rewrite (bind_Ret _ _ _ _ _ E1), (lookup_total_correct _ _ _ Ht).
  destruct (IH f (t_next_closing t) l1 _ _ Hw1 Hnd (chain_insert _ _ _ _ _ Hh Hc) ltac:(cbn in Hf; lia))
    as (l2 & E2 & Hw2 & Hc2 & Hs2 & Hq2).
  exists l2. split_and!.
  - rewrite E2. do 2 f_equal. generalize (close_act t h u). clear -Hh. induction hs as [|x hs IHs]; intros v; [done|].
    apply not_elem_of_cons in Hh as [Hne Hh]. cbn [foldl]. rewrite lookup_total_insert_ne by congruence.
    by apply IHs.
  - by apply (wf_user others _ _ _ u) in Hw2.
  - by rewrite Hc2, Hl1.
  - rewrite Hl1 in Hs2. exact Hs2.
  - intros x. rewrite Hq2, Hl1. cbn [handle_queue set_queue].
    rewrite list_elem_of_difference, list_elem_of_singleton, not_elem_of_cons. tauto.
Qed.

Lemma foldl_finished hs (ts : gmap nat uv_timer_t) h t :
  NoDup hs -> ts !! h = Some t ->
  foldl (fun m h => <[h := finished (m !!! h)]> m) ts hs !! h =
  Some (if bool_decide (h ∈ hs) then finished t else t).
Proof.
  revert ts t. induction hs as [|x hs IH]; intros ts t Hnd Ht; [done|].
  apply NoDup_cons in Hnd as [Hx Hnd]. cbn [foldl]. destruct (decide (h = x)) as [<-|Hne].
  - rewrite (IH _ (finished t) Hnd) by (rewrite (lookup_total_correct _ _ _ Ht); apply lookup_insert_eq).
    rewrite bool_decide_eq_false_2, bool_decide_eq_true_2 by (done || apply list_elem_of_here). done.
  - rewrite (IH _ t Hnd) by (by rewrite lookup_insert_ne).
    rewrite (bool_decide_ext (h ∈ x :: hs) (h ∈ hs)); [done|]. rewrite elem_of_cons. tauto.
Qed.


End close.

(** ** Closing puts a handle in front of the list *)

Lemma close_pushes (ts : gmap nat uv_timer_t) p hs h t cb :
  ts !! h = Some t -> uv__is_closing t = false -> NoDup hs -> chain ts p hs ->
  NoDup (h :: hs) /\ chain (<[h := closed p cb t]> ts) (Some h) (h :: hs).
Proof.
  intros Ht Hcl Hnd Hc.
  assert (Hh : h ∉ hs).
  { intros Hh. clear Hnd. revert p Hc. induction hs as [|x hs IH]; intros p; [by apply not_elem_of_nil in Hh|].
    intros (_ & y & Hy & H1 & _ & Hc). apply elem_of_cons in Hh as [->|Hh]; [|by apply (IH Hh (t_next_closing y))].
    assert (y = t) as -> by congruence. rewrite (closing_not_flag t Hcl) in H1. discriminate H1. }
  split; [by apply NoDup_cons|]. split; [done|]. eexists. split; [apply lookup_insert_eq|].
  split_and!; [| |by apply chain_insert].
  all: unfold closed; set (t1 := set_close_cb cb (add_flag UV_HANDLE_CLOSING t)).
  - assert (E : has_flag UV_HANDLE_CLOSING (stopped t1) = true); [|exact E].
    rewrite is_closing_bits in Hcl. unfold stopped. destruct (uv__is_active t1); rewrite closing_flag_bit;
      rewrite ?(del_flag_bits 2) by lia; unfold t1; cbn [set_close_cb t_flags];
      rewrite (add_flag_bits 0) by lia; by rewrite orb_true_r.
  - assert (E : has_flag UV_HANDLE_CLOSED (stopped t1) = false); [|exact E].
    rewrite is_closing_bits in Hcl. apply orb_false_iff in Hcl as [_ Hcl].
    unfold stopped. destruct (uv__is_active t1); rewrite closed_flag_bit;
      rewrite ?(del_flag_bits 2) by lia; unfold t1; cbn [set_close_cb t_flags];
      rewrite (add_flag_bits 0) by lia; by rewrite Hcl.
Qed.

(** ** Two timers closed *)

Definition closing_calls : list tcall := [TClose 3 (Some 21%nat); TClose 1 None; TClose 2 (Some 22%nat)].
Definition closing_world : world (list nat) := Eval vm_compute in
  match run_tcalls closing_calls sample_world with Ret _ w => w | _ => sample_world end.

Lemma closing_calls_ok : tcalls_ok (time (w_loop sample_world)) closing_calls (abs_of sample_world).
Proof.
  unfold closing_calls.
  repeat match goal with |- tcalls_ok _ (_ :: _) _ => split; [eexists; split; [vm_compute; reflexivity|] | ] end.
  all: exact I.
Qed.

Lemma closing_wf : wf 3 closing_world.
Proof.
  destruct (tcalls_run 3 closing_calls sample_world sample_wf closing_calls_ok) as (w & E & Hw & _).
  assert (Es : run_tcalls closing_calls sample_world = Ret tt closing_world) by (vm_compute; reflexivity).
  rewrite E in Es. injection Es as <-. exact Hw.
Qed.

Lemma closing_chain : chain (w_timers closing_world) (closing_handles (w_loop closing_world)) [2; 1; 3]%nat.
Proof.
  repeat (split; [vm_compute; reflexivity|]; eexists; split; [vm_compute; reflexivity|];
          split; [reflexivity|]; split; [reflexivity|]).
  reflexivity.
Qed.

