(* ===== verification/UvInet.v ===== *)
(** * libuv: addresses and their text (inet.c, strscpy.c)

    A string is the list of its characters with the terminating NUL in it; a pointer into
    it is the rest of the list, and a read past its end is undefined behaviour.  A buffer
    is an [array]: [None] stands for a byte that was never written, whose use is
    undefined behaviour too.  The constants are those of the iOS headers. *)
From S2P Require Import Prelude Decimal.

Definition array : Type := list (option Z).
Definition undef (n : nat) : array := replicate n None.

Definition AF_INET : Z := 2.
Definition AF_INET6 : Z := 30.
Definition UV_E2BIG : Z := -7.
Definition UV_EINVAL : Z := -22.
Definition UV_ENOSPC : Z := -28.
Definition UV_EAFNOSUPPORT : Z := -47.
Definition SSIZE_MAX : Z := 2 ^ 63 - 1.
Definition UV__INET_ADDRSTRLEN : nat := 16.
Definition UV__INET6_ADDRSTRLEN : nat := 46.
Definition sizeof_in_addr : Z := 4.
Definition sizeof_in6_addr : Z := 16.

Definition chr_colon : Z := 58.
Definition chr_percent : Z := 37.

(** ** Arrays *)

(** [memcpy(a + i, l, zlen l)]. *)
Definition put_all (i : Z) (l : list Z) : M array unit := fun a =>
  match overwrite a i (Some <$> l) with Some a' => Ret tt a' | None => Ub end.
Definition put (i v : Z) : M array unit := put_all i [v].
Definition get (i : Z) : M array Z := fun a : list (option Z) =>
  if i <? 0 then Ub else
  match a !! Z.to_nat i with Some (Some v) => Ret v a | _ => Ub end.

(** A function's local array: [m] works on it, the caller's state stays. *)
Definition with_local {S A} (init : array) (m : M array A) : M S (A * array) := fun s =>
  match m init with
  | Ret x t => Ret (x, t) s
  | Fail _ => Fail s
  | Ub => Ub
  | NoFuel => NoFuel
  end.

(** ** The C library *)

(** The index of a character in a string. *)
Fixpoint strchr (s : list Z) (c : Z) : option Z :=
  match s with
  | [] => None
  | x :: r => if x =? c then Some 0 else Z.succ <$> strchr r c
  end.

(** [%x]: the hexadecimal digits of a number, most significant first. *)
Definition hex_char (d : Z) : Z := if d <? 10 then 48 + d else 87 + d.
Fixpoint hex_digits (fuel : nat) (v : Z) : list Z :=
  match fuel with
  | O => []
  | S k => if v <? 16 then [hex_char v] else hex_digits k (v / 16) ++ [hex_char (v mod 16)]
  end.
(** Eight digits hold every [unsigned int]. *)
Definition hex (v : Z) : list Z := hex_digits 8 v.

(** [%u.%u.%u.%u]. *)
Definition dotted (a b c d : Z) : list Z :=
  decimal a ++ [chr_dot] ++ decimal b ++ [chr_dot] ++ decimal c ++ [chr_dot] ++ decimal d.

(** [snprintf(a, size, ...)] of a format that expands to [text]: what fits of it and a
    NUL; the result is the length of the whole text. *)
Definition snprintf (size : Z) (text : list Z) : M array Z :=
  (if 0 <? size then put_all 0 (ztake (size - 1) text ++ [0]) else ret tt) ;;!
  ret (zlen text).
(** [sprintf(a + i, ...)]. *)
Definition sprintf (i : Z) (text : list Z) : M array Z :=
  put_all i (text ++ [0]) ;;! ret (zlen text).

(** The NUL of the string at the start of an array. *)
Fixpoint nul_at (a : array) : option Z :=
  match a with
  | Some ch :: r => if ch =? 0 then Some 0 else Z.succ <$> nul_at r
  | _ => None
  end.
Definition strlen (i : Z) : M array Z := fun a => of_opt (nul_at (zdrop i a)) a.

(** ** strscpy.c *)

(** The loop from [i] on; [s] is the rest of the source, [d] the place of the
    destination in its array. *)
Fixpoint strscpy_loop (d i n : Z) (s : array) : M array Z :=
  if i <? n then
    match s with
    | Some ch :: s =>
        put (d + i) ch ;;!
        if ch =? 0 then ret (if SSIZE_MAX <? i then UV_E2BIG else i)
        else strscpy_loop d (i + 1) n s
    | _ => ubm
    end
  else if i =? 0 then ret 0
  else put (d + (i - 1)) 0 ;;! ret UV_E2BIG.
Definition uv__strscpy (d : Z) (s : array) (n : Z) : M array Z := strscpy_loop d 0 n s.

(** ** From addresses to text *)

Definition inet_ntop4 (src : list Z) (dst size : Z) : M array Z :=
  let! l4 := of_opt (slice src 0 sizeof_in_addr) in
  match l4 with
  | [a; b; c; d] =>
      let! (l, tmp) := with_local (undef UV__INET_ADDRSTRLEN)
                         (snprintf (Z.of_nat UV__INET_ADDRSTRLEN) (dotted a b c d)) in
      if (l <=? 0) || (size <=? l) then ret UV_ENOSPC
      else uv__strscpy dst tmp size ;;! ret 0
  | _ => ubm
  end.

(** [words[i / 2] |= src[i] << ((1 - (i % 2)) << 3)] for every byte. *)
Fixpoint words_loop (i : nat) (src words : list Z) : list Z :=
  match src with
  | [] => words
  | b :: r =>
      words_loop (S i) r
        (alter (fun w => Z.lor w (u32 (Z.shiftl b (Z.shiftl (1 - Z.of_nat i mod 2) 3)))) (i / 2)%nat words)
  end.

Record run : Type := Run { base : Z; len : Z }.

Definition longer (best cur : run) : run :=
  if (base best =? -1) || (len best <? len cur) then cur else best.
(** The runs of zero words; [cur] is the one that lasts, with base -1 if there is none. *)
Fixpoint runs_loop (i : Z) (words : list Z) (best cur : run) : run * run :=
  match words with
  | [] => (best, cur)
  | w :: r =>
      if w =? 0 then
        runs_loop (i + 1) r best (if base cur =? -1 then Run i 1 else Run (base cur) (len cur + 1))
      else if negb (base cur =? -1) then runs_loop (i + 1) r (longer best cur) (Run (-1) (len cur))
      else runs_loop (i + 1) r best cur
  end.
Definition best_run (words : list Z) : run :=
  let '(best, cur) := runs_loop 0 words (Run (-1) 0) (Run (-1) 0) in
  let best := if negb (base cur =? -1) then longer best cur else best in
  if negb (base best =? -1) && (len best <? 2) then Run (-1) (len best) else best.

Definition in_run (best : run) (i : Z) : bool :=
  negb (base best =? -1) && (base best <=? i) && (i <? base best + len best).
Definition embeds_ipv4 (words : list Z) (best : run) (i : Z) : bool :=
  (i =? 6) && (base best =? 0) &&
  ((len best =? 6) || ((len best =? 7) && negb (nth 7 words 0 =? 1)) ||
   ((len best =? 5) && (nth 5 words 0 =? 0xffff))).

(** The loop over the words from the [i]th on, writing at [tp]: an error of
    [inet_ntop4], or the place after the text. *)
Fixpoint format_loop (src words : list Z) (best : run) (i tp : Z) (rest : list Z) :
    M array (Z + Z) :=
  match rest with
  | [] => ret (inr tp)
  | w :: rest =>
      if in_run best i then
        if i =? base best then put tp chr_colon ;;! format_loop src words best (i + 1) (tp + 1) rest
        else format_loop src words best (i + 1) tp rest
      else
        let! tp := if negb (i =? 0) then put tp chr_colon ;;! ret (tp + 1) else ret tp in
        if embeds_ipv4 words best i then
          let! err := inet_ntop4 (zdrop 12 src) tp (Z.of_nat UV__INET6_ADDRSTRLEN - tp) in
          if negb (err =? 0) then ret (inl err)
          else let! n := strlen tp in ret (inr (tp + n))
        else
          let! n := sprintf tp (hex w) in
          format_loop src words best (i + 1) (tp + n) rest
  end.

(** The text in [tmp]. *)
Definition format6 (src : list Z) (words : list Z) : M array (Z + Z) :=
  let best := best_run words in
  let! r := format_loop src words best 0 0 words in
  match r with
  | inl err => ret (inl err)
  | inr tp =>
      let! tp :=
        if negb (base best =? -1) && (base best + len best =? 8)
        then put tp chr_colon ;;! ret (tp + 1) else ret tp in
      put tp 0 ;;! ret (inr (tp + 1))
  end.

Definition inet_ntop6 (src : list Z) (dst size : Z) : M array Z :=
  let! l16 := of_opt (slice src 0 sizeof_in6_addr) in
  let words := words_loop 0 l16 (replicate 8 0) in
  let! (r, tmp) := with_local (undef UV__INET6_ADDRSTRLEN) (format6 src words) in
  match r with
  | inl err => ret err
  | inr _ =>
      let! n := uv__strscpy dst tmp size in
      if n =? UV_E2BIG then ret UV_ENOSPC else ret 0
  end.

Definition uv_inet_ntop (af : Z) (src : list Z) (size : Z) : M array Z :=
  if af =? AF_INET then inet_ntop4 src 0 size
  else if af =? AF_INET6 then inet_ntop6 src 0 size
  else ret UV_EAFNOSUPPORT.

(** ** From text to addresses *)

Definition digits : list Z := [48; 49; 50; 51; 52; 53; 54; 55; 56; 57].
Definition xdigits_l : list Z := digits ++ [97; 98; 99; 100; 101; 102].
Definition xdigits_u : list Z := digits ++ [65; 66; 67; 68; 69; 70].

(** The loop of [inet_pton4] over [tmp], with [tp] the octet in progress: the error, or 0
    at the end of the string. *)
Fixpoint pton4_loop (src : list Z) (tp : Z) (saw_digit : bool) (octets : Z) : M array Z :=
  match src with
  | [] => ubm
  | ch :: src =>
      if ch =? 0 then ret (if octets <? 4 then UV_EINVAL else 0)
      else match strchr digits ch with
      | Some d =>
          let! t := get tp in
          let nw := u32 (t * 10 + d) in
          if saw_digit && (t =? 0) then ret UV_EINVAL
          else if 255 <? nw then ret UV_EINVAL
          else
            put tp nw ;;!
            if negb saw_digit then
              if 4 <? octets + 1 then ret UV_EINVAL else pton4_loop src tp true (octets + 1)
            else pton4_loop src tp saw_digit octets
      | None =>
          if (ch =? chr_dot) && saw_digit then
            if octets =? 4 then ret UV_EINVAL
            else put (tp + 1) 0 ;;! pton4_loop src (tp + 1) false octets
          else ret UV_EINVAL
      end
  end.

(** [memcpy] of a whole local array to place [i]. *)
Definition copy_local (i : Z) (t : array) : M array unit := fun a =>
  match mapM id t with Some l => put_all i l a | None => Ub end.

Definition inet_pton4 (src : list Z) (dst : Z) : M array Z :=
  let! (err, tmp) := with_local (undef 4) (put 0 0 ;;! pton4_loop src 0 false 0) in
  if negb (err =? 0) then ret err
  else copy_local dst tmp ;;! ret 0.

(** The place in [tmp], the place of the double colon, the digits of the group in progress
    and their value. *)
Record pton6 : Type := Pton6 { p_tp : Z; p_colonp : option Z; p_seen : Z; p_val : Z }.

Definition xdigit (ch : Z) : option Z :=
  match strchr xdigits_l ch with Some d => Some d | None => strchr xdigits_u ch end.
(** The group in progress is stored, or there is no room for it. *)
Definition put_group (s : pton6) : M array (option Z) :=
  if sizeof_in6_addr <? p_tp s + 2 then ret None
  else
    put (p_tp s) (Z.land (u8 (Z.shiftr (p_val s) 8)) 0xff) ;;!
    put (p_tp s + 1) (Z.land (u8 (p_val s)) 0xff) ;;!
    ret (Some (p_tp s + 2)).

(** The loop of [inet_pton6] over [tmp]; [None] is the return of [UV_EINVAL]. *)
Fixpoint pton6_loop (src curtok : list Z) (s : pton6) : M array (option pton6) :=
  match src with
  | [] => ubm
  | ch :: src =>
      if ch =? 0 then ret (Some s)
      else match xdigit ch with
      | Some d =>
          let val := Z.lor (u32 (Z.shiftl (p_val s) 4)) d in
          if 4 <? p_seen s + 1 then ret None
          else pton6_loop src curtok (Pton6 (p_tp s) (p_colonp s) (p_seen s + 1) val)
      | None =>
          if ch =? chr_colon then
            if p_seen s =? 0 then
              match p_colonp s with
              | Some _ => ret None
              | None => pton6_loop src src (Pton6 (p_tp s) (Some (p_tp s)) (p_seen s) (p_val s))
              end
            else
              let! c := of_opt (head src) in
              if c =? 0 then ret None
              else
                let! o := put_group s in
                match o with
                | None => ret None
                | Some tp => pton6_loop src src (Pton6 tp (p_colonp s) 0 0)
                end
          else if (ch =? chr_dot) && (p_tp s + sizeof_in_addr <=? sizeof_in6_addr) then
            let! err := inet_pton4 curtok (p_tp s) in
            if err =? 0
            then ret (Some (Pton6 (p_tp s + sizeof_in_addr) (p_colonp s) 0 (p_val s)))
            else ret None
          else ret None
      end
  end.

(** [endp[-i] = colonp[n - i]; colonp[n - i] = 0], [fuel] times from [i] on. *)
Fixpoint shift_loop (fuel : nat) (i colonp n : Z) : M array unit :=
  match fuel with
  | O => ret tt
  | S k =>
      let! x := get (colonp + (n - i)) in
      put (sizeof_in6_addr - i) x ;;!
      put (colonp + (n - i)) 0 ;;!
      shift_loop k (i + 1) colonp n
  end.

(** After the loop: the last group, the zeros of the double colon, the length. *)
Definition finish6 (s : pton6) : M array Z :=
  let! o := if negb (p_seen s =? 0) then put_group s else ret (Some (p_tp s)) in
  match o with
  | None => ret UV_EINVAL
  | Some tp =>
      let! o :=
        match p_colonp s with
        | Some colonp =>
            if tp =? sizeof_in6_addr then ret None
            else shift_loop (Z.to_nat (tp - colonp)) 1 colonp (tp - colonp) ;;!
                 ret (Some sizeof_in6_addr)
        | None => ret (Some tp)
        end in
      match o with
      | None => ret UV_EINVAL
      | Some tp => if negb (tp =? sizeof_in6_addr) then ret UV_EINVAL else ret 0
      end
  end.

(** The code before the [memcpy], on [tmp]. *)
Definition parse6 (src : list Z) : M array Z :=
  let! c := of_opt (head src) in
  let! src :=
    if c =? chr_colon then
      let! d := of_opt (head (tail src)) in
      ret (if negb (d =? chr_colon) then None else Some (tail src))
    else ret (Some src) in
  match src with
  | None => ret UV_EINVAL
  | Some src =>
      let! r := pton6_loop src src (Pton6 0 None 0 0) in
      match r with
      | None => ret UV_EINVAL
      | Some s => finish6 s
      end
  end.

Definition inet_pton6 (src : list Z) (dst : Z) : M array Z :=
  let! (err, tmp) := with_local (replicate 16 (Some 0)) (parse6 src) in
  if negb (err =? 0) then ret err
  else copy_local dst tmp ;;! ret 0.

(** The characters before the NUL. *)
Fixpoint c_string (s : list Z) : option (list Z) :=
  match s with
  | [] => None
  | ch :: r => if ch =? 0 then Some [] else cons ch <$> c_string r
  end.

(** [None] is the null pointer.  A zone is cut off by copying what is before it to a
    buffer; of that only the part up to the NUL is written. *)
Definition uv_inet_pton (af : Z) (src : option (list Z)) (dst : option Z) : M array Z :=
  match src, dst with
  | Some src, Some dst =>
      if af =? AF_INET then inet_pton4 src dst
      else if af =? AF_INET6 then
        let! text := of_opt (c_string src) in
        match strchr text chr_percent with
        | Some p =>
            let len := i32 p in
            if Z.of_nat UV__INET6_ADDRSTRLEN - 1 <? len then ret UV_EINVAL
            else if len <? 0 then ubm
            else inet_pton6 (ztake len src ++ [0]) dst
        | None => inet_pton6 src dst
        end
      else ret UV_EAFNOSUPPORT
  | _, _ => ret UV_EINVAL
  end.
