(* ===== verification/UvInetText.v ===== *)
(** * libuv: from addresses to text

    What [uv__strscpy] and [inet_ntop4] leave in a buffer, and the text that
    [inet_ntop6] builds: groups of hexadecimal digits around the first of the longest
    runs of zeros. *)
From S2P Require Import Prelude Decimal UvInet.

(** ** Buffers *)

(** The array has [n] bytes, the first of which are [t]. *)
Definition holds (t : list Z) (n : Z) (a : array) : Prop :=
  zlen a = n /\ exists rest, a = (Some <$> t) ++ rest.

Lemma zlen_fmap {A B} (f : A -> B) l : zlen (f <$> l) = zlen l.
Proof. unfold zlen. by rewrite length_fmap. Qed.
#[export] Hint Rewrite @zlen_fmap : cmodel_rw.

Lemma zsplit {A} (l : list A) n : 0 <= n <= zlen l ->
  exists l1 l2, l = l1 ++ l2 /\ zlen l1 = n /\ zlen l2 = zlen l - n.
Proof. intros. exists (ztake n l), (zdrop n l). by rewrite ztake_zdrop, zlen_ztake, zlen_zdrop. Qed.

Lemma put_all_at pre old post i l :
  i = zlen pre -> zlen old = zlen l ->
  put_all i l (pre ++ old ++ post) = Ret tt (pre ++ (Some <$> l) ++ post).
Proof. intros Hi Ho. unfold put_all. by rewrite overwrite_app by (rewrite ?zlen_fmap; done). Qed.

Lemma put_all_at2 pre mid old post i l :
  i = zlen pre + zlen mid -> zlen old = zlen l ->
  put_all i l (pre ++ mid ++ old ++ post) = Ret tt (pre ++ mid ++ (Some <$> l) ++ post).
Proof. intros -> Ho. rewrite app_assoc, put_all_at, <- app_assoc by (rewrite ?zlen_app; done). done. Qed.

Lemma put_all_holds t n a l : holds t n a -> zlen t + zlen l <= n ->
  exists a', put_all (zlen t) l a = Ret tt a' /\ holds (t ++ l) n a'.
Proof.
  intros [Hn [rest ->]] Hr. rewrite zlen_app, zlen_fmap in Hn. pose proof (zlen_nonneg l).
  destruct (zsplit rest (zlen l) ltac:(lia)) as (old & post & -> & Hl & Hd).
  eexists. split; [apply put_all_at; [by rewrite zlen_fmap|done]|]. split.
  - rewrite !zlen_app, !zlen_fmap, Hd. lia.
  - eexists. rewrite fmap_app, <- app_assoc. reflexivity.
Qed.

Lemma holds_prefix t l n a : holds (t ++ l) n a -> holds t n a.
Proof. intros [Hn [rest ->]]. split; [done|]. eexists. rewrite fmap_app, <- app_assoc. reflexivity. Qed.

Lemma holds_undef n : holds [] (Z.of_nat n) (undef n).
Proof. split; [unfold zlen, undef; by rewrite length_replicate|]. by exists (undef n). Qed.

(** ** strscpy *)

Abbreviation nul_free := (Forall (fun c : Z => c <> 0)).

(** One character copied. *)
Lemma strscpy_char c pre taken o old post s n : zlen taken < n ->
  strscpy_loop (zlen pre) (zlen taken) n (Some c :: s) (pre ++ (Some <$> taken) ++ o :: old ++ post) =
  (if c =? 0 then ret (if SSIZE_MAX <? zlen taken then UV_E2BIG else zlen taken)
   else strscpy_loop (zlen pre) (zlen (taken ++ [c])) n s)
    (pre ++ (Some <$> taken ++ [c]) ++ old ++ post).
Proof.
  intros Hn. cbn [strscpy_loop]. bool_true (zlen taken <? n). unfold put.
  rewrite (bind_Ret _ _ _ tt (pre ++ (Some <$> taken ++ [c]) ++ old ++ post));
    [by autorewrite with cmodel_rw|].
  rewrite fmap_app, <- app_assoc.
  apply (put_all_at2 pre (Some <$> taken) [o] (old ++ post)); [by rewrite zlen_fmap|done].
Qed.

Lemma strscpy_fits text : forall pre taken old post rest,
  nul_free text -> zlen taken + zlen text < 2 ^ 63 -> zlen text < zlen old ->
  strscpy_loop (zlen pre) (zlen taken) (zlen taken + zlen old) ((Some <$> text ++ [0]) ++ rest)
    (pre ++ (Some <$> taken) ++ old ++ post) =
  Ret (zlen taken + zlen text)
      (pre ++ (Some <$> taken ++ text ++ [0]) ++ zdrop (zlen text + 1) old ++ post).
Proof.
  induction text as [|c text IH]; intros pre taken old post rest Hnz Hlen Hfit;
    (destruct old as [|o old]; [unfold zlen in Hfit; cbn [length] in Hfit; lia|]);
    rewrite ?zlen_cons in *; pose proof (zlen_nonneg old); cbn [app fmap list_fmap];
    rewrite strscpy_char by lia.
  - change (0 =? 0) with true. cbv iota. unfold ret, SSIZE_MAX.
    rewrite zlen_nil in *. bool_false (2 ^ 63 - 1 <? zlen taken). by rewrite Z.add_0_r.
  - inversion_clear Hnz. bool_false (c =? 0).
    replace (zlen taken + (zlen old + 1)) with (zlen (taken ++ [c]) + zlen old)
      by (rewrite zlen_app; change (zlen [c]) with 1; lia).
    rewrite IH by (rewrite ?zlen_app; change (zlen [c]) with 1; done || lia).
    rewrite zlen_app. change (zlen [c]) with 1. f_equal; [lia|].
    rewrite <- !app_assoc. do 3 f_equal. unfold zdrop.
    replace (Z.to_nat (zlen text + 1 + 1)) with (S (Z.to_nat (zlen text + 1))); [done|].
    pose proof (zlen_nonneg text). lia.
Qed.

(** The text does not fit: what fits of it, cut off by a NUL. *)
Lemma strscpy_cut old : forall pre taken text post rest,
  nul_free text -> zlen old <= zlen text -> 0 < zlen taken + zlen old ->
  strscpy_loop (zlen pre) (zlen taken) (zlen taken + zlen old) ((Some <$> text ++ [0]) ++ rest)
    (pre ++ (Some <$> taken) ++ old ++ post) =
  Ret UV_E2BIG
    (pre ++ (Some <$> ztake (zlen taken + zlen old - 1) (taken ++ text) ++ [0]) ++ post).
Proof.
  induction old as [|o old IH]; intros pre taken text post rest Hnz Hfit Hpos.
  - rewrite zlen_nil, Z.add_0_r in *. destruct taken as [|x taken _] using rev_ind; [done|].
    rewrite zlen_app. change (zlen [x]) with 1. pose proof (zlen_nonneg taken).
    assert (E : put (zlen pre + (zlen (taken ++ [x]) - 1)) 0 (pre ++ (Some <$> taken ++ [x]) ++ [] ++ post)
                = Ret tt (pre ++ (Some <$> taken ++ [0]) ++ post)).
    { rewrite !fmap_app, <- !app_assoc. apply (put_all_at2 pre (Some <$> taken) [Some x] post); [|done].
      rewrite zlen_app, zlen_fmap. change (zlen [x]) with 1. lia. }
    rewrite zlen_app in E. change (zlen [x]) with 1 in E.
    replace (ztake (zlen taken + 1 - 1) ((taken ++ [x]) ++ text)) with taken
      by (by rewrite <- app_assoc, Z.add_simpl_r, ztake_app).
    unfold strscpy_loop. destruct text;
      cbn [app fmap list_fmap]; rewrite Z.ltb_irrefl; bool_false (zlen taken + 1 =? 0);
      rewrite (bind_Ret _ _ _ _ _ E); done.
  - destruct text as [|c text]; [rewrite zlen_cons, zlen_nil in Hfit; pose proof (zlen_nonneg old); lia|].
    rewrite !zlen_cons in *. pose proof (zlen_nonneg old). pose proof (zlen_nonneg taken).
    cbn [app fmap list_fmap]. rewrite strscpy_char by lia. inversion_clear Hnz. bool_false (c =? 0).
    replace (zlen taken + (zlen old + 1)) with (zlen (taken ++ [c]) + zlen old)
      by (rewrite zlen_app; change (zlen [c]) with 1; lia).
    rewrite IH by (rewrite ?zlen_app; change (zlen [c]) with 1; done || lia).
    by rewrite <- app_assoc.
Qed.

(** Nothing is written to a buffer of size zero. *)
Lemma strscpy_zero d text rest a : strscpy_loop d 0 0 ((Some <$> text ++ [0]) ++ rest) a = Ret 0 a.
Proof. by destruct text. Qed.

(** ** IPv4 *)

Lemma decimal_byte_len v : is_byte v -> 1 <= zlen (decimal v) <= 3.
Proof.
  unfold is_byte, decimal. intros Hv. do 3 (cbn [decimal_digits]; case_bool; [unfold zlen; rewrite ?length_app; cbn [length]; lia|]).
  exfalso. Z.to_euclidean_division_equations. lia.
Qed.

(** The characters of addresses lie between the dot and the letter f. *)
Definition addr_char (c : Z) : Prop := 46 <= c <= 102.

Lemma addr_nul_free l : Forall addr_char l -> nul_free l.
Proof. intros H. eapply Forall_impl; [exact H|]. unfold addr_char. cbn. lia. Qed.

Lemma decimal_chars v : is_byte v -> Forall addr_char (decimal v).
Proof.
  unfold is_byte. intros Hv. destruct (decimal_spec v ltac:(lia)) as [Hd _].
  eapply Forall_impl; [exact Hd|]. cbn. unfold is_digit, chr_0, chr_9, addr_char. lia.
Qed.

Lemma dotted_len a b c d : is_byte a -> is_byte b -> is_byte c -> is_byte d ->
  7 <= zlen (dotted a b c d) <= 15.
Proof.
  intros Ha%decimal_byte_len Hb%decimal_byte_len Hc%decimal_byte_len Hd%decimal_byte_len.
  unfold dotted. rewrite !zlen_app. change (zlen [chr_dot]) with 1. lia.
Qed.

Lemma dotted_chars a b c d : is_byte a -> is_byte b -> is_byte c -> is_byte d ->
  Forall addr_char (dotted a b c d).
Proof.
  intros. unfold dotted. rewrite !Forall_app. split_and!; try (by apply decimal_chars).
  all: by apply Forall_singleton.
Qed.

Lemma snprintf_undef text n : zlen text < Z.of_nat n ->
  exists tmp, snprintf (Z.of_nat n) text (undef n) = Ret (zlen text) tmp /\
    exists rest, tmp = (Some <$> text ++ [0]) ++ rest.
Proof.
  intros Hl. pose proof (zlen_nonneg text). unfold snprintf. bool_true (0 <? Z.of_nat n).
  destruct (put_all_holds [] _ (undef n) (ztake (Z.of_nat n - 1) text ++ [0]) (holds_undef n)) as (a & E & _ & rest & Ha).
  - rewrite zlen_app, zlen_nil. change (zlen [0]) with 1. unfold ztake, zlen in *. rewrite length_take. lia.
  - exists a. change 0 with (zlen (@nil Z)) at 1. rewrite (bind_Ret _ _ _ _ _ E). split; [done|].
    exists rest. rewrite Ha. unfold ztake, zlen in *. by rewrite take_ge by lia.
Qed.

(** [inet_ntop4] into [size] bytes in the middle of an array. *)
Lemma ntop4_run a b c d src pre old post :
  is_byte a -> is_byte b -> is_byte c -> is_byte d ->
  inet_ntop4 (a :: b :: c :: d :: src) (zlen pre) (zlen old) (pre ++ old ++ post) =
  let text := dotted a b c d in
  if zlen text <? zlen old then
    Ret 0 (pre ++ (Some <$> text ++ [0]) ++ zdrop (zlen text + 1) old ++ post)
  else Ret UV_ENOSPC (pre ++ old ++ post).
Proof.
  intros Ha Hb Hc Hd. pose proof (dotted_len a b c d Ha Hb Hc Hd) as Hlen. cbv zeta. unfold inet_ntop4.
  pose proof (slice_app [] [a; b; c; d] src 0 4 eq_refl eq_refl) as Hs. cbn [app] in Hs.
  unfold sizeof_in_addr. rewrite Hs. unfold bind at 1. cbn [of_opt].
  destruct (snprintf_undef (dotted a b c d) UV__INET_ADDRSTRLEN) as (tmp & E & rest & ->);
    [change (Z.of_nat UV__INET_ADDRSTRLEN) with 16; lia|].
  unfold with_local, bind at 1. rewrite E. bool_false (zlen (dotted a b c d) <=? 0). cbn [orb].
  rewrite Z.leb_antisym. case_bool; cbn [negb]; [|done].
  unfold uv__strscpy. pose proof (addr_nul_free _ (dotted_chars a b c d Ha Hb Hc Hd)) as Hnf.
  pose proof (strscpy_fits (dotted a b c d) pre [] old post rest Hnf ltac:(rewrite zlen_nil; lia) ltac:(lia)) as F.
  cbn [fmap list_fmap app] in F. rewrite !zlen_nil, Z.add_0_l in F. by rewrite (bind_Ret _ _ _ _ _ F).
Qed.
