(* ===== verification/UvInetGroups.v ===== *)
(** * libuv: the groups of an IPv6 address

    The runs of zero words that [inet_ntop6] looks for, the text it builds around the
    one it chooses, and the buffer it builds it in. *)
From S2P Require Import Prelude Decimal UvInet UvInetText.

(** ** The chosen run of zeros *)

(** [n] zeros from place [b] on. *)
Definition zero_run (words : list Z) (b n : Z) : Prop :=
  0 <= b /\ 1 <= n /\ b + n <= zlen words /\
  forall j, b <= j < b + n -> words !! Z.to_nat j = Some 0.

(** [r] is absent or a run of zeros. *)
Definition run_ok (words : list Z) (r : run) : Prop :=
  base r = -1 \/ zero_run words (base r) (len r).

(** [r] is the first of the longest runs among those that end by [i]. *)
Definition run_first_longest (words : list Z) (i : Z) (r : run) : Prop :=
  forall b n, zero_run words b n -> b + n <= i ->
    base r <> -1 /\ (n < len r \/ n = len r /\ base r <= b).

(** [cur] is the run of zeros that ends at [i]. *)
Definition run_current (words : list Z) (i : Z) (r : run) : Prop :=
  if base r =? -1 then i = 0 \/ words !! Z.to_nat (i - 1) <> Some 0
  else zero_run words (base r) (len r) /\ base r + len r = i /\
       (base r = 0 \/ words !! Z.to_nat (base r - 1) <> Some 0).

Lemma zero_run_in words b n : zero_run words b n -> 0 <= b /\ 1 <= n /\ b + n <= zlen words.
Proof. intros (? & ? & ? & _). done. Qed.

(** What is known of the best run when the runs that end by [i] have been seen. *)
Definition best_inv (words : list Z) (i : Z) (r : run) : Prop :=
  (base r = -1 \/ zero_run words (base r) (len r) /\ base r + len r <= i) /\
  run_first_longest words i r.

Lemma longer_inv words i best cur :
  base cur <> -1 -> run_current words i cur -> best_inv words (base cur) best ->
  best_inv words i (longer best cur).
Proof.
  unfold run_current. intros Hcur Hc [Hok HF]. rewrite (proj2 (Z.eqb_neq _ _) Hcur) in Hc.
  destruct Hc as (Hz & Hi & Hstart). pose proof Hz as (Hb0 & Hn1 & _ & _).
  assert (Hl : longer best cur = cur /\ (base best = -1 \/ len best < len cur) \/
               longer best cur = best /\ base best <> -1 /\ len cur <= len best).
  { unfold longer. do 2 (case_bool; cbn [orb]; try (left; split; [done|lia])). right. split; [done|lia]. }
  split.
  { destruct Hl as [[-> _]|(-> & Hne & _)]; [right; split; [done|lia]|].
    destruct Hok as [?|[??]]; [done|right; split; [done|lia]]. }
  intros b n Hr Hbn. destruct (Z.le_gt_cases (b + n) (base cur)) as [Hle|Hgt].
  - specialize (HF b n Hr Hle). destruct Hl as [[-> ?]|(-> & ? & ?)]; lia.
  - assert (base cur <= b).
    { destruct (Z.le_gt_cases (base cur) b) as [|Hlt]; [done|]. exfalso.
      destruct Hr as (? & ? & _ & Hall). destruct Hstart as [|Hs]; [lia|]. destruct Hs. apply Hall. lia. }
    destruct Hr as (? & ? & _ & _).
    destruct Hl as [[-> ?]|(-> & ? & ?)]; [lia|]. destruct Hok as [?|[(? & ? & _) ?]]; lia.
Qed.

Lemma runs_loop_inv words : forall rest i best cur,
  0 <= i -> zdrop i words = rest -> i + zlen rest = zlen words ->
  run_current words i cur -> best_inv words (if base cur =? -1 then i else base cur) best ->
  let '(best', cur') := runs_loop i rest best cur in
  run_current words (zlen words) cur' /\
  best_inv words (if base cur' =? -1 then zlen words else base cur') best'.
Proof.
  induction rest as [|w rest IH]; intros i best cur Hi Hd Hlen Hcur Hbest; cbn [runs_loop].
  { rewrite zlen_nil, Z.add_0_r in Hlen. by subst i. }
  rewrite zlen_cons in Hlen. pose proof (zlen_nonneg rest).
  assert (Hw : words !! Z.to_nat i = Some w).
  { unfold zdrop in Hd. by rewrite <- (Nat.add_0_r (Z.to_nat i)), <- lookup_drop, Hd. }
  assert (Hd' : zdrop (i + 1) words = rest).
  { unfold zdrop in *. replace (Z.to_nat (i + 1)) with (1 + Z.to_nat i)%nat by lia.
    rewrite Nat.add_comm, <- drop_drop, Hd. done. }
  assert (Hlt : forall b n, w <> 0 -> zero_run words b n -> b + n <= i + 1 -> b + n <= i).
  { intros b n Hw0 (? & ? & _ & Hall) ?. destruct (Z.eq_dec (b + n) (i + 1)); [|lia].
    destruct Hw0. specialize (Hall i ltac:(lia)). congruence. }
  destruct (Z.eqb_spec w 0) as [->|Hw0].
  - apply IH; [lia|done|lia| |]; destruct (Z.eqb_spec (base cur) (-1)) as [Hc|Hc].
    + unfold run_current in Hcur |- *. cbn [base len]. bool_false (i =? -1). rewrite Hc in Hcur.
      cbn in Hcur. split; [|split; [lia|done]]. split; [done|]. split; [lia|]. split; [lia|].
      intros j Hj. by replace j with i by lia.
    + unfold run_current in Hcur |- *. cbn [base len]. bool_false (base cur =? -1).
      rewrite (proj2 (Z.eqb_neq _ _) Hc) in Hcur. destruct Hcur as ((? & ? & ? & Hall) & ? & ?).
      split; [|split; [lia|done]]. split; [done|]. split; [lia|]. split; [lia|].
      intros j Hj. destruct (Z.eq_dec j i) as [->|]; [done|]. apply Hall. lia.
    + cbn [base]. by bool_false (i =? -1).
    + cbn [base]. by bool_false (base cur =? -1).
  - destruct (Z.eqb_spec (base cur) (-1)) as [Hc|Hc]; cbn [negb]; apply IH; try (done || lia).
    + unfold run_current. rewrite Hc. cbn. right. replace (i + 1 - 1) with i by lia. congruence.
    + rewrite Hc. cbn. destruct Hbest as [Hok HF]. split.
      * destruct Hok as [|[??]]; [by left|right; split; [done|lia]].
      * intros b n Hr Hbn. apply HF; [done|]. by apply Hlt.
    + unfold run_current. cbn. right. replace (i + 1 - 1) with i by lia. congruence.
    + cbn. destruct (longer_inv words i best cur Hc Hcur Hbest) as [Hok HF]. split.
      * destruct Hok as [|[??]]; [by left|right; split; [done|lia]].
      * intros b n Hr Hbn. apply HF; [done|]. by apply Hlt.
Qed.

(** The run of two zeros or more that is written as a double colon: the first of the
    longest, and none only if there is none. *)
Lemma best_run_spec words :
  let r := best_run words in
  (base r = -1 \/ zero_run words (base r) (len r) /\ 2 <= len r) /\
  forall b n, zero_run words b n -> 2 <= n ->
    base r <> -1 /\ (n < len r \/ n = len r /\ base r <= b).
Proof.
  cbv zeta. unfold best_run.
  pose proof (runs_loop_inv words words 0 (Run (-1) 0) (Run (-1) 0) ltac:(lia) eq_refl ltac:(lia)) as H.
  destruct (runs_loop _ _ _ _) as [best cur].
  destruct H as [Hcur Hbest]; [by left|split; [by left|]|].
  { cbn. intros b n (? & ? & _) ?. lia. }
  assert (Hend : best_inv words (zlen words) (if negb (base cur =? -1) then longer best cur else best)).
  { destruct (Z.eqb_spec (base cur) (-1)); cbn [negb]; [done|]. by apply longer_inv. }
  set (r := if negb (base cur =? -1) then longer best cur else best) in *. clearbody r.
  destruct Hend as [Hok HF].
  assert (HF2 : forall b n, zero_run words b n -> base r <> -1 /\ (n < len r \/ n = len r /\ base r <= b)).
  { intros b n Hr. apply HF; [done|]. by destruct Hr as (_ & _ & ? & _). }
  destruct (Z.eqb_spec (base r) (-1)) as [E|E]; cbn [negb andb].
  - split; [by left|]. intros b n Hr _. by apply HF2.
  - destruct (Z.ltb_spec (len r) 2); cbn [base len].
    + split; [by left|]. intros b n Hr Hn. specialize (HF2 b n Hr). lia.
    + split; [right; destruct Hok as [?|[??]]; done|]. intros b n Hr _. by apply HF2.
Qed.

(** ** The text *)

Definition tails (ws : list Z) : list Z := w ← ws; chr_colon :: hex w.
(** Groups with colons between them. *)
Definition join (ws : list Z) : list Z :=
  match ws with [] => [] | w :: r => hex w ++ tails r end.

(** What [format_loop] writes; [d4] is the text of the last four bytes. *)
Fixpoint text_loop (d4 words : list Z) (best : run) (i : Z) (rest : list Z) : list Z :=
  match rest with
  | [] => []
  | w :: rest =>
      if in_run best i
      then (if i =? base best then [chr_colon] else []) ++ text_loop d4 words best (i + 1) rest
      else (if i =? 0 then [] else [chr_colon]) ++
           (if embeds_ipv4 words best i then d4
            else hex w ++ text_loop d4 words best (i + 1) rest)
  end.
Definition text6 (d4 words : list Z) : list Z :=
  let best := best_run words in
  text_loop d4 words best 0 words ++
  (if negb (base best =? -1) && (base best + len best =? 8) then [chr_colon] else []).

Lemma tails_app l r : tails (l ++ r) = tails l ++ tails r.
Proof. apply bind_app. Qed.

(** Words that are not in the run, from the second on. *)
Lemma text_outside d4 words best l : forall i rest,
  0 < i -> (forall j, i <= j < i + zlen l -> in_run best j = false /\ embeds_ipv4 words best j = false) ->
  text_loop d4 words best i (l ++ rest) = tails l ++ text_loop d4 words best (i + zlen l) rest.
Proof.
  induction l as [|w l IH]; intros i rest Hi Hout; [by rewrite zlen_nil, Z.add_0_r|].
  rewrite zlen_cons in *. pose proof (zlen_nonneg l). cbn [app text_loop].
  destruct (Hout i ltac:(lia)) as [-> ->]. bool_false (i =? 0).
  rewrite IH by (try lia; intros j Hj; apply Hout; lia).
  replace (i + 1 + zlen l) with (i + (zlen l + 1)) by lia.
  change (tails (w :: l)) with ((chr_colon :: hex w) ++ tails l). by rewrite <- app_assoc.
Qed.

Lemma text_first d4 words best l rest :
  (forall j, 0 <= j < zlen l -> in_run best j = false /\ embeds_ipv4 words best j = false) ->
  text_loop d4 words best 0 (l ++ rest) = join l ++ text_loop d4 words best (zlen l) rest.
Proof.
  destruct l as [|w l]; intros Hout; [done|].
  rewrite zlen_cons in *. pose proof (zlen_nonneg l). cbn [app text_loop join].
  destruct (Hout 0 ltac:(lia)) as [-> ->]. cbn [Z.eqb app].
  rewrite text_outside by (try lia; intros j Hj; apply Hout; lia). 
  replace (0 + 1 + zlen l) with (zlen l + 1) by lia. by rewrite <- app_assoc.
Qed.

(** The words in the run, from the second on, leave nothing. *)
Lemma text_inside d4 words best l : forall i rest,
  (forall j, i <= j < i + zlen l -> in_run best j = true /\ j <> base best) ->
  text_loop d4 words best i (l ++ rest) = text_loop d4 words best (i + zlen l) rest.
Proof.
  induction l as [|w l IH]; intros i rest Hin; [by rewrite zlen_nil, Z.add_0_r|].
  rewrite zlen_cons in *. pose proof (zlen_nonneg l). cbn [app text_loop].
  destruct (Hin i ltac:(lia)) as [-> ?]. bool_false (i =? base best). cbn [app].
  rewrite IH by (intros j Hj; apply Hin; lia). f_equal. lia.
Qed.

Lemma in_run_spec best i : base best <> -1 ->
  in_run best i = bool_decide (base best <= i < base best + len best).
Proof.
  intros Hb. unfold in_run. bool_false (base best =? -1). cbn [negb andb].
  case_bool_decide; [bool_true (base best <=? i); by bool_true (i <? base best + len best)|].
  apply andb_false_iff. rewrite Z.leb_gt, Z.ltb_ge. lia.
Qed.

(** A run splits the words. *)
Lemma zero_run_split words b n : zero_run words b n ->
  exists left right, words = left ++ replicate (Z.to_nat n) 0 ++ right /\
    zlen left = b /\ zlen right = zlen words - b - n.
Proof.
  intros (Hb & Hn & Hend & Hz). destruct (zsplit words b ltac:(lia)) as (left & r & -> & Hl & Hr).
  rewrite zlen_app in *. destruct (zsplit r n ltac:(lia)) as (zs & right & -> & Hzs & Hright).
  rewrite zlen_app in *. exists left, right. split_and!; [|done|lia]. do 2 f_equal.
  symmetry. apply replicate_as_Forall. unfold zlen in *. split; [lia|]. apply Forall_lookup. intros k x Hx.
  specialize (Hz (b + Z.of_nat k)). rewrite lookup_app_r in Hz by lia.
  replace (Z.to_nat (b + Z.of_nat k) - length left)%nat with k in Hz by lia.
  pose proof (lookup_lt_Some _ _ _ Hx). rewrite lookup_app_l in Hz by lia.
  rewrite Hx in Hz. specialize (Hz ltac:(lia)). congruence.
Qed.

(** From the first zero of the run on. *)
Lemma text_run d4 words best right :
  0 <= base best -> 1 <= len best ->
  text_loop d4 words best (base best) (replicate (Z.to_nat (len best)) 0 ++ right) =
  [chr_colon] ++ text_loop d4 words best (base best + len best) right.
Proof.
  intros Hb Hn. destruct (Z.to_nat (len best)) as [|n] eqn:En; [lia|].
  cbn [replicate app text_loop]. rewrite in_run_spec by lia. rewrite bool_decide_true by lia.
  rewrite Z.eqb_refl. cbn [app]. f_equal. rewrite text_inside.
  - f_equal. unfold zlen. rewrite length_replicate. lia.
  - unfold zlen. rewrite length_replicate. intros j Hj. rewrite in_run_spec by lia.
    rewrite bool_decide_true by lia. split; [done|lia].
Qed.

Lemma embeds_only_at_6 words best i : embeds_ipv4 words best i = true -> i = 6 /\ base best = 0 /\
  (len best = 6 \/ len best = 7 \/ len best = 5 /\ nth 5 words 0 = 65535).
Proof.
  unfold embeds_ipv4. rewrite !andb_true_iff, !orb_true_iff, !andb_true_iff, !Z.eqb_eq. lia.
Qed.

Lemma join_tails right : right <> [] -> tails right = [chr_colon] ++ join right.
Proof. by destruct right. Qed.

(** The text around a run of zeros that is written as a double colon; [d4] is the text of
    the last four bytes in dotted form, which replaces the last two groups when the run
    is the first six, or the first five with ffff behind it. *)
Definition compressed (d4 left right : list Z) : list Z :=
  match left, right with
  | [], [_; _] => [chr_colon; chr_colon] ++ d4
  | [], [w5; _; _] =>
      if w5 =? 0xffff then [chr_colon; chr_colon] ++ hex 0xffff ++ [chr_colon] ++ d4
      else [chr_colon; chr_colon] ++ join right
  | _, _ => join left ++ [chr_colon; chr_colon] ++ join right
  end.

Lemma compressed_hex d4 left right :
  (left = [] -> ~ (zlen right = 2 \/ exists w6 w7, right = [65535; w6; w7])) ->
  compressed d4 left right = join left ++ [chr_colon; chr_colon] ++ join right.
Proof.
  intros H. destruct left; [|done]. destruct right as [|w5 [|w6 [|w7 [|]]]]; try done.
  - destruct (H eq_refl). by left.
  - cbn [compressed]. destruct (Z.eqb_spec w5 65535) as [->|]; [|done]. destruct (H eq_refl). right. by exists w6, w7.
Qed.

(** The three forms. *)
Lemma compressed_cases d4 left right :
  compressed d4 left right = join left ++ [chr_colon; chr_colon] ++ join right \/
  left = [] /\ exists w6 w7,
    right = [w6; w7] /\ compressed d4 left right = [chr_colon; chr_colon] ++ d4 \/
    right = [65535; w6; w7] /\
    compressed d4 left right = [chr_colon; chr_colon] ++ hex 65535 ++ [chr_colon] ++ d4.
Proof.
  destruct left; [|by left]. destruct right as [|w5 [|w6 [|w7 [|]]]]; try by left.
  - right. split; [done|]. exists w5, w6. by left.
  - cbn [compressed]. destruct (Z.eqb_spec w5 65535) as [->|Hne]; [|by left].
    right. split; [done|]. exists w6, w7. by right.
Qed.

(** The text of eight words: all of them, or a double colon for a run of zeros. *)
Lemma text6_shape d4 words : zlen words = 8 ->
  base (best_run words) = -1 /\ text6 d4 words = join words \/
  exists left n right, words = left ++ replicate n 0 ++ right /\ (2 <= n)%nat /\
    zlen left = base (best_run words) /\ Z.of_nat n = len (best_run words) /\
    text6 d4 words = compressed d4 left right.
Proof.
  intros H8. unfold text6. destruct (best_run_spec words) as [Hrun _].
  set (best := best_run words) in *. destruct Hrun as [Hno|[Hz H2]].
  - left. split; [done|]. rewrite <- (app_nil_r words) at 2. rewrite text_first.
    + rewrite Hno. cbn. by rewrite !app_nil_r.
    + intros j _. unfold in_run, embeds_ipv4. rewrite Hno. cbn. by rewrite andb_false_r.
  - right. destruct (zero_run_split _ _ _ Hz) as (left & right & Ew & Hl & Hr).
    rewrite H8 in Hr. pose proof (zero_run_in _ _ _ Hz) as (Hb & _ & Hend). pose proof (zlen_nonneg right).
    exists left, (Z.to_nat (len best)), right. split; [done|]. split; [lia|].
    split; [done|]. split; [lia|].
    assert (Etext : text_loop d4 words best 0 words =
                    join left ++ [chr_colon] ++ text_loop d4 words best (base best + len best) right).
    { rewrite Ew at 2. rewrite text_first; [by rewrite Hl, text_run by lia|].
      intros j Hj. rewrite in_run_spec, bool_decide_false by lia. split; [done|].
      destruct (embeds_ipv4 words best j) eqn:E; [|done]. apply embeds_only_at_6 in E. lia. }
    rewrite Etext. clear Etext. bool_false (base best =? -1). cbn [negb andb].
    destruct (embeds_ipv4 words best 6 && (base best + len best <=? 6)) eqn:Hemb.
    + apply andb_true_iff in Hemb as [He H6]. apply Z.leb_le in H6.
      pose proof (embeds_only_at_6 _ _ _ He) as (_ & Hb0 & Hcase). rewrite Hb0 in *. bool_false (0 + len best =? 8).
      destruct left; [|unfold zlen in Hl; cbn [length] in Hl; lia]. cbn [join app].
      destruct Hcase as [E6|[E7|[E5 Hffff]]]; [|lia|].
      * destruct right as [|w6 [|w7 [|]]]; unfold zlen in Hr; cbn [length] in Hr; try lia.
        rewrite E6. change (0 + 6) with 6. cbn [text_loop compressed].
        rewrite He, in_run_spec, bool_decide_false by lia. cbn. by rewrite app_nil_r.
      * destruct right as [|w5 [|w6 [|w7 [|]]]]; unfold zlen in Hr; cbn [length] in Hr; try lia.
        rewrite E5 in *. rewrite Ew in Hffff. change (Z.to_nat 5) with 5%nat in Hffff.
        cbn in Hffff. subst w5. change (0 + 5) with 5. cbn [text_loop compressed]. rewrite Z.eqb_refl.
        rewrite in_run_spec, bool_decide_false by lia.
        destruct (embeds_ipv4 words best 5) eqn:E'; [apply embeds_only_at_6 in E'; lia|].
        change (5 + 1) with 6. rewrite He, in_run_spec, bool_decide_false by lia.
        change (5 =? 0) with false. change (6 =? 0) with false. cbv iota. by rewrite app_nil_r.
    + assert (Ec : compressed d4 left right = join left ++ [chr_colon; chr_colon] ++ join right).
      { apply compressed_hex. intros -> Hsh. rewrite zlen_nil in Hl. revert Hemb. unfold embeds_ipv4. rewrite <- Hl.
        destruct Hsh as [E2|(w6 & w7 & ->)]; [rewrite E2 in Hr|change (zlen [65535; w6; w7]) with 3 in Hr].
        - bool_true (len best =? 6). by bool_true (0 + len best <=? 6).
        - rewrite Ew. bool_true (len best =? 5). bool_true (0 + len best <=? 6).
          replace (Z.to_nat (len best)) with 5%nat by lia. cbn. by rewrite !orb_true_r. }
      rewrite Ec. rewrite <- (app_nil_r right) at 1. rewrite text_outside; [| lia |].
      2: { intros j Hj. rewrite in_run_spec, bool_decide_false by lia. split; [done|].
           destruct (embeds_ipv4 words best j) eqn:E; [|done]. exfalso.
           pose proof (embeds_only_at_6 _ _ _ E) as (-> & _).
           rewrite E in Hemb. cbn [andb] in Hemb. apply Z.leb_gt in Hemb. lia. }
      cbn [text_loop]. rewrite app_nil_r, <- !app_assoc. f_equal.
      destruct right as [|w right].
      * rewrite zlen_nil in Hr. by bool_true (base best + len best =? 8).
      * rewrite zlen_cons in Hr. pose proof (zlen_nonneg right). bool_false (base best + len best =? 8).
        rewrite app_nil_r. by rewrite join_tails.
Qed.
