(* ===== verification/UvInetNtop.v ===== *)
(** * libuv: the buffers of inet_ntop6

    The text of [UvInetGroups] in the local buffer, which it never overruns, and its
    copy to the caller. *)
From S2P Require Import Prelude Decimal UvInet UvInetText UvInetGroups.

Definition is_word (w : Z) : Prop := 0 <= w < 65536.

(** ** Lengths *)

Lemma hex_digits_mono k m : forall v, 0 <= v < 16 ^ Z.of_nat (S k) -> (k <= m)%nat ->
  hex_digits (S m) v = hex_digits (S k) v.
Proof.
  revert m. induction k as [|k IH]; intros m v Hv Hm; cbn [hex_digits].
  - change (16 ^ Z.of_nat 1) with 16 in Hv. by bool_true (v <? 16).
  - destruct m as [|m]; [lia|]. case_bool; [done|]. f_equal. apply (IH m); [|lia].
    replace (Z.of_nat (S (S k))) with (1 + Z.of_nat (S k)) in Hv by lia. rewrite Z.pow_add_r, Z.pow_1_r in Hv by lia.
    split; [apply Z.div_pos; lia|apply Z.div_lt_upper_bound; lia].
Qed.

Lemma hex_word w : is_word w -> hex w = hex_digits 4 w.
Proof. intros Hw. apply (hex_digits_mono 3 7); [exact Hw|lia]. Qed.

Lemma hex_char_ok d : 0 <= d < 16 -> addr_char (hex_char d).
Proof. unfold hex_char, addr_char. case_bool; lia. Qed.

Lemma hex_digits_facts k : forall v, 0 <= v -> Forall addr_char (hex_digits (S k) v) /\
  1 <= zlen (hex_digits (S k) v) <= Z.of_nat (S k).
Proof.
  assert (Hm : forall v, addr_char (hex_char (v mod 16))).
  { intros v. apply hex_char_ok. apply Z.mod_pos_bound. lia. }
  assert (H1 : forall c, addr_char c -> Forall addr_char [c] /\ 1 <= zlen [c] <= 1).
  { intros c Hc. split; [by apply Forall_singleton|]. unfold zlen. cbn [length]. lia. }
  induction k as [|k IH]; intros v Hv.
  - cbn [hex_digits]. case_bool; [apply H1; by apply hex_char_ok|apply H1, Hm].
  - change (hex_digits (S (S k)) v)
      with (if v <? 16 then [hex_char v] else hex_digits (S k) (v / 16) ++ [hex_char (v mod 16)]).
    case_bool.
    + destruct (H1 (hex_char v)) as [? ?]; [by apply hex_char_ok|]. split; [done|lia].
    + destruct (IH (v / 16) ltac:(apply Z.div_pos; lia)) as [Hf Hl]. destruct (H1 _ (Hm v)) as [? ?].
      rewrite Forall_app, zlen_app. split; [done|lia].
Qed.

Lemma hex_facts w : is_word w -> Forall addr_char (hex w) /\ 1 <= zlen (hex w) <= 4.
Proof. intros Hw. rewrite hex_word by done. apply (hex_digits_facts 3). unfold is_word in Hw. lia. Qed.

Lemma tails_facts ws : Forall is_word ws -> Forall addr_char (tails ws) /\ zlen (tails ws) <= 5 * zlen ws.
Proof.
  induction 1 as [|w ws Hw _ [Hf Hl]]; [split; [constructor|done]|].
  change (tails (w :: ws)) with ((chr_colon :: hex w) ++ tails ws). destruct (hex_facts w Hw) as [Hhf Hhl].
  split; [by apply Forall_app; split; [constructor|]|]. rewrite zlen_app, !zlen_cons. lia.
Qed.

Lemma join_facts ws : Forall is_word ws -> Forall addr_char (join ws) /\ zlen (join ws) <= Z.max 0 (5 * zlen ws - 1).
Proof.
  destruct 1 as [|w ws Hw Hws]; [split; [constructor|done]|]. cbn [join].
  destruct (hex_facts w Hw), (tails_facts ws Hws). pose proof (zlen_nonneg ws).
  split; [by apply Forall_app|]. rewrite zlen_app, zlen_cons. lia.
Qed.

Lemma text6_facts d4 words : zlen words = 8 -> Forall is_word words ->
  Forall addr_char d4 -> zlen d4 <= 15 ->
  Forall addr_char (text6 d4 words) /\ zlen (text6 d4 words) <= 39.
Proof.
  intros H8 Hw Hd Hd15. destruct (text6_shape d4 words H8) as [[_ ->]|(l & n & r & E & Hn & _ & _ & ->)].
  { destruct (join_facts words Hw). split; [done|lia]. }
  subst words. apply Forall_app in Hw as [Hwl Hwr]. apply Forall_app in Hwr as [_ Hwr].
  destruct (join_facts l Hwl) as [Hlf Hll], (join_facts r Hwr) as [Hrf Hrl].
  rewrite !zlen_app in H8. unfold zlen at 2 in H8. rewrite length_replicate in H8.
  pose proof (zlen_nonneg l). pose proof (zlen_nonneg r).
  assert (Hc : Forall addr_char [chr_colon; chr_colon]) by (by repeat constructor).
  destruct (compressed_cases d4 l r) as [->|[-> (w6 & w7 & [[-> ->]|[-> ->]])]].
  - rewrite !Forall_app, !zlen_app. change (zlen [chr_colon; chr_colon]) with 2. split; [done|lia].
  - rewrite !Forall_app, !zlen_app. change (zlen [chr_colon; chr_colon]) with 2. split; [done|lia].
  - rewrite !Forall_app, !zlen_app. change (zlen [chr_colon; chr_colon]) with 2.
    change (zlen (hex 65535)) with 4. change (zlen [chr_colon]) with 1.
    split; [|lia]. split; [done|]. split; [by apply (hex_facts 65535)|]. split; [by apply Forall_singleton|done].
Qed.

(** ** The local buffer *)

Lemma nul_at_text text rest : nul_free text -> nul_at ((Some <$> text ++ [0]) ++ rest) = Some (zlen text).
Proof.
  induction 1 as [|c text Hc _ IH]; [done|]. cbn [app fmap list_fmap nul_at]. bool_false (c =? 0).
  rewrite IH, zlen_cons. reflexivity.
Qed.

Lemma ntop4_holds a b c d src t n buf :
  is_byte a -> is_byte b -> is_byte c -> is_byte d ->
  holds t n buf -> zlen t + zlen (dotted a b c d) < n ->
  exists buf', inet_ntop4 (a :: b :: c :: d :: src) (zlen t) (n - zlen t) buf = Ret 0 buf' /\
    holds (t ++ dotted a b c d ++ [0]) n buf' /\ strlen (zlen t) buf' = Ret (zlen (dotted a b c d)) buf'.
Proof.
  intros Ha Hb Hc Hd [Hn [rest ->]] Hroom. rewrite zlen_app, zlen_fmap in Hn. rewrite <- Hn.
  replace (zlen t + zlen rest - zlen t) with (zlen rest) by lia.
  pose proof (ntop4_run a b c d src (Some <$> t) rest [] Ha Hb Hc Hd) as E. cbv zeta in E.
  rewrite zlen_fmap, !app_nil_r in E. rewrite E. clear E. set (text := dotted a b c d) in *.
  bool_true (zlen text <? zlen rest). pose proof (zlen_nonneg text). eexists. split; [reflexivity|].
  split; [split|].
  - rewrite !zlen_app, !zlen_fmap, zlen_app, zlen_zdrop by lia. change (zlen [0]) with 1. lia.
  - eexists. rewrite (fmap_app _ t), <- app_assoc. reflexivity.
  - unfold strlen. rewrite <- (zlen_fmap (Some : Z -> option Z) t), zdrop_app.
    by rewrite nul_at_text by (by apply addr_nul_free, dotted_chars).
Qed.

Section Format.
Context (src words : list Z) (best : run) (a b c d : Z) (more : list Z).
Context (Hsrc : zdrop 12 src = a :: b :: c :: d :: more).
Context (Ha : is_byte a) (Hb : is_byte b) (Hc : is_byte c) (Hd : is_byte d).

Lemma put_holds t n buf v : holds t n buf -> zlen t < n ->
  exists buf', put (zlen t) v buf = Ret tt buf' /\ holds (t ++ [v]) n buf'.
Proof. intros Hh Hn. apply put_all_holds; [done|]. change (zlen [v]) with 1. lia. Qed.

Lemma sprintf_holds t n buf text : holds t n buf -> zlen t + zlen text < n ->
  exists buf', sprintf (zlen t) text buf = Ret (zlen text) buf' /\ holds (t ++ text) n buf'.
Proof.
  intros Hh Hn. destruct (put_all_holds t n buf (text ++ [0]) Hh) as (buf' & E & Hh').
  { rewrite zlen_app. change (zlen [0]) with 1. lia. }
  exists buf'. unfold sprintf. rewrite (bind_Ret _ _ _ _ _ E). split; [done|].
  rewrite app_assoc in Hh'. by apply holds_prefix in Hh'.
Qed.

Lemma format_loop_run rest : forall i t buf,
  Forall is_word rest -> holds t 46 buf ->
  zlen t + zlen (text_loop (dotted a b c d) words best i rest) < 46 ->
  exists buf', let text := t ++ text_loop (dotted a b c d) words best i rest in
    format_loop src words best i (zlen t) rest buf = Ret (inr (zlen text)) buf' /\ holds text 46 buf'.
Proof.
  induction rest as [|w rest IH]; intros i t buf Hw Hh Hroom; cbn [format_loop text_loop] in *.
  { exists buf. cbn zeta. by rewrite app_nil_r. }
  inversion_clear Hw as [|? ? Hw1 Hwr]. destruct (in_run best i).
  - destruct (i =? base best); cbn [app] in *; [|by apply IH].
    rewrite zlen_cons in Hroom. pose proof (zlen_nonneg (text_loop (dotted a b c d) words best (i + 1) rest)).
    destruct (put_holds t 46 buf chr_colon Hh ltac:(lia)) as (b1 & E & Hh1).
    rewrite (bind_Ret _ _ _ _ _ E). destruct (IH (i + 1) (t ++ [chr_colon]) b1 Hwr Hh1) as (b2 & E2 & Hh2).
    { rewrite zlen_app. change (zlen [chr_colon]) with 1. lia. }
    exists b2. rewrite zlen_app in E2. change (zlen [chr_colon]) with 1 in E2. cbn zeta in *.
    rewrite <- app_assoc in E2, Hh2. done.
  - set (colon := if i =? 0 then [] else [chr_colon]) in *.
    assert (Hcol : exists b1, (if negb (i =? 0) then put (zlen t) chr_colon ;;! ret (zlen t + 1)
                               else ret (zlen t)) buf = Ret (zlen (t ++ colon)) b1 /\ holds (t ++ colon) 46 b1).
    { subst colon. rewrite zlen_app in Hroom. destruct (i =? 0); cbn [negb].
      - exists buf. by rewrite !app_nil_r.
      - change (zlen [chr_colon]) with 1 in Hroom. pose proof (zlen_nonneg
          (if embeds_ipv4 words best i then dotted a b c d
           else hex w ++ text_loop (dotted a b c d) words best (i + 1) rest)).
        destruct (put_holds t 46 buf chr_colon Hh ltac:(lia)) as (b1 & E & Hh1).
        exists b1. rewrite (bind_Ret _ _ _ _ _ E), zlen_app. done. }
    destruct Hcol as (b1 & E & Hh1). rewrite (bind_Ret _ _ _ _ _ E). rewrite app_assoc.
    rewrite zlen_app, Z.add_assoc, <- zlen_app in Hroom. set (t1 := t ++ colon) in *.
    destruct (embeds_ipv4 words best i).
    + rewrite Hsrc. destruct (ntop4_holds a b c d more t1 46 b1 Ha Hb Hc Hd Hh1 Hroom) as (b2 & E2 & Hh2 & E3).
      change (Z.of_nat UV__INET6_ADDRSTRLEN) with 46. rewrite (bind_Ret _ _ _ _ _ E2). cbn [Z.eqb negb].
      rewrite (bind_Ret _ _ _ _ _ E3). exists b2. cbn zeta. rewrite zlen_app. split; [done|].
      rewrite app_assoc in Hh2. by apply holds_prefix in Hh2.
    + rewrite zlen_app in Hroom.
      pose proof (zlen_nonneg (text_loop (dotted a b c d) words best (i + 1) rest)).
      destruct (sprintf_holds t1 46 b1 (hex w) Hh1 ltac:(lia)) as (b2 & E2 & Hh2).
      rewrite (bind_Ret _ _ _ _ _ E2), app_assoc, <- zlen_app. apply IH; [done|done|].
      rewrite zlen_app. lia.
Qed.

End Format.

Lemma text_loop_le d4 words : zlen (text_loop d4 words (best_run words) 0 words) <= zlen (text6 d4 words).
Proof.
  unfold text6. rewrite zlen_app. pose proof (zlen_nonneg
    (if negb (base (best_run words) =? -1) && (base (best_run words) + len (best_run words) =? 8)
     then [chr_colon] else [])). lia.
Qed.

(** Eight words, and their text with its NUL in a buffer of 46. *)
Lemma format6_run src words a b c d more :
  zdrop 12 src = a :: b :: c :: d :: more ->
  is_byte a -> is_byte b -> is_byte c -> is_byte d -> zlen words = 8 -> Forall is_word words ->
  exists n buf, format6 src words (undef UV__INET6_ADDRSTRLEN) = Ret (inr n) buf /\
    exists rest, buf = (Some <$> text6 (dotted a b c d) words ++ [0]) ++ rest.
Proof.
  intros Hsrc Ha Hb Hc Hd H8 Hw. pose proof (dotted_len a b c d Ha Hb Hc Hd) as Hdl.
  destruct (text6_facts (dotted a b c d) words H8 Hw) as [_ H39];
    [by apply dotted_chars|lia|].
  pose proof (text_loop_le (dotted a b c d) words) as Hle.
  destruct (format_loop_run src words (best_run words) a b c d more Hsrc Ha Hb Hc Hd words 0 []
              (undef UV__INET6_ADDRSTRLEN) Hw (holds_undef 46)) as (b1 & E1 & Hh1); [rewrite zlen_nil; lia|].
  cbn zeta in E1, Hh1. cbn [app] in E1, Hh1. change (zlen (@nil Z)) with 0 in E1.
  unfold format6. rewrite (bind_Ret _ _ _ _ _ E1). unfold text6 in *.
  set (t := text_loop (dotted a b c d) words (best_run words) 0 words) in *.
  destruct (negb (base (best_run words) =? -1) && (base (best_run words) + len (best_run words) =? 8)).
  - destruct (put_holds t 46 b1 chr_colon Hh1 ltac:(lia)) as (b2 & E2 & Hh2).
    rewrite bind_assoc, (bind_Ret _ _ _ _ _ E2), bind_ret.
    replace (zlen t + 1) with (zlen (t ++ [chr_colon])) by (rewrite zlen_app; done).
    destruct (put_holds _ 46 b2 0 Hh2) as (b3 & E3 & Hh3); [rewrite zlen_app; change (zlen [chr_colon]) with 1; lia|].
    rewrite (bind_Ret _ _ _ _ _ E3). eexists _, b3. split; [done|]. apply Hh3.
  - rewrite app_nil_r in *. rewrite bind_ret.
    destruct (put_holds t 46 b1 0 Hh1 ltac:(lia)) as (b3 & E3 & Hh3).
    rewrite (bind_Ret _ _ _ _ _ E3). eexists _, b3. split; [done|]. apply Hh3.
Qed.

(** ** The whole of inet_ntop6 *)

(** The eight words of sixteen bytes. *)
Fixpoint words_of (src : list Z) : list Z :=
  match src with
  | hi :: lo :: r => hi * 256 + lo :: words_of r
  | _ => []
  end.

Lemma word_or hi lo : is_byte hi -> is_byte lo ->
  Z.lor (Z.lor 0 (u32 (Z.shiftl hi 8))) (u32 (Z.shiftl lo 0)) = hi * 256 + lo.
Proof.
  unfold is_byte. intros. rewrite Z.lor_0_l, Z.shiftl_0_r, Z.shiftl_mul_pow2 by lia.
  rewrite !wrap_small by lia. rewrite Z.lor_comm, <- Z.shiftl_mul_pow2 by lia.
  rewrite lor_shiftl_add by lia. lia.
Qed.

Lemma words_loop_spec r : forall i done words,
  length r = (2 * length words)%nat -> i = (2 * length done)%nat -> bytes_ok r -> Forall (eq 0) words ->
  words_loop i r (done ++ words) = done ++ words_of r.
Proof.
  intros i done words. revert r i done. induction words as [|w words IH]; intros r i done Hl Hi Hok Hz.
  { by destruct r. }
  destruct r as [|hi [|lo r]]; cbn [length] in Hl; try lia.
  inversion_clear Hok as [|? ? Hhi Hok']. inversion_clear Hok' as [|? ? Hlo Hokr].
  inversion_clear Hz as [|? ? H0 Hz']. subst w.
  assert (Hhalf : (i / 2 = length done /\ S i / 2 = length done)%nat).
  { subst i. split; [|replace (S (2 * length done)) with (1 + length done * 2)%nat by lia];
      [rewrite Nat.mul_comm; by apply Nat.div_mul|by rewrite Nat.div_add]. }
  cbn [words_loop words_of]. destruct Hhalf as [-> ->].
  rewrite <- (Nat.add_0_r (length done)), !alter_app_r. cbn [alter list_alter].
  replace (Z.of_nat i mod 2) with 0 by (subst i; Z.to_euclidean_division_equations; lia).
  replace (Z.of_nat (S i) mod 2) with 1 by (subst i; Z.to_euclidean_division_equations; lia).
  change (Z.shiftl (1 - 0) 3) with 8. change (Z.shiftl (1 - 1) 3) with 0.
  rewrite word_or by done.
  replace (done ++ hi * 256 + lo :: words) with ((done ++ [hi * 256 + lo]) ++ words) by (by rewrite <- app_assoc).
  rewrite IH; [by rewrite <- app_assoc|lia|rewrite length_app; cbn [length]; lia|done|done].
Qed.

Lemma words_of_ok n : forall r, length r = (2 * n)%nat -> bytes_ok r ->
  length (words_of r) = n /\ Forall is_word (words_of r).
Proof.
  induction n as [|n IH]; intros r Hl Hok; [by destruct r|].
  destruct r as [|hi [|lo r]]; cbn [length] in Hl; try lia.
  inversion_clear Hok as [|? ? Hhi Hok']. inversion_clear Hok' as [|? ? Hlo Hokr].
  cbn [words_of length]. destruct (IH r ltac:(lia) Hokr) as [-> ?]. split; [done|].
  constructor; [|done]. unfold is_byte, is_word in *. lia.
Qed.

(** The text of an address of sixteen bytes. *)
Definition dotted_tail (addr : list Z) : list Z :=
  match zdrop 12 addr with [a; b; c; d] => dotted a b c d | _ => [] end.
Definition ipv6_text (addr : list Z) : list Z := text6 (dotted_tail addr) (words_of addr).

Lemma split4 {A} (l : list A) : length l = 4%nat -> exists a b c d, l = [a; b; c; d].
Proof. destruct l as [|a [|b [|c [|d [|]]]]]; try done. by exists a, b, c, d. Qed.

Lemma last_four addr : length addr = 16%nat -> bytes_ok addr ->
  exists a b c d, zdrop 12 addr = [a; b; c; d] /\ is_byte a /\ is_byte b /\ is_byte c /\ is_byte d /\
    dotted_tail addr = dotted a b c d.
Proof.
  intros Hl Hok. destruct (split4 (zdrop 12 addr)) as (a & b & c & d & E).
  { unfold zdrop. rewrite length_drop. lia. }
  assert (H4 : bytes_ok [a; b; c; d]).
  { rewrite <- E. unfold zdrop. by apply Forall_drop. }
  exists a, b, c, d. unfold dotted_tail. rewrite E.
  repeat match goal with H : bytes_ok (_ :: _) |- _ => inversion_clear H as [|? ? ? H'] end.
  unfold bytes_ok in *. rewrite !Forall_cons in *. tauto.
Qed.

Lemma ipv6_text_facts addr : length addr = 16%nat -> bytes_ok addr ->
  Forall addr_char (ipv6_text addr) /\ zlen (ipv6_text addr) <= 39.
Proof.
  intros Hl Hok. destruct (last_four addr Hl Hok) as (a & b & c & d & _ & Ha & Hb & Hc & Hd & E).
  unfold ipv6_text. rewrite E. destruct (words_of_ok 8 addr Hl Hok) as [H8 Hw].
  pose proof (dotted_len a b c d Ha Hb Hc Hd). apply text6_facts; [unfold zlen; lia|done| |lia].
  by apply dotted_chars.
Qed.

(** [inet_ntop6] into [size] bytes in the middle of an array. *)
Lemma ntop6_run addr more pre old post :
  length addr = 16%nat -> bytes_ok addr ->
  inet_ntop6 (addr ++ more) (zlen pre) (zlen old) (pre ++ old ++ post) =
  let text := ipv6_text addr in
  if zlen text <? zlen old then
    Ret 0 (pre ++ (Some <$> text ++ [0]) ++ zdrop (zlen text + 1) old ++ post)
  else if zlen old =? 0 then Ret 0 (pre ++ old ++ post)
  else Ret UV_ENOSPC (pre ++ (Some <$> ztake (zlen old - 1) text ++ [0]) ++ post).
Proof.
  intros Hl Hok. cbv zeta. destruct (ipv6_text_facts addr Hl Hok) as [Hnf%addr_nul_free H39].
  destruct (last_four addr Hl Hok) as (a & b & c & d & E12 & Ha & Hb & Hc & Hd & Ed).
  destruct (words_of_ok 8 addr Hl Hok) as [H8 Hw].
  unfold inet_ntop6. change sizeof_in6_addr with 16.
  pose proof (slice_app [] addr more 0 16 eq_refl) as Hs. cbn [app] in Hs.
  rewrite Hs by (unfold zlen; lia). unfold bind at 1. cbn [of_opt].
  pose proof (words_loop_spec addr 0 [] (replicate 8 0)) as Ew. cbn [app] in Ew.
  rewrite Ew by (done || by repeat constructor).
  destruct (format6_run (addr ++ more) (words_of addr) a b c d more) as (n & tmp & E & rest & ->); try done.
  { unfold zdrop in *. rewrite drop_app_le by (change (Z.to_nat 12) with 12%nat; lia). by rewrite E12. }
  { unfold zlen. by rewrite H8. }
  unfold with_local. unfold bind at 1. rewrite E. rewrite <- Ed. fold (ipv6_text addr).
  set (text := ipv6_text addr) in *. unfold uv__strscpy.
  pose proof (strscpy_fits text pre [] old post rest Hnf ltac:(rewrite zlen_nil; lia)) as Hfit.
  pose proof (strscpy_cut old pre [] text post rest Hnf) as Hcut.
  change (zlen (@nil Z)) with 0 in Hfit, Hcut. rewrite !Z.add_0_l in Hfit, Hcut. cbn [fmap list_fmap app] in Hfit, Hcut.
  pose proof (zlen_nonneg text). pose proof (zlen_nonneg old).
  destruct (Z.ltb_spec (zlen text) (zlen old)) as [Hlt|Hge].
  - rewrite (bind_Ret _ _ _ _ _ (Hfit Hlt)). unfold UV_E2BIG. by bool_false (0 + zlen text =? -7).
  - destruct (Z.eqb_spec (zlen old) 0) as [E0|Hne].
    + rewrite E0, (bind_Ret _ _ _ _ _ (strscpy_zero _ _ _ _)). reflexivity.
    + rewrite (bind_Ret _ _ _ _ _ (Hcut Hge ltac:(lia))). reflexivity.
Qed.
