(* ===== verification/UvInetPton.v ===== *)
(** * libuv: the parsers of addresses

    [inet_pton4] accepts four numerals of at most 255 with dots between them;
    [inet_pton6] reads back what [inet_ntop6] writes, and stays in its buffer. *)
From S2P Require Import Prelude Decimal UvInet UvInetText UvInetGroups UvInetNtop.

(** ** Characters *)

Lemma strchr_digits ch : strchr digits ch = if (48 <=? ch) && (ch <=? 57) then Some (ch - 48) else None.
Proof.
  destruct (decide (48 <= ch <= 57)) as [H|H].
  - bool_true (48 <=? ch). bool_true (ch <=? 57). cbn [andb].
    assert (Hc : ch = 48 \/ ch = 49 \/ ch = 50 \/ ch = 51 \/ ch = 52 \/ ch = 53 \/ ch = 54 \/ ch = 55 \/
                 ch = 56 \/ ch = 57) by lia.
    by repeat destruct Hc as [->|Hc]; [..|subst ch].
  - replace ((48 <=? ch) && (ch <=? 57)) with false
      by (symmetry; apply andb_false_iff; rewrite !Z.leb_gt; lia).
    cbn [strchr digits]. by repeat match goal with |- context [?n =? ch] => bool_false (n =? ch) end.
Qed.

Lemma strchr_is_digit ch d : strchr digits ch = Some d -> is_digit ch /\ d = ch - chr_0.
Proof.
  rewrite strchr_digits. unfold is_digit, chr_0, chr_9. do 2 (case_bool; try done). cbn. intros [= <-]. lia.
Qed.

Lemma strchr_digit ch : is_digit ch -> strchr digits ch = Some (ch - chr_0).
Proof.
  unfold is_digit, chr_0, chr_9. intros. rewrite strchr_digits.
  bool_true (48 <=? ch). by bool_true (ch <=? 57).
Qed.

(** ** The octets in progress *)

(** The octets [os] are complete and the next one is [v]. *)
Definition octets_at (os : list Z) (v : Z) (junk : array) : array := (Some <$> os ++ [v]) ++ junk.

Lemma get_octet os v junk : get (zlen os) (octets_at os v junk) = Ret v (octets_at os v junk).
Proof.
  unfold get, octets_at. pose proof (zlen_nonneg os). bool_false (zlen os <? 0). unfold zlen. rewrite Nat2Z.id.
  rewrite fmap_app, <- app_assoc, lookup_app_r by (rewrite length_fmap; lia).
  by rewrite length_fmap, Nat.sub_diag.
Qed.

Lemma put_octet os v junk n : put (zlen os) n (octets_at os v junk) = Ret tt (octets_at os n junk).
Proof.
  unfold put, octets_at. rewrite !fmap_app, <- !app_assoc. apply put_all_at; [by rewrite zlen_fmap|done].
Qed.

Lemma put_next os v o junk :
  put (zlen os + 1) 0 (octets_at os v (o :: junk)) = Ret tt (octets_at (os ++ [v]) 0 junk).
Proof.
  unfold put, octets_at. rewrite (fmap_app _ (os ++ [v])), <- app_assoc.
  apply (put_all_at (Some <$> os ++ [v]) [o] junk); [|done]. by rewrite zlen_fmap, zlen_app.
Qed.

Lemma dec_value_app v l k : dec_value v (l ++ k) = dec_value (dec_value v l) k.
Proof. unfold dec_value. by rewrite foldl_app. Qed.

(** The text of one octet. *)
Definition octet (t : list Z) : Prop := numeral t /\ dec_value 0 t <= 255.

Lemma octet_extend ds c : octet ds -> dec_value 0 ds <> 0 -> is_digit c ->
  dec_value 0 ds * 10 + (c - chr_0) <= 255 -> octet (ds ++ [c]).
Proof.
  intros [(Hd & Hne & Hh) _] Hnz Hc Hv. split; [|by rewrite dec_value_snoc].
  split; [apply Forall_app; split; [done|by constructor]|]. split; [by destruct ds|].
  destruct ds as [|e ds]; [done|]. cbn [head app]. intros He. destruct Hnz. by rewrite Hh.
Qed.

Lemma octet_single c : is_digit c -> octet [c].
Proof.
  unfold is_digit, chr_0, chr_9. intros Hc. split; [split; [by constructor|split; [done|]]|].
  - cbn. by intros [= ->].
  - unfold dec_value, chr_0. cbn [foldl]. lia.
Qed.

Definition dots (more : list (list Z)) : list Z := t ← more; chr_dot :: t.

(** ** The loop *)

(** The digits [ds] of the octet in progress have been read. *)
Definition pton4_from (src os ds : list Z) (junk : array) : out array Z :=
  pton4_loop src (zlen os) (negb (bool_decide (ds = [])))
    (zlen os + if bool_decide (ds = []) then 0 else 1) (octets_at os (dec_value 0 ds) junk).

Lemma pton4_digit src os ds junk c :
  is_digit c -> 0 <= dec_value 0 ds <= 255 -> zlen os < 4 ->
  pton4_from (c :: src) os ds junk =
  if negb (bool_decide (ds = [])) && (dec_value 0 ds =? 0) then Ret UV_EINVAL (octets_at os (dec_value 0 ds) junk)
  else if 255 <? dec_value 0 (ds ++ [c]) then Ret UV_EINVAL (octets_at os (dec_value 0 ds) junk)
  else pton4_from src os (ds ++ [c]) junk.
Proof.
  intros Hc Hv Hos. unfold pton4_from. cbn [pton4_loop]. pose proof Hc as Hc'. unfold is_digit, chr_0, chr_9 in Hc'.
  bool_false (c =? 0). rewrite strchr_digit, (bind_Ret _ _ _ _ _ (get_octet os _ junk)) by done.
  rewrite dec_value_snoc. set (v := dec_value 0 ds) in *.
  rewrite wrap_small by (unfold chr_0; lia). destruct (negb (bool_decide (ds = [])) && (v =? 0)); [done|].
  destruct (255 <? v * 10 + (c - chr_0)); [done|]. rewrite (bind_Ret _ _ _ _ _ (put_octet os v junk _)).
  rewrite (bool_decide_false (ds ++ [c] = [])) by (by destruct ds). cbn [negb].
  case_bool_decide; cbn [negb]; [|done]. bool_false (4 <? zlen os + 0 + 1). by rewrite Z.add_0_r.
Qed.

Lemma pton4_dot src os ds junk : zlen os + 1 + zlen junk = 4 ->
  pton4_from (chr_dot :: src) os ds junk =
  match ds, junk with
  | _ :: _, _ :: junk' => pton4_from src (os ++ [dec_value 0 ds]) [] junk'
  | _, _ => Ret UV_EINVAL (octets_at os (dec_value 0 ds) junk)
  end.
Proof.
  intros Hlen. unfold pton4_from. cbn [pton4_loop]. change (chr_dot =? 0) with false.
  change (strchr digits chr_dot) with (@None Z). rewrite Z.eqb_refl.
  destruct ds as [|d ds]; [done|]. rewrite bool_decide_false by done. cbn [negb andb].
  destruct junk as [|o junk]; rewrite ?zlen_cons, ?zlen_nil in Hlen.
  - by bool_true (zlen os + 1 =? 4).
  - pose proof (zlen_nonneg junk). bool_false (zlen os + 1 =? 4).
    rewrite (bind_Ret _ _ _ _ _ (put_next os _ o junk)), zlen_app. change (zlen [dec_value 0 (d :: ds)]) with 1.
    by rewrite bool_decide_true, Z.add_0_r by done.
Qed.

(** What the loop accepts, and what it leaves. *)
Lemma pton4_sound l : forall os ds junk r,
  nul_free l -> zlen os + 1 + zlen junk = 4 -> ds = [] \/ octet ds ->
  match pton4_from (l ++ 0 :: r) os ds junk with
  | Ret e tmp =>
      e = UV_EINVAL \/
      e = 0 /\ exists ds' more, l = ds' ++ dots more /\ octet (ds ++ ds') /\ Forall octet more /\
        zlen os + 1 + zlen more = 4 /\ tmp = Some <$> os ++ (dec_value 0 <$> (ds ++ ds') :: more)
  | _ => False
  end.
Proof.
  induction l as [|c l IH]; intros os ds junk r Hnf Hlen Hds; pose proof (zlen_nonneg junk).
  - unfold pton4_from. cbn [app pton4_loop Z.eqb]. unfold ret.
    destruct Hds as [->|Hds]; [rewrite bool_decide_true by done|].
    + bool_true (zlen os + 0 <? 4). by left.
    + rewrite bool_decide_false by (intros ->; by destruct Hds as [(_ & ? & _) _]). case_bool; [by left|right].
      split; [done|]. exists [], []. rewrite !(app_nil_r ds). split_and!; try done; [unfold zlen in *; cbn [length]; lia|].
      unfold octets_at. destruct junk as [|o junk]; [by rewrite app_nil_r|]. rewrite zlen_cons in *.
      pose proof (zlen_nonneg junk). lia.
  - inversion_clear Hnf as [|? ? Hc Hnf']. cbn [app].
    assert (Hv : 0 <= dec_value 0 ds <= 255).
    { destruct Hds as [->|[(Hd & _) Hle]]; [by vm_compute|]. split; [by apply dec_value_ge|done]. }
    destruct (strchr digits c) as [d|] eqn:Ec.
    + apply strchr_is_digit in Ec as [Hd ->]. rewrite pton4_digit by (done || lia).
      destruct (negb (bool_decide (ds = [])) && (dec_value 0 ds =? 0)) eqn:Ez; [by left|].
      case_bool; [by left|].
      assert (Hds' : octet (ds ++ [c])).
      { destruct Hds as [->|Hds]; [by apply octet_single|]. rewrite dec_value_snoc in *.
        apply octet_extend; try done. rewrite bool_decide_false in Ez; [|by intros ->; destruct Hds as [(_ & ? & _) _]].
        cbn in Ez. by apply Z.eqb_neq in Ez. }
      specialize (IH os (ds ++ [c]) junk r Hnf' Hlen (or_intror Hds')).
      destruct (pton4_from _ _ _ _); try done. destruct IH as [|(? & ds' & more & -> & Ho & Hm & Hn & ->)]; [by left|right].
      split; [done|]. exists (c :: ds'), more. by rewrite <- (app_assoc ds) in *.
    + destruct (decide (c = chr_dot)) as [->|Hdot].
      * rewrite pton4_dot by done. destruct ds as [|d ds]; [by left|]. destruct Hds as [|Hds]; [done|].
        destruct junk as [|o junk]; [by left|]. rewrite zlen_cons in Hlen.
        specialize (IH (os ++ [dec_value 0 (d :: ds)]) [] junk r Hnf').
        rewrite zlen_app in IH. change (zlen [dec_value 0 (d :: ds)]) with 1 in IH.
        specialize (IH ltac:(lia) (or_introl eq_refl)).
        destruct (pton4_from _ _ _ _); try done. destruct IH as [|(? & ds' & more & -> & Ho & Hm & Hn & ->)]; [by left|right].
        split; [done|]. exists [], (ds' :: more). rewrite zlen_cons. cbn [app] in *. rewrite app_nil_r.
        split_and!; try done; [by constructor|lia|]. by rewrite <- app_assoc.
      * unfold pton4_from. cbn [pton4_loop]. bool_false (c =? 0). rewrite Ec. bool_false (c =? chr_dot). by left.
Qed.

(** The loop reads the rest [t] of an octet. *)
Lemma pton4_octet t : forall src os ds junk,
  octet (ds ++ t) -> zlen os < 4 -> pton4_from (t ++ src) os ds junk = pton4_from src os (ds ++ t) junk.
Proof.
  induction t as [|c t IH]; intros src os ds junk Ho Hos; [by rewrite app_nil_r|].
  replace (ds ++ c :: t) with ((ds ++ [c]) ++ t) in * by (by rewrite <- app_assoc).
  destruct Ho as [(Hd & Hne & Hh) Hv].
  pose proof Hd as Hd'. apply Forall_app in Hd' as [[Hdd Hc]%Forall_app Ht]. inversion_clear Hc as [|? ? Hc' _].
  assert (Hle : dec_value 0 (ds ++ [c]) <= 255).
  { etrans; [|exact Hv]. rewrite (dec_value_app _ (ds ++ [c]) t). apply dec_value_ge; [done|].
    apply (dec_value_ge (ds ++ [c])); [apply Forall_app; split; [done|by constructor]|done]. }
  pose proof (dec_value_ge ds 0 Hdd ltac:(lia)) as Hds0.
  assert (dec_value 0 ds <= 255).
  { rewrite dec_value_snoc in Hle. unfold is_digit, chr_0, chr_9 in *. lia. }
  cbn [app]. rewrite pton4_digit by (done || lia).
  replace (negb (bool_decide (ds = [])) && (dec_value 0 ds =? 0)) with false.
  2: { symmetry. case_bool_decide; [done|]. cbn [negb andb]. apply Z.eqb_neq.
       destruct ds as [|e ds]; [done|]. cbn [app head] in Hh.
       destruct (decide (e = chr_0)) as [->|He]; [exfalso; specialize (Hh eq_refl); by destruct ds|].
       inversion_clear Hdd as [|? ? He' Hds']. unfold is_digit in He'.
       pose proof (dec_value_ge ds (0 * 10 + (e - chr_0)) Hds' ltac:(lia)). unfold dec_value in *. cbn [foldl]. lia. }
  bool_false (255 <? dec_value 0 (ds ++ [c])). rewrite IH by done. by rewrite <- app_assoc.
Qed.

(** ** The whole of inet_pton4 *)

Definition is_addr4 (addr : list Z) : Prop := length addr = 4%nat /\ bytes_ok addr.
(** The text of an address of four bytes. *)
Definition ipv4_text (addr : list Z) : list Z :=
  match addr with [a; b; c; d] => dotted a b c d | _ => [] end.

Lemma octet_decimal v : is_byte v -> octet (decimal v) /\ dec_value 0 (decimal v) = v.
Proof.
  unfold is_byte. intros Hv. destruct (decimal_numeral v ltac:(lia)) as [Hn E].
  split; [split; [done|lia]|done].
Qed.

Lemma octet_text t : octet t -> is_byte (dec_value 0 t) /\ t = decimal (dec_value 0 t).
Proof.
  intros [Hn Hv]. assert (0 <= dec_value 0 t) by (destruct Hn as [Hd _]; by apply dec_value_ge).
  split; [unfold is_byte; lia|]. symmetry. apply decimal_of_numeral; [done|].
  change (2 ^ 64) with 18446744073709551616. lia.
Qed.

Lemma copy_local_run pre old post l :
  zlen old = zlen l -> copy_local (zlen pre) (Some <$> l) (pre ++ old ++ post) = Ret tt (pre ++ (Some <$> l) ++ post).
Proof.
  intros Hl. unfold copy_local. replace (mapM id (Some <$> l)) with (Some l); [by apply put_all_at|].
  symmetry. clear. induction l as [|x l IH]; [done|]. cbn. cbn in IH. by rewrite IH.
Qed.

Lemma pton4_octets more : forall os t junk r,
  octet t -> Forall octet more -> zlen os + 1 + zlen more = 4 -> zlen junk = zlen more ->
  pton4_from (t ++ dots more ++ 0 :: r) os [] junk = Ret 0 (Some <$> os ++ (dec_value 0 <$> t :: more)).
Proof.
  induction more as [|m more IH]; intros os t junk r Ht Hmore Hlen Hj;
    pose proof (zlen_nonneg os); (destruct t as [|x t]; [by destruct Ht as [(_ & ? & _) _]|]).
  - rewrite pton4_octet by (done || (rewrite zlen_nil in Hlen; lia)). cbn [dots mbind list_bind app].
    unfold pton4_from. rewrite zlen_nil in Hlen. cbn [pton4_loop Z.eqb]. rewrite bool_decide_false by done.
    bool_false (zlen os + 1 <? 4). unfold octets_at. destruct junk as [|o junk]; [by rewrite app_nil_r|].
    rewrite zlen_cons, zlen_nil in Hj. pose proof (zlen_nonneg junk). lia.
  - rewrite zlen_cons in *. pose proof (zlen_nonneg more). inversion_clear Hmore as [|? ? Hm Hmore'].
    rewrite pton4_octet by (done || lia). change (dots (m :: more)) with ((chr_dot :: m) ++ dots more).
    rewrite <- app_assoc. cbn [app]. rewrite pton4_dot by lia.
    destruct junk as [|o junk]; [rewrite zlen_nil in Hj; lia|]. rewrite zlen_cons in Hj.
    rewrite IH by (try done; rewrite ?zlen_app; change (zlen [dec_value 0 (x :: t)]) with 1; lia).
    by rewrite <- app_assoc.
Qed.

Lemma pton4_accepts addr r : is_addr4 addr ->
  pton4_from (ipv4_text addr ++ 0 :: r) [] [] (undef 3) = Ret 0 (Some <$> addr).
Proof.
  intros [Hl Hok]. destruct addr as [|a [|b [|c [|d [|]]]]]; try done. unfold bytes_ok in Hok.
  rewrite !Forall_cons in Hok. destruct Hok as (Ha & Hb & Hc & Hd & _).
  destruct (octet_decimal a Ha) as [Oa Ea], (octet_decimal b Hb) as [Ob Eb],
    (octet_decimal c Hc) as [Oc Ec], (octet_decimal d Hd) as [Od Ed].
  pose proof (pton4_octets [decimal b; decimal c; decimal d] [] (decimal a) (undef 3) r Oa
                ltac:(repeat apply Forall_cons_2; done || apply Forall_nil_2) eq_refl eq_refl) as H.
  cbn [fmap list_fmap app] in H. rewrite Ea, Eb, Ec, Ed in H. etrans; [|exact H]. f_equal.
  unfold ipv4_text, dotted, dots. cbn [mbind list_bind]. rewrite <- ?app_assoc. cbn [app]. by rewrite <- ?app_assoc.
Qed.

(** [inet_pton4] at place [zlen pre] of an array. *)
Lemma pton4_run l r pre old post :
  nul_free l -> zlen old = 4 ->
  (exists addr, is_addr4 addr /\ l = ipv4_text addr /\
     inet_pton4 (l ++ 0 :: r) (zlen pre) (pre ++ old ++ post) = Ret 0 (pre ++ (Some <$> addr) ++ post)) \/
  (~ (exists addr, is_addr4 addr /\ l = ipv4_text addr)) /\
     inet_pton4 (l ++ 0 :: r) (zlen pre) (pre ++ old ++ post) = Ret UV_EINVAL (pre ++ old ++ post).
Proof.
  intros Hnf Hold. pose proof (pton4_sound l [] [] (undef 3) r Hnf eq_refl (or_introl eq_refl)) as H.
  assert (Hrun : forall e tmp, pton4_from (l ++ 0 :: r) [] [] (undef 3) = Ret e tmp ->
    inet_pton4 (l ++ 0 :: r) (zlen pre) (pre ++ old ++ post) =
    (if negb (e =? 0) then ret e else copy_local (zlen pre) tmp ;;! ret 0) (pre ++ old ++ post)).
  { intros e tmp E. unfold inet_pton4, with_local. unfold bind at 1.
    assert (E0 : put 0 0 (undef 4) = Ret tt (octets_at [] 0 (undef 3))) by reflexivity.
    rewrite (bind_Ret _ _ _ _ _ E0).
    change (pton4_loop (l ++ 0 :: r) 0 false 0 (octets_at [] 0 (undef 3)))
      with (pton4_from (l ++ 0 :: r) [] [] (undef 3)). by rewrite E. }
  destruct (pton4_from (l ++ 0 :: r) [] [] (undef 3)) as [e tmp| | |] eqn:E; try done.
  rewrite (Hrun _ _ eq_refl). destruct H as [->|(-> & ds & more & El & Ho & Hm & Hlen & Et)].
  - right. split; [|done]. intros (addr & Ha & ->). rewrite pton4_accepts in E by done. done.
  - left. cbn [app] in *. apply octet_text in Ho as [Hb Ed].
    assert (Hmore : more = decimal <$> (dec_value 0 <$> more) /\ bytes_ok (dec_value 0 <$> more)).
    { clear -Hm. induction Hm as [|t more Ht _ [IH1 IH2]]; [by split; [|constructor]|].
      apply octet_text in Ht as [Hb Et]. rewrite !fmap_cons. split; [by rewrite <- Et, <- IH1|by constructor]. }
    destruct Hmore as [Em Hbm]. exists (dec_value 0 ds :: (dec_value 0 <$> more)).
    assert (H4 : is_addr4 (dec_value 0 ds :: (dec_value 0 <$> more))).
    { split; [|by constructor]. cbn [length]. rewrite length_fmap. unfold zlen in Hlen. cbn [length] in Hlen. lia. }
    split; [done|]. split.
    + destruct H4 as [H4 _]. rewrite Em, Ed in El. cbn [length] in H4.
      destruct (dec_value 0 <$> more) as [|b [|c [|d [|]]]]; try done.
      rewrite El. cbn. unfold dotted. by rewrite <- ?app_assoc, ?app_nil_r.
    + cbn [Z.eqb negb]. rewrite Et.
      rewrite (bind_Ret _ _ _ _ _ (copy_local_run pre old post (dec_value 0 ds :: (dec_value 0 <$> more))
        ltac:(rewrite Hold; destruct H4 as [H4 _]; unfold zlen; by rewrite H4))). done.
Qed.

Lemma ipv4_text_inj addr addr' : is_addr4 addr -> is_addr4 addr' -> ipv4_text addr = ipv4_text addr' -> addr = addr'.
Proof.
  intros Ha Ha' E. pose proof (pton4_accepts addr [] Ha) as H. rewrite E, pton4_accepts in H by done.
  injection H as H. symmetry. by apply (inj (fmap (M:=list) Some)) in H.
Qed.


(** * libuv: the parser of IPv6 addresses

    [inet_pton6] on the texts that [inet_ntop6] builds, and on any text. *)

(** ** Hexadecimal digits *)

Lemma xdigit_hex d : 0 <= d < 16 -> xdigit (hex_char d) = Some d /\ hex_char d <> chr_colon /\ hex_char d <> 0.
Proof.
  intros Hd.
  assert (H : d = 0 \/ d = 1 \/ d = 2 \/ d = 3 \/ d = 4 \/ d = 5 \/ d = 6 \/ d = 7 \/ d = 8 \/ d = 9 \/
              d = 10 \/ d = 11 \/ d = 12 \/ d = 13 \/ d = 14 \/ d = 15) by lia.
  by repeat destruct H as [->|H]; [..|subst d].
Qed.

Lemma xdigit_digit c : is_digit c -> exists d, xdigit c = Some d.
Proof.
  unfold is_digit, chr_0, chr_9. intros Hd. exists (c - 48).
  assert (H : c = 48 \/ c = 49 \/ c = 50 \/ c = 51 \/ c = 52 \/ c = 53 \/ c = 54 \/ c = 55 \/ c = 56 \/ c = 57) by lia.
  by repeat destruct H as [->|H]; [..|subst c].
Qed.

(** ** The bytes stored so far *)

(** The sixteen bytes of [tmp] when [out] has been stored. *)
Definition six (out : list Z) : array := Some <$> out ++ replicate (16 - length out)%nat 0.

(** The two bytes that [put_group] stores for a value. *)
Definition group (v : Z) : list Z := [Z.land (u8 (Z.shiftr v 8)) 0xff; Z.land (u8 v) 0xff].
Definition groups (ws : list Z) : list Z := w ← ws; group w.

Lemma put_six out v : zlen out < 16 -> put (zlen out) v (six out) = Ret tt (six (out ++ [v])).
Proof.
  intros Hn. unfold six. unfold zlen in Hn. rewrite length_app. cbn [length].
  replace (16 - length out)%nat with (S (16 - (length out + 1)))%nat by lia. cbn [replicate].
  rewrite !fmap_app, <- app_assoc. apply (put_all_at (Some <$> out) [Some 0]); [by rewrite zlen_fmap|done].
Qed.

Lemma put_group_run s out : p_tp s = zlen out ->
  put_group s (six out) =
  if 16 <? zlen out + 2 then Ret None (six out)
  else Ret (Some (zlen out + 2)) (six (out ++ group (p_val s))).
Proof.
  intros Hp. unfold put_group, sizeof_in6_addr. rewrite Hp. case_bool; [done|].
  unfold group. set (hi := Z.land (u8 (Z.shiftr (p_val s) 8)) 255). set (lo := Z.land (u8 (p_val s)) 255).
  rewrite (bind_Ret _ _ _ _ _ (put_six out hi ltac:(lia))).
  assert (E1 : zlen (out ++ [hi]) = zlen out + 1) by (by rewrite zlen_app).
  rewrite <- E1, (bind_Ret _ _ _ _ _ (put_six (out ++ [hi]) lo ltac:(lia))). by rewrite <- app_assoc.
Qed.

Lemma groups_app l r : groups (l ++ r) = groups l ++ groups r.
Proof. apply bind_app. Qed.
Lemma zlen_groups ws : zlen (groups ws) = 2 * zlen ws.
Proof.
  induction ws as [|w ws IH]; [done|]. change (groups (w :: ws)) with (group w ++ groups ws).
  rewrite zlen_app, IH, zlen_cons. change (zlen (group w)) with 2. lia.
Qed.

(** ** Groups *)

Lemma loop_hex_digit d src cur s a : 0 <= d < 16 -> p_seen s < 4 -> 0 <= p_val s < 2 ^ 28 ->
  pton6_loop (hex_char d :: src) cur s a =
  pton6_loop src cur (Pton6 (p_tp s) (p_colonp s) (p_seen s + 1) (p_val s * 16 + d)) a.
Proof.
  intros Hd Hs Hv. cbn [pton6_loop]. destruct (xdigit_hex d Hd) as (-> & _ & Hnz).
  bool_false (hex_char d =? 0). bool_false (4 <? p_seen s + 1). do 2 f_equal.
  rewrite wrap_small; [|rewrite Z.shiftl_mul_pow2 by lia; change (2 ^ 28) with 268435456 in Hv; lia].
  rewrite Z.lor_comm, lor_shiftl_add by lia. lia.
Qed.

Lemma loop_hex_digits k : forall m v src cur tp cp a,
  0 <= v < 16 ^ Z.of_nat m -> (1 <= m <= k)%nat -> (m <= 4)%nat ->
  exists n, 1 <= n <= Z.of_nat m /\
    pton6_loop (hex_digits k v ++ src) cur (Pton6 tp cp 0 0) a = pton6_loop src cur (Pton6 tp cp n v) a.
Proof.
  induction k as [|k IH]; intros m v src cur tp cp a Hv Hmk Hm; [lia|]. cbn [hex_digits].
  assert (Hbig : 16 ^ Z.of_nat m <= 16 ^ 4) by (apply Z.pow_le_mono_r; lia). change (16 ^ 4) with 65536 in Hbig.
  assert (Hv' : v < 65536) by lia. clear Hbig.
  case_bool.
  - exists 1. split; [lia|]. cbn [app]. rewrite loop_hex_digit; [done|lia|cbn; lia|done].
  - destruct m as [|[|m]]; [lia|cbn in Hv; lia|].
    replace (Z.of_nat (S (S m))) with (1 + Z.of_nat (S m)) in Hv by lia. rewrite Z.pow_add_r, Z.pow_1_r in Hv by lia.
    destruct (IH (S m) (v / 16) (hex_char (v mod 16) :: src) cur tp cp a) as (n & Hn & E).
    { split; [apply Z.div_pos; lia|apply Z.div_lt_upper_bound; lia]. }
    { lia. } { lia. }
    exists (n + 1). split; [lia|]. rewrite <- app_assoc. cbn [app]. rewrite E.
    rewrite loop_hex_digit; cbn [p_seen p_val p_tp p_colonp].
    + do 2 f_equal. pose proof (Z.div_mod v 16). lia.
    + apply Z.mod_pos_bound. lia.
    + lia.
    + change (2 ^ 28) with 268435456. Z.to_euclidean_division_equations. lia.
Qed.

Lemma loop_hex w src cur tp cp a : is_word w ->
  exists n, 1 <= n <= 4 /\
    pton6_loop (hex w ++ src) cur (Pton6 tp cp 0 0) a = pton6_loop src cur (Pton6 tp cp n w) a.
Proof. intros Hw. apply (loop_hex_digits 8 4); [exact Hw|lia|lia]. Qed.

(** A colon after a group, with something after it. *)
Lemma loop_colon c src cur out cp n w : c <> 0 -> n <> 0 -> zlen out + 2 <= 16 ->
  pton6_loop (chr_colon :: c :: src) cur (Pton6 (zlen out) cp n w) (six out) =
  pton6_loop (c :: src) (c :: src) (Pton6 (zlen (out ++ group w)) cp 0 0) (six (out ++ group w)).
Proof.
  intros Hc Hn Hroom. remember (c :: src) as rest eqn:Er. cbn [pton6_loop]. change (chr_colon =? 0) with false.
  change (xdigit chr_colon) with (@None Z). rewrite Z.eqb_refl. cbn [p_seen]. bool_false (n =? 0).
  unfold bind at 1. rewrite Er at 1. cbn [head of_opt]. bool_false (c =? 0).
  rewrite (bind_Ret _ _ _ (Some (zlen out + 2)) (six (out ++ group w))).
  - rewrite zlen_app. done.
  - rewrite (put_group_run (Pton6 (zlen out) cp n w) out eq_refl). by bool_false (16 <? zlen out + 2).
Qed.

Lemma loop_double_colon src cur out :
  pton6_loop (chr_colon :: src) cur (Pton6 (zlen out) None 0 0) (six out) =
  pton6_loop src src (Pton6 (zlen out) (Some (zlen out)) 0 0) (six out).
Proof. reflexivity. Qed.

Lemma hex_head w : is_word w -> exists c t, hex w = c :: t /\ c <> 0 /\ c <> chr_colon.
Proof.
  intros Hw. assert (H : forall k v, 0 <= v -> exists d t, hex_digits (S k) v = hex_char d :: t /\ 0 <= d < 16).
  { induction k as [|k IH]; intros v Hv; [cbn [hex_digits]; case_bool|].
    - by exists v, [].
    - exists (v mod 16), []. split; [done|]. apply Z.mod_pos_bound. lia.
    - destruct (IH (v / 16)) as (d & t & E & Hd); [apply Z.div_pos; lia|].
      change (hex_digits (S (S k)) v)
        with (if v <? 16 then [hex_char v] else hex_digits (S k) (v / 16) ++ [hex_char (v mod 16)]).
      case_bool; [by exists v, []|]. rewrite E. by eexists d, _. }
  destruct (H 7%nat w) as (d & t & E & Hd); [unfold is_word in Hw; lia|].
  destruct (xdigit_hex d Hd) as (_ & ? & ?). exists (hex_char d), t. by rewrite <- E.
Qed.

(** The groups after the first: all but the last are stored. *)
Lemma loop_tails ws : forall w n src cur out cp,
  Forall is_word ws -> n <> 0 -> 1 <= n <= 4 -> zlen out + 2 * zlen ws <= 16 ->
  exists init z n' cur', w :: ws = init ++ [z] /\ 1 <= n' <= 4 /\
    pton6_loop (tails ws ++ src) cur (Pton6 (zlen out) cp n w) (six out) =
    pton6_loop src cur' (Pton6 (zlen (out ++ groups init)) cp n' z) (six (out ++ groups init)).
Proof.
  induction ws as [|w' ws IH]; intros w n src cur out cp Hws Hn Hn4 Hroom.
  - exists [], w, n, cur. cbn [groups mbind list_bind]. by rewrite app_nil_r.
  - inversion_clear Hws as [|? ? Hw' Hws']. rewrite zlen_cons in Hroom. pose proof (zlen_nonneg ws).
    change (tails (w' :: ws)) with ((chr_colon :: hex w') ++ tails ws). rewrite <- app_assoc. cbn [app].
    destruct (hex_head w' Hw') as (c & t & Ec & Hc0 & _).
    destruct (loop_hex w' (tails ws ++ src) (hex w' ++ tails ws ++ src) (zlen (out ++ group w)) cp
                (six (out ++ group w)) Hw') as (n1 & Hn1 & E1).
    destruct (IH w' n1 src (hex w' ++ tails ws ++ src) (out ++ group w) cp Hws' ltac:(lia) Hn1)
      as (init & z & n' & cur' & Ei & Hn' & E2).
    { rewrite zlen_app. change (zlen (group w)) with 2. lia. }
    exists (w :: init), z, n', cur'. split; [by rewrite Ei|]. split; [done|].
    change (groups (w :: init)) with (group w ++ groups init). rewrite (app_assoc out), <- E2, <- E1.
    rewrite Ec. cbn [app]. by apply loop_colon; try lia.
Qed.

(** The groups of a non-empty list. *)
Lemma loop_join ws src cur out cp :
  Forall is_word ws -> ws <> [] -> zlen out + 2 * zlen ws <= 18 ->
  exists init z n cur', ws = init ++ [z] /\ 1 <= n <= 4 /\
    pton6_loop (join ws ++ src) cur (Pton6 (zlen out) cp 0 0) (six out) =
    pton6_loop src cur' (Pton6 (zlen (out ++ groups init)) cp n z) (six (out ++ groups init)).
Proof.
  intros Hws Hne Hroom. destruct ws as [|w ws]; [done|]. inversion_clear Hws as [|? ? Hw Hws'].
  rewrite zlen_cons in Hroom. cbn [join]. rewrite <- app_assoc.
  destruct (loop_hex w (tails ws ++ src) cur (zlen out) cp (six out) Hw) as (n & Hn & ->).
  apply loop_tails; [done|lia|done|lia].
Qed.

(** ** The end *)

Lemma get_some pre x post i : i = zlen pre -> get i (Some <$> pre ++ x :: post) = Ret x (Some <$> pre ++ x :: post).
Proof.
  intros ->. unfold get. pose proof (zlen_nonneg pre). bool_false (zlen pre <? 0).
  unfold zlen. rewrite Nat2Z.id, fmap_app, lookup_app_r by (by rewrite length_fmap).
  by rewrite length_fmap, Nat.sub_diag.
Qed.

Lemma put_some pre x post i v : i = zlen pre ->
  put i v (Some <$> pre ++ x :: post) = Ret tt (Some <$> pre ++ v :: post).
Proof.
  intros ->. unfold put. rewrite !fmap_app. 
  exact (put_all_at (fmap (M:=list) Some pre) [Some x] (fmap (M:=list) Some post) _ [v] (eq_sym (zlen_fmap _ _)) eq_refl).
Qed.

(** The bytes [R] after the double colon move to the end, one by one. *)
Lemma shift_run L z : (1 <= z)%nat -> forall k R T i n,
  length R = k -> zlen L + zlen R + Z.of_nat z + zlen T = 16 -> i = zlen T + 1 -> n = zlen R + zlen T ->
  shift_loop k i (zlen L) n (Some <$> L ++ R ++ replicate z 0 ++ T) =
  Ret tt (Some <$> L ++ replicate z 0 ++ R ++ T).
Proof.
  intros Hz. destruct z as [|z]; [lia|]. clear Hz. rewrite Nat2Z.inj_succ.
  induction k as [|k IH]; intros R T i n Hk Hlen -> ->.
  { by destruct R. }
  destruct R as [|x R _] using rev_ind; [done|]. rewrite length_app in Hk. cbn [length] in Hk.
  rewrite zlen_app in *. change (zlen [x]) with 1 in *. pose proof (zlen_nonneg T). pose proof (zlen_nonneg R).
  pose proof (zlen_nonneg L). cbn [shift_loop].
  replace (L ++ (R ++ [x]) ++ replicate (S z) 0 ++ T) with ((L ++ R) ++ x :: replicate (S z) 0 ++ T)
    by (by rewrite <- !app_assoc).
  rewrite (bind_Ret _ _ _ _ _ (get_some (L ++ R) x _ (zlen L + (zlen R + 1 + zlen T - (zlen T + 1))) ltac:(rewrite zlen_app; lia))).
  replace ((L ++ R) ++ x :: replicate (S z) 0 ++ T) with ((L ++ R ++ x :: replicate z 0) ++ 0 :: T).
  2: { rewrite replicate_S_end, <- !app_assoc. done. }
  unfold sizeof_in6_addr.
  rewrite (bind_Ret _ _ _ _ _ (put_some (L ++ R ++ x :: replicate z 0) 0 T (16 - (zlen T + 1)) x
             ltac:(rewrite !zlen_app, zlen_cons; unfold zlen in *; rewrite length_replicate; lia))).
  replace ((L ++ R ++ x :: replicate z 0) ++ x :: T) with ((L ++ R) ++ x :: replicate z 0 ++ x :: T)
    by (by rewrite <- !app_assoc).
  rewrite (bind_Ret _ _ _ _ _ (put_some (L ++ R) x _ (zlen L + (zlen R + 1 + zlen T - (zlen T + 1))) 0 ltac:(rewrite zlen_app; lia))).
  replace ((L ++ R) ++ 0 :: replicate z 0 ++ x :: T) with (L ++ R ++ replicate (S z) 0 ++ (x :: T))
    by (by rewrite <- app_assoc).
  replace (zlen R + 1 + zlen T) with (zlen R + zlen (x :: T)) by (rewrite zlen_cons; lia).
  rewrite IH by (rewrite ?zlen_cons; lia). by rewrite <- (app_assoc R).
Qed.

(** The last group is stored first. *)
Lemma finish6_group out cp n w : n <> 0 ->
  finish6 (Pton6 (zlen out) cp n w) (six out) =
  if 16 <? zlen out + 2 then Ret UV_EINVAL (six out)
  else finish6 (Pton6 (zlen (out ++ group w)) cp 0 w) (six (out ++ group w)).
Proof.
  intros Hn. unfold finish6. cbn [p_seen p_tp p_colonp]. bool_false (n =? 0). cbn [negb].
  unfold bind at 1. rewrite (put_group_run (Pton6 (zlen out) cp n w) out eq_refl).
  destruct (Z.ltb_spec 16 (zlen out + 2)); [done|]. rewrite zlen_app. done.
Qed.

Lemma finish6_full out v : zlen out = 16 -> finish6 (Pton6 (zlen out) None 0 v) (six out) = Ret 0 (Some <$> out).
Proof.
  intros Hl. unfold finish6. cbn. unfold sizeof_in6_addr. rewrite Hl. cbn. unfold six, ret.
  unfold zlen in Hl. replace (16 - length out)%nat with 0%nat by lia. by rewrite app_nil_r.
Qed.

Lemma finish6_zeros L R v : zlen (L ++ R) < 16 ->
  finish6 (Pton6 (zlen (L ++ R)) (Some (zlen L)) 0 v) (six (L ++ R)) =
  Ret 0 (Some <$> L ++ replicate (16 - length (L ++ R))%nat 0 ++ R).
Proof.
  intros Hl. unfold finish6. cbn [p_seen p_tp p_colonp]. cbn [Z.eqb negb]. rewrite bind_ret.
  unfold sizeof_in6_addr at 1. bool_false (zlen (L ++ R) =? 16).
  pose proof (shift_run L (16 - length (L ++ R))%nat) as Hs. pose proof (length_app L R) as Ha.
  unfold zlen in Hl. specialize (Hs ltac:(lia) (length R) R [] 1 (zlen (L ++ R) - zlen L) eq_refl).
  rewrite !app_nil_r in Hs. unfold zlen in Hs.
  specialize (Hs ltac:(cbn [length]; lia) ltac:(cbn [length]; lia) ltac:(cbn [length]; lia)).
  replace (Z.to_nat (zlen (L ++ R) - zlen L)) with (length R) by (unfold zlen; lia).
  unfold six. rewrite <- app_assoc. rewrite bind_assoc. unfold zlen. rewrite (bind_Ret _ _ _ _ _ Hs). reflexivity.
Qed.

(** Whatever the text, the end is an error or sixteen bytes. *)
Lemma finish6_safe out cp n v : zlen out <= 16 -> (forall c, cp = Some c -> 0 <= c <= zlen out) ->
  match finish6 (Pton6 (zlen out) cp n v) (six out) with
  | Ret e a => e = UV_EINVAL \/ e = 0 /\ exists bytes, length bytes = 16%nat /\ a = Some <$> bytes
  | _ => False
  end.
Proof.
  intros Hout Hcp. assert (H0 : forall out, zlen out <= 16 -> (forall c, cp = Some c -> 0 <= c <= zlen out) ->
    match finish6 (Pton6 (zlen out) cp 0 v) (six out) with
    | Ret e a => e = UV_EINVAL \/ e = 0 /\ exists bytes, length bytes = 16%nat /\ a = Some <$> bytes
    | _ => False
    end).
  { clear. intros out Hout Hcp. destruct cp as [c|].
    - destruct (zsplit out c (Hcp c eq_refl)) as (L & R & -> & <- & _).
      destruct (decide (zlen (L ++ R) = 16)) as [E|Hne].
      + unfold finish6. cbn. rewrite E. by left.
      + rewrite finish6_zeros by lia. right. split; [done|]. eexists. split; [|done].
        rewrite !length_app, length_replicate. unfold zlen in *. rewrite length_app in *. lia.
    - destruct (decide (zlen out = 16)) as [E|Hne].
      + rewrite finish6_full by done. right. split; [done|]. exists out. unfold zlen in E. split; [lia|done].
      + unfold finish6. cbn. unfold sizeof_in6_addr. bool_false (zlen out =? 16). by left. }
  destruct (decide (n = 0)) as [->|Hn]; [by apply H0|]. rewrite finish6_group by done.
  case_bool; [by left|]. apply H0; rewrite zlen_app; change (zlen (group v)) with 2; [lia|].
  intros c Hc. specialize (Hcp c Hc). lia.
Qed.

(** ** The texts of inet_ntop6 *)

Lemma group_word hi lo : is_byte hi -> is_byte lo -> group (hi * 256 + lo) = [hi; lo].
Proof.
  unfold is_byte, group. intros. rewrite !(land_mask_mod _ 8), shiftr_div by lia. unfold wrap.
  rewrite !Z.mod_mod by lia. change (2 ^ 8) with 256. f_equal; [|f_equal]; Z.to_euclidean_division_equations; lia.
Qed.

Lemma groups_words_of n : forall r, length r = (2 * n)%nat -> bytes_ok r -> groups (words_of r) = r.
Proof.
  induction n as [|n IH]; intros r Hl Hok; [by destruct r|].
  destruct r as [|hi [|lo r]]; cbn [length] in Hl; try lia.
  inversion_clear Hok as [|? ? Hhi Hok']. inversion_clear Hok' as [|? ? Hlo Hokr].
  cbn [words_of]. change (groups (hi * 256 + lo :: words_of r)) with (group (hi * 256 + lo) ++ groups (words_of r)).
  rewrite group_word, IH by (done || lia). done.
Qed.

Lemma groups_zeros n : groups (replicate n 0) = replicate (2 * n) 0.
Proof.
  induction n as [|n IH]; [done|]. cbn [replicate]. change (groups (0 :: replicate n 0)) with ([0; 0] ++ groups (replicate n 0)).
  rewrite IH. by replace (2 * S n)%nat with (S (S (2 * n))) by lia.
Qed.

(** The loop and what follows it. *)
Definition finish_loop (r : option pton6) : M array Z :=
  match r with None => ret UV_EINVAL | Some s => finish6 s end.

Lemma parse6_plain c src a : c <> chr_colon ->
  parse6 (c :: src) a = bind (pton6_loop (c :: src) (c :: src) (Pton6 0 None 0 0)) finish_loop a.
Proof. intros Hc. unfold parse6, bind. cbn [head of_opt]. by bool_false (c =? chr_colon). Qed.

Lemma parse6_colons src a :
  parse6 (chr_colon :: chr_colon :: src) a =
  bind (pton6_loop (chr_colon :: src) (chr_colon :: src) (Pton6 0 None 0 0)) finish_loop a.
Proof. reflexivity. Qed.

Lemma loop_nul r cur s a : pton6_loop (0 :: r) cur s a = Ret (Some s) a.
Proof. reflexivity. Qed.

(** After the double colon. *)
Lemma run_right L right r cur : Forall is_word right -> zlen L + 2 * zlen right < 16 ->
  bind (pton6_loop (join right ++ 0 :: r) cur (Pton6 (zlen L) (Some (zlen L)) 0 0)) finish_loop (six L) =
  Ret 0 (Some <$> L ++ replicate (16 - length (L ++ groups right))%nat 0 ++ groups right).
Proof.
  intros Hw Hroom. destruct (decide (right = [])) as [->|Hne].
  - cbn [join app]. rewrite (bind_Ret _ _ _ _ _ (loop_nul _ _ _ _)). cbn [finish_loop groups mbind list_bind].
    pose proof (finish6_zeros L [] 0) as H. rewrite app_nil_r in H. rewrite H by (unfold zlen in *; cbn [length] in Hroom; lia).
    by rewrite !app_nil_r.
  - destruct (loop_join right (0 :: r) cur L (Some (zlen L)) Hw Hne ltac:(lia)) as (init & z & n & cur' & -> & Hn & E).
    unfold bind. rewrite E, loop_nul. cbn [finish_loop].
    rewrite zlen_app in Hroom. change (zlen [z]) with 1 in Hroom.
    rewrite finish6_group by lia. rewrite zlen_app, zlen_groups.
    bool_false (16 <? zlen L + 2 * zlen init + 2).
    rewrite groups_app, <- app_assoc. change (groups [z]) with (group z). apply finish6_zeros.
    rewrite !zlen_app, zlen_groups. change (zlen (group z)) with 2. lia.
Qed.

Lemma join_head w ws : is_word w -> exists c t, join (w :: ws) = c :: t /\ c <> 0 /\ c <> chr_colon.
Proof.
  intros Hw. destruct (hex_head w Hw) as (c & t & E & ? & ?). cbn [join]. rewrite E. by exists c, (t ++ tails ws).
Qed.

Lemma parse_groups ws r : length ws = 8%nat -> Forall is_word ws ->
  parse6 (join ws ++ 0 :: r) (six []) = Ret 0 (Some <$> groups ws).
Proof.
  intros Hl Hw. destruct ws as [|w ws]; [done|]. pose proof (Forall_inv Hw) as Hw1.
  destruct (join_head w ws Hw1) as (c & t & Ec & _ & Hc).
  destruct (loop_join (w :: ws) (0 :: r) (join (w :: ws) ++ 0 :: r) [] None Hw ltac:(done))
    as (init & z & n & cur' & E8 & Hn & E).
  { unfold zlen. rewrite Hl. cbn [length]. lia. }
  rewrite E8 in Hl. rewrite length_app in Hl. cbn [length] in Hl.
  rewrite Ec in E |- *. cbn [app] in *. rewrite parse6_plain by done.
  change (zlen (@nil Z)) with 0 in E. unfold bind. rewrite E, loop_nul. cbn [finish_loop].
  rewrite finish6_group by lia. rewrite zlen_groups.
  assert (H7 : zlen init = 7) by (unfold zlen; lia). bool_false (16 <? 2 * zlen init + 2).
  rewrite E8, groups_app. change (groups [z]) with (group z). apply finish6_full.
  rewrite zlen_app, zlen_groups. change (zlen (group z)) with 2. lia.
Qed.

Lemma parse_double_colon left n right r :
  (length left + n + length right = 8)%nat -> (1 <= n)%nat -> Forall is_word left -> Forall is_word right ->
  parse6 (join left ++ [chr_colon; chr_colon] ++ join right ++ 0 :: r) (six []) =
  Ret 0 (Some <$> groups (left ++ replicate n 0 ++ right)).
Proof.
  intros Hl Hn Hwl Hwr. rewrite !groups_app, groups_zeros.
  assert (Hroom : zlen (groups left) + 2 * zlen right < 16).
  { rewrite zlen_groups. unfold zlen. lia. }
  assert (Hgap : (2 * n = 16 - length (groups left ++ groups right))%nat).
  { pose proof (zlen_groups left). pose proof (zlen_groups right). rewrite length_app. unfold zlen in *. lia. }
  rewrite Hgap. destruct left as [|w left].
  - cbn [join app]. rewrite parse6_colons. unfold bind. rewrite (loop_double_colon _ _ []).
    apply (run_right [] right r _ Hwr Hroom).
  - pose proof (Forall_inv Hwl) as Hw1. destruct (join_head w left Hw1) as (c & t & Ec & _ & Hc).
    set (rest := [chr_colon; chr_colon] ++ join right ++ 0 :: r).
    destruct (loop_join (w :: left) rest (join (w :: left) ++ rest) [] None Hwl ltac:(done))
      as (init & z & n' & cur' & Ei & Hn' & E).
    { rewrite zlen_groups in Hroom. pose proof (zlen_nonneg right). change (zlen (@nil Z)) with 0. lia. }
    rewrite Ec in E |- *. cbn [app] in *. rewrite parse6_plain by done.
    change (zlen (@nil Z)) with 0 in E. unfold bind. rewrite E. rewrite Ei in *.
    rewrite groups_app, zlen_app in Hroom. change (groups [z]) with (group z) in *. change (zlen (group z)) with 2 in Hroom.
    pose proof (zlen_nonneg right). subst rest. cbn [app]. rewrite loop_colon by (done || lia).
    rewrite loop_double_colon. rewrite groups_app in *. change (groups [z]) with (group z) in *.
    apply (run_right (groups init ++ group z) right r); [done|].
    rewrite zlen_app. change (zlen (group z)) with 2. lia.
Qed.

(** ** Embedded IPv4 *)

Lemma loop_digits ds : forall src cur s a, Forall is_digit ds -> p_seen s + zlen ds <= 4 ->
  exists v, pton6_loop (ds ++ src) cur s a =
            pton6_loop src cur (Pton6 (p_tp s) (p_colonp s) (p_seen s + zlen ds) v) a.
Proof.
  induction ds as [|c ds IH]; intros src cur s a Hds Hseen.
  - exists (p_val s). rewrite zlen_nil, Z.add_0_r. by destruct s.
  - inversion_clear Hds as [|? ? Hc Hds']. rewrite zlen_cons in Hseen. pose proof (zlen_nonneg ds).
    destruct (xdigit_digit c Hc) as [d Ed]. unfold is_digit, chr_0 in Hc. cbn [app pton6_loop]. rewrite Ed.
    bool_false (c =? 0). bool_false (4 <? p_seen s + 1).
    destruct (IH src cur (Pton6 (p_tp s) (p_colonp s) (p_seen s + 1) (Z.lor (u32 (Z.shiftl (p_val s) 4)) d)) a Hds')
      as [v E]; [cbn; lia|]. exists v. rewrite E, zlen_cons.
    cbn [p_tp p_colonp p_seen]. do 2 f_equal. lia.
Qed.

Lemma six_room out : zlen out <= 12 ->
  exists old post : array, six out = (Some <$> out) ++ old ++ post /\ zlen old = 4 /\
    forall addr, length addr = 4%nat -> six (out ++ addr) = (Some <$> out) ++ (Some <$> addr) ++ post.
Proof.
  unfold zlen, six. intros Hl.
  exists (Some <$> replicate 4 0 : list (option Z)), (Some <$> replicate (12 - length out)%nat 0 : list (option Z)).
  split; [|split; [done|]].
  - replace (16 - length out)%nat with (4 + (12 - length out))%nat by lia.
    by rewrite replicate_add, !fmap_app.
  - intros addr Ha. rewrite !fmap_app, <- app_assoc, length_app, Ha. do 4 f_equal. lia.
Qed.

(** A dotted address read to its end, from the dot after its first number. *)
Lemma loop_dot src l r out cp n v :
  nul_free l -> zlen out <= 12 ->
  pton6_loop (chr_dot :: src) (l ++ 0 :: r) (Pton6 (zlen out) cp n v) (six out) =
    Ret None (six out) /\ (~ exists addr, is_addr4 addr /\ l = ipv4_text addr) \/
  exists addr, is_addr4 addr /\ l = ipv4_text addr /\
    pton6_loop (chr_dot :: src) (l ++ 0 :: r) (Pton6 (zlen out) cp n v) (six out) =
    Ret (Some (Pton6 (zlen (out ++ addr)) cp 0 v)) (six (out ++ addr)).
Proof.
  intros Hnf Hroom. cbn [pton6_loop]. change (chr_dot =? 0) with false. change (xdigit chr_dot) with (@None Z).
  change (chr_dot =? chr_colon) with false. rewrite Z.eqb_refl. unfold sizeof_in6_addr, sizeof_in_addr.
  cbn [p_tp p_colonp p_seen p_val]. bool_true (zlen out + 4 <=? 16). cbn [andb].
  destruct (six_room out Hroom) as (old & post & E & Hold & Happ).
  destruct (pton4_run l r (Some <$> out) old post Hnf Hold)
    as [(addr & Ha & El & Erun)|[Hno Erun]]; rewrite zlen_fmap, <- E in Erun.
  - right. exists addr. split; [done|]. split; [done|]. rewrite (bind_Ret _ _ _ _ _ Erun). cbn [Z.eqb].
    destruct Ha as [Hl _]. rewrite <- Happ by done. unfold ret. do 3 f_equal.
    rewrite zlen_app. unfold zlen. rewrite Hl. done.
  - left. split; [|done]. by rewrite (bind_Ret _ _ _ _ _ Erun).
Qed.

Lemma loop_dotted addr r out cp :
  is_addr4 addr -> zlen out <= 12 ->
  exists v, pton6_loop (ipv4_text addr ++ 0 :: r) (ipv4_text addr ++ 0 :: r) (Pton6 (zlen out) cp 0 0) (six out) =
            Ret (Some (Pton6 (zlen (out ++ addr)) cp 0 v)) (six (out ++ addr)).
Proof.
  intros Ha Hroom. pose proof Ha as [Hl Hok]. pose proof (pton4_accepts addr r Ha) as Hacc.
  destruct addr as [|a [|b [|c [|d [|]]]]]; try done.
  unfold bytes_ok in Hok. rewrite !Forall_cons in Hok. destruct Hok as (Hba & Hbb & Hbc & Hbd & _).
  assert (Hnf : nul_free (ipv4_text [a; b; c; d])) by (by apply addr_nul_free, dotted_chars).
  assert (Hd : Forall is_digit (decimal a)) by (apply decimal_spec; unfold is_byte in Hba; lia).
  pose proof (decimal_byte_len a Hba) as Hla. set (text := ipv4_text [a; b; c; d]) in *.
  assert (Et : exists t, text = decimal a ++ chr_dot :: t) by (unfold text, ipv4_text, dotted; by eexists).
  destruct Et as [t Et].
  destruct (loop_digits (decimal a) ((chr_dot :: t) ++ 0 :: r) (text ++ 0 :: r) (Pton6 (zlen out) cp 0 0) (six out) Hd)
    as [v E]; [cbn [p_seen]; lia|]. cbn [p_tp p_colonp p_seen app] in E. exists v.
  replace (pton6_loop (text ++ 0 :: r)) with (pton6_loop (decimal a ++ chr_dot :: t ++ 0 :: r))
    by (f_equal; rewrite Et, <- app_assoc; done). rewrite E.
  destruct (loop_dot (t ++ 0 :: r) text r out cp (0 + zlen (decimal a)) v Hnf Hroom) as [[_ Hno]|(addr' & Ha' & El & ->)].
  - destruct Hno. by exists [a; b; c; d].
  - by rewrite (ipv4_text_inj _ _ Ha Ha' El).
Qed.

(** ** Round trip *)

Lemma run_dotted out L v4 r : is_addr4 v4 -> out = L -> zlen L <= 10 ->
  bind (pton6_loop (ipv4_text v4 ++ 0 :: r) (ipv4_text v4 ++ 0 :: r) (Pton6 (zlen L) (Some 0) 0 0)) finish_loop (six L) =
  Ret 0 (Some <$> replicate (16 - length (L ++ v4))%nat 0 ++ L ++ v4).
Proof.
  intros Hv4 -> HL. destruct (loop_dotted v4 r L (Some 0) Hv4 ltac:(lia)) as [v E].
  rewrite (bind_Ret _ _ _ _ _ E). cbn [finish_loop]. apply (finish6_zeros [] (L ++ v4)). cbn [app].
  rewrite zlen_app. destruct Hv4 as [H4 _]. unfold zlen in *. lia.
Qed.

Lemma parse6_text addr r : length addr = 16%nat -> bytes_ok addr ->
  parse6 (ipv6_text addr ++ 0 :: r) (six []) = Ret 0 (Some <$> addr).
Proof.
  intros Hl Hok. destruct (words_of_ok 8 addr Hl Hok) as [H8 Hw]. pose proof (groups_words_of 8 addr Hl Hok) as Hg.
  destruct (last_four addr Hl Hok) as (a & b & c & d & E12 & Ha & Hb & Hc & Hd & Ed).
  assert (Hv4 : is_addr4 [a; b; c; d]) by (split; [done|by repeat apply Forall_cons_2]).
  unfold ipv6_text. rewrite Ed. change (dotted a b c d) with (ipv4_text [a; b; c; d]).
  assert (Hz : zlen (words_of addr) = 8) by (unfold zlen; lia).
  destruct (text6_shape (ipv4_text [a; b; c; d]) (words_of addr) Hz) as [[_ ->]|(left & n & right & E & Hn & _ & _ & ->)].
  { rewrite <- Hg at 2. by apply parse_groups. }
  pose proof Hw as Hw'. rewrite E in Hw', H8. apply Forall_app in Hw' as [Hwl Hwr]. apply Forall_app in Hwr as [_ Hwr].
  rewrite !length_app, length_replicate in H8. rewrite E in Hg.
  destruct (compressed_cases (ipv4_text [a; b; c; d]) left right) as [->|[-> (w6 & w7 & [[-> ->]|[-> ->]])]].
  - rewrite <- !app_assoc, <- Hg. apply parse_double_colon; [lia|lia|done|done].
  - cbn [length] in H8. assert (n = 6%nat) as -> by lia.
    assert (Eaddr : addr = replicate 12 0 ++ [a; b; c; d]).
    { rewrite groups_app, groups_app, groups_zeros in Hg. rewrite <- E12, <- Hg. done. }
    rewrite <- app_assoc. cbn [app]. rewrite parse6_colons. unfold bind. rewrite (loop_double_colon _ _ []).
    rewrite Eaddr. by apply (run_dotted [] [] [a; b; c; d] r Hv4).
  - cbn [length] in H8. assert (n = 5%nat) as -> by lia.
    assert (Eaddr : addr = replicate 10 0 ++ [255; 255] ++ [a; b; c; d]).
    { rewrite groups_app, groups_app, groups_zeros in Hg. rewrite <- E12, <- Hg. done. }
    rewrite <- !app_assoc. cbn [app]. rewrite parse6_colons. unfold bind. rewrite (loop_double_colon _ _ []).
    set (rest := ipv4_text [a; b; c; d] ++ 0 :: r).
    assert (Erest : exists x t, rest = x :: t /\ x <> 0).
    { subst rest. pose proof (addr_nul_free _ (dotted_chars a b c d Ha Hb Hc Hd)) as Hnf.
      pose proof (dotted_len a b c d Ha Hb Hc Hd) as Hlen. cbn [ipv4_text].
      destruct (dotted a b c d) as [|x t]; [change (zlen (@nil Z)) with 0 in Hlen; lia|]. inversion_clear Hnf. by eexists x, _. }
    destruct Erest as (x & t & Ex & Hx).
    destruct (loop_hex 65535 (chr_colon :: rest) (hex 65535 ++ chr_colon :: rest) 0 (Some 0) (six []) ltac:(done))
      as (k & Hk & Eh). change (zlen []) with 0. rewrite Eh, Ex.
    rewrite (loop_colon x t _ [] (Some 0) k 65535) by (done || lia). rewrite <- Ex.
    rewrite Eaddr. by apply (run_dotted [255; 255] [255; 255] [a; b; c; d] r Hv4).
Qed.

(** ** Any text *)

Definition state_ok (s : pton6) (a : array) : Prop :=
  exists out, a = six out /\ zlen out <= 16 /\ p_tp s = zlen out /\
    forall c, p_colonp s = Some c -> 0 <= c <= zlen out.

Lemma loop_safe l : forall r l' r' s a,
  nul_free l -> nul_free l' -> state_ok s a ->
  match pton6_loop (l ++ 0 :: r) (l' ++ 0 :: r') s a with
  | Ret None _ => True
  | Ret (Some s') a' => state_ok s' a'
  | _ => False
  end.
Proof.
  induction l as [|ch l IH]; intros r l' r' s a Hnf Hnf' Hs; [done|].
  inversion_clear Hnf as [|? ? Hch Hnfl]. cbn [app pton6_loop]. bool_false (ch =? 0).
  pose proof Hs as (out & -> & Hroom & Htp & Hcp).
  destruct (xdigit ch) as [d|] eqn:Ed.
  { destruct (4 <? p_seen s + 1); [done|]. apply IH; [done|done|]. by exists out. }
  destruct (ch =? chr_colon).
  - destruct (p_seen s =? 0) eqn:Es.
    + destruct (p_colonp s) eqn:Ec; [done|]. apply IH; [done|done|]. exists out. cbn [p_tp p_colonp].
      split_and!; try done. intros c [= <-]. pose proof (zlen_nonneg out). lia.
    + assert (Eh : exists c, head (l ++ 0 :: r) = Some c) by (destruct l; by eexists).
      destruct Eh as [c Eh]. rewrite (bind_Ret _ _ _ c (six out)) by (by rewrite Eh).
      destruct (c =? 0); [done|]. unfold bind. rewrite (put_group_run s out Htp).
      destruct (Z.ltb_spec 16 (zlen out + 2)); [done|]. apply IH; [done|done|]. exists (out ++ group (p_val s)).
      cbn [p_tp p_colonp]. rewrite zlen_app. change (zlen (group (p_val s))) with 2. split_and!; try done.
      intros c' Hc'. specialize (Hcp c' Hc'). lia.
  - destruct (Z.eqb_spec ch chr_dot) as [->|]; cbn [andb]; [|done].
    destruct (Z.leb_spec (p_tp s + sizeof_in_addr) sizeof_in6_addr) as [Hle|]; [|done].
    unfold sizeof_in_addr, sizeof_in6_addr in Hle. rewrite Htp in *.
    destruct (six_room out ltac:(lia)) as (old & post & E & Hold & Happ).
    destruct (pton4_run l' r' (Some <$> out) old post Hnf' Hold) as [(addr & Ha & El & Erun)|[Hno Erun]];
      rewrite zlen_fmap, <- E in Erun; unfold bind; rewrite Erun; [|done].
    cbn [Z.eqb]. destruct Ha as [Hl _]. rewrite <- Happ by done. exists (out ++ addr). cbn [p_tp p_colonp].
    assert (zlen (out ++ addr) = zlen out + 4) by (rewrite zlen_app; unfold zlen; lia).
    split_and!; try done; [lia|]. intros c Hc. specialize (Hcp c Hc). lia.
Qed.

Lemma parse6_safe l r : nul_free l ->
  match parse6 (l ++ 0 :: r) (six []) with
  | Ret e a => e = UV_EINVAL \/ e = 0 /\ exists bytes, length bytes = 16%nat /\ a = Some <$> bytes
  | _ => False
  end.
Proof.
  intros Hnf. assert (Hrun : forall l, nul_free l ->
    match bind (pton6_loop (l ++ 0 :: r) (l ++ 0 :: r) (Pton6 0 None 0 0)) finish_loop (six []) with
    | Ret e a => e = UV_EINVAL \/ e = 0 /\ exists bytes, length bytes = 16%nat /\ a = Some <$> bytes
    | _ => False
    end).
  { clear. intros l Hnf. pose proof (loop_safe l r l r (Pton6 0 None 0 0) (six []) Hnf Hnf) as H.
    unfold bind. destruct (pton6_loop _ _ _ _) as [[s|] a| | |]; try (by apply H; exists []).
    - destruct H as (out & -> & Hroom & Htp & Hcp); [by exists []|]. cbn [finish_loop]. destruct s as [tp cp n v].
      cbn in Htp, Hcp. subst tp. by apply finish6_safe.
    - by left. }
  destruct l as [|c l]; [by left|]. cbn [app]. destruct (decide (c = chr_colon)) as [->|Hc].
  - inversion_clear Hnf as [|? ? _ Hnfl]. destruct l as [|c' l]; [by left|]. cbn [app].
    destruct (decide (c' = chr_colon)) as [->|Hc']; [rewrite parse6_colons; by apply (Hrun (chr_colon :: l))|].
    unfold parse6. unfold bind at 1. cbn [head of_opt tail]. rewrite Z.eqb_refl. unfold bind. cbn [head of_opt tail].
    bool_false (c' =? chr_colon). by left.
  - rewrite parse6_plain by done. by apply (Hrun (c :: l)).
Qed.
