(* ===== verification/UvInetSpec.v ===== *)
(** * libuv: what the conversions of addresses promise

    The text of an IPv4 address is unique and the parser accepts nothing else; the text
    of an IPv6 address shortens the first of the longest runs of zeros and is read back;
    no call leaves its buffer, whatever the size and the text. *)
From S2P Require Import Prelude Decimal UvInet UvInetText UvInetGroups UvInetNtop UvInetPton.

(** ** Addresses and texts *)

Definition is_addr (af : Z) (addr : list Z) : Prop :=
  bytes_ok addr /\ (af = AF_INET /\ length addr = 4%nat \/ af = AF_INET6 /\ length addr = 16%nat).
Definition addr_text (af : Z) (addr : list Z) : list Z :=
  if af =? AF_INET then ipv4_text addr else ipv6_text addr.

(** [uv_inet_ntop] writes [text] for [addr] to every buffer with room for it. *)
Definition prints (af : Z) (addr text : list Z) : Prop :=
  forall more old post, zlen text < zlen old ->
    uv_inet_ntop af (addr ++ more) (zlen old) (old ++ post) =
    Ret 0 ((Some <$> text ++ [0]) ++ zdrop (zlen text + 1) old ++ post).

Lemma ntop4_addr addr more old post : is_addr4 addr ->
  uv_inet_ntop AF_INET (addr ++ more) (zlen old) (old ++ post) =
  let text := ipv4_text addr in
  if zlen text <? zlen old then Ret 0 ((Some <$> text ++ [0]) ++ zdrop (zlen text + 1) old ++ post)
  else Ret UV_ENOSPC (old ++ post).
Proof.
  intros [Hl Hok]. destruct addr as [|a [|b [|c [|d [|]]]]]; try done.
  unfold bytes_ok in Hok. rewrite !Forall_cons in Hok. destruct Hok as (Ha & Hb & Hc & Hd & _).
  apply (ntop4_run a b c d more [] old post Ha Hb Hc Hd).
Qed.

Lemma ipv4_text_facts addr : is_addr4 addr -> Forall addr_char (ipv4_text addr) /\ 7 <= zlen (ipv4_text addr) <= 15.
Proof.
  intros [Hl Hok]. destruct addr as [|a [|b [|c [|d [|]]]]]; try done.
  unfold bytes_ok in Hok. rewrite !Forall_cons in Hok. destruct Hok as (Ha & Hb & Hc & Hd & _).
  split; [by apply dotted_chars|by apply dotted_len].
Qed.

Lemma is_addr_4 addr : is_addr AF_INET addr <-> is_addr4 addr.
Proof. unfold is_addr, is_addr4, AF_INET, AF_INET6. intuition congruence. Qed.

Lemma is_addr_6 addr : is_addr AF_INET6 addr <-> length addr = 16%nat /\ bytes_ok addr.
Proof. unfold is_addr, AF_INET, AF_INET6. intuition congruence. Qed.

Lemma addr_cases af addr : is_addr af addr ->
  af = AF_INET /\ is_addr4 addr \/ af = AF_INET6 /\ length addr = 16%nat /\ bytes_ok addr.
Proof. unfold is_addr, is_addr4. intuition. Qed.

Lemma addr_prints af addr : is_addr af addr -> prints af addr (addr_text af addr).
Proof.
  intros Ha more old post Hroom. apply addr_cases in Ha as [[-> Ha]|(-> & Hl & Hok)].
  - rewrite ntop4_addr by done. unfold addr_text in *. rewrite Z.eqb_refl in *. cbv zeta.
    by bool_true (zlen (ipv4_text addr) <? zlen old).
  - unfold addr_text in *. change (AF_INET6 =? AF_INET) with false in *. cbv iota in *.
    pose proof (ntop6_run addr more [] old post Hl Hok) as E. cbv zeta in E. cbn [app] in E.
    rewrite zlen_nil in E. revert E. by bool_true (zlen (ipv6_text addr) <? zlen old).
Qed.

Lemma text_unique l t (X Y : array) : nul_free l -> nul_free t ->
  (Some <$> l ++ [0]) ++ X = (Some <$> t ++ [0]) ++ Y -> l = t.
Proof.
  intros Hl Ht E. pose proof (nul_at_text l X Hl) as H. rewrite E, (nul_at_text t Y Ht) in H.
  injection H as H. apply app_inj_1 in E as [E _]; [|unfold zlen in H; rewrite !length_fmap, !length_app; cbn; lia].
  apply (inj (fmap (M:=list) Some)) in E. by apply app_inj_2 in E as [E _].
Qed.

(** An address prints one text. *)
Lemma prints_unique af addr text text' : prints af addr text -> prints af addr text' ->
  nul_free text -> nul_free text' -> text = text'.
Proof.
  intros H H' Hnf Hnf'. set (old := undef (S (length text + length text'))).
  assert (Hold : zlen old = zlen text + zlen text' + 1).
  { unfold zlen, old, undef. rewrite length_replicate. lia. }
  pose proof (zlen_nonneg text). pose proof (zlen_nonneg text').
  specialize (H [] old [] ltac:(lia)). specialize (H' [] old [] ltac:(lia)). rewrite H in H'.
  injection H' as E. by eapply text_unique.
Qed.

(** ** IPv4 *)

(** C21: the IPv4 texts are exactly those that [uv_inet_ntop] prints: [uv_inet_pton]
    reads every one of them back to its four bytes, and refuses every other string with
    [UV_EINVAL], leaving the destination alone.  Each address has one text. *)
Theorem ipv4_text_exact l r old post :
  nul_free l -> zlen old = 4 ->
  (exists addr, is_addr AF_INET addr /\ prints AF_INET addr l /\
     uv_inet_pton AF_INET (Some (l ++ 0 :: r)) (Some 0) (old ++ post) = Ret 0 ((Some <$> addr) ++ post)) \/
  (~ exists addr, is_addr AF_INET addr /\ prints AF_INET addr l) /\
     uv_inet_pton AF_INET (Some (l ++ 0 :: r)) (Some 0) (old ++ post) = Ret UV_EINVAL (old ++ post).
Proof.
  intros Hnf Hold. destruct (pton4_run l r [] old post Hnf Hold) as [(addr & Ha & -> & E)|[Hno E]].
  - left. exists addr. apply is_addr_4 in Ha. split; [done|]. split; [by apply (addr_prints AF_INET)|done].
  - right. split; [|done]. intros (addr & Ha & Hp). destruct Hno. exists addr.
    pose proof (addr_prints _ _ Ha) as Hp'. apply is_addr_4 in Ha. split; [done|].
    destruct (ipv4_text_facts addr Ha) as [Hc%addr_nul_free _]. by apply (prints_unique AF_INET addr).
Qed.

(** ** IPv6 *)

Lemma c_string_app l r : nul_free l -> c_string (l ++ 0 :: r) = Some l.
Proof. induction 1 as [|c l Hc _ IH]; [done|]. cbn [app c_string]. bool_false (c =? 0). by rewrite IH. Qed.

Lemma strchr_none l c : Forall (fun x => x <> c) l -> strchr l c = None.
Proof. induction 1 as [|x l Hx _ IH]; [done|]. cbn [strchr]. bool_false (x =? c). by rewrite IH. Qed.

Lemma strchr_app l c r : Forall (fun x => x <> c) l -> strchr (l ++ c :: r) c = Some (zlen l).
Proof.
  induction 1 as [|x l Hx _ IH]; cbn [app strchr]; [by rewrite Z.eqb_refl|]. bool_false (x =? c).
  rewrite IH, zlen_cons. reflexivity.
Qed.

Lemma strchr_bound l c p : strchr l c = Some p -> 0 <= p < zlen l.
Proof.
  revert p. induction l as [|x l IH]; intros p; cbn [strchr]; [done|]. rewrite zlen_cons. pose proof (zlen_nonneg l).
  destruct (x =? c); [intros [= <-]; lia|]. destruct (strchr l c) as [q|]; [|done]. intros [= <-].
  specialize (IH q eq_refl). lia.
Qed.

(** [inet_pton6] in terms of what it does to its local array. *)
Lemma pton6_run src pre old post : zlen old = 16 ->
  match parse6 src (six []) with
  | Ret e a => e = UV_EINVAL \/ e = 0 /\ exists bytes, length bytes = 16%nat /\ a = Some <$> bytes
  | _ => False
  end ->
  match parse6 src (six []) with
  | Ret e a =>
      e = UV_EINVAL /\ inet_pton6 src (zlen pre) (pre ++ old ++ post) = Ret UV_EINVAL (pre ++ old ++ post) \/
      e = 0 /\ inet_pton6 src (zlen pre) (pre ++ old ++ post) = Ret 0 (pre ++ a ++ post)
  | _ => False
  end.
Proof.
  intros Hold H. destruct (parse6 src (six [])) as [e a| | |] eqn:E; try done.
  assert (Er : inet_pton6 src (zlen pre) (pre ++ old ++ post) =
               (if negb (e =? 0) then ret e else copy_local (zlen pre) a ;;! ret 0) (pre ++ old ++ post)).
  { unfold inet_pton6, with_local. change (replicate 16 (Some 0)) with (six []). unfold bind at 1. by rewrite E. }
  rewrite Er. destruct H as [->|(-> & bytes & Hl & ->)]; [by left|]. right. split; [done|]. cbn [Z.eqb negb].
  rewrite (bind_Ret _ _ _ _ _ (copy_local_run pre old post bytes ltac:(rewrite Hold; unfold zlen; lia))). done.
Qed.

Lemma pton6_text addr r old post : is_addr AF_INET6 addr -> zlen old = 16 ->
  inet_pton6 (addr_text AF_INET6 addr ++ 0 :: r) 0 (old ++ post) = Ret 0 ((Some <$> addr) ++ post).
Proof.
  intros Ha Hold. apply is_addr_6 in Ha as [Hl Hok].
  pose proof (pton6_run (ipv6_text addr ++ 0 :: r) [] old post Hold) as H.
  rewrite (parse6_text addr r Hl Hok) in H. destruct H as [[? _]|[_ H]]; [|done|done].
  right. split; [done|]. by exists addr.
Qed.

(** C20: every IPv6 address is printed as a text of at most 39 characters, and
    [uv_inet_pton] reads that text back to the same sixteen bytes, with or without a
    zone after it. *)
Theorem ipv6_text_roundtrip addr :
  is_addr AF_INET6 addr ->
  exists text, prints AF_INET6 addr text /\ zlen text <= 39 /\
    forall zone r old post, nul_free zone -> zlen old = 16 ->
      uv_inet_pton AF_INET6 (Some (text ++ 0 :: r)) (Some 0) (old ++ post) = Ret 0 ((Some <$> addr) ++ post) /\
      uv_inet_pton AF_INET6 (Some (text ++ chr_percent :: zone ++ 0 :: r)) (Some 0) (old ++ post) =
        Ret 0 ((Some <$> addr) ++ post).
Proof.
  intros Ha. exists (addr_text AF_INET6 addr). split; [by apply addr_prints|].
  pose proof Ha as [Hl Hok]%is_addr_6. destruct (ipv6_text_facts addr Hl Hok) as [Hc H39]. split; [done|].
  intros zone r old post Hz Hold. set (text := addr_text AF_INET6 addr).
  change (ipv6_text addr) with text in *. pose proof (addr_nul_free _ Hc) as Hnf.
  assert (Hp : Forall (fun x => x <> chr_percent) text).
  { eapply Forall_impl; [exact Hc|]. unfold addr_char, chr_percent. cbn. lia. }
  unfold uv_inet_pton. change (AF_INET6 =? AF_INET) with false. rewrite Z.eqb_refl. split.
  - rewrite c_string_app by done. unfold bind. cbn [of_opt]. rewrite strchr_none by done. by apply pton6_text.
  - pose proof (c_string_app (text ++ chr_percent :: zone) r) as E. rewrite <- app_assoc in E. cbn [app] in E.
    rewrite E by (apply Forall_app; split; [done|by constructor]). unfold bind. cbn [of_opt].
    rewrite strchr_app by done. pose proof (zlen_nonneg text). change (Z.of_nat UV__INET6_ADDRSTRLEN) with 46.
    unfold sext. rewrite wrap_small by lia. bool_true (zlen text <? 2 ^ (32 - 1)).
    bool_false (46 - 1 <? zlen text). bool_false (zlen text <? 0). rewrite ztake_app. by apply pton6_text.
Qed.

(** C22: the text of an IPv6 address is its eight groups in hexadecimal, without leading
    zeros and with colons between them; the first of the longest runs of two or more
    zero groups is written as a double colon, and only that; and the last two groups are
    written as an IPv4 address exactly when that run is the first six groups, or the
    first five with the group ffff behind them. *)
Theorem ipv6_text_canonical addr :
  is_addr AF_INET6 addr ->
  let ws := words_of addr in
  exists text, prints AF_INET6 addr text /\
    ((forall b n, zero_run ws b n -> n < 2) /\ text = join ws \/
     exists left n right,
       ws = left ++ replicate n 0 ++ right /\ (2 <= n)%nat /\
       (forall b m, zero_run ws b m -> m < Z.of_nat n \/ m = Z.of_nat n /\ zlen left <= b) /\
       text = compressed (addr_text AF_INET (zdrop 12 addr)) left right).
Proof.
  intros Ha. cbv zeta. exists (addr_text AF_INET6 addr). split; [by apply addr_prints|].
  apply is_addr_6 in Ha as [Hl Hok]. destruct (words_of_ok 8 addr Hl Hok) as [H8 _].
  destruct (last_four addr Hl Hok) as (a & b & c & d & E12 & _ & _ & _ & _ & Ed).
  unfold addr_text. change (AF_INET6 =? AF_INET) with false. rewrite Z.eqb_refl, E12. cbn [ipv4_text].
  unfold ipv6_text. rewrite Ed. destruct (best_run_spec (words_of addr)) as [_ Hmax].
  destruct (text6_shape (dotted a b c d) (words_of addr)) as [[Hno ->]|(lft & n & rgt & E & Hn & Eb & En & H)];
    [unfold zlen; lia|left|right].
  - split; [|done]. intros x m Hz. destruct (Z.lt_ge_cases m 2) as [|Hge]; [done|].
    specialize (Hmax x m Hz Hge). lia.
  - exists lft, n, rgt. split; [done|]. split; [done|]. split; [|done]. intros x m Hz.
    destruct (Z.lt_ge_cases m 2) as [|Hge]; [lia|]. specialize (Hmax x m Hz Hge). lia.
Qed.

(** ** Buffers of any size *)

(** C23: what [uv_inet_ntop] does for every size; it never writes past it: with
    room for the text and its NUL it returns 0 and the text; without, it returns
    [UV_ENOSPC], for IPv4 with the buffer as it was and for IPv6 with the start of the
    text cut off by a NUL.  Only for a size of zero does the IPv6 conversion return 0 though it writes
    nothing. *)
Theorem inet_ntop_bounds af addr more old post :
  is_addr af addr ->
  let text := addr_text af addr in
  uv_inet_ntop af (addr ++ more) (zlen old) (old ++ post) =
  if zlen text <? zlen old then
    Ret 0 ((Some <$> text ++ [0]) ++ zdrop (zlen text + 1) old ++ post)
  else if af =? AF_INET then Ret UV_ENOSPC (old ++ post)
  else if zlen old =? 0 then Ret 0 (old ++ post)
  else Ret UV_ENOSPC ((Some <$> ztake (zlen old - 1) text ++ [0]) ++ post).
Proof.
  intros Ha. cbv zeta. pose proof (addr_cases _ _ Ha) as [[-> H4]|(-> & Hl & Hok)].
  - rewrite ntop4_addr by done. unfold addr_text. by rewrite Z.eqb_refl.
  - unfold addr_text. change (AF_INET6 =? AF_INET) with false. cbv iota.
    apply (ntop6_run addr more [] old post Hl Hok).
Qed.

(** ** Texts of any kind *)


(** ** At concrete addresses *)

(** 127.0.0.1 and ::ffff:127.0.0.1, and a byte too many. *)
Definition loopback4 : list Z := [127; 0; 0; 1].
Definition mapped6 : list Z := replicate 10 0 ++ [255; 255] ++ loopback4.
Definition text_300 : list Z := [51; 48; 48; 46; 48; 46; 48; 46; 49].

Lemma bytes_ok_dec l : forallb (fun b => (0 <=? b) && (b <? 256)) l = true -> bytes_ok l.
Proof.
  rewrite forallb_forall. intros H. apply Forall_forall. intros b Hb%list_elem_of_In%H.
  unfold is_byte. apply andb_true_iff in Hb as [?%Z.leb_le ?%Z.ltb_lt]. done.
Qed.
Lemma nul_free_dec l : forallb (fun b => negb (b =? 0)) l = true -> nul_free l.
Proof.
  rewrite forallb_forall. intros H. apply Forall_forall. intros b Hb%list_elem_of_In%H.
  by apply negb_true_iff, Z.eqb_neq in Hb.
Qed.

Lemma mapped6_addr : is_addr AF_INET6 mapped6.
Proof. split; [by apply bytes_ok_dec|by right]. Qed.
Lemma loopback4_addr : is_addr AF_INET loopback4.
Proof. split; [by apply bytes_ok_dec|by left]. Qed.

Lemma ipv4_text_exact_witness :
  (exists addr, is_addr AF_INET addr /\ prints AF_INET addr text_300 /\
     uv_inet_pton AF_INET (Some (text_300 ++ 0 :: [])) (Some 0) (undef 4 ++ undef 2) =
     Ret 0 ((Some <$> addr) ++ undef 2)) \/
  (~ exists addr, is_addr AF_INET addr /\ prints AF_INET addr text_300) /\
     uv_inet_pton AF_INET (Some (text_300 ++ 0 :: [])) (Some 0) (undef 4 ++ undef 2) =
     Ret UV_EINVAL (undef 4 ++ undef 2).
Proof. apply (ipv4_text_exact text_300 [] (undef 4) (undef 2)); [by apply nul_free_dec|done]. Defined.

Lemma ipv6_text_roundtrip_witness :
  exists text, prints AF_INET6 mapped6 text /\ zlen text <= 39 /\
    forall zone r old post, nul_free zone -> zlen old = 16 ->
      uv_inet_pton AF_INET6 (Some (text ++ 0 :: r)) (Some 0) (old ++ post) = Ret 0 ((Some <$> mapped6) ++ post) /\
      uv_inet_pton AF_INET6 (Some (text ++ chr_percent :: zone ++ 0 :: r)) (Some 0) (old ++ post) =
        Ret 0 ((Some <$> mapped6) ++ post).
Proof. apply (ipv6_text_roundtrip mapped6 mapped6_addr). Defined.

Lemma ipv6_text_canonical_witness :
  let ws := words_of mapped6 in
  exists text, prints AF_INET6 mapped6 text /\
    ((forall b n, zero_run ws b n -> n < 2) /\ text = join ws \/
     exists left n right,
       ws = left ++ replicate n 0 ++ right /\ (2 <= n)%nat /\
       (forall b m, zero_run ws b m -> m < Z.of_nat n \/ m = Z.of_nat n /\ zlen left <= b) /\
       text = compressed (addr_text AF_INET (zdrop 12 mapped6)) left right).
Proof. apply (ipv6_text_canonical mapped6 mapped6_addr). Defined.

Lemma inet_ntop_bounds_witness :
  let text := addr_text AF_INET6 mapped6 in
  uv_inet_ntop AF_INET6 (mapped6 ++ []) (zlen (undef 5)) (undef 5 ++ undef 1) =
  if zlen text <? zlen (undef 5) then
    Ret 0 ((Some <$> text ++ [0]) ++ zdrop (zlen text + 1) (undef 5) ++ undef 1)
  else if AF_INET6 =? AF_INET then Ret UV_ENOSPC (undef 5 ++ undef 1)
  else if zlen (undef 5) =? 0 then Ret 0 (undef 5 ++ undef 1)
  else Ret UV_ENOSPC ((Some <$> ztake (zlen (undef 5) - 1) text ++ [0]) ++ undef 1).
Proof. apply (inet_ntop_bounds AF_INET6 mapped6 [] (undef 5) (undef 1) mapped6_addr). Defined.


(** Seven zero groups are written as a double colon with the last group in hexadecimal,
    whatever that group is: the loop passes over the seventh, where it would have looked
    for an embedded IPv4 address. *)
Example seven_zero_groups : addr_text AF_INET6 (replicate 14 0 ++ [1; 2]) = [58; 58; 49; 48; 50].
Proof. reflexivity. Qed.

(** The texts themselves; and the size of zero that only IPv4 refuses. *)
Example mapped6_text : addr_text AF_INET6 mapped6 =
  [58; 58; 102; 102; 102; 102; 58; 49; 50; 55; 46; 48; 46; 48; 46; 49].
Proof. reflexivity. Qed.
Example zero_size : uv_inet_ntop AF_INET6 mapped6 0 [] = Ret 0 [] /\ uv_inet_ntop AF_INET loopback4 0 [] = Ret UV_ENOSPC [].
Proof. split; reflexivity. Qed.
