(* ===== verification/TimeSpec.v ===== *)
(** * The calendar of BoringSSL (crypto/asn1/time_support.c)

    [int] is 32 bits wide and [long] 64; a signed operation whose result does not fit
    is undefined behaviour, [Ub], and an assignment of a [long] to an [int] keeps the
    low 32 bits.  Division is C's, which truncates.  After the
    functions, the proof that they follow the Gregorian rules. *)
From S2P Require Import Prelude.

(** The fields of [struct tm] that the code reads and writes. *)
Record tm : Type := Tm {
  tm_sec : Z; tm_min : Z; tm_hour : Z; tm_mday : Z; tm_mon : Z; tm_year : Z }.

Definition SECS_PER_DAY : Z := 24 * 60 * 60.

(** The value of a signed operation of 32 and of 64 bits. *)
Definition int {S} (x : Z) : M S Z :=
  if (- 2 ^ 31 <=? x) && (x <? 2 ^ 31) then ret x else ubm.
Definition long {S} (x : Z) : M S Z :=
  if (- 2 ^ 63 <=? x) && (x <? 2 ^ 63) then ret x else ubm.

(** ** Days *)

(** [(1461 * (y + 4800 + (m - 14) / 12)) / 4 + (367 * (m - 2 - 12 * ((m - 14) / 12))) / 12
    - (3 * ((y + 4900 + (m - 14) / 12) / 100)) / 4 + d - 32075], in [int]. *)
Definition date_to_julian {S} (y m d : Z) : M S Z :=
  let! a := int (m - 14) in
  let a := Z.quot a 12 in
  let! x := int (y + 4800) in
  let! x := int (x + a) in
  let! x := int (1461 * x) in
  let x := Z.quot x 4 in
  let! u := int (m - 2) in
  let! v := int (12 * a) in
  let! u := int (u - v) in
  let! u := int (367 * u) in
  let u := Z.quot u 12 in
  let! s := int (x + u) in
  let! c := int (y + 4900) in
  let! c := int (c + a) in
  let! c := int (3 * Z.quot c 100) in
  let! s := int (s - Z.quot c 4) in
  let! s := int (s + d) in
  int (s - 32075).

(** The year, the month and the day, stored in [int]s. *)
Definition julian_to_date {S} (jd : Z) : M S (Z * Z * Z) :=
  let! L := long (jd + 68569) in
  let! n := long (4 * L) in
  let n := Z.quot n 146097 in
  let! x := long (146097 * n) in
  let! x := long (x + 3) in
  let! L := long (L - Z.quot x 4) in
  let! i := long (L + 1) in
  let! i := long (4000 * i) in
  let i := Z.quot i 1461001 in
  let! x := long (1461 * i) in
  let! x := long (L - Z.quot x 4) in
  let! L := long (x + 31) in
  let! j := long (80 * L) in
  let j := Z.quot j 2447 in
  let! x := long (2447 * j) in
  let! d := long (L - Z.quot x 80) in
  let L := Z.quot j 11 in
  let! m := long (j + 2) in
  let! x := long (12 * L) in
  let! m := long (m - x) in
  let! y := long (n - 49) in
  let! y := long (100 * y) in
  let! y := long (y + i) in
  let! y := long (y + L) in
  ret (i32 y, i32 m, i32 d).

(** ** Days and seconds *)

(** The Julian day and the second of the day of [t] moved by [off_day] days and
    [offset_sec] seconds. *)
Definition julian_adj {S} (t : tm) (off_day offset_sec : Z) : M S (Z * Z) :=
  let offset_day := i32 (Z.quot offset_sec SECS_PER_DAY) in
  let! x := int (offset_day * SECS_PER_DAY) in
  let! x := long (offset_sec - x) in
  let offset_hms := i32 x in
  let! offset_day := int (offset_day + off_day) in
  let! h := int (tm_hour t * 3600) in
  let! mi := int (tm_min t * 60) in
  let! x := int (h + mi) in
  let! x := int (x + tm_sec t) in
  let! offset_hms := int (offset_hms + x) in
  let! (offset_day, offset_hms) :=
    if SECS_PER_DAY <=? offset_hms then
      let! o := int (offset_day + 1) in
      let! s := int (offset_hms - SECS_PER_DAY) in ret (o, s)
    else if offset_hms <? 0 then
      let! o := int (offset_day - 1) in
      let! s := int (offset_hms + SECS_PER_DAY) in ret (o, s)
    else ret (offset_day, offset_hms) in
  let! time_year := int (tm_year t + 1900) in
  let! time_month := int (tm_mon t + 1) in
  let time_day := tm_mday t in
  let! time_jd := date_to_julian time_year time_month time_day in
  let! time_jd := long (time_jd + offset_day) in
  if time_jd <? 0 then failm else ret (time_jd, offset_hms).

(** Updates the [tm] it is given by pointer. *)
Definition OPENSSL_gmtime_adj (off_day offset_sec : Z) : M tm unit :=
  let! t := getm in
  let! (time_jd, time_sec) := julian_adj t off_day offset_sec in
  let! (time_year, time_month, time_day) := julian_to_date time_jd in
  if (time_year <? 1900) || (9999 <? time_year) then failm
  else
    let! y := int (time_year - 1900) in
    let! mo := int (time_month - 1) in
    putm (Tm (Z.rem time_sec 60) (Z.rem (Z.quot time_sec 60) 60) (Z.quot time_sec 3600)
             time_day mo y).

(** The days and the seconds written through the two out-parameters. *)
Definition OPENSSL_gmtime_diff {S} (from to : tm) : M S (Z * Z) :=
  let! (from_jd, from_sec) := julian_adj from 0 0 in
  let! (to_jd, to_sec) := julian_adj to 0 0 in
  let! diff_day := long (to_jd - from_jd) in
  let! diff_sec := int (to_sec - from_sec) in
  let! (diff_day, diff_sec) :=
    if (0 <? diff_day) && (diff_sec <? 0) then
      let! d := long (diff_day - 1) in
      let! s := int (diff_sec + SECS_PER_DAY) in ret (d, s)
    else ret (diff_day, diff_sec) in
  let! (diff_day, diff_sec) :=
    if (diff_day <? 0) && (0 <? diff_sec) then
      let! d := long (diff_day + 1) in
      let! s := int (diff_sec - SECS_PER_DAY) in ret (d, s)
    else ret (diff_day, diff_sec) in
  ret (i32 diff_day, diff_sec).


(** * The calendar against the Gregorian rules *)

(** ** The reference calendar *)

Definition leap (y : Z) : bool := (y mod 4 =? 0) && (negb (y mod 100 =? 0) || (y mod 400 =? 0)).
Definition days_in_month (y m : Z) : Z :=
  if m =? 2 then if leap y then 29 else 28
  else if (m =? 4) || (m =? 6) || (m =? 9) || (m =? 11) then 30 else 31.

(** A date is a year, a month from 1 and a day from 1. *)
Definition valid_date (y m d : Z) : Prop := 1 <= m <= 12 /\ 1 <= d <= days_in_month y m.

(** The days before a month of a year, and before a year. *)
Fixpoint days_before_month (y : Z) (m : nat) : Z :=
  match m with
  | O => 0
  | S k => (if Nat.eqb k 0 then 0 else days_in_month y (Z.of_nat k)) + days_before_month y k
  end.
Definition days_before_year (y : Z) : Z :=
  365 * (y - 1) + (y - 1) / 4 - (y - 1) / 100 + (y - 1) / 400.
(** The number of a day: 1 is the first of January of the year 1. *)
Definition day_number (y m d : Z) : Z := days_before_year y + days_before_month y (Z.to_nat m) + d.

Lemma div_step c y : 0 < c -> y / c = (y - 1) / c + (if y mod c =? 0 then 1 else 0).
Proof.
  intros Hc. pose proof (Z.div_mod y c ltac:(lia)). pose proof (Z.mod_pos_bound y c Hc).
  destruct (Z.eqb_spec (y mod c) 0).
  - replace ((y - 1) / c) with (y / c - 1); [lia|]. apply Z.div_unique with (c - 1); lia.
  - rewrite Z.add_0_r. apply Z.div_unique with (y mod c - 1); lia.
Qed.

Lemma leap_year y : days_before_year (y + 1) = days_before_year y + (if leap y then 366 else 365).
Proof.
  unfold days_before_year, leap. replace (y + 1 - 1) with y by lia.
  rewrite (div_step 4 y), (div_step 100 y), (div_step 400 y) by lia.
  assert (H4 : y mod 100 = 0 -> y mod 4 = 0) by (Z.to_euclidean_division_equations; lia).
  assert (H100 : y mod 400 = 0 -> y mod 100 = 0) by (Z.to_euclidean_division_equations; lia).
  repeat case_bool; cbn [andb orb negb]; lia.
Qed.

Lemma month_cases m : 1 <= m <= 12 ->
  m = 1 \/ m = 2 \/ m = 3 \/ m = 4 \/ m = 5 \/ m = 6 \/ m = 7 \/ m = 8 \/ m = 9 \/ m = 10 \/ m = 11 \/ m = 12.
Proof. lia. Qed.
Ltac months H := destruct (month_cases _ H) as [->|[->|[->|[->|[->|[->|[->|[->|[->|[->|[->| ->]]]]]]]]]]].

(** The days before a month, from a table. *)
Definition month_offset (m : Z) : Z :=
  nth (Z.to_nat (m - 1)) [0; 31; 59; 90; 120; 151; 181; 212; 243; 273; 304; 334] 0.

(** Evaluate what a month that is a literal decides. *)
Ltac eval_month f a :=
  let v := eval vm_compute in (f a) in change (f a) with v in *.
Ltac months_compute :=
  repeat match goal with
  | |- context [month_offset (Zpos ?a)] => eval_month month_offset (Zpos a)
  | _ : context [month_offset (Zpos ?a)] |- _ => eval_month month_offset (Zpos a)
  | |- context [Z.ltb 2 (Zpos ?a)] => eval_month (Z.ltb 2) (Zpos a)
  | _ : context [Z.ltb 2 (Zpos ?a)] |- _ => eval_month (Z.ltb 2) (Zpos a)
  | |- context [Z.eqb (Zpos ?a) (Zpos ?b)] => eval_month (Z.eqb (Zpos a)) (Zpos b)
  | _ : context [Z.eqb (Zpos ?a) (Zpos ?b)] |- _ => eval_month (Z.eqb (Zpos a)) (Zpos b)
  end; cbn [andb orb] in *.

Lemma int_ret {S} x (s : S) : - 2 ^ 31 <= x < 2 ^ 31 -> int x s = Ret x s.
Proof. intros H. unfold int. bool_true (- 2 ^ 31 <=? x). by bool_true (x <? 2 ^ 31). Qed.
Lemma long_ret {S} x (s : S) : - 2 ^ 63 <= x < 2 ^ 63 -> long x s = Ret x s.
Proof. intros H. unfold long. bool_true (- 2 ^ 63 <=? x). by bool_true (x <? 2 ^ 63). Qed.

Definition julian_of (y m d : Z) : Z :=
  let a := Z.quot (m - 14) 12 in
  Z.quot (1461 * (y + 4800 + a)) 4 + Z.quot (367 * (m - 2 - 12 * a)) 12
  - Z.quot (3 * Z.quot (y + 4900 + a) 100) 4 + d - 32075.

(** The two leap-year terms of the algorithm. *)
Lemma julian_years y : -4800 <= y ->
  Z.quot (1461 * (y + 4800)) 4 - Z.quot (3 * Z.quot (y + 4900) 100) 4 =
  365 * y + y / 4 - y / 100 + y / 400 + 1753164.
Proof.
  intros Hy. rewrite !Z.quot_div_nonneg by (try apply Z.mul_nonneg_nonneg; try apply Z.quot_pos; lia).
  Z.to_euclidean_division_equations. lia.
Qed.

Lemma days_before_month_table y m :
  1 <= m <= 12 ->
  days_before_month y (Z.to_nat m) = month_offset m + (if (2 <? m) && leap y then 1 else 0).
Proof. intros Hm. months Hm; cbv -[leap]; destruct (leap y); reflexivity. Qed.

Lemma julian_day_number y m d :
  1 <= m <= 12 -> -4799 <= y -> julian_of y m d = day_number y m d + 1721425.
Proof.
  intros Hm Hy. unfold julian_of, day_number. rewrite days_before_month_table by done. cbv zeta.
  pose proof (julian_years y ltac:(lia)) as H1. pose proof (julian_years (y - 1) ltac:(lia)) as H2.
  pose proof (leap_year y) as Hl. unfold days_before_year in *.
  replace (y - 1 + 4800) with (y + 4800 + -1) in H2 by lia. replace (y - 1 + 4900) with (y + 4900 + -1) in H2 by lia.
  replace (y + 1 - 1) with y in Hl by lia.
  replace (Z.quot (m - 14) 12) with (if m <=? 2 then -1 else 0) by (months Hm; reflexivity).
  months Hm; cbn [Z.leb Z.compare Pos.compare Pos.compare_cont]; months_compute;
    match goal with |- context [Z.quot (367 * ?a) 12] => set (k := Z.quot (367 * a) 12); vm_compute in k; subst k end;
    rewrite ?Z.add_0_r; destruct (leap y); lia.
Qed.

(** ** From a day to its date *)

(** The century [n], the year [i] of the century, counted from March, and the month
    [j] of that year, with the days that are left. *)
Lemma century_bounds L n L1 :
  0 <= L -> n = 4 * L / 146097 -> L1 = L - (146097 * n + 3) / 4 ->
  0 <= n /\ 0 <= L1 <= 36524 /\ (L1 = 36524 -> n mod 4 = 0).
Proof. intros HL -> ->. Z.to_euclidean_division_equations. lia. Qed.

Lemma year_bounds L1 i L2 :
  0 <= L1 <= 36524 -> i = 4000 * (L1 + 1) / 1461001 -> L2 = L1 - 1461 * i / 4 + 31 ->
  0 <= i <= 99 /\ 31 <= L2 <= 396 /\ (L2 = 396 -> i mod 4 = 3 /\ (i = 99 -> L1 = 36524)).
Proof. intros HL -> ->. Z.to_euclidean_division_equations. lia. Qed.

Lemma month_bounds L2 j d :
  31 <= L2 <= 396 -> j = 80 * L2 / 2447 -> d = L2 - 2447 * j / 80 ->
  1 <= j <= 12 /\ 1 <= d /\ L2 = d + 367 * j / 12 /\
  d <= (if j =? 12 then 29 else if (j =? 2) || (j =? 4) || (j =? 7) || (j =? 9) then 30 else 31) /\
  (j = 12 -> d = 29 -> L2 = 396).
Proof.
  intros HL Hj ->. assert (H : 1 <= j <= 12) by (subst j; Z.to_euclidean_division_equations; lia).
  split; [done|]. months H; cbn [Z.eqb Pos.eqb orb];
    Z.to_euclidean_division_equations; lia.
Qed.

Lemma leap_of_century n i y :
  0 <= i <= 99 -> i mod 4 = 3 -> (i = 99 -> n mod 4 = 0) -> y = 100 * (n - 49) + i + 1 -> leap y = true.
Proof.
  intros Hi H4 H99 ->. unfold leap.
  replace ((100 * (n - 49) + i + 1) mod 4) with 0 by (Z.to_euclidean_division_equations; lia).
  cbn [Z.eqb andb]. destruct (Z.eq_dec i 99) as [->|Hne].
  - replace ((100 * (n - 49) + 99 + 1) mod 400) with 0 by (Z.to_euclidean_division_equations; lia).
    apply orb_true_r.
  - replace ((100 * (n - 49) + i + 1) mod 100) with (i + 1) by (Z.to_euclidean_division_equations; lia).
    by bool_false (i + 1 =? 0).
Qed.

(** The date the algorithm computes, without the bounds of its types. *)
Definition date_of (jd : Z) : Z * Z * Z :=
  let L := jd + 68569 in
  let n := 4 * L / 146097 in
  let L := L - (146097 * n + 3) / 4 in
  let i := 4000 * (L + 1) / 1461001 in
  let L := L - 1461 * i / 4 + 31 in
  let j := 80 * L / 2447 in
  (100 * (n - 49) + i + j / 11, j + 2 - 12 * (j / 11), L - 2447 * j / 80).

Lemma date_of_spec jd :
  0 <= jd ->
  let '(y, m, d) := date_of jd in
  valid_date y m d /\ day_number y m d + 1721425 = jd /\ -4799 <= y.
Proof.
  intros Hjd. unfold date_of. cbv zeta. set (L := jd + 68569).
  remember (4 * L / 146097) as n eqn:En. remember (L - (146097 * n + 3) / 4) as L1 eqn:E1.
  remember (4000 * (L1 + 1) / 1461001) as i eqn:Ei. remember (L1 - 1461 * i / 4 + 31) as L2 eqn:E2.
  remember (80 * L2 / 2447) as j eqn:Ej. remember (L2 - 2447 * j / 80) as d eqn:Ed.
  destruct (century_bounds L n L1 ltac:(lia) En E1) as (Hn & HL1 & Hn4).
  destruct (year_bounds L1 i L2 HL1 Ei E2) as (Hi & HL2 & Hi4).
  destruct (month_bounds L2 j d HL2 Ej Ed) as (Hj & Hd1 & EL2 & Hd2 & Hfeb).
  set (y := 100 * (n - 49) + i + j / 11). set (m := j + 2 - 12 * (j / 11)).
  assert (Hm : 1 <= m <= 12) by (unfold m; Z.to_euclidean_division_equations; lia).
  assert (Hy : -4799 <= y) by (unfold y; Z.to_euclidean_division_equations; lia).
  split_and!; [split; [done|split; [done|]]| |done].
  - clearbody L. clear Hjd En E1 Ei E2 Ej Ed. unfold days_in_month.
    destruct (Z.eq_dec j 12) as [->|Hne].
    + change m with 2. cbn [Z.eqb Pos.eqb] in *. destruct (leap y) eqn:El; [done|].
      destruct (Z.eq_dec d 29) as [E29|]; [|lia]. destruct (Hi4 (Hfeb eq_refl E29)) as [Hi3 Hi99].
      assert (leap y = true) by (apply (leap_of_century n i); auto). congruence.
    + assert (Hj' : 1 <= j <= 12) by lia. clear Hj Hfeb Hi4 Hm Hy. subst m. months Hj'; try done; cbn; cbn in Hd2; lia.
  - rewrite <- julian_day_number by done. unfold julian_of. cbv zeta.
    assert (Ha : y + Z.quot (m - 14) 12 = 100 * (n - 49) + i /\ m - 2 - 12 * Z.quot (m - 14) 12 = j).
    { unfold y, m. clear -Hj. months Hj; split; Z.to_euclidean_division_equations; lia. }
    replace (y + 4800 + Z.quot (m - 14) 12) with (100 * (n - 1) + i) by lia.
    replace (y + 4900 + Z.quot (m - 14) 12) with (100 * n + i) by lia.
    destruct Ha as [_ ->]. assert (H100n : 68569 <= L) by (unfold L; lia).
    assert (Hn1 : 1 <= n) by (rewrite En; Z.to_euclidean_division_equations; lia).
    rewrite !Z.quot_div_nonneg by (try apply Z.mul_nonneg_nonneg; try apply Z.quot_pos; lia).
    replace ((100 * n + i) / 100) with n by (Z.to_euclidean_division_equations; lia).
    assert (E3 : 1461 * (100 * (n - 1) + i) / 4 = 36525 * (n - 1) + 1461 * i / 4)
      by (Z.to_euclidean_division_equations; lia).
    assert (E4 : (146097 * n + 3) / 4 = 36525 * n - 3 * n / 4) by (Z.to_euclidean_division_equations; lia).
    unfold L in *. lia.
Qed.

(** *** Dates are determined by their days *)

Lemma days_in_month_bounds y m : 28 <= days_in_month y m <= 31.
Proof. unfold days_in_month. repeat case_bool; cbn [orb]; try destruct (leap y); lia. Qed.

Lemma month_end y m : 1 <= m <= 11 ->
  days_before_month y (Z.to_nat (m + 1)) = days_before_month y (Z.to_nat m) + days_in_month y m.
Proof.
  intros Hm. replace (Z.to_nat (m + 1)) with (S (Z.to_nat m)) by lia. cbn [days_before_month].
  destruct (Nat.eqb_spec (Z.to_nat m) 0); [lia|]. rewrite Z2Nat.id by lia. lia.
Qed.

(** A day lies in its year. *)
Lemma day_number_year y m d :
  valid_date y m d -> days_before_year y < day_number y m d <= days_before_year (y + 1).
Proof.
  intros [Hm Hd]. unfold day_number. rewrite leap_year, days_before_month_table by done.
  unfold days_in_month in Hd. months Hm; months_compute; destruct (leap y); lia.
Qed.

Lemma days_before_year_mono y y' : y <= y' -> days_before_year y <= days_before_year y'.
Proof. unfold days_before_year. Z.to_euclidean_division_equations. lia. Qed.

Lemma day_number_inj y m d y' m' d' :
  valid_date y m d -> valid_date y' m' d' -> day_number y m d = day_number y' m' d' ->
  y = y' /\ m = m' /\ d = d'.
Proof.
  intros H H' E. pose proof (day_number_year y m d H) as B. pose proof (day_number_year y' m' d' H') as B'.
  assert (y = y') as ->.
  { destruct (Z.lt_trichotomy y y') as [Hlt|[->|Hgt]]; [|done|].
    - pose proof (days_before_year_mono (y + 1) y' ltac:(lia)). lia.
    - pose proof (days_before_year_mono (y' + 1) y ltac:(lia)). lia. }
  destruct H as [Hm Hd], H' as [Hm' Hd']. unfold day_number in E.
  rewrite !days_before_month_table in E by done. clear B B'. unfold days_in_month in *.
  split; [done|]. months Hm; months Hm'; months_compute; destruct (leap y'); lia.
Qed.

(** ** The functions *)

Ltac int_step := erewrite bind_Ret by (apply int_ret; lia).
Ltac long_step := erewrite bind_Ret by (apply long_ret; lia).

Lemma date_to_julian_run {S} y m d (s : S) :
  1900 <= y <= 9999 -> 1 <= m <= 12 -> 1 <= d <= 31 ->
  date_to_julian y m d s = Ret (julian_of y m d) s /\ 0 <= julian_of y m d < 6000000.
Proof.
  intros Hy Hm Hd. unfold date_to_julian, julian_of. cbv zeta.
  assert (Ha : -1 <= Z.quot (m - 14) 12 <= 0) by (Z.to_euclidean_division_equations; lia).
  rewrite (bind_Ret _ _ _ _ _ (int_ret (m - 14) s ltac:(lia))).
  set (a := Z.quot (m - 14) 12) in *. clearbody a.
  set (x := Z.quot (1461 * (y + 4800 + a)) 4). set (u := Z.quot (367 * (m - 2 - 12 * a)) 12).
  set (c := Z.quot (y + 4900 + a) 100). set (e := Z.quot (3 * c) 4).
  assert (Hx : 2400000 <= x <= 5500000) by (unfold x; Z.to_euclidean_division_equations; lia).
  assert (Hu : - 40 <= u <= 700) by (unfold u; Z.to_euclidean_division_equations; lia).
  assert (Hc : 60 <= c <= 150) by (unfold c; Z.to_euclidean_division_equations; lia).
  assert (He : 0 <= e <= 130) by (unfold e; Z.to_euclidean_division_equations; lia).
  split; [|lia].
  repeat (int_step; fold x u c e). apply int_ret. lia.
Qed.

Lemma i32_small x : - 2 ^ 31 <= x < 2 ^ 31 -> i32 x = x.
Proof.
  intros Hx. unfold sext, wrap. change (32 - 1) with 31. change (2 ^ 32) with 4294967296.
  change (2 ^ 31) with 2147483648 in *. destruct (Z.lt_ge_cases x 0).
  - replace (x mod 4294967296) with (x + 4294967296) by (Z.to_euclidean_division_equations; lia).
    bool_false (x + 4294967296 <? 2147483648). lia.
  - rewrite Z.mod_small by lia. by bool_true (x <? 2147483648).
Qed.

Lemma julian_to_date_run {S} jd (s : S) :
  0 <= jd < 2 ^ 33 -> julian_to_date jd s = Ret (date_of jd) s.
Proof.
  intros Hjd. unfold julian_to_date, date_of. cbv zeta. long_step. set (L := jd + 68569).
  long_step. set (n := 4 * L / 146097). set (L1 := L - (146097 * n + 3) / 4).
  set (i := 4000 * (L1 + 1) / 1461001). set (L2 := L1 - 1461 * i / 4 + 31).
  set (j := 80 * L2 / 2447). set (d := L2 - 2447 * j / 80).
  destruct (century_bounds L n L1 ltac:(lia) eq_refl eq_refl) as (Hn & HL1 & _).
  destruct (year_bounds L1 i L2 HL1 eq_refl eq_refl) as (Hi & HL2 & _).
  destruct (month_bounds L2 j d HL2 eq_refl eq_refl) as (Hj & Hd1 & _ & Hd2 & _).
  assert (Hd31 : d <= 31) by (destruct (j =? 12), ((j =? 2) || (j =? 4) || (j =? 7) || (j =? 9)); lia).
  assert (Hnb : n < 1000000) by (unfold n; Z.to_euclidean_division_equations; lia).
  rewrite (Z.quot_div_nonneg (4 * L)) by lia. fold n. do 2 long_step.
  rewrite (Z.quot_div_nonneg (146097 * n + 3)) by lia. long_step. fold L1. do 2 long_step.
  rewrite (Z.quot_div_nonneg (4000 * (L1 + 1))) by lia. fold i. long_step.
  rewrite (Z.quot_div_nonneg (1461 * i)) by lia. do 2 long_step. fold L2. long_step.
  rewrite (Z.quot_div_nonneg (80 * L2)) by lia. fold j. long_step.
  rewrite (Z.quot_div_nonneg (2447 * j)) by lia. fold d. long_step.
  rewrite (Z.quot_div_nonneg j) by lia.
  assert (Hj11 : 0 <= j / 11 <= 1) by (Z.to_euclidean_division_equations; lia).
  repeat long_step. unfold ret. do 3 f_equal; apply i32_small; lia.
Qed.

(** *** Moments *)

Definition tm_ok (t : tm) : Prop :=
  0 <= tm_sec t <= 59 /\ 0 <= tm_min t <= 59 /\ 0 <= tm_hour t <= 23 /\
  valid_date (tm_year t + 1900) (tm_mon t + 1) (tm_mday t) /\ 0 <= tm_year t <= 8099.
Definition second_of_day (t : tm) : Z := tm_hour t * 3600 + tm_min t * 60 + tm_sec t.
Definition day_of (t : tm) : Z := day_number (tm_year t + 1900) (tm_mon t + 1) (tm_mday t).
(** The seconds since the start of the last day of the year 0. *)
Definition seconds_of (t : tm) : Z := day_of t * 86400 + second_of_day t.

Lemma second_bounds t : tm_ok t -> 0 <= second_of_day t < 86400.
Proof. intros (?&?&?&_). unfold second_of_day. lia. Qed.

Lemma julian_adj_run {S} t off_day offset_sec (s : S) :
  tm_ok t -> - 2 ^ 31 <= offset_sec < 2 ^ 31 -> - 2 ^ 30 <= off_day <= 2 ^ 30 ->
  let total := seconds_of t + off_day * 86400 + offset_sec in
  julian_adj t off_day offset_sec s =
  if total / 86400 + 1721425 <? 0 then Fail s
  else Ret (total / 86400 + 1721425, total mod 86400) s.
Proof.
  intros Hok Ho Hd. cbv zeta. pose proof (second_bounds t Hok) as Hsec. destruct Hok as (H1 & H2 & H3 & [Hm Hday] & Hy).
  unfold julian_adj. change SECS_PER_DAY with 86400. change (2 ^ 31) with 2147483648 in Ho. change (2 ^ 30) with 1073741824 in Hd.
  set (q := Z.quot offset_sec 86400).
  assert (Hq : -24856 < q < 24856 /\ -86400 < offset_sec - q * 86400 < 86400)
    by (unfold q; Z.to_euclidean_division_equations; lia).
  rewrite (i32_small q) by lia. int_step. long_step. rewrite (i32_small (offset_sec - q * 86400)) by lia.
  repeat int_step.
  assert (Htot : seconds_of t + off_day * 86400 + offset_sec =
    (day_of t + q + off_day) * 86400 + (offset_sec - q * 86400 + second_of_day t)) by (unfold seconds_of; lia).
  pose proof (days_in_month_bounds (tm_year t + 1900) (tm_mon t + 1)) as Hdim.
  destruct (date_to_julian_run (tm_year t + 1900) (tm_mon t + 1) (tm_mday t) s ltac:(lia) Hm ltac:(lia)) as [Ej Hj].
  rewrite julian_day_number in Ej, Hj by lia. fold (day_of t) in Ej, Hj.
  set (hms := offset_sec - q * 86400 + (tm_hour t * 3600 + tm_min t * 60 + tm_sec t)).
  set (carry := if 86400 <=? hms then 1 else if hms <? 0 then -1 else 0).
  assert (Hhms : hms = offset_sec - q * 86400 + second_of_day t) by (unfold hms, second_of_day; lia).
  assert (Hcarry : 0 <= hms - carry * 86400 < 86400 /\ -1 <= carry <= 1).
  { unfold carry. repeat case_bool; lia. }
  rewrite (bind_Ret _ _ _ (q + off_day + carry, hms - carry * 86400) s); last first.
  { unfold carry in *. clearbody hms. repeat case_bool; repeat int_step; unfold ret; do 2 f_equal; lia. }
  repeat int_step. rewrite (bind_Ret _ _ _ _ _ Ej). long_step.
  assert (Ediv : (seconds_of t + off_day * 86400 + offset_sec) / 86400 = day_of t + q + off_day + carry).
  { symmetry. apply Z.div_unique with (hms - carry * 86400); lia. }
  assert (Emod : (seconds_of t + off_day * 86400 + offset_sec) mod 86400 = hms - carry * 86400).
  { symmetry. apply Z.mod_unique with (day_of t + q + off_day + carry); lia. }
  rewrite Ediv, Emod.
  replace (day_of t + 1721425 + (q + off_day + carry)) with (day_of t + q + off_day + carry + 1721425) by lia.
  by destruct (day_of t + q + off_day + carry + 1721425 <? 0).
Qed.

(** The time of day of a second of the day. *)
Lemma clock_of s : 0 <= s < 86400 ->
  0 <= Z.rem s 60 <= 59 /\ 0 <= Z.rem (Z.quot s 60) 60 <= 59 /\ 0 <= Z.quot s 3600 <= 23 /\
  Z.quot s 3600 * 3600 + Z.rem (Z.quot s 60) 60 * 60 + Z.rem s 60 = s.
Proof. intros Hs. Z.to_euclidean_division_equations. lia. Qed.

Lemma seconds_day t : tm_ok t -> seconds_of t / 86400 = day_of t /\ seconds_of t mod 86400 = second_of_day t.
Proof.
  intros Hok. pose proof (second_bounds t Hok). unfold seconds_of. split; symmetry.
  - apply Z.div_unique with (second_of_day t); lia.
  - apply Z.mod_unique with (day_of t); lia.
Qed.

(** C35: [OPENSSL_gmtime_adj] moves a moment of the years 1900 to 9999 by any number of
    days up to 2^30 and any 32-bit number of seconds: the fields it leaves are the
    valid Gregorian date and time that lie exactly that many seconds later or earlier
    in the calendar; and it fails, leaving the fields alone, exactly when no moment of
    those years does.  Within these ranges no integer overflows; a [long] of seconds
    beyond them can make one overflow ([adj_overflow]). *)
Theorem gmtime_adj_exact t off_day offset_sec :
  tm_ok t -> - 2 ^ 31 <= offset_sec < 2 ^ 31 -> - 2 ^ 30 <= off_day <= 2 ^ 30 ->
  match OPENSSL_gmtime_adj off_day offset_sec t with
  | Ret _ t' => tm_ok t' /\ seconds_of t' = seconds_of t + off_day * 86400 + offset_sec
  | Fail t' =>
      t' = t /\
      ~ exists t', tm_ok t' /\ seconds_of t' = seconds_of t + off_day * 86400 + offset_sec
  | Ub | NoFuel => False
  end.
Proof.
  intros Hok Ho Hd. unfold OPENSSL_gmtime_adj. rewrite (bind_Ret getm _ _ _ _ eq_refl).
  pose proof (julian_adj_run t off_day offset_sec t Hok Ho Hd) as E. cbv zeta in E.
  set (total := seconds_of t + off_day * 86400 + offset_sec) in *.
  pose proof (Z.div_mod total 86400 ltac:(lia)) as Hdm. pose proof (Z.mod_pos_bound total 86400 ltac:(lia)) as Hmod.
  destruct (Z.ltb_spec (total / 86400 + 1721425) 0) as [Hneg|Hpos].
  { rewrite (bind_Fail _ _ _ _ E). split; [done|]. intros (t' & Hok' & E').
    pose proof (seconds_day t' Hok') as [Ed _]. destruct Hok' as (_ & _ & _ & Hv & Hy).
    pose proof (day_number_year _ _ _ Hv) as Hn. fold (day_of t') in Hn.
    pose proof (days_before_year_mono 1900 (tm_year t' + 1900) ltac:(lia)) as Hmono.
    change (days_before_year 1900) with 693595 in Hmono. rewrite E' in Ed. lia. }
  rewrite (bind_Ret _ _ _ _ _ E). set (jd := total / 86400 + 1721425) in *.
  assert (Hjd : jd < 2 ^ 33).
  { pose proof (seconds_day t Hok) as [Edt _]. destruct Hok as (H1 & H2 & H3 & Hv & Hy).
    pose proof (day_number_year _ _ _ Hv) as Hn. fold (day_of t) in Hn.
    pose proof (days_before_year_mono (tm_year t + 1900 + 1) 10000 ltac:(lia)) as Hmono.
    change (days_before_year 10000) with 3652059 in Hmono.
    unfold jd, total, seconds_of, second_of_day in *. change (2 ^ 33) with 8589934592.
    change (2 ^ 31) with 2147483648 in Ho. change (2 ^ 30) with 1073741824 in Hd.
    Z.to_euclidean_division_equations. lia. }
  rewrite (bind_Ret _ _ _ _ _ (julian_to_date_run jd t ltac:(lia))).
  pose proof (date_of_spec jd Hpos) as Hdate. destruct (date_of jd) as [[y m] d].
  destruct Hdate as (Hv & Hn & _). destruct ((y <? 1900) || (9999 <? y)) eqn:Hy.
  - split; [done|]. intros (t' & Hok' & E'). pose proof (seconds_day t' Hok') as [Ed _].
    destruct Hok' as (_ & _ & _ & Hv' & Hy'). rewrite E' in Ed. unfold day_of in Ed.
    destruct (day_number_inj _ _ _ _ _ _ Hv' Hv ltac:(lia)) as (? & _ & _).
    apply orb_true_iff in Hy. rewrite !Z.ltb_lt in Hy. lia.
  - apply orb_false_iff in Hy. rewrite !Z.ltb_ge in Hy. destruct Hv as [Hm Hdd]. do 2 int_step.
    destruct (clock_of (total mod 86400) Hmod) as (C1 & C2 & C3 & C4). unfold putm.
    split; [|unfold seconds_of, second_of_day, day_of]; cbn [tm_sec tm_min tm_hour tm_mday tm_mon tm_year].
    + split_and!; cbn [tm_sec tm_min tm_hour tm_mday tm_mon tm_year]; try lia.
      replace (y - 1900 + 1900) with y by lia. by replace (m - 1 + 1) with m by lia.
    + replace (y - 1900 + 1900) with y by lia. replace (m - 1 + 1) with m by lia. lia.
Qed.

(** C36: [OPENSSL_gmtime_diff] gives the exact distance of two moments of the years 1900
    to 9999 as days and seconds of the same sign, the seconds less than a day. *)
Theorem gmtime_diff_exact {S} from to (s : S) :
  tm_ok from -> tm_ok to ->
  exists days secs, OPENSSL_gmtime_diff from to s = Ret (days, secs) s /\
    days * 86400 + secs = seconds_of to - seconds_of from /\
    (0 <= days /\ 0 <= secs < 86400 \/ days <= 0 /\ - 86400 < secs <= 0).
Proof.
  intros Hf Ht. pose proof (julian_adj_run from 0 0 s Hf ltac:(lia) ltac:(lia)) as Ef.
  pose proof (julian_adj_run to 0 0 s Ht ltac:(lia) ltac:(lia)) as Et. cbv zeta in Ef, Et.
  rewrite !Z.add_0_r in Ef, Et.
  destruct (seconds_day from Hf) as [Ef1 Ef2], (seconds_day to Ht) as [Et1 Et2]. rewrite Ef1, Ef2 in Ef. rewrite Et1, Et2 in Et.
  assert (Hr : forall t, tm_ok t -> 0 <= day_of t < 4000000).
  { intros t (_ & _ & _ & Hv & Hy). pose proof (day_number_year _ _ _ Hv) as Hn. fold (day_of t) in Hn.
    pose proof (days_before_year_mono (tm_year t + 1900 + 1) 10000 ltac:(lia)) as Hmono.
    pose proof (days_before_year_mono 1900 (tm_year t + 1900) ltac:(lia)) as Hmono'.
    change (days_before_year 10000) with 3652059 in Hmono. change (days_before_year 1900) with 693595 in Hmono'. lia. }
  pose proof (Hr from Hf). pose proof (Hr to Ht). pose proof (second_bounds from Hf). pose proof (second_bounds to Ht).
  replace (day_of from + 1721425 <? 0) with false in Ef by (symmetry; apply Z.ltb_ge; lia).
  replace (day_of to + 1721425 <? 0) with false in Et by (symmetry; apply Z.ltb_ge; lia).
  unfold OPENSSL_gmtime_diff. rewrite (bind_Ret _ _ _ _ _ Ef), (bind_Ret _ _ _ _ _ Et).
  change SECS_PER_DAY with 86400. long_step. int_step.
  set (dd := day_of to + 1721425 - (day_of from + 1721425)). set (ds := second_of_day to - second_of_day from).
  assert (Hdd : -4000000 < dd < 4000000) by (unfold dd; lia). assert (Hds : -86400 < ds < 86400) by (unfold ds; lia).
  assert (Hsum : dd * 86400 + ds = seconds_of to - seconds_of from) by (unfold seconds_of, dd, ds; lia).
  rewrite <- Hsum. clearbody dd ds.
  set (b1 := (0 <? dd) && (ds <? 0)).
  rewrite (bind_Ret _ _ _ (if b1 then (dd - 1, ds + 86400) else (dd, ds)) s); last first.
  { destruct b1; [|done]. long_step. int_step. done. }
  set (d1 := (if b1 then (dd - 1, ds + 86400) else (dd, ds)).1). set (s1 := (if b1 then (dd - 1, ds + 86400) else (dd, ds)).2).
  replace (if b1 then (dd - 1, ds + 86400) else (dd, ds)) with (d1, s1) by (unfold d1, s1; by destruct b1).
  assert (H1' : d1 * 86400 + s1 = dd * 86400 + ds /\ -86400 < s1 < 86400 /\ -4000000 < d1 < 4000000 /\
    (0 < d1 -> 0 <= s1)).
  { unfold d1, s1, b1. destruct (Z.ltb_spec 0 dd), (Z.ltb_spec ds 0); cbn [andb fst snd]; lia. }
  clearbody d1 s1. set (b2 := (d1 <? 0) && (0 <? s1)).
  rewrite (bind_Ret _ _ _ (if b2 then (d1 + 1, s1 - 86400) else (d1, s1)) s); last first.
  { destruct b2; [|done]. long_step. int_step. done. }
  unfold b2. destruct (Z.ltb_spec d1 0), (Z.ltb_spec 0 s1); cbn [andb];
    eexists _, _; (split; [unfold ret; rewrite i32_small by lia; reflexivity|]); lia.
Qed.

(** ** At concrete moments *)

(** 29 February 2020, 23:59:30. *)
Definition sample_tm : tm := Tm 30 59 23 29 1 120.

Lemma sample_tm_ok : tm_ok sample_tm.
Proof. split_and!; cbn; try lia. split; cbn; [lia|]. vm_compute. split; discriminate. Qed.

Lemma sample_adj : OPENSSL_gmtime_adj 365 31 sample_tm = Ret tt (Tm 1 0 0 1 2 121).
Proof. vm_compute. reflexivity. Qed.

Lemma gmtime_adj_exact_witness :
  match OPENSSL_gmtime_adj (-36525) (2 ^ 31 - 1) sample_tm with
  | Ret _ t' => tm_ok t' /\ seconds_of t' = seconds_of sample_tm + -36525 * 86400 + (2 ^ 31 - 1)
  | Fail t' =>
      t' = sample_tm /\
      ~ exists t', tm_ok t' /\ seconds_of t' = seconds_of sample_tm + -36525 * 86400 + (2 ^ 31 - 1)
  | Ub | NoFuel => False
  end.
Proof.
  pose proof (gmtime_adj_exact sample_tm (-36525) (2 ^ 31 - 1) sample_tm_ok) as H.
  apply H; lia.
Defined.

Lemma gmtime_diff_exact_witness :
  exists days secs, OPENSSL_gmtime_diff sample_tm (Tm 0 0 0 1 0 70) tt = Ret (days, secs) tt /\
    days * 86400 + secs = seconds_of (Tm 0 0 0 1 0 70) - seconds_of sample_tm /\
    (0 <= days /\ 0 <= secs < 86400 \/ days <= 0 /\ - 86400 < secs <= 0).
Proof.
  apply (gmtime_diff_exact sample_tm (Tm 0 0 0 1 0 70) tt sample_tm_ok).
  split_and!; cbn; try lia. split; cbn; [lia|]. vm_compute. split; discriminate.
Defined.

(** A number of seconds that fills 24856 days overflows the product of days and
    seconds in [julian_adj], although [long] could hold it. *)
Lemma adj_overflow t : OPENSSL_gmtime_adj 0 (24856 * 86400) t = Ub.
Proof. reflexivity. Qed.
