(* ===== verification/WordOps.v ===== *)
(** * BoringSSL: words and bytes (crypto/internal.h)

    The loads, stores, rotations and memory helpers that the digests are written with.
    A buffer is the list of its bytes and an address in it an index; an access that
    leaves the buffer is [None].  The machine is little-endian. *)
From S2P Require Import Prelude.

(** ** Memory helpers *)

(** [OPENSSL_memcpy(dst + i, src + j, n)]. *)
Definition OPENSSL_memcpy (dst : list Z) (i : Z) (src : list Z) (j n : Z) : option (list Z) :=
  if n =? 0 then Some dst
  else match slice src j n with Some l => overwrite dst i l | None => None end.

(** [OPENSSL_memset(dst + i, c, n)]. *)
Definition OPENSSL_memset (dst : list Z) (i c n : Z) : option (list Z) :=
  if n =? 0 then Some dst else overwrite dst i (replicate (Z.to_nat n) c).

(** [dst[i + k] ^= src[k]] for each [k] below [n]. *)
Definition xor_bytes (dst : list Z) (i : Z) (src : list Z) (n : Z) : option (list Z) :=
  match slice dst i n, slice src 0 n with
  | Some a, Some b => overwrite dst i (zip_with Z.lxor a b)
  | _, _ => None
  end.

(** ** Loads and stores *)

Definition CRYPTO_bswap4 (x : Z) : Z := le_value (rev (le_bytes 4 x)).
Definition CRYPTO_bswap8 (x : Z) : Z := le_value (rev (le_bytes 8 x)).

Definition CRYPTO_load_u32_le (p : list Z) (i : Z) : option Z := le_value <$> slice p i 4.
Definition CRYPTO_load_u32_be (p : list Z) (i : Z) : option Z :=
  (fun v => CRYPTO_bswap4 (le_value v)) <$> slice p i 4.
Definition CRYPTO_load_u64_be (p : list Z) (i : Z) : option Z :=
  (fun v => CRYPTO_bswap8 (le_value v)) <$> slice p i 8.
Definition CRYPTO_store_u32_le (out : list Z) (i v : Z) : option (list Z) :=
  OPENSSL_memcpy out i (le_bytes 4 v) 0 4.
Definition CRYPTO_store_u32_be (out : list Z) (i v : Z) : option (list Z) :=
  OPENSSL_memcpy out i (le_bytes 4 (CRYPTO_bswap4 v)) 0 4.
Definition CRYPTO_store_u64_be (out : list Z) (i v : Z) : option (list Z) :=
  OPENSSL_memcpy out i (le_bytes 8 (CRYPTO_bswap8 v)) 0 8.

(** ** Rotations *)

Definition CRYPTO_rotl_u32 (value shift : Z) : Z :=
  Z.lor (u32 (Z.shiftl value shift)) (Z.shiftr value (Z.land (- shift) 31)).
Definition CRYPTO_rotr_u32 (value shift : Z) : Z :=
  Z.lor (Z.shiftr value shift) (u32 (Z.shiftl value (Z.land (- shift) 31))).
Definition CRYPTO_rotr_u64 (value shift : Z) : Z :=
  Z.lor (Z.shiftr value shift) (u64 (Z.shiftl value (Z.land (- shift) 63))).

(** ** Big-endian numbers *)

Definition be_word (l : list Z) : Z := le_value (rev l).
Definition be_field (n : nat) (v : Z) : list Z := rev (le_bytes n v).

Lemma le_field_ok n v : bytes_ok (le_bytes n v).
Proof.
  revert v. induction n as [|n IH]; intros v; cbn [le_bytes]; constructor; [|apply IH].
  unfold is_byte. rewrite (land_mask_mod v 8) by done. apply (Z.mod_pos_bound v 256). lia.
Qed.

Lemma le_bytes_value l : bytes_ok l -> le_bytes (length l) (le_value l) = l.
Proof.
  induction 1 as [|b l Hb _ IH]; [done|]. cbn [length le_value le_bytes].
  rewrite lor_shiftl_add by (try lia; exact Hb). change (2 ^ 8) with 256. unfold is_byte in Hb.
  rewrite (land_mask_mod _ 8), shiftr_div by lia. change (2 ^ 8) with 256.
  rewrite Z.mod_add, Z.div_add, Z.mod_small, Z.div_small, Z.add_0_l by lia. by rewrite IH.
Qed.

(** Only the low bits of a number are written. *)
Lemma le_bytes_wrap n v : le_bytes n (wrap (8 * Z.of_nat n) v) = le_bytes n v.
Proof.
  rewrite <- le_value_bytes. rewrite <- (le_bytes_length n v) at 1. apply le_bytes_value, le_field_ok.
Qed.

Lemma le_bytes_app n m a b : 0 <= a < 2 ^ (8 * Z.of_nat n) ->
  le_bytes n a ++ le_bytes m b = le_bytes (n + m) (b * 2 ^ (8 * Z.of_nat n) + a).
Proof.
  revert a. induction n as [|n IH]; intros a Ha.
  - change (2 ^ (8 * Z.of_nat 0)) with 1 in *. cbn. f_equal. lia.
  - cbn [le_bytes app Nat.add]. replace (8 * Z.of_nat (S n)) with (8 + 8 * Z.of_nat n) in * by lia.
    rewrite Z.pow_add_r in * by lia. change (2 ^ 8) with 256 in *.
    rewrite !(land_mask_mod _ 8), !shiftr_div by lia. change (2 ^ 8) with 256.
    replace (b * (256 * 2 ^ (8 * Z.of_nat n)) + a) with (a + b * 2 ^ (8 * Z.of_nat n) * 256) by lia.
    rewrite Z.mod_add, Z.div_add by lia. f_equal. rewrite IH; [f_equal; lia|].
    split; [apply Z.div_pos; lia|apply Z.div_lt_upper_bound; lia].
Qed.

Lemma bytes_ok_rev l : bytes_ok l -> bytes_ok (rev l).
Proof. intros H. apply Forall_rev. exact H. Qed.

Lemma zlen_rev {A} (l : list A) : zlen (rev l) = zlen l.
Proof. unfold zlen. by rewrite length_rev. Qed.

Lemma zlen_le_field n v : zlen (le_bytes n v) = Z.of_nat n.
Proof. unfold zlen. by rewrite le_bytes_length. Qed.

Lemma zlen_be_field n v : zlen (be_field n v) = Z.of_nat n.
Proof. unfold be_field. by rewrite zlen_rev, zlen_le_field. Qed.

Lemma be_field_ok n v : bytes_ok (be_field n v).
Proof. apply bytes_ok_rev, le_field_ok. Qed.

Lemma be_word_range l : bytes_ok l -> 0 <= be_word l < 2 ^ (8 * zlen l).
Proof. intros H. unfold be_word. rewrite <- zlen_rev. by apply le_value_range, bytes_ok_rev. Qed.

(** The bytes of a swapped word are the bytes of the word in the other order. *)
Lemma bswap_bytes (n : nat) x : le_bytes n (le_value (rev (le_bytes n x))) = be_field n x.
Proof.
  rewrite <- (le_bytes_length n x) at 1. rewrite <- length_rev.
  by apply le_bytes_value, bytes_ok_rev, le_field_ok.
Qed.

(** The value of a swapped load. *)
Lemma swapped_value l : bytes_ok l -> le_value (rev (le_bytes (length l) (le_value l))) = be_word l.
Proof. intros H. by rewrite le_bytes_value. Qed.

(** ** Accesses inside a buffer *)

Lemma memcpy_app (pre old post src l post' : list Z) i j n :
  i = zlen pre -> j = zlen l -> n = zlen src -> zlen old = n ->
  OPENSSL_memcpy (pre ++ old ++ post) i (l ++ src ++ post') j n = Some (pre ++ src ++ post).
Proof.
  intros -> -> -> E. unfold OPENSSL_memcpy. destruct (Z.eqb_spec (zlen src) 0) as [H|H].
  - rewrite H in E. unfold zlen in E, H. destruct src, old; try (cbn in *; lia). done.
  - rewrite slice_app by done. by apply overwrite_app.
Qed.

Lemma memcpy_start (pre old post src post' : list Z) i n :
  i = zlen pre -> n = zlen src -> zlen old = n ->
  OPENSSL_memcpy (pre ++ old ++ post) i (src ++ post') 0 n = Some (pre ++ src ++ post).
Proof. intros. by apply (memcpy_app pre old post src []). Qed.

Lemma memset_app (pre old post : list Z) i c n :
  i = zlen pre -> zlen old = n ->
  OPENSSL_memset (pre ++ old ++ post) i c n = Some (pre ++ replicate (Z.to_nat n) c ++ post).
Proof.
  intros -> E. unfold OPENSSL_memset. destruct (Z.eqb_spec n 0) as [H|H].
  - subst n. unfold zlen in H. destruct old; [done|cbn in *; lia].
  - apply overwrite_app; [done|]. pose proof (zlen_nonneg old). unfold zlen at 2.
    rewrite length_replicate. lia.
Qed.

Lemma load_be32_app (pre w post : list Z) i : i = zlen pre -> zlen w = 4 -> bytes_ok w ->
  CRYPTO_load_u32_be (pre ++ w ++ post) i = Some (be_word w).
Proof.
  intros Hi Hw Hok. unfold CRYPTO_load_u32_be. rewrite (slice_app pre w post) by done.
  cbn [fmap option_fmap option_map]. f_equal.
  unfold CRYPTO_bswap4. replace 4%nat with (length w) by (unfold zlen in Hw; lia).
  by apply swapped_value.
Qed.

Lemma load_be64_app (pre w post : list Z) i : i = zlen pre -> zlen w = 8 -> bytes_ok w ->
  CRYPTO_load_u64_be (pre ++ w ++ post) i = Some (be_word w).
Proof.
  intros Hi Hw Hok. unfold CRYPTO_load_u64_be. rewrite (slice_app pre w post) by done.
  cbn [fmap option_fmap option_map]. f_equal.
  unfold CRYPTO_bswap8. replace 8%nat with (length w) by (unfold zlen in Hw; lia).
  by apply swapped_value.
Qed.

Lemma load_le32_app (pre w post : list Z) i : i = zlen pre -> zlen w = 4 ->
  CRYPTO_load_u32_le (pre ++ w ++ post) i = Some (le_value w).
Proof. intros Hi Hw. unfold CRYPTO_load_u32_le. by rewrite (slice_app pre w post). Qed.

(** A store in terms of the bytes it leaves. *)
Lemma store_app (n : nat) (pre old post src : list Z) i : i = zlen pre -> zlen old = Z.of_nat n ->
  length src = n -> OPENSSL_memcpy (pre ++ old ++ post) i src 0 (Z.of_nat n) = Some (pre ++ src ++ post).
Proof.
  intros Hi Ho Hs. rewrite <- (app_nil_r src) at 1. change (src ++ []) with ([] ++ src ++ []).
  apply memcpy_app; [done|done|unfold zlen; lia|done].
Qed.

Lemma store_be32_app (pre old post : list Z) i v : i = zlen pre -> zlen old = 4 ->
  CRYPTO_store_u32_be (pre ++ old ++ post) i v = Some (pre ++ be_field 4 v ++ post).
Proof.
  intros Hi Ho. unfold CRYPTO_store_u32_be, CRYPTO_bswap4. rewrite bswap_bytes.
  apply (store_app 4); [done|done|]. unfold be_field. by rewrite length_rev, le_bytes_length.
Qed.

Lemma store_le32_app (pre old post : list Z) i v : i = zlen pre -> zlen old = 4 ->
  CRYPTO_store_u32_le (pre ++ old ++ post) i v = Some (pre ++ le_bytes 4 v ++ post).
Proof. intros Hi Ho. apply (store_app 4); [done|done|]. apply le_bytes_length. Qed.

Lemma store_be64_app (pre old post : list Z) i v : i = zlen pre -> zlen old = 8 ->
  CRYPTO_store_u64_be (pre ++ old ++ post) i v = Some (pre ++ be_field 8 v ++ post).
Proof.
  intros Hi Ho. unfold CRYPTO_store_u64_be, CRYPTO_bswap8. rewrite bswap_bytes.
  apply (store_app 8); [done|done|]. unfold be_field. by rewrite length_rev, le_bytes_length.
Qed.

(** The first word of a buffer. *)
Lemma load_be32_first d : bytes_ok d -> 4 <= zlen d -> CRYPTO_load_u32_be d 0 = Some (be_word (ztake 4 d)).
Proof.
  intros Hok Hd. rewrite <- (ztake_zdrop 4 d) at 1.
  apply (load_be32_app [] _ _ 0); [done|by apply zlen_ztake|by apply Forall_take].
Qed.

Lemma load_le32_first d : 4 <= zlen d -> CRYPTO_load_u32_le d 0 = Some (le_value (ztake 4 d)).
Proof. intros Hd. rewrite <- (ztake_zdrop 4 d) at 1. apply (load_le32_app [] _ _ 0); [done|by apply zlen_ztake]. Qed.

Lemma xor_bytes_app (pre old post src : list Z) i n : i = zlen pre -> zlen old = n -> n <= zlen src ->
  xor_bytes (pre ++ old ++ post) i src n = Some (pre ++ zip_with Z.lxor old (ztake n src) ++ post).
Proof.
  intros -> <- Hn. pose proof (zlen_nonneg old). unfold xor_bytes. rewrite slice_app by done.
  rewrite <- (ztake_zdrop (zlen old) src) at 1.
  pose proof (slice_app [] (ztake (zlen old) src) (zdrop (zlen old) src) 0 (zlen old) eq_refl) as E.
  cbn [app] in E. rewrite E by (by rewrite zlen_ztake by lia). apply overwrite_app; [done|].
  pose proof (zlen_ztake (zlen old) src ltac:(lia)) as Ht. unfold zlen in *. rewrite length_zip_with. lia.
Qed.
