(* ===== verification/Md32.v ===== *)
(** * Iterated hash functions

    The construction of Merkle and Damgard that MD5 and the SHA functions share: the
    message is padded to whole blocks and the blocks are absorbed one after the other
    by a compression function.  [collected] says what a context holds when a message
    has been given to it piece by piece.  The collector of md32_common.h is proved against it
    for every block function. *)
From S2P Require Import Prelude WordOps.

Section construction.
Context (compress : list Z -> list Z -> list Z) (B : Z).

(** The state after the first [n] blocks of [l]. *)
Fixpoint absorb (n : nat) (h l : list Z) : list Z :=
  match n with
  | O => h
  | S k => absorb k (compress h (ztake B l)) (zdrop B l)
  end.

(** A one bit, zeros, and the length in [zlen field] bytes, to a whole number of blocks. *)
Definition padding (field : list Z) (len : Z) : list Z :=
  0x80 :: replicate (Z.to_nat ((B - 1 - zlen field - len) mod B)) 0 ++ field.

(** [field] writes the number of bits of the message. *)
Definition md_hash (h0 : list Z) (field : Z -> list Z) (msg : list Z) : list Z :=
  let padded := msg ++ padding (field (8 * zlen msg)) (zlen msg) in
  absorb (Z.to_nat (zlen padded / B)) h0 padded.

(** The state [h] and the partial block in the first [num] bytes of [data] after the
    bytes [msg]. *)
Definition gathered (h0 msg h data : list Z) (num : Z) : Prop :=
  exists (k : nat) full tail junk,
    msg = full ++ tail /\ zlen full = B * Z.of_nat k /\ h = absorb k h0 full /\
    data = tail ++ junk /\ zlen data = B /\ zlen tail < B /\ num = zlen tail.

(** The bits of [msg], counted in two words of [w] bits. *)
Definition counted (w : Z) (msg : list Z) (Nh Nl : Z) : Prop :=
  0 <= Nh < 2 ^ w /\ 0 <= Nl < 2 ^ w /\ Nh * 2 ^ w + Nl = (8 * zlen msg) mod 2 ^ (2 * w).

(** ** Absorbing in pieces *)

Lemma pieces_app (b r : list Z) : zlen b = B -> ztake B (b ++ r) = b /\ zdrop B (b ++ r) = r.
Proof. intros <-. by rewrite ztake_app, zdrop_app. Qed.

Lemma absorb_cons (n : nat) h b r : zlen b = B -> absorb (S n) h (b ++ r) = absorb n (compress h b) r.
Proof. intros E. cbn [absorb]. by destruct (pieces_app b r E) as [-> ->]. Qed.

Lemma absorb_app (k n : nat) (Hb : 0 <= B) h full l : zlen full = B * Z.of_nat k ->
  absorb (k + n) h (full ++ l) = absorb n (absorb k h full) l.
Proof.
  revert h full. induction k as [|k IH]; intros h full E; cbn [Nat.add].
  - replace full with (@nil Z); [done|]. unfold zlen in E. destruct full; [done|cbn in E; lia].
  - assert (H : 0 <= B <= zlen full) by (rewrite E; nia).
    rewrite <- (ztake_zdrop B full), <- app_assoc, !absorb_cons by (by apply zlen_ztake).
    apply IH. rewrite zlen_zdrop by lia. nia.
Qed.

Lemma absorb_one h l : zlen l = B -> absorb 1 h l = compress h l.
Proof.
  intros E. rewrite <- (app_nil_r l). rewrite absorb_cons by done. cbn [absorb]. by rewrite app_nil_r.
Qed.

(** The blocks after the first [n] do not matter. *)
Lemma absorb_prefix (n : nat) (Hb : 0 <= B) h l post : zlen l = B * Z.of_nat n ->
  absorb n h (l ++ post) = absorb n h l.
Proof. intros E. replace n with (n + 0)%nat at 1 by lia. by rewrite absorb_app. Qed.

(** ** The last blocks *)

Lemma md_hash_last h0 field msg (k : nat) full tail :
  msg = full ++ tail -> zlen full = B * Z.of_nat k -> zlen tail < B ->
  let f := field (8 * zlen msg) in zlen f < B ->
  md_hash h0 field msg =
  if zlen tail + 1 <=? B - zlen f
  then absorb 1 (absorb k h0 full) (tail ++ [0x80] ++ replicate (Z.to_nat (B - zlen f - (zlen tail + 1))) 0 ++ f)
  else absorb 1 (absorb 1 (absorb k h0 full) (tail ++ [0x80] ++ replicate (Z.to_nat (B - (zlen tail + 1))) 0))
         (replicate (Z.to_nat (B - zlen f)) 0 ++ f).
Proof.
  intros Em Ek Ht f Hf. unfold md_hash, padding. fold f.
  assert (Elen : zlen msg = B * Z.of_nat k + zlen tail) by (rewrite Em, zlen_app; lia).
  rewrite Em at 1 3. rewrite <- app_assoc.
  pose proof (zlen_nonneg tail). pose proof (zlen_nonneg f).
  destruct (Z.leb_spec (zlen tail + 1) (B - zlen f)) as [Hfit|Hfit].
  - replace ((B - 1 - zlen f - zlen msg) mod B) with (B - zlen f - (zlen tail + 1)).
    2: { apply (Z.mod_unique_pos _ _ (- Z.of_nat k)); [lia|]. rewrite Elen. lia. }
    rewrite zlen_app, Ek.
    assert (Eb : zlen (tail ++ 0x80 :: replicate (Z.to_nat (B - zlen f - (zlen tail + 1))) 0 ++ f) = B).
    { autorewrite with cmodel_rw. unfold zlen at 2. rewrite length_replicate. lia. }
    rewrite Eb. replace (Z.to_nat ((B * Z.of_nat k + B) / B)) with (k + 1)%nat.
    2: { replace (B * Z.of_nat k + B) with ((Z.of_nat k + 1) * B) by lia. rewrite Z.div_mul by lia. lia. }
    by rewrite absorb_app by (done || lia).
  - replace ((B - 1 - zlen f - zlen msg) mod B) with (B - (zlen tail + 1) + (B - zlen f)).
    2: { apply (Z.mod_unique_pos _ _ (- Z.of_nat k - 1)); [lia|]. rewrite Elen. lia. }
    rewrite Z2Nat.inj_add, replicate_add by lia.
    set (b1 := tail ++ [0x80] ++ replicate (Z.to_nat (B - (zlen tail + 1))) 0).
    set (b2 := replicate (Z.to_nat (B - zlen f)) 0 ++ f).
    assert (E1 : zlen b1 = B).
    { unfold b1. autorewrite with cmodel_rw. unfold zlen at 2. rewrite length_replicate. lia. }
    assert (E2 : zlen b2 = B).
    { unfold b2. autorewrite with cmodel_rw. unfold zlen at 1. rewrite length_replicate. lia. }
    replace (tail ++ 128 :: (replicate (Z.to_nat (B - (zlen tail + 1))) 0 ++ replicate (Z.to_nat (B - zlen f)) 0) ++ f)
      with (b1 ++ b2) by (unfold b1, b2; cbn [app]; rewrite <- ?app_assoc; cbn [app]; by rewrite <- ?app_assoc).
    rewrite !zlen_app, Ek, E1, E2. replace (Z.to_nat ((B * Z.of_nat k + (B + B)) / B)) with (k + (1 + 1))%nat.
    2: { replace (B * Z.of_nat k + (B + B)) with ((Z.of_nat k + 2) * B) by lia. rewrite Z.div_mul by lia. lia. }
    rewrite absorb_app by (done || lia). apply absorb_app; lia.
Qed.

Lemma gathered_nil h0 data : 0 < B -> zlen data = B -> gathered h0 [] h0 data 0.
Proof. intros Hb Hd. exists 0%nat, [], [], data. change (zlen []) with 0. repeat split; lia. Qed.

End construction.

(** ** The count of bits *)

(** Two words that count to [2 ^ (2 * w)], after [x] more. *)
Lemma count_add w Nh Nl l x carry : 0 < w ->
  0 <= Nh < 2 ^ w -> 0 <= Nl < 2 ^ w -> 0 <= x -> l = (Nl + x) mod 2 ^ w ->
  carry = (if l <? Nl then 1 else 0) -> forall t, Nh * 2 ^ w + Nl = t mod 2 ^ (2 * w) ->
  (Nh + carry + x / 2 ^ w) mod 2 ^ w * 2 ^ w + l = (t + x) mod 2 ^ (2 * w).
Proof.
  intros Hw HNh HNl Hx Hl Hc t Ht. replace (2 * w) with (w + w) in * by lia.
  rewrite Z.pow_add_r in * by lia. set (P := 2 ^ w) in *.
  assert (HP : 0 < P) by (apply Z.pow_pos_nonneg; lia).
  rewrite <- (Z.add_mod_idemp_l t) by nia. rewrite <- Ht.
  pose proof (Z.div_mod x P ltac:(lia)) as Ex. pose proof (Z.mod_pos_bound x P HP) as Hxr.
  set (q := x / P) in *. set (r := x mod P) in *.
  assert (El : l = if Nl + r <? P then Nl + r else Nl + r - P).
  { rewrite Hl, Ex. replace (Nl + (P * q + r)) with (Nl + r + q * P) by lia. rewrite Z.mod_add by lia.
    destruct (Z.ltb_spec (Nl + r) P); [apply Z.mod_small; lia|].
    symmetry. apply (Z.mod_unique_pos _ _ 1); lia. }
  assert (Ec : Nl + r = l + carry * P).
  { subst carry. destruct (Z.ltb_spec (Nl + r) P); subst l; case_bool; lia. }
  replace (Nh * P + Nl + x) with ((Nh + carry + q) * P + l) by (rewrite Ex; nia).
  assert (Hlr : 0 <= l < P) by (destruct (Z.ltb_spec (Nl + r) P); subst l; lia).
  set (s := Nh + carry + q). rewrite (Z.div_mod s P) at 2 by lia.
  pose proof (Z.mod_pos_bound s P HP). replace ((P * (s / P) + s mod P) * P + l) with
    (s mod P * P + l + (s / P) * (P * P)) by ring.
  rewrite Z.mod_add by nia. symmetry. apply Z.mod_small. nia.
Qed.

Lemma counted_add w msg l Nh Nl x Nh' : 3 < w -> counted w msg Nh Nl ->
  x = (Nl + 8 * zlen l) mod 2 ^ w ->
  Nh' = (Nh + (if x <? Nl then 1 else 0) + zlen l / 2 ^ (w - 3)) mod 2 ^ w ->
  counted w (msg ++ l) Nh' x.
Proof.
  intros Hw (HNh & HNl & E) Hx Hh. pose proof (zlen_nonneg l).
  assert (HP : 0 < 2 ^ w) by (apply Z.pow_pos_nonneg; lia).
  split; [subst Nh'; by apply Z.mod_pos_bound|]. split; [subst x; by apply Z.mod_pos_bound|].
  rewrite zlen_app, Z.mul_add_distr_l, Hh.
  replace (zlen l / 2 ^ (w - 3)) with (8 * zlen l / 2 ^ w).
  - apply (count_add w Nh Nl x (8 * zlen l) (if x <? Nl then 1 else 0)); try done; lia.
  - replace (2 ^ w) with (8 * 2 ^ (w - 3)); [by rewrite Z.div_mul_cancel_l by lia|].
    change 8 with (2 ^ 3) at 1. rewrite <- Z.pow_add_r by lia. f_equal. lia.
Qed.

(** ** Block functions

    What the collectors suppose of a function that incorporates whole blocks into a
    state: it reads the blocks and nothing else. *)
Class BlockFunction (block_func : list Z -> list Z -> Z -> option (list Z)) (B : Z) := {
  compress : list Z -> list Z -> list Z;
  state_ok : list Z -> Prop;
  block_size_ok : 17 <= B < 2 ^ 16;
  compress_ok : forall h b, state_ok h -> bytes_ok b -> zlen b = B -> state_ok (compress h b);
  block_func_ok : forall h l n, state_ok h -> bytes_ok l -> 1 <= n -> B * n <= zlen l ->
    block_func h l n = Some (absorb compress B (Z.to_nat n) h l)
}.

Section block.
Context block_func B `{BF : BlockFunction block_func B}.

Lemma absorb_state (n : nat) h l : state_ok h -> bytes_ok l -> B * Z.of_nat n <= zlen l ->
  state_ok (absorb compress B n h l).
Proof.
  pose proof block_size_ok as HB. revert h l. induction n as [|n IH]; intros h l Hh Hl Hn; [done|].
  cbn [absorb]. apply IH.
  - apply compress_ok; [done|by apply Forall_take|apply zlen_ztake; nia].
  - by apply Forall_drop.
  - rewrite zlen_zdrop; nia.
Qed.

Lemma md_hash_state h0 field msg : state_ok h0 -> bytes_ok msg -> (forall n, bytes_ok (field n)) ->
  state_ok (md_hash compress B h0 field msg).
Proof.
  intros Hh Hm Hf. pose proof block_size_ok as HB. apply absorb_state; [done| |].
  - apply Forall_app. split; [done|]. constructor; [done|]. apply Forall_app.
    split; [by apply Forall_replicate|apply Hf].
  - rewrite Z2Nat.id by (apply Z.div_pos; [apply zlen_nonneg|lia]). apply Z.mul_div_le. lia.
Qed.

(** One block that the buffer holds. *)
Lemma block_func_one h b : state_ok h -> bytes_ok b -> zlen b = B ->
  block_func h b 1 = Some (absorb compress B 1 h b).
Proof. intros Hh Hb E. apply (block_func_ok h b 1); [done|done|lia|lia]. Qed.

(** ** Steps of a collector *)

(** The whole blocks of [l], then the rest of [l] in the buffer. *)
Lemma gather_blocks (k : nat) h0 full l data junk :
  zlen full = B * Z.of_nat k -> 0 <= zlen l -> let q := zlen l / B in
  data = zdrop (q * B) l ++ junk -> zlen data = B ->
  gathered compress B h0 (full ++ l)
    (absorb compress B (Z.to_nat q) (absorb compress B k h0 full) l) data (zlen l - q * B).
Proof.
  intros Ek Hl q Ed Hd. pose proof block_size_ok as HB.
  pose proof (Z.div_mod (zlen l) B ltac:(lia)) as Em. fold q in Em.
  pose proof (Z.mod_pos_bound (zlen l) B ltac:(lia)). assert (0 <= q) by (apply Z.div_pos; lia).
  assert (Eq : zlen (ztake (q * B) l) = q * B) by (apply zlen_ztake; nia).
  exists (k + Z.to_nat q)%nat, (full ++ ztake (q * B) l), (zdrop (q * B) l), junk.
  rewrite zlen_zdrop by nia. repeat split; try done; try nia.
  - by rewrite <- app_assoc, ztake_zdrop.
  - rewrite zlen_app, Ek, Eq. nia.
  - rewrite absorb_app by (done || lia). rewrite <- (ztake_zdrop (q * B) l) at 1.
    apply absorb_prefix; [lia|]. rewrite Eq. nia.
Qed.

(** A partial block that is not filled. *)
Lemma gather_partial h0 msg h pre old post l num :
  gathered compress B h0 msg h (pre ++ old ++ post) num -> num = zlen pre -> zlen old = zlen l ->
  num + zlen l < B ->
  gathered compress B h0 (msg ++ l) h (pre ++ l ++ post) (num + zlen l).
Proof.
  intros (k & full & tail & junk & Em & Ek & Eh & Ed & El & Ht & En) Hn Ho Hf.
  assert (pre = tail) as ->.
  { apply (f_equal (ztake num)) in Ed. rewrite Hn, ztake_app in Ed. rewrite <- Hn, En, ztake_app in Ed. done. }
  exists k, full, (tail ++ l), post. autorewrite with cmodel_rw in El |- *. rewrite Em.
  repeat split; try done; try lia; by rewrite <- ?app_assoc.
Qed.

End block.

(** ** Message schedules

    The words of a block, extended word by word from the words before. *)
Section schedule.
Context (next : list Z -> Z).

Fixpoint grow (n : nat) (M : list Z) : list Z :=
  match n with O => M | S k => let W := grow k M in W ++ [next W] end.

Lemma grow_length n M : length (grow n M) = (length M + n)%nat.
Proof. induction n as [|n IH]; cbn [grow]; [lia|]. rewrite length_app, IH. cbn. lia. Qed.

Lemma grow_extends M m n : (m <= n)%nat -> exists more, grow n M = grow m M ++ more.
Proof.
  induction 1 as [|n H [more IH]]; [exists []; by rewrite app_nil_r|]. cbn [grow].
  rewrite IH. eexists. by rewrite <- app_assoc.
Qed.

Lemma grow_first n M t : (t < length M)%nat -> grow n M !!! t = M !!! t.
Proof.
  intros Ht. destruct (grow_extends M 0 n) as [more E]; [lia|]. rewrite E. by rewrite lookup_total_app_l.
Qed.

Lemma grow_next n M t : (length M <= t < length M + n)%nat ->
  grow n M !!! t = next (take t (grow n M)).
Proof.
  intros Ht. destruct (grow_extends M (S (t - length M)) n) as [more E]; [lia|]. cbn [grow] in E.
  assert (Hl : length (grow (t - length M) M) = t) by (rewrite grow_length; lia).
  rewrite E, <- app_assoc, lookup_total_app_r by lia. rewrite Hl, Nat.sub_diag.
  rewrite take_app_length'; [done|lia].
Qed.

End schedule.


(** * BoringSSL: the collector of the 32-bit digests (crypto/fipsmodule/digest/md32_common.h)

    [crypto_md32_update] and [crypto_md32_final] for any block function. *)

(** The fields of a hash context that the collector is given pointers to. *)
Record md32 : Type := Md32 {
  c_h : list Z;
  c_Nl : Z;
  c_Nh : Z;
  c_data : list Z;
  c_num : Z
}.

Definition set_h (x : list Z) (c : md32) : md32 := Md32 x (c_Nl c) (c_Nh c) (c_data c) (c_num c).
Definition set_Nl (x : Z) (c : md32) : md32 := Md32 (c_h c) x (c_Nh c) (c_data c) (c_num c).
Definition set_Nh (x : Z) (c : md32) : md32 := Md32 (c_h c) (c_Nl c) x (c_data c) (c_num c).
Definition set_data (x : list Z) (c : md32) : md32 := Md32 (c_h c) (c_Nl c) (c_Nh c) x (c_num c).
Definition set_num (x : Z) (c : md32) : md32 := Md32 (c_h c) (c_Nl c) (c_Nh c) (c_data c) x.

Section collector.
(** The state, the memory from the data pointer on, and the number of blocks; [None]
    is a read outside that memory. *)
Context (block_func : list Z -> list Z -> Z -> option (list Z)) (block_size : Z).

Definition call_block_func (data : list Z) (num_blocks : Z) : M md32 unit := fun c =>
  match block_func (c_h c) data num_blocks with Some h => Ret tt (set_h h c) | None => Ub end.

(** [OPENSSL_memcpy(data + i, in, n)] and [OPENSSL_memset(data + i, 0, n)]. *)
Definition copy_to_data (i : Z) (in_ : list Z) (n : Z) : M md32 unit := fun c =>
  match OPENSSL_memcpy (c_data c) i in_ 0 n with Some d => Ret tt (set_data d c) | None => Ub end.
Definition clear_data (i n : Z) : M md32 unit := fun c =>
  match OPENSSL_memset (c_data c) i 0 n with Some d => Ret tt (set_data d c) | None => Ub end.

(** The whole blocks of [in_] and what is left of it. *)
Definition update_blocks (in_ : list Z) (len : Z) : M md32 unit :=
  let n := len / block_size in
  let! (in_, len) :=
    (if 0 <? n then
       call_block_func in_ n;;!
       let n := u64 (n * block_size) in
       ret (zdrop n in_, u64 (len - n))
     else ret (in_, len)) in
  if negb (len =? 0) then
    modm (set_num (u32 len));;!
    copy_to_data 0 in_ len
  else ret tt.

Definition crypto_md32_update (in_ : list Z) : M md32 unit :=
  let len := zlen in_ in
  if len =? 0 then ret tt
  else
    let! c := getm in
    let l := u32 (c_Nl c + u32 (Z.shiftl (u32 len) 3)) in
    (if l <? c_Nl c then modm (fun c => set_Nh (u32 (c_Nh c + 1)) c) else ret tt);;!
    modm (fun c => set_Nh (u32 (c_Nh c + u32 (Z.shiftr len 29))) c);;!
    modm (set_Nl l);;!
    let n := c_num c in
    if negb (n =? 0) then
      if (block_size <=? len) || (block_size <=? u64 (len + n)) then
        copy_to_data n in_ (u64 (block_size - n));;!
        let! c := getm in
        call_block_func (c_data c) 1;;!
        let n := u64 (block_size - n) in
        let in_ := zdrop n in_ in
        let len := u64 (len - n) in
        modm (set_num 0);;!
        clear_data 0 block_size;;!
        update_blocks in_ len
      else
        copy_to_data n in_ len;;!
        modm (fun c => set_num (u32 (c_num c + u32 len)) c)
    else update_blocks in_ len.

(** [data[i] = v] and the stores of the length. *)
Definition poke_data (i v : Z) : M md32 unit := fun c =>
  match overwrite (c_data c) i [v] with Some d => Ret tt (set_data d c) | None => Ub end.
Definition store_data (store : list Z -> Z -> Z -> option (list Z)) (i v : Z) : M md32 unit := fun c =>
  match store (c_data c) i v with Some d => Ret tt (set_data d c) | None => Ub end.

Definition crypto_md32_final (is_big_endian : bool) : M md32 unit :=
  let! c := getm in
  let Nh := c_Nh c in
  let Nl := c_Nl c in
  let n := c_num c in
  poke_data n 0x80;;!
  let n := u64 (n + 1) in
  let! n :=
    (if u64 (block_size - 8) <? n then
       clear_data n (u64 (block_size - n));;!
       let! c := getm in
       call_block_func (c_data c) 1;;!
       ret 0
     else ret n) in
  clear_data n (u64 (u64 (block_size - 8) - n));;!
  (if is_big_endian then
     store_data CRYPTO_store_u32_be (u64 (block_size - 8)) Nh;;!
     store_data CRYPTO_store_u32_be (u64 (block_size - 4)) Nl
   else
     store_data CRYPTO_store_u32_le (u64 (block_size - 8)) Nl;;!
     store_data CRYPTO_store_u32_le (u64 (block_size - 4)) Nh);;!
  let! c := getm in
  call_block_func (c_data c) 1;;!
  modm (set_num 0);;!
  clear_data 0 block_size.

End collector.

(** ** What a context holds *)

Section theorems.
Context block_func B `{BF : BlockFunction block_func B}.

Definition holds_md32 (h0 msg : list Z) (c : md32) : Prop :=
  gathered compress B h0 msg (c_h c) (c_data c) (c_num c) /\ counted 32 msg (c_Nh c) (c_Nl c).

Lemma call_ok h l n Nl Nh d m : state_ok h -> bytes_ok l -> 1 <= n -> B * n <= zlen l ->
  call_block_func block_func l n (Md32 h Nl Nh d m) =
  Ret tt (Md32 (absorb compress B (Z.to_nat n) h l) Nl Nh d m).
Proof. intros. unfold call_block_func. cbn [c_h]. by rewrite block_func_ok. Qed.

Lemma copy_ok h Nl Nh pre old post m src post' n :
  n = zlen src -> zlen old = n ->
  copy_to_data (zlen pre) (src ++ post') n (Md32 h Nl Nh (pre ++ old ++ post) m) =
  Ret tt (Md32 h Nl Nh (pre ++ src ++ post) m).
Proof.
  intros En Eo. unfold copy_to_data. cbn [c_data].
  by rewrite memcpy_start.
Qed.

(** The start and the whole of the buffer. *)
Lemma copy_start h Nl Nh data m src : zlen src <= zlen data ->
  copy_to_data 0 src (zlen src) (Md32 h Nl Nh data m) =
  Ret tt (Md32 h Nl Nh (src ++ zdrop (zlen src) data) m).
Proof.
  intros H. pose proof (zlen_nonneg src).
  pose proof (copy_ok h Nl Nh [] (ztake (zlen src) data) (zdrop (zlen src) data) m src [] (zlen src)) as E.
  rewrite app_nil_r in E. cbn [app] in E. rewrite ztake_zdrop in E. apply E; [done|]. apply zlen_ztake. lia.
Qed.

Lemma clear_ok h Nl Nh pre old post m n : zlen old = n ->
  clear_data (zlen pre) n (Md32 h Nl Nh (pre ++ old ++ post) m) =
  Ret tt (Md32 h Nl Nh (pre ++ replicate (Z.to_nat n) 0 ++ post) m).
Proof. intros Eo. unfold clear_data. cbn [c_data]. by rewrite memset_app. Qed.

Lemma clear_all h Nl Nh data m : zlen data = B ->
  clear_data 0 B (Md32 h Nl Nh data m) = Ret tt (Md32 h Nl Nh (replicate (Z.to_nat B) 0) m).
Proof.
  intros E. pose proof (clear_ok h Nl Nh [] data [] m B E) as H. cbn [app] in H. by rewrite !app_nil_r in H.
Qed.

(** The update of the count. *)
Lemma count_bits msg l Nh Nl : counted 32 msg Nh Nl ->
  let x := u32 (Nl + u32 (Z.shiftl (u32 (zlen l)) 3)) in
  let Nh1 := if x <? Nl then u32 (Nh + 1) else Nh in
  counted 32 (msg ++ l) (u32 (Nh1 + u32 (Z.shiftr (zlen l) 29))) x.
Proof.
  intros Hc x Nh1. apply (counted_add 32 msg l Nh Nl); [done|done| |].
  - unfold x, wrap. rewrite Z.shiftl_mul_pow2 by lia. change (2 ^ 3) with 8. change (2 ^ 32) with 4294967296.
    rewrite Z.add_mod_idemp_r by lia. rewrite <- (Z.add_mod_idemp_r _ (zlen l mod _ * 8)) by lia.
    rewrite Z.mul_mod_idemp_l by lia. rewrite Z.add_mod_idemp_r by lia. f_equal. lia.
  - unfold Nh1, wrap. rewrite Z.shiftr_div_pow2 by lia. change (32 - 3) with 29.
    change (2 ^ 32) with 4294967296. rewrite Z.add_mod_idemp_r by lia.
    destruct (x <? Nl); [|do 2 f_equal; lia]. by rewrite Z.add_mod_idemp_l by lia.
Qed.

(** The bits of the count, whatever order the fields are written in. *)
Lemma counted_words msg Nh Nl : counted 32 msg Nh Nl ->
  let n := 8 * zlen msg in
  be_field 4 Nh ++ be_field 4 Nl = be_field 8 n /\ le_bytes 4 Nl ++ le_bytes 4 Nh = le_bytes 8 n.
Proof.
  intros (HNh & HNl & E) n. assert (H : le_bytes 4 Nl ++ le_bytes 4 Nh = le_bytes 8 n).
  { rewrite le_bytes_app by done. change (8 * Z.of_nat 4) with 32. rewrite E.
    apply (le_bytes_wrap 8). }
  split; [|done]. unfold be_field. by rewrite <- H, rev_app_distr.
Qed.

(** ** The update *)

Lemma update_blocks_run (k : nat) h0 full l Nl Nh data :
  state_ok h0 -> bytes_ok full -> bytes_ok l -> zlen l < 2 ^ 64 ->
  zlen full = B * Z.of_nat k -> zlen data = B ->
  exists h data' num', gathered compress B h0 (full ++ l) h data' num' /\
    update_blocks block_func B l (zlen l) (Md32 (absorb compress B k h0 full) Nl Nh data 0) =
    Ret tt (Md32 h Nl Nh data' num').
Proof.
  intros H0 Hfull Hl Hlen Ek Hd. pose proof block_size_ok as HB. pose proof (zlen_nonneg l).
  change (2 ^ 64) with 18446744073709551616 in Hlen. change (2 ^ 16) with 65536 in HB.
  set (q := zlen l / B). pose proof (Z.div_mod (zlen l) B ltac:(lia)) as Em. fold q in Em.
  pose proof (Z.mod_pos_bound (zlen l) B ltac:(lia)). assert (0 <= q) by (apply Z.div_pos; lia).
  set (rest := zdrop (q * B) l). assert (Er : zlen rest = zlen l - q * B) by (apply zlen_zdrop; nia).
  set (h1 := absorb compress B (Z.to_nat q) (absorb compress B k h0 full) l).
  set (data' := rest ++ zdrop (zlen rest) data).
  assert (Hd' : zlen data' = B) by (unfold data'; rewrite zlen_app, zlen_zdrop; lia).
  exists h1, data', (zlen l - q * B). split; [by eapply gather_blocks|].
  assert (Hcall : (if 0 <? q then
      call_block_func block_func l q;;!
      ret (zdrop (u64 (q * B)) l, u64 (zlen l - u64 (q * B)))
    else ret (l, zlen l)) (Md32 (absorb compress B k h0 full) Nl Nh data 0) =
    Ret (rest, zlen rest) (Md32 h1 Nl Nh data 0)).
  { rewrite !wrap_small by (change (2 ^ 64) with 18446744073709551616; nia).
    destruct (Z.ltb_spec 0 q) as [Hq|Hq].
    - erewrite bind_Ret by (apply call_ok; [|done|lia|nia]; apply absorb_state; [done|done|lia]).
      unfold ret. by rewrite Er.
    - assert (q = 0) as Eq by lia. unfold h1, rest, ret. by rewrite Eq. }
  unfold update_blocks. fold q. cbn zeta. erewrite bind_Ret by exact Hcall. cbn beta iota.
  destruct (Z.eqb_spec (zlen rest) 0) as [Hz|Hz]; cbn [negb].
  - unfold ret, data', h1. rewrite Hz, <- Er, Hz. destruct rest; [|unfold zlen in Hz; cbn in Hz; lia].
    cbn [app]. unfold zdrop. cbn [Z.to_nat]. by rewrite drop_0.
  - unfold modm, bind, set_num. cbn [c_h c_Nl c_Nh c_data].
    rewrite wrap_small by (change (2 ^ 32) with 4294967296; lia).
    rewrite copy_start by lia. unfold data'. by rewrite Er.
Qed.

(** [in_] is added to the message. *)
Lemma md32_update_run h0 msg in_ c : state_ok h0 -> bytes_ok msg -> bytes_ok in_ -> zlen in_ < 2 ^ 64 ->
  holds_md32 h0 msg c ->
  exists c', crypto_md32_update block_func B in_ c = Ret tt c' /\ holds_md32 h0 (msg ++ in_) c'.
Proof.
  intros H0 Hmsg Hin Hlen [Hg Hc]. pose proof (zlen_nonneg in_) as Hn0. pose proof block_size_ok as HB.
  unfold crypto_md32_update. destruct (Z.eqb_spec (zlen in_) 0) as [Hz|Hz].
  { destruct in_; [|unfold zlen in Hz; cbn in Hz; lia]. exists c. by rewrite app_nil_r. }
  pose proof (count_bits msg in_ _ _ Hc) as Hc'. cbn zeta in Hc'. destruct c as [h Nl Nh data num].
  cbn [c_h c_Nl c_Nh c_data c_num] in *. set (x := u32 (Nl + _)) in *.
  set (Nh' := u32 (_ + u32 (Z.shiftr (zlen in_) 29))) in *.
  change (2 ^ 64) with 18446744073709551616 in Hlen. change (2 ^ 16) with 65536 in HB.
  pose proof Hg as (k & full & tail & junk & Em & Ek & Eh & Ed & El & Ht & En). pose proof (zlen_nonneg tail).
  assert (bytes_ok full /\ bytes_ok tail) as [Hfull Htail] by (apply Forall_app; by rewrite <- Em).
  unfold bind at 1, getm. cbn zeta. cbn [c_Nl]. fold x.
  assert (Hcount : forall k', ((if x <? Nl then modm (fun c => set_Nh (u32 (c_Nh c + 1)) c) else ret tt);;!
      modm (fun c => set_Nh (u32 (c_Nh c + u32 (Z.shiftr (zlen in_) 29))) c);;! modm (set_Nl x);;! k')
      (Md32 h Nl Nh data num) = k' (Md32 h x Nh' data num) :> out md32 unit).
  { intros k'. unfold Nh'. by destruct (x <? Nl). }
  rewrite Hcount. cbn [c_num]. clear Hcount. clearbody Nh' x.
  destruct (Z.eqb_spec num 0) as [Hnum|Hnum]; cbn [negb].
  - destruct tail; [|unfold zlen in *; cbn in *; lia]. rewrite app_nil_r in Em. subst h num msg.
    destruct (update_blocks_run k h0 full in_ x Nh' data) as (h' & d' & n' & Hg' & Hrun); try done.
    eexists. split; [exact Hrun|]. by split.
  - rewrite (wrap_small 64 (B - num)) by (change (2 ^ 64) with 18446744073709551616; lia).
    destruct (Z.leb_spec B (zlen in_ + num)) as [Hover|Hover].
    + replace ((B <=? zlen in_) || (B <=? wrap 64 (zlen in_ + num))) with true.
      2: { symmetry. apply orb_true_iff. destruct (Z.leb_spec B (zlen in_)); [by left|right].
           rewrite wrap_small by (change (2 ^ 64) with 18446744073709551616; lia). by apply Z.leb_le. }
      set (n := B - num). set (fst_ := ztake n in_). set (rest := zdrop n in_).
      assert (Ein : in_ = fst_ ++ rest) by (symmetry; apply ztake_zdrop).
      assert (Ef : zlen fst_ = n) by (apply zlen_ztake; lia).
      assert (Hjunk : zlen junk = n) by (rewrite Ed, zlen_app in El; lia).
      assert (Hrest : zlen in_ - n = zlen rest) by (rewrite Ein, zlen_app; lia).
      assert (bytes_ok fst_ /\ bytes_ok rest) as [Hfo Hro] by (apply Forall_app; by rewrite <- Ein).
      assert (Hcopy : copy_to_data num in_ n (Md32 h x Nh' data num) = Ret tt (Md32 h x Nh' (tail ++ fst_) num)).
      { clearbody fst_ rest. rewrite Ed, <- (app_nil_r junk), Ein, En, <- (app_nil_r fst_) at 1.
        rewrite <- app_assoc. rewrite copy_ok by lia. by rewrite app_nil_r. }
      erewrite bind_Ret by exact Hcopy. unfold bind at 1, getm. cbn [c_data].
      assert (Eb : zlen (tail ++ fst_) = B) by (rewrite zlen_app; lia).
      assert (Hbo : bytes_ok (tail ++ fst_)) by (by apply Forall_app).
      erewrite bind_Ret by (apply call_ok; [subst h; apply absorb_state; [done|done|lia]|done|lia|lia]).
      unfold modm at 1, bind at 1. unfold set_num. cbn [c_h c_Nl c_Nh c_data].
      erewrite bind_Ret by (apply clear_all; done).
      rewrite Hrest, wrap_small by (change (2 ^ 64) with 18446744073709551616; pose proof (zlen_nonneg rest); lia).
      rewrite Eh, <- absorb_app by (done || lia).
      destruct (update_blocks_run (k + 1) h0 (full ++ tail ++ fst_) rest x Nh' (replicate (Z.to_nat B) 0))
        as (h' & d' & n' & Hg' & Hrun); try done.
      * by apply Forall_app.
      * lia.
      * rewrite zlen_app, Ek, Eb. lia.
      * unfold zlen. rewrite length_replicate. lia.
      * eexists. split; [exact Hrun|]. split; [|done]. cbn [c_h c_data c_num].
        replace (msg ++ in_) with ((full ++ tail ++ fst_) ++ rest); [done|].
        rewrite Em, Ein. by rewrite <- !app_assoc.
    + bool_false (B <=? zlen in_). rewrite wrap_small by (change (2 ^ 64) with 18446744073709551616; lia).
      bool_false (B <=? zlen in_ + num). cbn [orb].
      set (old := ztake (zlen in_) junk). set (post := zdrop (zlen in_) junk).
      assert (Hjunk : zlen junk = B - num) by (rewrite Ed, zlen_app in El; lia).
      assert (Ej : data = tail ++ old ++ post) by (unfold old, post; by rewrite ztake_zdrop).
      assert (Eo : zlen old = zlen in_) by (apply zlen_ztake; lia).
      assert (Hcopy : copy_to_data num in_ (zlen in_) (Md32 h x Nh' data num) =
                      Ret tt (Md32 h x Nh' (tail ++ in_ ++ post) num)).
      { clearbody old post. rewrite Ej, En, <- (app_nil_r in_) at 1. by apply copy_ok. }
      erewrite bind_Ret by exact Hcopy. unfold modm, set_num. cbn [c_h c_Nl c_Nh c_data c_num].
      eexists. split; [reflexivity|]. split; [|done]. cbn [c_h c_data c_num].
      rewrite (wrap_small 32 (zlen in_)), wrap_small by (change (2 ^ 32) with 4294967296; lia).
      apply (gather_partial _ _ _ _ _ tail old); try done.
      * by rewrite <- Ej.
      * lia.
Qed.

(** ** The end of a message *)

Lemma poke_ok h Nl Nh pre v post m x : 
  poke_data (zlen pre) x (Md32 h Nl Nh (pre ++ v :: post) m) = Ret tt (Md32 h Nl Nh (pre ++ x :: post) m).
Proof. unfold poke_data. cbn [c_data]. by rewrite (overwrite_app pre [v] post [x]). Qed.

(** The bytes that the length is written in. *)
Definition length_field (is_big_endian : bool) (n : Z) : list Z :=
  if is_big_endian then be_field 8 n else le_bytes 8 n.

Lemma zlen_length_field big n : zlen (length_field big n) = 8.
Proof. destruct big; [apply zlen_be_field|apply zlen_le_field]. Qed.

Lemma length_field_ok big n : bytes_ok (length_field big n).
Proof. destruct big; [apply be_field_ok|apply le_field_ok]. Qed.

Lemma store_length h Nl Nh pre old m msg (big : bool) : counted 32 msg Nh Nl -> zlen old = 8 ->
  let i := zlen pre in
  (if big then
     store_data CRYPTO_store_u32_be i Nh;;! store_data CRYPTO_store_u32_be (i + 4) Nl
   else
     store_data CRYPTO_store_u32_le i Nl;;! store_data CRYPTO_store_u32_le (i + 4) Nh)
    (Md32 h Nl Nh (pre ++ old) m) =
  Ret tt (Md32 h Nl Nh (pre ++ length_field big (8 * zlen msg)) m).
Proof.
  intros Hc Ho i. destruct (counted_words msg Nh Nl Hc) as [Hbe Hle].
  rewrite <- (ztake_zdrop 4 old). set (o1 := ztake 4 old). set (o2 := zdrop 4 old).
  assert (H1 : zlen o1 = 4) by (apply zlen_ztake; lia).
  assert (H2 : zlen o2 = 4) by (unfold o2; rewrite zlen_zdrop; lia).
  unfold length_field. destruct big; unfold store_data, bind; cbn [c_data].
  - rewrite store_be32_app by done. unfold set_data. cbn [c_h c_Nl c_Nh c_data c_num].
    rewrite app_assoc. rewrite <- (app_nil_r o2), store_be32_app; [|rewrite zlen_app, zlen_be_field; unfold i; lia|done].
    by rewrite <- Hbe, app_nil_r, app_assoc.
  - rewrite store_le32_app by done. unfold set_data. cbn [c_h c_Nl c_Nh c_data c_num].
    rewrite app_assoc. rewrite <- (app_nil_r o2), store_le32_app; [|rewrite zlen_app, zlen_le_field; unfold i; lia|done].
    by rewrite <- Hle, app_nil_r, app_assoc.
Qed.

(** The block with the length, from a buffer whose first [zlen pre] bytes are used.
    [store] writes [field] at the end of the buffer; [k] is what follows. *)
Definition stores (L : Z) (field : list Z) (Nl Nh : Z) (store : M md32 unit) : Prop :=
  zlen field = L /\ bytes_ok field /\ forall h pre old m, zlen pre = B - L -> zlen old = L ->
  store (Md32 h Nl Nh (pre ++ old) m) = Ret tt (Md32 h Nl Nh (pre ++ field) m).

Lemma last_block_run L field store h Nl Nh pre rest m (k : M md32 unit) :
  0 <= L <= 16 -> stores L field Nl Nh store -> state_ok h -> bytes_ok pre -> zlen (pre ++ rest) = B ->
  zlen pre <= B - L ->
  exists data', zlen data' = B /\
  (clear_data (zlen pre) (B - L - zlen pre);;! store;;!
   let! c := getm in call_block_func block_func (c_data c) 1;;! k) (Md32 h Nl Nh (pre ++ rest) m) =
  k (Md32 (absorb compress B 1 h (pre ++ replicate (Z.to_nat (B - L - zlen pre)) 0 ++ field)) Nl Nh data' m).
Proof.
  intros HL (Hf & Hfo & Hst) Hh Hpre Hlen Hfit. pose proof block_size_ok as HB. pose proof (zlen_nonneg pre).
  rewrite zlen_app in Hlen. rewrite <- (ztake_zdrop (B - L - zlen pre) rest).
  set (r1 := ztake (B - L - zlen pre) rest). set (r2 := zdrop (B - L - zlen pre) rest).
  assert (H1 : zlen r1 = B - L - zlen pre) by (apply zlen_ztake; lia).
  assert (H2 : zlen r2 = L) by (unfold r2; rewrite zlen_zdrop; lia).
  erewrite bind_Ret by (by apply clear_ok).
  set (zs := replicate (Z.to_nat (B - L - zlen pre)) 0).
  assert (Hz : zlen zs = B - L - zlen pre) by (unfold zs, zlen; rewrite length_replicate; unfold zlen in *; lia).
  rewrite !(app_assoc pre zs). assert (Hpz : zlen (pre ++ zs) = B - L) by (rewrite zlen_app; lia).
  erewrite bind_Ret by (by apply Hst). unfold bind at 1, getm. cbn [c_data].
  assert (Hb : zlen ((pre ++ zs) ++ field) = B) by (rewrite zlen_app; lia).
  exists ((pre ++ zs) ++ field). split; [done|]. erewrite bind_Ret; [reflexivity|].
  apply call_ok; [done| |lia|lia]. apply Forall_app. split; [|done].
  apply Forall_app. split; [done|]. apply Forall_replicate. unfold is_byte. lia.
Qed.

(** The padding of a message that ends with a field of [L] bytes. *)
Lemma final_blocks_run L field store h0 msg h data num Nl Nh (k : M md32 unit) :
  8 <= L <= 16 -> stores L (field (8 * zlen msg)) Nl Nh store -> state_ok h0 -> bytes_ok msg ->
  gathered compress B h0 msg h data num ->
  exists data', zlen data' = B /\
  (poke_data num 0x80;;!
   let n := u64 (num + 1) in
   let! n :=
     (if u64 (B - L) <? n then
        clear_data n (u64 (B - n));;!
        let! c := getm in
        call_block_func block_func (c_data c) 1;;!
        ret 0
      else ret n) in
   clear_data n (u64 (u64 (B - L) - n));;! store;;!
   let! c := getm in
   call_block_func block_func (c_data c) 1;;! k) (Md32 h Nl Nh data num) =
  k (Md32 (md_hash compress B h0 field msg) Nl Nh data' num).
Proof.
  intros HL Hst H0 Hmsg Hg. pose proof block_size_ok as HB. change (2 ^ 16) with 65536 in HB.
  destruct Hg as (q & full & tail & junk & Em & Ek & Eh & Ed & El & Ht & En). pose proof (zlen_nonneg tail).
  pose proof (proj1 Hst) as Hf.
  assert (bytes_ok full /\ bytes_ok tail) as [Hfull Htail] by (apply Forall_app; by rewrite <- Em).
  assert (Hh : state_ok h) by (subst h; apply absorb_state; [done|done|lia]).
  assert (Hjunk : zlen junk = B - num) by (rewrite Ed, zlen_app in El; lia).
  destruct junk as [|v junk]; [change (zlen []) with 0 in Hjunk; lia|]. rewrite zlen_cons in Hjunk.
  rewrite (md_hash_last compress B h0 field msg q full tail Em Ek Ht) by lia. rewrite Hf.
  rewrite (wrap_small 64 (B - L)), (wrap_small 64 (num + 1))
    by (change (2 ^ 64) with 18446744073709551616; lia).
  subst num data h. erewrite bind_Ret by apply poke_ok.
  replace (tail ++ 128 :: junk) with ((tail ++ [128]) ++ junk) by (by rewrite <- app_assoc).
  set (t1 := tail ++ [128]). assert (E1 : zlen t1 = zlen tail + 1) by (unfold t1; by rewrite zlen_app).
  assert (Ht1 : bytes_ok t1) by (apply Forall_app; split; [done|by repeat constructor]).
  rewrite <- E1, !(app_assoc tail [128]). fold t1. cbn zeta.
  destruct (Z.leb_spec (zlen t1) (B - L)) as [Hfit|Hfit].
  - bool_false (B - L <? zlen t1).
    destruct (last_block_run L (field (8 * zlen msg)) store (absorb compress B q h0 full) Nl Nh t1 junk (zlen tail) k)
      as (d & Hd & E); try done; [lia|rewrite zlen_app; lia|].
    exists d. split; [done|]. rewrite bind_ret.
    by rewrite wrap_small by (change (2 ^ 64) with 18446744073709551616; lia).
  - bool_true (B - L <? zlen t1). rewrite wrap_small by (change (2 ^ 64) with 18446744073709551616; lia).
    set (zs := replicate (Z.to_nat (B - zlen t1)) 0).
    assert (Hz : zlen zs = B - zlen t1) by (unfold zs, zlen; rewrite length_replicate; unfold zlen in *; lia).
    assert (Hb : zlen (t1 ++ zs) = B) by (rewrite zlen_app; lia).
    assert (Hbo : bytes_ok (t1 ++ zs)).
    { apply Forall_app. split; [done|]. apply Forall_replicate. unfold is_byte. lia. }
    pose proof (last_block_run L (field (8 * zlen msg)) store (absorb compress B 1 (absorb compress B q h0 full) (t1 ++ zs))
      Nl Nh [] (t1 ++ zs) (zlen tail) k) as Hlast.
    change (zlen []) with 0 in Hlast. rewrite Z.sub_0_r in Hlast. destruct Hlast as (d & Hd & E); [lia|done| |by constructor|done|lia|].
    { apply (absorb_state _ _ 1); [done|done|lia]. }
    exists d. split; [done|]. erewrite bind_Ret.
    2: { rewrite <- (app_nil_r junk). erewrite bind_Ret by (apply clear_ok; lia). rewrite app_nil_r. fold zs.
         unfold bind at 1, getm. cbn [c_data]. erewrite bind_Ret by (apply call_ok; [done|done|lia|lia]).
         unfold ret. reflexivity. }
    rewrite wrap_small by (change (2 ^ 64) with 18446744073709551616; lia). by rewrite Z.sub_0_r.
Qed.

(** After the final call the state is the hash of the message and the buffer is empty. *)
Lemma md32_final_run h0 msg c (big : bool) : state_ok h0 -> bytes_ok msg -> holds_md32 h0 msg c ->
  exists Nl Nh, crypto_md32_final block_func B big c =
    Ret tt (Md32 (md_hash compress B h0 (length_field big) msg) Nl Nh (replicate (Z.to_nat B) 0) 0).
Proof.
  intros H0 Hmsg [Hg Hc]. pose proof block_size_ok as HB. change (2 ^ 16) with 65536 in HB.
  destruct c as [h Nl Nh data num]. cbn [c_h c_Nl c_Nh c_data c_num] in *. exists Nl, Nh.
  unfold crypto_md32_final, bind at 1, getm at 1. cbn [c_num c_Nh c_Nl].
  rewrite (wrap_small 64 (B - 4)) by (change (2 ^ 64) with 18446744073709551616; lia).
  set (store := if big then _ else _).
  destruct (final_blocks_run 8 (length_field big) store h0 msg h data num Nl Nh
    (modm (set_num 0);;! clear_data 0 B)) as (d & Hd & E); [lia| |done|done|done|].
  - split; [apply zlen_length_field|]. split; [apply length_field_ok|]. intros h' pre old m Hp Ho.
    unfold store. rewrite wrap_small by (change (2 ^ 64) with 18446744073709551616; lia).
    rewrite <- Hp. replace (B - 4) with (zlen pre + 4) by lia. by apply store_length.
  - cbn zeta in E. rewrite E. unfold bind, modm, set_num. cbn [c_h c_Nl c_Nh c_data]. by apply clear_all.
Qed.

End theorems.
