(* ===== verification/Sha2.v ===== *)
(** * SHA-2 (crypto/fipsmodule/sha/sha256.c and sha512.c)

    sha256.c and sha512.c write their rounds with macros of the same text over words of
    another size.  Here are those macros, the compression function of FIPS 180-4 for any
    size, and the proof that a round of the macros is a step of the standard, whatever
    names it is given for the working variables; then each of the two files and the
    digests of the standard that it computes; at the end the constants of the standard. *)
From S2P Require Import Prelude WordOps Md32.

(** The local variables of a block function: the data pointer, the circular array of
    the schedule and the eight working variables. *)
Record locals : Type := Locals {
  l_data : list Z;
  l_X : list Z;
  l_r : list Z
}.

(** The numbers of the variables [a] to [h] in [l_r]. *)
Definition va : nat := 0.
Definition vb : nat := 1.
Definition vc : nat := 2.
Definition vd : nat := 3.
Definition ve : nat := 4.
Definition vf : nat := 5.
Definition vg : nat := 6.
Definition vh : nat := 7.

(** A list of eight words. *)
Ltac eight l := destruct l as [|? [|? [|? [|? [|? [|? [|? [|? [|]]]]]]]]]; try done.

Section macros.
Context (w : Z) (Sigma0 Sigma1 sigma0 sigma1 : Z -> Z) (K : list Z).

Definition Ch (x y z : Z) : Z := Z.lxor (Z.land x y) (Z.land (wrap w (Z.lnot x)) z).
Definition Maj (x y z : Z) : Z := Z.lxor (Z.lxor (Z.land x y) (Z.land x z)) (Z.land y z).

(** The arguments after [i] are variables; the third [let] reads the new [h]. *)
Definition round (i a b c d e f g h : nat) (T1 : Z) (r : list Z) : list Z :=
  let T1 := wrap w (T1 + (r !!! h + Sigma1 (r !!! e) + Ch (r !!! e) (r !!! f) (r !!! g) + K !!! i)) in
  let r := <[h := wrap w (Sigma0 (r !!! a) + Maj (r !!! a) (r !!! b) (r !!! c))]> r in
  let r := <[d := wrap w (r !!! d + T1)]> r in
  <[h := wrap w (r !!! h + T1)]> r.

(** [j] is the index in the schedule and [i] the number of the round. *)
Definition round_schedule (i j a b c d e f g h : nat) (l : locals) : locals :=
  let X := l_X l in
  let s0 := sigma0 (X !!! Nat.land (j + 1) 15) in
  let s1 := sigma1 (X !!! Nat.land (j + 14) 15) in
  let T1 := wrap w (X !!! Nat.land j 15 + (s0 + s1 + X !!! Nat.land (j + 9) 15)) in
  Locals (l_data l) (<[Nat.land j 15 := T1]> X) (round i a b c d e f g h T1 (l_r l)).

(** ** The compression function of FIPS 180-4 *)

(** The next word of the message schedule. *)
Definition next_word (W : list Z) : Z :=
  let t := length W in
  wrap w (sigma1 (W !!! (t - 2)%nat) + W !!! (t - 7)%nat + sigma0 (W !!! (t - 15)%nat) + W !!! (t - 16)%nat).
Definition schedule (n : nat) (M : list Z) : list Z := grow next_word (n - 16) M.

Definition step (v : list Z) (kw : Z * Z) : list Z :=
  match v with
  | [a; b; c; d; e; f; g; h] =>
      let T1 := h + Sigma1 e + Ch e f g + kw.1 + kw.2 in
      let T2 := Sigma0 a + Maj a b c in
      [wrap w (T1 + T2); a; b; c; wrap w (d + T1); e; f; g]
  | _ => v
  end.

(** [M] is the block as sixteen words. *)
Definition fips_compress (h M : list Z) : list Z :=
  zip_with (fun x y => wrap w (x + y)) h (foldl step h (zip K (schedule (length K) M))).

(** ** A round is a step *)

(** The names that round [t] gives to the variables. *)
Definition row (t : nat) : list nat :=
  match (t mod 8)%nat with
  | 0 => [va; vb; vc; vd; ve; vf; vg; vh]
  | 1 => [vh; va; vb; vc; vd; ve; vf; vg]
  | 2 => [vg; vh; va; vb; vc; vd; ve; vf]
  | 3 => [vf; vg; vh; va; vb; vc; vd; ve]
  | 4 => [ve; vf; vg; vh; va; vb; vc; vd]
  | 5 => [vd; ve; vf; vg; vh; va; vb; vc]
  | 6 => [vc; vd; ve; vf; vg; vh; va; vb]
  | _ => [vb; vc; vd; ve; vf; vg; vh; va]
  end%nat.

(** [f] with the names of row [t]. *)
Definition with_row {A} (t : nat) (f : nat -> nat -> nat -> nat -> nat -> nat -> nat -> nat -> A) : A :=
  let v (k : nat) := row t !!! k in
  f (v 0%nat) (v 1%nat) (v 2%nat) (v 3%nat) (v 4%nat) (v 5%nat) (v 6%nat) (v 7%nat).

Definition read (t : nat) (r : list Z) : list Z := (fun k => r !!! k) <$> row t.

Lemma wrap_plus_l x y : wrap w (wrap w x + y) = wrap w (x + y).
Proof.
  unfold wrap. destruct (Z.eq_dec (2 ^ w) 0) as [->|]; [by rewrite !Z.mod_0_r|]. by rewrite Z.add_mod_idemp_l.
Qed.

Lemma wrap_add_r x y : wrap w (x + wrap w y) = wrap w (x + y).
Proof. by rewrite Z.add_comm, wrap_plus_l, Z.add_comm. Qed.

Lemma round_read t x r : length r = 8%nat ->
  read (S t) (with_row t (round t) x r) = step (read t r) (K !!! t, x).
Proof.
  intros Hr. destruct r as [|r0 [|r1 [|r2 [|r3 [|r4 [|r5 [|r6 [|r7 [|]]]]]]]]]; try done. clear Hr.
  unfold read, with_row, round. generalize (K !!! t). intros kt.
  assert (E : (S t mod 8 = S (t mod 8) mod 8)%nat).
  { rewrite <- (Nat.add_1_r t), <- (Nat.add_1_r (t mod 8)). by rewrite Nat.Div0.add_mod_idemp_l. }
  assert (Hlt : (t mod 8 < 8)%nat) by (by apply Nat.mod_upper_bound).
  unfold row. rewrite E. clear E. generalize dependent (t mod 8)%nat. intros m Hm.
  do 8 (destruct m as [|m];
    [by cbn -[wrap Ch Maj]; rewrite ?wrap_plus_l, ?wrap_add_r; repeat (f_equal; try lia)|]). lia.
Qed.

(** ** The state of the loop *)

(** Before round [t]: the last sixteen words of the schedule [W] are in the circular
    array and the variables, read by the names of the round, are the standard's [v]. *)
Definition at_round (W h : list Z) (t : nat) (l : locals) : Prop :=
  length (l_X l) = 16%nat /\ length (l_r l) = 8%nat /\
  (forall k, (t <= k + 16)%nat -> (k < t)%nat -> l_X l !!! (k mod 16)%nat = W !!! k) /\
  read t (l_r l) = foldl step h (take t (zip K W)).

Lemma land_15 n : Nat.land n 15 = (n mod 16)%nat.
Proof. exact (Nat.land_ones n 4). Qed.

Lemma round_length i a b c d e f g h x r : length (round i a b c d e f g h x r) = length r.
Proof. unfold round. by rewrite !length_insert. Qed.

(** A round with the next word of the schedule. *)
Lemma at_round_next W h t x X r d : at_round W h t (Locals d X r) ->
  (t < length K)%nat -> (t < length W)%nat -> x = W !!! t ->
  forall d', at_round W h (S t) (Locals d' (<[(t mod 16)%nat := x]> X) (with_row t (round t) x r)).
Proof.
  intros (HX & Hr & Hw & Hv) HK HW Hx d'. unfold at_round. cbn [l_X l_r l_data] in *.
  split; [by rewrite length_insert|]. split; [unfold with_row; by rewrite round_length|]. split.
  - intros k H1 H2. destruct (decide (k = t)) as [->|Hne].
    + subst x. apply list_lookup_total_insert_eq. rewrite HX. by apply Nat.mod_upper_bound.
    + rewrite list_lookup_total_insert_ne; [apply Hw; lia|]. intros E.
      pose proof (Nat.div_mod_eq t 16). pose proof (Nat.div_mod_eq k 16). lia.
  - rewrite round_read, Hv by done.
    assert (Hz : zip K W !! t = Some (K !!! t, W !!! t)).
    { apply lookup_zip_with_Some. exists (K !!! t), (W !!! t).
      split; [done|]. split; by apply list_lookup_lookup_total_lt. }
    by rewrite (take_S_r _ _ _ Hz), foldl_snoc, Hx.
Qed.

(** The words of the schedule. *)
Lemma schedule_length n M : length M = 16%nat -> (16 <= n)%nat -> length (schedule n M) = n.
Proof. intros HM Hn. unfold schedule. rewrite grow_length, HM. lia. Qed.

Lemma schedule_first n M t : length M = 16%nat -> (t < 16)%nat -> schedule n M !!! t = M !!! t.
Proof. intros HM Ht. apply grow_first. lia. Qed.

Lemma schedule_next n M t : length M = 16%nat -> (16 <= t < n)%nat ->
  let W := schedule n M in
  W !!! t = wrap w (sigma1 (W !!! (t - 2)%nat) + W !!! (t - 7)%nat + sigma0 (W !!! (t - 15)%nat) + W !!! (t - 16)%nat).
Proof.
  intros HM Ht W. unfold W at 1, schedule. rewrite grow_next by (rewrite HM; lia). fold (schedule n M) W.
  unfold next_word. rewrite length_take, Nat.min_l by (unfold W; rewrite schedule_length; lia).
  by rewrite !lookup_total_take_lt by lia.
Qed.

(** A round that extends the schedule. *)
Lemma at_round_schedule n M h t j l : length K = n -> length M = 16%nat -> let W := schedule n M in
  at_round W h t l -> (16 <= t < n)%nat -> (j mod 16 = t mod 16)%nat ->
  at_round W h (S t) (with_row t (fun a b c d e f g h => round_schedule t j a b c d e f g h l)).
Proof.
  intros HK HM W Hl Ht Hj. pose proof Hl as (HX & Hr & Hw & Hv). destruct l as [d X r]. cbn [l_X l_r l_data] in *.
  assert (Hat : forall k m, (k <= 15)%nat -> (m = t + k - 16)%nat -> X !!! Nat.land (j + k) 15 = W !!! m).
  { intros k m Hk Hm. rewrite land_15. replace ((j + k) mod 16)%nat with (m mod 16)%nat; [apply Hw; lia|].
    subst m. rewrite Nat.Div0.add_mod, Hj, <- Nat.Div0.add_mod.
    rewrite <- (Nat.Div0.mod_add (t + k - 16) 1). f_equal. lia. }
  unfold with_row, round_schedule. cbn [l_X l_r l_data].
  rewrite (Hat 1%nat (t - 15)%nat), (Hat 14%nat (t - 2)%nat), (Hat 9%nat (t - 7)%nat) by lia.
  replace (X !!! Nat.land j 15) with (W !!! (t - 16)%nat)
    by (symmetry; rewrite <- (Nat.add_0_r j) at 1; apply Hat; lia).
  rewrite land_15, Hj. apply (at_round_next W h t _ X r d Hl); [lia| |].
  - unfold W. rewrite schedule_length by lia. lia.
  - unfold W. rewrite (schedule_next n M t HM) by lia. f_equal. lia.
Qed.

Lemma step_length v kw : length (step v kw) = length v.
Proof. by do 9 (destruct v as [|? v]; [done|]). Qed.

Lemma foldl_step_length l v : length (foldl step v l) = length v.
Proof. revert v. induction l as [|kw l IH]; intros v; [done|]. cbn [foldl]. by rewrite IH, step_length. Qed.

Lemma fips_compress_length h M : length (fips_compress h M) = length h.
Proof. unfold fips_compress. by rewrite length_zip_with_l; rewrite ?foldl_step_length. Qed.

(** Rounds with the names of a row that has gone round. *)
Lemma with_row_add {A} (i j : nat) (f : nat -> nat -> nat -> nat -> nat -> nat -> nat -> nat -> A) :
  (i mod 8 = 0)%nat -> with_row (i + j) f = with_row j f.
Proof. intros Hi. unfold with_row, row. by rewrite Nat.Div0.add_mod, Hi, Nat.add_0_l, Nat.Div0.mod_mod. Qed.

End macros.

(** ** Words of a message and rotations of the standard *)

(** The first [n] big-endian words of [b] bytes. *)
Fixpoint words_of (n : nat) (b : Z) (l : list Z) : list Z :=
  match n with O => [] | S k => be_word (ztake b l) :: words_of k b (zdrop b l) end.

Definition ROTR (w n x : Z) : Z := Z.lor (Z.shiftr x n) (wrap w (Z.shiftl x (w - n))).
Definition SHR (n x : Z) : Z := Z.shiftr x n.

Lemma words_of_length n b l : length (words_of n b l) = n.
Proof. revert l. induction n as [|n IH]; intros l; cbn [words_of length]; [done|by rewrite IH]. Qed.

Lemma words_of_lookup n b l t : 0 <= b -> (t < n)%nat ->
  words_of n b l !!! t = be_word (ztake b (zdrop (b * Z.of_nat t) l)).
Proof.
  intros Hb. revert t l. induction n as [|n IH]; intros t l Ht; [lia|]. cbn [words_of].
  destruct t as [|t]; cbn [lookup_total list_lookup_total].
  - do 2 f_equal. unfold zdrop. by rewrite Z.mul_0_r.
  - rewrite IH by lia. do 2 f_equal. unfold zdrop. rewrite drop_drop. f_equal. nia.
Qed.

(** ** Sequences of statements *)

(** [m] runs from every state in [P] and ends in a state in [Q]. *)
Definition runs (P : locals -> Prop) (m : M locals unit) (Q : locals -> Prop) : Prop :=
  forall l, P l -> exists l', m l = Ret tt l' /\ Q l'.

Lemma runs_seq P Q R m k : runs P m Q -> runs Q k R -> runs P (m;;! k) R.
Proof.
  intros Hm Hk l Hl. destruct (Hm l Hl) as (l1 & E1 & H1). destruct (Hk l1 H1) as (l2 & E2 & H2).
  exists l2. by rewrite (bind_Ret _ _ _ _ _ E1).
Qed.

(** Statement after statement, each by the tactic. *)
Ltac run_rounds tac := repeat (eapply runs_seq; [solve [tac]|]); solve [tac].

(** ** The constants of FIPS 180-4 *)

(** The largest [x] between [r] and [r + 2 ^ b - 1] with [x ^ k <= n]. *)
Fixpoint iroot (b : nat) (k n r : Z) : Z :=
  match b with
  | O => r
  | S c => let r' := r + 2 ^ Z.of_nat c in iroot c k n (if r' ^ k <=? n then r' else r)
  end.

(** The first [bits] bits of the fractional part of the [k]-th root of [p]. *)
Definition frac_root (k bits p : Z) : Z := iroot 128 k (p * 2 ^ (k * bits)) 0 mod 2 ^ bits.

Definition is_prime (n : Z) : bool := forallb (fun d => negb (n mod d =? 0)) (seqZ 2 (n - 2)).
Definition primes : list Z := filter (fun n => Is_true (is_prime n)) (seqZ 2 408).

Lemma iroot_spec b k n r : 0 < k -> 0 <= r -> r ^ k <= n < (r + 2 ^ Z.of_nat b) ^ k ->
  let x := iroot b k n r in 0 <= x /\ x ^ k <= n < (x + 1) ^ k.
Proof.
  intros Hk. revert r. induction b as [|b IH]; intros r Hr Hn; cbn [iroot]; [by split|].
  apply IH.
  - case_bool; [|done]. pose proof (Z.pow_nonneg 2 (Z.of_nat b) ltac:(lia)). lia.
  - destruct (Z.leb_spec ((r + 2 ^ Z.of_nat b) ^ k) n); [|lia].
    replace (r + 2 ^ Z.of_nat b + 2 ^ Z.of_nat b) with (r + 2 ^ Z.of_nat (S b)); [lia|].
    rewrite Nat2Z.inj_succ, Z.pow_succ_r by lia. lia.
Qed.

Lemma frac_root_spec k bits p : 2 <= k <= 3 -> 0 <= bits <= 64 -> 0 <= p < 2 ^ 16 ->
  exists r, 0 <= r /\ r ^ k <= p * 2 ^ (k * bits) < (r + 1) ^ k /\ frac_root k bits p = r mod 2 ^ bits.
Proof.
  intros Hk Hb Hp. destruct (iroot_spec 128 k (p * 2 ^ (k * bits)) 0) as [H1 H2]; [lia|done| |].
  - rewrite Z.pow_0_l by lia. pose proof (Z.pow_pos_nonneg 2 (k * bits) ltac:(lia) ltac:(lia)).
    split; [nia|]. rewrite Z.add_0_l, <- Z.pow_mul_r by lia. change (Z.of_nat 128) with 128.
    apply Z.lt_le_trans with (2 ^ 16 * 2 ^ (k * bits)); [nia|]. rewrite <- Z.pow_add_r by lia.
    apply Z.pow_le_mono_r; [lia|nia].
  - eexists. split; [exact H1|]. by split.
Qed.


(** * BoringSSL: SHA-224 and SHA-256 (crypto/fipsmodule/sha/sha256.c)

    The portable block function (the build defines OPENSSL_NO_ASM) and the calls on a
    hash context. *)

Definition SHA224_DIGEST_LENGTH : Z := 28.
Definition SHA256_DIGEST_LENGTH : Z := 32.
Definition SHA256_CBLOCK : Z := 64.

(** The table, in the rows of the source. *)
Definition K256 : list Z := concat
  [[0x428a2f98; 0x71374491; 0xb5c0fbcf; 0xe9b5dba5; 0x3956c25b];
   [0x59f111f1; 0x923f82a4; 0xab1c5ed5; 0xd807aa98; 0x12835b01];
   [0x243185be; 0x550c7dc3; 0x72be5d74; 0x80deb1fe; 0x9bdc06a7];
   [0xc19bf174; 0xe49b69c1; 0xefbe4786; 0x0fc19dc6; 0x240ca1cc];
   [0x2de92c6f; 0x4a7484aa; 0x5cb0a9dc; 0x76f988da; 0x983e5152];
   [0xa831c66d; 0xb00327c8; 0xbf597fc7; 0xc6e00bf3; 0xd5a79147];
   [0x06ca6351; 0x14292967; 0x27b70a85; 0x2e1b2138; 0x4d2c6dfc];
   [0x53380d13; 0x650a7354; 0x766a0abb; 0x81c2c92e; 0x92722c85];
   [0xa2bfe8a1; 0xa81a664b; 0xc24b8b70; 0xc76c51a3; 0xd192e819];
   [0xd6990624; 0xf40e3585; 0x106aa070; 0x19a4c116; 0x1e376c08];
   [0x2748774c; 0x34b0bcb5; 0x391c0cb3; 0x4ed8aa4a; 0x5b9cca4f];
   [0x682e6ff3; 0x748f82ee; 0x78a5636f; 0x84c87814; 0x8cc70208];
   [0x90befffa; 0xa4506ceb; 0xbef9a3f7; 0xc67178f2]].

Definition Sigma0 (x : Z) : Z :=
  Z.lxor (Z.lxor (CRYPTO_rotr_u32 x 2) (CRYPTO_rotr_u32 x 13)) (CRYPTO_rotr_u32 x 22).
Definition Sigma1 (x : Z) : Z :=
  Z.lxor (Z.lxor (CRYPTO_rotr_u32 x 6) (CRYPTO_rotr_u32 x 11)) (CRYPTO_rotr_u32 x 25).
Definition sigma0 (x : Z) : Z :=
  Z.lxor (Z.lxor (CRYPTO_rotr_u32 x 7) (CRYPTO_rotr_u32 x 18)) (Z.shiftr x 3).
Definition sigma1 (x : Z) : Z :=
  Z.lxor (Z.lxor (CRYPTO_rotr_u32 x 17) (CRYPTO_rotr_u32 x 19)) (Z.shiftr x 10).

Definition ROUND_00_15 := round 32 Sigma0 Sigma1 K256.
Definition ROUND_16_63 (i : nat) := round_schedule 32 Sigma0 Sigma1 sigma0 sigma1 K256 i i.

(** ** The block function *)

(** [T1 = X[i] = CRYPTO_load_u32_be(data); data += 4; ROUND_00_15(i, ...)]. *)
Definition load_round (i a b c d e f g h : nat) : M locals unit := fun l =>
  match CRYPTO_load_u32_be (l_data l) 0 with
  | Some T1 => Ret tt (Locals (zdrop 4 (l_data l)) (<[i := T1]> (l_X l))
                              (ROUND_00_15 i a b c d e f g h T1 (l_r l)))
  | None => Ub
  end.
Definition schedule_round (i a b c d e f g h : nat) : M locals unit :=
  modm (ROUND_16_63 i a b c d e f g h).

Definition rounds_00_15 : M locals unit :=
  load_round 0 va vb vc vd ve vf vg vh;;!
  load_round 1 vh va vb vc vd ve vf vg;;!
  load_round 2 vg vh va vb vc vd ve vf;;!
  load_round 3 vf vg vh va vb vc vd ve;;!
  load_round 4 ve vf vg vh va vb vc vd;;!
  load_round 5 vd ve vf vg vh va vb vc;;!
  load_round 6 vc vd ve vf vg vh va vb;;!
  load_round 7 vb vc vd ve vf vg vh va;;!
  load_round 8 va vb vc vd ve vf vg vh;;!
  load_round 9 vh va vb vc vd ve vf vg;;!
  load_round 10 vg vh va vb vc vd ve vf;;!
  load_round 11 vf vg vh va vb vc vd ve;;!
  load_round 12 ve vf vg vh va vb vc vd;;!
  load_round 13 vd ve vf vg vh va vb vc;;!
  load_round 14 vc vd ve vf vg vh va vb;;!
  load_round 15 vb vc vd ve vf vg vh va.

Definition rounds_16_63 (i : nat) : M locals unit :=
  schedule_round (i + 0) va vb vc vd ve vf vg vh;;!
  schedule_round (i + 1) vh va vb vc vd ve vf vg;;!
  schedule_round (i + 2) vg vh va vb vc vd ve vf;;!
  schedule_round (i + 3) vf vg vh va vb vc vd ve;;!
  schedule_round (i + 4) ve vf vg vh va vb vc vd;;!
  schedule_round (i + 5) vd ve vf vg vh va vb vc;;!
  schedule_round (i + 6) vc vd ve vf vg vh va vb;;!
  schedule_round (i + 7) vb vc vd ve vf vg vh va.

(** [for (i = 16; i < 64; i += 8)]. *)
Fixpoint schedule_loop (fuel i : nat) : M locals unit :=
  match fuel with
  | O => nofuelm
  | S k => if (i <? 64)%nat then rounds_16_63 i;;! schedule_loop k (i + 8) else ret tt
  end.

(** [state[0] += a; ...]. *)
Definition add_to_state (state r : list Z) : list Z :=
  foldl (fun s j => <[j := u32 (s !!! j + r !!! j)]> s) state [va; vb; vc; vd; ve; vf; vg; vh].

(** [X] is written before it is read. *)
Fixpoint sha256_blocks (num : nat) (state data : list Z) : option (list Z) :=
  match num with
  | O => Some state
  | S k =>
      match (rounds_00_15;;! schedule_loop 64 16) (Locals data (replicate 16 0) state) with
      | Ret _ l => sha256_blocks k (add_to_state state (l_r l)) (l_data l)
      | _ => None
      end
  end.

Definition sha256_block_data_order (state data : list Z) (num : Z) : option (list Z) :=
  sha256_blocks (Z.to_nat num) state data.

(** ** Hash contexts *)

Record SHA256_CTX : Type := Sha256Ctx { sha_md : md32; md_len : Z }.

Definition with_md {A} (m : M md32 A) : M SHA256_CTX A := fun c =>
  match m (sha_md c) with
  | Ret a x => Ret a (Sha256Ctx x (md_len c))
  | Fail x => Fail (Sha256Ctx x (md_len c))
  | Ub => Ub
  | NoFuel => NoFuel
  end.

Definition zeroed (h : list Z) : md32 := Md32 h 0 0 (replicate 64 0) 0.

Definition SHA224_Init : M SHA256_CTX unit :=
  putm (Sha256Ctx (zeroed
    [0xc1059ed8; 0x367cd507; 0x3070dd17; 0xf70e5939; 0xffc00b31; 0x68581511; 0x64f98fa7; 0xbefa4fa4]) SHA224_DIGEST_LENGTH).
Definition SHA256_Init : M SHA256_CTX unit :=
  putm (Sha256Ctx (zeroed
    [0x6a09e667; 0xbb67ae85; 0x3c6ef372; 0xa54ff53a; 0x510e527f; 0x9b05688c; 0x1f83d9ab; 0x5be0cd19]) SHA256_DIGEST_LENGTH).

Definition SHA256_Update (data : list Z) : M SHA256_CTX unit :=
  with_md (crypto_md32_update sha256_block_data_order SHA256_CBLOCK data).
Definition SHA224_Update (data : list Z) : M SHA256_CTX unit := SHA256_Update data.

(** The bytes that are stored at [out]. *)
Definition sha256_final_impl : M SHA256_CTX (list Z) :=
  with_md (crypto_md32_final sha256_block_data_order SHA256_CBLOCK true);;!
  let! c := getm in
  if SHA256_DIGEST_LENGTH <? md_len c then failm
  else
    let out_words := Z.to_nat (md_len c / 4) in
    ret (concat (map (fun v => le_bytes 4 (CRYPTO_bswap4 v)) (take out_words (c_h (sha_md c))))).
Definition SHA256_Final : M SHA256_CTX (list Z) := sha256_final_impl.
Definition SHA224_Final : M SHA256_CTX (list Z) := sha256_final_impl.

Definition SHA256_Transform (data : list Z) : M SHA256_CTX unit :=
  with_md (call_block_func sha256_block_data_order data 1).
Definition SHA256_TransformBlocks (state data : list Z) (num_blocks : Z) : option (list Z) :=
  sha256_block_data_order state data num_blocks.

(** The local context holds anything before it is initialised. *)
Definition SHA224 (data : list Z) : M SHA256_CTX (list Z) :=
  SHA224_Init;;! SHA224_Update data;;! SHA224_Final.
Definition SHA256 (data : list Z) : M SHA256_CTX (list Z) :=
  SHA256_Init;;! SHA256_Update data;;! SHA256_Final.

Example sha256_abc : forall ctx, exists c, SHA256 [97; 98; 99] ctx =
  Ret [0xba; 0x78; 0x16; 0xbf; 0x8f; 0x01; 0xcf; 0xea; 0x41; 0x41; 0x40; 0xde; 0x5d; 0xae; 0x22; 0x23;
       0xb0; 0x03; 0x61; 0xa3; 0x96; 0x17; 0x7a; 0x9c; 0xb4; 0x10; 0xff; 0x61; 0xf2; 0x00; 0x15; 0xad] c.
Proof. intros ctx. eexists. vm_compute. reflexivity. Qed.


(** * SHA-224 and SHA-256 against FIPS 180-4

    The hash functions of the standard over constants computed from primes, and the
    proof that the calls on a context compute them however the message is cut. *)

(** ** The standard *)

Definition fips_Sigma0 (x : Z) : Z := Z.lxor (Z.lxor (ROTR 32 2 x) (ROTR 32 13 x)) (ROTR 32 22 x).
Definition fips_Sigma1 (x : Z) : Z := Z.lxor (Z.lxor (ROTR 32 6 x) (ROTR 32 11 x)) (ROTR 32 25 x).
Definition fips_sigma0 (x : Z) : Z := Z.lxor (Z.lxor (ROTR 32 7 x) (ROTR 32 18 x)) (SHR 3 x).
Definition fips_sigma1 (x : Z) : Z := Z.lxor (Z.lxor (ROTR 32 17 x) (ROTR 32 19 x)) (SHR 10 x).

(** Cube roots of the first 64 primes, square roots of the first 8, and the second half
    of the 64 bits of the square roots of the 9th to the 16th. *)
Definition fips_K : list Z := frac_root 3 32 <$> take 64 primes.
Definition fips_H256 : list Z := frac_root 2 32 <$> take 8 primes.
Definition fips_H224 : list Z := (fun p => wrap 32 (frac_root 2 64 p)) <$> take 8 (drop 8 primes).

Definition sha256_compress (h b : list Z) : list Z :=
  fips_compress 32 fips_Sigma0 fips_Sigma1 fips_sigma0 fips_sigma1 fips_K h (words_of 16 4 b).
Definition fips_sha256 (msg : list Z) : list Z :=
  concat (map (be_field 4) (md_hash sha256_compress 64 fips_H256 (be_field 8) msg)).
Definition fips_sha224 (msg : list Z) : list Z :=
  concat (map (be_field 4) (take 7 (md_hash sha256_compress 64 fips_H224 (be_field 8) msg))).

(** ** The block function *)

Lemma K256_fips : K256 = fips_K.
Proof. vm_compute. reflexivity. Qed.

Section block.
Context (data h : list Z) (Hok : bytes_ok data) (Hlen : 64 <= zlen data) (Hh : length h = 8%nat).

Let words := words_of 16 4 (ztake 64 data).
Let W := schedule 32 sigma0 sigma1 64 words.

(** Before round [t] at most, with the words of the block read so far. *)
Definition before (t : nat) (l : locals) : Prop :=
  at_round 32 Sigma0 Sigma1 K256 W h t l /\ l_data l = zdrop (4 * Z.of_nat (t `min` 16)) data.

Lemma word_at t : (t < 16)%nat ->
  CRYPTO_load_u32_be (zdrop (4 * Z.of_nat t) data) 0 = Some (W !!! t) /\
  zdrop 4 (zdrop (4 * Z.of_nat t) data) = zdrop (4 * Z.of_nat (S t)) data.
Proof.
  intros Ht. split.
  - set (d := zdrop (4 * Z.of_nat t) data).
    assert (Hd : 4 <= zlen d) by (unfold d; rewrite zlen_zdrop; lia).
    rewrite load_be32_first by (done || by apply Forall_drop).
    f_equal. unfold W. rewrite schedule_first; [|by apply words_of_length|done].
    unfold words. rewrite words_of_lookup by lia. f_equal. unfold d, ztake, zdrop.
    rewrite skipn_firstn_comm, take_take. f_equal. lia.
  - unfold zdrop. rewrite drop_drop. f_equal. lia.
Qed.

Lemma load_run t : (t < 16)%nat -> runs (before t) (with_row t (load_round t)) (before (S t)).
Proof using Hok Hlen Hh.
  intros Ht [d X r] [Hat Hd]. cbn [l_data] in Hd. rewrite Nat.min_l in Hd by lia.
  destruct (word_at t Ht) as [Hw Hn]. rewrite <- Hd in Hw, Hn.
  assert (E : with_row t (load_round t) (Locals d X r) =
    Ret tt (Locals (zdrop 4 d) (<[t := W !!! t]> X) (with_row t (ROUND_00_15 t) (W !!! t) r))).
  { unfold with_row, load_round. cbn [l_data l_X l_r]. by rewrite Hw. }
  eexists. split; [exact E|]. split; [|cbn [l_data]; rewrite Hn, Nat.min_l by lia; done].
  rewrite <- (Nat.mod_small t 16) at 2 by lia.
  apply (at_round_next _ _ _ _ _ _ _ _ X r d Hat); [cbn; lia| |done].
  unfold W. rewrite schedule_length; [lia|apply words_of_length|lia].
Qed.

Lemma schedule_run i j : (16 <= i + j < 64)%nat -> (i mod 8 = 0)%nat -> (j < 8)%nat ->
  runs (before (i + j)) (with_row j (schedule_round (i + j))) (before (S (i + j))).
Proof using Hok Hlen Hh.
  intros Hij Hi Hj l [Hat Hd]. rewrite <- (with_row_add i j) by done.
  exists (with_row (i + j) (fun a b c d e f g h => ROUND_16_63 (i + j) a b c d e f g h l)).
  split; [reflexivity|]. split.
  - apply (at_round_schedule 32 Sigma0 Sigma1 sigma0 sigma1 K256 64 words h (i + j) (i + j) l);
      [reflexivity|apply words_of_length|exact Hat|exact Hij|reflexivity].
  - change (l_data _) with (l_data l). rewrite Hd. do 3 f_equal. lia.
Qed.

Lemma rounds_00_15_run : runs (before 0) rounds_00_15 (before 16).
Proof using Hok Hlen Hh. unfold rounds_00_15. run_rounds ltac:(simple eapply load_run; lia). Qed.

Lemma rounds_16_63_run i : (16 <= i)%nat -> (i + 8 <= 64)%nat -> (i mod 8 = 0)%nat ->
  runs (before i) (rounds_16_63 i) (before (i + 8)).
Proof using Hok Hlen Hh.
  intros H1 H2 Hi. rewrite <- (Nat.add_0_r i) at 1. replace (i + 8)%nat with (S (i + 7)) by lia.
  assert (H : forall j, (j < 8)%nat -> runs (before (i + j)) (with_row j (schedule_round (i + j))) (before (i + S j))).
  { intros j Hj. rewrite Nat.add_succ_r. apply schedule_run; [lia|done|done]. }
  rewrite <- Nat.add_succ_r. unfold rounds_16_63. run_rounds ltac:(simple eapply H; lia).
Qed.

Lemma schedule_loop_run fuel : forall i, (16 <= i <= 64)%nat -> (i mod 8 = 0)%nat -> (64 < i + 8 * fuel)%nat ->
  runs (before i) (schedule_loop fuel i) (before 64).
Proof using Hok Hlen Hh.
  induction fuel as [|fuel IH]; intros i Hi Hm Hf; [lia|]. cbn [schedule_loop].
  destruct (Nat.ltb_spec i 64) as [H|H].
  - assert (i + 8 <= 64)%nat by (pose proof (Nat.div_mod_eq i 8); lia).
    eapply runs_seq; [apply rounds_16_63_run; lia|]. apply IH; [lia| |lia].
    by rewrite <- (Nat.mul_1_l 8), Nat.Div0.mod_add.
  - replace i with 64%nat by lia. intros l Hl. by exists l.
Qed.

Lemma one_block_run : runs (before 0) (rounds_00_15;;! schedule_loop 64 16) (before 64).
Proof using Hok Hlen Hh. eapply runs_seq; [apply rounds_00_15_run|]. apply schedule_loop_run; [lia|done|lia]. Qed.

(** The variables after the last round are the standard's. *)
Lemma one_block : exists l, (rounds_00_15;;! schedule_loop 64 16) (Locals data (replicate 16 0) h) = Ret tt l /\
  l_data l = zdrop 64 data /\ add_to_state h (l_r l) = sha256_compress h (ztake 64 data).
Proof using Hok Hlen Hh.
  destruct (one_block_run (Locals data (replicate 16 0) h)) as (l & E & (_ & Hr & _ & Hv) & Hd).
  { split; [|done]. split; [done|]. split; [done|]. split; [lia|]. cbn [l_r take foldl].
    clear -Hh. by eight h. }
  exists l. split; [exact E|]. split; [exact Hd|]. unfold sha256_compress, fips_compress.
  rewrite <- K256_fips. change (length K256) with 64%nat.
  change fips_Sigma0 with Sigma0. change fips_Sigma1 with Sigma1. change fips_sigma0 with sigma0.
  change fips_sigma1 with sigma1. fold words W.
  rewrite take_ge in Hv by (rewrite length_zip_with_l; [done|]; unfold W; rewrite schedule_length;
    [done|apply words_of_length|lia]).
  rewrite <- Hv. clear -Hr Hh. destruct l as [d X r]. cbn [l_r] in *.
  by eight h.
Qed.

End block.

Lemma blocks_run n : forall h data, length h = 8%nat -> bytes_ok data -> 64 * Z.of_nat n <= zlen data ->
  sha256_blocks n h data = Some (absorb sha256_compress 64 n h data).
Proof.
  induction n as [|n IH]; intros h data Hh Hok Hlen; [done|]. cbn [sha256_blocks absorb].
  destruct (one_block data h Hok ltac:(lia) Hh) as (l & -> & -> & ->).
  apply IH; [|by apply Forall_drop|rewrite zlen_zdrop; lia].
  unfold sha256_compress. by rewrite fips_compress_length.
Qed.

#[export] Program Instance sha256_block_function : BlockFunction sha256_block_data_order 64 :=
  {| compress := sha256_compress; state_ok h := length h = 8%nat |}.
Next Obligation. done. Qed.
Next Obligation.
  intros h b Hh _ _. unfold sha256_compress. by rewrite fips_compress_length.
Qed.
Next Obligation.
  intros h l n Hh Hok Hn Hlen. apply blocks_run; [done|done|lia].
Qed.

(** ** The calls *)

(** The contexts that hold the bytes [msg]. *)
Definition holds_sha256 (h0 : list Z) (len : Z) (msg : list Z) (c : SHA256_CTX) : Prop :=
  bytes_ok msg /\ holds_md32 sha256_block_data_order 64 h0 msg (sha_md c) /\ md_len c = len.

Lemma holds_zeroed h len : length h = 8%nat -> holds_sha256 h len [] (Sha256Ctx (zeroed h) len).
Proof.
  intros Hh. split; [by constructor|]. split; [|done]. split; [by apply gathered_nil|].
  by repeat split.
Qed.

Lemma sha256_init_run c : exists c', SHA256_Init c = Ret tt c' /\ holds_sha256 fips_H256 32 [] c'.
Proof. eexists. split; [reflexivity|]. by apply holds_zeroed. Qed.

Lemma sha224_init_run c : exists c', SHA224_Init c = Ret tt c' /\ holds_sha256 fips_H224 28 [] c'.
Proof. eexists. split; [reflexivity|]. by apply holds_zeroed. Qed.

Lemma sha256_update_run h0 len msg data c : length h0 = 8%nat -> bytes_ok data -> zlen data < 2 ^ 64 ->
  holds_sha256 h0 len msg c ->
  exists c', SHA256_Update data c = Ret tt c' /\ holds_sha256 h0 len (msg ++ data) c'.
Proof.
  intros Hh Hd Hlen (Hm & Hc & Hl).
  destruct (md32_update_run _ _ (BF:=sha256_block_function) h0 msg data (sha_md c) Hh Hm Hd Hlen Hc) as (c' & E & Hc').
  eexists. unfold SHA256_Update, with_md, SHA256_CBLOCK. rewrite E. split; [reflexivity|].
  split; [by apply Forall_app|]. by split.
Qed.

Lemma sha256_final_run h0 len msg c : length h0 = 8%nat -> 0 <= len <= 32 ->
  holds_sha256 h0 len msg c ->
  exists c', sha256_final_impl c = Ret (concat (map (be_field 4)
    (take (Z.to_nat (len / 4)) (md_hash sha256_compress 64 h0 (be_field 8) msg)))) c'.
Proof.
  intros Hh Hlen (Hm & Hc & Hl).
  destruct (md32_final_run _ _ (BF:=sha256_block_function) h0 msg (sha_md c) true Hh Hm Hc) as (Nl & Nh & E).
  unfold sha256_final_impl, with_md, SHA256_CBLOCK, bind, getm. rewrite E. cbn [md_len sha_md c_h].
  rewrite Hl. unfold SHA256_DIGEST_LENGTH. bool_false (32 <? len). eexists. unfold ret. f_equal. f_equal.
  apply map_ext. intros v. apply bswap_bytes.
Qed.


(** * BoringSSL: SHA-384, SHA-512 and SHA-512/256 (crypto/fipsmodule/sha/sha512.c)

    The portable block function for 64-bit targets and the calls on a hash context,
    which has a collector of its own. *)

Definition SHA384_DIGEST_LENGTH : Z := 48.
Definition SHA512_DIGEST_LENGTH : Z := 64.
Definition SHA512_256_DIGEST_LENGTH : Z := 32.
Definition SHA512_CBLOCK : Z := 128.

Definition K512 : list Z :=
  [0x428a2f98d728ae22; 0x7137449123ef65cd; 0xb5c0fbcfec4d3b2f; 0xe9b5dba58189dbbc;
   0x3956c25bf348b538; 0x59f111f1b605d019; 0x923f82a4af194f9b; 0xab1c5ed5da6d8118;
   0xd807aa98a3030242; 0x12835b0145706fbe; 0x243185be4ee4b28c; 0x550c7dc3d5ffb4e2;
   0x72be5d74f27b896f; 0x80deb1fe3b1696b1; 0x9bdc06a725c71235; 0xc19bf174cf692694;
   0xe49b69c19ef14ad2; 0xefbe4786384f25e3; 0x0fc19dc68b8cd5b5; 0x240ca1cc77ac9c65;
   0x2de92c6f592b0275; 0x4a7484aa6ea6e483; 0x5cb0a9dcbd41fbd4; 0x76f988da831153b5;
   0x983e5152ee66dfab; 0xa831c66d2db43210; 0xb00327c898fb213f; 0xbf597fc7beef0ee4;
   0xc6e00bf33da88fc2; 0xd5a79147930aa725; 0x06ca6351e003826f; 0x142929670a0e6e70;
   0x27b70a8546d22ffc; 0x2e1b21385c26c926; 0x4d2c6dfc5ac42aed; 0x53380d139d95b3df;
   0x650a73548baf63de; 0x766a0abb3c77b2a8; 0x81c2c92e47edaee6; 0x92722c851482353b;
   0xa2bfe8a14cf10364; 0xa81a664bbc423001; 0xc24b8b70d0f89791; 0xc76c51a30654be30;
   0xd192e819d6ef5218; 0xd69906245565a910; 0xf40e35855771202a; 0x106aa07032bbd1b8;
   0x19a4c116b8d2d0c8; 0x1e376c085141ab53; 0x2748774cdf8eeb99; 0x34b0bcb5e19b48a8;
   0x391c0cb3c5c95a63; 0x4ed8aa4ae3418acb; 0x5b9cca4f7763e373; 0x682e6ff3d6b2b8a3;
   0x748f82ee5defb2fc; 0x78a5636f43172f60; 0x84c87814a1f0ab72; 0x8cc702081a6439ec;
   0x90befffa23631e28; 0xa4506cebde82bde9; 0xbef9a3f7b2c67915; 0xc67178f2e372532b;
   0xca273eceea26619c; 0xd186b8c721c0c207; 0xeada7dd6cde0eb1e; 0xf57d4f7fee6ed178;
   0x06f067aa72176fba; 0x0a637dc5a2c898a6; 0x113f9804bef90dae; 0x1b710b35131c471b;
   0x28db77f523047d84; 0x32caab7b40c72493; 0x3c9ebe0a15c9bebc; 0x431d67c49c100d4c;
   0x4cc5d4becb3e42b6; 0x597f299cfc657e2a; 0x5fcb6fab3ad6faec; 0x6c44198c4a475817].

Definition Sigma0_512 (x : Z) : Z :=
  Z.lxor (Z.lxor (CRYPTO_rotr_u64 x 28) (CRYPTO_rotr_u64 x 34)) (CRYPTO_rotr_u64 x 39).
Definition Sigma1_512 (x : Z) : Z :=
  Z.lxor (Z.lxor (CRYPTO_rotr_u64 x 14) (CRYPTO_rotr_u64 x 18)) (CRYPTO_rotr_u64 x 41).
Definition sigma0_512 (x : Z) : Z :=
  Z.lxor (Z.lxor (CRYPTO_rotr_u64 x 1) (CRYPTO_rotr_u64 x 8)) (Z.shiftr x 7).
Definition sigma1_512 (x : Z) : Z :=
  Z.lxor (Z.lxor (CRYPTO_rotr_u64 x 19) (CRYPTO_rotr_u64 x 61)) (Z.shiftr x 6).

Definition ROUND512_00_15 := round 64 Sigma0_512 Sigma1_512 K512.
Definition ROUND_16_80 (i j : nat) :=
  round_schedule 64 Sigma0_512 Sigma1_512 sigma0_512 sigma1_512 K512 (i + j) j.

(** ** The block function *)

(** [T1 = X[i] = CRYPTO_load_u64_be(in + 8 * i); ROUND_00_15(i, ...)]. *)
Definition load_round512 (i a b c d e f g h : nat) : M locals unit := fun l =>
  match CRYPTO_load_u64_be (l_data l) (Z.of_nat i * 8) with
  | Some T1 => Ret tt (Locals (l_data l) (<[i := T1]> (l_X l))
                              (ROUND512_00_15 i a b c d e f g h T1 (l_r l)))
  | None => Ub
  end.
Definition schedule_round512 (i j a b c d e f g h : nat) : M locals unit :=
  modm (ROUND_16_80 i j a b c d e f g h).

Definition rounds512_00_15 : M locals unit :=
  load_round512 0 va vb vc vd ve vf vg vh;;!
  load_round512 1 vh va vb vc vd ve vf vg;;!
  load_round512 2 vg vh va vb vc vd ve vf;;!
  load_round512 3 vf vg vh va vb vc vd ve;;!
  load_round512 4 ve vf vg vh va vb vc vd;;!
  load_round512 5 vd ve vf vg vh va vb vc;;!
  load_round512 6 vc vd ve vf vg vh va vb;;!
  load_round512 7 vb vc vd ve vf vg vh va;;!
  load_round512 8 va vb vc vd ve vf vg vh;;!
  load_round512 9 vh va vb vc vd ve vf vg;;!
  load_round512 10 vg vh va vb vc vd ve vf;;!
  load_round512 11 vf vg vh va vb vc vd ve;;!
  load_round512 12 ve vf vg vh va vb vc vd;;!
  load_round512 13 vd ve vf vg vh va vb vc;;!
  load_round512 14 vc vd ve vf vg vh va vb;;!
  load_round512 15 vb vc vd ve vf vg vh va.

Definition rounds512_16_80 (i : nat) : M locals unit :=
  schedule_round512 i 0 va vb vc vd ve vf vg vh;;!
  schedule_round512 i 1 vh va vb vc vd ve vf vg;;!
  schedule_round512 i 2 vg vh va vb vc vd ve vf;;!
  schedule_round512 i 3 vf vg vh va vb vc vd ve;;!
  schedule_round512 i 4 ve vf vg vh va vb vc vd;;!
  schedule_round512 i 5 vd ve vf vg vh va vb vc;;!
  schedule_round512 i 6 vc vd ve vf vg vh va vb;;!
  schedule_round512 i 7 vb vc vd ve vf vg vh va;;!
  schedule_round512 i 8 va vb vc vd ve vf vg vh;;!
  schedule_round512 i 9 vh va vb vc vd ve vf vg;;!
  schedule_round512 i 10 vg vh va vb vc vd ve vf;;!
  schedule_round512 i 11 vf vg vh va vb vc vd ve;;!
  schedule_round512 i 12 ve vf vg vh va vb vc vd;;!
  schedule_round512 i 13 vd ve vf vg vh va vb vc;;!
  schedule_round512 i 14 vc vd ve vf vg vh va vb;;!
  schedule_round512 i 15 vb vc vd ve vf vg vh va.

(** [for (i = 16; i < 80; i += 16)]. *)
Fixpoint schedule512_loop (fuel i : nat) : M locals unit :=
  match fuel with
  | O => nofuelm
  | S k => if (i <? 80)%nat then rounds512_16_80 i;;! schedule512_loop k (i + 16) else ret tt
  end.

(** [state[0] += a; ...]. *)
Definition add_to_state512 (state r : list Z) : list Z :=
  foldl (fun s j => <[j := u64 (s !!! j + r !!! j)]> s) state [va; vb; vc; vd; ve; vf; vg; vh].

Fixpoint sha512_blocks (num : nat) (state data : list Z) : option (list Z) :=
  match num with
  | O => Some state
  | S k =>
      match (rounds512_00_15;;! schedule512_loop 80 16) (Locals data (replicate 16 0) state) with
      | Ret _ l => sha512_blocks k (add_to_state512 state (l_r l)) (zdrop (16 * 8) (l_data l))
      | _ => None
      end
  end.

Definition sha512_block_data_order (state data : list Z) (num : Z) : option (list Z) :=
  sha512_blocks (Z.to_nat num) state data.

(** ** Hash contexts *)

(** The array [p] is the field [c_data]. *)
Record SHA512_CTX : Type := Sha512Ctx { sha5_md : md32; md_len5 : Z }.

Definition with_md5 {A} (m : M md32 A) : M SHA512_CTX A := fun c =>
  match m (sha5_md c) with
  | Ret a x => Ret a (Sha512Ctx x (md_len5 c))
  | Fail x => Fail (Sha512Ctx x (md_len5 c))
  | Ub => Ub
  | NoFuel => NoFuel
  end.

(** [p] stays as it is. *)
Definition init_with (h : list Z) (len : Z) (c : SHA512_CTX) : SHA512_CTX :=
  Sha512Ctx (Md32 h 0 0 (c_data (sha5_md c)) 0) len.

Definition SHA384_Init : M SHA512_CTX unit :=
  modm (init_with
    [0xcbbb9d5dc1059ed8; 0x629a292a367cd507; 0x9159015a3070dd17; 0x152fecd8f70e5939;
     0x67332667ffc00b31; 0x8eb44a8768581511; 0xdb0c2e0d64f98fa7; 0x47b5481dbefa4fa4] SHA384_DIGEST_LENGTH).

Definition SHA512_Init : M SHA512_CTX unit :=
  modm (init_with
    [0x6a09e667f3bcc908; 0xbb67ae8584caa73b; 0x3c6ef372fe94f82b; 0xa54ff53a5f1d36f1;
     0x510e527fade682d1; 0x9b05688c2b3e6c1f; 0x1f83d9abfb41bd6b; 0x5be0cd19137e2179] SHA512_DIGEST_LENGTH).

Definition SHA512_256_Init : M SHA512_CTX unit :=
  modm (init_with
    [0x22312194fc2bf72c; 0x9f555fa3c84c64c2; 0x2393b86b6f53b151; 0x963877195940eabd;
     0x96283ee2a88effe3; 0xbe5e1e2553863992; 0x2b0199fc2c85b8aa; 0x0eb72ddc81c52ca2] SHA512_256_DIGEST_LENGTH).

(** The whole blocks of [data] and what is left of it. *)
Definition sha512_rest (data : list Z) (len : Z) : M md32 unit :=
  let! (data, len) :=
    (if SHA512_CBLOCK <=? len then
       call_block_func sha512_block_data_order data (len / SHA512_CBLOCK);;!
       ret (zdrop (len - len mod SHA512_CBLOCK) data, len mod SHA512_CBLOCK)
     else ret (data, len)) in
  if negb (len =? 0) then
    copy_to_data 0 data len;;!
    modm (set_num (u32 len))
  else ret tt.

(** [OPENSSL_memcpy(p + i, data, n)] is [copy_to_data]. *)
Definition sha512_update (in_data : list Z) : M md32 unit :=
  let len := zlen in_data in
  if len =? 0 then ret tt
  else
    let! c := getm in
    let l := u64 (c_Nl c + u64 (Z.shiftl len 3)) in
    (if l <? c_Nl c then modm (fun c => set_Nh (u64 (c_Nh c + 1)) c) else ret tt);;!
    modm (fun c => set_Nh (u64 (c_Nh c + Z.shiftr len 61)) c);;!
    modm (set_Nl l);;!
    if negb (c_num c =? 0) then
      let n := u64 (SHA512_CBLOCK - c_num c) in
      if len <? n then
        copy_to_data (c_num c) in_data len;;!
        modm (fun c => set_num (u32 (c_num c + u32 len)) c)
      else
        copy_to_data (c_num c) in_data n;;!
        modm (set_num 0);;!
        let len := u64 (len - n) in
        let data := zdrop n in_data in
        let! c := getm in
        call_block_func sha512_block_data_order (c_data c) 1;;!
        sha512_rest data len
    else sha512_rest in_data len.
Definition SHA512_Update (in_data : list Z) : M SHA512_CTX unit := with_md5 (sha512_update in_data).
Definition SHA384_Update (data : list Z) : M SHA512_CTX unit := SHA512_Update data.
Definition SHA512_256_Update (data : list Z) : M SHA512_CTX unit := SHA512_Update data.

(** The padding and the last blocks. *)
Definition sha512_pad : M md32 unit :=
  let! c := getm in
  let n := c_num c in
  poke_data n 0x80;;!
  let n := u64 (n + 1) in
  let! n :=
    (if u64 (SHA512_CBLOCK - 16) <? n then
       clear_data n (u64 (SHA512_CBLOCK - n));;!
       let! c := getm in
       call_block_func sha512_block_data_order (c_data c) 1;;!
       ret 0
     else ret n) in
  clear_data n (u64 (u64 (SHA512_CBLOCK - 16) - n));;!
  (let! c := getm in
   store_data CRYPTO_store_u64_be (SHA512_CBLOCK - 16) (c_Nh c);;!
   store_data CRYPTO_store_u64_be (SHA512_CBLOCK - 8) (c_Nl c));;!
  let! c := getm in
  call_block_func sha512_block_data_order (c_data c) 1;;!
  ret tt.

(** The bytes that are stored at [out]; [false] for a null [out]. *)
Definition sha512_final_impl (out : bool) : M SHA512_CTX (list Z) :=
  with_md5 sha512_pad;;!
  if negb out then failm
  else
    let! c := getm in
    let out_words := Z.to_nat (md_len5 c / 8) in
    ret (concat (map (fun v => le_bytes 8 (CRYPTO_bswap8 v)) (take out_words (c_h (sha5_md c))))).
Definition SHA384_Final : M SHA512_CTX (list Z) := sha512_final_impl true.
Definition SHA512_Final : M SHA512_CTX (list Z) := sha512_final_impl true.
Definition SHA512_256_Final : M SHA512_CTX (list Z) := sha512_final_impl true.

Definition SHA512_Transform (block : list Z) : M SHA512_CTX unit :=
  with_md5 (call_block_func sha512_block_data_order block 1).

(** The local context holds anything before it is initialised. *)
Definition SHA384 (data : list Z) : M SHA512_CTX (list Z) :=
  SHA384_Init;;! SHA384_Update data;;! SHA384_Final.
Definition SHA512 (data : list Z) : M SHA512_CTX (list Z) :=
  SHA512_Init;;! SHA512_Update data;;! SHA512_Final.
Definition SHA512_256 (data : list Z) : M SHA512_CTX (list Z) :=
  SHA512_256_Init;;! SHA512_256_Update data;;! SHA512_256_Final.

Example sha512_256_abc : exists c,
  SHA512_256 [97; 98; 99] (Sha512Ctx (Md32 [] 0 0 (replicate 128 0xa5) 7) 9) =
  Ret [0x53; 0x04; 0x8E; 0x26; 0x81; 0x94; 0x1E; 0xF9; 0x9B; 0x2E; 0x29; 0xB7; 0x6B; 0x4C; 0x7D; 0xAB;
       0xE4; 0xC2; 0xD0; 0xC6; 0x34; 0xFC; 0x6D; 0x46; 0xE0; 0xE2; 0xF1; 0x31; 0x07; 0xE7; 0xAF; 0x23] c.
Proof. eexists. vm_compute. reflexivity. Qed.


(** * SHA-384, SHA-512 and SHA-512/256 against FIPS 180-4

    The hash functions of the standard over constants computed from primes, and the
    proof that the calls on a context compute them however the message is cut. *)

(** ** The standard *)

Definition fips512_Sigma0 (x : Z) : Z := Z.lxor (Z.lxor (ROTR 64 28 x) (ROTR 64 34 x)) (ROTR 64 39 x).
Definition fips512_Sigma1 (x : Z) : Z := Z.lxor (Z.lxor (ROTR 64 14 x) (ROTR 64 18 x)) (ROTR 64 41 x).
Definition fips512_sigma0 (x : Z) : Z := Z.lxor (Z.lxor (ROTR 64 1 x) (ROTR 64 8 x)) (SHR 7 x).
Definition fips512_sigma1 (x : Z) : Z := Z.lxor (Z.lxor (ROTR 64 19 x) (ROTR 64 61 x)) (SHR 6 x).

(** Cube roots of the first 80 primes, square roots of the first 8 and the next 8. *)
Definition fips512_K : list Z := frac_root 3 64 <$> take 80 primes.
Definition fips_H512 : list Z := frac_root 2 64 <$> take 8 primes.
Definition fips_H384 : list Z := frac_root 2 64 <$> take 8 (drop 8 primes).

Definition sha512_compress (h b : list Z) : list Z :=
  fips_compress 64 fips512_Sigma0 fips512_Sigma1 fips512_sigma0 fips512_sigma1 fips512_K h (words_of 16 8 b).
Definition sha512_hash (h0 msg : list Z) : list Z := md_hash sha512_compress 128 h0 (be_field 16) msg.
Definition fips_sha512 (msg : list Z) : list Z := concat (map (be_field 8) (sha512_hash fips_H512 msg)).
Definition fips_sha384 (msg : list Z) : list Z := concat (map (be_field 8) (take 6 (sha512_hash fips_H384 msg))).

(** Section 5.3.6 of the standard: the initial value of SHA-512/t is the hash of the
    name "SHA-512/256" from a masked initial value. *)
Definition fips_H512_256 : list Z :=
  sha512_hash ((fun x => Z.lxor x 0xa5a5a5a5a5a5a5a5) <$> fips_H512)
    [83; 72; 65; 45; 53; 49; 50; 47; 50; 53; 54].
Definition fips_sha512_256 (msg : list Z) : list Z :=
  concat (map (be_field 8) (take 4 (sha512_hash fips_H512_256 msg))).

(** ** The block function *)

Lemma K512_fips : K512 = fips512_K.
Proof. vm_compute. reflexivity. Qed.

Section block.
Context (data h : list Z) (Hok : bytes_ok data) (Hlen : 128 <= zlen data) (Hh : length h = 8%nat).

Let words := words_of 16 8 (ztake 128 data).
Let W := schedule 64 sigma0_512 sigma1_512 80 words.

Definition before512 (t : nat) (l : locals) : Prop :=
  at_round 64 Sigma0_512 Sigma1_512 K512 W h t l /\ l_data l = data.

Lemma word512_at t : (t < 16)%nat -> CRYPTO_load_u64_be data (Z.of_nat t * 8) = Some (W !!! t).
Proof using Hok Hlen Hh.
  intros Ht. set (i := Z.of_nat t * 8).
  assert (Hd : 8 <= zlen (zdrop i data)) by (rewrite zlen_zdrop; lia).
  rewrite <- (ztake_zdrop i data), <- (ztake_zdrop 8 (zdrop i data)).
  rewrite load_be64_app; [|rewrite zlen_ztake; lia|by apply zlen_ztake|by apply Forall_take, Forall_drop].
  f_equal. unfold W. rewrite schedule_first; [|by apply words_of_length|done].
  unfold words. rewrite words_of_lookup by lia. f_equal. unfold i, ztake, zdrop.
  rewrite skipn_firstn_comm, take_take. f_equal; [lia|]. f_equal. lia.
Qed.

Lemma load512_run t : (t < 16)%nat -> runs (before512 t) (with_row t (load_round512 t)) (before512 (S t)).
Proof using Hok Hlen Hh.
  intros Ht [d X r] [Hat Hd]. cbn [l_data] in Hd. subst d. pose proof (word512_at t Ht) as Hw.
  assert (E : with_row t (load_round512 t) (Locals data X r) =
    Ret tt (Locals data (<[t := W !!! t]> X) (with_row t (ROUND512_00_15 t) (W !!! t) r))).
  { unfold with_row, load_round512. cbn [l_data l_X l_r]. by rewrite Hw. }
  eexists. split; [exact E|]. split; [|done]. rewrite <- (Nat.mod_small t 16) at 2 by lia.
  apply (at_round_next _ _ _ _ _ _ _ _ X r data Hat); [cbn; lia| |done].
  unfold W. rewrite schedule_length; [lia|apply words_of_length|lia].
Qed.

Lemma schedule512_run i j : (16 <= i + j < 80)%nat -> (i mod 16 = 0)%nat -> (j < 16)%nat ->
  runs (before512 (i + j)) (with_row j (schedule_round512 i j)) (before512 (S (i + j))).
Proof using Hok Hlen Hh.
  intros Hij Hi Hj l [Hat Hd]. rewrite <- (with_row_add i j).
  2: { pose proof (Nat.div_mod_eq i 16). pose proof (Nat.div_mod_eq i 8). pose proof (Nat.mod_upper_bound i 8 ltac:(lia)). lia. }
  exists (with_row (i + j) (fun a b c d e f g h => ROUND_16_80 i j a b c d e f g h l)).
  split; [reflexivity|]. split; [|exact Hd].
  apply (at_round_schedule 64 Sigma0_512 Sigma1_512 sigma0_512 sigma1_512 K512 80 words h (i + j) j l);
    [reflexivity|apply words_of_length|exact Hat|exact Hij|].
  by rewrite Nat.Div0.add_mod, Hi, Nat.add_0_l, Nat.Div0.mod_mod.
Qed.

Lemma rounds512_00_15_run : runs (before512 0) rounds512_00_15 (before512 16).
Proof using Hok Hlen Hh. unfold rounds512_00_15. run_rounds ltac:(simple eapply load512_run; lia). Qed.

Lemma rounds512_16_80_run i : (16 <= i)%nat -> (i + 16 <= 80)%nat -> (i mod 16 = 0)%nat ->
  runs (before512 i) (rounds512_16_80 i) (before512 (i + 16)).
Proof using Hok Hlen Hh.
  intros H1 H2 Hi. rewrite <- (Nat.add_0_r i) at 1. replace (i + 16)%nat with (S (i + 15)) by lia.
  assert (H : forall j, (j < 16)%nat ->
    runs (before512 (i + j)) (with_row j (schedule_round512 i j)) (before512 (i + S j))).
  { intros j Hj. rewrite Nat.add_succ_r. apply schedule512_run; [lia|done|done]. }
  rewrite <- Nat.add_succ_r. unfold rounds512_16_80. run_rounds ltac:(simple eapply H; lia).
Qed.

Lemma schedule512_loop_run fuel : forall i, (16 <= i <= 80)%nat -> (i mod 16 = 0)%nat -> (80 < i + 16 * fuel)%nat ->
  runs (before512 i) (schedule512_loop fuel i) (before512 80).
Proof using Hok Hlen Hh.
  induction fuel as [|fuel IH]; intros i Hi Hm Hf; [lia|]. cbn [schedule512_loop].
  destruct (Nat.ltb_spec i 80) as [H|H].
  - assert (i + 16 <= 80)%nat by (pose proof (Nat.div_mod_eq i 16); lia).
    eapply runs_seq; [apply rounds512_16_80_run; lia|]. apply IH; [lia| |lia].
    by rewrite <- (Nat.mul_1_l 16), Nat.Div0.mod_add.
  - replace i with 80%nat by lia. intros l Hl. by exists l.
Qed.

(** The variables after the last round are the standard's. *)
Lemma one_block512 :
  exists l, (rounds512_00_15;;! schedule512_loop 80 16) (Locals data (replicate 16 0) h) = Ret tt l /\
  l_data l = data /\ add_to_state512 h (l_r l) = sha512_compress h (ztake 128 data).
Proof using Hok Hlen Hh.
  assert (Hrun : runs (before512 0) (rounds512_00_15;;! schedule512_loop 80 16) (before512 80)).
  { eapply runs_seq; [apply rounds512_00_15_run|]. apply schedule512_loop_run; [lia|done|lia]. }
  destruct (Hrun (Locals data (replicate 16 0) h)) as (l & E & (_ & Hr & _ & Hv) & Hd).
  { split; [|done]. split; [done|]. split; [done|]. split; [lia|]. cbn [l_r take foldl].
    clear -Hh. by eight h. }
  exists l. split; [exact E|]. split; [exact Hd|]. unfold sha512_compress, fips_compress.
  rewrite <- K512_fips. change (length K512) with 80%nat.
  change fips512_Sigma0 with Sigma0_512. change fips512_Sigma1 with Sigma1_512.
  change fips512_sigma0 with sigma0_512. change fips512_sigma1 with sigma1_512. fold words W.
  rewrite take_ge in Hv by (rewrite length_zip_with_l; [done|]; unfold W; rewrite schedule_length;
    [done|apply words_of_length|lia]).
  rewrite <- Hv. clear -Hr Hh. destruct l as [d X r]. cbn [l_r] in *. by eight h.
Qed.

End block.

Lemma sha512_compress_length h b : length (sha512_compress h b) = length h.
Proof. unfold sha512_compress. by rewrite fips_compress_length. Qed.

Lemma blocks512_run n : forall h data, length h = 8%nat -> bytes_ok data -> 128 * Z.of_nat n <= zlen data ->
  sha512_blocks n h data = Some (absorb sha512_compress 128 n h data).
Proof.
  induction n as [|n IH]; intros h data Hh Hok Hlen; [done|]. cbn [sha512_blocks absorb].
  destruct (one_block512 data h Hok ltac:(lia) Hh) as (l & -> & -> & ->). change (16 * 8) with 128.
  apply IH; [by rewrite sha512_compress_length|by apply Forall_drop|rewrite zlen_zdrop; lia].
Qed.

#[export] Program Instance sha512_block_function : BlockFunction sha512_block_data_order 128 :=
  {| compress := sha512_compress; state_ok h := length h = 8%nat |}.
Next Obligation. done. Qed.
Next Obligation. intros h b Hh _ _. cbn beta. by rewrite sha512_compress_length. Qed.
Next Obligation. intros h l n Hh Hok Hn Hlen. apply blocks512_run; [done|done|lia]. Qed.

(** ** The calls *)

Definition holds512 (h0 msg : list Z) (c : md32) : Prop :=
  gathered sha512_compress 128 h0 msg (c_h c) (c_data c) (c_num c) /\ counted 64 msg (c_Nh c) (c_Nl c).

(** The contexts that hold the bytes [msg]. *)
Definition holds_sha512 (h0 : list Z) (len : Z) (msg : list Z) (c : SHA512_CTX) : Prop :=
  bytes_ok msg /\ holds512 h0 msg (sha5_md c) /\ md_len5 c = len.

Lemma sha512_init_holds h len c : zlen (c_data (sha5_md c)) = 128 -> holds_sha512 h len [] (init_with h len c).
Proof.
  intros Hp. split; [by constructor|]. split; [|done]. split; [by apply gathered_nil|]. by repeat split.
Qed.

Lemma sha512_init_run c : zlen (c_data (sha5_md c)) = 128 ->
  exists c', SHA512_Init c = Ret tt c' /\ holds_sha512 fips_H512 64 [] c'.
Proof. intros Hp. eexists. split; [reflexivity|]. by apply (sha512_init_holds fips_H512). Qed.

Lemma sha384_init_run c : zlen (c_data (sha5_md c)) = 128 ->
  exists c', SHA384_Init c = Ret tt c' /\ holds_sha512 fips_H384 48 [] c'.
Proof. intros Hp. eexists. split; [reflexivity|]. by apply (sha512_init_holds fips_H384). Qed.

Lemma H512_256_fips : fips_H512_256 =
  [0x22312194fc2bf72c; 0x9f555fa3c84c64c2; 0x2393b86b6f53b151; 0x963877195940eabd;
   0x96283ee2a88effe3; 0xbe5e1e2553863992; 0x2b0199fc2c85b8aa; 0x0eb72ddc81c52ca2].
Proof. vm_compute. reflexivity. Qed.

Lemma sha512_256_init_run c : zlen (c_data (sha5_md c)) = 128 ->
  exists c', SHA512_256_Init c = Ret tt c' /\ holds_sha512 fips_H512_256 32 [] c'.
Proof. intros Hp. rewrite H512_256_fips. eexists. split; [reflexivity|]. by apply sha512_init_holds. Qed.

Lemma sha512_rest_run (k : nat) h0 full l Nl Nh p :
  length h0 = 8%nat -> bytes_ok full -> bytes_ok l -> zlen l < 2 ^ 64 ->
  zlen full = 128 * Z.of_nat k -> zlen p = 128 ->
  exists h p' num', gathered sha512_compress 128 h0 (full ++ l) h p' num' /\
    sha512_rest l (zlen l) (Md32 (absorb sha512_compress 128 k h0 full) Nl Nh p 0) = Ret tt (Md32 h Nl Nh p' num').
Proof.
  intros H0 Hfull Hl Hlen Ek Hp. pose proof (zlen_nonneg l). set (q := zlen l / 128).
  pose proof (Z.div_mod (zlen l) 128 ltac:(lia)) as Em. fold q in Em.
  pose proof (Z.mod_pos_bound (zlen l) 128 ltac:(lia)). assert (0 <= q) by (apply Z.div_pos; lia).
  set (rest := zdrop (q * 128) l). assert (Er : zlen rest = zlen l - q * 128) by (apply zlen_zdrop; lia).
  set (h1 := absorb sha512_compress 128 (Z.to_nat q) (absorb sha512_compress 128 k h0 full) l).
  set (p' := rest ++ zdrop (zlen rest) p).
  assert (Hp' : zlen p' = 128) by (unfold p'; rewrite zlen_app, zlen_zdrop; lia).
  exists h1, p', (zlen l - q * 128).
  split; [by apply (gather_blocks _ _ (BF:=sha512_block_function) k h0 full l p' (zdrop (zlen rest) p))|].
  assert (Hcall : (if SHA512_CBLOCK <=? zlen l then
      call_block_func sha512_block_data_order l (zlen l / SHA512_CBLOCK);;!
      ret (zdrop (zlen l - zlen l mod SHA512_CBLOCK) l, zlen l mod SHA512_CBLOCK)
    else ret (l, zlen l)) (Md32 (absorb sha512_compress 128 k h0 full) Nl Nh p 0) =
    Ret (rest, zlen rest) (Md32 h1 Nl Nh p 0)).
  { unfold SHA512_CBLOCK. fold q. destruct (Z.leb_spec 128 (zlen l)) as [Hq|Hq].
    - erewrite bind_Ret by (apply (call_ok _ _ (BF:=sha512_block_function)); [|done|lia|lia];
        apply (absorb_state _ _ (BF:=sha512_block_function)); [done|done|lia]).
      unfold ret. rewrite Er. replace (zlen l mod 128) with (zlen l - q * 128) by lia.
      by replace (zlen l - (zlen l - q * 128)) with (q * 128) by lia.
    - assert (q = 0) as Eq by lia. unfold h1, rest, ret. by rewrite Eq. }
  unfold sha512_rest. cbn zeta. erewrite bind_Ret by exact Hcall. cbn beta iota.
  destruct (Z.eqb_spec (zlen rest) 0) as [Hz|Hz]; cbn [negb].
  - unfold ret, p', h1. rewrite Hz, <- Er, Hz. destruct rest; [|unfold zlen in Hz; cbn in Hz; lia].
    cbn [app]. unfold zdrop. cbn [Z.to_nat]. by rewrite drop_0.
  - erewrite bind_Ret by (apply copy_start; lia). unfold modm, set_num. cbn [c_h c_Nl c_Nh c_data].
    rewrite wrap_small by (change (2 ^ 32) with 4294967296; lia). unfold p'. by rewrite Er.
Qed.

Lemma count_bits512 msg l Nh Nl : counted 64 msg Nh Nl ->
  let x := u64 (Nl + u64 (Z.shiftl (zlen l) 3)) in
  let Nh1 := if x <? Nl then u64 (Nh + 1) else Nh in
  counted 64 (msg ++ l) (u64 (Nh1 + Z.shiftr (zlen l) 61)) x.
Proof.
  intros Hc x Nh1. apply (counted_add 64 msg l Nh Nl); [done|done| |].
  - unfold x, wrap. rewrite Z.shiftl_mul_pow2 by lia. change (2 ^ 3) with 8.
    change (2 ^ 64) with 18446744073709551616. rewrite Z.add_mod_idemp_r by lia. f_equal. lia.
  - unfold Nh1, wrap. rewrite Z.shiftr_div_pow2 by lia. change (64 - 3) with 61.
    change (2 ^ 64) with 18446744073709551616.
    destruct (x <? Nl); [|do 2 f_equal; lia]. by rewrite Z.add_mod_idemp_l by lia.
Qed.

Lemma sha512_md_update_run h0 msg data c : length h0 = 8%nat -> bytes_ok msg -> bytes_ok data ->
  zlen data < 2 ^ 64 -> holds512 h0 msg c ->
  exists c', sha512_update data c = Ret tt c' /\ holds512 h0 (msg ++ data) c'.
Proof.
  intros H0 Hmsg Hin Hlen [Hg Hc]. pose proof (zlen_nonneg data) as Hn0.
  unfold sha512_update. destruct (Z.eqb_spec (zlen data) 0) as [Hz|Hz].
  { destruct data; [|unfold zlen in Hz; cbn in Hz; lia]. exists c. by rewrite app_nil_r. }
  pose proof (count_bits512 msg data _ _ Hc) as Hc'. cbn zeta in Hc'. destruct c as [h Nl Nh p num].
  cbn [c_h c_Nl c_Nh c_data c_num] in *. set (x := u64 (Nl + _)) in *.
  set (Nh' := u64 (_ + Z.shiftr (zlen data) 61)) in *.
  pose proof Hg as (k & full & tail & junk & Em & Ek & Eh & Ed & El & Ht & En). pose proof (zlen_nonneg tail).
  assert (bytes_ok full /\ bytes_ok tail) as [Hfull Htail] by (apply Forall_app; by rewrite <- Em).
  unfold bind at 1, getm at 1. cbn [c_Nl c_num]. fold x.
  assert (Hcount : forall k', ((if x <? Nl then modm (fun c => set_Nh (u64 (c_Nh c + 1)) c) else ret tt);;!
      modm (fun c => set_Nh (u64 (c_Nh c + Z.shiftr (zlen data) 61)) c);;! modm (set_Nl x);;! k')
      (Md32 h Nl Nh p num) = k' (Md32 h x Nh' p num) :> out md32 unit).
  { intros k'. unfold Nh'. by destruct (x <? Nl). }
  rewrite Hcount. clear Hcount. clearbody Nh' x.
  destruct (Z.eqb_spec num 0) as [Hnum|Hnum]; cbn [negb].
  - destruct tail; [|unfold zlen in *; cbn in *; lia]. rewrite app_nil_r in Em. subst h num msg.
    destruct (sha512_rest_run k h0 full data x Nh' p) as (h' & d' & n' & Hg' & Hrun); try done.
    eexists. split; [exact Hrun|]. by split.
  - change (2 ^ 64) with 18446744073709551616 in Hlen. unfold SHA512_CBLOCK. cbn zeta.
    rewrite (wrap_small 64 (128 - num)) by (change (2 ^ 64) with 18446744073709551616; lia).
    assert (Hjunk : zlen junk = 128 - num) by (rewrite Ed, zlen_app in El; lia).
    destruct (Z.ltb_spec (zlen data) (128 - num)) as [Hunder|Hover].
    + set (old := ztake (zlen data) junk). set (post := zdrop (zlen data) junk).
      assert (Ej : p = tail ++ old ++ post) by (unfold old, post; by rewrite ztake_zdrop).
      assert (Eo : zlen old = zlen data) by (apply zlen_ztake; lia).
      assert (Hcopy : copy_to_data num data (zlen data) (Md32 h x Nh' p num) =
                      Ret tt (Md32 h x Nh' (tail ++ data ++ post) num)).
      { clearbody old post. rewrite Ej, En, <- (app_nil_r data) at 1. by apply copy_ok. }
      erewrite bind_Ret by exact Hcopy. unfold modm, set_num. cbn [c_h c_Nl c_Nh c_data c_num].
      eexists. split; [reflexivity|]. split; [|done]. cbn [c_h c_data c_num].
      rewrite (wrap_small 32 (zlen data)), wrap_small by (change (2 ^ 32) with 4294967296; lia).
      apply (gather_partial _ _ (BF:=sha512_block_function) h0 msg h tail old); [by rewrite <- Ej|done|done|lia].
    + set (n := 128 - num). set (fst_ := ztake n data). set (rest := zdrop n data).
      assert (Ein : data = fst_ ++ rest) by (symmetry; apply ztake_zdrop).
      assert (Ef : zlen fst_ = n) by (apply zlen_ztake; lia).
      assert (Hrest : zlen data - n = zlen rest) by (rewrite Ein, zlen_app; lia).
      assert (bytes_ok fst_ /\ bytes_ok rest) as [Hfo Hro] by (apply Forall_app; by rewrite <- Ein).
      assert (Hcopy : copy_to_data num data n (Md32 h x Nh' p num) = Ret tt (Md32 h x Nh' (tail ++ fst_) num)).
      { clearbody fst_ rest. rewrite Ed, <- (app_nil_r junk), Ein, En, <- (app_nil_r fst_) at 1.
        rewrite <- app_assoc. rewrite copy_ok by lia. by rewrite app_nil_r. }
      erewrite bind_Ret by exact Hcopy. unfold modm at 1, bind at 1, set_num. cbn [c_h c_Nl c_Nh c_data].
      unfold bind at 1, getm. cbn [c_data].
      assert (Eb : zlen (tail ++ fst_) = 128) by (rewrite zlen_app; lia).
      assert (Hbo : bytes_ok (tail ++ fst_)) by (by apply Forall_app).
      erewrite bind_Ret by (apply (call_ok _ _ (BF:=sha512_block_function)); [subst h;
        apply (absorb_state _ _ (BF:=sha512_block_function)); [done|done|lia]|done|lia|lia]).
      rewrite Hrest, wrap_small by (change (2 ^ 64) with 18446744073709551616; pose proof (zlen_nonneg rest); lia).
      change compress with sha512_compress. rewrite Eh, <- absorb_app by (done || lia).
      destruct (sha512_rest_run (k + 1) h0 (full ++ tail ++ fst_) rest x Nh' (tail ++ fst_))
        as (h' & d' & n' & Hg' & Hrun); try done.
      * by apply Forall_app.
      * change (2 ^ 64) with 18446744073709551616. lia.
      * rewrite zlen_app, Ek, Eb. lia.
      * eexists. split; [exact Hrun|]. split; [|done]. cbn [c_h c_data c_num].
        replace (msg ++ data) with ((full ++ tail ++ fst_) ++ rest); [done|].
        rewrite Em, Ein. by rewrite <- !app_assoc.
Qed.

(** The two words of the count. *)
Lemma counted_words512 msg Nh Nl : counted 64 msg Nh Nl ->
  be_field 8 Nh ++ be_field 8 Nl = be_field 16 (8 * zlen msg).
Proof.
  intros (HNh & HNl & E). unfold be_field. rewrite <- rev_app_distr. f_equal.
  rewrite le_bytes_app by done. change (8 * Z.of_nat 8) with 64. rewrite E. apply (le_bytes_wrap 16).
Qed.

Lemma sha512_pad_run h0 msg c : length h0 = 8%nat -> bytes_ok msg -> holds512 h0 msg c ->
  exists Nl Nh p n, zlen p = 128 /\ sha512_pad c = Ret tt (Md32 (sha512_hash h0 msg) Nl Nh p n).
Proof.
  intros H0 Hmsg [Hg Hc]. destruct c as [h Nl Nh data num]. cbn [c_h c_Nl c_Nh c_data c_num] in *.
  unfold sha512_pad, bind at 1, getm at 1. cbn [c_num].
  set (store := (let! c := getm in store_data _ _ (c_Nh c);;! _)).
  destruct (final_blocks_run _ _ (BF:=sha512_block_function) 16 (be_field 16) store h0 msg h data num Nl Nh (ret tt))
    as (d & Hd & E); [lia| |done|done|done|].
  - split; [apply zlen_be_field|]. split; [apply be_field_ok|]. intros h' pre old m Hp Ho.
    unfold store, bind, getm, SHA512_CBLOCK. cbn [c_Nh c_Nl].
    rewrite <- (ztake_zdrop 8 old). set (o1 := ztake 8 old). set (o2 := zdrop 8 old).
    assert (H1 : zlen o1 = 8) by (apply zlen_ztake; lia).
    assert (H2 : zlen o2 = 8) by (unfold o2; rewrite zlen_zdrop; lia).
    unfold store_data. cbn [c_data]. rewrite store_be64_app by lia. unfold set_data. cbn [c_h c_Nl c_Nh c_data c_num].
    rewrite app_assoc, <- (app_nil_r o2), store_be64_app; [|rewrite zlen_app, zlen_be_field; lia|done].
    by rewrite <- (counted_words512 msg Nh Nl Hc), app_nil_r, app_assoc.
  - cbn zeta in E. unfold SHA512_CBLOCK in *. rewrite E. by exists Nl, Nh, d, num.
Qed.

Lemma sha512_update_run h0 len msg data c : length h0 = 8%nat -> bytes_ok data -> zlen data < 2 ^ 64 ->
  holds_sha512 h0 len msg c ->
  exists c', SHA512_Update data c = Ret tt c' /\ holds_sha512 h0 len (msg ++ data) c'.
Proof.
  intros Hh Hd Hlen (Hm & Hc & Hl).
  destruct (sha512_md_update_run h0 msg data (sha5_md c) Hh Hm Hd Hlen Hc) as (c' & E & Hc').
  eexists. unfold SHA512_Update, with_md5. rewrite E. split; [reflexivity|].
  split; [by apply Forall_app|]. by split.
Qed.

Lemma sha512_final_run h0 len msg c : length h0 = 8%nat -> holds_sha512 h0 len msg c ->
  exists c', sha512_final_impl true c = Ret (concat (map (be_field 8)
    (take (Z.to_nat (len / 8)) (sha512_hash h0 msg)))) c'.
Proof.
  intros Hh (Hm & Hc & Hl). destruct (sha512_pad_run h0 msg (sha5_md c) Hh Hm Hc) as (Nl & Nh & p & n & Hp & E).
  unfold sha512_final_impl, with_md5, bind, getm. rewrite E. cbn [md_len5 sha5_md c_h negb].
  rewrite Hl. eexists. unfold ret. f_equal. f_equal. apply map_ext. intros v. apply bswap_bytes.
Qed.


(** * BoringSSL: the constants of SHA-2

    The tables of sha256.c and sha512.c and the initial values that the calls set, from
    the definition FIPS 180-4 gives of them: bits of roots of primes. *)

(** [x] is the first [bits] bits of the fractional part of the [k]-th root of [p]. *)
Definition root_bits (k bits x p : Z) : Prop :=
  exists r, 0 <= r /\ r ^ k <= p * 2 ^ (k * bits) < (r + 1) ^ k /\ x = r mod 2 ^ bits.

Lemma is_prime_spec n : Is_true (is_prime n) <-> forall d, 2 <= d < n -> n mod d <> 0.
Proof.
  unfold is_prime. rewrite Is_true_true, forallb_forall. split.
  - intros H d Hd. specialize (H d ltac:(apply list_elem_of_In, elem_of_seqZ; lia)).
    by apply negb_true_iff, Z.eqb_neq in H.
  - intros H d Hd%list_elem_of_In%elem_of_seqZ. apply negb_true_iff, Z.eqb_neq, H. lia.
Qed.

Lemma primes_16_bits : Forall (fun p => 0 <= p < 2 ^ 16) primes.
Proof.
  apply Forall_forall. intros p Hp. apply list_elem_of_filter in Hp as [_ Hp]. apply elem_of_seqZ in Hp.
  change (2 ^ 16) with 65536. lia.
Qed.

Lemma roots_of k bits l : 2 <= k <= 3 -> 0 <= bits <= 64 -> Forall (fun p => 0 <= p < 2 ^ 16) l ->
  Forall2 (root_bits k bits) (frac_root k bits <$> l) l.
Proof.
  intros Hk Hb Hl. apply Forall2_fmap_l, Forall_Forall2_diag. eapply Forall_impl; [exact Hl|].
  intros p Hp. exact (frac_root_spec k bits p Hk Hb Hp).
Qed.

(** C40: The constants of SHA-2 are those of FIPS 180-4.  Every entry of the tables K256 and K512 is
    the first 32 or 64 bits of the fractional part of the cube root of the prime of its place, the
    initial values that SHA256_Init, SHA512_Init and SHA384_Init set are those of the square roots of
    the first eight primes and of the next eight, those of SHA-224 are the second words of the
    latter, and those of SHA512_256_Init are the hash of the name "SHA-512/256" from the masked
    initial value of SHA-512, as computed by the block function of the code. *)
Theorem sha2_constants :
  (forall i p, primes !! i = Some p -> forall d, 2 <= d < p -> p mod d <> 0) /\
  (forall n, 2 <= n < 410 -> (forall d, 2 <= d < n -> n mod d <> 0) -> n ∈ primes) /\
  Forall2 (root_bits 3 32) K256 (take 64 primes) /\
  Forall2 (root_bits 3 64) K512 (take 80 primes) /\
  (forall c, exists h, SHA256_Init c = Ret tt (Sha256Ctx (zeroed h) 32) /\ Forall2 (root_bits 2 32) h (take 8 primes)) /\
  (forall c, exists h, SHA512_Init c = Ret tt (init_with h 64 c) /\ Forall2 (root_bits 2 64) h (take 8 primes)) /\
  (forall c, exists h, SHA384_Init c = Ret tt (init_with h 48 c) /\ Forall2 (root_bits 2 64) h (take 8 (drop 8 primes)) /\
     forall c', SHA224_Init c' = Ret tt (Sha256Ctx (zeroed (u32 <$> h)) 28)) /\
  (forall c, exists h, SHA512_256_Init c = Ret tt (init_with h 32 c) /\
     exists c', (SHA512_Init;;! modm (fun c => init_with ((fun x => Z.lxor x 0xa5a5a5a5a5a5a5a5) <$> c_h (sha5_md c)) 64 c);;!
                 SHA512_Update [83; 72; 65; 45; 53; 49; 50; 47; 50; 53; 54];;! SHA512_Final)
                  (Sha512Ctx (Md32 [] 0 0 (replicate 128 0) 0) 0) = Ret (concat (map (be_field 8) h)) c').
Proof.
  assert (Hp : forall n m, Forall (fun p => 0 <= p < 2 ^ 16) (take n (drop m primes))).
  { intros n m. apply Forall_take, Forall_drop, primes_16_bits. }
  split_and!.
  - intros i p Hi d Hd. apply list_elem_of_lookup_2, list_elem_of_filter in Hi as [Hi _].
    by apply is_prime_spec.
  - intros n Hn H. apply list_elem_of_filter. split; [by apply is_prime_spec|]. apply elem_of_seqZ. lia.
  - rewrite K256_fips. apply roots_of; [lia|lia|apply (Hp 64%nat 0%nat)].
  - rewrite K512_fips. apply roots_of; [lia|lia|apply (Hp 80%nat 0%nat)].
  - intros c. exists fips_H256. split; [reflexivity|]. apply roots_of; [lia|lia|apply (Hp 8%nat 0%nat)].
  - intros c. exists fips_H512. split; [reflexivity|]. apply roots_of; [lia|lia|apply (Hp 8%nat 0%nat)].
  - intros c. exists fips_H384. split; [reflexivity|]. split; [|reflexivity].
    apply roots_of; [lia|lia|apply Hp].
  - intros c. eexists. split; [reflexivity|]. eexists. vm_compute. reflexivity.
Qed.
