(* ===== verification/Sha1.v ===== *)
(** * BoringSSL: SHA-1 (crypto/fipsmodule/sha/sha1.c)

    The portable block function, the calls on a hash context, and FIPS 180-4. *)
From S2P Require Import Prelude WordOps Md32 Sha2.

Definition SHA_DIGEST_LENGTH : Z := 20.
Definition SHA_CBLOCK : Z := 64.

Definition K_00_19 : Z := 0x5a827999.
Definition K_20_39 : Z := 0x6ed9eba1.
Definition K_40_59 : Z := 0x8f1bbcdc.
Definition K_60_79 : Z := 0xca62c1d6.

Definition F_00_19 (b c d : Z) : Z := Z.lxor (Z.land (Z.lxor c d) b) d.
Definition F_20_39 (b c d : Z) : Z := Z.lxor (Z.lxor b c) d.
Definition F_40_59 (b c d : Z) : Z := Z.lor (Z.land b c) (Z.land (Z.lor b c) d).
Definition F_60_79 (b c d : Z) : Z := F_20_39 b c d.

(** The numbers of the variables in [l_r]; [l_X] holds [XX0] to [XX15]. *)
Definition rA : nat := 0.
Definition rB : nat := 1.
Definition rC : nat := 2.
Definition rD : nat := 3.
Definition rE : nat := 4.
Definition rT : nat := 5.

(** [X(i) = CRYPTO_load_u32_be(data); data += 4]. *)
Definition load_word (i : nat) : M locals unit := fun l =>
  match CRYPTO_load_u32_be (l_data l) 0 with
  | Some x => Ret tt (Locals (zdrop 4 (l_data l)) (<[i := x]> (l_X l)) (l_r l))
  | None => Ub
  end.

(** [a = ia ^ ib ^ ic ^ id; ix = a = CRYPTO_rotl_u32(a, 1)]; the arguments after [ix]
    are words of the schedule. *)
Definition Xupdate (a ix ia ib ic id : nat) : M locals unit := modm (fun l =>
  let X := l_X l in
  let v := CRYPTO_rotl_u32 (Z.lxor (Z.lxor (Z.lxor (X !!! ia) (X !!! ib)) (X !!! ic)) (X !!! id)) 1 in
  Locals (l_data l) (<[ix := v]> X) (<[a := v]> (l_r l))).

(** [f = v; b = CRYPTO_rotl_u32(b, 30)], where [v] is computed from the variables. *)
Definition set_f_rot_b (f b : nat) (v : locals -> Z) : M locals unit := modm (fun l =>
  let r := <[f := u32 (v l)]> (l_r l) in
  Locals (l_data l) (l_X l) (<[b := CRYPTO_rotl_u32 (r !!! b) 30]> r)).

Definition BODY_00_15 (i a b c d e f xi : nat) : M locals unit :=
  set_f_rot_b f b (fun l => let r := l_r l in
    l_X l !!! xi + r !!! e + K_00_19 + CRYPTO_rotl_u32 (r !!! a) 5 + F_00_19 (r !!! b) (r !!! c) (r !!! d)).
Definition BODY_16_19 (i a b c d e f xi xa xb xc xd : nat) : M locals unit :=
  Xupdate f xi xa xb xc xd;;!
  set_f_rot_b f b (fun l => let r := l_r l in
    r !!! f + (r !!! e + K_00_19 + CRYPTO_rotl_u32 (r !!! a) 5 + F_00_19 (r !!! b) (r !!! c) (r !!! d))).
Definition BODY_20_31 (i a b c d e f xi xa xb xc xd : nat) : M locals unit :=
  Xupdate f xi xa xb xc xd;;!
  set_f_rot_b f b (fun l => let r := l_r l in
    r !!! f + (r !!! e + K_20_39 + CRYPTO_rotl_u32 (r !!! a) 5 + F_20_39 (r !!! b) (r !!! c) (r !!! d))).
Definition BODY_32_39 (i a b c d e f xa xb xc xd : nat) : M locals unit :=
  Xupdate f xa xa xb xc xd;;!
  set_f_rot_b f b (fun l => let r := l_r l in
    r !!! f + (r !!! e + K_20_39 + CRYPTO_rotl_u32 (r !!! a) 5 + F_20_39 (r !!! b) (r !!! c) (r !!! d))).
Definition BODY_40_59 (i a b c d e f xa xb xc xd : nat) : M locals unit :=
  Xupdate f xa xa xb xc xd;;!
  set_f_rot_b f b (fun l => let r := l_r l in
    r !!! f + (r !!! e + K_40_59 + CRYPTO_rotl_u32 (r !!! a) 5 + F_40_59 (r !!! b) (r !!! c) (r !!! d))).
Definition BODY_60_79 (i a b c d e f xa xb xc xd : nat) : M locals unit :=
  Xupdate f xa xa xb xc xd;;!
  set_f_rot_b f b (fun l => let r := l_r l in
    l_X l !!! xa + r !!! e + K_60_79 + CRYPTO_rotl_u32 (r !!! a) 5 + F_60_79 (r !!! b) (r !!! c) (r !!! d)).

Definition sha1_rounds_00_15 : M locals unit :=
  load_word 0;;!
  load_word 1;;!
  BODY_00_15 0 rA rB rC rD rE rT 0;;!
  load_word 2;;!
  BODY_00_15 1 rT rA rB rC rD rE 1;;!
  load_word 3;;!
  BODY_00_15 2 rE rT rA rB rC rD 2;;!
  load_word 4;;!
  BODY_00_15 3 rD rE rT rA rB rC 3;;!
  load_word 5;;!
  BODY_00_15 4 rC rD rE rT rA rB 4;;!
  load_word 6;;!
  BODY_00_15 5 rB rC rD rE rT rA 5;;!
  load_word 7;;!
  BODY_00_15 6 rA rB rC rD rE rT 6;;!
  load_word 8;;!
  BODY_00_15 7 rT rA rB rC rD rE 7;;!
  load_word 9;;!
  BODY_00_15 8 rE rT rA rB rC rD 8;;!
  load_word 10;;!
  BODY_00_15 9 rD rE rT rA rB rC 9;;!
  load_word 11;;!
  BODY_00_15 10 rC rD rE rT rA rB 10;;!
  load_word 12;;!
  BODY_00_15 11 rB rC rD rE rT rA 11;;!
  load_word 13;;!
  BODY_00_15 12 rA rB rC rD rE rT 12;;!
  load_word 14;;!
  BODY_00_15 13 rT rA rB rC rD rE 13;;!
  load_word 15;;!
  BODY_00_15 14 rE rT rA rB rC rD 14;;!
  BODY_00_15 15 rD rE rT rA rB rC 15.

Definition sha1_rounds_16_79 : M locals unit :=
  BODY_16_19 16 rC rD rE rT rA rB 0 0 2 8 13;;!
  BODY_16_19 17 rB rC rD rE rT rA 1 1 3 9 14;;!
  BODY_16_19 18 rA rB rC rD rE rT 2 2 4 10 15;;!
  BODY_16_19 19 rT rA rB rC rD rE 3 3 5 11 0;;!
  BODY_20_31 20 rE rT rA rB rC rD 4 4 6 12 1;;!
  BODY_20_31 21 rD rE rT rA rB rC 5 5 7 13 2;;!
  BODY_20_31 22 rC rD rE rT rA rB 6 6 8 14 3;;!
  BODY_20_31 23 rB rC rD rE rT rA 7 7 9 15 4;;!
  BODY_20_31 24 rA rB rC rD rE rT 8 8 10 0 5;;!
  BODY_20_31 25 rT rA rB rC rD rE 9 9 11 1 6;;!
  BODY_20_31 26 rE rT rA rB rC rD 10 10 12 2 7;;!
  BODY_20_31 27 rD rE rT rA rB rC 11 11 13 3 8;;!
  BODY_20_31 28 rC rD rE rT rA rB 12 12 14 4 9;;!
  BODY_20_31 29 rB rC rD rE rT rA 13 13 15 5 10;;!
  BODY_20_31 30 rA rB rC rD rE rT 14 14 0 6 11;;!
  BODY_20_31 31 rT rA rB rC rD rE 15 15 1 7 12;;!
  BODY_32_39 32 rE rT rA rB rC rD 0 2 8 13;;!
  BODY_32_39 33 rD rE rT rA rB rC 1 3 9 14;;!
  BODY_32_39 34 rC rD rE rT rA rB 2 4 10 15;;!
  BODY_32_39 35 rB rC rD rE rT rA 3 5 11 0;;!
  BODY_32_39 36 rA rB rC rD rE rT 4 6 12 1;;!
  BODY_32_39 37 rT rA rB rC rD rE 5 7 13 2;;!
  BODY_32_39 38 rE rT rA rB rC rD 6 8 14 3;;!
  BODY_32_39 39 rD rE rT rA rB rC 7 9 15 4;;!
  BODY_40_59 40 rC rD rE rT rA rB 8 10 0 5;;!
  BODY_40_59 41 rB rC rD rE rT rA 9 11 1 6;;!
  BODY_40_59 42 rA rB rC rD rE rT 10 12 2 7;;!
  BODY_40_59 43 rT rA rB rC rD rE 11 13 3 8;;!
  BODY_40_59 44 rE rT rA rB rC rD 12 14 4 9;;!
  BODY_40_59 45 rD rE rT rA rB rC 13 15 5 10;;!
  BODY_40_59 46 rC rD rE rT rA rB 14 0 6 11;;!
  BODY_40_59 47 rB rC rD rE rT rA 15 1 7 12;;!
  BODY_40_59 48 rA rB rC rD rE rT 0 2 8 13;;!
  BODY_40_59 49 rT rA rB rC rD rE 1 3 9 14;;!
  BODY_40_59 50 rE rT rA rB rC rD 2 4 10 15;;!
  BODY_40_59 51 rD rE rT rA rB rC 3 5 11 0;;!
  BODY_40_59 52 rC rD rE rT rA rB 4 6 12 1;;!
  BODY_40_59 53 rB rC rD rE rT rA 5 7 13 2;;!
  BODY_40_59 54 rA rB rC rD rE rT 6 8 14 3;;!
  BODY_40_59 55 rT rA rB rC rD rE 7 9 15 4;;!
  BODY_40_59 56 rE rT rA rB rC rD 8 10 0 5;;!
  BODY_40_59 57 rD rE rT rA rB rC 9 11 1 6;;!
  BODY_40_59 58 rC rD rE rT rA rB 10 12 2 7;;!
  BODY_40_59 59 rB rC rD rE rT rA 11 13 3 8;;!
  BODY_60_79 60 rA rB rC rD rE rT 12 14 4 9;;!
  BODY_60_79 61 rT rA rB rC rD rE 13 15 5 10;;!
  BODY_60_79 62 rE rT rA rB rC rD 14 0 6 11;;!
  BODY_60_79 63 rD rE rT rA rB rC 15 1 7 12;;!
  BODY_60_79 64 rC rD rE rT rA rB 0 2 8 13;;!
  BODY_60_79 65 rB rC rD rE rT rA 1 3 9 14;;!
  BODY_60_79 66 rA rB rC rD rE rT 2 4 10 15;;!
  BODY_60_79 67 rT rA rB rC rD rE 3 5 11 0;;!
  BODY_60_79 68 rE rT rA rB rC rD 4 6 12 1;;!
  BODY_60_79 69 rD rE rT rA rB rC 5 7 13 2;;!
  BODY_60_79 70 rC rD rE rT rA rB 6 8 14 3;;!
  BODY_60_79 71 rB rC rD rE rT rA 7 9 15 4;;!
  BODY_60_79 72 rA rB rC rD rE rT 8 10 0 5;;!
  BODY_60_79 73 rT rA rB rC rD rE 9 11 1 6;;!
  BODY_60_79 74 rE rT rA rB rC rD 10 12 2 7;;!
  BODY_60_79 75 rD rE rT rA rB rC 11 13 3 8;;!
  BODY_60_79 76 rC rD rE rT rA rB 12 14 4 9;;!
  BODY_60_79 77 rB rC rD rE rT rA 13 15 5 10;;!
  BODY_60_79 78 rA rB rC rD rE rT 14 0 6 11;;!
  BODY_60_79 79 rT rA rB rC rD rE 15 1 7 12.

(** [state[0] = (state[0] + E) & 0xffffffffL; ...]. *)
Definition add_to_state1 (state r : list Z) : list Z :=
  foldl (fun s (jk : nat * nat) => <[jk.1 := Z.land (s !!! jk.1 + r !!! jk.2) 0xffffffff]> s) state
    [(0, rE); (1, rT); (2, rA); (3, rB); (4, rC)]%nat.

(** The loop runs before it tests [num]; [T] and the words are written before they are read. *)
Fixpoint sha1_blocks (num : nat) (state data : list Z) : option (list Z) :=
  match (sha1_rounds_00_15;;! sha1_rounds_16_79) (Locals data (replicate 16 0) (take 5 state ++ [0])) with
  | Ret _ l =>
      let state := add_to_state1 state (l_r l) in
      match num with
      | O | S O => Some state
      | S k => sha1_blocks k state (l_data l)
      end
  | _ => None
  end.

(** A count of zero makes the loop run on beyond any memory. *)
Definition sha1_block_data_order (state data : list Z) (num : Z) : option (list Z) :=
  if num =? 0 then None else sha1_blocks (Z.to_nat num) state data.

(** ** Hash contexts *)

Definition SHA_CTX : Type := md32.

Definition SHA1_Init : M SHA_CTX unit :=
  putm (Md32 [0x67452301; 0xefcdab89; 0x98badcfe; 0x10325476; 0xc3d2e1f0] 0 0 (replicate 64 0) 0).
Definition SHA1_Update (data : list Z) : M SHA_CTX unit :=
  crypto_md32_update sha1_block_data_order SHA_CBLOCK data.
(** The bytes that are stored at [out]. *)
Definition SHA1_Final : M SHA_CTX (list Z) :=
  crypto_md32_final sha1_block_data_order SHA_CBLOCK true;;!
  let! c := getm in
  let word (i : nat) := le_bytes 4 (CRYPTO_bswap4 (c_h c !!! i)) in
  ret (word 0 ++ word 1 ++ word 2 ++ word 3 ++ word 4)%nat.
Definition SHA1_Transform (data : list Z) : M SHA_CTX unit :=
  call_block_func sha1_block_data_order data 1.
(** The local context holds anything before it is initialised. *)
Definition SHA1 (data : list Z) : M SHA_CTX (list Z) :=
  SHA1_Init;;! SHA1_Update data;;! SHA1_Final.

Example sha1_abc : forall ctx, exists c, SHA1 [97; 98; 99] ctx =
  Ret [0xa9; 0x99; 0x3e; 0x36; 0x47; 0x06; 0x81; 0x6a; 0xba; 0x3e; 0x25; 0x71; 0x78; 0x50; 0xc2; 0x6c;
       0x9c; 0xd0; 0xd8; 0x9d] c.
Proof. intros ctx. eexists. vm_compute. reflexivity. Qed.


(** * SHA-1 against FIPS 180-4

    The hash function of the standard, and the proof that the calls on a context
    compute it however the message is cut. *)

(** ** The standard *)

Definition ROTL (w n x : Z) : Z := Z.lor (wrap w (Z.shiftl x n)) (Z.shiftr x (w - n)).

(** Functions of words: a complement is always met with a word. *)
Definition fips_Ch (x y z : Z) : Z := Z.lxor (Z.land x y) (Z.land (Z.lnot x) z).
Definition fips_Parity (x y z : Z) : Z := Z.lxor (Z.lxor x y) z.
Definition fips_Maj (x y z : Z) : Z := Z.lxor (Z.lxor (Z.land x y) (Z.land x z)) (Z.land y z).

Definition sha1_f (t : nat) : Z -> Z -> Z -> Z :=
  if (t <? 20)%nat then fips_Ch else if (t <? 40)%nat then fips_Parity
  else if (t <? 60)%nat then fips_Maj else fips_Parity.
Definition sha1_K (t : nat) : Z :=
  if (t <? 20)%nat then 0x5a827999 else if (t <? 40)%nat then 0x6ed9eba1
  else if (t <? 60)%nat then 0x8f1bbcdc else 0xca62c1d6.

Definition sha1_next (W : list Z) : Z :=
  let t := length W in
  ROTL 32 1 (Z.lxor (Z.lxor (Z.lxor (W !!! (t - 3)%nat) (W !!! (t - 8)%nat)) (W !!! (t - 14)%nat)) (W !!! (t - 16)%nat)).

Definition sha1_step (v : list Z) (tw : nat * Z) : list Z :=
  match v with
  | [a; b; c; d; e] =>
      [u32 (ROTL 32 5 a + sha1_f tw.1 b c d + e + sha1_K tw.1 + tw.2); a; ROTL 32 30 b; c; d]
  | _ => v
  end.

Definition sha1_compress (h b : list Z) : list Z :=
  zip_with (fun x y => u32 (x + y)) h (foldl sha1_step h (zip (seq 0 80) (grow sha1_next 64 (words_of 16 4 b)))).
Definition fips_sha1 (msg : list Z) : list Z :=
  concat (map (be_field 4)
    (md_hash sha1_compress 64 [0x67452301; 0xefcdab89; 0x98badcfe; 0x10325476; 0xc3d2e1f0] (be_field 8) msg)).

(** ** The functions the code writes otherwise *)

Lemma F_00_19_Ch b c d : F_00_19 b c d = fips_Ch b c d.
Proof.
  unfold F_00_19, fips_Ch. apply Z.bits_inj'. intros n Hn. rewrite !Z.lxor_spec, !Z.land_spec, Z.lxor_spec, Z.lnot_spec by done.
  by destruct (Z.testbit b n), (Z.testbit c n), (Z.testbit d n).
Qed.

Lemma F_40_59_Maj b c d : F_40_59 b c d = fips_Maj b c d.
Proof.
  unfold F_40_59, fips_Maj. apply Z.bits_inj'. intros n Hn. rewrite !Z.lxor_spec, Z.lor_spec, !Z.land_spec, Z.lor_spec.
  by destruct (Z.testbit b n), (Z.testbit c n), (Z.testbit d n).
Qed.

(** ** Rounds *)

(** The names that round [t] gives to the variables. *)
Definition row1 (t : nat) : list nat :=
  match (t mod 6)%nat with
  | 0 => [rA; rB; rC; rD; rE; rT]
  | 1 => [rT; rA; rB; rC; rD; rE]
  | 2 => [rE; rT; rA; rB; rC; rD]
  | 3 => [rD; rE; rT; rA; rB; rC]
  | 4 => [rC; rD; rE; rT; rA; rB]
  | _ => [rB; rC; rD; rE; rT; rA]
  end%nat.
Definition read1 (t : nat) (r : list Z) : list Z := (fun k => r !!! k) <$> take 5 (row1 t).

Definition with_row1 {A} (t : nat) (f : nat -> nat -> nat -> nat -> nat -> nat -> A) : A :=
  let v (k : nat) := row1 t !!! k in f (v 0%nat) (v 1%nat) (v 2%nat) (v 3%nat) (v 4%nat) (v 5%nat).

(** [f = v + f_t(b, c, d) + ...; b = rotl(b, 30)] with the names of round [t]. *)
Lemma read1_next t x y r : length r = 6%nat ->
  read1 (S t) (with_row1 t (fun a b c d e f => 
    let r := <[f := y]> r in
    let v := u32 (x + r !!! e + sha1_K t + CRYPTO_rotl_u32 (r !!! a) 5 + sha1_f t (r !!! b) (r !!! c) (r !!! d)) in
    let r := <[f := v]> r in <[b := CRYPTO_rotl_u32 (r !!! b) 30]> r)) = sha1_step (read1 t r) (t, x).
Proof.
  intros Hr. destruct r as [|r0 [|r1 [|r2 [|r3 [|r4 [|r5 [|]]]]]]]; try done. clear Hr.
  unfold read1, with_row1. cbn zeta. unfold sha1_step. cbn [fst snd].
  change (ROTL 32 5) with (fun a => CRYPTO_rotl_u32 a 5). change (ROTL 32 30) with (fun a => CRYPTO_rotl_u32 a 30).
  generalize (sha1_K t) (sha1_f t). intros kt ft.
  assert (E : (S t mod 6 = S (t mod 6) mod 6)%nat).
  { rewrite <- (Nat.add_1_r t), <- (Nat.add_1_r (t mod 6)). by rewrite Nat.Div0.add_mod_idemp_l. }
  assert (Hlt : (t mod 6 < 6)%nat) by (by apply Nat.mod_upper_bound).
  unfold row1. rewrite E. clear E. generalize dependent (t mod 6)%nat. intros m Hm.
  do 6 (destruct m as [|m]; [by cbn -[wrap CRYPTO_rotl_u32]; f_equal; f_equal; lia|]). lia.
Qed.

Section block.
Context (data h : list Z) (Hok : bytes_ok data) (Hlen : 64 <= zlen data) (Hh : length h = 5%nat).

Let words := words_of 16 4 (ztake 64 data).
Let W := grow sha1_next 64 words.

Lemma W_length : length W = 80%nat.
Proof. unfold W, words. by rewrite grow_length, words_of_length. Qed.

(** Before round [t], when [n] words have been loaded. *)
Definition before1 (n t : nat) (l : locals) : Prop :=
  length (l_X l) = 16%nat /\ length (l_r l) = 6%nat /\
  (forall k, (t <= k + 16)%nat -> (k < Nat.max t n)%nat -> l_X l !!! (k mod 16)%nat = W !!! k) /\
  read1 t (l_r l) = foldl sha1_step h (take t (zip (seq 0 80) W)) /\
  l_data l = zdrop (4 * Z.of_nat n) data.

Lemma word1_at n : (n < 16)%nat ->
  CRYPTO_load_u32_be (zdrop (4 * Z.of_nat n) data) 0 = Some (W !!! n).
Proof using Hok Hlen Hh.
  intros Hn. set (d := zdrop (4 * Z.of_nat n) data).
  assert (Hd : 4 <= zlen d) by (unfold d; rewrite zlen_zdrop; lia).
  rewrite load_be32_first by (done || by apply Forall_drop).
  f_equal. unfold W. rewrite grow_first by (unfold words; rewrite words_of_length; lia).
  unfold words. rewrite words_of_lookup by lia. f_equal. unfold d, ztake, zdrop.
  rewrite skipn_firstn_comm, take_take. f_equal. lia.
Qed.

Lemma load_word_run n t : (n < 16)%nat -> (t <= n)%nat -> runs (before1 n t) (load_word n) (before1 (S n) t).
Proof using Hok Hlen Hh.
  intros Hn Ht [d X r] (HX & Hr & Hw & Hv & Hd). cbn [l_data l_X l_r] in *. unfold load_word. cbn [l_data l_X l_r].
  rewrite Hd, word1_at by done. eexists. split; [reflexivity|]. split; [cbn [l_X]; by rewrite length_insert|].
  split; [exact Hr|]. split; [|split; [exact Hv|]].
  - cbn [l_X]. intros k Hk1 Hk2. rewrite (Nat.mod_small k) by lia. destruct (decide (k = n)) as [->|Hne].
    + by apply list_lookup_total_insert_eq; rewrite HX.
    + rewrite list_lookup_total_insert_ne by done. rewrite <- (Hw k) by lia. by rewrite Nat.mod_small by lia.
  - cbn [l_data]. unfold zdrop. rewrite drop_drop. f_equal. lia.
Qed.

(** The variables after round [t]. *)
Definition next_r (t : nat) (y : Z) (r : list Z) : list Z :=
  with_row1 t (fun a b c d e f =>
    let r := <[f := y]> r in
    let v := u32 (W !!! t + r !!! e + sha1_K t + CRYPTO_rotl_u32 (r !!! a) 5 + sha1_f t (r !!! b) (r !!! c) (r !!! d)) in
    let r := <[f := v]> r in <[b := CRYPTO_rotl_u32 (r !!! b) 30]> r).

Lemma before1_next n t d X X' r y : before1 n t (Locals d X r) -> (t < 80)%nat -> length X' = 16%nat ->
  (forall k, (S t <= k + 16)%nat -> (k < Nat.max (S t) n)%nat -> X' !!! (k mod 16)%nat = W !!! k) ->
  before1 n (S t) (Locals d X' (next_r t y r)).
Proof.
  intros (HX & Hr & Hw & Hv & Hd) Ht HX' Hw'. cbn [l_data l_X l_r] in *. unfold before1. cbn [l_data l_X l_r].
  split; [done|]. split; [unfold next_r, with_row1; by rewrite !length_insert|]. split; [done|]. split; [|done].
  unfold next_r. rewrite read1_next, Hv by done.
  assert (Hz : zip (seq 0 80) W !! t = Some (t, W !!! t)).
  { apply lookup_zip_with_Some. exists t, (W !!! t). split; [done|]. split; [by apply lookup_seq_lt|].
    apply list_lookup_lookup_total_lt. by rewrite W_length. }
  by rewrite (take_S_r _ _ _ Hz), foldl_snoc.
Qed.

Lemma row1_lt t k : (k < 6)%nat -> (row1 t !!! k < 6)%nat.
Proof.
  intros Hk. unfold row1. assert (Hm : (t mod 6 < 6)%nat) by (by apply Nat.mod_upper_bound).
  generalize dependent (t mod 6)%nat. intros m Hm. unfold rA, rB, rC, rD, rE, rT.
  do 6 (destruct m as [|m]; [by do 6 (destruct k as [|k]; [cbn; lia|]); lia|]). lia.
Qed.

(** A round on a word that was loaded. *)
Lemma body_00_15_run n t : (t < n)%nat -> (n <= 16)%nat ->
  runs (before1 n t) (with_row1 t (fun a b c d e f => BODY_00_15 t a b c d e f t)) (before1 n (S t)).
Proof.
  intros Ht Hn [d X r] Hl. pose proof Hl as (HX & Hr & Hw & Hv & Hd). cbn [l_data l_X l_r] in *.
  pose proof (row1_lt t 5 ltac:(lia)) as Hf.
  exists (Locals d X (next_r t (r !!! (row1 t !!! 5%nat)) r)). split.
  - unfold next_r, with_row1, BODY_00_15, set_f_rot_b, modm. cbn [l_data l_X l_r]. do 2 f_equal.
    rewrite (list_insert_id r (row1 t !!! 5%nat) (r !!! (row1 t !!! 5%nat))) by (apply list_lookup_lookup_total_lt; lia).
    rewrite <- (Hw t), Nat.mod_small by lia.
    assert (Ek : sha1_K t = K_00_19) by (unfold sha1_K; by destruct (Nat.ltb_spec t 20); [|lia]).
    assert (Ef : sha1_f t = fips_Ch) by (unfold sha1_f; by destruct (Nat.ltb_spec t 20); [|lia]).
    by rewrite Ek, Ef, F_00_19_Ch.
  - apply (before1_next n t d X); [done|lia|done|]. intros k Hk1 Hk2. apply Hw; lia.
Qed.

(** The schedule is extended into the word [t mod 16] and the variable [f]. *)
Lemma Xupdate_run t l (f xa xb xc xd : nat) : (16 <= t < 80)%nat -> before1 16 t l ->
  xa = (t mod 16)%nat -> xb = ((t + 2) mod 16)%nat -> xc = ((t + 8) mod 16)%nat -> xd = ((t + 13) mod 16)%nat ->
  Xupdate f xa xa xb xc xd l =
    Ret tt (Locals (l_data l) (<[(t mod 16)%nat := W !!! t]> (l_X l)) (<[f := W !!! t]> (l_r l))).
Proof.
  intros Ht (HX & Hr & Hw & Hv & Hd) -> -> -> ->. unfold Xupdate, modm.
  assert (Hat : forall j m, (j <= 15)%nat -> (m = t + j - 16)%nat -> l_X l !!! ((t + j) mod 16)%nat = W !!! m).
  { intros j m Hj ->. rewrite <- (Hw (t + j - 16)%nat) by lia. f_equal.
    rewrite <- (Nat.Div0.mod_add (t + j - 16) 1). f_equal. lia. }
  assert (E : CRYPTO_rotl_u32 (Z.lxor (Z.lxor (Z.lxor (l_X l !!! (t mod 16)%nat) (l_X l !!! ((t + 2) mod 16)%nat))
      (l_X l !!! ((t + 8) mod 16)%nat)) (l_X l !!! ((t + 13) mod 16)%nat)) 1 = W !!! t).
  { rewrite (Hat 2%nat (t - 14)%nat), (Hat 8%nat (t - 8)%nat), (Hat 13%nat (t - 3)%nat) by lia.
    rewrite <- (Nat.add_0_r t) at 1. rewrite (Hat 0%nat (t - 16)%nat) by lia.
    unfold W at 5. rewrite grow_next by (unfold words; rewrite words_of_length; lia). fold W.
    unfold sha1_next. rewrite length_take, Nat.min_l by (rewrite W_length; lia).
    rewrite !lookup_total_take_lt by lia. unfold ROTL. change (32 - 1) with (Z.land (- (1)) 31).
    unfold CRYPTO_rotl_u32. set (w3 := W !!! (t - 3)%nat). set (w8 := W !!! (t - 8)%nat).
    set (w14 := W !!! (t - 14)%nat). set (w16 := W !!! (t - 16)%nat).
    replace (Z.lxor (Z.lxor (Z.lxor w16 w14) w8) w3) with (Z.lxor (Z.lxor (Z.lxor w3 w8) w14) w16); [done|].
    apply Z.bits_inj'. intros n Hn. rewrite !Z.lxor_spec.
    by destruct (Z.testbit w3 n), (Z.testbit w8 n), (Z.testbit w14 n), (Z.testbit w16 n). }
  by rewrite E.
Qed.

(** A round that extends the schedule, for each of the macros. *)
Lemma body_run t (g : nat -> nat -> nat -> nat -> nat -> nat -> locals -> Z) :
  (16 <= t < 80)%nat ->
  (forall a b c d e f l, l_X l !!! (t mod 16)%nat = W !!! t -> l_r l !!! f = W !!! t ->
     g a b c d e f l = let r := l_r l in
       W !!! t + r !!! e + sha1_K t + CRYPTO_rotl_u32 (r !!! a) 5 + sha1_f t (r !!! b) (r !!! c) (r !!! d)) ->
  runs (before1 16 t) (with_row1 t (fun a b c d e f =>
    Xupdate f (t mod 16) (t mod 16) ((t + 2) mod 16) ((t + 8) mod 16) ((t + 13) mod 16);;!
    set_f_rot_b f b (g a b c d e f))) (before1 16 (S t)).
Proof.
  intros Ht Hg [d X r] Hl. pose proof Hl as (HX & Hr & Hw & Hv & Hd). cbn [l_data l_X l_r] in *.
  pose proof (row1_lt t 5 ltac:(lia)) as Hf.
  exists (Locals d (<[(t mod 16)%nat := W !!! t]> X) (next_r t (W !!! t) r)). split.
  - unfold next_r, with_row1. erewrite bind_Ret by (by apply Xupdate_run).
    unfold set_f_rot_b, modm. cbn [l_data l_X l_r]. do 2 f_equal. rewrite Hg; cbn [l_X l_r]; [done| |].
    + apply list_lookup_total_insert_eq. rewrite HX. by apply Nat.mod_upper_bound.
    + apply list_lookup_total_insert_eq. lia.
  - apply (before1_next 16 t d X); [done|lia|by rewrite length_insert|]. intros k Hk1 Hk2.
    destruct (decide (k = t)) as [->|Hne].
    + apply list_lookup_total_insert_eq. rewrite HX. by apply Nat.mod_upper_bound.
    + rewrite list_lookup_total_insert_ne; [apply Hw; lia|]. intros E.
      pose proof (Nat.div_mod_eq t 16). pose proof (Nat.div_mod_eq k 16). lia.
Qed.

(** The sum of a macro is the standard's. *)
Ltac by_body t :=
  intros a b c d e f l EX Ef; cbn zeta; unfold sha1_K, sha1_f;
  repeat match goal with |- context [(?x <? ?y)%nat] => destruct (Nat.ltb_spec x y); [try lia|try lia] end;
  rewrite ?EX, ?Ef, ?F_00_19_Ch, ?F_40_59_Maj; unfold K_00_19, K_20_39, K_40_59, K_60_79, F_60_79, F_20_39, fips_Parity; lia.

Lemma body_16_19_run t : (16 <= t < 20)%nat -> runs (before1 16 t)
  (with_row1 t (fun a b c d e f => BODY_16_19 t a b c d e f
    (t mod 16) (t mod 16) ((t + 2) mod 16) ((t + 8) mod 16) ((t + 13) mod 16))) (before1 16 (S t)).
Proof. intros Ht. apply body_run; [lia|]. by_body t. Qed.

Lemma body_20_31_run t : (20 <= t < 32)%nat -> runs (before1 16 t)
  (with_row1 t (fun a b c d e f => BODY_20_31 t a b c d e f
    (t mod 16) (t mod 16) ((t + 2) mod 16) ((t + 8) mod 16) ((t + 13) mod 16))) (before1 16 (S t)).
Proof. intros Ht. apply body_run; [lia|]. by_body t. Qed.

Lemma body_32_39_run t : (32 <= t < 40)%nat -> runs (before1 16 t)
  (with_row1 t (fun a b c d e f => BODY_32_39 t a b c d e f
    (t mod 16) ((t + 2) mod 16) ((t + 8) mod 16) ((t + 13) mod 16))) (before1 16 (S t)).
Proof. intros Ht. apply body_run; [lia|]. by_body t. Qed.

Lemma body_40_59_run t : (40 <= t < 60)%nat -> runs (before1 16 t)
  (with_row1 t (fun a b c d e f => BODY_40_59 t a b c d e f
    (t mod 16) ((t + 2) mod 16) ((t + 8) mod 16) ((t + 13) mod 16))) (before1 16 (S t)).
Proof. intros Ht. apply body_run; [lia|]. by_body t. Qed.

Lemma body_60_79_run t : (60 <= t < 80)%nat -> runs (before1 16 t)
  (with_row1 t (fun a b c d e f => BODY_60_79 t a b c d e f
    (t mod 16) ((t + 2) mod 16) ((t + 8) mod 16) ((t + 13) mod 16))) (before1 16 (S t)).
Proof. intros Ht. apply body_run; [lia|]. by_body t. Qed.

Lemma sha1_rounds_00_15_run : runs (before1 0 0) sha1_rounds_00_15 (before1 16 16).
Proof using Hok Hlen Hh.
  unfold sha1_rounds_00_15.
  run_rounds ltac:(idtac; lazymatch goal with
    | |- runs _ (load_word _) _ => simple eapply load_word_run; lia
    | _ => simple eapply body_00_15_run; lia end).
Qed.

Lemma sha1_rounds_16_79_run : runs (before1 16 16) sha1_rounds_16_79 (before1 16 80).
Proof using Hok Hlen Hh.
  unfold sha1_rounds_16_79.
  run_rounds ltac:(idtac; lazymatch goal with
    | |- runs _ (BODY_16_19 _ _ _ _ _ _ _ _ _ _ _ _) _ => simple eapply body_16_19_run; lia
    | |- runs _ (BODY_20_31 _ _ _ _ _ _ _ _ _ _ _ _) _ => simple eapply body_20_31_run; lia
    | |- runs _ (BODY_32_39 _ _ _ _ _ _ _ _ _ _ _) _ => simple eapply body_32_39_run; lia
    | |- runs _ (BODY_40_59 _ _ _ _ _ _ _ _ _ _ _) _ => simple eapply body_40_59_run; lia
    | |- runs _ (BODY_60_79 _ _ _ _ _ _ _ _ _ _ _) _ => simple eapply body_60_79_run; lia end).
Qed.

(** The variables after the last round are the standard's. *)
Lemma one_block1 : exists l,
  (sha1_rounds_00_15;;! sha1_rounds_16_79) (Locals data (replicate 16 0) (take 5 h ++ [0])) = Ret tt l /\
  l_data l = zdrop 64 data /\ add_to_state1 h (l_r l) = sha1_compress h (ztake 64 data).
Proof using Hok Hlen Hh.
  destruct (runs_seq _ _ _ _ _ sha1_rounds_00_15_run sha1_rounds_16_79_run
    (Locals data (replicate 16 0) (take 5 h ++ [0]))) as (l & E & (_ & Hr & _ & Hv & Hd)).
  { unfold before1. cbn [l_X l_r l_data]. split; [done|]. split; [rewrite length_app, length_take, Hh; done|].
    split; [lia|]. split; [|done]. rewrite take_ge by lia. clear -Hh.
    by destruct h as [|? [|? [|? [|? [|? [|]]]]]]. }
  exists l. split; [exact E|]. split; [exact Hd|]. unfold sha1_compress. fold words W.
  rewrite take_ge in Hv by (rewrite length_zip_with_l; [done|rewrite W_length; done]).
  rewrite <- Hv. clear -Hr Hh. destruct l as [d X r]. cbn [l_r] in *.
  unfold add_to_state1. cbn [foldl fst snd]. rewrite !(land_mask_mod _ 32) by done.
  by destruct h as [|? [|? [|? [|? [|? [|]]]]]].
Qed.

End block.

Lemma sha1_step_length v tw : length (sha1_step v tw) = length v.
Proof. by do 6 (destruct v as [|? v]; [done|]). Qed.

Lemma sha1_compress_length h b : length h = 5%nat -> length (sha1_compress h b) = 5%nat.
Proof.
  intros Hh. unfold sha1_compress. rewrite length_zip_with_l; [done|].
  generalize (zip (seq 0 80) (grow sha1_next 64 (words_of 16 4 b))). intros l. rewrite Hh.
  revert h Hh. induction l as [|x l IH]; intros h Hh; cbn [foldl]; [lia|]. apply IH. by rewrite sha1_step_length.
Qed.

Lemma blocks1_run n : forall h data, (0 < n)%nat -> length h = 5%nat -> bytes_ok data -> 64 * Z.of_nat n <= zlen data ->
  sha1_blocks n h data = Some (absorb sha1_compress 64 n h data).
Proof.
  induction n as [|n IH]; intros h data Hn Hh Hok Hlen; [lia|]. cbn [sha1_blocks absorb].
  destruct (one_block1 data h Hok ltac:(lia) Hh) as (l & -> & -> & ->). destruct n as [|n]; [done|].
  apply IH; [lia|by apply sha1_compress_length|by apply Forall_drop|rewrite zlen_zdrop; lia].
Qed.

#[export] Program Instance sha1_block_function : BlockFunction sha1_block_data_order 64 :=
  {| compress := sha1_compress; state_ok h := length h = 5%nat |}.
Next Obligation. done. Qed.
Next Obligation. intros h b Hh _ _. by apply sha1_compress_length. Qed.
Next Obligation.
  intros h l n Hh Hok Hn Hlen. unfold sha1_block_data_order. bool_false (n =? 0).
  apply blocks1_run; [lia|done|done|lia].
Qed.

(** ** The calls *)

Definition fips_H1 : list Z := [0x67452301; 0xefcdab89; 0x98badcfe; 0x10325476; 0xc3d2e1f0].

(** The contexts that hold the bytes [msg]. *)
Definition holds_sha1 (msg : list Z) (c : SHA_CTX) : Prop :=
  bytes_ok msg /\ holds_md32 sha1_block_data_order 64 fips_H1 msg c.

Lemma sha1_init_run c : exists c', SHA1_Init c = Ret tt c' /\ holds_sha1 [] c'.
Proof.
  eexists. split; [reflexivity|]. split; [by constructor|]. split; [by apply (gathered_nil sha1_compress)|].
  by repeat split.
Qed.

Lemma sha1_update_run msg data c : bytes_ok data -> zlen data < 2 ^ 64 -> holds_sha1 msg c ->
  exists c', SHA1_Update data c = Ret tt c' /\ holds_sha1 (msg ++ data) c'.
Proof.
  intros Hd Hlen [Hm Hc].
  destruct (md32_update_run _ _ (BF:=sha1_block_function) fips_H1 msg data c eq_refl Hm Hd Hlen Hc) as (c' & E & Hc').
  exists c'. split; [exact E|]. split; [by apply Forall_app|done].
Qed.

Lemma sha1_final_run msg c : holds_sha1 msg c -> exists c', SHA1_Final c = Ret (fips_sha1 msg) c'.
Proof.
  intros [Hm Hc].
  destruct (md32_final_run _ _ (BF:=sha1_block_function) fips_H1 msg c true eq_refl Hm Hc) as (Nl & Nh & E).
  unfold SHA1_Final, SHA_CBLOCK, bind, getm. rewrite E. cbn [c_h]. eexists. unfold ret, fips_sha1. f_equal.
  change (md_hash sha1_compress 64 [_; _; _; _; _] (be_field 8) msg) with (md_hash compress 64 fips_H1 (length_field true) msg).
  assert (Hl : length (md_hash compress 64 fips_H1 (length_field true) msg) = 5%nat)
    by (by apply (md_hash_state _ _ (BF:=sha1_block_function)); [| |apply length_field_ok]).
  destruct (md_hash _ _ _ _ _) as [|? [|? [|? [|? [|? [|]]]]]]; try done. cbn [map concat lookup_total list_lookup_total].
  rewrite app_nil_r. unfold CRYPTO_bswap4. by rewrite !bswap_bytes.
Qed.
