(* ===== verification/Md5.v ===== *)
(** * BoringSSL: MD5 (crypto/fipsmodule/md5/md5.c)

    The portable block function, the calls on a hash context, and RFC 1321. *)
From S2P Require Import Prelude WordOps Md32 Sha2 Sha1.

Definition MD5_CBLOCK : Z := 64.
Definition MD5_DIGEST_LENGTH : Z := 16.

Definition F (b c d : Z) : Z := Z.lxor (Z.land (Z.lxor c d) b) d.
Definition G (b c d : Z) : Z := Z.lxor (Z.land (Z.lxor b c) d) c.
Definition H (b c d : Z) : Z := Z.lxor (Z.lxor b c) d.
Definition I (b c d : Z) : Z := Z.lxor (Z.lor (u32 (Z.lnot d)) b) c.

(** The numbers of the variables in [l_r]; [l_X] holds [XX0] to [XX15]. *)
Definition rA : nat := 0.
Definition rB : nat := 1.
Definition rC : nat := 2.
Definition rD : nat := 3.

(** [X(i) = CRYPTO_load_u32_le(data); data += 4]. *)
Definition load_word_le (i : nat) : M locals unit := fun l =>
  match CRYPTO_load_u32_le (l_data l) 0 with
  | Some x => Ret tt (Locals (zdrop 4 (l_data l)) (<[i := x]> (l_X l)) (l_r l))
  | None => Ub
  end.

(** [a += k + t + f(b, c, d); a = CRYPTO_rotl_u32(a, s); a += b], the text of the four
    macros; [k] is a word of the block. *)
Definition round_step (f : Z -> Z -> Z -> Z) (a b c d k : nat) (s t : Z) : M locals unit := modm (fun l =>
  let r := l_r l in
  let r := <[a := u32 (r !!! a + (l_X l !!! k + t + f (r !!! b) (r !!! c) (r !!! d)))]> r in
  let r := <[a := CRYPTO_rotl_u32 (r !!! a) s]> r in
  Locals (l_data l) (l_X l) (<[a := u32 (r !!! a + r !!! b)]> r)).
Definition R0 (a b c d k : nat) (s t : Z) : M locals unit := round_step F a b c d k s t.
Definition R1 (a b c d k : nat) (s t : Z) : M locals unit := round_step G a b c d k s t.
Definition R2 (a b c d k : nat) (s t : Z) : M locals unit := round_step H a b c d k s t.
Definition R3 (a b c d k : nat) (s t : Z) : M locals unit := round_step I a b c d k s t.

Definition md5_round_0 : M locals unit :=
  load_word_le 0;;!
  load_word_le 1;;!
  R0 rA rB rC rD 0 7 0xd76aa478;;!
  load_word_le 2;;!
  R0 rD rA rB rC 1 12 0xe8c7b756;;!
  load_word_le 3;;!
  R0 rC rD rA rB 2 17 0x242070db;;!
  load_word_le 4;;!
  R0 rB rC rD rA 3 22 0xc1bdceee;;!
  load_word_le 5;;!
  R0 rA rB rC rD 4 7 0xf57c0faf;;!
  load_word_le 6;;!
  R0 rD rA rB rC 5 12 0x4787c62a;;!
  load_word_le 7;;!
  R0 rC rD rA rB 6 17 0xa8304613;;!
  load_word_le 8;;!
  R0 rB rC rD rA 7 22 0xfd469501;;!
  load_word_le 9;;!
  R0 rA rB rC rD 8 7 0x698098d8;;!
  load_word_le 10;;!
  R0 rD rA rB rC 9 12 0x8b44f7af;;!
  load_word_le 11;;!
  R0 rC rD rA rB 10 17 0xffff5bb1;;!
  load_word_le 12;;!
  R0 rB rC rD rA 11 22 0x895cd7be;;!
  load_word_le 13;;!
  R0 rA rB rC rD 12 7 0x6b901122;;!
  load_word_le 14;;!
  R0 rD rA rB rC 13 12 0xfd987193;;!
  load_word_le 15;;!
  R0 rC rD rA rB 14 17 0xa679438e;;!
  R0 rB rC rD rA 15 22 0x49b40821.

Definition md5_round_1 : M locals unit :=
  R1 rA rB rC rD 1 5 0xf61e2562;;!
  R1 rD rA rB rC 6 9 0xc040b340;;!
  R1 rC rD rA rB 11 14 0x265e5a51;;!
  R1 rB rC rD rA 0 20 0xe9b6c7aa;;!
  R1 rA rB rC rD 5 5 0xd62f105d;;!
  R1 rD rA rB rC 10 9 0x02441453;;!
  R1 rC rD rA rB 15 14 0xd8a1e681;;!
  R1 rB rC rD rA 4 20 0xe7d3fbc8;;!
  R1 rA rB rC rD 9 5 0x21e1cde6;;!
  R1 rD rA rB rC 14 9 0xc33707d6;;!
  R1 rC rD rA rB 3 14 0xf4d50d87;;!
  R1 rB rC rD rA 8 20 0x455a14ed;;!
  R1 rA rB rC rD 13 5 0xa9e3e905;;!
  R1 rD rA rB rC 2 9 0xfcefa3f8;;!
  R1 rC rD rA rB 7 14 0x676f02d9;;!
  R1 rB rC rD rA 12 20 0x8d2a4c8a.

Definition md5_round_2 : M locals unit :=
  R2 rA rB rC rD 5 4 0xfffa3942;;!
  R2 rD rA rB rC 8 11 0x8771f681;;!
  R2 rC rD rA rB 11 16 0x6d9d6122;;!
  R2 rB rC rD rA 14 23 0xfde5380c;;!
  R2 rA rB rC rD 1 4 0xa4beea44;;!
  R2 rD rA rB rC 4 11 0x4bdecfa9;;!
  R2 rC rD rA rB 7 16 0xf6bb4b60;;!
  R2 rB rC rD rA 10 23 0xbebfbc70;;!
  R2 rA rB rC rD 13 4 0x289b7ec6;;!
  R2 rD rA rB rC 0 11 0xeaa127fa;;!
  R2 rC rD rA rB 3 16 0xd4ef3085;;!
  R2 rB rC rD rA 6 23 0x04881d05;;!
  R2 rA rB rC rD 9 4 0xd9d4d039;;!
  R2 rD rA rB rC 12 11 0xe6db99e5;;!
  R2 rC rD rA rB 15 16 0x1fa27cf8;;!
  R2 rB rC rD rA 2 23 0xc4ac5665.

Definition md5_round_3 : M locals unit :=
  R3 rA rB rC rD 0 6 0xf4292244;;!
  R3 rD rA rB rC 7 10 0x432aff97;;!
  R3 rC rD rA rB 14 15 0xab9423a7;;!
  R3 rB rC rD rA 5 21 0xfc93a039;;!
  R3 rA rB rC rD 12 6 0x655b59c3;;!
  R3 rD rA rB rC 3 10 0x8f0ccc92;;!
  R3 rC rD rA rB 10 15 0xffeff47d;;!
  R3 rB rC rD rA 1 21 0x85845dd1;;!
  R3 rA rB rC rD 8 6 0x6fa87e4f;;!
  R3 rD rA rB rC 15 10 0xfe2ce6e0;;!
  R3 rC rD rA rB 6 15 0xa3014314;;!
  R3 rB rC rD rA 13 21 0x4e0811a1;;!
  R3 rA rB rC rD 4 6 0xf7537e82;;!
  R3 rD rA rB rC 11 10 0xbd3af235;;!
  R3 rC rD rA rB 2 15 0x2ad7d2bb;;!
  R3 rB rC rD rA 9 21 0xeb86d391.

(** [A = state[0] += A; ...]. *)
Definition add_to_state5 (state r : list Z) : list Z :=
  foldl (fun s j => <[j := u32 (s !!! j + r !!! j)]> s) state [rA; rB; rC; rD].

(** The words are written before they are read. *)
Fixpoint md5_blocks (num : nat) (state data : list Z) : option (list Z) :=
  match num with
  | O => Some state
  | S k =>
      match (md5_round_0;;! md5_round_1;;! md5_round_2;;! md5_round_3)
              (Locals data (replicate 16 0) state) with
      | Ret _ l => md5_blocks k (add_to_state5 state (l_r l)) (l_data l)
      | _ => None
      end
  end.

Definition md5_block_data_order (state data : list Z) (num : Z) : option (list Z) :=
  md5_blocks (Z.to_nat num) state data.

(** ** Hash contexts *)

Definition MD5_CTX : Type := md32.

Definition MD5_Init : M MD5_CTX unit :=
  putm (Md32 [0x67452301; 0xefcdab89; 0x98badcfe; 0x10325476] 0 0 (replicate 64 0) 0).
Definition MD5_Update (data : list Z) : M MD5_CTX unit :=
  crypto_md32_update md5_block_data_order MD5_CBLOCK data.
(** The bytes that are stored at [out]. *)
Definition MD5_Final : M MD5_CTX (list Z) :=
  crypto_md32_final md5_block_data_order MD5_CBLOCK false;;!
  let! c := getm in
  let word (i : nat) := le_bytes 4 (c_h c !!! i) in
  ret (word 0 ++ word 1 ++ word 2 ++ word 3)%nat.
Definition MD5_Transform (data : list Z) : M MD5_CTX unit :=
  call_block_func md5_block_data_order data 1.
(** The local context holds anything before it is initialised. *)
Definition MD5 (data : list Z) : M MD5_CTX (list Z) :=
  MD5_Init;;! MD5_Update data;;! MD5_Final.

Example md5_abc : forall ctx, exists c, MD5 [97; 98; 99] ctx =
  Ret [0x90; 0x01; 0x50; 0x98; 0x3c; 0xd2; 0x4f; 0xb0; 0xd6; 0x96; 0x3f; 0x7d; 0x28; 0xe1; 0x7f; 0x72] c.
Proof. intros ctx. eexists. vm_compute. reflexivity. Qed.


(** * MD5 against RFC 1321

    The hash function of the RFC, and the proof that the calls on a context compute it
    however the message is cut. *)

(** ** The RFC *)

Definition rfc_F (x y z : Z) : Z := Z.lor (Z.land x y) (Z.land (Z.lnot x) z).
Definition rfc_G (x y z : Z) : Z := Z.lor (Z.land x z) (Z.land y (Z.lnot z)).
Definition rfc_H (x y z : Z) : Z := Z.lxor (Z.lxor x y) z.
Definition rfc_I (x y z : Z) : Z := Z.lxor y (Z.lor x (u32 (Z.lnot z))).

(** [T[i]] is the integer part of 4294967296 times abs(sin(i)), from [i = 1]. *)
Definition md5_T : list Z :=
  [0xd76aa478; 0xe8c7b756; 0x242070db; 0xc1bdceee; 0xf57c0faf; 0x4787c62a; 0xa8304613; 0xfd469501;
   0x698098d8; 0x8b44f7af; 0xffff5bb1; 0x895cd7be; 0x6b901122; 0xfd987193; 0xa679438e; 0x49b40821;
   0xf61e2562; 0xc040b340; 0x265e5a51; 0xe9b6c7aa; 0xd62f105d; 0x02441453; 0xd8a1e681; 0xe7d3fbc8;
   0x21e1cde6; 0xc33707d6; 0xf4d50d87; 0x455a14ed; 0xa9e3e905; 0xfcefa3f8; 0x676f02d9; 0x8d2a4c8a;
   0xfffa3942; 0x8771f681; 0x6d9d6122; 0xfde5380c; 0xa4beea44; 0x4bdecfa9; 0xf6bb4b60; 0xbebfbc70;
   0x289b7ec6; 0xeaa127fa; 0xd4ef3085; 0x04881d05; 0xd9d4d039; 0xe6db99e5; 0x1fa27cf8; 0xc4ac5665;
   0xf4292244; 0x432aff97; 0xab9423a7; 0xfc93a039; 0x655b59c3; 0x8f0ccc92; 0xffeff47d; 0x85845dd1;
   0x6fa87e4f; 0xfe2ce6e0; 0xa3014314; 0x4e0811a1; 0xf7537e82; 0xbd3af235; 0x2ad7d2bb; 0xeb86d391].

Definition md5_f (t : nat) : Z -> Z -> Z -> Z :=
  if (t <? 16)%nat then rfc_F else if (t <? 32)%nat then rfc_G
  else if (t <? 48)%nat then rfc_H else rfc_I.
Definition md5_k (t : nat) : nat :=
  (if (t <? 16) then t else if (t <? 32) then (5 * t + 1) mod 16
   else if (t <? 48) then (3 * t + 5) mod 16 else (7 * t) mod 16)%nat.
Definition md5_s (t : nat) : Z :=
  (if (t <? 16)%nat then [7; 12; 17; 22] else if (t <? 32)%nat then [5; 9; 14; 20]
   else if (t <? 48)%nat then [4; 11; 16; 23] else [6; 10; 15; 21]) !!! (t mod 4)%nat.

(** [a = b + ((a + f(b, c, d) + X[k] + T[i]) <<< s)], and the names move on. *)
Definition md5_step (M v : list Z) (t : nat) : list Z :=
  match v with
  | [a; b; c; d] =>
      [d; u32 (b + ROTL 32 (md5_s t) (u32 (a + md5_f t b c d + M !!! md5_k t + md5_T !!! t))); b; c]
  | _ => v
  end.

(** The first [n] little-endian words. *)
Fixpoint le_words (n : nat) (l : list Z) : list Z :=
  match n with O => [] | S k => le_value (ztake 4 l) :: le_words k (zdrop 4 l) end.

Definition md5_compress (h b : list Z) : list Z :=
  zip_with (fun x y => u32 (x + y)) h (foldl (md5_step (le_words 16 b)) h (seq 0 64)).
Definition rfc_md5_H : list Z := [0x67452301; 0xefcdab89; 0x98badcfe; 0x10325476].
Definition rfc_md5 (msg : list Z) : list Z :=
  concat (map (le_bytes 4) (md_hash md5_compress 64 rfc_md5_H (le_bytes 8) msg)).

(** ** The functions the code writes otherwise *)

Lemma F_rfc b c d : F b c d = rfc_F b c d.
Proof.
  unfold F, rfc_F. apply Z.bits_inj'. intros n Hn.
  rewrite Z.lxor_spec, Z.lor_spec, !Z.land_spec, Z.lxor_spec, Z.lnot_spec by done.
  by destruct (Z.testbit b n), (Z.testbit c n), (Z.testbit d n).
Qed.

Lemma G_rfc b c d : G b c d = rfc_G b c d.
Proof.
  unfold G, rfc_G. apply Z.bits_inj'. intros n Hn.
  rewrite Z.lxor_spec, Z.lor_spec, !Z.land_spec, Z.lxor_spec, Z.lnot_spec by done.
  by destruct (Z.testbit b n), (Z.testbit c n), (Z.testbit d n).
Qed.

Lemma I_rfc b c d : I b c d = rfc_I b c d.
Proof. unfold I, rfc_I. by rewrite Z.lxor_comm, Z.lor_comm. Qed.

(** ** Rounds *)

(** The names that step [t] gives to the variables. *)
Definition row5 (t : nat) : list nat :=
  match (t mod 4)%nat with
  | 0 => [rA; rB; rC; rD]
  | 1 => [rD; rA; rB; rC]
  | 2 => [rC; rD; rA; rB]
  | _ => [rB; rC; rD; rA]
  end%nat.
Definition read5 (t : nat) (r : list Z) : list Z := (fun k => r !!! k) <$> row5 t.
Definition with_row5 {A} (t : nat) (f : nat -> nat -> nat -> nat -> A) : A :=
  let v (k : nat) := row5 t !!! k in f (v 0%nat) (v 1%nat) (v 2%nat) (v 3%nat).

Lemma read5_next t M r x f s K : length r = 4%nat -> x = M !!! md5_k t -> K = md5_T !!! t ->
  (forall b c d, f b c d = md5_f t b c d) -> (forall v, CRYPTO_rotl_u32 v s = ROTL 32 (md5_s t) v) ->
  read5 (S t) (with_row5 t (fun a b c d =>
    let r := <[a := u32 (r !!! a + (x + K + f (r !!! b) (r !!! c) (r !!! d)))]> r in
    let r := <[a := CRYPTO_rotl_u32 (r !!! a) s]> r in
    <[a := u32 (r !!! a + r !!! b)]> r)) = md5_step M (read5 t r) t.
Proof.
  intros Hr Hx HK Hf Hs. destruct r as [|r0 [|r1 [|r2 [|r3 [|]]]]]; try done. clear Hr.
  unfold read5, with_row5, md5_step. cbn zeta. rewrite <- Hx, <- HK.
  set (ft := md5_f t) in *. clearbody ft. set (st := ROTL 32 (md5_s t)) in *. clearbody st. clear Hx HK M.
  assert (Ha : forall a b c d, u32 (CRYPTO_rotl_u32 (u32 (a + (x + K + f b c d))) s + b) =
                               u32 (b + st (u32 (a + ft b c d + x + K)))).
  { intros a b c d. rewrite Hs, Hf, Z.add_comm. do 4 f_equal. lia. }
  assert (E : (S t mod 4 = S (t mod 4) mod 4)%nat).
  { rewrite <- (Nat.add_1_r t), <- (Nat.add_1_r (t mod 4)). by rewrite Nat.Div0.add_mod_idemp_l. }
  assert (Hlt : (t mod 4 < 4)%nat) by (by apply Nat.mod_upper_bound).
  unfold row5. rewrite E. clear E. generalize dependent (t mod 4)%nat. intros m Hm.
  do 4 (destruct m as [|m];
    [by cbn -[wrap CRYPTO_rotl_u32]; rewrite Ha|]). lia.
Qed.

Lemma le_words_length n l : length (le_words n l) = n.
Proof. revert l. induction n as [|n IH]; intros l; cbn [le_words length]; [done|by rewrite IH]. Qed.

Lemma le_words_lookup n l t : (t < n)%nat -> le_words n l !!! t = le_value (ztake 4 (zdrop (4 * Z.of_nat t) l)).
Proof.
  revert t l. induction n as [|n IH]; intros t l Ht; [lia|]. cbn [le_words].
  destruct t as [|t]; cbn [lookup_total list_lookup_total]; [done|].
  rewrite IH by lia. do 2 f_equal. unfold zdrop. rewrite drop_drop. f_equal. lia.
Qed.

Section block.
Context (data h : list Z) (Hok : bytes_ok data) (Hlen : 64 <= zlen data) (Hh : length h = 4%nat).

Let W := le_words 16 (ztake 64 data).

(** Before step [t], when [n] words have been loaded. *)
Definition before5 (n t : nat) (l : locals) : Prop :=
  length (l_X l) = 16%nat /\ length (l_r l) = 4%nat /\
  (forall k, (k < n)%nat -> l_X l !!! k = W !!! k) /\
  read5 t (l_r l) = foldl (md5_step W) h (seq 0 t) /\
  l_data l = zdrop (4 * Z.of_nat n) data.

Lemma load5_run n t : (n < 16)%nat -> runs (before5 n t) (load_word_le n) (before5 (S n) t).
Proof using Hok Hlen Hh.
  intros Hn [d X r] (HX & Hr & Hw & Hv & Hd). cbn [l_data l_X l_r] in *. unfold load_word_le. cbn [l_data l_X l_r].
  assert (Hd4 : 4 <= zlen d) by (rewrite Hd, zlen_zdrop; lia).
  rewrite load_le32_first by done.
  assert (Ew : le_value (ztake 4 d) = W !!! n).
  { unfold W. rewrite le_words_lookup by done. f_equal. rewrite Hd. unfold ztake, zdrop.
    rewrite skipn_firstn_comm, take_take. f_equal. lia. }
  rewrite Ew. eexists. split; [reflexivity|]. split; [cbn [l_X]; by rewrite length_insert|].
  split; [exact Hr|]. split; [|split; [exact Hv|]].
  - cbn [l_X]. intros k Hk. destruct (decide (k = n)) as [->|Hne].
    + by apply list_lookup_total_insert_eq; rewrite HX.
    + rewrite list_lookup_total_insert_ne by done. apply Hw. lia.
  - cbn [l_data]. rewrite Hd. unfold zdrop. rewrite drop_drop. f_equal. lia.
Qed.

Lemma step5_run n t f (k : nat) s K : (k < n)%nat -> k = md5_k t -> K = md5_T !!! t ->
  (forall b c d, f b c d = md5_f t b c d) -> (forall v, CRYPTO_rotl_u32 v s = ROTL 32 (md5_s t) v) ->
  runs (before5 n t) (with_row5 t (fun a b c d => round_step f a b c d k s K)) (before5 n (S t)).
Proof.
  intros Hkn Hk HK Hf Hs [d X r] (HX & Hr & Hw & Hv & Hd). cbn [l_data l_X l_r] in *.
  exists (Locals d X (with_row5 t (fun a b c d =>
    let r := <[a := u32 (r !!! a + (X !!! k + K + f (r !!! b) (r !!! c) (r !!! d)))]> r in
    let r := <[a := CRYPTO_rotl_u32 (r !!! a) s]> r in
    <[a := u32 (r !!! a + r !!! b)]> r))). split; [reflexivity|].
  unfold before5. cbn [l_X l_r l_data]. split; [done|]. split; [unfold with_row5; by rewrite !length_insert|].
  split; [done|]. split; [|done]. rewrite (read5_next t W); try done; [|by rewrite Hw, Hk by lia].
  rewrite Hv. by rewrite seq_S, foldl_snoc.
Qed.

(** The steps of the four rounds. *)
Ltac by_step := apply step5_run; [assumption|assumption|assumption| |assumption];
  intros b c d; unfold md5_f;
  repeat match goal with |- context [(?x <? ?y)%nat] => destruct (Nat.ltb_spec x y); [try lia|try lia] end.

Lemma r0_run n t (k : nat) s K : (t < 16)%nat -> (k < n)%nat -> k = md5_k t -> K = md5_T !!! t ->
  (forall v, CRYPTO_rotl_u32 v s = ROTL 32 (md5_s t) v) ->
  runs (before5 n t) (with_row5 t (fun a b c d => R0 a b c d k s K)) (before5 n (S t)).
Proof. intros Ht Hn Hk HK Hs. by_step. apply F_rfc. Qed.

Lemma r1_run n t (k : nat) s K : (16 <= t < 32)%nat -> (k < n)%nat -> k = md5_k t -> K = md5_T !!! t ->
  (forall v, CRYPTO_rotl_u32 v s = ROTL 32 (md5_s t) v) ->
  runs (before5 n t) (with_row5 t (fun a b c d => R1 a b c d k s K)) (before5 n (S t)).
Proof. intros Ht Hn Hk HK Hs. by_step. apply G_rfc. Qed.

Lemma r2_run n t (k : nat) s K : (32 <= t < 48)%nat -> (k < n)%nat -> k = md5_k t -> K = md5_T !!! t ->
  (forall v, CRYPTO_rotl_u32 v s = ROTL 32 (md5_s t) v) ->
  runs (before5 n t) (with_row5 t (fun a b c d => R2 a b c d k s K)) (before5 n (S t)).
Proof. intros Ht Hn Hk HK Hs. by_step. done. Qed.

Lemma r3_run n t (k : nat) s K : (48 <= t < 64)%nat -> (k < n)%nat -> k = md5_k t -> K = md5_T !!! t ->
  (forall v, CRYPTO_rotl_u32 v s = ROTL 32 (md5_s t) v) ->
  runs (before5 n t) (with_row5 t (fun a b c d => R3 a b c d k s K)) (before5 n (S t)).
Proof. intros Ht Hn Hk HK Hs. by_step. apply I_rfc. Qed.

Ltac round_tac l :=
  lazymatch goal with |- runs (before5 ?n ?t) (_ _ _ _ _ ?k ?s ?K) _ =>
    eapply (l n t k s K); [lia|lia|reflexivity|reflexivity|reflexivity] end.

Lemma md5_rounds_run :
  runs (before5 0 0) (md5_round_0;;! md5_round_1;;! md5_round_2;;! md5_round_3) (before5 16 64).
Proof using Hok Hlen Hh.
  apply (runs_seq _ (before5 16 16)); [|apply (runs_seq _ (before5 16 32)); [|apply (runs_seq _ (before5 16 48))]].
  - unfold md5_round_0. run_rounds ltac:(idtac; lazymatch goal with
      | |- runs _ (load_word_le _) _ => simple eapply load5_run; lia
      | |- runs _ (R0 _ _ _ _ _ _ _) _ => round_tac r0_run end).
  - unfold md5_round_1. run_rounds ltac:(idtac; round_tac r1_run).
  - unfold md5_round_2. run_rounds ltac:(idtac; round_tac r2_run).
  - unfold md5_round_3. run_rounds ltac:(idtac; round_tac r3_run).
Qed.

(** The variables after the last step are the RFC's. *)
Lemma one_block5 : exists l,
  (md5_round_0;;! md5_round_1;;! md5_round_2;;! md5_round_3) (Locals data (replicate 16 0) h) = Ret tt l /\
  l_data l = zdrop 64 data /\ add_to_state5 h (l_r l) = md5_compress h (ztake 64 data).
Proof using Hok Hlen Hh.
  destruct (md5_rounds_run (Locals data (replicate 16 0) h)) as (l & E & (_ & Hr & _ & Hv & Hd)).
  { unfold before5. cbn [l_X l_r l_data]. split; [done|]. split; [done|].
    split; [lia|]. split; [|done]. clear -Hh. by destruct h as [|? [|? [|? [|? [|]]]]]. }
  exists l. split; [exact E|]. split; [exact Hd|]. unfold md5_compress. fold W.
  rewrite <- Hv. clear -Hr Hh. destruct l as [d X r]. cbn [l_r] in *.
  by destruct h as [|? [|? [|? [|? [|]]]]].
Qed.

End block.

Lemma md5_compress_length h b : length h = 4%nat -> length (md5_compress h b) = 4%nat.
Proof.
  intros Hh. unfold md5_compress. rewrite length_zip_with_l; [done|].
  generalize (seq 0 64), (le_words 16 b). intros l M. rewrite Hh.
  revert h Hh. induction l as [|x l IH]; intros h Hh; cbn [foldl]; [lia|]. apply IH.
  by destruct h as [|? [|? [|? [|? [|]]]]].
Qed.

Lemma blocks5_run n : forall h data, length h = 4%nat -> bytes_ok data -> 64 * Z.of_nat n <= zlen data ->
  md5_blocks n h data = Some (absorb md5_compress 64 n h data).
Proof.
  induction n as [|n IH]; intros h data Hh Hok Hlen; [done|]. cbn [md5_blocks absorb].
  destruct (one_block5 data h Hok ltac:(lia) Hh) as (l & -> & -> & ->).
  apply IH; [by apply md5_compress_length|by apply Forall_drop|rewrite zlen_zdrop; lia].
Qed.

#[export] Program Instance md5_block_function : BlockFunction md5_block_data_order 64 :=
  {| compress := md5_compress; state_ok h := length h = 4%nat |}.
Next Obligation. done. Qed.
Next Obligation. intros h b Hh _ _. by apply md5_compress_length. Qed.
Next Obligation. intros h l n Hh Hok Hn Hlen. apply blocks5_run; [done|done|lia]. Qed.

(** ** The calls *)

(** The contexts that hold the bytes [msg]. *)
Definition holds_md5 (msg : list Z) (c : MD5_CTX) : Prop :=
  bytes_ok msg /\ holds_md32 md5_block_data_order 64 rfc_md5_H msg c.

Lemma md5_init_run c : exists c', MD5_Init c = Ret tt c' /\ holds_md5 [] c'.
Proof.
  eexists. split; [reflexivity|]. split; [by constructor|]. split; [by apply (gathered_nil md5_compress)|].
  by repeat split.
Qed.

Lemma md5_update_run msg data c : bytes_ok data -> zlen data < 2 ^ 64 -> holds_md5 msg c ->
  exists c', MD5_Update data c = Ret tt c' /\ holds_md5 (msg ++ data) c'.
Proof.
  intros Hd Hlen [Hm Hc].
  destruct (md32_update_run _ _ (BF:=md5_block_function) rfc_md5_H msg data c eq_refl Hm Hd Hlen Hc) as (c' & E & Hc').
  exists c'. split; [exact E|]. split; [by apply Forall_app|done].
Qed.

Lemma md5_final_run msg c : holds_md5 msg c -> exists c', MD5_Final c = Ret (rfc_md5 msg) c'.
Proof.
  intros [Hm Hc].
  destruct (md32_final_run _ _ (BF:=md5_block_function) rfc_md5_H msg c false eq_refl Hm Hc) as (Nl & Nh & E).
  unfold MD5_Final, MD5_CBLOCK, bind, getm. rewrite E. cbn [c_h]. eexists. unfold ret, rfc_md5. f_equal.
  change (md_hash md5_compress 64 rfc_md5_H (le_bytes 8) msg) with (md_hash compress 64 rfc_md5_H (length_field false) msg).
  assert (Hl : length (md_hash compress 64 rfc_md5_H (length_field false) msg) = 4%nat)
    by (by apply (md_hash_state _ _ (BF:=md5_block_function)); [| |apply length_field_ok]).
  by destruct (md_hash _ _ _ _ _) as [|? [|? [|? [|? [|]]]]].
Qed.
