(* ===== verification/Evp.v ===== *)
(** * BoringSSL: message digests (crypto/fipsmodule/digest/digest.c, digests.c)

    The table of digest functions and the contexts that point to one of them and to a
    block of memory with its state.  The blocks are a store of their own: what one
    holds is the struct a digest keeps in it, or bytes that no digest has written yet. *)
From S2P Require Import Prelude OsslMem WordOps Md32 Sha1 Md5 Sha2.

Definition EVP_MAX_MD_SIZE : Z := 64.
Definition EVP_MAX_MD_BLOCK_SIZE : Z := 128.

Inductive md_object : Type :=
| Raw (bytes : list Z)
| Md5Obj (c : MD5_CTX)
| Sha1Obj (c : SHA_CTX)
| Sha256Obj (c : SHA256_CTX)
| Sha512Obj (c : SHA512_CTX)
| Md5Sha1Obj (md5 : MD5_CTX) (sha1 : SHA_CTX).

(** A method gets the block at [ctx->md_data]; [None] is undefined behaviour or a failed
    [CHECK].  The bytes that [final] stores are its second result. *)
Record EVP_MD : Type := EvpMd {
  md_type : Z;
  md_size : Z;
  md_flags : Z;
  md_init : md_object -> option md_object;
  md_update : md_object -> list Z -> option md_object;
  md_final : md_object -> option (md_object * list Z);
  md_block_size : Z;
  md_ctx_size : Z
}.

(** ** The digests *)

Definition CHECK {S A} (o : out S A) : option (S * A) :=
  match o with Ret a s => Some (s, a) | _ => None end.

Definition NID_md5 : Z := 4.
Definition NID_sha1 : Z := 64.
Definition NID_md5_sha1 : Z := 114.
Definition NID_sha256 : Z := 672.
Definition NID_sha384 : Z := 673.
Definition NID_sha512 : Z := 674.
Definition NID_sha224 : Z := 675.
Definition NID_sha512_256 : Z := 962.
Definition sizeof_MD5_CTX : Z := 92.
Definition sizeof_SHA_CTX : Z := 96.
Definition sizeof_SHA256_CTX : Z := 112.
Definition sizeof_SHA512_CTX : Z := 216.
Definition sizeof_MD5_SHA1_CTX : Z := 188.

(** What is in a context before it is written over. *)
Definition unset : md32 := Md32 [] 0 0 [] 0.
(** A block that can hold a struct of [n] bytes. *)
Definition has_room (n : Z) (o : md_object) : bool :=
  match o with Raw l => zlen l =? n | _ => true end.

Definition md5_init (o : md_object) : option md_object :=
  if has_room sizeof_MD5_CTX o then (fun r => Md5Obj r.1) <$> CHECK (MD5_Init unset) else None.
Definition md5_update (o : md_object) (data : list Z) : option md_object :=
  match o with Md5Obj c => (fun r => Md5Obj r.1) <$> CHECK (MD5_Update data c) | _ => None end.
Definition md5_final (o : md_object) : option (md_object * list Z) :=
  match o with Md5Obj c => (fun r => (Md5Obj r.1, r.2)) <$> CHECK (MD5_Final c) | _ => None end.
Definition EVP_md5 : EVP_MD :=
  EvpMd NID_md5 MD5_DIGEST_LENGTH 0 md5_init md5_update md5_final 64 sizeof_MD5_CTX.

Definition sha1_init (o : md_object) : option md_object :=
  if has_room sizeof_SHA_CTX o then (fun r => Sha1Obj r.1) <$> CHECK (SHA1_Init unset) else None.
Definition sha1_update (o : md_object) (data : list Z) : option md_object :=
  match o with Sha1Obj c => (fun r => Sha1Obj r.1) <$> CHECK (SHA1_Update data c) | _ => None end.
Definition sha1_final (o : md_object) : option (md_object * list Z) :=
  match o with Sha1Obj c => (fun r => (Sha1Obj r.1, r.2)) <$> CHECK (SHA1_Final c) | _ => None end.
Definition EVP_sha1 : EVP_MD :=
  EvpMd NID_sha1 SHA_DIGEST_LENGTH 0 sha1_init sha1_update sha1_final 64 sizeof_SHA_CTX.

Definition sha224_init (o : md_object) : option md_object :=
  if has_room sizeof_SHA256_CTX o
  then (fun r => Sha256Obj r.1) <$> CHECK (SHA224_Init (Sha256Ctx unset 0)) else None.
Definition sha256_init (o : md_object) : option md_object :=
  if has_room sizeof_SHA256_CTX o
  then (fun r => Sha256Obj r.1) <$> CHECK (SHA256_Init (Sha256Ctx unset 0)) else None.
Definition sha224_update (o : md_object) (data : list Z) : option md_object :=
  match o with Sha256Obj c => (fun r => Sha256Obj r.1) <$> CHECK (SHA224_Update data c) | _ => None end.
Definition sha256_update (o : md_object) (data : list Z) : option md_object :=
  match o with Sha256Obj c => (fun r => Sha256Obj r.1) <$> CHECK (SHA256_Update data c) | _ => None end.
Definition sha224_final (o : md_object) : option (md_object * list Z) :=
  match o with Sha256Obj c => (fun r => (Sha256Obj r.1, r.2)) <$> CHECK (SHA224_Final c) | _ => None end.
Definition sha256_final (o : md_object) : option (md_object * list Z) :=
  match o with Sha256Obj c => (fun r => (Sha256Obj r.1, r.2)) <$> CHECK (SHA256_Final c) | _ => None end.
Definition EVP_sha224 : EVP_MD :=
  EvpMd NID_sha224 SHA224_DIGEST_LENGTH 0 sha224_init sha224_update sha224_final 64 sizeof_SHA256_CTX.
Definition EVP_sha256 : EVP_MD :=
  EvpMd NID_sha256 SHA256_DIGEST_LENGTH 0 sha256_init sha256_update sha256_final 64 sizeof_SHA256_CTX.

(** The array [p] of a SHA512_CTX, which its initialisation leaves as it is; it begins
    at the 80th byte of the struct. *)
Definition sha512_p (o : md_object) : option (list Z) :=
  match o with
  | Raw l => if zlen l =? sizeof_SHA512_CTX then slice l 80 128 else None
  | Sha512Obj c => Some (c_data (sha5_md c))
  | _ => None
  end.
Definition sha512_init_by (init : M SHA512_CTX unit) (o : md_object) : option md_object :=
  match sha512_p o with
  | Some p => (fun r => Sha512Obj r.1) <$> CHECK (init (Sha512Ctx (set_data p unset) 0))
  | None => None
  end.
Definition sha384_init := sha512_init_by SHA384_Init.
Definition sha512_init := sha512_init_by SHA512_Init.
Definition sha512_256_init := sha512_init_by SHA512_256_Init.
Definition sha384_update (o : md_object) (data : list Z) : option md_object :=
  match o with Sha512Obj c => (fun r => Sha512Obj r.1) <$> CHECK (SHA384_Update data c) | _ => None end.
Definition sha512_method_update (o : md_object) (data : list Z) : option md_object :=
  match o with Sha512Obj c => (fun r => Sha512Obj r.1) <$> CHECK (SHA512_Update data c) | _ => None end.
Definition sha512_256_update (o : md_object) (data : list Z) : option md_object :=
  match o with Sha512Obj c => (fun r => Sha512Obj r.1) <$> CHECK (SHA512_256_Update data c) | _ => None end.
Definition sha384_final (o : md_object) : option (md_object * list Z) :=
  match o with Sha512Obj c => (fun r => (Sha512Obj r.1, r.2)) <$> CHECK (SHA384_Final c) | _ => None end.
Definition sha512_final (o : md_object) : option (md_object * list Z) :=
  match o with Sha512Obj c => (fun r => (Sha512Obj r.1, r.2)) <$> CHECK (SHA512_Final c) | _ => None end.
Definition sha512_256_final (o : md_object) : option (md_object * list Z) :=
  match o with Sha512Obj c => (fun r => (Sha512Obj r.1, r.2)) <$> CHECK (SHA512_256_Final c) | _ => None end.
Definition EVP_sha384 : EVP_MD :=
  EvpMd NID_sha384 SHA384_DIGEST_LENGTH 0 sha384_init sha384_update sha384_final 128 sizeof_SHA512_CTX.
Definition EVP_sha512 : EVP_MD :=
  EvpMd NID_sha512 SHA512_DIGEST_LENGTH 0 sha512_init sha512_method_update sha512_final 128 sizeof_SHA512_CTX.
Definition EVP_sha512_256 : EVP_MD :=
  EvpMd NID_sha512_256 SHA512_256_DIGEST_LENGTH 0 sha512_256_init sha512_256_update sha512_256_final 128 sizeof_SHA512_CTX.

Definition md5_sha1_init (o : md_object) : option md_object :=
  if has_room sizeof_MD5_SHA1_CTX o
  then match CHECK (MD5_Init unset), CHECK (SHA1_Init unset) with
       | Some (m, _), Some (s, _) => Some (Md5Sha1Obj m s)
       | _, _ => None
       end
  else None.
Definition md5_sha1_update (o : md_object) (data : list Z) : option md_object :=
  match o with
  | Md5Sha1Obj m s =>
      match CHECK (MD5_Update data m), CHECK (SHA1_Update data s) with
      | Some (m, _), Some (s, _) => Some (Md5Sha1Obj m s)
      | _, _ => None
      end
  | _ => None
  end.
Definition md5_sha1_final (o : md_object) : option (md_object * list Z) :=
  match o with
  | Md5Sha1Obj m s =>
      match CHECK (MD5_Final m), CHECK (SHA1_Final s) with
      | Some (m, a), Some (s, b) => Some (Md5Sha1Obj m s, a ++ b)
      | _, _ => None
      end
  | _ => None
  end.
Definition EVP_md5_sha1 : EVP_MD :=
  EvpMd NID_md5_sha1 (MD5_DIGEST_LENGTH + SHA_DIGEST_LENGTH) 0 md5_sha1_init md5_sha1_update
    md5_sha1_final 64 sizeof_MD5_SHA1_CTX.

(** ** Contexts *)

Definition non_null {A} (p : option A) : bool := match p with Some _ => true | None => false end.

(**
    The blocks that contexts own, and the number of allocations made. *)
Record world : Type := World { w_blocks : gmap nat md_object; w_allocs : nat }.

Section contexts.
(** The addresses of the static EVP_MD objects, the C library's malloc, and the [dup]
    method of the owner of [pctx]; its [free] leaves nothing to observe here. *)
Context {md_ptr : Type} `{EqDecision md_ptr} (deref : md_ptr -> EVP_MD).
Context (malloc : nat -> Z -> option (list Z)) (pctx_dup : Z -> option Z).

Record EVP_MD_CTX : Type := EvpMdCtx {
  digest : option md_ptr;
  md_data : option nat;
  pctx : option Z;
  pctx_ops : bool
}.

Definition evp_state : Type := (EVP_MD_CTX * world)%type.

Definition set_digest (x : option md_ptr) (c : EVP_MD_CTX) : EVP_MD_CTX :=
  EvpMdCtx x (md_data c) (pctx c) (pctx_ops c).
Definition set_md_data (x : option nat) (c : EVP_MD_CTX) : EVP_MD_CTX :=
  EvpMdCtx (digest c) x (pctx c) (pctx_ops c).
Definition set_pctx (x : option Z) (c : EVP_MD_CTX) : EVP_MD_CTX :=
  EvpMdCtx (digest c) (md_data c) x (pctx_ops c).
Definition set_pctx_ops (x : bool) (c : EVP_MD_CTX) : EVP_MD_CTX :=
  EvpMdCtx (digest c) (md_data c) (pctx c) x.

Definition on_ctx (f : EVP_MD_CTX -> EVP_MD_CTX) : M evp_state unit :=
  modm (fun s => (f s.1, s.2)).
Definition get_ctx : M evp_state EVP_MD_CTX := fun s => Ret s.1 s.

(** A block of [n] bytes, or a null pointer. *)
Definition alloc_block (n : Z) : M evp_state (option nat) := fun s =>
  let w := s.2 in
  match OPENSSL_malloc malloc (w_allocs w) n with
  | Some l => let r := new_ref (w_blocks w) in
      Ret (Some r) (s.1, World (<[r := Raw l]> (w_blocks w)) (S (w_allocs w)))
  | None => Ret None (s.1, World (w_blocks w) (S (w_allocs w)))
  end.

(** [OPENSSL_free]. *)
Definition free_block (p : option nat) : M evp_state unit := fun s =>
  match p with
  | None => Ret tt s
  | Some r =>
      match w_blocks s.2 !! r with
      | Some _ => Ret tt (s.1, World (delete r (w_blocks s.2)) (w_allocs s.2))
      | None => Ub
      end
  end.

(** The block at a pointer, read and written. *)
Definition load_block (p : option nat) : M evp_state md_object := fun s =>
  match p with
  | Some r => match w_blocks s.2 !! r with Some o => Ret o s | None => Ub end
  | None => Ub
  end.
Definition store_block (p : option nat) (o : md_object) : M evp_state unit := fun s =>
  match p with
  | Some r => match w_blocks s.2 !! r with
              | Some _ => Ret tt (s.1, World (<[r := o]> (w_blocks s.2)) (w_allocs s.2))
              | None => Ub
              end
  | None => Ub
  end.

(** A call through a method of [ctx->digest]. *)
Definition get_digest : M evp_state EVP_MD :=
  let! c := get_ctx in
  match digest c with Some p => ret (deref p) | None => ubm end.

Definition null_ctx : EVP_MD_CTX := EvpMdCtx None None None false.
Definition EVP_MD_CTX_init : M evp_state unit := on_ctx (fun _ => null_ctx).

Definition EVP_MD_CTX_cleanup : M evp_state unit :=
  let! c := get_ctx in
  free_block (md_data c);;!
  (if non_null (pctx c) && negb (pctx_ops c) then ubm else ret tt);;!
  EVP_MD_CTX_init.

Definition EVP_MD_CTX_reset : M evp_state unit := EVP_MD_CTX_cleanup;;! EVP_MD_CTX_init.

(** [in_] is the other context, not this one; it does not change. *)
Definition EVP_MD_CTX_copy_ex (in_ : EVP_MD_CTX) : M evp_state unit :=
  if negb (non_null (pctx in_)) && negb (non_null (digest in_)) then failm
  else
    let! new_pctx :=
      match pctx in_ with
      | None => ret None
      | Some p =>
          if negb (pctx_ops in_) then ubm
          else match pctx_dup p with Some q => ret (Some q) | None => failm end
      end in
    let! tmp_buf :=
      match digest in_ with
      | None => ret None
      | Some d =>
          let! out := get_ctx in
          if bool_decide (digest out <> digest in_) then
            (if md_ctx_size (deref d) =? 0 then ubm else ret tt);;!
            let! b := alloc_block (md_ctx_size (deref d)) in
            match b with None => failm | Some r => ret (Some r) end
          else
            on_ctx (set_md_data None);;!
            ret (md_data out)
      end in
    EVP_MD_CTX_cleanup;;!
    on_ctx (set_digest (digest in_));;!
    on_ctx (set_md_data tmp_buf);;!
    (if non_null (digest in_)
     then let! o := load_block (md_data in_) in store_block tmp_buf o
     else ret tt);;!
    on_ctx (set_pctx new_pctx);;!
    on_ctx (set_pctx_ops (pctx_ops in_)).

Definition EVP_MD_CTX_copy (in_ : EVP_MD_CTX) : M evp_state unit :=
  EVP_MD_CTX_init;;! EVP_MD_CTX_copy_ex in_.

(** The other context is left empty: the result. *)
Definition EVP_MD_CTX_move (in_ : EVP_MD_CTX) : M evp_state EVP_MD_CTX :=
  EVP_MD_CTX_cleanup;;! on_ctx (fun _ => in_);;! ret null_ctx.

Definition EVP_DigestInit_ex (type : md_ptr) : M evp_state unit :=
  let! c := get_ctx in
  (if bool_decide (digest c <> Some type) then
     (if md_ctx_size (deref type) =? 0 then ubm else ret tt);;!
     let! b := alloc_block (md_ctx_size (deref type)) in
     match b with
     | None => failm
     | Some r =>
         free_block (md_data c);;!
         on_ctx (set_md_data (Some r));;!
         on_ctx (set_digest (Some type))
     end
   else ret tt);;!
  let! c := get_ctx in
  (if non_null (pctx c) && negb (pctx_ops c) then ubm else ret tt);;!
  let! md := get_digest in
  let! o := load_block (md_data c) in
  let! o := of_opt (md_init md o) in
  store_block (md_data c) o.

Definition EVP_DigestInit (type : md_ptr) : M evp_state unit :=
  EVP_MD_CTX_init;;! EVP_DigestInit_ex type.

Definition EVP_DigestUpdate (data : list Z) : M evp_state unit :=
  let! c := get_ctx in
  let! md := get_digest in
  let! o := load_block (md_data c) in
  let! o := of_opt (md_update md o data) in
  store_block (md_data c) o.

(** The bytes of the digest; [*size] is their number. *)
Definition EVP_DigestFinal_ex : M evp_state (list Z) :=
  let! c := get_ctx in
  let! md := get_digest in
  (if md_size md <=? EVP_MAX_MD_SIZE then ret tt else ubm);;!
  let! o := load_block (md_data c) in
  let! (o, out) := of_opt (md_final md o) in
  store_block (md_data c) o;;!
  store_block (md_data c) (Raw (replicate (Z.to_nat (md_ctx_size md)) 0));;!
  ret out.

Definition EVP_DigestFinal : M evp_state (list Z) :=
  let! out := EVP_DigestFinal_ex in
  EVP_MD_CTX_cleanup;;!
  ret out.

(** The result is [None] for the C false; the context is local. *)
Definition EVP_Digest (data : list Z) (type : md_ptr) (w : world) : out world (option (list Z)) :=
  match tryb (EVP_DigestInit_ex type;;! EVP_DigestUpdate data;;! EVP_DigestFinal_ex) (null_ctx, w) with
  | Ret r s =>
      match EVP_MD_CTX_cleanup s with
      | Ret _ s => Ret r s.2
      | Fail s => Fail s.2
      | Ub => Ub
      | NoFuel => NoFuel
      end
  | Fail s => Fail s.2
  | Ub => Ub
  | NoFuel => NoFuel
  end.

(** Fields of a digest and of the digest of a context. *)
Definition EVP_MD_type (md : md_ptr) : Z := md_type (deref md).
Definition EVP_MD_flags (md : md_ptr) : Z := md_flags (deref md).
Definition EVP_MD_size (md : md_ptr) : Z := md_size (deref md).
Definition EVP_MD_block_size (md : md_ptr) : Z := md_block_size (deref md).
Definition EVP_MD_CTX_md (c : option EVP_MD_CTX) : option md_ptr :=
  match c with Some c => digest c | None => None end.

End contexts.
Arguments EVP_MD_CTX : clear implicits.
Arguments evp_state : clear implicits.
Arguments null_ctx {md_ptr}.
