(* ===== verification/EvpSpec.v ===== *)
(** * BoringSSL: what a message digest promises

    [Digest] is the interface between a digest and the code that calls it through a
    context: the contents a block of memory may have, and the function of the message
    that the calls compute.  The digests of BoringSSL are instances, for the functions
    of RFC 1321 and FIPS 180-4.  The calls on digest contexts are proved against the
    interface. *)
From S2P Require Import Prelude OsslMem WordOps Md32 Sha2 Sha1 Md5 Evp.

(** [fresh o]: a block the digest may be initialised in; [ready msg o]: a block that
    has been given [msg]. *)
Class Digest (md : EVP_MD) := {
  hash : list Z -> list Z;
  fresh : md_object -> Prop;
  ready : list Z -> md_object -> Prop;
  raw_fresh : forall l, zlen l = md_ctx_size md -> fresh (Raw l);
  ready_fresh : forall msg o, ready msg o -> fresh o;
  ready_bytes : forall msg o, ready msg o -> bytes_ok msg;
  init_ok : forall o, fresh o -> exists o', md_init md o = Some o' /\ ready [] o';
  update_ok : forall msg o data, ready msg o -> bytes_ok data -> zlen data < 2 ^ 64 ->
    exists o', md_update md o data = Some o' /\ ready (msg ++ data) o';
  final_ok : forall msg o, ready msg o -> exists o', md_final md o = Some (o', hash msg);
  hash_bytes : forall msg, bytes_ok msg -> bytes_ok (hash msg);
  hash_size : forall msg, bytes_ok msg -> zlen (hash msg) = md_size md;
  sizes_ok : 0 < md_size md <= 64 /\ md_size md <= md_block_size md <= 128 /\ 0 < md_ctx_size md < 2 ^ 32
}.
Arguments hash md {_} _.
Arguments fresh md {_} _.
Arguments ready md {_} _ _.

(** ** The digests of the library *)

Lemma concat_bytes (f : Z -> list Z) l : (forall v, bytes_ok (f v)) -> bytes_ok (concat (map f l)).
Proof. intros Hf. induction l as [|v l IH]; [by constructor|]. cbn [map concat]. apply Forall_app. split; [apply Hf|exact IH]. Qed.

Lemma concat_size (f : Z -> list Z) k l : (forall v, zlen (f v) = k) -> zlen (concat (map f l)) = k * zlen l.
Proof.
  intros Hf. induction l as [|v l IH]; [by rewrite Z.mul_0_r|]. cbn [map concat].
  rewrite zlen_app, Hf, IH, zlen_cons. lia.
Qed.

Lemma zlen_of {A} (l : list A) (n : nat) : length l = n -> zlen l = Z.of_nat n.
Proof. unfold zlen. by intros ->. Qed.

#[export] Program Instance md5_digest : Digest EVP_md5 := {|
  hash := rfc_md5;
  fresh o := has_room sizeof_MD5_CTX o = true;
  ready msg o := exists c, o = Md5Obj c /\ holds_md5 msg c
|}.
Next Obligation. intros l E. cbn in *. by apply Z.eqb_eq. Qed.
Next Obligation. by intros msg o (c & -> & _). Qed.
Next Obligation. by intros msg o (c & _ & H & _). Qed.
Next Obligation.
  intros o Ho. cbn [md_init EVP_md5]. unfold md5_init. rewrite Ho.
  destruct (md5_init_run unset) as (c & -> & Hc). cbn. eauto.
Qed.
Next Obligation.
  intros msg o data (c & -> & Hc) Hd Hl. cbn [md_update EVP_md5]. unfold md5_update.
  destruct (md5_update_run msg data c Hd Hl Hc) as (c' & -> & Hc'). cbn. eauto.
Qed.
Next Obligation.
  intros msg o (c & -> & Hc). cbn [md_final EVP_md5]. unfold md5_final.
  destruct (md5_final_run msg c Hc) as (c' & ->). cbn. eauto.
Qed.
Next Obligation. intros msg _. apply concat_bytes. apply le_field_ok. Qed.
Next Obligation.
  intros msg Hm. unfold rfc_md5. rewrite (concat_size _ 4) by apply zlen_le_field.
  rewrite (zlen_of _ 4); [done|]. apply (md_hash_state _ _ (BF:=md5_block_function)); [done|done|apply le_field_ok].
Qed.
Next Obligation. done. Qed.

#[export] Program Instance sha1_digest : Digest EVP_sha1 := {|
  hash := fips_sha1;
  fresh o := has_room sizeof_SHA_CTX o = true;
  ready msg o := exists c, o = Sha1Obj c /\ holds_sha1 msg c
|}.
Next Obligation. intros l E. cbn in *. by apply Z.eqb_eq. Qed.
Next Obligation. by intros msg o (c & -> & _). Qed.
Next Obligation. by intros msg o (c & _ & H & _). Qed.
Next Obligation.
  intros o Ho. cbn [md_init EVP_sha1]. unfold sha1_init. rewrite Ho.
  destruct (sha1_init_run unset) as (c & -> & Hc). cbn. eauto.
Qed.
Next Obligation.
  intros msg o data (c & -> & Hc) Hd Hl. cbn [md_update EVP_sha1]. unfold sha1_update.
  destruct (sha1_update_run msg data c Hd Hl Hc) as (c' & -> & Hc'). cbn. eauto.
Qed.
Next Obligation.
  intros msg o (c & -> & Hc). cbn [md_final EVP_sha1]. unfold sha1_final.
  destruct (sha1_final_run msg c Hc) as (c' & ->). cbn. eauto.
Qed.
Next Obligation. intros msg _. apply concat_bytes. apply be_field_ok. Qed.
Next Obligation.
  intros msg Hm. unfold fips_sha1. rewrite (concat_size _ 4) by apply zlen_be_field.
  rewrite (zlen_of _ 5); [done|]. apply (md_hash_state _ _ (BF:=sha1_block_function)); [done|done|apply be_field_ok].
Qed.
Next Obligation. done. Qed.

(** The digests over SHA256_CTX differ in the initial value and the length. *)
Program Definition sha256_digest_by (md : EVP_MD) (init : M SHA256_CTX unit) (h0 : list Z) (len : Z)
    (H : list Z -> list Z)
    (HH : forall msg, bytes_ok msg -> H msg = concat (map (be_field 4)
       (take (Z.to_nat (len / 4)) (md_hash sha256_compress 64 h0 (be_field 8) msg))))
    (Hinit : forall c, exists c', init c = Ret tt c' /\ holds_sha256 h0 len [] c')
    (Hh : length h0 = 8%nat) (Hlen : 0 < len <= 32) (Hmod : len mod 4 = 0)
    (E : md = EvpMd (md_type md) len 0
           (fun o => if has_room sizeof_SHA256_CTX o
                     then (fun r => Sha256Obj r.1) <$> CHECK (init (Sha256Ctx unset 0)) else None)
           sha256_update sha256_final 64 sizeof_SHA256_CTX) : Digest md := {|
  hash := H;
  fresh o := has_room sizeof_SHA256_CTX o = true;
  ready msg o := exists c, o = Sha256Obj c /\ holds_sha256 h0 len msg c
|}.
Next Obligation. intros md init h0 len H HH Hinit Hh Hlen Hmod -> l El. cbn in *. by apply Z.eqb_eq. Qed.
Next Obligation. by intros md init h0 len H HH Hinit Hh Hlen Hmod E msg o (c & -> & _). Qed.
Next Obligation. by intros md init h0 len H HH Hinit Hh Hlen Hmod E msg o (c & _ & Hok & _). Qed.
Next Obligation.
  intros md init h0 len H HH Hinit Hh Hlen Hmod E o Ho. rewrite E. cbn [md_init]. rewrite Ho.
  destruct (Hinit (Sha256Ctx unset 0)) as (c & -> & Hc). cbn. eauto.
Qed.
Next Obligation.
  intros md init h0 len H HH Hinit Hh Hlen Hmod E msg o data (c & -> & Hc) Hd Hl. rewrite E. cbn [md_update].
  unfold sha256_update. destruct (sha256_update_run h0 len msg data c Hh Hd Hl Hc) as (c' & -> & Hc'). cbn. eauto.
Qed.
Next Obligation.
  intros md init h0 len H HH Hinit Hh Hlen Hmod E msg o (c & -> & Hc). rewrite E. cbn [md_final].
  unfold sha256_final, SHA256_Final. destruct (sha256_final_run h0 len msg c Hh ltac:(lia) Hc) as (c' & ->). cbn.
  rewrite HH by exact (proj1 Hc). eauto.
Qed.
Next Obligation. intros md init h0 len H HH Hinit Hh Hlen Hmod E msg Hm. rewrite HH by done. apply concat_bytes. apply be_field_ok. Qed.
Next Obligation.
  intros md init h0 len H HH Hinit Hh Hlen Hmod E msg Hm. rewrite E, HH by done. cbn [md_size].
  rewrite (concat_size _ 4) by apply zlen_be_field.
  assert (H8 : length (md_hash sha256_compress 64 h0 (be_field 8) msg) = 8%nat)
    by (apply (md_hash_state _ _ (BF:=sha256_block_function)); [done|done|apply be_field_ok]).
  unfold zlen. rewrite length_take, H8. pose proof (Z.div_mod len 4 ltac:(lia)). lia.
Qed.
Next Obligation.
  intros md init h0 len H HH Hinit Hh Hlen Hmod E. rewrite E. cbn [md_size md_block_size md_ctx_size].
  change (2 ^ 32) with 4294967296. unfold sizeof_SHA256_CTX, sizeof_SHA512_CTX. lia.
Qed.

Lemma sha256_all h0 msg : length h0 = 8%nat -> bytes_ok msg ->
  take 8 (md_hash sha256_compress 64 h0 (be_field 8) msg) = md_hash sha256_compress 64 h0 (be_field 8) msg.
Proof.
  intros Hh Hm. apply take_ge. rewrite (md_hash_state _ _ (BF:=sha256_block_function)); [done|done|done|apply be_field_ok].
Qed.

#[export] Program Instance sha256_digest : Digest EVP_sha256 :=
  sha256_digest_by EVP_sha256 SHA256_Init fips_H256 32 fips_sha256 _ sha256_init_run eq_refl ltac:(lia) eq_refl eq_refl.
Next Obligation. intros msg Hm. unfold fips_sha256. do 2 f_equal. symmetry. by apply (sha256_all fips_H256 msg). Qed.
#[export] Instance sha224_digest : Digest EVP_sha224 :=
  sha256_digest_by EVP_sha224 SHA224_Init fips_H224 28 fips_sha224 (fun _ _ => eq_refl) sha224_init_run eq_refl
    ltac:(lia) eq_refl eq_refl.

(** The digests over SHA512_CTX. *)
Program Definition sha512_digest_by (md : EVP_MD) (init : M SHA512_CTX unit) (h0 : list Z) (len : Z)
    (H : list Z -> list Z)
    (HH : forall msg, bytes_ok msg ->
       H msg = concat (map (be_field 8) (take (Z.to_nat (len / 8)) (sha512_hash h0 msg))))
    (Hinit : forall c, zlen (c_data (sha5_md c)) = 128 ->
             exists c', init c = Ret tt c' /\ holds_sha512 h0 len [] c')
    (Hh : length h0 = 8%nat) (Hlen : 0 < len <= 64) (Hmod : len mod 8 = 0)
    (E : md = EvpMd (md_type md) len 0 (sha512_init_by init) sha512_method_update sha512_final 128 sizeof_SHA512_CTX) :
    Digest md := {|
  hash := H;
  fresh o := exists p, sha512_p o = Some p /\ zlen p = 128;
  ready msg o := exists c, o = Sha512Obj c /\ holds_sha512 h0 len msg c
|}.
Next Obligation.
  intros md init h0 len H HH Hinit Hh Hlen Hmod -> l El. cbn [md_ctx_size] in El. cbn [sha512_p]. rewrite El, Z.eqb_refl.
  unfold slice. unfold sizeof_SHA512_CTX in El. bool_true (80 + 128 <=? zlen l). cbn [andb Z.leb Z.compare].
  eexists. split; [reflexivity|]. apply zlen_ztake. rewrite zlen_zdrop; lia.
Qed.
Next Obligation.
  intros md init h0 len H HH Hinit Hh Hlen Hmod E msg o (c & -> & _ & ((k & full & tail & junk & Hg) & _) & _). cbn.
  eexists. split; [reflexivity|]. by destruct Hg as (_ & _ & _ & _ & Hd & _).
Qed.
Next Obligation. by intros md init h0 len H HH Hinit Hh Hlen Hmod E msg o (c & _ & Hok & _). Qed.
Next Obligation.
  intros md init h0 len H HH Hinit Hh Hlen Hmod E o (p & Ep & Hp). rewrite E. cbn [md_init].
  unfold sha512_init_by. rewrite Ep.
  destruct (Hinit (Sha512Ctx (set_data p unset) 0) Hp) as (c & -> & Hc). cbn. eauto.
Qed.
Next Obligation.
  intros md init h0 len H HH Hinit Hh Hlen Hmod E msg o data (c & -> & Hc) Hd Hl. rewrite E. cbn [md_update].
  unfold sha512_method_update.
  destruct (sha512_update_run h0 len msg data c Hh Hd Hl Hc) as (c' & -> & Hc'). cbn. eauto.
Qed.
Next Obligation.
  intros md init h0 len H HH Hinit Hh Hlen Hmod E msg o (c & -> & Hc). rewrite E. cbn [md_final].
  unfold sha512_final, SHA512_Final. destruct (sha512_final_run h0 len msg c Hh Hc) as (c' & ->). cbn.
  rewrite HH by exact (proj1 Hc). eauto.
Qed.
Next Obligation. intros md init h0 len H HH Hinit Hh Hlen Hmod E msg Hm. rewrite HH by done. apply concat_bytes. apply be_field_ok. Qed.
Next Obligation.
  intros md init h0 len H HH Hinit Hh Hlen Hmod E msg Hm. rewrite E, HH by done. cbn [md_size].
  rewrite (concat_size _ 8) by apply zlen_be_field.
  assert (H8 : length (sha512_hash h0 msg) = 8%nat)
    by (apply (md_hash_state _ _ (BF:=sha512_block_function)); [done|done|apply be_field_ok]).
  unfold zlen. rewrite length_take, H8. pose proof (Z.div_mod len 8 ltac:(lia)). lia.
Qed.
Next Obligation.
  intros md init h0 len H HH Hinit Hh Hlen Hmod E. rewrite E. cbn [md_size md_block_size md_ctx_size].
  change (2 ^ 32) with 4294967296. unfold sizeof_SHA256_CTX, sizeof_SHA512_CTX. lia.
Qed.

Lemma H512_256_length : length fips_H512_256 = 8%nat.
Proof. by rewrite H512_256_fips. Qed.

Lemma sha512_all h0 msg : length h0 = 8%nat -> bytes_ok msg -> take 8 (sha512_hash h0 msg) = sha512_hash h0 msg.
Proof.
  intros Hh Hm. apply take_ge. unfold sha512_hash.
  rewrite (md_hash_state _ _ (BF:=sha512_block_function)); [done|done|done|apply be_field_ok].
Qed.

#[export] Program Instance sha512_digest : Digest EVP_sha512 :=
  sha512_digest_by EVP_sha512 SHA512_Init fips_H512 64 fips_sha512 _ sha512_init_run eq_refl ltac:(lia) eq_refl eq_refl.
Next Obligation. intros msg Hm. unfold fips_sha512. do 2 f_equal. symmetry. by apply (sha512_all fips_H512 msg). Qed.
#[export] Instance sha384_digest : Digest EVP_sha384 :=
  sha512_digest_by EVP_sha384 SHA384_Init fips_H384 48 fips_sha384 (fun _ _ => eq_refl) sha384_init_run eq_refl
    ltac:(lia) eq_refl eq_refl.
#[export] Instance sha512_256_digest : Digest EVP_sha512_256 :=
  sha512_digest_by EVP_sha512_256 SHA512_256_Init fips_H512_256 32 fips_sha512_256 (fun _ _ => eq_refl)
    sha512_256_init_run H512_256_length ltac:(lia) eq_refl eq_refl.

(** MD5 and SHA-1 side by side, for the versions of TLS before 1.2. *)
#[export] Program Instance md5_sha1_digest : Digest EVP_md5_sha1 := {|
  hash msg := rfc_md5 msg ++ fips_sha1 msg;
  fresh o := has_room sizeof_MD5_SHA1_CTX o = true;
  ready msg o := exists m s, o = Md5Sha1Obj m s /\ holds_md5 msg m /\ holds_sha1 msg s
|}.
Next Obligation. intros l E. cbn in *. by apply Z.eqb_eq. Qed.
Next Obligation. by intros msg o (m & s & -> & _). Qed.
Next Obligation. by intros msg o (m & s & _ & [H _] & _). Qed.
Next Obligation.
  intros o Ho. cbn [md_init EVP_md5_sha1]. unfold md5_sha1_init. rewrite Ho.
  destruct (md5_init_run unset) as (m & -> & Hm). destruct (sha1_init_run unset) as (s & -> & Hs).
  eexists. split; [reflexivity|]. by exists m, s.
Qed.
Next Obligation.
  intros msg o data (m & s & -> & Hm & Hs) Hd Hl. cbn [md_update EVP_md5_sha1]. unfold md5_sha1_update.
  destruct (md5_update_run msg data m Hd Hl Hm) as (m' & -> & Hm').
  destruct (sha1_update_run msg data s Hd Hl Hs) as (s' & -> & Hs').
  eexists. split; [reflexivity|]. by exists m', s'.
Qed.
Next Obligation.
  intros msg o (m & s & -> & Hm & Hs). cbn [md_final EVP_md5_sha1]. unfold md5_sha1_final.
  destruct (md5_final_run msg m Hm) as (m' & ->). destruct (sha1_final_run msg s Hs) as (s' & ->). cbn. eauto.
Qed.
Next Obligation.
  intros msg Hm. apply Forall_app.
  split; [exact (@hash_bytes EVP_md5 md5_digest msg Hm)|exact (@hash_bytes EVP_sha1 sha1_digest msg Hm)].
Qed.
Next Obligation.
  intros msg Hm. cbn beta. rewrite zlen_app.
  pose proof (@hash_size EVP_md5 md5_digest msg Hm : zlen (rfc_md5 msg) = _) as ->.
  by pose proof (@hash_size EVP_sha1 sha1_digest msg Hm : zlen (fips_sha1 msg) = _) as ->.
Qed.
Next Obligation. done. Qed.


(** * BoringSSL: calls on digest contexts

    Triples for functions that may fail, the blocks a context owns, and one rule per
    call of digest.c: what it leaves in the context, and that it touches no other block. *)

(** ** Triples *)

(** From every state in [P], [m] returns in [Q] or fails in [E]; it has no undefined
    behaviour. *)
Definition hoare {S A} (P : S -> Prop) (m : M S A) (Q : A -> S -> Prop) (E : S -> Prop) : Prop :=
  forall s, P s -> match m s with Ret a s' => Q a s' | Fail s' => E s' | _ => False end.

Section triples.
Context {S : Type}.

Lemma hoare_ret {A} (P : S -> Prop) (a : A) (Q : A -> S -> Prop) E :
  (forall s, P s -> Q a s) -> hoare P (ret a) Q E.
Proof. intros H s Hs. by apply H. Qed.

Lemma hoare_bind {A B} (P : S -> Prop) (m : M S A) (k : A -> M S B) Q R E :
  hoare P m Q E -> (forall a, hoare (Q a) (k a) R E) -> hoare P (bind m k) R E.
Proof.
  intros Hm Hk s Hs. specialize (Hm s Hs). unfold bind. destruct (m s) as [a s'| | |]; try done. by apply Hk.
Qed.

Lemma hoare_start {A B} (P : S -> Prop) (x : A) (k : A -> M S B) Q E :
  hoare P (k x) Q E -> hoare P (bind (ret x) k) Q E.
Proof. intros H s Hs. exact (H s Hs). Qed.

Lemma hoare_assoc {A B D} (P : S -> Prop) (m : M S A) (f : A -> M S B) (g : B -> M S D) Q E :
  hoare P (let! b := (let! a := m in f a) in g b) Q E -> hoare P (let! a := m in let! b := f a in g b) Q E.
Proof. intros H s Hs. specialize (H s Hs). revert H. unfold bind. by destruct (m s). Qed.

(** A rule without failures serves where failures are allowed. *)
Lemma hoare_weaken {A} (P : S -> Prop) (m : M S A) Q E : hoare P m Q (fun _ => False) -> hoare P m Q E.
Proof. intros H s Hs. specialize (H s Hs). by destruct (m s). Qed.

Lemma hoare_cons {A} (P P' : S -> Prop) (m : M S A) Q Q' E E' :
  hoare P' m Q' E' -> (forall s, P s -> P' s) -> (forall a s, Q' a s -> Q a s) -> (forall s, E' s -> E s) ->
  hoare P m Q E.
Proof.
  intros Hm HP HQ HE s Hs. specialize (Hm s (HP s Hs)). destruct (m s); try done; auto.
Qed.

Lemma hoare_ex {A T} (P : T -> S -> Prop) (m : M S A) Q E :
  (forall x, hoare (P x) m Q E) -> hoare (fun s => exists x, P x s) m Q E.
Proof. intros H s [x Hx]. by apply (H x). Qed.

Lemma hoare_pre {A} (P : S -> Prop) (phi : Prop) (m : M S A) Q E :
  (phi -> hoare P m Q E) -> hoare (fun s => phi /\ P s) m Q E.
Proof. intros H s [Hp Hs]. by apply H. Qed.

Lemma hoare_try {A} (P : S -> Prop) (m : M S A) Q E E' :
  hoare P m Q E -> hoare P (tryb m) (fun r s => match r with Some a => Q a s | None => E s end) E'.
Proof. intros Hm s Hs. specialize (Hm s Hs). unfold tryb. by destruct (m s). Qed.

Lemma hoare_fail {A} (P : S -> Prop) Q E : (forall s, P s -> E s) -> hoare P (@failm S A) Q E.
Proof. intros H s Hs. by apply H. Qed.

End triples.

(** The malloc of the model may fail. *)
Definition malloc_fails (malloc : nat -> Z -> option (list Z)) : Prop := ~ malloc_total malloc.

Section contexts.
Context {md_ptr : Type} `{EqDecision md_ptr} (deref : md_ptr -> EVP_MD).
Context (malloc : nat -> Z -> option (list Z)) (pctx_dup : Z -> option Z).
Context (laws : forall p, Digest (deref p)) (Hmalloc : malloc_spec malloc).

#[local] Existing Instance laws.

Abbreviation ctx := (EVP_MD_CTX md_ptr).
Abbreviation state := (evp_state md_ptr).
Abbreviation blocks := (gmap nat md_object).

(** A context is empty, or has a digest and the block [r]; [b] is what it owns. *)
Definition owns_block (c : ctx) (st : option (md_ptr * md_object)) (b : blocks) : Prop :=
  match st with
  | None => c = null_ctx /\ b = ∅
  | Some (p, o) => exists r, c = EvpMdCtx (Some p) (Some r) None false /\ b = {[r := o]} /\ fresh (deref p) o
  end.

(** The blocks of the world are those of the context and the frame [F]. *)
Definition at_ctx (st : option (md_ptr * md_object)) (F : blocks) (s : state) : Prop :=
  exists b, owns_block s.1 st b /\ b ##ₘ F /\ w_blocks s.2 = b ∪ F.

(** A context that has been given [msg]. *)
Definition given (p : md_ptr) (msg : list Z) (st : option (md_ptr * md_object)) : Prop :=
  exists o, st = Some (p, o) /\ ready (deref p) msg o.

(** [m] takes a context from [st] to a context with [R], whatever the frame (among those
    with [C]), or fails and leaves one with [E]. *)
Definition ctx_rule {A} (C : blocks -> Prop) (st : option (md_ptr * md_object)) (m : M state A)
    (R : A -> option (md_ptr * md_object) -> Prop) (E : option (md_ptr * md_object) -> Prop) : Prop :=
  forall F, C F -> hoare (at_ctx st F) m
    (fun a s => exists st', R a st' /\ at_ctx st' F s) (fun s => exists st', E st' /\ at_ctx st' F s).

Lemma ctx_rule_cons {A} (C C' : blocks -> Prop) st (m : M state A) R R' E E' :
  ctx_rule C' st m R' E' -> (forall F, C F -> C' F) -> (forall a t, R' a t -> R a t) -> (forall t, E' t -> E t) ->
  ctx_rule C st m R E.
Proof.
  intros H HC HR HE F HF. eapply hoare_cons; [exact (H F (HC F HF))|done| |];
    [intros a s (t & Ht & Hs)|intros s (t & Ht & Hs)]; eauto.
Qed.

Lemma ctx_rule_bind {A B} C st (m : M state A) (k : A -> M state B) R R' E :
  ctx_rule C st m R E -> (forall a st', R a st' -> ctx_rule C st' (k a) R' E) -> ctx_rule C st (bind m k) R' E.
Proof.
  intros Hm Hk F HF. eapply hoare_bind; [exact (Hm F HF)|]. intros a s (st' & HR & Hs). by apply (Hk a st' HR F HF).
Qed.

(** ** Blocks *)

Lemma at_ctx_block p o F s : at_ctx (Some (p, o)) F s ->
  exists r n, s = (EvpMdCtx (Some p) (Some r) None false, World (<[r := o]> F) n) /\ F !! r = None /\ fresh (deref p) o.
Proof.
  destruct s as [c [w n]]. intros (b & (r & Ec & -> & Hf) & Hd & Ew). cbn in *. subst c w.
  exists r, n. split; [|split; [|done]].
  - by rewrite <- insert_union_singleton_l.
  - by apply map_disjoint_singleton_l in Hd.
Qed.

Lemma at_ctx_intro p o F r n : F !! r = None -> fresh (deref p) o ->
  at_ctx (Some (p, o)) F (EvpMdCtx (Some p) (Some r) None false, World (<[r := o]> F) n).
Proof.
  intros Hr Hf. exists {[r := o]}. split; [by exists r|]. split; [by apply map_disjoint_singleton_l|].
  cbn. by rewrite <- insert_union_singleton_l.
Qed.

Lemma at_ctx_null F s : at_ctx None F s -> exists n, s = (null_ctx, World F n).
Proof.
  destruct s as [c [w n]]. intros (b & (Ec & ->) & _ & Ew). cbn in *. subst. exists n. by rewrite (left_id_L ∅ (∪)).
Qed.

Lemma at_ctx_null_intro F n : at_ctx None F (null_ctx, World F n).
Proof. exists ∅. split; [done|]. split; [apply map_disjoint_empty_l|]. cbn. by rewrite (left_id_L ∅ (∪)). Qed.

(** A block for the struct of a digest. *)
Lemma alloc_run p (s : state) :
  match alloc_block malloc (md_ctx_size (deref p)) s with
  | Ret (Some r) s' => exists l, w_blocks s.2 !! r = None /\ zlen l = md_ctx_size (deref p) /\
      s' = (s.1, World (<[r := Raw l]> (w_blocks s.2)) (S (w_allocs s.2)))
  | Ret None s' => s' = (s.1, World (w_blocks s.2) (S (w_allocs s.2))) /\ malloc_fails malloc
  | _ => False
  end.
Proof using laws Hmalloc.
  unfold alloc_block. destruct (sizes_ok (md:=deref p)) as (_ & _ & Hsz). change (2 ^ 32) with 4294967296 in Hsz.
  destruct (OPENSSL_malloc _ _ _) as [l|] eqn:E.
  - apply openssl_malloc_len in E as [El _]; [|done|change (2 ^ 64) with 18446744073709551616; lia].
    exists l. split; [apply new_ref_fresh|done].
  - split; [done|]. intros Ht. unfold OPENSSL_malloc, OPENSSL_MALLOC_PREFIX in E.
    rewrite wrap_small in E by (change (2 ^ 64) with 18446744073709551616; lia).
    destruct (Z.ltb_spec (md_ctx_size (deref p) + 8) (md_ctx_size (deref p))); [lia|].
    destruct (Ht (w_allocs s.2) (md_ctx_size (deref p) + 8)) as [x Hx]; [change (2 ^ 63) with 9223372036854775808; lia|].
    by rewrite Hx in E.
Qed.

(** ** The calls *)

Ltac ctx_cbn := cbn [md_data pctx pctx_ops non_null andb digest w_blocks w_allocs fst snd];
  repeat first [rewrite lookup_insert_eq | rewrite insert_insert_eq];
  cbn [md_data pctx pctx_ops non_null andb digest w_blocks w_allocs fst snd];
  repeat first [rewrite lookup_insert_eq | rewrite insert_insert_eq].

Definition same_digest (p : md_ptr) (st : option (md_ptr * md_object)) : Prop := exists o, st = Some (p, o).

(** A call that allocates fails only when malloc does, and not where the context has the
    digest already. *)
Definition fails_as (p : md_ptr) (st st' : option (md_ptr * md_object)) : Prop :=
  st' = st /\ malloc_fails malloc /\ ~ same_digest p st.

Lemma init_tail_run p o F r n : F !! r = None -> fresh (deref p) o ->
  exists o', ready (deref p) [] o' /\
  (let! c := get_ctx in
   (if non_null (pctx c) && negb (pctx_ops c) then ubm else ret tt);;!
   let! md := get_digest deref in
   let! o := load_block (md_data c) in
   let! o := of_opt (md_init md o) in
   store_block (md_data c) o) (EvpMdCtx (Some p) (Some r) None false, World (<[r := o]> F) n) =
  Ret tt (EvpMdCtx (Some p) (Some r) None false, World (<[r := o']> F) n).
Proof.
  intros Hr Hf. destruct (init_ok o Hf) as (o' & Ei & Hi). exists o'. split; [done|].
  unfold get_digest, bind, get_ctx, load_block, store_block, of_opt, ret. cbn [md_data pctx pctx_ops non_null andb digest w_blocks w_allocs fst snd].
  ctx_cbn. rewrite Ei. ctx_cbn. done.
Qed.

Lemma init_rule p st : ctx_rule (fun _ => True) st (EVP_DigestInit_ex deref malloc p)
  (fun _ st' => given p [] st') (fails_as p st).
Proof using laws Hmalloc.
  intros F _ s Hs. unfold EVP_DigestInit_ex, bind at 1, get_ctx at 1.
  destruct (decide (digest s.1 = Some p)) as [Hd|Hd].
  - destruct st as [[q o]|]; [|apply at_ctx_null in Hs as (n & ->); done].
    apply at_ctx_block in Hs as (r & n & -> & Hr & Hf). cbn in Hd. injection Hd as ->.
    rewrite bool_decide_false by (cbn; naive_solver). rewrite bind_ret.
    destruct (init_tail_run p o F r n Hr Hf) as (o' & Ho & ->). exists (Some (p, o')). split; [by exists o'|].
    apply at_ctx_intro; [done|by apply (ready_fresh [])].
  - rewrite bool_decide_true by done. pose proof (alloc_run p s) as Ha.
    destruct (sizes_ok (md:=deref p)) as (_ & _ & Hsz). bool_false (md_ctx_size (deref p) =? 0).
    unfold bind at 1. rewrite bind_ret. unfold bind at 1.
    destruct (alloc_block _ _ _) as [[r|] s1| | |]; try done.
    + destruct Ha as (l & Hr & El & ->).
      assert (Hfree : (free_block (md_data s.1) (s.1, World (<[r := Raw l]> (w_blocks s.2)) (S (w_allocs s.2))) =
                       Ret tt (s.1, World (<[r := Raw l]> F) (S (w_allocs s.2)))) /\ F !! r = None /\
                      pctx s.1 = None /\ pctx_ops s.1 = false).
      { destruct st as [[q o]|].
        - apply at_ctx_block in Hs as (r0 & n & -> & Hr0 & _). cbn in *.
          assert (r0 <> r) by (intros ->; by rewrite lookup_insert_eq in Hr).
          rewrite lookup_insert_ne, lookup_insert_eq by done. rewrite lookup_insert_ne in Hr by done.
          split; [|done]. rewrite delete_insert_ne, delete_insert_id by done. done.
        - by apply at_ctx_null in Hs as (n & ->). }
      destruct Hfree as (Hfree & HrF & Hp1 & Hp2).
      unfold bind at 1. rewrite Hfree. unfold bind at 1, on_ctx at 1, modm at 1.
      unfold on_ctx at 1, modm at 1. unfold set_digest, set_md_data. cbn [fst snd digest md_data pctx pctx_ops].
      rewrite Hp1, Hp2.
      destruct (init_tail_run p (Raw l) F r (S (w_allocs s.2)) HrF) as (o' & Ho & ->); [by apply raw_fresh|].
      exists (Some (p, o')). split; [by exists o'|]. apply at_ctx_intro; [done|by apply (ready_fresh [])].
    + destruct Ha as [-> Hm]. exists st. split.
      * split; [done|]. split; [done|]. intros [o ->]. apply at_ctx_block in Hs as (r & n & -> & _). done.
      * destruct Hs as (b & Hb). by exists b.
Qed.

Lemma update_rule p msg data o : ready (deref p) msg o -> bytes_ok data -> zlen data < 2 ^ 64 ->
  ctx_rule (fun _ => True) (Some (p, o)) (EVP_DigestUpdate deref data) (fun _ st' => given p (msg ++ data) st') (fun _ => False).
Proof.
  intros Ho Hd Hl F _ s Hs. apply at_ctx_block in Hs as (r & n & -> & Hr & Hf).
  destruct (update_ok msg o data Ho Hd Hl) as (o' & Eu & Hu).
  unfold EVP_DigestUpdate, get_digest, bind, get_ctx, load_block, store_block, of_opt, ret.
  ctx_cbn. rewrite Eu. ctx_cbn.
  exists (Some (p, o')). split; [by exists o'|]. apply at_ctx_intro; [done|by apply (ready_fresh (msg ++ data))].
Qed.

Lemma final_rule p msg o : ready (deref p) msg o ->
  ctx_rule (fun _ => True) (Some (p, o)) (EVP_DigestFinal_ex deref)
    (fun d st' => d = hash (deref p) msg /\ same_digest p st') (fun _ => False).
Proof.
  intros Ho F _ s Hs. apply at_ctx_block in Hs as (r & n & -> & Hr & Hf).
  destruct (final_ok msg o Ho) as (o' & Ef). destruct (sizes_ok (md:=deref p)) as (Hs1 & _ & Hs3).
  unfold EVP_DigestFinal_ex, get_digest, bind, get_ctx, load_block, store_block, of_opt, ret.
  ctx_cbn. unfold EVP_MAX_MD_SIZE. bool_true (md_size (deref p) <=? 64). ctx_cbn.
  rewrite Ef. ctx_cbn. eexists (Some (p, _)).
  split; [split; [done|by eexists]|]. apply at_ctx_intro; [done|]. apply raw_fresh.
  unfold zlen. rewrite length_replicate. lia.
Qed.

Lemma cleanup_rule st : ctx_rule (fun _ => True) st (@EVP_MD_CTX_cleanup md_ptr)
  (fun _ st' => st' = None) (fun _ => False).
Proof.
  intros F _ s Hs. unfold EVP_MD_CTX_cleanup, EVP_MD_CTX_init, on_ctx, modm, bind, get_ctx, ret.
  destruct st as [[p o]|].
  - apply at_ctx_block in Hs as (r & n & -> & Hr & _). cbn. rewrite lookup_insert_eq. exists None. split; [done|].
    rewrite delete_insert_id by done. apply at_ctx_null_intro.
  - apply at_ctx_null in Hs as (n & ->). cbn. exists None. split; [done|]. apply at_ctx_null_intro.
Qed.

(** A context that is copied from: its block lies in the frame. *)
Definition source (c : ctx) (p : md_ptr) (o : md_object) (F : blocks) : Prop :=
  exists r, c = EvpMdCtx (Some p) (Some r) None false /\ F !! r = Some o.

Lemma copy_tail_run p o ri r n F (out : ctx) l : F !! ri = Some o -> F !! r = None ->
  pctx out = None -> pctx_ops out = false -> 
  (on_ctx (set_digest (Some p));;!
   on_ctx (set_md_data (Some r));;!
   (let! o := load_block (Some ri) in store_block (Some r) o);;!
   on_ctx (set_pctx None);;! on_ctx (set_pctx_ops false)) (out, World (<[r := l]> F) n) =
  Ret tt (EvpMdCtx (Some p) (Some r) None false, World (<[r := o]> F) n).
Proof.
  intros Hi Hr Hp Hq. unfold bind, on_ctx, modm, load_block, store_block. cbn [w_blocks w_allocs fst snd].
  rewrite lookup_insert_ne by (intros ->; congruence). rewrite Hi. ctx_cbn. done.
Qed.

Lemma copy_rule (in_ : ctx) p oi st : fresh (deref p) oi ->
  ctx_rule (source in_ p oi) st (EVP_MD_CTX_copy_ex deref malloc pctx_dup in_)
    (fun _ st' => st' = Some (p, oi)) (fails_as p st).
Proof using laws Hmalloc.
  intros Hf F (ri & -> & Hri) s Hs. unfold EVP_MD_CTX_copy_ex. cbn [pctx digest non_null negb andb md_data pctx_ops].
  rewrite bind_ret. unfold bind at 1. unfold bind at 1, get_ctx at 1.
  destruct (decide (digest s.1 = Some p)) as [Hd|Hd].
  - destruct st as [[q o]|]; [|apply at_ctx_null in Hs as (n & ->); done].
    apply at_ctx_block in Hs as (r & n & -> & Hr & _). cbn in Hd. injection Hd as ->.
    rewrite bool_decide_false by (cbn; naive_solver).
    unfold bind at 1, on_ctx at 1, modm at 1, ret at 1. cbn [fst snd set_md_data md_data].
    unfold EVP_MD_CTX_cleanup, EVP_MD_CTX_init, bind at 1, bind at 1, get_ctx at 1, bind at 1.
    cbn [free_block set_md_data md_data pctx pctx_ops non_null andb fst snd digest].
    rewrite bind_ret. unfold on_ctx at 1, modm at 1. cbn [fst snd].
    rewrite (copy_tail_run p oi ri r n F null_ctx o) by done. exists (Some (p, oi)). split; [done|].
    by apply at_ctx_intro.
  - rewrite bool_decide_true by done. pose proof (alloc_run p s) as Ha.
    destruct (sizes_ok (md:=deref p)) as (_ & _ & Hsz). bool_false (md_ctx_size (deref p) =? 0).
    rewrite bind_ret. unfold bind at 1.
    destruct (alloc_block _ _ _) as [[r|] s1| | |]; try done.
    + destruct Ha as (l & Hr & El & ->). unfold ret at 1.
      assert (Hcl : @EVP_MD_CTX_cleanup md_ptr (s.1, World (<[r := Raw l]> (w_blocks s.2)) (S (w_allocs s.2))) =
                    Ret tt (null_ctx, World (<[r := Raw l]> F) (S (w_allocs s.2))) /\ F !! r = None).
      { destruct st as [[q o]|].
        - apply at_ctx_block in Hs as (r0 & n & -> & Hr0 & _). cbn in *.
          assert (r0 <> r) by (intros ->; by rewrite lookup_insert_eq in Hr).
          unfold EVP_MD_CTX_cleanup, bind, get_ctx, free_block. cbn [fst snd md_data w_blocks].
          rewrite lookup_insert_ne, lookup_insert_eq by done. rewrite lookup_insert_ne in Hr by done.
          split; [|done]. rewrite delete_insert_ne, delete_insert_id by done. done.
        - by apply at_ctx_null in Hs as (n & ->). }
      destruct Hcl as [Hcl HrF]. unfold bind at 1. rewrite Hcl.
      rewrite (copy_tail_run p oi ri r _ F null_ctx (Raw l)) by done. exists (Some (p, oi)). split; [done|].
      by apply at_ctx_intro.
    + destruct Ha as [-> Hm]. exists st. split.
      * split; [done|]. split; [done|]. intros [o ->]. apply at_ctx_block in Hs as (r & n & -> & _). done.
      * destruct Hs as (b & Hb). by exists b.
Qed.

End contexts.


(** * BoringSSL: the digests of the library by name

    The static EVP_MD objects that [EVP_md5], [EVP_sha1], ... return, and what the
    standards say each computes. *)

Inductive static_md : Type :=
| Md5 | Sha1 | Sha224 | Sha256 | Sha384 | Sha512 | Sha512_256 | Md5Sha1.

#[export] Instance static_md_dec : EqDecision static_md.
Proof. solve_decision. Defined.

Definition static_deref (p : static_md) : EVP_MD :=
  match p with
  | Md5 => EVP_md5
  | Sha1 => EVP_sha1
  | Sha224 => EVP_sha224
  | Sha256 => EVP_sha256
  | Sha384 => EVP_sha384
  | Sha512 => EVP_sha512
  | Sha512_256 => EVP_sha512_256
  | Md5Sha1 => EVP_md5_sha1
  end.

#[export] Instance static_laws (p : static_md) : Digest (static_deref p).
Proof. destruct p; exact _. Defined.

(** RFC 1321 and FIPS 180-4. *)
Definition standard_hash (p : static_md) (msg : list Z) : list Z :=
  match p with
  | Md5 => rfc_md5 msg
  | Sha1 => fips_sha1 msg
  | Sha224 => fips_sha224 msg
  | Sha256 => fips_sha256 msg
  | Sha384 => fips_sha384 msg
  | Sha512 => fips_sha512 msg
  | Sha512_256 => fips_sha512_256 msg
  | Md5Sha1 => rfc_md5 msg ++ fips_sha1 msg
  end.

Lemma static_hash p : hash (static_deref p) = standard_hash p.
Proof. by destruct p. Qed.

(** ** A whole digest *)

Section pieces.
Context {md_ptr : Type} `{EqDecision md_ptr} (deref : md_ptr -> EVP_MD) (malloc : nat -> Z -> option (list Z)).
Context (laws : forall p, Digest (deref p)) (Hmalloc : malloc_spec malloc).

#[local] Existing Instance laws.

Fixpoint EVP_DigestUpdates (pieces : list (list Z)) : M (evp_state md_ptr) unit :=
  match pieces with
  | [] => ret tt
  | x :: l => EVP_DigestUpdate deref x;;! EVP_DigestUpdates l
  end.

(** A context is initialised, given the pieces one after the other, and finished. *)
Definition digest_pieces (p : md_ptr) (pieces : list (list Z)) : M (evp_state md_ptr) (list Z) :=
  EVP_DigestInit deref malloc p;;! EVP_DigestUpdates pieces;;! EVP_DigestFinal deref.

(** Pieces that a caller can pass. *)
Definition piece_ok (x : list Z) : Prop := bytes_ok x /\ zlen x < 2 ^ 64.

Lemma updates_rule p pieces msg o : Forall piece_ok pieces -> ready (deref p) msg o ->
  ctx_rule deref laws (fun _ => True) (Some (p, o)) (EVP_DigestUpdates pieces)
    (fun _ st' => given deref laws p (msg ++ concat pieces) st') (fun _ => False).
Proof.
  intros Hp. revert msg o. induction Hp as [|x l [Hx Hl] _ IH]; intros msg o Ho.
  - intros F _. apply hoare_ret. intros s Hs. exists (Some (p, o)). split; [|done]. exists o. by rewrite app_nil_r.
  - eapply ctx_rule_bind; [by apply (update_rule deref laws p msg x o Ho)|]. intros [] st' (o' & -> & Ho').
    cbn [concat]. rewrite app_assoc. by apply IH.
Qed.

Lemma digest_pieces_rule p pieces c w : Forall piece_ok pieces ->
  match digest_pieces p pieces (c, w) with
  | Ret d s => d = hash (deref p) (concat pieces) /\ s.1 = null_ctx /\ w_blocks s.2 = w_blocks w
  | Fail s => malloc_fails malloc /\ s.1 = null_ctx /\ w_blocks s.2 = w_blocks w
  | _ => False
  end.
Proof using laws Hmalloc.
  intros Hp. set (F := w_blocks w).
  assert (H : ctx_rule deref laws (fun _ => True) None
    (EVP_DigestInit_ex deref malloc p;;! EVP_DigestUpdates pieces;;! EVP_DigestFinal deref)
    (fun d st' => d = hash (deref p) (concat pieces) /\ st' = None) (fails_as malloc p None)).
  { eapply ctx_rule_bind; [by apply init_rule|]. intros [] st' (o & -> & Ho).
    eapply (ctx_rule_cons deref laws _ (fun _ => True) _ _ _ _ _ (fun _ => False)); [|done|intros ? ? H; exact H|intros ? []].
    eapply ctx_rule_bind; [by apply (updates_rule p pieces [] o)|]. intros [] st' (o' & -> & Ho').
    eapply ctx_rule_bind; [by apply (final_rule deref laws p _ o' Ho')|]. intros d st' (-> & _).
    eapply ctx_rule_bind; [by apply cleanup_rule|]. intros [] st2 ->. intros G _. apply hoare_ret. by exists None. }
  assert (Hat : at_ctx deref laws None F (null_ctx, w)) by (destruct w; apply at_ctx_null_intro).
  specialize (H F Logic.I (null_ctx, w) Hat). 
  assert (E : digest_pieces p pieces (c, w) =
    (EVP_DigestInit_ex deref malloc p;;! EVP_DigestUpdates pieces;;! EVP_DigestFinal deref) (null_ctx, w)).
  { unfold digest_pieces, EVP_DigestInit, EVP_MD_CTX_init, on_ctx, modm, bind. cbn [fst snd]. by destruct (EVP_DigestInit_ex _ _ _ _). }
  rewrite E. destruct (bind _ _ _) as [d s|s| |]; try done.
  - destruct H as (st' & (-> & ->) & Hs). by apply at_ctx_null in Hs as (n & ->).
  - destruct H as (st' & (-> & Hm & _) & Hs). by apply at_ctx_null in Hs as (n & ->).
Qed.

End pieces.

(** C8: a message may be given to a digest in any pieces.  For each of the eight digests of the
    library, a context that is initialised, updated with the pieces and finished gives the hash
    that RFC 1321 or FIPS 180-4 defines of their concatenation, and leaves the context empty and
    no block behind; it fails only where malloc does.  The pieces are of any number and size. *)
Theorem evp_digest_any_cut malloc (p : static_md) pieces c w :
  malloc_spec malloc -> Forall piece_ok pieces ->
  match digest_pieces static_deref malloc p pieces (c, w) with
  | Ret d s => d = standard_hash p (concat pieces) /\ s.1 = null_ctx /\ w_blocks s.2 = w_blocks w
  | Fail s => malloc_fails malloc /\ s.1 = null_ctx /\ w_blocks s.2 = w_blocks w
  | _ => False
  end.
Proof.
  intros Hm Hp. rewrite <- static_hash.
  exact (digest_pieces_rule static_deref malloc static_laws Hm p pieces c w Hp).
Qed.

Lemma evp_digest_any_cut_witness :
  match digest_pieces static_deref sample_malloc Sha256 [[97]; []; [98; 99]] (null_ctx, World ∅ 0) with
  | Ret d s => d = standard_hash Sha256 (concat [[97]; []; [98; 99]]) /\ s.1 = null_ctx /\ w_blocks s.2 = ∅
  | Fail s => malloc_fails sample_malloc /\ s.1 = null_ctx /\ w_blocks s.2 = ∅
  | _ => False
  end.
Proof.
  apply (evp_digest_any_cut sample_malloc Sha256 [[97]; []; [98; 99]] null_ctx (World ∅ 0)).
  - exact sample_malloc_spec.
  - repeat constructor; unfold piece_ok, is_byte; lia.
Defined.
