(* ===== verification/Hmac.v ===== *)
(** * BoringSSL: HMAC (crypto/fipsmodule/hmac/hmac.c)

    Contexts with a key, over three digest contexts: the running one and the two that
    have absorbed the inner and the outer padded key. *)
From S2P Require Import Prelude OsslMem WordOps Evp.

Section hmac.
Context {md_ptr : Type} `{EqDecision md_ptr} (deref : md_ptr -> EVP_MD).
Context (malloc : nat -> Z -> option (list Z)) (pctx_dup : Z -> option Z).
(** What an uninitialised array of 128 bytes holds. *)
Context (garbage : list Z).

Record HMAC_CTX : Type := HmacCtx {
  hm_md : option md_ptr;
  hm_md_ctx : EVP_MD_CTX md_ptr;
  hm_i_ctx : EVP_MD_CTX md_ptr;
  hm_o_ctx : EVP_MD_CTX md_ptr
}.

Definition hmac_state : Type := (HMAC_CTX * world)%type.

Definition set_hm_md (x : option md_ptr) (c : HMAC_CTX) : HMAC_CTX :=
  HmacCtx x (hm_md_ctx c) (hm_i_ctx c) (hm_o_ctx c).
Definition set_md_ctx (x : EVP_MD_CTX md_ptr) (c : HMAC_CTX) : HMAC_CTX :=
  HmacCtx (hm_md c) x (hm_i_ctx c) (hm_o_ctx c).
Definition set_i_ctx (x : EVP_MD_CTX md_ptr) (c : HMAC_CTX) : HMAC_CTX :=
  HmacCtx (hm_md c) (hm_md_ctx c) x (hm_o_ctx c).
Definition set_o_ctx (x : EVP_MD_CTX md_ptr) (c : HMAC_CTX) : HMAC_CTX :=
  HmacCtx (hm_md c) (hm_md_ctx c) (hm_i_ctx c) x.

Definition get_hmac : M hmac_state HMAC_CTX := fun s => Ret s.1 s.
Definition on_hmac (f : HMAC_CTX -> HMAC_CTX) : M hmac_state unit := modm (fun s => (f s.1, s.2)).

(** A call on one of the three contexts. *)
Definition on_part {A} (get : HMAC_CTX -> EVP_MD_CTX md_ptr) (set : EVP_MD_CTX md_ptr -> HMAC_CTX -> HMAC_CTX)
    (m : M (evp_state md_ptr) A) : M hmac_state A := fun s =>
  match m (get s.1, s.2) with
  | Ret a e => Ret a (set e.1 s.1, e.2)
  | Fail e => Fail (set e.1 s.1, e.2)
  | Ub => Ub
  | NoFuel => NoFuel
  end.
Definition on_md_ctx {A} : M (evp_state md_ptr) A -> M hmac_state A := on_part hm_md_ctx set_md_ctx.
Definition on_i_ctx {A} : M (evp_state md_ptr) A -> M hmac_state A := on_part hm_i_ctx set_i_ctx.
Definition on_o_ctx {A} : M (evp_state md_ptr) A -> M hmac_state A := on_part hm_o_ctx set_o_ctx.

Definition null_hmac : HMAC_CTX := HmacCtx None null_ctx null_ctx null_ctx.

Definition HMAC_CTX_init : M hmac_state unit :=
  on_hmac (set_hm_md None);;!
  on_i_ctx EVP_MD_CTX_init;;!
  on_o_ctx EVP_MD_CTX_init;;!
  on_md_ctx EVP_MD_CTX_init.

Definition HMAC_CTX_cleanup : M hmac_state unit :=
  on_i_ctx EVP_MD_CTX_cleanup;;!
  on_o_ctx EVP_MD_CTX_cleanup;;!
  on_md_ctx EVP_MD_CTX_cleanup;;!
  on_hmac (fun _ => null_hmac).

Definition HMAC_CTX_reset : M hmac_state unit := HMAC_CTX_cleanup;;! HMAC_CTX_init.

(** The padded key: [key_block] after the copy or the digest and the zeros. *)
Definition hmac_key_block (m : md_ptr) (key : list Z) : M hmac_state (list Z) :=
  let! (key_block, key_block_len) :=
    (if EVP_MD_block_size deref m <? zlen key then
       let! d := on_md_ctx (EVP_DigestInit_ex deref malloc m;;!
                            EVP_DigestUpdate deref key;;!
                            EVP_DigestFinal_ex deref) in
       let! k := of_opt (OPENSSL_memcpy garbage 0 d 0 (zlen d)) in
       ret (k, EVP_MD_size deref m)
     else
       let! k := of_opt (OPENSSL_memcpy garbage 0 key 0 (zlen key)) in
       ret (k, zlen key)) in
  if negb (key_block_len =? EVP_MAX_MD_BLOCK_SIZE)
  then of_opt (OPENSSL_memset key_block key_block_len 0 (u64 (EVP_MAX_MD_BLOCK_SIZE - key_block_len)))
  else ret key_block.

(** [key] is [None] for a null pointer, with a length of zero. *)
Definition HMAC_Init_ex (key : option (list Z)) (md : option md_ptr) : M hmac_state unit :=
  let! c := get_hmac in
  let md := match md with None => hm_md c | Some _ => md end in
  (if bool_decide (md <> hm_md c) || non_null key then
     match md with
     | None => ubm
     | Some m =>
         let block_size := EVP_MD_block_size deref m in
         (if block_size <=? EVP_MAX_MD_BLOCK_SIZE then ret tt else ubm);;!
         let! key_block := hmac_key_block m (default [] key) in
         let pad := map (Z.lxor 0x36) key_block in
         on_i_ctx (EVP_DigestInit_ex deref malloc m;;!
                   EVP_DigestUpdate deref (ztake block_size pad));;!
         let pad := map (Z.lxor 0x5c) key_block in
         on_o_ctx (EVP_DigestInit_ex deref malloc m;;!
                   EVP_DigestUpdate deref (ztake block_size pad));;!
         on_hmac (set_hm_md (Some m))
     end
   else ret tt);;!
  let! c := get_hmac in
  on_md_ctx (EVP_MD_CTX_copy_ex deref malloc pctx_dup (hm_i_ctx c)).

Definition HMAC_Update (data : list Z) : M hmac_state unit := on_md_ctx (EVP_DigestUpdate deref data).

(** The bytes stored at [out]; [out_len] tells whether that pointer is not null. *)
Definition HMAC_Final (out_len : bool) : M hmac_state (list Z) :=
  let! r := tryb (
    let! buf := on_md_ctx (EVP_DigestFinal_ex deref) in
    let! c := get_hmac in
    on_md_ctx (EVP_MD_CTX_copy_ex deref malloc pctx_dup (hm_o_ctx c));;!
    on_md_ctx (EVP_DigestUpdate deref buf);;!
    on_md_ctx (EVP_DigestFinal_ex deref)) in
  match r with
  | Some out => ret out
  | None => if out_len then failm else ubm
  end.

Definition HMAC_size (c : HMAC_CTX) : option Z := EVP_MD_size deref <$> hm_md c.

(** [src] is another context. *)
Definition HMAC_CTX_copy_ex (src : HMAC_CTX) : M hmac_state unit :=
  on_i_ctx (EVP_MD_CTX_copy_ex deref malloc pctx_dup (hm_i_ctx src));;!
  on_o_ctx (EVP_MD_CTX_copy_ex deref malloc pctx_dup (hm_o_ctx src));;!
  on_md_ctx (EVP_MD_CTX_copy_ex deref malloc pctx_dup (hm_md_ctx src));;!
  on_hmac (set_hm_md (hm_md src)).

Definition HMAC_CTX_copy (src : HMAC_CTX) : M hmac_state unit := HMAC_CTX_init;;! HMAC_CTX_copy_ex src.

Definition HMAC_Init (key : option (list Z)) (md : option md_ptr) : M hmac_state unit :=
  (if non_null key && non_null md then HMAC_CTX_init else ret tt);;!
  HMAC_Init_ex key md.

(** Runs [m] with a context of its own, initialised, and cleans it up; the result is
    [None] where [m] fails. *)
Definition with_local_hmac {A} (m : M hmac_state A) (w : world) : out world (option A) :=
  match (HMAC_CTX_init;;! let! r := tryb m in HMAC_CTX_cleanup;;! ret r) (null_hmac, w) with
  | Ret r s => Ret r s.2
  | Fail s => Fail s.2
  | Ub => Ub
  | NoFuel => NoFuel
  end.

(** [None] is a null pointer. *)
Definition HMAC (evp_md : md_ptr) (key : option (list Z)) (data : list Z) (out_len : bool)
    : world -> out world (option (list Z)) :=
  with_local_hmac (HMAC_Init_ex key (Some evp_md);;! HMAC_Update data;;! HMAC_Final out_len).

End hmac.
Arguments HMAC_CTX : clear implicits.
Arguments hmac_state : clear implicits.
