(* ===== verification/HmacSpec.v ===== *)
(** * BoringSSL: calls on HMAC contexts

    The three digest contexts of an HMAC_CTX own blocks apart from one another; a rule
    for a call on a digest context is one for a call on the context that contains it.  HMAC is RFC 2104, for every digest and every cut of
    the message, and copies of contexts share nothing. *)
From S2P Require Import Prelude OsslMem WordOps Md32 Evp EvpSpec Hmac.

Section contexts.
Context {md_ptr : Type} `{EqDecision md_ptr} (deref : md_ptr -> EVP_MD).
Context (malloc : nat -> Z -> option (list Z)) (pctx_dup : Z -> option Z).
Context (laws : forall p, Digest (deref p)) (Hmalloc : malloc_spec malloc).

#[local] Existing Instance laws.

Abbreviation contents := (option (md_ptr * md_object)).
Abbreviation blocks := (gmap nat md_object).
Abbreviation owns := (owns_block deref laws).
Abbreviation rule := (ctx_rule deref laws).

(** The digest of the context is [md], its digest contexts have [sm], [si] and [so], and
    the other blocks of the world are [F]. *)
Definition at_hmac (md : option md_ptr) (sm si so : contents) (F : blocks) (s : hmac_state md_ptr) : Prop :=
  hm_md s.1 = md /\
  exists bm bi bo, owns (hm_md_ctx s.1) sm bm /\ owns (hm_i_ctx s.1) si bi /\ owns (hm_o_ctx s.1) so bo /\
    bm ##ₘ bi /\ bm ##ₘ bo /\ bi ##ₘ bo /\ bm ##ₘ F /\ bi ##ₘ F /\ bo ##ₘ F /\
    w_blocks s.2 = bm ∪ (bi ∪ (bo ∪ F)).

Lemma owns_unique c st (b b' : blocks) : owns c st b -> owns c st b' -> b = b'.
Proof.
  destruct st as [[p o]|]; [|by intros [_ ->] [_ ->]].
  intros (r & -> & -> & _) (r' & [= <-] & -> & _). done.
Qed.

Lemma union_swap (a b c : blocks) : a ##ₘ b -> a ∪ (b ∪ c) = b ∪ (a ∪ c).
Proof.
  intros H. rewrite (assoc_L (∪) a b c), (assoc_L (∪) b a c). by rewrite (map_union_comm a b) by done.
Qed.

Ltac disjoint_blocks := repeat (rewrite ?map_disjoint_union_l, ?map_disjoint_union_r in *; destruct_and?; split_and?);
  eauto using map_disjoint_sym.

(** A call on the running context. *)
Lemma on_md_rule {A} C (m : M (evp_state md_ptr) A) R E md sm si so F (s : hmac_state md_ptr) :
  rule C sm m R E -> at_hmac md sm si so F s ->
  (forall bi bo, owns (hm_i_ctx s.1) si bi -> owns (hm_o_ctx s.1) so bo -> bi ##ₘ bo -> C (bi ∪ (bo ∪ F))) ->
  match on_md_ctx m s with
  | Ret a s' => exists sm', R a sm' /\ at_hmac md sm' si so F s'
  | Fail s' => exists sm', E sm' /\ at_hmac md sm' si so F s'
  | _ => False
  end.
Proof.
  destruct s as [c w]. intros Hm (Hmd & bm & bi & bo & Om & Oi & Oo & D1 & D2 & D3 & D4 & D5 & D6 & Ew) HC.
  cbn [fst snd] in *.
  assert (Hat : at_ctx deref laws sm (bi ∪ (bo ∪ F)) (hm_md_ctx c, w)) by (exists bm; split_and!; disjoint_blocks).
  specialize (Hm _ (HC bi bo Oi Oo D3) _ Hat). unfold on_md_ctx, on_part. cbn [fst snd].
  destruct (m (hm_md_ctx c, w)) as [a [c' w']|[c' w']| |]; try done; destruct Hm as (sm' & HR & b & Ob & Db & Eb);
    exists sm'; (split; [done|]); (split; [done|]); exists b, bi, bo; cbn [fst snd] in *; split_and!; disjoint_blocks.
Qed.

Lemma frame_subseteq (a b F : blocks) : a ##ₘ b -> a ##ₘ F -> b ##ₘ F -> F ⊆ a ∪ (b ∪ F).
Proof. intros. transitivity (b ∪ F); apply map_union_subseteq_r; [done|]. apply map_disjoint_union_r. done. Qed.

(** Calls on the context of the inner key and of the outer one; the frame is among the
    blocks that they leave alone. *)
Lemma on_i_frame {A} (m : M (evp_state md_ptr) A) R E md sm si so F :
  rule (fun G => F ⊆ G) si m R E ->
  hoare (at_hmac md sm si so F) (on_i_ctx m)
    (fun a s => exists si', R a si' /\ at_hmac md sm si' so F s)
    (fun s => exists si', E si' /\ at_hmac md sm si' so F s).
Proof.
  intros Hm [c w] (Hmd & bm & bi & bo & Om & Oi & Oo & D1 & D2 & D3 & D4 & D5 & D6 & Ew).
  cbn [fst snd] in *. rewrite union_swap in Ew by done.
  assert (Hat : at_ctx deref laws si (bm ∪ (bo ∪ F)) (hm_i_ctx c, w)) by (exists bi; split_and!; disjoint_blocks).
  specialize (Hm (bm ∪ (bo ∪ F)) (frame_subseteq bm bo F D2 D4 D6) _ Hat). unfold on_i_ctx, on_part. cbn [fst snd].
  destruct (m (hm_i_ctx c, w)) as [a [c' w']|[c' w']| |]; try done; destruct Hm as (sm' & HR & b & Ob & Db & Eb);
    exists sm'; (split; [done|]); (split; [done|]); exists bm, b, bo; cbn [fst snd] in *; 
    rewrite (union_swap bm b) by disjoint_blocks; split_and!; disjoint_blocks.
Qed.

Lemma on_o_frame {A} (m : M (evp_state md_ptr) A) R E md sm si so F :
  rule (fun G => F ⊆ G) so m R E ->
  hoare (at_hmac md sm si so F) (on_o_ctx m)
    (fun a s => exists so', R a so' /\ at_hmac md sm si so' F s)
    (fun s => exists so', E so' /\ at_hmac md sm si so' F s).
Proof.
  intros Hm [c w] (Hmd & bm & bi & bo & Om & Oi & Oo & D1 & D2 & D3 & D4 & D5 & D6 & Ew).
  cbn [fst snd] in *. rewrite (union_swap bi bo), (union_swap bm bo) in Ew by done.
  assert (Hat : at_ctx deref laws so (bm ∪ (bi ∪ F)) (hm_o_ctx c, w)) by (exists bo; split_and!; disjoint_blocks).
  specialize (Hm (bm ∪ (bi ∪ F)) (frame_subseteq bm bi F D1 D4 D5) _ Hat). unfold on_o_ctx, on_part. cbn [fst snd].
  destruct (m (hm_o_ctx c, w)) as [a [c' w']|[c' w']| |]; try done; destruct Hm as (sm' & HR & b & Ob & Db & Eb);
    exists sm'; (split; [done|]); (split; [done|]); exists bm, bi, b; cbn [fst snd] in *; 
    rewrite (union_swap bi b), (union_swap bm b) by disjoint_blocks; split_and!; disjoint_blocks.
Qed.

Lemma on_md_frame {A} (m : M (evp_state md_ptr) A) R E md sm si so F :
  rule (fun G => F ⊆ G) sm m R E ->
  hoare (at_hmac md sm si so F) (on_md_ctx m)
    (fun a s => exists sm', R a sm' /\ at_hmac md sm' si so F s)
    (fun s => exists sm', E sm' /\ at_hmac md sm' si so F s).
Proof.
  intros Hm s Hs. pose proof Hs as (_ & bm & bi & bo & _ & Oi & Oo & _ & _ & D3 & _ & D5 & D6 & _).
  apply (on_md_rule _ m R E md sm si so F s Hm Hs). intros bi' bo' Oi' Oo' D.
  rewrite (owns_unique _ _ _ _ Oi' Oi) in *. rewrite (owns_unique _ _ _ _ Oo' Oo) in *. by apply frame_subseteq.
Qed.

Lemma rule_any {A} st (m : M (evp_state md_ptr) A) R E (F : blocks) :
  rule (fun _ => True) st m R E -> rule (fun G => F ⊆ G) st m R E.
Proof. intros H G _. by apply H. Qed.

Lemma on_md_hoare {A} (m : M (evp_state md_ptr) A) R E md sm si so F :
  rule (fun _ => True) sm m R E ->
  hoare (at_hmac md sm si so F) (on_md_ctx m)
    (fun a s => exists sm', R a sm' /\ at_hmac md sm' si so F s)
    (fun s => exists sm', E sm' /\ at_hmac md sm' si so F s).
Proof. intros Hm. by apply on_md_frame, rule_any. Qed.

Lemma on_i_hoare {A} (m : M (evp_state md_ptr) A) R E md sm si so F :
  rule (fun _ => True) si m R E ->
  hoare (at_hmac md sm si so F) (on_i_ctx m)
    (fun a s => exists si', R a si' /\ at_hmac md sm si' so F s)
    (fun s => exists si', E si' /\ at_hmac md sm si' so F s).
Proof. intros Hm. by apply on_i_frame, rule_any. Qed.

Lemma on_o_hoare {A} (m : M (evp_state md_ptr) A) R E md sm si so F :
  rule (fun _ => True) so m R E ->
  hoare (at_hmac md sm si so F) (on_o_ctx m)
    (fun a s => exists so', R a so' /\ at_hmac md sm si so' F s)
    (fun s => exists so', E so' /\ at_hmac md sm si so' F s).
Proof. intros Hm. by apply on_o_frame, rule_any. Qed.

(** ** Copies into the running context *)

Lemma copy_hoare (get : HMAC_CTX md_ptr -> EVP_MD_CTX md_ptr) p x md sm si so F : fresh (deref p) x ->
  (forall s bi bo, at_hmac md sm si so F s -> owns (hm_i_ctx s.1) si bi -> owns (hm_o_ctx s.1) so bo ->
     bi ##ₘ bo -> source (get s.1) p x (bi ∪ (bo ∪ F))) ->
  hoare (at_hmac md sm si so F)
    (let! c := get_hmac in on_md_ctx (EVP_MD_CTX_copy_ex deref malloc pctx_dup (get c)))
    (fun _ => at_hmac md (Some (p, x)) si so F)
    (fun s => (malloc_fails malloc /\ ~ same_digest p sm) /\ at_hmac md sm si so F s).
Proof using laws Hmalloc.
  intros Hx Hsrc s Hs. unfold bind at 1, get_hmac at 1.
  pose proof (on_md_rule _ _ _ _ md sm si so F s
    (copy_rule deref malloc pctx_dup laws Hmalloc (get s.1) p x sm Hx) Hs (fun bi bo => Hsrc s bi bo Hs)) as H.
  destruct (on_md_ctx _ s) as [u s'|s'| |]; try done.
  - by destruct H as (sm' & -> & H).
  - destruct H as (sm' & (-> & Hm & Hn) & H). done.
Qed.

Lemma copy_i_hoare p x md sm so F : fresh (deref p) x ->
  hoare (at_hmac md sm (Some (p, x)) so F)
    (let! c := get_hmac in on_md_ctx (EVP_MD_CTX_copy_ex deref malloc pctx_dup (hm_i_ctx c)))
    (fun _ => at_hmac md (Some (p, x)) (Some (p, x)) so F)
    (fun s => (malloc_fails malloc /\ ~ same_digest p sm) /\ at_hmac md sm (Some (p, x)) so F s).
Proof using laws Hmalloc.
  intros Hx. apply copy_hoare; [done|]. intros s bi bo _ (r & -> & -> & _) _ _. exists r. split; [done|].
  apply lookup_union_Some_l, lookup_singleton_eq.
Qed.

Lemma copy_o_hoare p x md sm si F : fresh (deref p) x ->
  hoare (at_hmac md sm si (Some (p, x)) F)
    (let! c := get_hmac in on_md_ctx (EVP_MD_CTX_copy_ex deref malloc pctx_dup (hm_o_ctx c)))
    (fun _ => at_hmac md (Some (p, x)) si (Some (p, x)) F)
    (fun s => (malloc_fails malloc /\ ~ same_digest p sm) /\ at_hmac md sm si (Some (p, x)) F s).
Proof using laws Hmalloc.
  intros Hx. apply copy_hoare; [done|]. intros s bi bo _ _ (r & -> & -> & _) Hd. exists r. split; [done|].
  rewrite union_swap by done. apply lookup_union_Some_l, lookup_singleton_eq.
Qed.

End contexts.


(** * BoringSSL: HMAC and RFC 2104

    The reference function of RFC 2104 and the rules of the calls: a context with a key
    gives it for the bytes that it was given, as often as it is started again. *)

(** ** RFC 2104 *)

Section rfc.
Context (md : EVP_MD) `{!Digest md}.

(** The key of at most one block. *)
Definition short_key (key : list Z) : list Z := if md_block_size md <? zlen key then hash md key else key.
Definition padded_key (key : list Z) : list Z :=
  short_key key ++ replicate (Z.to_nat (md_block_size md - zlen (short_key key))) 0.
Definition ipad (key : list Z) : list Z := map (Z.lxor 0x36) (padded_key key).
Definition opad (key : list Z) : list Z := map (Z.lxor 0x5c) (padded_key key).
Definition rfc_hmac (key msg : list Z) : list Z := hash md (opad key ++ hash md (ipad key ++ msg)).

Lemma short_key_ok key : bytes_ok key ->
  bytes_ok (short_key key) /\ zlen (short_key key) <= md_block_size md.
Proof.
  intros H. destruct sizes_ok as (_ & [Hs _] & _). unfold short_key.
  destruct (Z.ltb_spec (md_block_size md) (zlen key)); [|done].
  split; [by apply hash_bytes|]. by rewrite hash_size by done.
Qed.

Lemma padded_key_ok key : bytes_ok key -> bytes_ok (padded_key key).
Proof.
  intros H. apply Forall_app. split; [by apply short_key_ok|]. apply Forall_replicate. by unfold is_byte.
Qed.

Lemma zlen_padded_key key : bytes_ok key -> zlen (padded_key key) = md_block_size md.
Proof.
  intros H. pose proof (short_key_ok key H). unfold padded_key. rewrite zlen_app.
  unfold zlen at 2. rewrite length_replicate. lia.
Qed.

Lemma lxor_bytes_ok c l : is_byte c -> bytes_ok l -> bytes_ok (map (Z.lxor c) l).
Proof.
  intros Hc H. apply Forall_map. eapply Forall_impl; [exact H|]. intros b Hb. unfold is_byte in *.
  assert (0 <= Z.lxor c b) by (apply Z.lxor_nonneg; lia). split; [done|].
  destruct (Z.eq_dec (Z.lxor c b) 0) as [->|]; [done|]. change 256 with (2 ^ 8). apply Z.log2_lt_pow2; [lia|].
  eapply Z.le_lt_trans; [apply Z.log2_lxor; lia|].
  assert (Hlog : forall x, 0 <= x < 256 -> Z.log2 x < 8).
  { intros x Hx. destruct (Z.eq_dec x 0) as [->|]; [done|]. apply Z.log2_lt_pow2; [lia|exact (proj2 Hx)]. }
  apply Z.max_lub_lt; by apply Hlog.
Qed.

Lemma pad_ok c key : is_byte c -> bytes_ok key ->
  bytes_ok (map (Z.lxor c) (padded_key key)) /\ zlen (map (Z.lxor c) (padded_key key)) < 2 ^ 64.
Proof.
  intros Hc H. split; [by apply lxor_bytes_ok, padded_key_ok|]. unfold zlen. rewrite length_map.
  pose proof (zlen_padded_key key H). destruct sizes_ok as (_ & [_ Hs] & _). unfold zlen in *.
  change (2 ^ 64) with 18446744073709551616. lia.
Qed.

Lemma rfc_hmac_ok key msg : bytes_ok key -> bytes_ok msg ->
  bytes_ok (rfc_hmac key msg) /\ zlen (rfc_hmac key msg) = md_size md.
Proof.
  intros Hk Hm. assert (H : bytes_ok (opad key ++ hash md (ipad key ++ msg))).
  { apply Forall_app. split; [by apply pad_ok|]. apply hash_bytes, Forall_app. split; [by apply pad_ok|done]. }
  split; [by apply hash_bytes|by apply hash_size].
Qed.

End rfc.

(** ** The calls *)

Section calls.
Context {md_ptr : Type} `{EqDecision md_ptr} (deref : md_ptr -> EVP_MD).
Context (malloc : nat -> Z -> option (list Z)) (pctx_dup : Z -> option Z) (garbage : list Z).
Context (laws : forall p, Digest (deref p)) (Hmalloc : malloc_spec malloc) (Hgarbage : zlen garbage = 128).

#[local] Existing Instance laws.

Abbreviation contents := (option (md_ptr * md_object)).
Abbreviation blocks := (gmap nat md_object).
Abbreviation at_hmac := (at_hmac deref laws).
Abbreviation state := (hmac_state md_ptr).

(** Some contents, with the frame [F]; and a failed call, which malloc made fail. *)
Definition some_hmac (F : blocks) (s : state) : Prop := exists md sm si so, at_hmac md sm si so F s.
Definition fails (F : blocks) (s : state) : Prop := malloc_fails malloc /\ some_hmac F s.

(** A context that has the key [key]; one that has been given [msg] since. *)
Definition keyed (p : md_ptr) (key : list Z) (F : blocks) (s : state) : Prop :=
  exists om oi oo, ready (deref p) (ipad (deref p) key) oi /\ ready (deref p) (opad (deref p) key) oo /\
    at_hmac (Some p) (Some (p, om)) (Some (p, oi)) (Some (p, oo)) F s.
Definition has (p : md_ptr) (key msg : list Z) (F : blocks) (s : state) : Prop :=
  exists om oi oo, ready (deref p) (ipad (deref p) key ++ msg) om /\
    ready (deref p) (ipad (deref p) key) oi /\ ready (deref p) (opad (deref p) key) oo /\
    at_hmac (Some p) (Some (p, om)) (Some (p, oi)) (Some (p, oo)) F s.

Lemma has_keyed p key msg F s : has p key msg F s -> keyed p key F s.
Proof. intros (om & oi & oo & _ & H). by exists om, oi, oo. Qed.

Lemma keyed_some p key F s : keyed p key F s -> some_hmac F s.
Proof. intros (om & oi & oo & _ & _ & H). by eexists _, _, _, _. Qed.

(** The context of a key: the digest is started and given the padded key. *)
Lemma pad_rule p st pad : bytes_ok pad -> zlen pad < 2 ^ 64 ->
  ctx_rule deref laws (fun _ => True) st (EVP_DigestInit_ex deref malloc p;;! EVP_DigestUpdate deref pad)
    (fun _ st' => given deref laws p pad st') (fails_as malloc p st).
Proof using Hmalloc.
  intros Hp Hl. eapply ctx_rule_bind; [by apply init_rule|]. intros [] st' (o & -> & Ho).
  eapply (ctx_rule_cons deref laws _ (fun _ => True) _ _ _ _ _ (fun _ => False)); [|done|intros ? ? H; exact H|intros ? []].
  by apply (update_rule _ _ p [] pad o Ho).
Qed.

(** The digest of a long key. *)
Lemma digest_rule p st data : bytes_ok data -> zlen data < 2 ^ 64 ->
  ctx_rule deref laws (fun _ => True) st
    (EVP_DigestInit_ex deref malloc p;;! EVP_DigestUpdate deref data;;! EVP_DigestFinal_ex deref)
    (fun d st' => d = hash (deref p) data /\ same_digest p st') (fails_as malloc p st).
Proof using Hmalloc.
  intros Hd Hl. eapply ctx_rule_bind; [by apply init_rule|]. intros [] st' (o & -> & Ho).
  eapply (ctx_rule_cons deref laws _ (fun _ => True) _ _ _ _ _ (fun _ => False)); [|done|intros ? ? H; exact H|intros ? []].
  eapply ctx_rule_bind; [by apply (update_rule _ _ p [] data o Ho)|]. intros [] st' (o' & -> & Ho').
  by apply final_rule.
Qed.

Lemma key_fill k0 : zlen k0 <= 128 ->
  OPENSSL_memcpy garbage 0 k0 0 (zlen k0) = Some (k0 ++ zdrop (zlen k0) garbage) /\
  (if negb (zlen k0 =? EVP_MAX_MD_BLOCK_SIZE)
   then of_opt (S := state) (OPENSSL_memset (k0 ++ zdrop (zlen k0) garbage) (zlen k0) 0 (u64 (EVP_MAX_MD_BLOCK_SIZE - zlen k0)))
   else ret (k0 ++ zdrop (zlen k0) garbage)) = ret (k0 ++ replicate (Z.to_nat (128 - zlen k0)) 0).
Proof using Hgarbage.
  intros Hk. pose proof (zlen_nonneg k0). split.
  - rewrite <- (ztake_zdrop (zlen k0) garbage) at 1. rewrite <- (app_nil_r k0) at 3.
    apply (memcpy_start [] (ztake (zlen k0) garbage) (zdrop (zlen k0) garbage) k0 []); [done|done|].
    apply zlen_ztake. lia.
  - unfold EVP_MAX_MD_BLOCK_SIZE. destruct (Z.eqb_spec (zlen k0) 128) as [E|E].
    + cbn [negb]. rewrite E. replace (zdrop 128 garbage) with (@nil Z); [done|].
      unfold zdrop. rewrite drop_ge; [done|]. unfold zlen in Hgarbage. lia.
    + cbn [negb]. rewrite wrap_small by (change (2 ^ 64) with 18446744073709551616; lia).
      pose proof (memset_app k0 (zdrop (zlen k0) garbage) [] (zlen k0) 0 (128 - zlen k0) eq_refl) as E2.
      rewrite !app_nil_r in E2. rewrite E2; [done|]. rewrite zlen_zdrop; lia.
Qed.

Lemma hoare_of_opt {S A} (P : S -> Prop) (o : option A) x (Q : A -> S -> Prop) E :
  o = Some x -> (forall s, P s -> Q x s) -> hoare P (of_opt o) Q E.
Proof. intros -> H s Hs. by apply H. Qed.

Lemma key_block_rule p key md sm si so F : bytes_ok key -> zlen key < 2 ^ 64 ->
  hoare (at_hmac md sm si so F) (hmac_key_block deref malloc garbage p key)
    (fun k s => ztake (md_block_size (deref p)) k = padded_key (deref p) key /\
       exists sm', at_hmac md sm' si so F s)
    (fails F).
Proof using Hmalloc Hgarbage.
  intros Hk Hl. destruct (short_key_ok (deref p) key Hk) as [_ Hs].
  destruct (sizes_ok (md:=deref p)) as (Hsz & [_ Hb] & _).
  unfold hmac_key_block. pose proof (key_fill (short_key (deref p) key) (Z.le_trans _ _ _ Hs Hb)) as [Ec Es].
  eapply (hoare_bind _ _ _ (fun kn s => kn = (short_key (deref p) key ++ zdrop (zlen (short_key (deref p) key)) garbage,
      zlen (short_key (deref p) key)) /\ exists sm', at_hmac md sm' si so F s)).
  - unfold short_key in *. unfold EVP_MD_block_size, EVP_MD_size.
    destruct (md_block_size (deref p) <? zlen key).
    + eapply hoare_bind.
      * eapply hoare_cons; [exact (on_md_hoare deref laws _ _ _ md sm si so F (digest_rule p sm key Hk Hl))|done| |].
        -- intros d s H. exact H.
        -- intros s (sm' & (-> & Hm & _) & Hs'). split; [done|]. by eexists _, _, _, _.
      * intros d. cbn beta. apply hoare_ex. intros sm' s ((-> & _) & Hs').
        unfold bind. rewrite Ec. cbn [of_opt]. unfold ret. rewrite hash_size by done. by eauto.
    + intros s Hs'. unfold bind. rewrite Ec. cbn [of_opt]. unfold ret. by eauto.
  - intros [k n]. apply hoare_pre. intros [= -> ->]. rewrite Es. apply hoare_ret. intros s Hs'. split; [|done].
    unfold padded_key. unfold ztake. rewrite take_app_ge by (unfold zlen in *; lia). f_equal.
    rewrite take_replicate. f_equal. unfold zlen in *. lia.
Qed.

(** A new key. *)
Lemma key_rule p key arg md sm si so F : bytes_ok (default [] key) -> zlen (default [] key) < 2 ^ 64 ->
  match arg with None => md | Some _ => arg end = Some p -> md <> Some p \/ key <> None ->
  hoare (at_hmac md sm si so F) (HMAC_Init_ex deref malloc pctx_dup garbage key arg)
    (fun _ => has p (default [] key) [] F) (fails F).
Proof using Hmalloc Hgarbage.
  intros Hk Hl Hp Hnew. destruct (sizes_ok (md:=deref p)) as (Hsz & [_ Hb] & _).
  destruct (pad_ok (deref p) 0x36 _ ltac:(by unfold is_byte) Hk) as [Hi1 Hi2].
  destruct (pad_ok (deref p) 0x5c _ ltac:(by unfold is_byte) Hk) as [Ho1 Ho2].
  unfold HMAC_Init_ex. eapply (hoare_bind _ _ _ (fun c s => hm_md c = md /\ at_hmac md sm si so F s)).
  { intros s Hs. split; [by destruct Hs|done]. }
  intros c. apply hoare_pre. intros Hc. rewrite Hc. cbv zeta. rewrite Hp.
  assert (Hcond : bool_decide (Some p <> md) || non_null key = true).
  { destruct Hnew as [Hn|Hn]; [rewrite bool_decide_true by congruence; done|].
    destruct key; [by rewrite orb_true_r|done]. }
  rewrite Hcond. unfold EVP_MD_block_size, EVP_MAX_MD_BLOCK_SIZE. bool_true (md_block_size (deref p) <=? 128).
  eapply (hoare_bind _ _ _ (fun _ s => exists sm' oi oo, (ready (deref p) (ipad (deref p) (default [] key)) oi /\
    ready (deref p) (opad (deref p) (default [] key)) oo) /\ at_hmac (Some p) sm' (Some (p, oi)) (Some (p, oo)) F s)).
  - apply hoare_start. eapply hoare_bind; [by apply (key_block_rule p)|]. intros k. apply hoare_pre. intros Ek.
    apply hoare_ex. intros sm'. unfold ztake in *. rewrite !firstn_map, Ek.
    assert (Hfail : forall st st' sm si so s, fails_as malloc p st st' -> at_hmac md sm si so F s -> fails F s).
    { intros st st' ???? (_ & Hm & _) H'. split; [done|]. by eexists _, _, _, _. }
    eapply hoare_bind.
    { eapply hoare_cons; [exact (on_i_hoare deref laws _ _ _ md sm' si so F (pad_rule p si _ Hi1 Hi2))|done|done|].
      intros s (st' & Hf & H'). by eapply Hfail. }
    intros []. apply hoare_ex. intros si'. apply hoare_pre. intros (oi & -> & Hoi).
    eapply hoare_bind.
    { eapply hoare_cons; [exact (on_o_hoare deref laws _ _ _ md sm' (Some (p, oi)) so F (pad_rule p so _ Ho1 Ho2))|done|done|].
      intros s (st' & Hf & H'). by eapply Hfail. }
    intros []. apply hoare_ex. intros so'. apply hoare_pre. intros (oo & -> & Hoo).
    intros s (_ & bm & bi & bo & H'). exists sm', oi, oo. split; [done|]. split; [done|]. by exists bm, bi, bo.
  - intros []. apply hoare_ex. intros sm'. apply hoare_ex. intros oi. apply hoare_ex. intros oo.
    apply hoare_pre. intros [Hoi Hoo].
    eapply hoare_cons; [by apply (copy_i_hoare deref malloc pctx_dup laws Hmalloc p oi (Some p) sm' (Some (p, oo)) F), (ready_fresh _ _ Hoi)|done| |].
    + intros [] s Hs. exists oi, oi, oo. by rewrite app_nil_r.
    + intros s ((Hm & _) & Hs). split; [done|]. by eexists _, _, _, _.
Qed.

(** The same key again: nothing is allocated. *)
Lemma rekey_rule p key arg F : arg = None \/ arg = Some p ->
  hoare (keyed p key F) (HMAC_Init_ex deref malloc pctx_dup garbage None arg)
    (fun _ => has p key [] F) (fun _ => False).
Proof using Hmalloc.
  intros Harg. apply hoare_ex. intros om. apply hoare_ex. intros oi. apply hoare_ex. intros oo.
  intros s (Hoi & Hoo & Hs). unfold HMAC_Init_ex, bind at 1, get_hmac at 1.
  assert (Hmd : match arg with None => hm_md s.1 | Some _ => arg end = Some p).
  { destruct Hs as [-> _]. by destruct Harg as [->| ->]. }
  rewrite Hmd. pose proof (proj1 Hs) as ->. rewrite bool_decide_false by (by intros []). cbn [orb non_null].
  rewrite bind_ret.
  pose proof (copy_i_hoare deref malloc pctx_dup laws Hmalloc p oi (Some p) (Some (p, om)) (Some (p, oo)) F
    (ready_fresh _ _ Hoi) s Hs) as H.
  destruct (bind _ _ s) as [u s'|s'| |]; try done.
  - exists oi, oi, oo. by rewrite app_nil_r.
  - destruct H as ((_ & H) & _). destruct H. by exists om.
Qed.

Lemma update_hoare p key msg data F : bytes_ok data -> zlen data < 2 ^ 64 ->
  hoare (has p key msg F) (HMAC_Update deref data) (fun _ => has p key (msg ++ data) F) (fun _ => False).
Proof.
  intros Hd Hl. apply hoare_ex. intros om. apply hoare_ex. intros oi. apply hoare_ex. intros oo.
  intros s (Hom & Hoi & Hoo & Hs).
  pose proof (on_md_hoare deref laws _ _ _ _ _ _ _ _ (update_rule deref laws p _ data om Hom Hd Hl) s Hs) as H.
  unfold HMAC_Update. destruct (on_md_ctx _ s) as [u s'|s'| |]; try done; [|by destruct H as (? & [] & _)].
  destruct H as (sm' & (om' & -> & Hom') & Hs'). exists om', oi, oo. by rewrite app_assoc.
Qed.

(** The end cannot fail: the digest is in the context already. *)
Lemma final_parts p key msg F : bytes_ok key ->
  hoare (has p key msg F)
    (let! buf := on_md_ctx (EVP_DigestFinal_ex deref) in
     let! c := get_hmac in
     on_md_ctx (EVP_MD_CTX_copy_ex deref malloc pctx_dup (hm_o_ctx c));;!
     on_md_ctx (EVP_DigestUpdate deref buf);;!
     on_md_ctx (EVP_DigestFinal_ex deref))
    (fun d s => d = rfc_hmac (deref p) key msg /\ keyed p key F s) (fun _ => False).
Proof using Hmalloc.
  intros Hk. apply hoare_ex. intros om. apply hoare_ex. intros oi. apply hoare_ex. intros oo.
  apply hoare_pre. intros Hom. apply hoare_pre. intros Hoi. apply hoare_pre. intros Hoo.
  assert (Hin : bytes_ok (hash (deref p) (ipad (deref p) key ++ msg)) /\
                zlen (hash (deref p) (ipad (deref p) key ++ msg)) < 2 ^ 64).
  { pose proof (ready_bytes _ _ Hom) as Hb. split; [by apply hash_bytes|]. rewrite hash_size by done.
    destruct (sizes_ok (md:=deref p)) as (Hz & _). change (2 ^ 64) with 18446744073709551616. lia. }
  destruct Hin as [Hin1 Hin2].
  eapply hoare_bind.
  { eapply hoare_cons; [exact (on_md_hoare deref laws _ _ _ (Some p) (Some (p, om)) (Some (p, oi)) (Some (p, oo)) F
      (final_rule deref laws p _ om Hom))|done|done|by intros s (? & [] & _)]. }
  intros buf. apply hoare_ex. intros sm'. apply hoare_pre. intros (-> & x & ->). apply hoare_assoc.
  eapply hoare_bind.
  { eapply hoare_cons; [exact (copy_o_hoare deref malloc pctx_dup laws Hmalloc p oo (Some p) (Some (p, x)) (Some (p, oi)) F (ready_fresh _ _ Hoo))|done|done|].
    intros s ((_ & Hn) & _). apply Hn. by exists x. }
  intros []. eapply hoare_bind.
  { eapply hoare_cons; [exact (on_md_hoare deref laws _ _ _ (Some p) (Some (p, oo)) (Some (p, oi)) (Some (p, oo)) F
      (update_rule deref laws p _ _ oo Hoo Hin1 Hin2))|done|done|by intros s (? & [] & _)]. }
  intros []. apply hoare_ex. intros sm2. apply hoare_pre. intros (om2 & -> & Hom2).
  eapply hoare_cons; [exact (on_md_hoare deref laws _ _ _ (Some p) (Some (p, om2)) (Some (p, oi)) (Some (p, oo)) F
    (final_rule deref laws p _ om2 Hom2))|done| |by intros s (? & [] & _)].
  intros d s (sm3 & (-> & om3 & ->) & Hs). split; [done|]. by exists om3, oi, oo.
Qed.

Lemma final_hoare p key msg out_len F : bytes_ok key ->
  hoare (has p key msg F) (HMAC_Final deref malloc pctx_dup out_len)
    (fun d s => d = rfc_hmac (deref p) key msg /\ keyed p key F s) (fun _ => False).
Proof using Hmalloc.
  intros Hk. eapply hoare_bind; [apply hoare_try, final_parts, Hk|].
  intros [d|]; [by apply hoare_ret|]. by intros s [].
Qed.

(** ** Whole lives *)

Lemma cleanup_hoare F : hoare (some_hmac F) (@HMAC_CTX_cleanup md_ptr)
  (fun _ s => s.1 = null_hmac /\ w_blocks s.2 = F) (fun _ => False).
Proof.
  apply hoare_ex. intros md. apply hoare_ex. intros sm. apply hoare_ex. intros si. apply hoare_ex. intros so.
  eapply hoare_bind.
  { eapply hoare_cons; [exact (on_i_hoare deref laws _ _ _ md sm si so F (cleanup_rule deref laws si))|done|done|].
    by intros s (? & [] & _). }
  intros []. apply hoare_ex. intros si'. apply hoare_pre. intros ->. eapply hoare_bind.
  { eapply hoare_cons; [exact (on_o_hoare deref laws _ _ _ md sm None so F (cleanup_rule deref laws so))|done|done|].
    by intros s (? & [] & _). }
  intros []. apply hoare_ex. intros so'. apply hoare_pre. intros ->. eapply hoare_bind.
  { eapply hoare_cons; [exact (on_md_hoare deref laws _ _ _ md sm None None F (cleanup_rule deref laws sm))|done|done|].
    by intros s (? & [] & _). }
  intros []. apply hoare_ex. intros sm'. apply hoare_pre. intros ->.
  intros s (_ & bm & bi & bo & [_ ->] & [_ ->] & [_ ->] & _ & _ & _ & _ & _ & _ & Ew).
  split; [done|]. cbn. by rewrite Ew, !(left_id_L ∅ (∪)).
Qed.

Lemma at_null F w : w_blocks w = F -> at_hmac None None None None F (null_hmac, w).
Proof.
  intros <-. split; [done|]. exists ∅, ∅, ∅. split_and!; try done; try apply map_disjoint_empty_l; try apply map_disjoint_empty_r.
  cbn. by rewrite !(left_id_L ∅ (∪)).
Qed.

(** A context that lives for one call leaves no block behind. *)
Lemma local_hmac {A} (m : M state A) (Q : A -> Prop) (E : Prop) (w : world) :
  hoare (at_hmac None None None None (w_blocks w)) m
    (fun a s => Q a /\ some_hmac (w_blocks w) s) (fun s => E /\ some_hmac (w_blocks w) s) ->
  match with_local_hmac m w with
  | Ret (Some a) w' => Q a /\ w_blocks w' = w_blocks w
  | Ret None w' => E /\ w_blocks w' = w_blocks w
  | _ => False
  end.
Proof.
  intros Hm. unfold with_local_hmac. set (F := w_blocks w) in *.
  enough (H : hoare (fun s => s = (null_hmac, w)) (HMAC_CTX_init;;! let! r := tryb m in HMAC_CTX_cleanup;;! ret r)
    (fun r s => match r with Some a => Q a | None => E end /\ w_blocks s.2 = F) (fun _ => False)).
  { specialize (H _ eq_refl). destruct (bind _ _ _) as [[a|] s|s| |]; done. }
  apply (hoare_bind _ _ _ (fun _ => at_hmac None None None None F)).
  { intros s ->. by apply at_null. }
  intros []. eapply hoare_bind; [apply (hoare_try _ m _ _ (fun _ => False) Hm)|].
  intros r. apply (hoare_cons _ (fun s => match r with Some a => Q a | None => E end /\ some_hmac F s) _ _
    (fun r0 s => (match r0 with Some a => Q a | None => E end) /\ w_blocks s.2 = F) _ (fun _ => False));
    [|by destruct r|done|done].
  apply hoare_pre. intros Hr. eapply hoare_bind; [apply cleanup_hoare|]. intros []. apply hoare_ret. by intros s [_ ?].
Qed.

End calls.


(** * BoringSSL: HMAC is RFC 2104

    One call of HMAC, and a context that serves for any number of messages. *)

(** Section 2 of RFC 2104, for a hash function [H] with blocks of [B] bytes. *)
Definition rfc2104 (H : list Z -> list Z) (B : Z) (key msg : list Z) : list Z :=
  let k := if B <? zlen key then H key else key in
  let K := k ++ replicate (Z.to_nat (B - zlen k)) 0 in
  H (map (Z.lxor 0x5c) K ++ H (map (Z.lxor 0x36) K ++ msg)).

Section calls.
Context {md_ptr : Type} `{EqDecision md_ptr} (deref : md_ptr -> EVP_MD).
Context (malloc : nat -> Z -> option (list Z)) (pctx_dup : Z -> option Z) (garbage : list Z).
Context (laws : forall p, Digest (deref p)) (Hmalloc : malloc_spec malloc) (Hgarbage : zlen garbage = 128).

#[local] Existing Instance laws.

Abbreviation blocks := (gmap nat md_object).

Lemma null_some F s : at_hmac deref laws None None None None F s -> some_hmac deref laws F s.
Proof. by exists None, None, None, None. Qed.

(** The first call on a new context. *)
Lemma first_key_hoare p key F : bytes_ok (default [] key) -> zlen (default [] key) < 2 ^ 64 ->
  hoare (at_hmac deref laws None None None None F) (HMAC_Init_ex deref malloc pctx_dup garbage key (Some p))
    (fun _ => has deref laws p (default [] key) [] F) (fails deref malloc laws F).
Proof using Hmalloc Hgarbage. intros Hk Hl. apply key_rule; [done|done|done|done|done|by left]. Qed.

Lemma hmac_call p key data out_len w : bytes_ok (default [] key) -> zlen (default [] key) < 2 ^ 64 -> piece_ok data ->
  match HMAC deref malloc pctx_dup garbage p key data out_len w with
  | Ret (Some d) w' => d = rfc_hmac (deref p) (default [] key) data /\ w_blocks w' = w_blocks w
  | Ret None w' => malloc_fails malloc /\ w_blocks w' = w_blocks w
  | _ => False
  end.
Proof using laws Hmalloc Hgarbage.
  intros Hk Hl [Hd Hdl]. apply (local_hmac deref laws).
  eapply hoare_bind; [by apply first_key_hoare|]. intros []. apply hoare_weaken.
  eapply hoare_bind; [by apply (update_hoare deref laws)|]. intros [].
  eapply hoare_cons; [by apply (final_hoare deref malloc pctx_dup laws Hmalloc p (default [] key) data)|done| |done].
  intros d s (-> & Hs). split; [done|]. by eapply keyed_some.
Qed.

Fixpoint HMAC_Updates (pieces : list (list Z)) : M (hmac_state md_ptr) unit :=
  match pieces with
  | [] => ret tt
  | x :: l => HMAC_Update deref x;;! HMAC_Updates l
  end.

(** The messages of [msgs], each in pieces, under the key the context has. *)
Fixpoint HMAC_messages (msgs : list (list (list Z))) : M (hmac_state md_ptr) (list (list Z)) :=
  match msgs with
  | [] => ret []
  | pieces :: l =>
      HMAC_Init_ex deref malloc pctx_dup garbage None None;;!
      HMAC_Updates pieces;;!
      let! tag := HMAC_Final deref malloc pctx_dup true in
      let! tags := HMAC_messages l in
      ret (tag :: tags)
  end.

Lemma updates_hoare p key pieces msg F : Forall piece_ok pieces ->
  hoare (has deref laws p key msg F) (HMAC_Updates pieces)
    (fun _ => has deref laws p key (msg ++ concat pieces) F) (fun _ => False).
Proof.
  intros Hp. revert msg. induction Hp as [|x l [Hx Hl] _ IH]; intros msg.
  - apply hoare_ret. intros s Hs. by rewrite app_nil_r.
  - eapply hoare_bind; [by apply (update_hoare deref laws)|]. intros []. cbn [concat]. rewrite app_assoc. apply IH.
Qed.

Lemma messages_hoare p key msgs F : bytes_ok key -> Forall (Forall piece_ok) msgs ->
  hoare (keyed deref laws p key F) (HMAC_messages msgs)
    (fun tags s => tags = map (fun m => rfc_hmac (deref p) key (concat m)) msgs /\ keyed deref laws p key F s)
    (fun _ => False).
Proof using Hmalloc.
  intros Hk Hm. induction Hm as [|m l Hx _ IH]; [by apply hoare_ret|].
  eapply hoare_bind; [apply rekey_rule; [done|by left]|]. intros [].
  eapply hoare_bind; [by apply updates_hoare|]. intros [].
  eapply hoare_bind; [by apply (final_hoare deref malloc pctx_dup laws Hmalloc)|]. intros tag. apply hoare_pre. intros ->.
  eapply hoare_bind; [apply IH|]. intros tags. apply hoare_pre. intros ->. by apply hoare_ret.
Qed.

(** A context that lives for the messages. *)
Definition HMAC_session (p : md_ptr) (key : list Z) (msgs : list (list (list Z))) : world -> out world (option (list (list Z))) :=
  with_local_hmac (HMAC_Init_ex deref malloc pctx_dup garbage (Some key) (Some p);;! HMAC_messages msgs).

Lemma hmac_session_run p key msgs w : bytes_ok key -> zlen key < 2 ^ 64 -> Forall (Forall piece_ok) msgs ->
  match HMAC_session p key msgs w with
  | Ret (Some tags) w' => tags = map (fun m => rfc_hmac (deref p) key (concat m)) msgs /\ w_blocks w' = w_blocks w
  | Ret None w' => malloc_fails malloc /\ w_blocks w' = w_blocks w
  | _ => False
  end.
Proof using laws Hmalloc Hgarbage.
  intros Hk Hl Hm. apply (local_hmac deref laws).
  eapply hoare_bind; [by apply (first_key_hoare p (Some key))|]. intros []. apply hoare_weaken.
  eapply hoare_cons; [by apply (messages_hoare p key)| | |done].
  - intros s. apply has_keyed.
  - intros tags s (-> & Hs). split; [done|]. by eapply keyed_some.
Qed.

End calls.

(** C9: HMAC is RFC 2104 for each digest of the library.  A context is given a key of any length
    once and then serves for any number of messages, each in pieces of any size and each started
    with a null key: every tag is that of the key and the message, however the state of the
    message before was left.  The call fails only where malloc does, and all blocks are given
    back in either case. *)
Theorem hmac_rfc2104 malloc pctx_dup garbage (p : static_md) key msgs w :
  malloc_spec malloc -> zlen garbage = 128 ->
  bytes_ok key -> zlen key < 2 ^ 64 -> Forall (Forall piece_ok) msgs ->
  match HMAC_session static_deref malloc pctx_dup garbage p key msgs w with
  | Ret (Some tags) w' =>
      tags = map (fun m => rfc2104 (standard_hash p) (EVP_MD_block_size static_deref p) key (concat m)) msgs /\
      w_blocks w' = w_blocks w
  | Ret None w' => malloc_fails malloc /\ w_blocks w' = w_blocks w
  | _ => False
  end.
Proof.
  intros Hm Hg Hk Hl Hmsgs. rewrite <- static_hash.
  exact (hmac_session_run static_deref malloc pctx_dup garbage static_laws Hm Hg p key msgs w Hk Hl Hmsgs).
Qed.

Lemma hmac_rfc2104_witness :
  match HMAC_session static_deref sample_malloc Some (replicate 128 7) Sha1 [1; 2] [[[3]; [4]]; []] (World ∅ 0) with
  | Ret (Some tags) w' =>
      tags = map (fun m => rfc2104 (standard_hash Sha1) (EVP_MD_block_size static_deref Sha1) [1; 2] (concat m)) [[[3]; [4]]; []] /\
      w_blocks w' = ∅
  | Ret None w' => malloc_fails sample_malloc /\ w_blocks w' = ∅
  | _ => False
  end.
Proof.
  apply (hmac_rfc2104 sample_malloc Some (replicate 128 7) Sha1 [1; 2] [[[3]; [4]]; []] (World ∅ 0)).
  - exact sample_malloc_spec.
  - reflexivity.
  - repeat constructor; unfold is_byte; lia.
  - reflexivity.
  - repeat constructor; unfold is_byte; lia.
Defined.

(** The first test case of RFC 2202 for SHA-1. *)
Example hmac_sha1_case : forall n, exists w,
  HMAC static_deref sample_malloc Some (replicate 128 7) Sha1 (Some (replicate 20 0x0b))
    [0x48; 0x69; 0x20; 0x54; 0x68; 0x65; 0x72; 0x65] true (World ∅ n) =
  Ret (Some [0xb6; 0x17; 0x31; 0x86; 0x55; 0x05; 0x72; 0x64; 0xe2; 0x8b; 0xc0; 0xb6; 0xfb; 0x37; 0x8c; 0x8e; 0xf1; 0x46; 0xbe; 0x00]) w.
Proof. intros n. eexists. vm_compute. reflexivity. Qed.


(** * BoringSSL: several HMAC contexts

    What an HMAC context owns as a whole, and copies between contexts. *)

Section contexts.
Context {md_ptr : Type} `{EqDecision md_ptr} (deref : md_ptr -> EVP_MD).
Context (malloc : nat -> Z -> option (list Z)) (pctx_dup : Z -> option Z).
Context (laws : forall p, Digest (deref p)) (Hmalloc : malloc_spec malloc).

#[local] Existing Instance laws.

Abbreviation contents := (option (md_ptr * md_object)).
Abbreviation blocks := (gmap nat md_object).
Abbreviation owns := (owns_block deref laws).
Abbreviation at_hmac := (at_hmac deref laws).

(** What is in a context, and the blocks [b] it owns. *)
Record hmac_contents : Type := HmacContents { hc_md : option md_ptr; hc_m : contents; hc_i : contents; hc_o : contents }.
Definition owns_hmac (c : HMAC_CTX md_ptr) (x : hmac_contents) (b : blocks) : Prop :=
  hm_md c = hc_md x /\
  exists bm bi bo, owns (hm_md_ctx c) (hc_m x) bm /\ owns (hm_i_ctx c) (hc_i x) bi /\ owns (hm_o_ctx c) (hc_o x) bo /\
    bm ##ₘ bi /\ bm ##ₘ bo /\ bi ##ₘ bo /\ b = bm ∪ (bi ∪ bo).

(** The context is among the frame [F] and has contents with [P]. *)
Definition holding (P : hmac_contents -> Prop) (F : blocks) (s : hmac_state md_ptr) : Prop :=
  exists x, P x /\ at_hmac (hc_md x) (hc_m x) (hc_i x) (hc_o x) F s.

Ltac disjoint_blocks := repeat (rewrite ?map_disjoint_union_l, ?map_disjoint_union_r in *; destruct_and?; split_and?);
  eauto using map_disjoint_sym.

Lemma union_3 (a b c F : blocks) : a ∪ (b ∪ (c ∪ F)) = (a ∪ (b ∪ c)) ∪ F.
Proof. by rewrite !(assoc_L (∪)). Qed.

Lemma holding_owns P F s : holding P F s <->
  exists x b, P x /\ owns_hmac s.1 x b /\ b ##ₘ F /\ w_blocks s.2 = b ∪ F.
Proof.
  split.
  - intros (x & Hx & Hmd & bm & bi & bo & Om & Oi & Oo & D1 & D2 & D3 & D4 & D5 & D6 & Ew).
    exists x, (bm ∪ (bi ∪ bo)). split; [done|]. split; [split; [done|]; by exists bm, bi, bo|].
    split; [disjoint_blocks|]. by rewrite Ew, union_3.
  - intros (x & b & Hx & (Hmd & bm & bi & bo & Om & Oi & Oo & D1 & D2 & D3 & ->) & D & Ew).
    exists x. split; [done|]. split; [done|]. exists bm, bi, bo. rewrite union_3. disjoint_blocks.
Qed.

(** The contents of a context with a key. *)
Definition with_key (p : md_ptr) (key : list Z) (x : hmac_contents) : Prop :=
  exists om oi oo, ready (deref p) (ipad (deref p) key) oi /\ ready (deref p) (opad (deref p) key) oo /\
    x = HmacContents (Some p) (Some (p, om)) (Some (p, oi)) (Some (p, oo)).
Definition with_msg (p : md_ptr) (key msg : list Z) (x : hmac_contents) : Prop :=
  exists om oi oo, ready (deref p) (ipad (deref p) key ++ msg) om /\
    ready (deref p) (ipad (deref p) key) oi /\ ready (deref p) (opad (deref p) key) oo /\
    x = HmacContents (Some p) (Some (p, om)) (Some (p, oi)) (Some (p, oo)).
Definition any (x : hmac_contents) : Prop := True.

Lemma has_holding p key msg F s : has deref laws p key msg F s <-> holding (with_msg p key msg) F s.
Proof.
  split.
  - intros (om & oi & oo & H1 & H2 & H3 & H). eexists. split; [by exists om, oi, oo|]. exact H.
  - intros (x & (om & oi & oo & H1 & H2 & H3 & ->) & H). by exists om, oi, oo.
Qed.

Lemma keyed_holding p key F s : keyed deref laws p key F s <-> holding (with_key p key) F s.
Proof.
  split.
  - intros (om & oi & oo & H2 & H3 & H). eexists. split; [by exists om, oi, oo|]. exact H.
  - intros (x & (om & oi & oo & H2 & H3 & ->) & H). by exists om, oi, oo.
Qed.

Lemma some_holding F s : some_hmac deref laws F s <-> holding any F s.
Proof.
  split.
  - intros (md & sm & si & so & H). by exists (HmacContents md sm si so).
  - intros (x & _ & H). by eexists _, _, _, _.
Qed.

Lemma msg_key p key msg x : with_msg p key msg x -> with_key p key x.
Proof. intros (om & oi & oo & _ & H). by exists om, oi, oo. Qed.

(** ** Copies *)

Lemma owns_source c p o b F : owns c (Some (p, o)) b -> b ⊆ F -> source c p o F /\ fresh (deref p) o.
Proof.
  intros (r & -> & -> & Hf) Hb. split; [|done]. exists r. split; [done|].
  eapply lookup_weaken; [|exact Hb]. apply lookup_singleton_eq.
Qed.

Lemma copy_in_rule c p o b F st : owns c (Some (p, o)) b -> b ⊆ F ->
  ctx_rule deref laws (fun G => F ⊆ G) st (EVP_MD_CTX_copy_ex deref malloc pctx_dup c)
    (fun _ st' => st' = Some (p, o)) (fails_as malloc p st).
Proof using Hmalloc.
  intros Ho Hb. destruct (owns_source c p o b F Ho Hb) as [(r & -> & Hr) Hf].
  eapply ctx_rule_cons; [by apply (copy_rule deref malloc pctx_dup laws Hmalloc _ p o st Hf)| |done|done].
  intros G HG. exists r. split; [done|]. by eapply lookup_weaken.
Qed.

Lemma copy_ex_hoare src x b p key msg P F : owns_hmac src x b -> with_msg p key msg x -> b ⊆ F ->
  hoare (holding P F) (HMAC_CTX_copy_ex deref malloc pctx_dup src)
    (fun _ => holding (with_msg p key msg) F) (fun s => malloc_fails malloc /\ holding any F s).
Proof using Hmalloc.
  intros (Emd & bm & bi & bo & Om & Oi & Oo & D1 & D2 & D3 & ->) (om & oi & oo & Hm & Hi & Ho & ->) Hb.
  cbn [hc_md hc_m hc_i hc_o] in *.
  assert (Hbm : bm ⊆ F) by (etrans; [apply map_union_subseteq_l|exact Hb]).
  assert (Hbio : bi ∪ bo ⊆ F).
  { etrans; [apply (map_union_subseteq_r bm (bi ∪ bo)); by apply map_disjoint_union_r|exact Hb]. }
  assert (Hbi : bi ⊆ F) by (etrans; [apply map_union_subseteq_l|exact Hbio]).
  assert (Hbo : bo ⊆ F) by (etrans; [by apply (map_union_subseteq_r bi bo)|exact Hbio]).
  apply hoare_ex. intros x. apply hoare_pre. intros _. destruct x as [md sm si so]. cbn [hc_md hc_m hc_i hc_o].
  assert (Hfail : forall st st' s md sm si so, fails_as malloc p st st' -> at_hmac md sm si so F s ->
    malloc_fails malloc /\ holding any F s).
  { intros ??? md' sm' si' so' (_ & Hf & _) H. split; [done|]. by exists (HmacContents md' sm' si' so'). }
  eapply hoare_bind.
  { eapply hoare_cons; [exact (on_i_frame deref laws _ _ _ md sm si so F (copy_in_rule _ p oi bi F si Oi Hbi))|done|done|].
    intros s (st & Hf & H). by eapply Hfail. }
  intros []. apply hoare_ex. intros si'. apply hoare_pre. intros ->. eapply hoare_bind.
  { eapply hoare_cons; [exact (on_o_frame deref laws _ _ _ md sm (Some (p, oi)) so F (copy_in_rule _ p oo bo F so Oo Hbo))|done|done|].
    intros s (st & Hf & H). by eapply Hfail. }
  intros []. apply hoare_ex. intros so'. apply hoare_pre. intros ->. eapply hoare_bind.
  { eapply hoare_cons; [exact (on_md_frame deref laws _ _ _ md sm (Some (p, oi)) (Some (p, oo)) F (copy_in_rule _ p om bm F sm Om Hbm))|done|done|].
    intros s (st & Hf & H). by eapply Hfail. }
  intros []. apply hoare_ex. intros sm'. apply hoare_pre. intros ->.
  intros s (_ & H). apply has_holding. exists om, oi, oo. split; [done|]. split; [done|]. split; [done|].
  split; [exact Emd|]. exact H.
Qed.

End contexts.
