(* ===== verification/KeyBlocks.v ===== *)
(** * BoringSSL: keys in blocks

    HKDF, PBKDF2 and the PRF of TLS store a key block by block; the last block is cut.
    What a buffer holds after the first blocks. *)
From S2P Require Import Prelude WordOps.

(** The blocks of a key, one after the other, into a buffer. *)
Lemma fill_block (pre blk out0 : list Z) d len L : zlen pre = d -> zlen blk = len -> 0 <= d < L -> L <= zlen out0 ->
  0 < len ->
  OPENSSL_memcpy (pre ++ zdrop d out0) d blk 0 (Z.min len (L - d)) =
  Some (ztake (Z.min (d + len) L) (pre ++ blk) ++ zdrop (Z.min (d + len) L) out0).
Proof.
  intros Hd Hb HL HL2 Hlen. replace (Z.min (d + len) L) with (d + Z.min len (L - d)) by lia.
  assert (Ht : 0 < Z.min len (L - d) <= len /\ d + Z.min len (L - d) <= L) by lia. revert Ht.
  generalize (Z.min len (L - d)) as t. intros t Ht.
  assert (Hold : zdrop d out0 = ztake t (zdrop d out0) ++ zdrop (d + t) out0).
  { rewrite <- (ztake_zdrop t (zdrop d out0)) at 1. f_equal. unfold zdrop. rewrite drop_drop. f_equal. lia. }
  rewrite Hold. rewrite <- (ztake_zdrop t blk) at 1.
  rewrite (memcpy_app pre _ _ (ztake t blk) [] (zdrop t blk) d 0 t); [|done|done| |].
  - f_equal. rewrite app_assoc. f_equal. unfold ztake, zlen in *. rewrite take_app, (take_ge pre) by lia. f_equal. f_equal. lia.
  - rewrite zlen_ztake; lia.
  - rewrite zlen_ztake; [done|]. rewrite zlen_zdrop; lia.
Qed.

(** The first [n] blocks. *)
Definition okm (T : nat -> list Z) (n : nat) : list Z := concat (map T (seq 1 n)).

Lemma okm_S T n : okm T (S n) = okm T n ++ T (S n).
Proof. unfold okm. rewrite seq_S, map_app, concat_app. cbn [map concat]. by rewrite app_nil_r. Qed.

Lemma zlen_okm T len n : (forall i, (i < n)%nat -> zlen (T (S i)) = len) -> zlen (okm T n) = Z.of_nat n * len.
Proof.
  induction n as [|n IH]; intros HT; [done|]. rewrite okm_S, zlen_app, IH, HT; [lia|lia|].
  intros i Hi. apply HT. lia.
Qed.

(** A block more, in the buffer. *)
Definition okm_prefix (T : nat -> list Z) (len L : Z) (out0 : list Z) (n : nat) : list Z :=
  ztake (Z.min (Z.of_nat n * len) L) (okm T n) ++ zdrop (Z.min (Z.of_nat n * len) L) out0.

Lemma okm_prefix_full T len L out0 n : L <= Z.of_nat n * len ->
  okm_prefix T len L out0 n = ztake L (okm T n) ++ zdrop L out0.
Proof. intros H. unfold okm_prefix. by rewrite Z.min_r by lia. Qed.

Lemma okm_prefix_step T len L out0 n : (forall i, (i <= n)%nat -> zlen (T (S i)) = len) -> 0 < len ->
  Z.of_nat n * len < L -> L <= zlen out0 ->
  OPENSSL_memcpy (okm_prefix T len L out0 n) (Z.of_nat n * len) (T (S n)) 0 (Z.min len (L - Z.of_nat n * len)) =
  Some (okm_prefix T len L out0 (S n)).
Proof.
  intros HT Hlen Hn HL. pose proof (zlen_okm T len n ltac:(intros; apply HT; lia)) as Hk.
  assert (E : okm_prefix T len L out0 n = okm T n ++ zdrop (Z.of_nat n * len) out0).
  { unfold okm_prefix. rewrite Z.min_l by lia. rewrite <- Hk. f_equal. unfold ztake, zlen. rewrite take_ge; [done|lia]. }
  rewrite E, (fill_block _ _ _ _ len L) by (rewrite ?HT by lia; try done; lia). unfold okm_prefix. rewrite okm_S.
  by replace (Z.of_nat (S n) * len) with (Z.of_nat n * len + len) by lia.
Qed.

Lemma okm_prefix_0 T len L out0 : 0 <= L -> okm_prefix T len L out0 0 = out0.
Proof. intros HL. unfold okm_prefix. by rewrite Z.min_l by lia. Qed.

(** The buffer before and after the block [S n], which is put at its place. *)
Lemma okm_prefix_open T len L out0 n : (forall i, (i <= n)%nat -> zlen (T (S i)) = len) -> 0 < len ->
  Z.of_nat n * len < L -> L <= zlen out0 ->
  exists old rest, okm_prefix T len L out0 n = okm T n ++ old ++ rest /\
    zlen (okm T n) = Z.of_nat n * len /\ zlen old = Z.min len (L - Z.of_nat n * len) /\
    old = ztake (Z.min len (L - Z.of_nat n * len)) (zdrop (Z.of_nat n * len) out0) /\
    okm_prefix T len L out0 (S n) = okm T n ++ ztake (Z.min len (L - Z.of_nat n * len)) (T (S n)) ++ rest.
Proof.
  intros HT Hlen Hn HL. pose proof (okm_prefix_step T len L out0 n HT Hlen Hn HL) as Hstep.
  pose proof (zlen_okm T len n ltac:(intros; apply HT; lia)) as Hk.
  pose proof (HT n ltac:(lia)) as HTn. revert Hstep.
  assert (Ht : 0 < Z.min len (L - Z.of_nat n * len) <= len /\ Z.of_nat n * len + Z.min len (L - Z.of_nat n * len) <= L) by lia.
  revert Ht. generalize (Z.min len (L - Z.of_nat n * len)) as t. intros t Ht Hstep.
  set (d := Z.of_nat n * len) in *.
  assert (E : okm_prefix T len L out0 n = okm T n ++ ztake t (zdrop d out0) ++ zdrop t (zdrop d out0)).
  { unfold okm_prefix. rewrite ztake_zdrop. fold d. rewrite Z.min_l by lia. f_equal.
    rewrite <- Hk. unfold ztake, zlen. rewrite take_ge; [done|lia]. }
  assert (Hold : zlen (ztake t (zdrop d out0)) = t) by (apply zlen_ztake; rewrite zlen_zdrop; lia).
  eexists _, _. split; [exact E|]. split; [done|]. split; [exact Hold|]. split; [done|].
  rewrite E in Hstep. rewrite <- (ztake_zdrop t (T (S n))) in Hstep at 1.
  rewrite (memcpy_start _ _ _ (ztake t (T (S n)))) in Hstep; [by injection Hstep|done| |done].
  symmetry. apply zlen_ztake. lia.
Qed.

(** The number of blocks. *)
Lemma ceil_div L len : 0 <= L -> 0 < len ->
  0 <= (L + len - 1) / len /\ L <= (L + len - 1) / len * len /\
  (((L + len - 1) / len - 1) * len < L \/ (L + len - 1) / len = 0).
Proof.
  intros HL Hlen. pose proof (Z.div_mod (L + len - 1) len ltac:(lia)).
  pose proof (Z.mod_pos_bound (L + len - 1) len ltac:(lia)).
  assert (0 <= (L + len - 1) / len) by (apply Z.div_pos; lia). nia.
Qed.

Lemma ztake_zip_with (f : Z -> Z -> Z) t a b : ztake t (zip_with f a b) = zip_with f (ztake t a) (ztake t b).
Proof.
  unfold ztake. generalize (Z.to_nat t) as n. revert b. induction a as [|x a IH]; intros b n.
  - by destruct n.
  - destruct b as [|y b]; destruct n as [|n]; cbn; [done..|]. by rewrite IH.
Qed.
