(* ===== verification/Hkdf.v ===== *)
(** * BoringSSL: HKDF (crypto/hkdf/hkdf.c)

    Extract and expand over an HMAC context that is started again for each block, and
    RFC 5869. *)
From S2P Require Import Prelude OsslMem WordOps Md32 Evp EvpSpec Hmac HmacSpec KeyBlocks.

Section hkdf.
Context {md_ptr : Type} `{EqDecision md_ptr} (deref : md_ptr -> EVP_MD).
Context (malloc : nat -> Z -> option (list Z)) (pctx_dup : Z -> option Z) (garbage : list Z).

(** The pseudorandom key; [None] where the C function returns 0. *)
Definition HKDF_extract (digest : md_ptr) (secret : list Z) (salt : option (list Z)) : world -> out world (option (list Z)) :=
  HMAC deref malloc pctx_dup garbage digest salt secret true.

(** The rounds of the loop that are left, from [i] on.  [previous] is what the last one
    stored; the result is [ret] and the bytes at [out_key]. *)
Fixpoint HKDF_rounds (digest_len out_len : Z) (info : list Z) (rounds : nat) (i : Z)
    (previous out_key : list Z) (done : Z) : M (hmac_state md_ptr) (bool * list Z) :=
  match rounds with
  | O => ret (true, out_key)
  | S rounds =>
      let ctr := wrap 8 (i + 1) in
      let! r := tryb (
        (if negb (i =? 0)
         then HMAC_Init_ex deref malloc pctx_dup garbage None None;;! HMAC_Update deref previous
         else ret tt);;!
        HMAC_Update deref info;;!
        HMAC_Update deref [ctr];;!
        HMAC_Final deref malloc pctx_dup false) in
      match r with
      | None => ret (false, out_key)
      | Some previous =>
          let todo := if out_len <? u64 (done + digest_len) then u64 (out_len - done) else digest_len in
          let! out_key := of_opt (OPENSSL_memcpy out_key done previous 0 todo) in
          HKDF_rounds digest_len out_len info rounds (i + 1) previous out_key (u64 (done + todo))
      end
  end.

(** The C result and the bytes at [out_key]. *)
Definition HKDF_expand (out_key : list Z) (out_len : Z) (digest : md_ptr) (prk info : list Z) (w : world)
    : out world (bool * list Z) :=
  let digest_len := EVP_MD_size deref digest in
  let n := u64 (u64 (out_len + digest_len) - 1) / digest_len in
  if (u64 (out_len + digest_len) <? out_len) || (255 <? n) then Ret (false, out_key) w
  else
    match with_local_hmac (
      let! r := tryb (HMAC_Init_ex deref malloc pctx_dup garbage (Some prk) (Some digest)) in
      match r with
      | None => ret (false, out_key)
      | Some _ => HKDF_rounds digest_len out_len info (Z.to_nat n) 0 [] out_key 0
      end) w with
    | Ret (Some r) w => Ret r w
    | Ret None _ => Ub
    | Fail w => Fail w
    | Ub => Ub
    | NoFuel => NoFuel
    end.

Definition HKDF (out_key : list Z) (out_len : Z) (digest : md_ptr) (secret : list Z) (salt : option (list Z))
    (info : list Z) (w : world) : out world (bool * list Z) :=
  match HKDF_extract digest secret salt w with
  | Ret (Some prk) w => HKDF_expand out_key out_len digest prk info w
  | Ret None w => Ret (false, out_key) w
  | Fail w => Fail w
  | Ub => Ub
  | NoFuel => NoFuel
  end.

End hkdf.

(** ** RFC 5869 *)

Section rfc.
Context (hmac : list Z -> list Z -> list Z) (hash_len : Z).

Definition rfc5869_extract (salt : option (list Z)) (ikm : list Z) : list Z :=
  hmac (default (replicate (Z.to_nat hash_len) 0) salt) ikm.

Fixpoint rfc5869_T (prk info : list Z) (i : nat) : list Z :=
  match i with
  | O => []
  | S j => hmac prk (rfc5869_T prk info j ++ info ++ [Z.of_nat i])
  end.

(** [None] where the length is too large. *)
Definition rfc5869_expand (prk info : list Z) (L : Z) : option (list Z) :=
  if 255 * hash_len <? L then None
  else let N := Z.to_nat ((L + hash_len - 1) / hash_len) in
       Some (ztake L (concat (map (rfc5869_T prk info) (seq 1 N)))).

Definition rfc5869 (salt : option (list Z)) (ikm info : list Z) (L : Z) : option (list Z) :=
  rfc5869_expand (rfc5869_extract salt ikm) info L.

End rfc.


(** * BoringSSL: HKDF is RFC 5869 *)

Section hkdf.
Context {md_ptr : Type} `{EqDecision md_ptr} (deref : md_ptr -> EVP_MD).
Context (malloc : nat -> Z -> option (list Z)) (pctx_dup : Z -> option Z) (garbage : list Z).
Context (laws : forall p, Digest (deref p)) (Hmalloc : malloc_spec malloc) (Hgarbage : zlen garbage = 128).

#[local] Existing Instance laws.

(** Salt that is not given is as zeros. *)
Lemma no_salt p ikm : rfc_hmac (deref p) [] ikm = rfc_hmac (deref p) (replicate (Z.to_nat (md_size (deref p))) 0) ikm.
Proof.
  destruct (sizes_ok (md:=deref p)) as (Hs & Hb & _).
  enough (E : padded_key (deref p) [] = padded_key (deref p) (replicate (Z.to_nat (md_size (deref p))) 0))
    by (unfold rfc_hmac, ipad, opad; by rewrite E).
  unfold padded_key, short_key. unfold zlen. rewrite !length_replicate. cbn [length].
  bool_false (md_block_size (deref p) <? Z.of_nat 0).
  bool_false (md_block_size (deref p) <? Z.of_nat (Z.to_nat (md_size (deref p)))).
  rewrite length_replicate, <- replicate_add. cbn [app length]. f_equal. lia.
Qed.

Section rounds.
Context (p : md_ptr) (prk info : list Z) (F : gmap nat md_object).
Context (Hprk : bytes_ok prk) (Hinfo : piece_ok info).

Abbreviation len := (md_size (deref p)).
Abbreviation T := (rfc5869_T (rfc_hmac (deref p)) prk info).

Lemma T_bytes i : (i <= 255)%nat -> bytes_ok (T i).
Proof using Hprk Hinfo.
  induction i as [|i IH]; intros Hi; [by constructor|]. cbn [rfc5869_T]. apply rfc_hmac_ok; [done|].
  apply Forall_app. split; [apply IH; lia|]. apply Forall_app. split; [apply Hinfo|].
  constructor; [|by constructor]. unfold is_byte. lia.
Qed.

Lemma T_size i : (i < 255)%nat -> zlen (T (S i)) = len.
Proof using Hprk Hinfo.
  intros Hi. cbn [rfc5869_T]. apply rfc_hmac_ok; [done|]. apply Forall_app. split; [apply T_bytes; lia|].
  apply Forall_app. split; [apply Hinfo|]. constructor; [|by constructor]. unfold is_byte. lia.
Qed.

(** The context before the round [i]. *)
Definition before (i : nat) (s : hmac_state md_ptr) : Prop :=
  match i with O => has deref laws p prk [] F s | _ => keyed deref laws p prk F s end.

Lemma block_hoare i : (i < 255)%nat ->
  hoare (before i)
    ((if negb (Z.of_nat i =? 0)
      then HMAC_Init_ex deref malloc pctx_dup garbage None None;;! HMAC_Update deref (T i)
      else ret tt);;!
     HMAC_Update deref info;;!
     HMAC_Update deref [wrap 8 (Z.of_nat i + 1)];;!
     HMAC_Final deref malloc pctx_dup false)
    (fun d s => d = T (S i) /\ before (S i) s) (fun _ => False).
Proof using Hmalloc Hprk Hinfo.
  intros Hi. destruct (sizes_ok (md:=deref p)) as (Hs & _ & _).
  rewrite wrap_small by (change (2 ^ 8) with 256; lia).
  replace (Z.of_nat i + 1) with (Z.of_nat (S i)) by lia.
  apply (hoare_bind _ _ _ (fun _ => has deref laws p prk (T i) F)).
  - destruct i as [|i]; [by apply hoare_ret|]. bool_false (Z.of_nat (S i) =? 0). cbn [negb].
    eapply hoare_bind; [apply rekey_rule; [done|by left]|]. intros [].
    apply (update_hoare deref laws p prk []); [apply T_bytes; lia|].
    rewrite T_size by lia. change (2 ^ 64) with 18446744073709551616. lia.
  - intros []. eapply hoare_bind; [apply (update_hoare deref laws); apply Hinfo|]. intros [].
    eapply hoare_bind; [apply (update_hoare deref laws)|].
    { constructor; [|by constructor]. unfold is_byte. lia. }
    { done. }
    intros []. rewrite <- app_assoc. eapply hoare_cons; [by apply (final_hoare deref malloc pctx_dup laws Hmalloc p prk)|done| |done].
    by intros d s [-> ?].
Qed.

Context (out0 : list Z) (L : Z) (N : nat).
Context (HL : L <= zlen out0) (HL64 : 0 <= L < 2 ^ 64 - 128) (HN : (N <= 255)%nat).

Lemma rounds_hoare k i : (i + k = N)%nat -> L <= Z.of_nat N * len -> (Z.of_nat N - 1) * len < L \/ N = 0%nat ->
  hoare (before i)
    (HKDF_rounds deref malloc pctx_dup garbage len L info k (Z.of_nat i) (T i) (okm_prefix T len L out0 i)
       (Z.min (Z.of_nat i * len) L))
    (fun r s => r = (true, ztake L (okm T N) ++ zdrop L out0) /\ some_hmac deref laws F s) (fun _ => False).
Proof using Hmalloc Hprk Hinfo HL HL64 HN.
  destruct (sizes_ok (md:=deref p)) as (Hs & _ & _).
  intros Hik HN1 HN2. revert i Hik. induction k as [|k IH]; intros i Hik.
  - replace i with N by lia. apply hoare_ret. intros s Hb. split; [by rewrite okm_prefix_full|].
    destruct N; [by eapply keyed_some, has_keyed|by eapply keyed_some].
  - assert (Hd : Z.of_nat i * len < L) by nia. rewrite Z.min_l by lia. cbn [HKDF_rounds]. cbv zeta.
    eapply hoare_bind; [eapply hoare_try, (block_hoare i); lia|].
    intros [d|]; [|by intros s []]. apply hoare_pre. intros ->.
    assert (Etodo : (if L <? u64 (Z.of_nat i * len + len) then u64 (L - Z.of_nat i * len) else len) =
                    Z.min len (L - Z.of_nat i * len)).
    { rewrite !wrap_small by (change (2 ^ 64) with 18446744073709551616 in *; nia).
      destruct (Z.ltb_spec L (Z.of_nat i * len + len)); lia. }
    rewrite Etodo. intros s Hb. unfold bind at 1.
    rewrite (okm_prefix_step T len L out0 i) by (try lia; intros; apply T_size; lia).
    rewrite wrap_small by (change (2 ^ 64) with 18446744073709551616 in *; nia).
    replace (Z.of_nat i * len + Z.min len (L - Z.of_nat i * len)) with (Z.min (Z.of_nat (S i) * len) L) by lia.
    replace (Z.of_nat i + 1) with (Z.of_nat (S i)) by lia. apply IH; [lia|done].
Qed.

End rounds.

(** The number of blocks, and the two tests of the length. *)
Lemma block_count L len : 0 <= L < 2 ^ 64 -> 0 < len <= 64 ->
  ((u64 (L + len) <? L) || (255 <? u64 (u64 (L + len) - 1) / len) = (255 * len <? L)) /\
  (L <= 255 * len -> u64 (u64 (L + len) - 1) / len = (L + len - 1) / len /\
    0 <= (L + len - 1) / len <= 255 /\ L <= (L + len - 1) / len * len /\
    (((L + len - 1) / len - 1) * len < L \/ (L + len - 1) / len = 0)).
Proof.
  intros HL Hlen. change (2 ^ 64) with 18446744073709551616 in *.
  pose proof (ceil_div L len ltac:(lia) ltac:(lia)) as Hn.
  assert (Hw : L + len < 18446744073709551616 -> u64 (u64 (L + len) - 1) / len = (L + len - 1) / len).
  { intros H. rewrite (wrap_small 64 (L + len)) by (change (2 ^ 64) with 18446744073709551616; lia).
    by rewrite wrap_small by (change (2 ^ 64) with 18446744073709551616; lia). }
  split.
  - destruct (Z_lt_le_dec (L + len) 18446744073709551616) as [H|H].
    + rewrite Hw, (wrap_small 64 (L + len)) by (try (change (2 ^ 64) with 18446744073709551616); lia).
      bool_false (L + len <? L). cbn [orb]. apply eq_true_iff_eq. rewrite !Z.ltb_lt. split; intros; nia.
    + assert (E : u64 (L + len) = L + len - 18446744073709551616).
      { unfold wrap. change (2 ^ 64) with 18446744073709551616. symmetry. apply Z.mod_unique_pos with 1; lia. }
      rewrite E. bool_true (L + len - 18446744073709551616 <? L). by bool_true (255 * len <? L).
  - intros H. split; [apply Hw; lia|]. nia.
Qed.

Lemma hkdf_expand_run p prk info out0 L w :
  bytes_ok prk -> zlen prk < 2 ^ 64 -> piece_ok info -> 0 <= L < 2 ^ 64 -> L <= zlen out0 ->
  match HKDF_expand deref malloc pctx_dup garbage out0 L p prk info w with
  | Ret (true, out) w' =>
      (exists key, rfc5869_expand (rfc_hmac (deref p)) (md_size (deref p)) prk info L = Some key /\ out = key ++ zdrop L out0) /\
      w_blocks w' = w_blocks w
  | Ret (false, out) w' => ((255 * md_size (deref p) < L \/ malloc_fails malloc) /\ out = out0) /\ w_blocks w' = w_blocks w
  | _ => False
  end.
Proof using laws Hmalloc Hgarbage.
  intros Hprk Hprkl Hinfo HL HLo. destruct (sizes_ok (md:=deref p)) as (Hs & _ & _).
  destruct (block_count L (md_size (deref p)) HL ltac:(lia)) as [Et Hn].
  unfold HKDF_expand, EVP_MD_size. cbv zeta. rewrite Et. unfold rfc5869_expand.
  destruct (Z.ltb_spec (255 * md_size (deref p)) L) as [Hbig|Hsmall]; [by split; [split; [left|]|]|].
  destruct (Hn Hsmall) as (-> & Hn1 & Hn2 & Hn3). set (n := (L + md_size (deref p) - 1) / md_size (deref p)) in *.
  match goal with |- context [with_local_hmac ?m w] => pose proof (local_hmac deref laws m
    (fun r => r = (true, ztake L (okm (rfc5869_T (rfc_hmac (deref p)) prk info) (Z.to_nat n)) ++ zdrop L out0) \/
              (malloc_fails malloc /\ r = (false, out0))) False w) as H; set (run := with_local_hmac m w) in * end.
  ospecialize* H; [clear H run|].
  { eapply hoare_bind; [eapply hoare_try; by apply (first_key_hoare deref malloc pctx_dup garbage laws Hmalloc Hgarbage p (Some prk))|].
    intros [[]|].
    - apply hoare_weaken.
      pose proof (rounds_hoare p prk info (w_blocks w) Hprk Hinfo out0 L (Z.to_nat n) HLo
        ltac:(change (2 ^ 64) with 18446744073709551616; lia) ltac:(lia) (Z.to_nat n) 0 ltac:(lia) ltac:(lia) ltac:(lia)) as HR.
      rewrite okm_prefix_0, Z.min_l in HR by lia.
      eapply hoare_cons; [exact HR|done| |done]. intros r s [-> Hr]. split; [by left|done].
    - apply hoare_ret. intros s [Hm Hs']. split; [by right|done]. }
  destruct run as [[[r out]|] w'| | |]; try done; [|by destruct H].
  destruct H as [[[= -> ->]|(Hm & [= -> ->])] Hw].
  - split; [|done]. by eexists.
  - split; [|done]. split; [by right|done].
Qed.

End hkdf.

(** C11: HKDF is RFC 5869 for each digest of the library.  The call stores the key that the RFC
    defines at [out_key] and leaves the bytes beyond [out_len] as they are, also where the salt is
    a null pointer, which the RFC reads as zeros; it returns 0 exactly where the RFC refuses the
    length, more than 255 blocks, also where the C sum of the lengths wraps, or where malloc fails,
    and then stores nothing.  Null lengths that HMAC_Final is given are never written through. *)
Theorem hkdf_rfc5869 malloc pctx_dup garbage (p : static_md) secret salt info out_key L w :
  malloc_spec malloc -> zlen garbage = 128 ->
  piece_ok secret -> piece_ok (default [] salt) -> piece_ok info -> 0 <= L < 2 ^ 64 -> L <= zlen out_key ->
  let hmac := rfc2104 (standard_hash p) (EVP_MD_block_size static_deref p) in
  let key := rfc5869 hmac (EVP_MD_size static_deref p) salt secret info L in
  match HKDF static_deref malloc pctx_dup garbage out_key L p secret salt info w with
  | Ret (true, out) w' => (exists k, key = Some k /\ out = k ++ zdrop L out_key) /\ w_blocks w' = w_blocks w
  | Ret (false, out) w' => ((key = None \/ malloc_fails malloc) /\ out = out_key) /\ w_blocks w' = w_blocks w
  | _ => False
  end.
Proof.
  intros Hm Hg Hsec Hsalt Hinfo HL HLo. cbv zeta. rewrite <- static_hash. unfold HKDF, HKDF_extract.
  change (rfc2104 (hash (static_deref p)) (EVP_MD_block_size static_deref p)) with (rfc_hmac (static_deref p)).
  pose proof (hmac_call static_deref malloc pctx_dup garbage static_laws Hm Hg p salt secret true w
    (proj1 Hsalt) (proj2 Hsalt) Hsec) as Hx.
  destruct (HMAC _ _ _ _ _ _ _ _ _) as [[prk|] w1| | |]; try done; [|destruct Hx as [Hx Ew]; by split; [split; [right|]|]].
  destruct Hx as [-> Ew].
  assert (E : rfc_hmac (static_deref p) (default [] salt) secret =
              rfc5869_extract (rfc_hmac (static_deref p)) (EVP_MD_size static_deref p) salt secret).
  { destruct salt as [salt|]; [done|]. exact (no_salt static_deref static_laws p secret). }
  destruct (rfc_hmac_ok (static_deref p) (default [] salt) secret (proj1 Hsalt) (proj1 Hsec)) as [Hp1 Hp2].
  rewrite E in *. destruct (sizes_ok (md:=static_deref p)) as (Hs & _ & _).
  pose proof (hkdf_expand_run static_deref malloc pctx_dup garbage static_laws Hm Hg p _ info out_key L w1 Hp1
    ltac:(rewrite Hp2; change (2 ^ 64) with 18446744073709551616; lia) Hinfo HL HLo) as H.
  destruct (HKDF_expand _ _ _ _ _ _ _ _ _ _) as [[[] out] w2| | |]; try done; destruct H as [H Ew2].
  - split; [exact H|congruence].
  - destruct H as [[HbL|Hf] ->]; (split; [split; [|done]|congruence]); [left|by right].
    unfold rfc5869, rfc5869_expand, EVP_MD_size. by bool_true (255 * md_size (static_deref p) <? L).
Qed.

Lemma hkdf_rfc5869_witness :
  let hmac := rfc2104 (standard_hash Sha256) (EVP_MD_block_size static_deref Sha256) in
  let key := rfc5869 hmac (EVP_MD_size static_deref Sha256) None [1; 2] [3] 2 in
  match HKDF static_deref sample_malloc Some (replicate 128 7) [0; 0; 9] 2 Sha256 [1; 2] None [3] (World ∅ 0) with
  | Ret (true, out) w' => (exists k, key = Some k /\ out = k ++ zdrop 2 [0; 0; 9]) /\ w_blocks w' = ∅
  | Ret (false, out) w' => ((key = None \/ malloc_fails sample_malloc) /\ out = [0; 0; 9]) /\ w_blocks w' = ∅
  | _ => False
  end.
Proof.
  apply (hkdf_rfc5869 sample_malloc Some (replicate 128 7) Sha256 [1; 2] None [3] [0; 0; 9] 2 (World ∅ 0)).
  - exact sample_malloc_spec.
  - reflexivity.
  - split; [repeat constructor; unfold is_byte; lia|reflexivity].
  - split; [constructor|reflexivity].
  - split; [repeat constructor; unfold is_byte; lia|reflexivity].
  - split; [lia|reflexivity].
  - vm_compute. discriminate.
Defined.

(** The first test case of the RFC. *)
Example hkdf_case : forall n, exists w,
  HKDF static_deref sample_malloc Some (replicate 128 7) (replicate 42 0) 42 Sha256 (replicate 22 0x0b)
    (Some (Z.of_nat <$> seq 0 13)) ((fun i => 0xf0 + Z.of_nat i) <$> seq 0 10) (World ∅ n) =
  Ret (true, [0x3c; 0xb2; 0x5f; 0x25; 0xfa; 0xac; 0xd5; 0x7a; 0x90; 0x43; 0x4f; 0x64; 0xd0; 0x36; 0x2f; 0x2a;
              0x2d; 0x2d; 0x0a; 0x90; 0xcf; 0x1a; 0x5a; 0x4c; 0x5d; 0xb0; 0x2d; 0x56; 0xec; 0xc4; 0xc5; 0xbf;
              0x34; 0x00; 0x72; 0x08; 0xd5; 0xb8; 0x87; 0x18; 0x58; 0x65]) w.
Proof. intros n. eexists. vm_compute. reflexivity. Qed.
