(* ===== verification/Pbkdf.v ===== *)
(** * BoringSSL: PBKDF2 (crypto/evp/pbkdf.c)

    The blocks of a key from a password, a salt and a number of iterations, and
    RFC 8018. *)
From S2P Require Import Prelude OsslMem WordOps Md32 Evp EvpSpec Hmac HmacSpec KeyBlocks.

Section pbkdf.
Context {md_ptr : Type} `{EqDecision md_ptr} (deref : md_ptr -> EVP_MD).
Context (malloc : nat -> Z -> option (list Z)) (pctx_dup : Z -> option Z) (garbage : list Z).

(** The loop over [j]: [rounds] are left; the block lies at [out_key + off]. *)
Fixpoint PBKDF2_iterate (rounds : nat) (digest_tmp out_key : list Z) (off todo : Z)
    : M (hmac_state md_ptr) (bool * list Z) :=
  match rounds with
  | O => ret (true, out_key)
  | S rounds =>
      let! r := tryb (
        HMAC_Init_ex deref malloc pctx_dup garbage None None;;!
        HMAC_Update deref digest_tmp;;!
        HMAC_Final deref malloc pctx_dup false) in
      match r with
      | None => ret (false, out_key)
      | Some digest_tmp =>
          let! out_key := of_opt (xor_bytes out_key off digest_tmp todo) in
          PBKDF2_iterate rounds digest_tmp out_key off todo
      end
  end.

Definition i_buf (i : Z) : list Z :=
  [wrap 8 (Z.land (Z.shiftr i 24) 0xff); wrap 8 (Z.land (Z.shiftr i 16) 0xff);
   wrap 8 (Z.land (Z.shiftr i 8) 0xff); wrap 8 (Z.land i 0xff)].

(** The outer loop; [off] is what [out_key] has been advanced by. *)
Fixpoint PBKDF2_blocks (fuel : nat) (md_len : Z) (salt : list Z) (iterations i key_len off : Z) (out_key : list Z)
    : M (hmac_state md_ptr) (bool * list Z) :=
  match fuel with
  | O => nofuelm
  | S fuel =>
      if 0 <? key_len then
        let todo := if key_len <? md_len then key_len else md_len in
        let! r := tryb (
          HMAC_Init_ex deref malloc pctx_dup garbage None None;;!
          HMAC_Update deref salt;;!
          HMAC_Update deref (i_buf i);;!
          HMAC_Final deref malloc pctx_dup false) in
        match r with
        | None => ret (false, out_key)
        | Some digest_tmp =>
            let! out_key := of_opt (OPENSSL_memcpy out_key off digest_tmp 0 todo) in
            let! (ok, out_key) := PBKDF2_iterate (Z.to_nat (iterations - 1)) digest_tmp out_key off todo in
            if ok
            then PBKDF2_blocks fuel md_len salt iterations (u32 (i + 1)) (u64 (key_len - todo)) (off + todo) out_key
            else ret (false, out_key)
        end
      else ret (true, out_key)
  end.

(** The C result and the bytes at [out_key]. *)
Definition PKCS5_PBKDF2_HMAC (password salt : list Z) (iterations : Z) (digest : md_ptr) (key_len : Z)
    (out_key : list Z) (w : world) : out world (bool * list Z) :=
  match with_local_hmac (
    let! r := tryb (HMAC_Init_ex deref malloc pctx_dup garbage (Some password) (Some digest)) in
    match r with
    | None => ret (false, out_key)
    | Some _ =>
        let! (ok, out_key) := PBKDF2_blocks (S (Z.to_nat key_len)) (EVP_MD_size deref digest) salt iterations
                                1 key_len 0 out_key in
        ret (ok && negb (iterations =? 0), out_key)
    end) w with
  | Ret (Some r) w => Ret r w
  | Ret None _ => Ub
  | Fail w => Fail w
  | Ub => Ub
  | NoFuel => NoFuel
  end.

End pbkdf.

(** [EVP_sha1()] for the digest. *)
Definition PKCS5_PBKDF2_HMAC_SHA1 malloc pctx_dup garbage (password salt : list Z) (iterations key_len : Z)
    (out_key : list Z) : world -> out world (bool * list Z) :=
  PKCS5_PBKDF2_HMAC static_deref malloc pctx_dup garbage password salt iterations Sha1 key_len out_key.

(** ** RFC 8018, section 5.2 *)

Section rfc.
Context (prf : list Z -> list Z -> list Z) (P salt : list Z).

(** [U (S j)] of the block [i]; the number of a block has four octets. *)
Fixpoint rfc8018_U (i : Z) (j : nat) : list Z :=
  match j with
  | O => prf P (salt ++ be_field 4 i)
  | S j => prf P (rfc8018_U i j)
  end.

Fixpoint rfc8018_F (i : Z) (c : nat) : list Z :=
  match c with
  | O => rfc8018_U i 0
  | S c => zip_with Z.lxor (rfc8018_F i c) (rfc8018_U i (S c))
  end.

(** The blocks 1, 2, ... of [c] iterations each, cut to [L] octets. *)
Definition rfc8018_blocks (hash_len c L : Z) : list Z :=
  ztake L (concat (map (fun i => rfc8018_F (Z.of_nat i) (Z.to_nat (c - 1)))
                       (seq 1 (Z.to_nat ((L + hash_len - 1) / hash_len))))).

(** [None] for "derived key too long". *)
Definition rfc8018 (hash_len c L : Z) : option (list Z) :=
  if (2 ^ 32 - 1) * hash_len <? L then None else Some (rfc8018_blocks hash_len c L).

End rfc.


(** * BoringSSL: PBKDF2 is that of RFC 8018 *)

(** The octets of the number of a block are those of the 32-bit counter. *)
Lemma i_buf_field i : i_buf (wrap 32 i) = be_field 4 i.
Proof.
  assert (E : forall v, i_buf v = be_field 4 v).
  { intros v. unfold i_buf, be_field. cbn [le_bytes rev app]. rewrite !Z.shiftr_shiftr by lia.
    change (8 + 8 + 8) with 24. change (8 + 8) with 16.
    assert (Hw : forall x, wrap 8 (Z.land x 255) = Z.land x 255).
    { intros x. rewrite (land_mask_mod x 8) by done. apply Z.mod_mod. done. }
    by rewrite !Hw. }
  rewrite E. unfold be_field. f_equal. apply (le_bytes_wrap 4).
Qed.

Section pbkdf.
Context {md_ptr : Type} `{EqDecision md_ptr} (deref : md_ptr -> EVP_MD).
Context (malloc : nat -> Z -> option (list Z)) (pctx_dup : Z -> option Z) (garbage : list Z).
Context (laws : forall p, Digest (deref p)) (Hmalloc : malloc_spec malloc) (Hgarbage : zlen garbage = 128).

#[local] Existing Instance laws.

Section blocks.
Context (p : md_ptr) (key salt : list Z) (F : gmap nat md_object).
Context (Hkey : bytes_ok key) (Hsalt : piece_ok salt).

Abbreviation len := (md_size (deref p)).
Abbreviation U := (rfc8018_U (rfc_hmac (deref p)) key salt).
Abbreviation Fx := (rfc8018_F (rfc_hmac (deref p)) key salt).
Abbreviation keyed := (keyed deref laws p key F).

Lemma U_ok i j : bytes_ok (U i j) /\ zlen (U i j) = len.
Proof using Hkey Hsalt.
  induction j as [|j [IH _]]; cbn [rfc8018_U]; apply rfc_hmac_ok; try done.
  apply Forall_app. split; [apply Hsalt|apply be_field_ok].
Qed.

Lemma F_size i c : zlen (Fx i c) = len.
Proof using Hkey Hsalt.
  induction c as [|c IH]; cbn [rfc8018_F]; [apply U_ok|]. pose proof (proj2 (U_ok i (S c))) as E.
  unfold zlen in E, IH |- *. rewrite length_zip_with. lia.
Qed.

Lemma iterate_hoare k i j pre rest t : 0 <= t <= len ->
  hoare keyed
    (PBKDF2_iterate deref malloc pctx_dup garbage k (U i j) (pre ++ ztake t (Fx i j) ++ rest) (zlen pre) t)
    (fun r s => r = (true, pre ++ ztake t (Fx i (k + j)) ++ rest) /\ keyed s) (fun _ => False).
Proof using Hmalloc Hkey Hsalt.
  intros Ht. revert j. induction k as [|k IH]; intros j; [by apply hoare_ret|]. cbn [PBKDF2_iterate].
  eapply (hoare_bind _ _ _ (fun r s => r = Some (U i (S j)) /\ keyed s)).
  - eapply hoare_cons; [eapply hoare_try|done| |intros s H; exact H].
    + eapply hoare_bind; [apply rekey_rule; [done|by left]|]. intros [].
      eapply hoare_bind; [apply (update_hoare deref laws p key []); [apply U_ok|]|].
      { rewrite (proj2 (U_ok i j)). destruct (sizes_ok (md:=deref p)) as (Hs & _).
        change (2 ^ 64) with 18446744073709551616. lia. }
      intros []. by apply (final_hoare deref malloc pctx_dup laws Hmalloc p key).
    + intros [d|] s; [|by intros []]. by intros [-> Hs].
  - intros r. apply hoare_pre. intros ->. cbn beta iota. intros s Hs. unfold bind at 1.
    rewrite xor_bytes_app; [|done| |by rewrite (proj2 (U_ok i (S j))); lia].
    + rewrite <- ztake_zip_with. replace (S k + j)%nat with (k + S j)%nat by lia. by apply (IH (S j)).
    + rewrite zlen_ztake; [done|]. rewrite F_size. lia.
Qed.

Context (iterations : Z) (out0 : list Z) (L : Z).
Context (HL : L <= zlen out0) (HL64 : 0 <= L < 2 ^ 64).

Abbreviation T := (fun i : nat => Fx (Z.of_nat i) (Z.to_nat (iterations - 1))).

Lemma blocks_hoare N fuel n : L <= Z.of_nat N * len -> (Z.of_nat N - 1) * len < L \/ N = 0%nat ->
  (n <= N)%nat -> L - Z.min (Z.of_nat n * len) L < Z.of_nat fuel ->
  hoare keyed
    (PBKDF2_blocks deref malloc pctx_dup garbage fuel len salt iterations (u32 (Z.of_nat n + 1))
       (L - Z.min (Z.of_nat n * len) L) (Z.min (Z.of_nat n * len) L) (okm_prefix T len L out0 n))
    (fun r s => r = (true, ztake L (okm T N) ++ zdrop L out0) /\ keyed s) (fun _ => False).
Proof using Hmalloc Hkey Hsalt HL HL64.
  destruct (sizes_ok (md:=deref p)) as (Hs & _ & _). intros HN1 HN2. revert n.
  induction fuel as [|fuel IH]; intros n Hn Hfuel; [lia|]. cbn [PBKDF2_blocks]. cbv zeta.
  destruct (Z.ltb_spec 0 (L - Z.min (Z.of_nat n * len) L)) as [Hlt|Hge].
  - assert (Hd : Z.of_nat n * len < L) by lia. rewrite Z.min_l by lia.
    assert (Etodo : (if L - Z.of_nat n * len <? len then L - Z.of_nat n * len else len) = Z.min len (L - Z.of_nat n * len))
      by (destruct (Z.ltb_spec (L - Z.of_nat n * len) len); lia).
    rewrite Etodo. rewrite i_buf_field. replace (Z.of_nat n + 1) with (Z.of_nat (S n)) by lia.
    pose proof (okm_prefix_step T len L out0 n ltac:(intros; apply F_size) ltac:(lia) Hd HL) as Hstep.
    destruct (okm_prefix_open T len L out0 n ltac:(intros; apply F_size) ltac:(lia) Hd HL)
      as (old & rest & E1 & Hk & Ho & _ & E2).
    eapply (hoare_bind _ _ _ (fun r s => r = Some (U (Z.of_nat (S n)) 0) /\ keyed s)).
    + eapply hoare_cons; [eapply hoare_try|done| |intros s H; exact H].
      * eapply hoare_bind; [apply rekey_rule; [done|by left]|]. intros [].
        eapply hoare_bind; [apply (update_hoare deref laws p key []); apply Hsalt|]. intros [].
        eapply hoare_bind; [apply (update_hoare deref laws p key); [apply be_field_ok|done]|]. intros [].
        by apply (final_hoare deref malloc pctx_dup laws Hmalloc p key).
      * intros [d|] s; [|by intros []]. by intros [-> Hs'].
    + intros r. apply hoare_pre. intros ->. cbn beta iota.
      assert (Ecpy : OPENSSL_memcpy (okm_prefix T len L out0 n) (Z.of_nat n * len) (U (Z.of_nat (S n)) 0) 0
                       (Z.min len (L - Z.of_nat n * len)) =
                     Some (okm T n ++ ztake (Z.min len (L - Z.of_nat n * len)) (Fx (Z.of_nat (S n)) 0) ++ rest)).
      { rewrite E1. rewrite <- (ztake_zdrop (Z.min len (L - Z.of_nat n * len)) (U (Z.of_nat (S n)) 0)) at 1.
        apply memcpy_start; [done| |done]. rewrite zlen_ztake; [done|]. rewrite F_size. lia. }
      intros s Hs'. unfold bind at 1. rewrite Ecpy. cbn [of_opt].
      revert s Hs'. eapply hoare_bind.
      { rewrite <- Hk. by apply (iterate_hoare _ (Z.of_nat (S n)) 0); lia. }
      intros r. apply hoare_pre. intros ->. cbn beta iota.
      assert (0 <= Z.of_nat n * len) by nia. rewrite Nat.add_0_r, Hk. cbn beta in E2. rewrite <- E2.
      assert (Ei : u32 (u32 (Z.of_nat (S n)) + 1) = u32 (Z.of_nat (S n) + 1)) by (unfold wrap; apply Zplus_mod_idemp_l).
      rewrite Ei, (wrap_small 64) by (change (2 ^ 64) with 18446744073709551616 in *; lia).
      replace (L - Z.of_nat n * len - Z.min len (L - Z.of_nat n * len)) with (L - Z.min (Z.of_nat (S n) * len) L) by lia.
      replace (Z.of_nat n * len + Z.min len (L - Z.of_nat n * len)) with (Z.min (Z.of_nat (S n) * len) L) by lia.
      apply IH; [nia|lia].
  - assert (n = N) as -> by nia. apply hoare_ret. intros s Hs'. by rewrite okm_prefix_full by lia.
Qed.

End blocks.

Lemma pbkdf2_run p pw salt it L out0 w :
  piece_ok pw -> piece_ok salt -> 0 <= L < 2 ^ 64 -> L <= zlen out0 ->
  match PKCS5_PBKDF2_HMAC deref malloc pctx_dup garbage pw salt it p L out0 w with
  | Ret (ok, out) w' =>
      (ok = negb (it =? 0) /\
       out = rfc8018_blocks (rfc_hmac (deref p)) pw salt (md_size (deref p)) it L ++ zdrop L out0 \/
       malloc_fails malloc /\ ok = false /\ out = out0) /\ w_blocks w' = w_blocks w
  | _ => False
  end.
Proof using laws Hmalloc Hgarbage.
  intros [Hpw Hpwl] Hsalt HL HLo. destruct (sizes_ok (md:=deref p)) as (Hs & _ & _).
  destruct (ceil_div L (md_size (deref p)) ltac:(lia) ltac:(lia)) as (Hn1 & Hn2 & Hn3).
  unfold PKCS5_PBKDF2_HMAC, EVP_MD_size, rfc8018_blocks. set (n := (L + md_size (deref p) - 1) / md_size (deref p)) in *.
  set (T := fun i : nat => rfc8018_F (rfc_hmac (deref p)) pw salt (Z.of_nat i) (Z.to_nat (it - 1))).
  match goal with |- context [with_local_hmac ?m w] => pose proof (local_hmac deref laws m
    (fun r => r = (negb (it =? 0), ztake L (okm T (Z.to_nat n)) ++ zdrop L out0) \/
              malloc_fails malloc /\ r = (false, out0)) False w) as H; set (run := with_local_hmac m w) in * end.
  ospecialize* H; [clear H run|].
  { eapply hoare_bind; [eapply hoare_try; by apply (first_key_hoare deref malloc pctx_dup garbage laws Hmalloc Hgarbage p (Some pw))|].
    intros [[]|].
    - apply hoare_weaken.
      pose proof (blocks_hoare p pw salt (w_blocks w) Hpw Hsalt it out0 L HLo HL (Z.to_nat n) (S (Z.to_nat L)) 0
        ltac:(lia) ltac:(lia) ltac:(lia) ltac:(lia)) as HR.
      rewrite okm_prefix_0, Z.min_l, Z.sub_0_r in HR by lia. fold T in HR.
      eapply hoare_bind; [eapply hoare_cons; [exact HR|intros s; apply has_keyed|done|done]|].
      intros [ok out]. apply hoare_pre. intros [= -> ->]. apply hoare_ret. intros s Hk.
      split; [by left|]. by eapply keyed_some.
    - apply hoare_ret. intros s [Hm Hs']. split; [by right|done]. }
  destruct run as [[[ok out]|] w'| | |]; try done; [|by destruct H].
  destruct H as [[[= -> ->]|(Hm & [= -> ->])] Hw]; (split; [|done]); [by left|by right].
Qed.

End pbkdf.

(** C12: PBKDF2 is that of RFC 8018 with HMAC for each digest of the library.  The call stores the
    derived key of the RFC at [out_key], for any password, salt and number of iterations, and leaves
    the bytes beyond [key_len] as they are.  Without iterations it stores the key of one iteration
    and returns 0; otherwise it returns 0 only where malloc fails, and then nothing is stored.  The
    RFC refuses keys of more than 2^32 - 1 blocks, the C function goes on with a counter that wraps. *)
Theorem pbkdf2_rfc8018 malloc pctx_dup garbage (p : static_md) password salt iterations key_len out_key w :
  malloc_spec malloc -> zlen garbage = 128 ->
  piece_ok password -> piece_ok salt -> 0 <= key_len < 2 ^ 64 -> key_len <= zlen out_key ->
  let hmac := rfc2104 (standard_hash p) (EVP_MD_block_size static_deref p) in
  let dk := rfc8018_blocks hmac password salt (EVP_MD_size static_deref p) (Z.max 1 iterations) key_len in
  match PKCS5_PBKDF2_HMAC static_deref malloc pctx_dup garbage password salt iterations p key_len out_key w with
  | Ret (ok, out) w' =>
      (ok = negb (iterations =? 0) /\ out = dk ++ zdrop key_len out_key /\
       (rfc8018 hmac password salt (EVP_MD_size static_deref p) (Z.max 1 iterations) key_len = Some dk \/
        (2 ^ 32 - 1) * EVP_MD_size static_deref p < key_len) \/
       malloc_fails malloc /\ ok = false /\ out = out_key) /\ w_blocks w' = w_blocks w
  | _ => False
  end.
Proof.
  intros Hm Hg Hpw Hsalt HL HLo. cbv zeta. rewrite <- static_hash.
  change (rfc2104 (hash (static_deref p)) (EVP_MD_block_size static_deref p)) with (rfc_hmac (static_deref p)).
  pose proof (pbkdf2_run static_deref malloc pctx_dup garbage static_laws Hm Hg p password salt iterations key_len out_key w
    Hpw Hsalt HL HLo) as H.
  destruct (PKCS5_PBKDF2_HMAC _ _ _ _ _ _ _ _ _ _ _) as [[ok out] w'| | |]; try done.
  destruct H as [[[Eok Eout]|Hf] Hw]; (split; [|done]); [left|by right]. split; [done|].
  assert (Ec : rfc8018_blocks (rfc_hmac (static_deref p)) password salt (EVP_MD_size static_deref p) (Z.max 1 iterations) key_len =
               rfc8018_blocks (rfc_hmac (static_deref p)) password salt (EVP_MD_size static_deref p) iterations key_len).
  { unfold rfc8018_blocks. by replace (Z.to_nat (Z.max 1 iterations - 1)) with (Z.to_nat (iterations - 1)) by lia. }
  unfold rfc8018. rewrite Ec. split; [exact Eout|].
  destruct (Z.ltb_spec ((2 ^ 32 - 1) * EVP_MD_size static_deref p) key_len); [by right|by left].
Qed.

Lemma pbkdf2_rfc8018_witness :
  let hmac := rfc2104 (standard_hash Sha1) (EVP_MD_block_size static_deref Sha1) in
  let dk := rfc8018_blocks hmac [1; 2] [3] (EVP_MD_size static_deref Sha1) (Z.max 1 2) 2 in
  match PKCS5_PBKDF2_HMAC static_deref sample_malloc Some (replicate 128 7) [1; 2] [3] 2 Sha1 2 [0; 0; 9] (World ∅ 0) with
  | Ret (ok, out) w' =>
      (ok = negb (2 =? 0) /\ out = dk ++ zdrop 2 [0; 0; 9] /\
       (rfc8018 hmac [1; 2] [3] (EVP_MD_size static_deref Sha1) (Z.max 1 2) 2 = Some dk \/
        (2 ^ 32 - 1) * EVP_MD_size static_deref Sha1 < 2) \/
       malloc_fails sample_malloc /\ ok = false /\ out = [0; 0; 9]) /\ w_blocks w' = ∅
  | _ => False
  end.
Proof.
  apply (pbkdf2_rfc8018 sample_malloc Some (replicate 128 7) Sha1 [1; 2] [3] 2 2 [0; 0; 9] (World ∅ 0)).
  - exact sample_malloc_spec.
  - reflexivity.
  - split; [repeat constructor; unfold is_byte; lia|reflexivity].
  - split; [repeat constructor; unfold is_byte; lia|reflexivity].
  - split; [lia|reflexivity].
  - vm_compute. discriminate.
Defined.

(** The second test case of RFC 6070: "password", "salt", two iterations. *)
Example pbkdf2_case : forall n, exists w,
  PKCS5_PBKDF2_HMAC_SHA1 sample_malloc Some (replicate 128 7) [0x70; 0x61; 0x73; 0x73; 0x77; 0x6f; 0x72; 0x64]
    [0x73; 0x61; 0x6c; 0x74] 2 20 (replicate 20 0) (World ∅ n) =
  Ret (true, [0xea; 0x6c; 0x01; 0x4d; 0xc7; 0x2d; 0x6f; 0x8c; 0xcd; 0x1e; 0xd9; 0x2a; 0xce; 0x1d; 0x41; 0xf0; 0xd8; 0xde; 0x89; 0x57]) w.
Proof. intros n. eexists. vm_compute. reflexivity. Qed.
