(* ===== verification/TlsPrf.v ===== *)
(** * BoringSSL: the PRF of TLS (crypto/fipsmodule/tls/kdf.c)

    P_hash over three HMAC contexts: one with the key only, one that computes, and one
    that is copied from it on the way, to compute the next A(i). *)
From S2P Require Import Prelude OsslMem WordOps Md32 Sha1 Md5 Evp EvpSpec Hmac HmacSpec KeyBlocks.

Section tls.
Context {md_ptr : Type} `{EqDecision md_ptr} (deref : md_ptr -> EVP_MD).
Context (malloc : nat -> Z -> option (list Z)) (pctx_dup : Z -> option Z) (garbage : list Z).

Record tls_ctxs : Type := TlsCtxs {
  ctx : HMAC_CTX md_ptr;
  ctx_tmp : HMAC_CTX md_ptr;
  ctx_init : HMAC_CTX md_ptr
}.
Definition tls_state : Type := (tls_ctxs * world)%type.

Definition set_ctx (x : HMAC_CTX md_ptr) (c : tls_ctxs) : tls_ctxs := TlsCtxs x (ctx_tmp c) (ctx_init c).
Definition set_ctx_tmp (x : HMAC_CTX md_ptr) (c : tls_ctxs) : tls_ctxs := TlsCtxs (ctx c) x (ctx_init c).
Definition set_ctx_init (x : HMAC_CTX md_ptr) (c : tls_ctxs) : tls_ctxs := TlsCtxs (ctx c) (ctx_tmp c) x.

(** A call on one of the contexts. *)
Definition on_local {A} (get : tls_ctxs -> HMAC_CTX md_ptr) (set : HMAC_CTX md_ptr -> tls_ctxs -> tls_ctxs)
    (m : M (hmac_state md_ptr) A) : M tls_state A := fun s =>
  match m (get s.1, s.2) with
  | Ret a h => Ret a (set h.1 s.1, h.2)
  | Fail h => Fail (set h.1 s.1, h.2)
  | Ub => Ub
  | NoFuel => NoFuel
  end.
Definition with_ctx {A} : M (hmac_state md_ptr) A -> M tls_state A := on_local ctx set_ctx.
Definition with_tmp {A} : M (hmac_state md_ptr) A -> M tls_state A := on_local ctx_tmp set_ctx_tmp.
Definition with_init {A} : M (hmac_state md_ptr) A -> M tls_state A := on_local ctx_init set_ctx_init.
Definition get_ctxs : M tls_state tls_ctxs := fun s => Ret s.1 s.

Definition HMAC_CTX_copy_from (get : tls_ctxs -> HMAC_CTX md_ptr)
    (to : M (hmac_state md_ptr) unit -> M tls_state unit) : M tls_state unit :=
  let! c := get_ctxs in to (HMAC_CTX_copy_ex deref malloc pctx_dup (get c)).

(** The label, then the seed in two parts, and the end. *)
Definition update_seed (label seed1 seed2 : list Z) : M tls_state (list Z) :=
  with_ctx (HMAC_Update deref label);;!
  with_ctx (HMAC_Update deref seed1);;!
  with_ctx (HMAC_Update deref seed2);;!
  with_ctx (HMAC_Final deref malloc pctx_dup true).

(** The endless loop; [off] is what [out] has been advanced by.  The result is [ret] and
    the bytes at [out]. *)
Fixpoint tls1_P_hash_loop (fuel : nat) (chunk : Z) (label seed1 seed2 A1 out : list Z) (off out_len : Z)
    : M tls_state (bool * list Z) :=
  match fuel with
  | O => nofuelm
  | S fuel =>
      let! r := tryb (
        HMAC_CTX_copy_from ctx_init with_ctx;;!
        with_ctx (HMAC_Update deref A1);;!
        (if chunk <? out_len then HMAC_CTX_copy_from ctx with_tmp else ret tt);;!
        update_seed label seed1 seed2) in
      match r with
      | None => ret (false, out)
      | Some hmac =>
          let len := if out_len <? zlen hmac then u32 out_len else zlen hmac in
          let! out := of_opt (xor_bytes out off hmac len) in
          let off := off + len in
          let out_len := u64 (out_len - len) in
          if out_len =? 0 then ret (true, out)
          else
            let! r := tryb (with_tmp (HMAC_Final deref malloc pctx_dup true)) in
            match r with
            | None => ret (false, out)
            | Some A1 => tls1_P_hash_loop fuel chunk label seed1 seed2 A1 out off out_len
            end
      end
  end.

Definition null_ctxs : tls_ctxs := TlsCtxs null_hmac null_hmac null_hmac.

(** The C result and the bytes at [out]. *)
Definition tls1_P_hash_body (out : list Z) (out_len : Z) (md : md_ptr) (secret label seed1 seed2 : list Z)
    : M tls_state (bool * list Z) :=
  with_ctx HMAC_CTX_init;;!
  with_tmp HMAC_CTX_init;;!
  with_init HMAC_CTX_init;;!
  let! r := tryb (
    with_init (HMAC_Init_ex deref malloc pctx_dup garbage (Some secret) (Some md));;!
    HMAC_CTX_copy_from ctx_init with_ctx;;!
    update_seed label seed1 seed2) in
  let! res :=
    match r with
    | None => ret (false, out)
    | Some A1 =>
        tls1_P_hash_loop (Z.to_nat out_len) (EVP_MD_size deref md) label seed1 seed2 A1 out 0 out_len
    end in
  with_ctx HMAC_CTX_cleanup;;!
  with_tmp HMAC_CTX_cleanup;;!
  with_init HMAC_CTX_cleanup;;!
  ret res.

Definition tls1_P_hash (out : list Z) (out_len : Z) (md : md_ptr) (secret label seed1 seed2 : list Z) (w : world)
    : Prelude.out world (bool * list Z) :=
  match tls1_P_hash_body out out_len md secret label seed1 seed2 (null_ctxs, w) with
  | Ret r s => Ret r s.2
  | Fail s => Fail s.2
  | Ub => Ub
  | NoFuel => NoFuel
  end.

End tls.
Arguments tls_ctxs : clear implicits.
Arguments tls_state : clear implicits.

(** The digest is one of the static objects. *)
Definition CRYPTO_tls1_prf malloc pctx_dup garbage (digest : static_md) (out : list Z) (out_len : Z)
    (secret label seed1 seed2 : list Z) (w : world) : Prelude.out world (bool * list Z) :=
  if out_len =? 0 then Ret (true, out) w
  else
    match OPENSSL_memset out 0 0 out_len with
    | None => Ub
    | Some out =>
        if bool_decide (digest = Md5Sha1) then
          let secret_len := zlen secret in
          let secret_half := secret_len - secret_len / 2 in
          match tls1_P_hash static_deref malloc pctx_dup garbage out out_len Md5 (ztake secret_half secret) label seed1 seed2 w with
          | Ret (true, out) w =>
              tls1_P_hash static_deref malloc pctx_dup garbage out out_len Sha1
                (ztake secret_half (zdrop (secret_len - secret_half) secret)) label seed1 seed2 w
          | r => r
          end
        else tls1_P_hash static_deref malloc pctx_dup garbage out out_len digest secret label seed1 seed2 w
    end.

(** ** RFC 5246, section 5, and RFC 2246, section 5 *)

Section rfc.
Context (hmac : list Z -> list Z -> list Z) (secret seed : list Z).

Fixpoint rfc5246_A (i : nat) : list Z :=
  match i with
  | O => seed
  | S i => hmac secret (rfc5246_A i)
  end.

(** The first [L] bytes of P_hash with blocks of [hash_len] bytes. *)
Definition rfc5246_P_hash (hash_len L : Z) : list Z :=
  ztake L (concat (map (fun i => hmac secret (rfc5246_A i ++ seed)) (seq 1 (Z.to_nat ((L + hash_len - 1) / hash_len))))).

End rfc.

(** The PRF of TLS 1.2 with the hash function of a cipher suite, and that of the versions
    before it, where the halves of the secret share a byte if their number is odd. *)
Definition rfc5246_PRF (hmac : list Z -> list Z -> list Z) (hash_len : Z) (secret label seed : list Z) (L : Z) : list Z :=
  rfc5246_P_hash hmac secret (label ++ seed) hash_len L.
Definition rfc2246_PRF (hmac_md5 hmac_sha1 : list Z -> list Z -> list Z) (secret label seed : list Z) (L : Z) : list Z :=
  let half := (zlen secret + 1) / 2 in
  zip_with Z.lxor (rfc5246_P_hash hmac_md5 (ztake half secret) (label ++ seed) 16 L)
                  (rfc5246_P_hash hmac_sha1 (zdrop (zlen secret - half) secret) (label ++ seed) 20 L).


(** * BoringSSL: the PRF of TLS is that of RFC 5246 and RFC 2246 *)

Section tls.
Context {md_ptr : Type} `{EqDecision md_ptr} (deref : md_ptr -> EVP_MD).
Context (malloc : nat -> Z -> option (list Z)) (pctx_dup : Z -> option Z) (garbage : list Z).
Context (laws : forall p, Digest (deref p)) (Hmalloc : malloc_spec malloc) (Hgarbage : zlen garbage = 128).

#[local] Existing Instance laws.

Abbreviation blocks := (gmap nat md_object).
Abbreviation pred := (@hmac_contents md_ptr -> Prop).
Abbreviation owns_hmac := (owns_hmac deref laws).
Abbreviation holding := (holding deref laws).
Abbreviation with_msg := (with_msg deref laws).
Abbreviation with_key := (with_key deref laws).

(** Three contexts with blocks apart from one another and from the frame [F]. *)
Definition at_tls (P1 P2 P3 : pred) (F : blocks) (s : tls_state md_ptr) : Prop :=
  exists x1 x2 x3 b1 b2 b3, (P1 x1 /\ P2 x2 /\ P3 x3) /\
    owns_hmac (ctx s.1) x1 b1 /\ owns_hmac (ctx_tmp s.1) x2 b2 /\ owns_hmac (ctx_init s.1) x3 b3 /\
    b1 ##ₘ b2 /\ b1 ##ₘ b3 /\ b2 ##ₘ b3 /\ b1 ##ₘ F /\ b2 ##ₘ F /\ b3 ##ₘ F /\
    w_blocks s.2 = b1 ∪ (b2 ∪ (b3 ∪ F)).

Lemma at_tls_mono (P1 P2 P3 Q1 Q2 Q3 : pred) F s : (forall x, P1 x -> Q1 x) -> (forall x, P2 x -> Q2 x) ->
  (forall x, P3 x -> Q3 x) -> at_tls P1 P2 P3 F s -> at_tls Q1 Q2 Q3 F s.
Proof.
  intros H1 H2 H3 (x1 & x2 & x3 & b1 & b2 & b3 & (? & ? & ?) & Hr). exists x1, x2, x3, b1, b2, b3. split; [|exact Hr]. auto.
Qed.

Ltac disjoint_blocks := repeat (rewrite ?map_disjoint_union_l, ?map_disjoint_union_r in *; destruct_and?; split_and?);
  eauto using map_disjoint_sym.

(** Calls on one context, with the others in the frame. *)
Lemma with_ctx_rule {A} (m : M (hmac_state md_ptr) A) P1 P2 P3 Q E F (s : tls_state md_ptr) :
  at_tls P1 P2 P3 F s ->
  (forall x3 b2 b3, P3 x3 -> owns_hmac (ctx_init s.1) x3 b3 -> b3 ⊆ b2 ∪ (b3 ∪ F) ->
     hoare (holding P1 (b2 ∪ (b3 ∪ F))) m (fun a => holding (Q a) (b2 ∪ (b3 ∪ F))) (holding E (b2 ∪ (b3 ∪ F)))) ->
  match with_ctx m s with
  | Ret a s' => at_tls (Q a) P2 P3 F s'
  | Fail s' => at_tls E P2 P3 F s'
  | _ => False
  end.
Proof.
  destruct s as [c w]. intros (x1 & x2 & x3 & b1 & b2 & b3 & (H1 & H2 & H3) & O1 & O2 & O3 & D1 & D2 & D3 & D4 & D5 & D6 & Ew) Hm.
  cbn [fst snd] in *.
  assert (Hat : holding P1 (b2 ∪ (b3 ∪ F)) (ctx c, w)).
  { apply holding_owns. exists x1, b1. split_and!; disjoint_blocks. }
  assert (Hsub : b3 ⊆ b2 ∪ (b3 ∪ F)).
  { etrans; [apply (map_union_subseteq_l b3 F)|]. apply map_union_subseteq_r. disjoint_blocks. }
  specialize (Hm x3 b2 b3 H3 O3 Hsub _ Hat). unfold with_ctx, on_local. cbn [fst snd].
  destruct (m (ctx c, w)) as [a [c' w']|[c' w']| |]; try done; apply holding_owns in Hm as (x & b & HQ & Ob & Db & Eb);
    exists x, x2, x3, b, b2, b3; cbn [fst snd] in *; split_and!; disjoint_blocks.
Qed.

Lemma with_tmp_rule {A} (m : M (hmac_state md_ptr) A) P1 P2 P3 Q E F (s : tls_state md_ptr) :
  at_tls P1 P2 P3 F s ->
  (forall x1 b1 b3, P1 x1 -> owns_hmac (ctx s.1) x1 b1 -> b1 ⊆ b1 ∪ (b3 ∪ F) ->
     hoare (holding P2 (b1 ∪ (b3 ∪ F))) m (fun a => holding (Q a) (b1 ∪ (b3 ∪ F))) (holding E (b1 ∪ (b3 ∪ F)))) ->
  match with_tmp m s with
  | Ret a s' => at_tls P1 (Q a) P3 F s'
  | Fail s' => at_tls P1 E P3 F s'
  | _ => False
  end.
Proof.
  destruct s as [c w]. intros (x1 & x2 & x3 & b1 & b2 & b3 & (H1 & H2 & H3) & O1 & O2 & O3 & D1 & D2 & D3 & D4 & D5 & D6 & Ew) Hm.
  cbn [fst snd] in *. rewrite union_swap in Ew by done.
  assert (Hat : holding P2 (b1 ∪ (b3 ∪ F)) (ctx_tmp c, w)).
  { apply holding_owns. exists x2, b2. split_and!; disjoint_blocks. }
  specialize (Hm x1 b1 b3 H1 O1 (map_union_subseteq_l _ _) _ Hat). unfold with_tmp, on_local. cbn [fst snd].
  destruct (m (ctx_tmp c, w)) as [a [c' w']|[c' w']| |]; try done; apply holding_owns in Hm as (x & b & HQ & Ob & Db & Eb);
    exists x1, x, x3, b1, b, b3; cbn [fst snd] in *; rewrite (union_swap b1 b) by disjoint_blocks; split_and!; disjoint_blocks.
Qed.

Lemma with_init_rule {A} (m : M (hmac_state md_ptr) A) P1 P2 P3 Q E F (s : tls_state md_ptr) :
  at_tls P1 P2 P3 F s ->
  (forall b1 b2, hoare (holding P3 (b1 ∪ (b2 ∪ F))) m (fun a => holding (Q a) (b1 ∪ (b2 ∪ F))) (holding E (b1 ∪ (b2 ∪ F)))) ->
  match with_init m s with
  | Ret a s' => at_tls P1 P2 (Q a) F s'
  | Fail s' => at_tls P1 P2 E F s'
  | _ => False
  end.
Proof.
  destruct s as [c w]. intros (x1 & x2 & x3 & b1 & b2 & b3 & (H1 & H2 & H3) & O1 & O2 & O3 & D1 & D2 & D3 & D4 & D5 & D6 & Ew) Hm.
  cbn [fst snd] in *. rewrite (union_swap b2 b3), (union_swap b1 b3) in Ew by done.
  assert (Hat : holding P3 (b1 ∪ (b2 ∪ F)) (ctx_init c, w)).
  { apply holding_owns. exists x3, b3. split_and!; disjoint_blocks. }
  specialize (Hm b1 b2 _ Hat). unfold with_init, on_local. cbn [fst snd].
  destruct (m (ctx_init c, w)) as [a [c' w']|[c' w']| |]; try done; apply holding_owns in Hm as (x & b & HQ & Ob & Db & Eb);
    exists x1, x2, x, b1, b2, b; cbn [fst snd] in *; rewrite (union_swap b2 b), (union_swap b1 b) by disjoint_blocks; split_and!; disjoint_blocks.
Qed.

(** ** The calls *)

Abbreviation any := (@any md_ptr).

(** A failed call, which malloc made fail. *)
Definition failed (F : blocks) (s : tls_state md_ptr) : Prop := malloc_fails malloc /\ at_tls any any any F s.

Lemma at_any P1 P2 P3 F s : at_tls P1 P2 P3 F s -> at_tls any any any F s.
Proof. by apply at_tls_mono. Qed.

Lemma update_ctx p key msg data P2 P3 F : piece_ok data ->
  hoare (at_tls (with_msg p key msg) P2 P3 F) (with_ctx (HMAC_Update deref data))
    (fun _ => at_tls (with_msg p key (msg ++ data)) P2 P3 F) (fun _ => False).
Proof.
  intros [Hd Hl] s Hs.
  pose proof (with_ctx_rule (HMAC_Update deref data) _ P2 P3 (fun _ => with_msg p key (msg ++ data)) (fun _ => False) F s Hs) as H.
  ospecialize* H; [intros x3 b2 b3 _ _ _|destruct (with_ctx _ s); try done; by destruct H as (? & ? & ? & ? & ? & ? & ([] & _) & _)].
  eapply hoare_cons; [by apply (update_hoare deref laws p key msg data)| | |done].
  - intros t. apply has_holding.
  - intros u t. apply has_holding.
Qed.

Lemma final_any p key msg F : bytes_ok key ->
  hoare (holding (with_msg p key msg) F) (HMAC_Final deref malloc pctx_dup true)
    (fun d => holding (fun x => d = rfc_hmac (deref p) key msg) F) (holding (fun _ => False) F).
Proof using Hmalloc.
  intros Hk. eapply hoare_cons; [by apply (final_hoare deref malloc pctx_dup laws Hmalloc p key msg)| | |done].
  - intros t. apply has_holding.
  - intros d t [-> Ht]. apply keyed_holding in Ht as (x & _ & Hx). by exists x.
Qed.

Lemma final_ctx p key msg P2 P3 F : bytes_ok key ->
  hoare (at_tls (with_msg p key msg) P2 P3 F) (with_ctx (HMAC_Final deref malloc pctx_dup true))
    (fun d s => d = rfc_hmac (deref p) key msg /\ at_tls any P2 P3 F s) (fun _ => False).
Proof using Hmalloc.
  intros Hk s Hs.
  pose proof (with_ctx_rule _ _ P2 P3 _ _ F s Hs (fun x3 b2 b3 _ _ _ => final_any p key msg _ Hk)) as H.
  destruct (with_ctx _ s) as [d t|t| |]; try done.
  - split; [by destruct H as (? & ? & ? & ? & ? & ? & (H & _) & _)|]. by eapply at_tls_mono, H.
  - by destruct H as (? & ? & ? & ? & ? & ? & ([] & _) & _).
Qed.

Lemma final_tmp p key msg P1 P3 F : bytes_ok key ->
  hoare (at_tls P1 (with_msg p key msg) P3 F) (with_tmp (HMAC_Final deref malloc pctx_dup true))
    (fun d s => d = rfc_hmac (deref p) key msg /\ at_tls P1 any P3 F s) (fun _ => False).
Proof using Hmalloc.
  intros Hk s Hs.
  pose proof (with_tmp_rule _ P1 _ P3 _ _ F s Hs (fun x1 b1 b3 _ _ _ => final_any p key msg _ Hk)) as H.
  destruct (with_tmp _ s) as [d t|t| |]; try done.
  - split; [by destruct H as (? & ? & ? & ? & ? & ? & (_ & H & _) & _)|]. by eapply at_tls_mono, H.
  - by destruct H as (? & ? & ? & ? & ? & ? & (_ & [] & _) & _).
Qed.

Lemma start_init p key P1 P2 P3 F : bytes_ok key -> zlen key < 2 ^ 64 ->
  hoare (at_tls P1 P2 P3 F) (with_init (HMAC_Init_ex deref malloc pctx_dup garbage (Some key) (Some p)))
    (fun _ => at_tls P1 P2 (with_msg p key []) F) (failed F).
Proof using Hmalloc Hgarbage.
  intros Hk Hl s Hs.
  pose proof (with_init_rule (HMAC_Init_ex deref malloc pctx_dup garbage (Some key) (Some p)) P1 P2 P3
    (fun _ => with_msg p key []) (fun _ => malloc_fails malloc) F s Hs) as H.
  ospecialize* H; [intros b1 b2|destruct (with_init _ s) as [u t|t| |]; try done].
  - apply hoare_ex. intros x. apply hoare_pre. intros _.
    eapply hoare_cons; [by apply (key_rule deref malloc pctx_dup garbage laws Hmalloc Hgarbage p (Some key) (Some p)
      (hc_md x) (hc_m x) (hc_i x) (hc_o x) (b1 ∪ (b2 ∪ F))); [..|right]|done| |].
    + intros u t. apply has_holding.
    + intros t [Hf Ht]. apply some_holding in Ht as (y & _ & Hy). by exists y.
  - split; [by destruct H as (? & ? & ? & ? & ? & ? & (_ & _ & H) & _)|by eapply at_any].
Qed.

Lemma copy_init p key msg P1 P2 F :
  hoare (at_tls P1 P2 (with_msg p key msg) F) (HMAC_CTX_copy_from deref malloc pctx_dup ctx_init with_ctx)
    (fun _ => at_tls (with_msg p key msg) P2 (with_msg p key msg) F) (failed F).
Proof using Hmalloc.
  intros s Hs. unfold HMAC_CTX_copy_from, bind, get_ctxs.
  pose proof (with_ctx_rule (HMAC_CTX_copy_ex deref malloc pctx_dup (ctx_init s.1)) P1 P2 _
    (fun _ => with_msg p key msg) (fun _ => malloc_fails malloc) F s Hs) as H.
  ospecialize* H; [intros x3 b2 b3 Hx Ho Hb|destruct (with_ctx _ s) as [u t|t| |]; try done].
  - eapply hoare_cons; [by apply (copy_ex_hoare deref malloc pctx_dup laws Hmalloc _ x3 b3 p key msg P1)|done|done|].
    intros t [Hf (y & _ & Hy)]. by exists y.
  - split; [by destruct H as (? & ? & ? & ? & ? & ? & (H & _) & _)|by eapply at_any].
Qed.

Lemma copy_tmp p key msg P2 P3 F :
  hoare (at_tls (with_msg p key msg) P2 P3 F) (HMAC_CTX_copy_from deref malloc pctx_dup ctx with_tmp)
    (fun _ => at_tls (with_msg p key msg) (with_msg p key msg) P3 F) (failed F).
Proof using Hmalloc.
  intros s Hs. unfold HMAC_CTX_copy_from, bind, get_ctxs.
  pose proof (with_tmp_rule (HMAC_CTX_copy_ex deref malloc pctx_dup (ctx s.1)) _ P2 P3
    (fun _ => with_msg p key msg) (fun _ => malloc_fails malloc) F s Hs) as H.
  ospecialize* H; [intros x1 b1 b3 Hx Ho Hb|destruct (with_tmp _ s) as [u t|t| |]; try done].
  - eapply hoare_cons; [by apply (copy_ex_hoare deref malloc pctx_dup laws Hmalloc _ x1 b1 p key msg P2)|done|done|].
    intros t [Hf (y & _ & Hy)]. by exists y.
  - split; [by destruct H as (? & ? & ? & ? & ? & ? & (_ & H & _) & _)|by eapply at_any].
Qed.

Lemma seed_hoare p key msg label seed1 seed2 P2 P3 F : bytes_ok key ->
  piece_ok label -> piece_ok seed1 -> piece_ok seed2 ->
  hoare (at_tls (with_msg p key msg) P2 P3 F) (update_seed deref malloc pctx_dup label seed1 seed2)
    (fun d s => d = rfc_hmac (deref p) key (msg ++ label ++ seed1 ++ seed2) /\ at_tls any P2 P3 F s) (fun _ => False).
Proof using Hmalloc.
  intros Hk H1 H2 H3. eapply hoare_bind; [by apply update_ctx|]. intros [].
  eapply hoare_bind; [by apply update_ctx|]. intros []. eapply hoare_bind; [by apply update_ctx|]. intros [].
  rewrite <- !app_assoc. by apply final_ctx.
Qed.

(** The contexts are empty before and after. *)
Definition is_null (x : @hmac_contents md_ptr) : Prop := x = HmacContents None None None None.

Lemma cleanup_any G : hoare (holding any G) (@HMAC_CTX_cleanup md_ptr) (fun _ => holding is_null G) (holding (fun _ => False) G).
Proof.
  eapply hoare_cons; [apply (cleanup_hoare deref laws G)|intros t; apply some_holding| |done].
  intros u [c w] [Hc Hw]. cbn in Hc, Hw. subst c. exists (HmacContents None None None None). split; [done|].
  by apply at_null.
Qed.

Lemma cleanup_all F : hoare (at_tls any any any F)
  (with_ctx HMAC_CTX_cleanup;;! with_tmp HMAC_CTX_cleanup;;! with_init HMAC_CTX_cleanup)
  (fun _ s => w_blocks s.2 = F) (fun _ => False).
Proof.
  eapply (hoare_bind _ _ _ (fun _ => at_tls is_null any any F)).
  { intros s Hs. pose proof (with_ctx_rule _ any any any _ _ F s Hs (fun x3 b2 b3 _ _ _ => cleanup_any _)) as H.
    destruct (with_ctx _ s); try done. by destruct H as (? & ? & ? & ? & ? & ? & ([] & _) & _). }
  intros []. eapply (hoare_bind _ _ _ (fun _ => at_tls is_null is_null any F)).
  { intros s Hs. pose proof (with_tmp_rule _ is_null any any _ _ F s Hs (fun x3 b2 b3 _ _ _ => cleanup_any _)) as H.
    destruct (with_tmp _ s); try done. by destruct H as (? & ? & ? & ? & ? & ? & (_ & [] & _) & _). }
  intros [] s Hs. pose proof (with_init_rule _ is_null is_null any _ _ F s Hs (fun b1 b2 => cleanup_any _)) as H.
  destruct (with_init _ s) as [u t|t| |]; try done; [|by destruct H as (? & ? & ? & ? & ? & ? & (_ & _ & []) & _)].
  destruct H as (x1 & x2 & x3 & b1 & b2 & b3 & (-> & -> & ->) & O1 & O2 & O3 & _ & _ & _ & _ & _ & _ & Ew).
  assert (Hnull : forall c b, owns_hmac c (HmacContents None None None None) b -> b = ∅).
  { intros c b (_ & bm & bi & bo & [_ ->] & [_ ->] & [_ ->] & _ & _ & _ & ->). by rewrite !(left_id_L ∅ (∪)). }
  rewrite (Hnull _ _ O1), (Hnull _ _ O2), (Hnull _ _ O3) in Ew. by rewrite Ew, !(left_id_L ∅ (∪)).
Qed.

(** ** P_hash *)

Section blocks.
Context (p : md_ptr) (secret label seed1 seed2 : list Z) (F : blocks).
Context (Hsecret : bytes_ok secret) (Hlabel : piece_ok label) (Hseed1 : piece_ok seed1) (Hseed2 : piece_ok seed2).

Abbreviation len := (md_size (deref p)).
Abbreviation seed := (label ++ seed1 ++ seed2).
Abbreviation A := (rfc5246_A (rfc_hmac (deref p)) secret seed).

Definition P_block (i : nat) : list Z := rfc_hmac (deref p) secret (A i ++ seed).

Lemma seed_ok : bytes_ok seed.
Proof using Hlabel Hseed1 Hseed2.
  apply Forall_app. split; [apply Hlabel|]. apply Forall_app. split; [apply Hseed1|apply Hseed2].
Qed.

Lemma A_ok i : bytes_ok (A i) /\ zlen (A (S i)) = len.
Proof using Hsecret Hlabel Hseed1 Hseed2.
  assert (H : forall i, bytes_ok (A i)).
  { intros k. induction k as [|k IH]; [exact seed_ok|]. by apply rfc_hmac_ok. }
  split; [apply H|]. by apply rfc_hmac_ok.
Qed.

Lemma P_size i : zlen (P_block i) = len.
Proof using Hsecret Hlabel Hseed1 Hseed2.
  apply rfc_hmac_ok; [done|]. apply Forall_app. split; [apply A_ok|apply seed_ok].
Qed.

(** One round, up to the block: the next A(i) can be computed if it is needed. *)
Lemma round_hoare n more :
  hoare (at_tls any any (with_msg p secret []) F)
    (HMAC_CTX_copy_from deref malloc pctx_dup ctx_init with_ctx;;!
     with_ctx (HMAC_Update deref (A (S n)));;!
     (if more : bool then HMAC_CTX_copy_from deref malloc pctx_dup ctx with_tmp else ret tt);;!
     update_seed deref malloc pctx_dup label seed1 seed2)
    (fun d s => d = P_block (S n) /\
       at_tls any (if more then with_msg p secret (A (S n)) else any) (with_msg p secret []) F s)
    (failed F).
Proof using Hmalloc Hsecret Hlabel Hseed1 Hseed2.
  eapply hoare_bind; [apply copy_init|]. intros [].
  eapply hoare_bind.
  { apply hoare_weaken, (update_ctx p secret []). split; [apply A_ok|]. rewrite (proj2 (A_ok n)).
    destruct (sizes_ok (md:=deref p)) as (Hs & _). change (2 ^ 64) with 18446744073709551616. lia. }
  intros []. cbn [app].
  eapply (hoare_bind _ _ _ (fun _ => at_tls (with_msg p secret (A (S n)))
    (if more then with_msg p secret (A (S n)) else any) (with_msg p secret []) F)).
  { destruct more; [apply copy_tmp|by apply hoare_ret]. }
  intros []. by apply hoare_weaken, seed_hoare.
Qed.

Context (out0 : list Z) (L : Z) (HL : L <= zlen out0) (HL64 : 0 <= L < 2 ^ 64).

(** The block of the output: that of P_hash over what the buffer had. *)
Definition X_block (i : nat) : list Z :=
  zip_with Z.lxor (ztake len (zdrop ((Z.of_nat i - 1) * len) (out0 ++ replicate 64 0))) (P_block i).

Lemma pad_size : zlen (out0 ++ replicate 64 0) = zlen out0 + 64.
Proof. rewrite zlen_app. unfold zlen at 2. by rewrite length_replicate. Qed.

Lemma X_size n : Z.of_nat n * len < L -> zlen (X_block (S n)) = len.
Proof using Hsecret Hlabel Hseed1 Hseed2 HL.
  intros Hn. destruct (sizes_ok (md:=deref p)) as (Hs & _). unfold X_block.
  replace (Z.of_nat (S n) - 1) with (Z.of_nat n) by lia.
  assert (0 <= Z.of_nat n * len) by nia.
  assert (E : zlen (ztake len (zdrop (Z.of_nat n * len) (out0 ++ replicate 64 0))) = len).
  { apply zlen_ztake. rewrite zlen_zdrop; rewrite pad_size; lia. }
  pose proof (P_size (S n)) as E2. unfold zlen in E, E2 |- *. rewrite length_zip_with. lia.
Qed.

(** The XOR of a block, the last one cut. *)
Lemma xor_step n : Z.of_nat n * len < L ->
  xor_bytes (okm_prefix X_block len L out0 n) (Z.of_nat n * len) (P_block (S n)) (Z.min len (L - Z.of_nat n * len)) =
  Some (okm_prefix X_block len L out0 (S n)).
Proof using Hsecret Hlabel Hseed1 Hseed2 HL.
  intros Hn. destruct (sizes_ok (md:=deref p)) as (Hs & _).
  assert (HX : forall i, (i <= n)%nat -> zlen (X_block (S i)) = len) by (intros; apply X_size; nia).
  destruct (okm_prefix_open X_block len L out0 n HX ltac:(lia) Hn HL) as (old & rest & E1 & Hk & Ho & Eold & E2).
  assert (0 <= Z.of_nat n * len) by nia.
  rewrite E1, E2, xor_bytes_app; [|done|done|rewrite P_size; lia]. do 3 f_equal.
  unfold X_block. replace (Z.of_nat (S n) - 1) with (Z.of_nat n) by lia. rewrite ztake_zip_with. f_equal.
  rewrite Eold. unfold ztake, zdrop. rewrite take_take, drop_app_le by (unfold zlen in HL; lia).
  rewrite Nat.min_l by lia. rewrite take_app_le; [done|]. rewrite length_drop. unfold zlen in HL. lia.
Qed.

(** All blocks together. *)
Lemma X_concat n : (Z.of_nat n - 1) * len < L \/ n = 0%nat ->
  okm X_block n = zip_with Z.lxor (ztake (Z.of_nat n * len) (out0 ++ replicate 64 0)) (okm P_block n).
Proof using Hsecret Hlabel Hseed1 Hseed2 HL.
  destruct (sizes_ok (md:=deref p)) as (Hs & _).
  induction n as [|n IH]; intros Hn; [done|]. rewrite !okm_S, IH by nia. unfold X_block.
  replace (Z.of_nat (S n) - 1) with (Z.of_nat n) by lia.
  assert (0 <= Z.of_nat n * len) by nia.
  assert (E : ztake (Z.of_nat (S n) * len) (out0 ++ replicate 64 0) =
    ztake (Z.of_nat n * len) (out0 ++ replicate 64 0) ++ ztake len (zdrop (Z.of_nat n * len) (out0 ++ replicate 64 0))).
  { unfold ztake, zdrop. rewrite take_take_drop. f_equal. lia. }
  rewrite E, zip_with_app; [done|].
  pose proof (zlen_okm P_block len n (fun i _ => P_size (S i))) as Ek.
  assert (Et : zlen (ztake (Z.of_nat n * len) (out0 ++ replicate 64 0)) = Z.of_nat n * len).
  { apply zlen_ztake. rewrite pad_size. nia. }
  unfold zlen in Ek, Et. lia.
Qed.

(** The loop from the block [S n] on: the whole output, or a failure of malloc. *)
Definition P_result (N : nat) (r : bool * list Z) : Prop :=
  r = (true, ztake L (okm X_block N) ++ zdrop L out0) \/ malloc_fails malloc /\ r.1 = false.

Lemma loop_hoare N fuel n : L <= Z.of_nat N * len -> (Z.of_nat N - 1) * len < L -> Z.of_nat n * len < L ->
  L - Z.of_nat n * len <= Z.of_nat fuel ->
  hoare (at_tls any any (with_msg p secret []) F)
    (tls1_P_hash_loop deref malloc pctx_dup fuel len label seed1 seed2 (A (S n))
       (okm_prefix X_block len L out0 n) (Z.of_nat n * len) (L - Z.of_nat n * len))
    (fun r s => P_result N r /\ at_tls any any any F s) (fun _ => False).
Proof using Hmalloc Hsecret Hlabel Hseed1 Hseed2 HL HL64.
  destruct (sizes_ok (md:=deref p)) as (Hs & _). intros HN1 HN2. revert n.
  induction fuel as [|fuel IH]; intros n Hn Hfuel; [lia|]. cbn [tls1_P_hash_loop].
  eapply hoare_bind; [eapply hoare_try, (round_hoare n)|].
  intros [d|]; cbn beta iota; [|apply hoare_ret; intros s [Hf Hs']; split; [by right|done]].
  apply hoare_pre. intros ->. cbv zeta.
  assert (0 <= Z.of_nat n * len) by nia.
  assert (Elen : (if L - Z.of_nat n * len <? zlen (P_block (S n)) then u32 (L - Z.of_nat n * len) else zlen (P_block (S n))) =
                 Z.min len (L - Z.of_nat n * len)).
  { rewrite P_size. destruct (Z.ltb_spec (L - Z.of_nat n * len) len); [|lia].
    rewrite wrap_small by (change (2 ^ 32) with 4294967296; lia). lia. }
  rewrite Elen. apply (hoare_bind _ _ _ (fun out s => out = okm_prefix X_block len L out0 (S n) /\
    at_tls any (if len <? L - Z.of_nat n * len then with_msg p secret (A (S n)) else any) (with_msg p secret []) F s)).
  { rewrite xor_step by done. by apply hoare_ret. }
  intros out. apply hoare_pre. intros ->.
  rewrite (wrap_small 64) by (change (2 ^ 64) with 18446744073709551616 in *; lia).
  destruct (Z.eqb_spec (L - Z.of_nat n * len - Z.min len (L - Z.of_nat n * len)) 0) as [Hend|Hmore].
  - apply hoare_ret. intros s Hs'. split; [|by eapply at_any]. left.
    assert (S n = N) as <- by nia. by rewrite okm_prefix_full by lia.
  - bool_true (len <? L - Z.of_nat n * len).
    eapply hoare_bind; [eapply hoare_try; by apply (final_tmp p secret)|].
    intros [d|]; [|by intros s []]. apply hoare_pre. intros ->. cbn beta iota.
    replace (Z.of_nat n * len + Z.min len (L - Z.of_nat n * len)) with (Z.of_nat (S n) * len) by lia.
    replace (L - Z.of_nat n * len - Z.min len (L - Z.of_nat n * len)) with (L - Z.of_nat (S n) * len) by lia.
    apply (IH (S n)); lia.
Qed.

End blocks.

Lemma P_hash_run p secret label seed1 seed2 out0 L w :
  piece_ok secret -> piece_ok label -> piece_ok seed1 -> piece_ok seed2 -> 0 < L < 2 ^ 64 -> L <= zlen out0 ->
  match tls1_P_hash deref malloc pctx_dup garbage out0 L p secret label seed1 seed2 w with
  | Ret (true, out) w' =>
      out = zip_with Z.lxor (ztake L out0)
              (rfc5246_P_hash (rfc_hmac (deref p)) secret (label ++ seed1 ++ seed2) (md_size (deref p)) L) ++ zdrop L out0 /\
      w_blocks w' = w_blocks w
  | Ret (false, _) w' => malloc_fails malloc /\ w_blocks w' = w_blocks w
  | _ => False
  end.
Proof using laws Hmalloc Hgarbage.
  intros [Hsec Hsecl] Hlab Hs1 Hs2 HL HLo. destruct (sizes_ok (md:=deref p)) as (Hs & _).
  destruct (ceil_div L (md_size (deref p)) ltac:(lia) ltac:(lia)) as (Hn1 & Hn2 & Hn3).
  set (n := (L + md_size (deref p) - 1) / md_size (deref p)) in *.
  set (F := w_blocks w).
  assert (H : hoare (fun s => s = (null_ctxs, w)) (tls1_P_hash_body deref malloc pctx_dup garbage out0 L p secret label seed1 seed2)
    (fun r s => P_result p secret label seed1 seed2 out0 L (Z.to_nat n) r /\ w_blocks s.2 = F) (fun _ => False)).
  { assert (Hnull : at_tls any any any F (null_ctxs, w)).
    { pose proof (at_null deref laws F w eq_refl) as Hz.
      assert (Hh : holding (fun x => x = HmacContents None None None None) F (null_hmac, w)) by (by eexists).
      apply holding_owns in Hh as (x & b & -> & Ob & _ & _).
      assert (b = ∅) as ->.
      { destruct Ob as (_ & bm & bi & bo & [_ ->] & [_ ->] & [_ ->] & _ & _ & _ & ->). by rewrite !(left_id_L ∅ (∪)). }
      eexists _, _, _, ∅, ∅, ∅. split; [done|]. split; [exact Ob|]. split; [exact Ob|]. split; [exact Ob|].
      repeat (split; [apply map_disjoint_empty_l|]). by rewrite !(left_id_L ∅ (∪)). }
    unfold tls1_P_hash_body.
    apply (hoare_bind _ _ _ (fun _ s => s = (null_ctxs, w))); [by intros s ->; destruct w|]. intros [].
    apply (hoare_bind _ _ _ (fun _ s => s = (null_ctxs, w))); [by intros s ->; destruct w|]. intros [].
    apply (hoare_bind _ _ _ (fun _ => at_tls any any any F)); [by intros s ->|]. intros [].
    eapply (hoare_bind _ _ _ (fun r s =>
      (match r with Some d => d = rfc_hmac (deref p) secret (label ++ seed1 ++ seed2) | None => malloc_fails malloc end) /\
      at_tls any any (if r is Some _ then with_msg p secret [] else any) F s)).
    { eapply hoare_cons; [eapply hoare_try|done| |intros s Hs'; exact Hs'].
      - eapply hoare_bind; [by apply start_init|]. intros []. eapply hoare_bind; [by apply copy_init|]. intros [].
        by apply hoare_weaken, seed_hoare.
      - by intros [d|] s Hs'. }
    intros r. apply hoare_pre. intros Hr.
    apply (hoare_bind _ _ _ (fun r s => P_result p secret label seed1 seed2 out0 L (Z.to_nat n) r /\ at_tls any any any F s)).
    { destruct r as [d|]; [|apply hoare_ret; intros s Hs'; split; [by right|done]]. subst d. unfold EVP_MD_size.
      pose proof (loop_hoare p secret label seed1 seed2 F Hsec Hlab Hs1 Hs2 out0 L HLo ltac:(lia) (Z.to_nat n) (Z.to_nat L) 0
        ltac:(lia) ltac:(lia) ltac:(lia) ltac:(lia)) as HR.
      rewrite okm_prefix_0 in HR by lia. rewrite Z.mul_0_l, Z.sub_0_r in HR. exact HR. }
    intros r2. apply hoare_pre. intros Hr2. intros s Hs'.
    pose proof (cleanup_all F s Hs') as Hc. revert Hc. unfold bind, ret.
    destruct (with_ctx _ s) as [u1 t1| | |]; try done. destruct (with_tmp _ t1) as [u2 t2| | |]; try done.
    by destruct (with_init _ t2) as [u3 t3| | |]. }
  unfold tls1_P_hash. specialize (H _ eq_refl). destruct (tls1_P_hash_body _ _ _ _ _ _ _ _ _ _ _ _) as [[ok out] s| | |]; try done.
  destruct H as [[[= -> ->]|[Hf Hok]] Hw]; [|cbn in Hok; subst ok; done].
  split; [|done]. f_equal. unfold rfc5246_P_hash. rewrite (X_concat p secret label seed1 seed2 Hsec Hlab Hs1 Hs2 out0 L HLo) by lia. rewrite ztake_zip_with. f_equal.
  unfold ztake. rewrite take_take, take_app_le, Nat.min_l by (unfold zlen in *; nia). done.
Qed.

End tls.

Lemma xor_zeros n l : (length l <= n)%nat -> zip_with Z.lxor (replicate n 0) l = l.
Proof.
  revert n. induction l as [|x l IH]; intros n Hn; [by destruct n|].
  destruct n as [|n]; cbn in Hn; [lia|]. cbn [replicate zip_with]. by rewrite IH, Z.lxor_0_l by lia.
Qed.

(** The hash function of a cipher suite, or MD5 and SHA-1 together. *)
Definition standard_PRF (p : static_md) (secret label seed : list Z) (L : Z) : list Z :=
  match p with
  | Md5Sha1 => rfc2246_PRF (rfc2104 rfc_md5 64) (rfc2104 fips_sha1 64) secret label seed L
  | _ => rfc5246_PRF (rfc2104 (standard_hash p) (EVP_MD_block_size static_deref p)) (EVP_MD_size static_deref p) secret label seed L
  end.

Lemma P_hash_size p secret label seed1 seed2 L :
  bytes_ok secret -> piece_ok label -> piece_ok seed1 -> piece_ok seed2 -> 0 <= L ->
  zlen (rfc5246_P_hash (rfc_hmac (static_deref p)) secret (label ++ seed1 ++ seed2) (md_size (static_deref p)) L) = L.
Proof.
  intros Hs Hl H1 H2 HL. destruct (sizes_ok (md:=static_deref p)) as (Hz & _).
  destruct (ceil_div L (md_size (static_deref p)) ltac:(lia) ltac:(lia)) as (Hn1 & Hn2 & _).
  apply zlen_ztake. split; [done|].
  pose proof (zlen_okm (P_block static_deref static_laws p secret label seed1 seed2) (md_size (static_deref p))
    (Z.to_nat ((L + md_size (static_deref p) - 1) / md_size (static_deref p)))
    (fun i _ => P_size static_deref static_laws p secret label seed1 seed2 Hs Hl H1 H2 (S i))) as E.
  unfold okm, P_block in E. rewrite E. lia.
Qed.

Lemma static_rfc2104 q : rfc_hmac (static_deref q) = rfc2104 (standard_hash q) (EVP_MD_block_size static_deref q).
Proof. rewrite <- static_hash. reflexivity. Qed.

Lemma single_PRF q secret label seed L : q <> Md5Sha1 ->
  standard_PRF q secret label seed L =
  rfc5246_P_hash (rfc_hmac (static_deref q)) secret (label ++ seed) (md_size (static_deref q)) L.
Proof. intros Hq. rewrite static_rfc2104. destruct q; try reflexivity. congruence. Qed.

Lemma double_PRF secret label seed L :
  standard_PRF Md5Sha1 secret label seed L =
  zip_with Z.lxor
    (rfc5246_P_hash (@rfc_hmac (static_deref Md5) (static_laws Md5)) (ztake (zlen secret - zlen secret / 2) secret) (label ++ seed) (md_size (static_deref Md5)) L)
    (rfc5246_P_hash (@rfc_hmac (static_deref Sha1) (static_laws Sha1))
       (ztake (zlen secret - zlen secret / 2) (zdrop (zlen secret - (zlen secret - zlen secret / 2)) secret)) (label ++ seed)
       (md_size (static_deref Sha1)) L).
Proof.
  rewrite !static_rfc2104. unfold standard_PRF, rfc2246_PRF. pose proof (zlen_nonneg secret).
  pose proof (Z.div_mod (zlen secret) 2 ltac:(lia)). pose proof (Z.mod_pos_bound (zlen secret) 2 ltac:(lia)).
  assert (E : (zlen secret + 1) / 2 = zlen secret - zlen secret / 2).
  { symmetry. apply Z.div_unique with (1 - zlen secret mod 2); lia. }
  rewrite E.
  assert (E2 : ztake (zlen secret - zlen secret / 2) (zdrop (zlen secret - (zlen secret - zlen secret / 2)) secret) =
               zdrop (zlen secret - (zlen secret - zlen secret / 2)) secret).
  { unfold ztake. apply take_ge. pose proof (zlen_zdrop (zlen secret - (zlen secret - zlen secret / 2)) secret ltac:(lia)) as Hd.
    unfold zlen in *. lia. }
  rewrite E2. reflexivity.
Qed.

(** P_hash adds its bytes to those of the buffer, which are zero at first. *)
Lemma xor_cleared X out0 L :
  zlen X = L ->
  zip_with Z.lxor (ztake L (replicate (Z.to_nat L) 0 ++ zdrop L out0)) X = X /\
  ztake L (X ++ zdrop L out0) = X /\ zdrop L (X ++ zdrop L out0) = zdrop L out0 /\ L <= zlen (X ++ zdrop L out0).
Proof.
  intros HX. unfold ztake, zdrop, zlen in *. rewrite take_app_le by (rewrite length_replicate; lia).
  rewrite take_ge by (rewrite length_replicate; lia). split; [apply xor_zeros; lia|].
  rewrite take_app_length', drop_app_length', length_app by lia. split; [done|]. split; [done|]. lia.
Qed.

(** A part of a secret is short enough to hash when the secret is. *)
Lemma piece_ok_part l n k : piece_ok l -> piece_ok (ztake k (zdrop n l)).
Proof.
  intros [Ho Hl]. split; [by apply Forall_take, Forall_drop|].
  eapply Z.le_lt_trans; [|exact Hl]. unfold ztake, zdrop, zlen. rewrite length_take, length_drop. lia.
Qed.

(** C10: The PRF of TLS is that of RFC 5246 with the hash function of the cipher suite, and that of
    RFC 2246 where the digest is MD5 and SHA-1 side by side: both halves of the secret, which share
    a byte if their number is odd, and the XOR of the two outputs.  The loop ends for every length of
    output, the last block is cut, the bytes beyond are left as they are, whether or not the next
    A(i) was computed; the call fails only where malloc does, and all contexts give back their
    blocks. *)
Theorem tls1_prf_rfc5246 malloc pctx_dup garbage (p : static_md) out0 L secret label seed1 seed2 w :
  malloc_spec malloc -> zlen garbage = 128 ->
  piece_ok secret -> piece_ok label -> piece_ok seed1 -> piece_ok seed2 -> 0 <= L < 2 ^ 64 -> L <= zlen out0 ->
  match CRYPTO_tls1_prf malloc pctx_dup garbage p out0 L secret label seed1 seed2 w with
  | Ret (true, out) w' => out = standard_PRF p secret label (seed1 ++ seed2) L ++ zdrop L out0 /\ w_blocks w' = w_blocks w
  | Ret (false, _) w' => malloc_fails malloc /\ w_blocks w' = w_blocks w
  | _ => False
  end.
Proof.
  intros Hm Hg Hsec Hlab Hs1 Hs2 HL HLo. unfold CRYPTO_tls1_prf.
  destruct (Z.eqb_spec L 0) as [->|HL0].
  { split; [|done]. by destruct p. }
  pose proof (memset_app [] (ztake L out0) (zdrop L out0) 0 0 L eq_refl ltac:(apply zlen_ztake; lia)) as E.
  cbn [app] in E. rewrite ztake_zdrop in E. rewrite E. set (out1 := replicate (Z.to_nat L) 0 ++ zdrop L out0).
  pose proof (fun X => xor_cleared X out0 L) as Hz. fold out1 in Hz.
  destruct (Hz (replicate (Z.to_nat L) 0) ltac:(unfold zlen; rewrite length_replicate; lia)) as (_ & _ & Hd1 & Hl1).
  fold out1 in Hd1, Hl1.
  pose proof (fun q sec o Hq Ho => P_hash_run static_deref malloc pctx_dup garbage static_laws Hm Hg q sec label seed1 seed2 o L w
    Hq Hlab Hs1 Hs2 ltac:(lia) Ho) as Hrun.
  assert (Hplain : forall q, standard_PRF q secret label (seed1 ++ seed2) L =
      rfc5246_P_hash (rfc_hmac (static_deref q)) secret (label ++ seed1 ++ seed2) (md_size (static_deref q)) L ->
    match tls1_P_hash static_deref malloc pctx_dup garbage out1 L q secret label seed1 seed2 w with
    | Ret (true, out) w' => out = standard_PRF q secret label (seed1 ++ seed2) L ++ zdrop L out0 /\ w_blocks w' = w_blocks w
    | Ret (false, _) w' => malloc_fails malloc /\ w_blocks w' = w_blocks w
    | _ => False
    end).
  { intros q Hq. specialize (Hrun q secret out1 Hsec Hl1).
    destruct (tls1_P_hash _ _ _ _ _ _ _ _ _ _ _ _) as [[[] out] w'| | |]; try done. destruct Hrun as [-> Hw].
    split; [|done]. rewrite Hd1, Hq. f_equal. apply Hz. apply P_hash_size; try done; [apply Hsec|lia]. }
  destruct (decide (p = Md5Sha1)) as [->|Hp].
  2: { rewrite bool_decide_false by done. apply Hplain. by apply single_PRF. }
  rewrite bool_decide_true by done. cbv zeta. rewrite double_PRF.
  set (half := zlen secret - zlen secret / 2).
  pose proof (piece_ok_part secret 0 half Hsec) as Hp1. pose proof (piece_ok_part secret (zlen secret - half) half Hsec) as Hp2.
  pose proof (Hrun Md5 (ztake half secret) out1 Hp1 Hl1) as H1.
  lazymatch goal with |- context [tls1_P_hash _ _ _ _ _ _ Md5 (ztake half secret) _ _ _ _] => idtac end.
  destruct (tls1_P_hash _ _ _ _ _ _ _ _ _ _ _ _) as [[[] out2] w1|w1| |]; [destruct H1 as [-> Hw1]|exact H1|destruct H1..].
  pose proof (P_hash_size Md5 (ztake half secret) label seed1 seed2 L (proj1 Hp1) Hlab Hs1 Hs2 (proj1 HL)) as HX1.
  revert HX1. generalize (rfc5246_P_hash (@rfc_hmac (static_deref Md5) (static_laws Md5)) (ztake half secret) (label ++ seed1 ++ seed2)
    (md_size (static_deref Md5)) L) as X1. intros X1 HX1.
  destruct (Hz X1 HX1) as (Ex1 & Ex & Ed & Hlx). rewrite Ex1, Hd1. clear Ex1.
  pose proof (P_hash_run static_deref malloc pctx_dup garbage static_laws Hm Hg Sha1 _ label seed1 seed2 (X1 ++ zdrop L out0) L w1
    Hp2 Hlab Hs1 Hs2 ltac:(lia) Hlx) as H2.
  destruct (tls1_P_hash _ _ _ _ _ _ _ _ _ _ _ _) as [[[] out2] w2|w2| |]; [destruct H2 as [H2 Hw2]|destruct H2 as [H2 Hw2]|destruct H2..].
  - rewrite Ex, Ed in H2. split; [exact H2|exact (eq_trans Hw2 Hw1)].
  - split; [exact H2|exact (eq_trans Hw2 Hw1)].
Qed.

Lemma tls1_prf_rfc5246_witness :
  match CRYPTO_tls1_prf sample_malloc Some (replicate 128 7) Md5Sha1 [0; 0; 9] 2 [1; 2; 3] [4] [5] [] (World ∅ 0) with
  | Ret (true, out) w' => out = standard_PRF Md5Sha1 [1; 2; 3] [4] ([5] ++ []) 2 ++ zdrop 2 [0; 0; 9] /\ w_blocks w' = ∅
  | Ret (false, _) w' => malloc_fails sample_malloc /\ w_blocks w' = ∅
  | _ => False
  end.
Proof.
  apply (tls1_prf_rfc5246 sample_malloc Some (replicate 128 7) Md5Sha1 [0; 0; 9] 2 [1; 2; 3] [4] [5] [] (World ∅ 0)).
  - exact sample_malloc_spec.
  - reflexivity.
  - split; [repeat constructor; unfold is_byte; lia|reflexivity].
  - split; [repeat constructor; unfold is_byte; lia|reflexivity].
  - split; [repeat constructor; unfold is_byte; lia|reflexivity].
  - split; [constructor|reflexivity].
  - split; [lia|reflexivity].
  - vm_compute. discriminate.
Defined.

(** 100 bytes with SHA-256, of a test vector that circulates for TLS 1.2. *)
Example tls1_prf_case : forall n, exists w,
  CRYPTO_tls1_prf sample_malloc Some (replicate 128 7) Sha256 (replicate 100 1) 100
    [0x9b; 0xbe; 0x43; 0x6b; 0xa9; 0x40; 0xf0; 0x17; 0xb1; 0x76; 0x52; 0x84; 0x9a; 0x71; 0xdb; 0x35]
    [0x74; 0x65; 0x73; 0x74; 0x20; 0x6c; 0x61; 0x62; 0x65; 0x6c]
    [0xa0; 0xba; 0x9f; 0x93; 0x6c; 0xda; 0x31; 0x18; 0x27; 0xa6; 0xf7; 0x96; 0xff; 0xd5; 0x19; 0x8c]
    [] (World ∅ n) =
  Ret (true,
    [0xe3; 0xf2; 0x29; 0xba; 0x72; 0x7b; 0xe1; 0x7b; 0x8d; 0x12; 0x26; 0x20; 0x55; 0x7c; 0xd4; 0x53;
     0xc2; 0xaa; 0xb2; 0x1d; 0x07; 0xc3; 0xd4; 0x95; 0x32; 0x9b; 0x52; 0xd4; 0xe6; 0x1e; 0xdb; 0x5a;
     0x6b; 0x30; 0x17; 0x91; 0xe9; 0x0d; 0x35; 0xc9; 0xc9; 0xa4; 0x6b; 0x4e; 0x14; 0xba; 0xf9; 0xaf;
     0x0f; 0xa0; 0x22; 0xf7; 0x07; 0x7d; 0xef; 0x17; 0xab; 0xfd; 0x37; 0x97; 0xc0; 0x56; 0x4b; 0xab;
     0x4f; 0xbc; 0x91; 0x66; 0x6e; 0x9d; 0xef; 0x9b; 0x97; 0xfc; 0xe3; 0x4f; 0x79; 0x67; 0x89; 0xba;
     0xa4; 0x80; 0x82; 0xd1; 0x22; 0xee; 0x42; 0xc5; 0xa7; 0x2e; 0x5a; 0x51; 0x10; 0xff; 0xf7; 0x01;
     0x87; 0x34; 0x7b; 0x66]) w.
Proof. intros n. eexists. vm_compute. reflexivity. Qed.
